(* ===== verification/_CoqProject ===== *)
-Q . S2P
Prelude.v
Handler.v
SharedMap.v
TokenManager.v
Bitcoin.v
MempoolMirror.v
JdpHandlers.v
Merkle.v
JobValidation.v
ValidationEngine.v
JobDeclarator.v
Payout.v
JobStore.v
Fallback.v
Setup.v
ShareCache.v
ServerChannels.v
ShareForward.v
JdClient.v
JdcManager.v
JdcTemplates.v
JdcSystem.v
JdcFrame.v
JdcRefines.v
JdcPending.v
JdcTokens.v
JdcJobs.v
ClientChannels.v
TproxyManager.v
TproxyIds.v
TproxyHistory.v
TproxyInv.v
TproxyChannels.v
TproxyJobs.v
TproxyGroups.v
TproxyExamples.v
Sv1Api.v
Sv1Downstream.v
Sv1Server.v
Sv1Difficulty.v
Sv1System.v
Sv1Inv.v
Sv1Keeps.v
Sv1Upstream.v
Sv1Safety.v
Sv1Properties.v
Sv1Examples.v
Pool.v
PoolInv.v
PoolChannels.v
PoolSafety.v
PoolBroadcast.v
PoolAnswers.v
PoolExamples.v
TdpTemplates.v
TdpSystem.v
TdpTasks.v
TdpInv.v
TdpSafety.v
TdpProperties.v
TdpExamples.v
JdcExamples.v
Connection.v
TproxyRuntime.v
TproxyFailover.v
TproxyRuntimeExamples.v
JdcRuntime.v
JdcFailover.v
JdcRuntimeExamples.v
