(* ===== verification/Prelude.v ===== *)
(** * Verification of the Stratum V2 applications

    The repository holds the applications of a Stratum V2 mining stack and
    the library they share.  This development models their own logic as Rocq
    functions and step relations, and proves what makes it correct.

    ** The program

    - A _pool_ ([pool-apps/pool]) gives miners channels and jobs and accounts
      their shares.
    - A _JD server_ ([pool-apps/jd-server]) lets miners choose their own
      transactions: it hands out tokens, has a declared job validated by
      Bitcoin Core ([bitcoin-core-sv2]) and, when the pool receives the job as
      a [SetCustomMiningJob], decides whether it is the declared one.
    - A _JD client_ ([miner-apps/jd-client]) declares jobs on behalf of its
      miners, sets them at the pool and relays the miners' shares.
    - A _translator_ ([miner-apps/translator]) connects SV1 miners.  Its SV1
      server talks to the miners; its SV2 channel manager opens their channels
      at the upstream pool and keeps the jobs.
    - [stratum-apps] holds what they share: locked collections, payout modes,
      fallback coordination, frame classification.

    ** Files

    Shared:
    - [Prelude]: panics and results, machine integers, sums over lists and
      maps, little-endian words, tactics and the hint database [sv2].
    - [Handler]: the monad of message handlers, which run on a state, end
      with a value or an error and may panic, with weakest preconditions [wp]
      and the relation [evolves] between the states before and after.
    - [SharedMap]: [SharedMap], [SharedSet], [SharedLock]
      ([stratum-apps/src/sync.rs]).
    - [Payout]: payout modes, the coinbase outputs a pool builds and their
      verification by a proxy ([payout.rs]).
    - [Fallback]: the fallback coordinator ([fallback_coordinator.rs]).
    - [Setup]: frame classification and the [SetupConnection] handlers.

    The JD server and its Bitcoin Core backend:
    - [TokenManager]: the tokens ([token_management/mod.rs]).
    - [Bitcoin]: the interface to the [bitcoin] crate and the message records.
    - [MempoolMirror]: the backend's transaction cache ([v31x/.../mempool.rs]).
    - [JdpHandlers]: the backend's declaration handler ([v31x/.../handlers.rs],
      [mod.rs], [io.rs]).
    - [Merkle], [JobValidation]: declared jobs and their comparison with a
      custom job ([job_validation/bitcoin_core_ipc.rs]).
    - [ValidationEngine]: the trait [JobValidationEngine] as a class, its laws,
      and the Bitcoin Core engine as their instance.
    - [JobDeclarator]: the handlers, error actions, connections and shutdown,
      over any engine that satisfies the laws.

    The template distribution backend over Bitcoin Core IPC
    ([bitcoin-core-sv2/.../template_distribution_protocol/]):
    - [TdpTemplates]: a template, its messages, its retirement, the archive of
      solutions ([template_data.rs]).
    - [TdpSystem]: what the tasks share and do between awaits ([mod.rs],
      [handlers.rs]).
    - [TdpTasks]: the tasks and the step relation [tdp_step] ([monitors.rs]).
    - [TdpInv]: what a template source may send ([client_view]) and the
      invariant of the shared state; [TdpSafety]: its preservation by every
      step; [TdpProperties]: the theorems; [TdpExamples]: runs.

    The pool's channel manager ([pool/.../channel_manager/]):
    - [ServerChannels]: the downstream side of [channels_sv2] as a class of
      operations ([ServerChannels]) and a class of laws ([ChannelLaws]).
    - [Pool]: the state, every handler, and the manager's loop beside the
      other tasks as the step relation [pool_step].
    - [PoolInv], [PoolChannels], [PoolSafety]: the invariant, its
      preservation by every handler, and what holds in reachable states.
    - [PoolBroadcast], [PoolAnswers]: what single messages lead to.
    - [PoolExamples]: concrete channels, and the theorems applied to them.

    The JD client:
    - [ShareCache], [ShareForward]: the share path, from a miner's channel to
      the pool ([utils.rs], [channel_manager/downstream_message_handler.rs],
      [upstream_message_handler.rs]).
    - [JdClient]: its side of job declaration, its mode and the connections
      it opens ([jd_message_handler.rs], [jd_mode.rs]).
    - [JdcManager], [JdcTemplates], [JdcSystem]: the whole channel manager.
      The state around that of the share path, the miners' requests and the
      wait for the upstream channel ([downstream_message_handler.rs],
      [mod.rs]); templates, declarations and custom jobs
      ([template_message_handler.rs]); the pool's answers
      ([upstream_message_handler.rs], [extensions_message_handler.rs]),
      variable difficulty, connections, and the loop as [jdc_step].
    - [JdcFrame]: which parts of the state a handler leaves alone.
    - [JdcRefines]: the manager refines the share path of [ShareForward].
    - [JdcPending], [JdcTokens], [JdcJobs]: the wait for the upstream
      channel, the stock of tokens, the jobs made from templates.
    - [JdcExamples]: concrete runs, on the channels of [PoolExamples].

    The translator's SV2 channel manager ([translator/.../sv2/channel_manager/]):
    - [ClientChannels]: the upstream side of [channels_sv2] as the classes
      [ClientChannels] and [ClientLaws].
    - [TproxyManager]: the state, every handler and the step relation.
    - [TproxyIds]: the search for channel ids, worker names.
    - [TproxyInv], [TproxyChannels]: the invariant in reachable states.
    - [TproxyHistory], [TproxyJobs], [TproxyGroups]: the history of what was
      sent to the SV1 server, paid jobs, group channels.
    - [TproxyExamples]: concrete runs.

    The translator's SV1 server ([translator/.../sv1/]):
    - [Sv1Api]: the SV1 messages, the difficulty control and the hashing as
      classes ([Sv1Types], [Sv1Api]) with laws ([Sv1Laws]).
    - [JobStore]: the store of jobs ([job_store.rs]).
    - [Sv1Downstream]: the state and the task of one miner ([downstream.rs]).
    - [Sv1Server]: the server's tables and the miners' requests
      ([sv1_server/mod.rs], [sv1_server/downstream_message_handler.rs]).
    - [Sv1Difficulty]: difficulties ([sv1_server/difficulty_manager.rs]).
    - [Sv1System]: the upstream's messages, disconnections, keepalive jobs,
      and the server beside its miners as the step relation [sv1_step]; a run
      [sv1_run] keeps the messages of the upstream in the order handled.
    - [Sv1Inv], [Sv1Keeps], [Sv1Upstream], [Sv1Safety]: the invariant, which
      names the messages and the targets that the jobs and the shares come
      from ([Sources]), and its preservation; [Sv1Properties]: the theorems;
      [Sv1Examples]: runs.

    From start-up to exit, and what becomes of lost connections:
    - [Connection]: dialling a server, [SetupConnection], the loop that routes
      a connection's frames and its reaction to errors, for the translator's
      upstream and the JD client's pool and JD server; total correctness
      ([twp]) and ordered logs, for the proofs of both runtimes.
    - [TproxyRuntime]: the translator's runtime and main loop
      ([translator_runtime.rs], [lib/mod.rs]); [TproxyFailover]: the search
      for an upstream and the runs; [TproxyRuntimeExamples]: a run.
    - [JdcRuntime]: the JD client's runtime and main loop ([jdc_runtime.rs],
      [lib/mod.rs]); [JdcFailover] and [JdcRuntimeExamples] likewise.
    What network, sockets and the tasks of a running session do is an
    argument there: an attempt, an exchange or a session is a record of
    outcomes, and the theorems hold for all of them.  A session goes on, or
    ends with cancelled tokens, or with the abort of the process that a panic
    in a task holding a fallback handler causes ([SessionEnd]).

    Definitions keep the names of the code.  State is a record threaded
    through the operations; maps are [gmap]s, hashes the numbers their bytes
    encode, [u32] and [u64] values elements of [N] with the wrap-around
    written out.  A computation that can panic has type [rust A], one that
    can fail [result A E], a message handler [prog S E A].

    Crates outside the repository are parameters: the classes [BitcoinApi],
    [AddressApi], [MessageTypes], [ChannelsSv2], [ServerChannels],
    [ClientChannels], [Sv1Types], [Sv1Api], [TemplateApi] and
    [CommonMessages], and section variables.
    What a theorem relies on of them is a class of laws or a hypothesis, and
    its witness instantiates them with concrete functions.

    ** Theorems

    - Tokens: every token follows the life cycle fresh, allocated, active,
      dead; tokens handed out are distinct; an active token keeps the identity
      it was allocated to.
    - Backend: the mirror stays within its weight ceiling and holds only
      transactions Bitcoin Core vouched for; a job reported valid is the block
      Bitcoin Core checked on the same tip; no handler panics.
    - Template distribution: what is sent is what a template source may send,
      and the usable templates are the tip's and its newest refreshes; requests
      are answered accordingly; a superseded template takes solutions for ten
      more seconds; refreshes keep their distance; archived solutions are
      blocks; both versions of Bitcoin Core lead to the same messages.
    - Engine: an accepted custom job commits to the declared coinbase and
      transactions (through the merkle path); a declared job is set at most
      once; a disconnected client leaves nothing behind; which coinbase
      prefixes make it panic.
    - JD server: a custom job is accepted exactly when its token is active,
      bound to the presenting identity and names a validated job equal to it;
      an active token works once; no state outlives its connection; every
      declaration gets one answer; when the message loop panics.
    - Pool: in reachable states the tables agree, channels search distinct
      extranonces and every block pays what the identities of the
      connection's channels ask for; a template reaches everyone it is for;
      which custom jobs are passed on to their channel, and that the channel
      then decides ([custom_job_set_iff]); the answers to requests; the
      solutions submitted are blocks.
    - JD client: over any run, each share sent to the pool is a share valid on
      its miner's channel, sent once, with increasing sequence numbers; the
      cache keeps the best shares and never shares of an acknowledged job; an
      acknowledgement submits exactly the shares the channel accepts; asked
      for missing transactions by position, the client answers with those the
      server misses.  The whole channel manager refines that share path: over
      any history, what it sent to the pool is among the valid shares the
      miners submitted in it, each no more often than submitted
      ([manager_submits_once]).  It asks its pool for one channel at a time and
      keeps miners waiting only for it; a grant answers those who wait, except
      when the first of them has left; a template reaches every channel and
      is recorded under the id of the job made of it; in coinbase-only mode no tokens means none ever
      again, and an early chain tip wastes one.
    - Translator, SV2 side: miners search apart; a job handed to the SV1
      server was found to pay what the configuration demands, with extranonces
      of the channel's size, and comes after the prefix its shares are checked
      with; forwarded shares are accepted miner's work;
      group channels partition the open ones; channel ids are found.
    - Translator, SV1 side: a share handed on is for a job the miner was sent
      and meets the first target or one chosen for this miner earlier in the
      run, which it need not have been told yet; shares are checked with the
      prefix told last before their job, at subscription or later; what miners
      work on is a job the upstream sent in the run, on the previous hash
      their channel had then; when exactly a share is accepted; the tables
      agree and stay within their bounds; keepalive jobs advance within
      theirs; a miner that leaves leaves nothing.
    - Payouts: what verification guarantees the miner; a proxy accepts what
      the pool builds; parsing of identities; conservation of the value.
    - Runtimes: upstreams are tried in order, three times each and never
      again ([upstreams_tried_in_order], [pairs_tried_in_order]); the first
      that answers is used ([first_answering_upstream]) and the services are
      told its identity ([services_match_upstream], [session_follows_servers]);
      the translator stops when none is left ([failover_ends]), the JD client
      mines for the first pair left that answers, alone only if none does
      ([session_follows_servers]), and its failover code neither panics nor
      gives up ([client_keeps_mining]; a panic of a session's own tasks is an
      outcome of the session); frames reach the channel manager in order
      ([frames_delivered]).
    - Job store, fallback, set-up: refinement of the list of newest jobs; no
      lost wake-up, and when the trigger returns; classification and
      acceptance of connections.

    ** Bounds, fuel and atomicity

    - The merkle loop runs on fuel equal to the number of hashes, which halves
      in each round; the eviction loop of the job store on the number of past
      jobs, one of which each round removes; the search for a channel id on
      the number of channels; the translator's main loop on the number of
      upstreams, of which each session but the last uses one up.  All are
      proved sufficient.  The JD client's loop has no such bound, since it may
      mine alone for ever; its theorems hold for any fuel.
    - Tokens are unique as long as fewer than 2^64 were handed out, sequence
      numbers increase as long as fewer than 2^32 - 1 shares were valid, ids
      of connections as long as fewer than 2^64 miners came, ids of templates
      as long as a run has fewer than 2^64 events.
    - A handler's code between two awaits on another component is one step,
      although tasks run on several threads; a send on an unbounded queue is
      no such await.  Handlers that await an answer are split there ([Pool]
      at the job declarator, [JdpHandlers], [ValidationEngine] and [TdpTasks] at
      Bitcoin Core), and the steps of other tasks may come in between; in [Fallback]
      every access to shared memory is a step.
    - A handler that panics ends the run with the state it started from.
      Poisoned locks are modelled only in [SharedMap].
    - Iteration orders the libraries do not promise (hash maps, heaps) are
      arguments.

    ** Findings

    - [get_coinbase_tx] panics on malformed coinbase prefixes, which stops the
      JD server's message loop ([jds_panics_iff]).
    - A second declaration under a token orphans the first job, which the
      janitor then never removes ([orphaned_job_never_pruned]).
    - A registration racing with the last finishing component lets the
      fallback trigger return early ([fallback_returns_early]).
    - A difficulty held back by the translator's SV1 server already judges
      the shares of a miner that was told an easier one
      ([held_back_target_judges_shares]).
    - The JD client serves the requests that waited for its channel only up to
      the first that fails; if that miner has left, the others are forgotten
      ([left_miner_drops_waiting]).
    - In coinbase-only mode a chain tip before the channel is there takes a
      token and does not replace it ([early_tip_wastes_token]); after two of
      them the client sets no custom job any more ([coinbase_only_starves]).
    - Some errors of the JD client's manager are dropped, its variable
      difficulty orders targets by their least significant byte, and two of
      its custom jobs pay the configured outputs without the template's value;
      a token without coinbase outputs makes the next template panic it.
    - The translator panics on two messages of its upstream it has no handler
      for, which aborts the process ([frames_delivered]).
    - A JD server whose answer to the set-up does not parse leaves the client
      without it, in solo mode and without a fallback, while it sends its
      miners' requests to a pool it does not listen to
      ([unreadable_answer_strands]); an identity of more than 255 bytes panics
      the start of the client.

    ** Not modelled

    Sockets, Noise, DNS, Cap'n Proto transport, parsing and encoding of
    messages, the start-up of the pool and the JD server, the tasks that move
    bytes between sockets and queues, configuration files, HTTP monitoring and log
    output; the v30x backends, copies of the v31x code (the declaration handler
    differs in one IPC call, the templates in the coinbase, see
    [core_versions_agree]); integration tests and benchmarks. *)
From Stdlib Require Export Strings.Byte.
From stdpp Require Export base numbers list gmap fin_maps strings pretty sorting.

#[global] Open Scope N_scope.

(** * Fallible and panicking computations

    [result] is Rust's [Result]; [rust A] is a computation that either
    returns or panics (an out-of-range slice, an [expect] on [None], an
    arithmetic underflow with overflow checks, a capacity overflow). *)
Inductive result (A E : Type) : Type :=
| Ok (a : A)
| Err (e : E).
Arguments Ok {A E} a.
Arguments Err {A E} e.

Inductive rust (A : Type) : Type :=
| Done (a : A)
| Panic.
Arguments Done {A} a.
Arguments Panic {A}.

#[export] Instance rust_ret : MRet rust := λ A, Done.
#[export] Instance rust_bind : MBind rust := λ A B f c,
  match c with Done a => f a | Panic => Panic end.

(** [Option::expect]: the value, or a panic. *)
Definition expect {A} (o : option A) : rust A :=
  match o with Some a => Done a | None => Panic end.

Definition is_done {A} (c : rust A) : Prop := ∃ a, c = Done a.

Lemma rust_bind_done {A B} (f : A → rust B) (c : rust A) (b : B) :
  (c ≫= f) = Done b ↔ ∃ a, c = Done a ∧ f a = Done b.
Proof. destruct c; simpl; naive_solver. Qed.

Lemma expect_done {A} (o : option A) (a : A) : expect o = Done a ↔ o = Some a.
Proof. destruct o; simpl; naive_solver. Qed.

(** For examples: the value of a computation known to return. *)
Definition done_b {A} (c : rust A) : bool := match c with Done _ => true | Panic => false end.
Definition done_or {A} (d : A) (c : rust A) : A := match c with Done a => a | Panic => d end.

Lemma done_or_eq {A} (d : A) (c : rust A) : done_b c = true → c = Done (done_or d c).
Proof. by destruct c. Qed.
Lemma default_of_b {V} (v : V) (o : option V) : bool_decide (is_Some o) = true → o = Some (default v o).
Proof. intros [w ->]%bool_decide_eq_true. done. Qed.

#[export] Instance result_eq_dec {A E} `{EqDecision A, EqDecision E} :
  EqDecision (result A E).
Proof. solve_decision. Defined.

#[export] Instance rust_eq_dec {A} `{EqDecision A} : EqDecision (rust A).
Proof. solve_decision. Defined.

(** * Unsigned machine integers

    A [u64]/[usize] value is an [N]; the operations that can leave the range
    are written with their wrap-around (what a release build computes). *)
Definition u64_modulus : N := 18446744073709551616.
Definition u32_modulus : N := 4294967296.
Definition u64_max : N := 18446744073709551615.
Definition isize_max : N := 9223372036854775807.
Definition u64_wrap (n : N) : N := n mod u64_modulus.
Definition u32_wrap (n : N) : N := n mod u32_modulus.
Definition u64_add (a b : N) : N := u64_wrap (a + b).
Definition u64_mul (a b : N) : N := u64_wrap (a * b).

(** [saturating_sub] and [saturating_duration_since] on unsigned values are
    the truncated subtraction of [N]. *)
Definition saturating_sub (a b : N) : N := a - b.

(** [div_ceil]. *)
Definition div_ceil (a b : N) : N :=
  if (a mod b =? 0)%N then a / b else a / b + 1.

Lemma u64_wrap_small n : n < u64_modulus → u64_wrap n = n.
Proof. intros. by apply N.mod_small. Qed.

Lemma u64_wrap_lt n : u64_wrap n < u64_modulus.
Proof. by apply N.mod_lt. Qed.

Lemma u64_add_small a b : a + b < u64_modulus → u64_add a b = a + b.
Proof. apply u64_wrap_small. Qed.

Lemma u64_mul_small a b : a * b < u64_modulus → u64_mul a b = a * b.
Proof. apply u64_wrap_small. Qed.

(** [div_ceil] is the least multiple count that covers [a]. *)
Lemma div_ceil_spec a b n : b ≠ 0 → div_ceil a b ≤ n ↔ a ≤ b * n.
Proof.
  intros Hb. unfold div_ceil. pose proof (N.div_mod a b Hb) as E.
  pose proof (N.mod_lt a b Hb) as Hlt. revert E Hlt.
  generalize (a / b) (a mod b). intros q r -> Hlt.
  destruct (N.eqb_spec r 0) as [->|Hz].
  - rewrite N.add_0_r. apply N.mul_le_mono_pos_l. lia.
  - split; intros; nia.
Qed.

(** * Sums over lists and maps *)
Definition sumN {A} (f : A → N) (l : list A) : N :=
  foldr (λ x acc, f x + acc) 0 l.

#[global] Arguments sumN : simpl never.

Section sumN.
Context {A : Type} (f : A → N).
Implicit Types l : list A.

Lemma sumN_nil : sumN f [] = 0.
Proof. done. Qed.

Lemma sumN_cons x l : sumN f (x :: l) = f x + sumN f l.
Proof. done. Qed.

Lemma sumN_app l1 l2 : sumN f (l1 ++ l2) = sumN f l1 + sumN f l2.
Proof.
  induction l1 as [|x l1 IH]; [done|].
  rewrite <-app_comm_cons, !sumN_cons, IH. lia.
Qed.

#[export] Instance sumN_proper : Proper (Permutation ==> eq) (sumN f).
Proof. induction 1; rewrite ?sumN_cons; lia. Qed.

Lemma sumN_sublist l1 l2 : sublist l1 l2 → sumN f l1 ≤ sumN f l2.
Proof. induction 1; rewrite ?sumN_cons; lia. Qed.

Lemma sumN_submseteq l1 l2 : l1 ⊆+ l2 → sumN f l1 ≤ sumN f l2.
Proof.
  intros [k Hk]%submseteq_Permutation. rewrite Hk, sumN_app. lia.
Qed.

Lemma sumN_elem x l : x ∈ l → f x ≤ sumN f l.
Proof. induction 1; rewrite ?sumN_cons; lia. Qed.
End sumN.

Lemma sumN_fmap {A B} (f : B → N) (g : A → B) (l : list A) :
  sumN f (g <$> l) = sumN (λ x, f (g x)) l.
Proof.
  induction l as [|x l IH]; [done|]. by rewrite fmap_cons, !sumN_cons, IH.
Qed.

Lemma sumN_ext {A} (f g : A → N) (l : list A) :
  (∀ x, x ∈ l → f x = g x) → sumN f l = sumN g l.
Proof.
  induction l as [|x l IH]; intros H; [done|]. rewrite !sumN_cons, IH.
  - rewrite H; [done|left].
  - intros y ?. apply H. by right.
Qed.

Section map_sum.
Context {K : Type} `{Countable K} {A : Type} (f : A → N).
Implicit Types m : gmap K A.

(** The sum of [f] over the values of a map, [values().map(f).sum()]. *)
Definition map_sum m : N := sumN (λ kx, f kx.2) (map_to_list m).

Lemma map_sum_empty : map_sum ∅ = 0.
Proof. unfold map_sum. by rewrite map_to_list_empty. Qed.

Lemma map_sum_perm m l : l ≡ₚ map_to_list m → sumN (λ kx, f kx.2) l = map_sum m.
Proof. intros Hp. unfold map_sum. by rewrite Hp. Qed.

Lemma map_sum_insert m k x :
  m !! k = None → map_sum (<[k:=x]> m) = f x + map_sum m.
Proof. intros. unfold map_sum. by rewrite map_to_list_insert. Qed.

Lemma map_sum_delete m k x :
  m !! k = Some x → map_sum m = f x + map_sum (delete k m).
Proof.
  intros Hk. rewrite <-(insert_delete_id m k x Hk) at 1.
  apply map_sum_insert, lookup_delete_eq.
Qed.

Lemma map_sum_subseteq m1 m2 : m1 ⊆ m2 → map_sum m1 ≤ map_sum m2.
Proof. intros. apply sumN_submseteq. by apply map_to_list_submseteq. Qed.

Lemma map_sum_union m1 m2 :
  m1 ##ₘ m2 → map_sum (m1 ∪ m2) = map_sum m1 + map_sum m2.
Proof.
  revert m2. induction m1 as [|k x m1 Hk IH] using map_ind; intros m2 Hd.
  - by rewrite (left_id_L ∅ (∪)), map_sum_empty.
  - apply map_disjoint_insert_l in Hd as [Hk2 Hd].
    rewrite <-insert_union_l, !map_sum_insert, (IH m2 Hd); [lia|done|].
    by rewrite lookup_union_None.
Qed.

Lemma map_sum_filter_split (P : K * A → Prop) `{∀ x, Decision (P x)} m :
  map_sum m = map_sum (filter P m) + map_sum (filter (λ x, ¬ P x) m).
Proof.
  rewrite <-map_sum_union by apply map_disjoint_filter_complement.
  by rewrite map_filter_union_complement.
Qed.

Lemma map_sum_of_list (l : list (K * A)) :
  NoDup l.*1 → map_sum (list_to_map l) = sumN (λ kx, f kx.2) l.
Proof. intros. symmetry. apply map_sum_perm. by rewrite map_to_list_to_map. Qed.

Lemma map_sum_filter_of_list (P : K * A → Prop) `{∀ x, Decision (P x)} (l : list (K * A)) :
  NoDup l.*1 →
  map_sum (filter P (list_to_map l : gmap K A)) = sumN (λ kx, f kx.2) (filter P l).
Proof.
  intros Hnd. rewrite map_filter_alt, map_sum_of_list.
  - by rewrite map_to_list_to_map.
  - eapply sublist_NoDup; [apply (NoDup_fst_map_to_list (list_to_map l : gmap K A))|].
    apply fmap_sublist, sublist_filter.
Qed.
End map_sum.

(** * Bytes and little-endian words *)
Definition byte_of (n : N) : byte :=
  match Byte.of_N (n mod 256) with Some b => b | None => x00 end.

(** [u64::to_le_bytes] for a word of [n] bytes, and [from_le_bytes]. *)
Fixpoint to_le_bytes (n : nat) (x : N) : list byte :=
  match n with
  | O => []
  | S n' => byte_of x :: to_le_bytes n' (x / 256)
  end.

Fixpoint from_le_bytes (bs : list byte) : N :=
  match bs with
  | [] => 0
  | b :: bs' => Byte.to_N b + 256 * from_le_bytes bs'
  end.

Lemma byte_of_to_N n : Byte.to_N (byte_of n) = n mod 256.
Proof.
  unfold byte_of. destruct (Byte.of_N (n mod 256)) as [b|] eqn:E.
  - by apply Byte.to_of_N.
  - apply Byte.of_N_None_iff in E. pose proof (N.mod_lt n 256). lia.
Qed.

Lemma byte_of_id b : byte_of (Byte.to_N b) = b.
Proof.
  pose proof (Byte.to_N_bounded b). unfold byte_of.
  rewrite N.mod_small by lia. by rewrite Byte.of_to_N.
Qed.

Lemma byte_add_mod b n : (Byte.to_N b + 256 * n) mod 256 = Byte.to_N b.
Proof.
  pose proof (Byte.to_N_bounded b).
  rewrite (N.mul_comm 256), N.Div0.mod_add, N.mod_small; lia.
Qed.

Lemma byte_add_div b n : (Byte.to_N b + 256 * n) / 256 = n.
Proof.
  pose proof (Byte.to_N_bounded b).
  rewrite (N.mul_comm 256), N.div_add, N.div_small; lia.
Qed.

Lemma to_le_bytes_length n x : length (to_le_bytes n x) = n.
Proof. revert x. induction n as [|n IH]; intros x; cbn; [done|]. by rewrite IH. Qed.

Lemma from_to_le_bytes n x :
  from_le_bytes (to_le_bytes n x) = x mod 256 ^ N.of_nat n.
Proof.
  revert x. induction n as [|n IH]; intros x; cbn [to_le_bytes from_le_bytes].
  - by rewrite N.mod_1_r.
  - rewrite IH, byte_of_to_N, Nat2N.inj_succ, N.pow_succ_r'.
    rewrite N.Div0.mod_mul_r. lia.
Qed.

Lemma to_from_le_bytes bs : to_le_bytes (length bs) (from_le_bytes bs) = bs.
Proof.
  induction bs as [|b bs IH]; [done|]. cbn [length from_le_bytes to_le_bytes].
  rewrite byte_add_div, IH. f_equal.
  unfold byte_of. rewrite byte_add_mod. by rewrite Byte.of_to_N.
Qed.

Lemma from_le_bytes_lt bs : from_le_bytes bs < 256 ^ N.of_nat (length bs).
Proof.
  induction bs as [|b bs IH]; [cbn; lia|].
  cbn [length from_le_bytes]. rewrite Nat2N.inj_succ, N.pow_succ_r'.
  pose proof (Byte.to_N_bounded b). lia.
Qed.

(** [B032::try_from] and [B064K::try_from]. *)
Definition fits_b032 (bs : list byte) : bool := (N.of_nat (length bs) <=? 32)%N.
Definition fits_b064k (bs : list byte) : bool := (N.of_nat (length bs) <=? 65535)%N.

(** A job token on the wire: eight little-endian bytes
    ([try_as_array::<8>] followed by [u64::from_le_bytes]). *)
Definition parse_token (bs : list byte) : option N :=
  if decide (length bs = 8%nat) then Some (from_le_bytes bs) else None.

Definition print_token (t : N) : list byte := to_le_bytes 8 t.

Lemma parse_print_token t : t < u64_modulus → parse_token (print_token t) = Some t.
Proof.
  intros. unfold parse_token, print_token. rewrite to_le_bytes_length.
  rewrite decide_True by done. f_equal.
  rewrite from_to_le_bytes. by apply N.mod_small.
Qed.

Lemma parse_token_print bs t : parse_token bs = Some t → print_token t = bs.
Proof.
  unfold parse_token, print_token. case_decide as Hl; [|done].
  intros [= <-]. rewrite <-Hl. apply to_from_le_bytes.
Qed.

(** * Maps related entry by entry *)
Section map_relation.
Context {V : Type}.
Lemma map_Forall2_refl (R : V → V → Prop) `{!Reflexive R} (m : gmap N V) :
  map_Forall2 (λ _, R) m m.
Proof. intros k. by destruct (m !! k); constructor. Qed.

Lemma map_Forall2_trans (R : V → V → Prop) `{!Transitive R} (m1 m2 m3 : gmap N V) :
  map_Forall2 (λ _, R) m1 m2 → map_Forall2 (λ _, R) m2 m3 → map_Forall2 (λ _, R) m1 m3.
Proof.
  intros H1 H2 k. specialize (H1 k). specialize (H2 k).
  destruct H1; inversion H2; subst; constructor. by etrans.
Qed.

Lemma map_Forall2_insert_one (R : V → V → Prop) `{!Reflexive R} (m : gmap N V) k v v' :
  m !! k = Some v → R v v' → map_Forall2 (λ _, R) m (<[k := v']> m).
Proof.
  intros Hk HR j. destruct (decide (j = k)) as [->|].
  - rewrite Hk, lookup_insert_eq. by constructor.
  - rewrite lookup_insert_ne by done. by destruct (m !! j); constructor.
Qed.

Lemma map_Forall2_is_Some (R : V → V → Prop) (m m' : gmap N V) k :
  map_Forall2 (λ _, R) m m' → is_Some (m !! k) ↔ is_Some (m' !! k).
Proof.
  intros Hm. destruct (Hm k); split; intros [? ?]; try done; by eexists.
Qed.
End map_relation.

(** * The values of a map *)
Section values.
Context {K : Type} `{Countable K} {V : Type}.
Implicit Types (m : gmap K V) (k : K) (v : V).

Definition values m : list V := (map_to_list m).*2.

Lemma values_empty : values ∅ = [].
Proof. unfold values. by rewrite map_to_list_empty. Qed.

Lemma values_insert m k v : values (<[k := v]> m) ≡ₚ v :: values (delete k m).
Proof.
  unfold values. rewrite <-insert_delete_eq, map_to_list_insert by apply lookup_delete_eq. done.
Qed.

Lemma values_lookup m k v : m !! k = Some v → values m ≡ₚ v :: values (delete k m).
Proof. intros Hk. rewrite <-(insert_id m k v Hk) at 1. apply values_insert. Qed.

Lemma values_absent m k : m !! k = None → values (delete k m) = values m.
Proof. intros Hk. by rewrite delete_id. Qed.

Lemma elem_of_values m v : v ∈ values m ↔ ∃ k, m !! k = Some v.
Proof.
  unfold values. rewrite list_elem_of_fmap. split.
  - intros ([k w] & -> & Hk). exists k. by apply elem_of_map_to_list.
  - intros [k Hk]. exists (k, v). by rewrite elem_of_map_to_list.
Qed.

Lemma values_fmap {W} (f : V → W) m : f <$> values m ≡ₚ (map_to_list (f <$> m)).*2.
Proof.
  unfold values. rewrite map_to_list_fmap, <-!list_fmap_compose. apply reflexive_eq.
  by apply list_fmap_ext.
Qed.
End values.

(** * Tactics and hints *)

(** Both sides evaluate to the same value; unlike [vm_compute], nothing is
    read back, so that type parameters are not normalised. *)
Ltac vm_eq := lazymatch goal with |- _ = ?y => vm_cast_no_check (eq_refl y) end.

(** The record [r] with the field [proj] replaced by [v]; [eta] rebuilds a
    record of the type from its fields. *)
Ltac update_field eta proj v r :=
  let e := eval red in (eta r) in
  match eval pattern (proj r) in e with
  | ?build _ => let t := eval cbv beta in (build v) in exact t
  end.

(** Case analysis on the tests of an unfolded handler, closing the branches
    that contradict the context. *)
Ltac solve_cases :=
  repeat (case_match || case_decide || case_bool_decide); simplify_eq/=; try done.

Create HintDb sv2.
#[export] Hint Resolve u64_wrap_lt to_le_bytes_length parse_print_token
  sumN_sublist map_sum_subseteq : sv2.

(** Sub-map goals left by an operation that only removes entries. *)
Lemma gmap_delete_subseteq {K} `{Countable K} {A} (m : gmap K A) k : delete k m ⊆ m.
Proof. apply delete_subseteq. Qed.
Lemma gmap_empty_subseteq {K} `{Countable K} {A} (m : gmap K A) : ∅ ⊆ m.
Proof. apply map_empty_subseteq. Qed.
#[export] Hint Resolve gmap_delete_subseteq gmap_empty_subseteq : sv2.
#[export] Hint Extern 0 (?m ⊆ ?m) => reflexivity : sv2.
