(* ===== verification/Handler.v ===== *)
(** * Message handlers

    The monad the handlers of the pool and of the translator are written in:
    a handler runs on a state, ends with a value or an error (the [?] operator
    stops at the first one) and may panic.  [wp] is its
    weakest precondition: what has to hold before for [Q] to hold of the
    result and the state afterwards, unless the handler panics. *)
From S2P Require Import Prelude.

Definition prog (S E A : Type) : Type := S → rust (result A E * S).

#[export] Instance prog_ret {S E} : MRet (prog S E) := λ A a s, Done (Ok a, s).
#[export] Instance prog_bind {S E} : MBind (prog S E) := λ A B k m s,
  match m s with
  | Panic => Panic
  | Done (Err e, s') => Done (Err e, s')
  | Done (Ok a, s') => k a s'
  end.

Section ops.
Context {S E : Type}.

(** Read the state; replace it; compute a value and the next state. *)
Definition ask {A} (f : S → A) : prog S E A := λ s, Done (Ok (f s), s).
Definition update (f : S → S) : prog S E unit := λ s, Done (Ok tt, f s).
Definition transact {A} (f : S → A * S) : prog S E A :=
  λ s, let '(a, s') := f s in Done (Ok a, s').

(** [return Err(e)]; [unreachable!()] and [expect] on [None]. *)
Definition raise {A} (e : E) : prog S E A := λ s, Done (Err e, s).
Definition crash {A} : prog S E A := λ _, Panic.

(** [let Some(a) = o else { return Err(e) }] and [o.expect(..)]. *)
Definition some_or {A} (o : option A) (e : E) : prog S E A :=
  match o with Some a => mret a | None => raise e end.
Definition some_or_crash {A} (o : option A) : prog S E A :=
  match o with Some a => mret a | None => crash end.

(** [r.map_err(f)?]. *)
Definition ok_or_raise {A F} (r : result A F) (f : F → E) : prog S E A :=
  match r with Ok a => mret a | Err e => raise (f e) end.

(** A computation that only may panic; a program over a value that is not
    part of the state, with what it leaves of the value. *)
Definition run_rust {A} (c : rust A) : prog S E A :=
  match c with Done a => mret a | Panic => crash end.
Definition on_value {V A} (p : prog V E A) (v : V) : prog S E (result A E * V) := λ s,
  match p v with Done r => Done (Ok r, s) | Panic => Panic end.

(** [p.map_err(f)], and the outcome of [p] as a value. *)
Definition map_err {A} (f : E → E) (p : prog S E A) : prog S E A := λ s,
  match p s with Done (Err e, s') => Done (Err (f e), s') | r => r end.
Definition attempt {A} (p : prog S E A) : prog S E (result A E) := λ s,
  match p s with Done (r, s') => Done (Ok r, s') | Panic => Panic end.

(** [if bad { return Err(e) }]. *)
Definition ensure (ok : bool) (e : E) : prog S E unit := if ok then mret tt else raise e.

(** [for x in l { f(x)? }] and [try_for_each]. *)
Fixpoint for_each {A} (l : list A) (f : A → prog S E unit) : prog S E unit :=
  match l with
  | [] => mret tt
  | x :: rest => f x ;; for_each rest f
  end.

(** The same, collecting what each round returns. *)
Fixpoint collect {A B} (l : list A) (f : A → prog S E (list B)) : prog S E (list B) :=
  match l with
  | [] => mret []
  | x :: rest => out ← f x; outs ← collect rest f; mret (out ++ outs)
  end.

(** ** Weakest preconditions *)
Definition wp {A} (m : prog S E A) (Q : result A E → S → Prop) (s : S) : Prop :=
  match m s with Done (r, s') => Q r s' | Panic => True end.

(** What follows a value; an error ends the handler. *)
Definition andthen {A B} (k : A → prog S E B) (Q : result B E → S → Prop)
    (r : result A E) (s : S) : Prop :=
  match r with Ok a => wp (k a) Q s | Err e => Q (Err e) s end.

Lemma wp_mono {A} (m : prog S E A) (Q Q' : result A E → S → Prop) s :
  (∀ r s', Q r s' → Q' r s') → wp m Q s → wp m Q' s.
Proof. unfold wp. destruct (m s) as [[r s']|]; auto. Qed.

Lemma wp_bind {A B} (m : prog S E A) (k : A → prog S E B) Q s :
  wp m (andthen k Q) s → wp (m ≫= k) Q s.
Proof.
  unfold wp at 1 2, mbind, prog_bind. destruct (m s) as [[[a|e] s']|]; auto.
Qed.

Lemma wp_ret {A} (a : A) Q s : Q (Ok a) s → wp (mret a) Q s.
Proof. done. Qed.
Lemma wp_raise {A} e (Q : result A E → S → Prop) s : Q (Err e) s → wp (raise e) Q s.
Proof. done. Qed.
Lemma wp_crash {A} (Q : result A E → S → Prop) s : wp crash Q s.
Proof. done. Qed.
Lemma wp_ask {A} (f : S → A) Q s : Q (Ok (f s)) s → wp (ask f) Q s.
Proof. done. Qed.
Lemma wp_update (f : S → S) Q s : Q (Ok tt) (f s) → wp (update f) Q s.
Proof. done. Qed.
Lemma wp_transact {A} (f : S → A * S) Q s :
  (∀ a s', f s = (a, s') → Q (Ok a) s') → wp (transact f) Q s.
Proof. unfold wp, transact. destruct (f s) eqn:E0. auto. Qed.
Lemma wp_some_or {A} (o : option A) e Q s :
  (∀ a, o = Some a → Q (Ok a) s) → (o = None → Q (Err e) s) → wp (some_or o e) Q s.
Proof. destruct o; [intros H _; by apply H|intros _ H; by apply H]. Qed.
Lemma wp_some_or_crash {A} (o : option A) Q s :
  (∀ a, o = Some a → Q (Ok a) s) → wp (some_or_crash o) Q s.
Proof. destruct o; [intros H; by apply H|done]. Qed.
Lemma wp_ok_or_raise {A F} (r : result A F) f Q s :
  (∀ a, r = Ok a → Q (Ok a) s) → (∀ e, r = Err e → Q (Err (f e)) s) → wp (ok_or_raise r f) Q s.
Proof. destruct r; [intros H _; by apply H|intros _ H; by apply H]. Qed.
Lemma wp_ensure ok e Q s :
  (ok = true → Q (Ok tt) s) → (ok = false → Q (Err e) s) → wp (ensure ok e) Q s.
Proof. destruct ok; [intros H _; by apply H|intros _ H; by apply H]. Qed.

Lemma wp_run_rust {A} (c : rust A) Q s :
  (∀ a, c = Done a → Q (Ok a) s) → wp (run_rust c) Q s.
Proof. destruct c; [intros H; by apply H|done]. Qed.

Lemma wp_map_err {A} (f : E → E) (p : prog S E A) (Q : result A E → S → Prop) s :
  wp p (λ r s', Q match r with Ok a => Ok a | Err e => Err (f e) end s') s → wp (map_err f p) Q s.
Proof. unfold wp, map_err. by destruct (p s) as [[[a|e] s']|]. Qed.
Lemma wp_attempt {A} (p : prog S E A) (Q : result (result A E) E → S → Prop) s :
  wp p (λ r s', Q (Ok r) s') s → wp (attempt p) Q s.
Proof. unfold wp, attempt. by destruct (p s) as [[r s']|]. Qed.

(** Loops keep what every round keeps. *)
Lemma wp_for_each {A} (l : list A) (f : A → prog S E unit) (I : S → Prop) Q s :
  I s → (∀ x s, x ∈ l → I s → wp (f x) (λ r s', I s' ∧ ∀ e, r = Err e → Q (Err e) s') s) →
  (∀ s, I s → Q (Ok tt) s) → wp (for_each l f) Q s.
Proof.
  revert s. induction l as [|x l IH]; intros s Hs Hf HQ; simpl; [by apply HQ|].
  apply wp_bind. eapply wp_mono; [|apply Hf; [by left|done]].
  intros [[]|e] s' [Hs' He]; simpl; [|by apply He].
  apply IH; [done| |done]. intros y s0 Hy. apply Hf. by right.
Qed.

Lemma wp_collect {A B} (l : list A) (f : A → prog S E (list B)) (I : S → Prop)
    (P : B → Prop) (Q : result (list B) E → S → Prop) s :
  I s →
  (∀ x s, x ∈ l → I s → wp (f x) (λ r s', I s' ∧
     match r with Ok out => Forall P out | Err e => Q (Err e) s' end) s) →
  (∀ out s, Forall P out → I s → Q (Ok out) s) → wp (collect l f) Q s.
Proof.
  revert Q s. induction l as [|x l IH]; intros Q s Hs Hf HQ; simpl; [by apply HQ|].
  apply wp_bind. eapply wp_mono; [|apply Hf; [by left|done]].
  intros [out|e] s' [Hs' Hout]; simpl; [|done].
  apply wp_bind. apply IH; [done| |].
  - intros y s0 Hy Hs0. eapply wp_mono; [|apply Hf; [by right|done]]. by intros [] s1.
  - intros outs s0 Houts Hs0. apply HQ; [by apply Forall_app|done].
Qed.

Lemma wp_sound {A} (m : prog S E A) Q s r s' : wp m Q s → m s = Done (r, s') → Q r s'.
Proof. unfold wp. intros H E0. by rewrite E0 in H. Qed.

Lemma wp_intro {A} (m : prog S E A) (Q : result A E → S → Prop) s :
  (∀ r s', m s = Done (r, s') → Q r s') → wp m Q s.
Proof. unfold wp. destruct (m s) as [[r s']|]; auto. Qed.
End ops.

Lemma wp_on_value {S V E A} (p : prog V E A) v (Q : result (result A E * V) E → S → Prop) s :
  wp p (λ r v', Q (Ok (r, v')) s) v → wp (on_value p v) Q s.
Proof. unfold wp, on_value. by destruct (p v) as [[r v']|]. Qed.

(** ** A part of the state

    [focus] runs a handler on the value a map of the state holds under [k] and
    stores what it leaves there: [SharedMap::with_mut], and [with_lock]. *)
Section focus.
Context {S V E : Type} (get : S → gmap N V) (put : gmap N V → S → S).

Definition focus {A} (k : N) (absent : prog S E A) (p : prog V E A) : prog S E A := λ s,
  match get s !! k with
  | None => absent s
  | Some v =>
      match p v with
      | Panic => Panic
      | Done (r, v') => Done (r, put (<[k := v']> (get s)) s)
      end
  end.

Lemma wp_focus {A} k absent (p : prog V E A) Q s :
  (get s !! k = None → wp absent Q s) →
  (∀ v, get s !! k = Some v → wp p (λ r v', Q r (put (<[k := v']> (get s)) s)) v) →
  wp (focus k absent p) Q s.
Proof.
  intros Habs Hp. unfold wp at 1, focus. destruct (get s !! k) as [v|]; [|by apply Habs].
  specialize (Hp v eq_refl). unfold wp in Hp. by destruct (p v) as [[r v']|].
Qed.

(** The results of a successful loop over the entries: every entry is what its
    round left, the rest of the state is untouched. *)
Definition round_ok {B} (p : prog V E (list B)) (v : V) (o : list B) (v' : V) : Prop :=
  p v = Done (Ok o, v').

Hypothesis get_put : ∀ m s, get (put m s) = m.
Hypothesis put_put : ∀ m m' s, put m (put m' s) = put m s.
Hypothesis put_get : ∀ s, put (get s) s = s.

Lemma collect_focus {B} (order : list N) (p : N → prog V E (list B)) s outs s' :
  NoDup order →
  collect order (λ k, focus k (mret []) (p k)) s = Done (Ok outs, s') →
  s' = put (get s') s ∧
  (∀ k, k ∉ order → get s' !! k = get s !! k) ∧
  (∀ k, get s !! k = None → get s' !! k = None) ∧
  (∀ k v, k ∈ order → get s !! k = Some v →
     ∃ o v', round_ok (p k) v o v' ∧ get s' !! k = Some v') ∧
  outs = concat (map (λ k, match get s !! k with
                           | Some v => match p k v with Done (Ok o, _) => o | _ => [] end
                           | None => []
                           end) order).
Proof.
  intros Hnd. revert s outs. induction Hnd as [|k order Hk Hnd IH]; intros s outs.
  { intros [= <- <-]. split_and!; first [done|by rewrite put_get|set_solver]. }
  simpl. unfold mbind at 1, prog_bind at 1, focus at 1.
  destruct (get s !! k) as [v|] eqn:Ek.
  - destruct (p k v) as [[[o|e] v']|] eqn:Ep; [|done..].
    unfold mbind, prog_bind.
    destruct (collect order _ _) as [[[outs'|e] s1]|] eqn:Ec; [|done..].
    intros [= <- <-]. apply IH in Ec as (Es & Hout & Hnone & Hin & ->).
    rewrite get_put in Hout, Hnone, Hin. split_and!.
    + rewrite Es at 1. by rewrite put_put.
    + intros k' [Hne Hk']%not_elem_of_cons. rewrite Hout by done. by rewrite lookup_insert_ne.
    + intros k' Hk'. apply Hnone. rewrite lookup_insert_ne; [done|congruence].
    + intros k' w [->|Hk']%elem_of_cons Hw.
      * simplify_eq. exists o, v'. split; [done|]. rewrite Hout by done. by rewrite lookup_insert_eq.
      * apply Hin; [done|]. rewrite lookup_insert_ne; [done|]. by intros ->.
    + f_equal. f_equal. rewrite get_put. apply map_ext_in. intros k' Hk'%list_elem_of_In.
      rewrite lookup_insert_ne; [done|]. by intros ->.
  - unfold mret, prog_ret, mbind, prog_bind.
    destruct (collect order _ s) as [[[outs'|e] s1]|] eqn:Ec; [|done..].
    intros [= <- <-]. apply IH in Ec as (Es & Hout & Hnone & Hin & ->). split_and!; try done.
    + intros k' [Hne Hk']%not_elem_of_cons. by apply Hout.
    + intros k' w [->|Hk']%elem_of_cons Hw; [congruence|by apply Hin].
Qed.

(** The same for a loop without results. *)
Lemma for_each_focus (order : list N) (p : N → prog V E unit) s s' :
  NoDup order →
  for_each order (λ k, focus k (mret tt) (p k)) s = Done (Ok tt, s') →
  s' = put (get s') s ∧
  (∀ k, k ∉ order → get s' !! k = get s !! k) ∧
  (∀ k, get s !! k = None → get s' !! k = None) ∧
  ∀ k v, k ∈ order → get s !! k = Some v →
    ∃ v', p k v = Done (Ok tt, v') ∧ get s' !! k = Some v'.
Proof.
  intros Hnd. revert s. induction Hnd as [|k order Hk Hnd IH]; intros s.
  { intros [= <-]. split_and!; first [done|by rewrite put_get|set_solver]. }
  simpl. unfold mbind at 1, prog_bind at 1, focus at 1.
  destruct (get s !! k) as [v|] eqn:Ek.
  - destruct (p k v) as [[[[]|e] v']|] eqn:Ep; [|done..].
    intros (Es & Hout & Hnone & Hin)%IH. rewrite get_put in Hout, Hnone, Hin. split_and!.
    + rewrite Es at 1. by rewrite put_put.
    + intros k' [Hne Hk']%not_elem_of_cons. rewrite Hout by done. by rewrite lookup_insert_ne.
    + intros k' Hk'. apply Hnone. rewrite lookup_insert_ne; [done|congruence].
    + intros k' w [->|Hk']%elem_of_cons Hw.
      * simplify_eq. exists v'. split; [done|]. rewrite Hout by done. by rewrite lookup_insert_eq.
      * apply Hin; [done|]. rewrite lookup_insert_ne; [done|]. by intros ->.
  - unfold mret, prog_ret. intros (Es & Hout & Hnone & Hin)%IH. split_and!; try done.
    + intros k' [Hne Hk']%not_elem_of_cons. by apply Hout.
    + intros k' w [->|Hk']%elem_of_cons Hw; [congruence|by apply Hin].
Qed.
End focus.

(** ** Evolution *)

(** Programs that only let their state evolve. *)
Definition evolves {S E A} (R : S → S → Prop) (p : prog S E A) : Prop :=
  ∀ s, wp p (λ _ s', R s s') s.

Lemma evolves_bind {S E A B} (R : S → S → Prop) `{!PreOrder R} (m : prog S E A)
    (k : A → prog S E B) :
  evolves R m → (∀ a, evolves R (k a)) → evolves R (m ≫= k).
Proof.
  intros Hm Hk s. apply wp_bind. eapply wp_mono; [|apply Hm].
  intros [a|e] s' Hs'; simpl; [|done]. eapply wp_mono; [|apply Hk].
  intros r s'' Hs''. by etrans.
Qed.

Lemma evolves_read {S E A} (R : S → S → Prop) `{!Reflexive R} (m : prog S E A) :
  (∀ s, m s = Panic ∨ ∃ r, m s = Done (r, s)) → evolves R m.
Proof. intros Hm s. unfold wp. destruct (Hm s) as [->|[r ->]]; done. Qed.

Lemma evolves_ret {S E A} (R : S → S → Prop) `{!Reflexive R} (a : A) :
  evolves R (mret (M := prog S E) a).
Proof. apply evolves_read; [done|]. intros s. right. by eexists. Qed.
Lemma evolves_ask {S E A} (R : S → S → Prop) `{!Reflexive R} (f : S → A) :
  evolves R (ask (E := E) f).
Proof. apply evolves_read; [done|]. intros s. right. by eexists. Qed.
Lemma evolves_some_or {S E A} (R : S → S → Prop) `{!Reflexive R} (o : option A) (e : E) :
  evolves R (some_or (S := S) o e).
Proof. apply evolves_read; [done|]. intros s. right. destruct o; by eexists. Qed.
Lemma evolves_some_or_crash {S E A} (R : S → S → Prop) `{!Reflexive R} (o : option A) :
  evolves R (some_or_crash (S := S) (E := E) o).
Proof. apply evolves_read; [done|]. intros s. destruct o; [right; by eexists|by left]. Qed.
Lemma evolves_ok_or_raise {S E A F} (R : S → S → Prop) `{!Reflexive R} (r : result A F)
    (f : F → E) : evolves R (ok_or_raise (S := S) r f).
Proof. apply evolves_read; [done|]. intros s. right. destruct r; by eexists. Qed.
Lemma evolves_raise {S E A} (R : S → S → Prop) `{!Reflexive R} (e : E) :
  evolves R (raise (S := S) (A := A) e).
Proof. apply evolves_read; [done|]. intros s. right. by eexists. Qed.
Lemma evolves_run_rust {S E A} (R : S → S → Prop) `{!Reflexive R} (c : rust A) :
  evolves R (run_rust (S := S) (E := E) c).
Proof. apply evolves_read; [done|]. intros s. destruct c; [right; by eexists|by left]. Qed.
Lemma evolves_on_value {S E V A} (R : S → S → Prop) `{!Reflexive R} (p : prog V E A) v :
  evolves R (on_value (S := S) p v).
Proof.
  apply evolves_read; [done|]. intros s. unfold on_value.
  destruct (p v); [right; by eexists|by left].
Qed.
Lemma evolves_map_err {S E A} (R : S → S → Prop) f (p : prog S E A) :
  evolves R p → evolves R (map_err f p).
Proof. intros Hp s. apply wp_map_err. eapply wp_mono; [|apply Hp]. done. Qed.
Lemma evolves_attempt {S E A} (R : S → S → Prop) (p : prog S E A) :
  evolves R p → evolves R (attempt p).
Proof. intros Hp s. apply wp_attempt. eapply wp_mono; [|apply Hp]. done. Qed.
Lemma evolves_transact {S E A} (R : S → S → Prop) (f : S → A * S) :
  (∀ s, R s (f s).2) → evolves R (transact (E := E) f).
Proof.
  intros Hf s. apply wp_transact. intros a s' Es. specialize (Hf s). by rewrite Es in Hf.
Qed.
Lemma evolves_update {S E} (R : S → S → Prop) (f : S → S) :
  (∀ s, R s (f s)) → evolves R (update (E := E) f).
Proof. intros Hf s. apply Hf. Qed.
Lemma evolves_collect {S E A B} (R : S → S → Prop) `{!PreOrder R} (l : list A)
    (f : A → prog S E (list B)) :
  (∀ x, evolves R (f x)) → evolves R (collect l f).
Proof.
  intros Hf. induction l as [|x l IH]; simpl; [apply evolves_ret, _|].
  apply evolves_bind; [done|apply Hf|]. intros out.
  apply evolves_bind; [done|done|]. intros outs. apply evolves_ret, _.
Qed.
Lemma evolves_for_each {S E A} (R : S → S → Prop) `{!PreOrder R} (l : list A)
    (f : A → prog S E unit) :
  (∀ x, evolves R (f x)) → evolves R (for_each l f).
Proof.
  intros Hf. induction l as [|x l IH]; simpl; [apply evolves_ret, _|].
  apply evolves_bind; [done|apply Hf|]. by intros [].
Qed.
Lemma evolves_focus {S V E A} (get : S → gmap N V) put k absent (p : prog V E A)
    (R : S → S → Prop) (Q : V → V → Prop) :
  evolves R absent → evolves Q p →
  (∀ s v v', get s !! k = Some v → Q v v' → R s (put (<[k := v']> (get s)) s)) →
  evolves R (focus get put k absent p).
Proof.
  intros Habs Hp HR s. apply wp_focus; [intros _; apply Habs|].
  intros v Hv. eapply wp_mono; [|apply Hp]. simpl. intros r v' HQ. by eapply HR.
Qed.

Lemma evolves_crash {S E A} (R : S → S → Prop) : evolves R (crash (S := S) (E := E) (A := A)).
Proof. intros s. done. Qed.
Lemma evolves_ensure {S E} (R : S → S → Prop) `{!Reflexive R} ok (e : E) :
  evolves R (ensure (S := S) ok e).
Proof. destruct ok; [apply evolves_ret, _|apply evolves_raise, _]. Qed.

(** A first part that may do less than the rest. *)
Lemma evolves_bind_after {S E A B} (R R' : S → S → Prop) (m : prog S E A) (k : A → prog S E B) :
  (∀ s s', R s s' → R' s s') → (∀ s1 s2 s3, R s1 s2 → R' s2 s3 → R' s1 s3) →
  evolves R m → (∀ a, evolves R' (k a)) → evolves R' (m ≫= k).
Proof.
  intros Hsub Htrans Hm Hk s. apply wp_bind. eapply wp_mono; [|apply Hm].
  intros [a|e] s' Hs'; simpl; [|by apply Hsub]. eapply wp_mono; [|apply Hk].
  intros r s'' Hs''. by eapply Htrans.
Qed.

Lemma evolves_mono {S E A} (R R' : S → S → Prop) (m : prog S E A) :
  (∀ s s', R s s' → R' s s') → evolves R m → evolves R' m.
Proof. intros Hsub Hm s. eapply wp_mono; [|apply Hm]. auto. Qed.

(** One rule for [evolves] of a preorder; updates are left. *)
Ltac evolve_rule :=
  lazymatch goal with
  | |- evolves _ (_ ≫= _) => apply evolves_bind; [apply _| |intros ?]
  | |- evolves _ (mret _) => apply evolves_ret, _
  | |- evolves _ (ask _) => apply evolves_ask, _
  | |- evolves _ (raise _) => apply evolves_raise, _
  | |- evolves _ crash => apply evolves_crash
  | |- evolves _ (some_or _ _) => apply evolves_some_or, _
  | |- evolves _ (some_or_crash _) => apply evolves_some_or_crash, _
  | |- evolves _ (ok_or_raise _ _) => apply evolves_ok_or_raise, _
  | |- evolves _ (ensure _ _) => apply evolves_ensure, _
  | |- evolves _ (run_rust _) => apply evolves_run_rust, _
  | |- evolves _ (on_value _ _) => apply evolves_on_value, _
  | |- evolves _ (map_err _ _) => apply evolves_map_err
  | |- evolves _ (attempt _) => apply evolves_attempt
  | |- evolves _ (collect _ _) => apply evolves_collect; [apply _|intros ?]
  | |- evolves _ (for_each _ _) => apply evolves_for_each; [apply _|intros ?]
  | |- evolves _ (if ?b then _ else _) => destruct b
  | |- evolves _ (match ?x with _ => _ end) => destruct x
  | |- evolves _ (let '(_, _) := ?x in _) => destruct x
  end.

(** ** Evolution with a result

    [keeps R P p]: the state evolves along [R], and a value [p] returns
    satisfies [P]. *)
Definition keeps {S E A} (R : S → S → Prop) (P : A → Prop) (p : prog S E A) : Prop :=
  ∀ s, wp p (λ r s', R s s' ∧ ∀ a, r = Ok a → P a) s.

Section keeps.
Context {S E : Type} (R : S → S → Prop) `{!PreOrder R}.

Lemma keeps_evolves {A} (P : A → Prop) (p : prog S E A) : keeps R P p → evolves R p.
Proof. intros Hp s. eapply wp_mono; [|apply Hp]. by intros r s' []. Qed.
Lemma evolves_keeps {A} (p : prog S E A) : evolves R p → keeps R (λ _, True) p.
Proof. intros Hp s. eapply wp_mono; [|apply Hp]. by intros r s' Hs. Qed.

Lemma keeps_bind {A B} (P : A → Prop) (Q : B → Prop) (m : prog S E A) (k : A → prog S E B) :
  keeps R P m → (∀ a, P a → keeps R Q (k a)) → keeps R Q (m ≫= k).
Proof.
  intros Hm Hk s. apply wp_bind. eapply wp_mono; [|apply Hm].
  intros [a|e] s' [Hs' HP]; simpl; [|by split].
  eapply wp_mono; [|by apply Hk, HP]. intros r s'' [Hs'' HQ]. split; [by etrans|done].
Qed.

Lemma keeps_ret {A} (P : A → Prop) (a : A) : P a → keeps R P (mret (M := prog S E) a).
Proof. intros HP s. apply wp_ret. split; [done|]. by intros ? [= <-]. Qed.
Lemma keeps_raise {A} (P : A → Prop) (e : E) : keeps R P (raise (S := S) e).
Proof. intros s. by apply wp_raise. Qed.
Lemma keeps_crash {A} (P : A → Prop) : keeps R P (crash (S := S) (E := E) (A := A)).
Proof. by intros s. Qed.
Lemma keeps_some_or {A} (P : A → Prop) (o : option A) (e : E) :
  (∀ a, o = Some a → P a) → keeps R P (some_or (S := S) o e).
Proof. destruct o; intros HP; [by apply keeps_ret, HP|apply keeps_raise]. Qed.
Lemma keeps_some_or_crash {A} (P : A → Prop) (o : option A) :
  (∀ a, o = Some a → P a) → keeps R P (some_or_crash (S := S) (E := E) o).
Proof. destruct o; intros HP; [by apply keeps_ret, HP|apply keeps_crash]. Qed.
Lemma keeps_transact {A} (P : A → Prop) (f : S → A * S) :
  (∀ s, R s (f s).2 ∧ P (f s).1) → keeps R P (transact (E := E) f).
Proof.
  intros Hf s. apply wp_transact. intros a s' Es. specialize (Hf s). rewrite Es in Hf.
  split; [by apply Hf|]. intros ? [= <-]. apply Hf.
Qed.

Lemma keeps_collect {A B} (P : B → Prop) (l : list A) (f : A → prog S E (list B)) :
  (∀ x, x ∈ l → keeps R (Forall P) (f x)) → keeps R (Forall P) (collect l f).
Proof.
  induction l as [|x l IH]; intros Hf; simpl; [by apply keeps_ret|].
  eapply keeps_bind; [apply Hf; by left|]. intros out Hout.
  eapply keeps_bind; [apply IH; intros y Hy; apply Hf; by right|]. intros outs Houts.
  apply keeps_ret, Forall_app. by split.
Qed.
Lemma keeps_for_each {A} (l : list A) (f : A → prog S E unit) :
  (∀ x, x ∈ l → keeps R (λ _, True) (f x)) → keeps R (λ _, True) (for_each l f).
Proof.
  induction l as [|x l IH]; intros Hf; simpl; [by apply keeps_ret|].
  eapply keeps_bind; [apply Hf; by left|]. intros [] _. apply IH. intros y Hy. apply Hf. by right.
Qed.

Lemma keeps_focus {V A} (get : S → gmap N V) put k absent (p : prog V E A) (P : A → Prop) :
  keeps R P absent → keeps (λ _ _, True) P p →
  (∀ s v v', get s !! k = Some v → R s (put (<[k := v']> (get s)) s)) →
  keeps R P (focus get put k absent p).
Proof.
  intros Habs Hp HR s. apply wp_focus; [intros _; apply Habs|].
  intros v Hv. eapply wp_mono; [|apply Hp]. simpl. intros r v' [_ HP]. split; [by eapply HR|done].
Qed.
End keeps.

#[export] Instance top_preorder {V} : PreOrder (λ _ _ : V, True).
Proof. by split. Qed.

(** ** Runs *)

(** The value of a successful run, part by part. *)
Section inversion.
Context {S E : Type}.

Lemma bind_inv {A B} (m : prog S E A) (k : A → prog S E B) s b s' :
  (m ≫= k) s = Done (Ok b, s') →
  ∃ a s1, m s = Done (Ok a, s1) ∧ k a s1 = Done (Ok b, s').
Proof.
  unfold mbind, prog_bind. destruct (m s) as [[[a|e] s1]|]; [|done..]. intros Hk. by exists a, s1.
Qed.
Lemma some_or_inv {A} (o : option A) (e : E) (s : S) a s' :
  some_or o e s = Done (Ok a, s') → o = Some a ∧ s' = s.
Proof. destruct o; [|done]. by intros [= -> ->]. Qed.
Lemma some_or_crash_inv {A} (o : option A) (s : S) a s' :
  some_or_crash (E := E) o s = Done (Ok a, s') → o = Some a ∧ s' = s.
Proof. destruct o; [|done]. by intros [= -> ->]. Qed.
Lemma ok_or_raise_inv {A F} (r : result A F) (f : F → E) (s : S) a s' :
  ok_or_raise r f s = Done (Ok a, s') → r = Ok a ∧ s' = s.
Proof. destruct r; [|done]. by intros [= -> ->]. Qed.
End inversion.

(** Take a successful run apart. *)
Ltac invert_run :=
  repeat match goal with
  | E0 : (_ ≫= _) _ = Done (Ok _, _) |- _ => apply bind_inv in E0 as (? & ? & ? & E0)
  | E0 : ask _ _ = Done _ |- _ => injection E0 as <- <-
  | E0 : update _ _ = Done _ |- _ => first [injection E0 as <- <-|injection E0 as <-]
  | E0 : mret _ _ = Done _ |- _ => first [injection E0 as <- <-|injection E0 as <-]
  | E0 : some_or _ _ _ = Done (Ok _, _) |- _ => apply some_or_inv in E0 as [E0 ->]
  | E0 : some_or_crash _ _ = Done (Ok _, _) |- _ => apply some_or_crash_inv in E0 as [E0 ->]
  | E0 : ok_or_raise _ _ _ = Done (Ok _, _) |- _ =>
      first [apply ok_or_raise_inv in E0 as [-> ->]|apply ok_or_raise_inv in E0 as [E0 ->]]
  end.

#[global] Arguments prog_ret : simpl never.
#[global] Arguments prog_bind : simpl never.

(** One rule of the logic. *)
Ltac wp_rule :=
  lazymatch goal with
  | |- wp (_ ≫= _) _ _ => apply wp_bind
  | |- wp (mret _) _ _ => apply wp_ret
  | |- wp (raise _) _ _ => apply wp_raise
  | |- wp crash _ _ => apply wp_crash
  | |- wp (ask _) _ _ => apply wp_ask
  | |- wp (update _) _ _ => apply wp_update
  | |- wp (transact _) _ _ => apply wp_transact; intros
  | |- wp (some_or _ _) _ _ => apply wp_some_or; intros
  | |- wp (some_or_crash _) _ _ => apply wp_some_or_crash; intros
  | |- wp (ok_or_raise _ _) _ _ => apply wp_ok_or_raise; intros
  | |- wp (ensure _ _) _ _ => apply wp_ensure; intros
  | |- wp (run_rust _) _ _ => apply wp_run_rust; intros
  | |- wp (on_value _ _) _ _ => apply wp_on_value
  | |- wp (map_err _ _) _ _ => apply wp_map_err
  | |- wp (attempt _) _ _ => apply wp_attempt
  | |- wp (if ?b then _ else _) _ _ => destruct b eqn:?
  | |- wp (match ?x with _ => _ end) _ _ => destruct x eqn:?
  | |- andthen _ _ (Ok _) _ => cbn beta iota delta [andthen]
  | |- andthen _ _ (Err _) _ => cbn beta iota delta [andthen]
  | |- wp (let '(_, _) := ?x in _) _ _ => destruct x eqn:?
  | |- wp (focus _ _ _ _ _) _ _ => apply wp_focus; intros
  end.
