(* ===== verification/SharedMap.v ===== *)
(** * Shared collections ([stratum-apps/src/sync.rs])

    [SharedMap] wraps a [DashMap]; its value is a [gmap] and every operation
    is a function from the map before the call to the result and the map
    after it.  [DashMap] visits its entries in an order it does not promise:
    the operations that iterate take that order as an argument ([order], a
    permutation of the keys or entries).  [SharedSet] is the same over
    [gset], and [SharedLock] is a mutex with its poison flag. *)
From S2P Require Import Prelude.

Module SharedMap.
Section ops.
Context {K V : Type} `{Countable K}.
Implicit Types (m : gmap K V) (k : K) (v : V).

(** [new], [Default::default]. *)
Definition new : gmap K V := ∅.

(** [get_cloned]. *)
Definition get_cloned m k : option V := m !! k.

(** [with]: read an entry through a closure. *)
Definition with_ {R} m k (f : V → R) : option R := f <$> m !! k.

(** [with_mut]: update an entry in place; [None] when it is absent. *)
Definition with_mut {R} m k (f : V → R * V) : option R * gmap K V :=
  match m !! k with
  | Some v => let '(r, v') := f v in (Some r, <[k := v']> m)
  | None => (None, m)
  end.

(** [with_mut_or_insert_with]: update an entry, creating it when absent. *)
Definition with_mut_or_insert_with {R} m k (default : V) (f : V → R * V)
    : R * gmap K V :=
  let v := match m !! k with Some v => v | None => default end in
  let '(r, v') := f v in (r, <[k := v']> m).

(** [with_mut_or_default]: the default of the value type is the argument. *)
Definition with_mut_or_default {R} m k (dflt : V) (f : V → R * V)
    : R * gmap K V :=
  with_mut_or_insert_with m k dflt f.

(** [for_each]: run an effectful closure on every entry, in [order]. *)
Definition for_each {S} (order : list (K * V)) (f : K → V → S → S) (s : S) : S :=
  foldl (λ s kv, f kv.1 kv.2 s) s order.

(** [for_each_mut]: every entry updated in turn. *)
Fixpoint for_each_mut {S} (order : list K) (f : K → V → S → V * S)
    m (s : S) : gmap K V * S :=
  match order with
  | [] => (m, s)
  | k :: order' =>
      match m !! k with
      | Some v => let '(v', s') := f k v s in
                  for_each_mut order' f (<[k := v']> m) s'
      | None => for_each_mut order' f m s
      end
  end.

(** [try_for_each_mut]: stops at the first error; what the closure wrote
    before that (including in the failing call) stays. *)
Fixpoint try_for_each_mut {E} (order : list K) (f : K → V → V * result unit E)
    m : gmap K V * result unit E :=
  match order with
  | [] => (m, Ok tt)
  | k :: order' =>
      match m !! k with
      | Some v =>
          match f k v with
          | (v', Ok _) => try_for_each_mut order' f (<[k := v']> m)
          | (v', Err e) => (<[k := v']> m, Err e)
          end
      | None => try_for_each_mut order' f m
      end
  end.

(** [try_for_each]: stops at the first error. *)
Fixpoint try_for_each {E} (order : list (K * V)) (f : K → V → result unit E)
    : result unit E :=
  match order with
  | [] => Ok tt
  | (k, v) :: order' =>
      match f k v with Ok _ => try_for_each order' f | Err e => Err e end
  end.

(** [insert]: the previous value, and the updated map. *)
Definition insert m k v : option V * gmap K V := (m !! k, <[k := v]> m).

(** [remove]. *)
Definition remove m k : option (K * V) * gmap K V :=
  ((λ v, (k, v)) <$> m !! k, delete k m).

(** [remove_if]: remove the entry only when the predicate accepts it. *)
Definition remove_if m k (p : K → V → bool) : option (K * V) * gmap K V :=
  match m !! k with
  | Some v => if p k v then (Some (k, v), delete k m) else (None, m)
  | None => (None, m)
  end.

(** [contains_key]. *)
Definition contains_key m k : bool := bool_decide (is_Some (m !! k)).

(** [retain] with a predicate that does not modify the values. *)
Definition retain (p : K → V → bool) m : gmap K V :=
  filter (λ kv, p kv.1 kv.2 = true) m.

(** [keys], [len], [is_empty], [clear]. *)
Definition keys m : list K := (map_to_list m).*1.
Definition len m : nat := size m.
Definition is_empty m : bool := bool_decide (m = ∅).
Definition clear m : gmap K V := ∅.

(** ** Laws the client components use *)
Lemma with_Some {R} m k (f : V → R) r :
  with_ m k f = Some r ↔ ∃ v, m !! k = Some v ∧ f v = r.
Proof. unfold with_. destruct (m !! k); simpl; naive_solver. Qed.

Lemma with_mut_absent {R} m k (f : V → R * V) :
  m !! k = None → with_mut m k f = (None, m).
Proof. unfold with_mut. by intros ->. Qed.

Lemma with_mut_present {R} m k v (f : V → R * V) :
  m !! k = Some v → with_mut m k f = (Some (f v).1, <[k := (f v).2]> m).
Proof. unfold with_mut. intros ->. by destruct (f v). Qed.

Lemma with_mut_frame {R} m k k' (f : V → R * V) :
  k ≠ k' → (with_mut m k f).2 !! k' = m !! k'.
Proof.
  intros. unfold with_mut. destruct (m !! k) as [v|]; [|done].
  destruct (f v). simpl. by rewrite lookup_insert_ne.
Qed.

Lemma retain_lookup (p : K → V → bool) m k v :
  retain p m !! k = Some v ↔ m !! k = Some v ∧ p k v = true.
Proof. unfold retain. by rewrite map_lookup_filter_Some. Qed.

Lemma retain_lookup_None (p : K → V → bool) m k :
  retain p m !! k = None ↔ ∀ v, m !! k = Some v → p k v = false.
Proof.
  unfold retain. rewrite map_lookup_filter_None. simpl. split.
  - intros [Hn|Hf] v Hv; [congruence|].
    specialize (Hf v Hv). by apply not_true_is_false.
  - intros Hf. right. intros v Hv. by rewrite (Hf v Hv).
Qed.

Lemma retain_subseteq (p : K → V → bool) m : retain p m ⊆ m.
Proof. apply map_filter_subseteq. Qed.

Lemma remove_subseteq m k : (remove m k).2 ⊆ m.
Proof. apply delete_subseteq. Qed.

Lemma remove_if_Some m k p kv m' :
  remove_if m k p = (Some kv, m') ↔
  ∃ v, kv = (k, v) ∧ m !! k = Some v ∧ p k v = true ∧ m' = delete k m.
Proof.
  unfold remove_if. destruct (m !! k) as [v|]; [destruct (p k v) eqn:E|].
  all: split; [intros; simplify_eq; eauto|].
  all: intros (v' & ? & ? & ? & ?); simplify_eq; congruence.
Qed.

Lemma remove_if_None m k p m' :
  remove_if m k p = (None, m') ↔
  m' = m ∧ ∀ v, m !! k = Some v → p k v = false.
Proof.
  unfold remove_if. destruct (m !! k) as [v|]; [destruct (p k v) eqn:E|].
  - split; [done|]. intros [_ Hf]. specialize (Hf v eq_refl). congruence.
  - split; [intros; simplify_eq; split; [done|]; intros; congruence|].
    by intros [-> _].
  - split; [by intros [= ->]|by intros [-> _]].
Qed.

(** One pass of [for_each_mut] visits the listed keys independently of each
    other when the closure carries no state between entries. *)
Lemma for_each_mut_lookup (order : list K) (g : K → V → V) m k :
  NoDup order →
  (for_each_mut order (λ k v _, (g k v, tt)) m tt).1 !! k =
  (if decide (k ∈ order) then g k <$> m !! k else m !! k).
Proof.
  revert m. induction order as [|k0 order IH]; intros m.
  { intros _. rewrite decide_False by apply not_elem_of_nil. done. }
  rewrite NoDup_cons. intros [Hk0 Hnd]. cbn [for_each_mut].
  destruct (m !! k0) as [v|] eqn:E; rewrite (IH _ Hnd).
  all: destruct (decide (k = k0)) as [->|Hne].
  all: repeat case_decide; try set_solver.
  all: rewrite ?lookup_insert_eq, ?lookup_insert_ne, ?E by done; done.
Qed.
End ops.
End SharedMap.

Module SharedSet.
Section ops.
Context {K : Type} `{Countable K}.
Implicit Types (s : gset K) (k : K).

(** [insert]: true when the key was not already there. *)
Definition insert s k : bool * gset K := (bool_decide (k ∉ s), {[k]} ∪ s).
(** [remove]. *)
Definition remove s k : option K * gset K :=
  (if decide (k ∈ s) then Some k else None, s ∖ {[k]}).
(** [remove_if]. *)
Definition remove_if s k (p : K → bool) : option K * gset K :=
  if decide (k ∈ s ∧ p k = true) then (Some k, s ∖ {[k]}) else (None, s).
(** [contains]. *)
Definition contains s k : bool := bool_decide (k ∈ s).
(** [retain]. *)
Definition retain (p : K → bool) s : gset K := filter (λ k, p k = true) s.
(** [items], [len], [clear]. *)
Definition items s : list K := elements s.
Definition len s : nat := size s.
Definition clear s : gset K := ∅.
End ops.
End SharedSet.

(** A mutex and its poison flag: a closure that panics while it holds the
    lock poisons it, and every later access reports the poisoning. *)
Module SharedLock.
Inductive PoisonError : Type := Poisoned.

Record SharedLock (T : Type) : Type := { value : T; poisoned : bool }.
Arguments value {T} _.
Arguments poisoned {T} _.
Arguments Build_SharedLock {T} _ _.

Section ops.
Context {T : Type}.
Implicit Types l : SharedLock T.

Definition new (v : T) : SharedLock T :=
  {| value := v; poisoned := false |}.

(** [with]: the closure returns its result and the value it leaves behind;
    [crash v] is a closure that panics leaving [v] in the mutex. *)
Inductive closure (R : Type) : Type :=
| returns (r : R) (v : T)
| crash (v : T).
Arguments returns {R}. Arguments crash {R}.

Definition with_ {R} l (f : T → closure R) : rust (result R PoisonError) * SharedLock T :=
  if poisoned l then (Done (Err Poisoned), l)
  else match f (value l) with
       | returns r v => (Done (Ok r), {| value := v; poisoned := false |})
       | crash v => (Panic, {| value := v; poisoned := true |})
       end.

Definition get l : rust (result T PoisonError) * SharedLock T :=
  with_ l (λ v, returns v v).

Definition set l (v : T) : rust (result unit PoisonError) * SharedLock T :=
  with_ l (λ _, returns tt v).
End ops.
End SharedLock.

#[export] Hint Resolve SharedMap.retain_subseteq SharedMap.remove_subseteq : sv2.
