(* ===== verification/TokenManager.v ===== *)
(** * Job-declaration tokens
    ([pool-apps/jd-server/src/lib/job_declarator/token_management/mod.rs])

    The manager's state is its three shared fields: the atomic counter and
    the two token maps.  An [Instant] is a number of nanoseconds on the
    monotonic clock, taken as an argument by the operations that read the
    clock.  The janitor task's body is one operation, run at any time. *)
From S2P Require Import Prelude SharedMap.

(** Constants of [job_declarator/mod.rs]. *)
Definition TEMPORARY_TIMEOUT_MULTIPLIER : N := 144.
Definition ALLOCATED_TOKEN_TIMEOUT_SECS : N := TEMPORARY_TIMEOUT_MULTIPLIER * 60 * 10.
Definition ACTIVE_TOKEN_TIMEOUT_SECS : N := 10.
Definition JANITOR_INTERVAL_SECS : N := 10.

(** [Duration::from_secs], in nanoseconds. *)
Definition from_secs (s : N) : N := s * 1000000000.

Record AllocatedTokenData : Type := {
  allocated_at : N;
  al_owner : N;
  al_user_identity : string;
}.

Record ActiveTokenData : Type := {
  allocated_token : N;
  activated_at : N;
  ac_owner : N;
  ac_user_identity : string;
}.

Record TokenManager : Type := {
  token_factory : N;
  allocated_tokens : gmap N AllocatedTokenData;
  active_tokens : gmap N ActiveTokenData;
}.

#[export] Instance AllocatedTokenData_eq_dec : EqDecision AllocatedTokenData.
Proof. solve_decision. Defined.
#[export] Instance ActiveTokenData_eq_dec : EqDecision ActiveTokenData.
Proof. solve_decision. Defined.
#[export] Instance TokenManager_eq_dec : EqDecision TokenManager.
Proof. solve_decision. Defined.

Module Tokens.

(** [TokenManager::new]. *)
Definition new : TokenManager :=
  {| token_factory := 0; allocated_tokens := ∅; active_tokens := ∅ |}.

(** [token_factory.fetch_add(1)]: atomics wrap around. *)
Definition next_token (tm : TokenManager) : N := u64_add (token_factory tm) 1.

(** [allocate]. *)
Definition allocate (tm : TokenManager) (now downstream_id : N) (user_identity : string)
    : N * TokenManager :=
  let token := token_factory tm in
  (token,
   {| token_factory := next_token tm;
      allocated_tokens := <[token := {| allocated_at := now; al_owner := downstream_id;
                                        al_user_identity := user_identity |}]>
                            (allocated_tokens tm);
      active_tokens := active_tokens tm |}).

(** [deallocate]. *)
Definition deallocate (tm : TokenManager) (token : N) : TokenManager :=
  {| token_factory := token_factory tm;
     allocated_tokens := (SharedMap.remove (allocated_tokens tm) token).2;
     active_tokens := active_tokens tm |}.

(** [is_allocated]. *)
Definition is_allocated (tm : TokenManager) (token downstream_id : N) : bool :=
  match SharedMap.with_ (allocated_tokens tm) token
          (λ data, bool_decide (al_owner data = downstream_id)) with
  | Some b => b
  | None => false
  end.

(** [activate]. *)
Definition activate (tm : TokenManager) (now allocated downstream_id : N)
    : option N * TokenManager :=
  match SharedMap.remove_if (allocated_tokens tm) allocated
          (λ _ data, bool_decide (al_owner data = downstream_id)) with
  | (None, _) => (None, tm)
  | (Some (_, allocated_data), allocated') =>
      let activated := token_factory tm in
      (Some activated,
       {| token_factory := next_token tm;
          allocated_tokens := allocated';
          active_tokens :=
            <[activated := {| allocated_token := allocated; activated_at := now;
                              ac_owner := downstream_id;
                              ac_user_identity := al_user_identity allocated_data |}]>
              (active_tokens tm) |})
  end.

(** [deactivate]. *)
Definition deactivate (tm : TokenManager) (active : N) : TokenManager :=
  {| token_factory := token_factory tm;
     allocated_tokens := allocated_tokens tm;
     active_tokens := (SharedMap.remove (active_tokens tm) active).2 |}.

(** [allocated_from_active]. *)
Definition allocated_from_active (tm : TokenManager) (active : N) : option ActiveTokenData :=
  SharedMap.with_ (active_tokens tm) active (λ data, data).

(** [clear]. *)
Definition clear (tm : TokenManager) : TokenManager :=
  {| token_factory := token_factory tm; allocated_tokens := ∅; active_tokens := ∅ |}.

(** [remove_downstream]. *)
Definition remove_downstream (tm : TokenManager) (downstream_id : N) : TokenManager :=
  {| token_factory := token_factory tm;
     allocated_tokens :=
       SharedMap.retain (λ _ data, bool_decide (al_owner data ≠ downstream_id))
         (allocated_tokens tm);
     active_tokens :=
       SharedMap.retain (λ _ data, bool_decide (ac_owner data ≠ downstream_id))
         (active_tokens tm) |}.

(** One wake-up of the janitor of [spawn_janitor_task]. *)
Definition janitor (tm : TokenManager) (now : N) : TokenManager :=
  {| token_factory := token_factory tm;
     allocated_tokens :=
       SharedMap.retain
         (λ _ data, saturating_sub now (allocated_at data)
                      <=? from_secs ALLOCATED_TOKEN_TIMEOUT_SECS)
         (allocated_tokens tm);
     active_tokens :=
       SharedMap.retain
         (λ _ data, saturating_sub now (activated_at data)
                      <=? from_secs ACTIVE_TOKEN_TIMEOUT_SECS)
         (active_tokens tm) |}.

(** ** Sequences of operations *)
Inductive op : Type :=
| OpAllocate (now downstream_id : N) (user_identity : string)
| OpDeallocate (token : N)
| OpActivate (now allocated downstream_id : N)
| OpDeactivate (active : N)
| OpClear
| OpRemoveDownstream (downstream_id : N)
| OpJanitor (now : N).

(** The token an operation hands out, and the state after it. *)
Definition exec (o : op) (tm : TokenManager) : option N * TokenManager :=
  match o with
  | OpAllocate now d u => let '(t, tm') := allocate tm now d u in (Some t, tm')
  | OpDeallocate t => (None, deallocate tm t)
  | OpActivate now t d => activate tm now t d
  | OpDeactivate a => (None, deactivate tm a)
  | OpClear => (None, clear tm)
  | OpRemoveDownstream d => (None, remove_downstream tm d)
  | OpJanitor now => (None, janitor tm now)
  end.

(** The tokens handed out by a sequence of operations, and the final state. *)
Fixpoint run (ops : list op) (tm : TokenManager) : list N * TokenManager :=
  match ops with
  | [] => ([], tm)
  | o :: ops' =>
      let '(issued, tm1) := exec o tm in
      let '(rest, tm2) := run ops' tm1 in
      (match issued with Some t => t :: rest | None => rest end, tm2)
  end.

(** ** Invariant

    Tokens are below the counter, the two maps are disjoint, and the
    allocated token an active one came from is gone from the allocated map. *)
Record wf (tm : TokenManager) : Prop := {
  wf_allocated : ∀ t, is_Some (allocated_tokens tm !! t) → t < token_factory tm;
  wf_active : ∀ t, is_Some (active_tokens tm !! t) → t < token_factory tm;
  wf_disjoint : ∀ t d, allocated_tokens tm !! t = Some d → active_tokens tm !! t = None;
  wf_consumed : ∀ t d, active_tokens tm !! t = Some d →
    allocated_token d < t ∧ allocated_tokens tm !! allocated_token d = None
    ∧ active_tokens tm !! allocated_token d = None;
}.

(** The counter has not run through all 64-bit values. *)
Definition below_wrap (tm : TokenManager) (n : nat) : Prop :=
  token_factory tm + N.of_nat n < u64_modulus.

(** ** Abstract life cycle of one token *)
Inductive TokenStatus : Type :=
| Fresh
| Allocated (owner : N) (identity : string)
| Active (from owner : N) (identity : string)
| Dead.

Definition status (tm : TokenManager) (t : N) : TokenStatus :=
  match allocated_tokens tm !! t, active_tokens tm !! t with
  | Some d, _ => Allocated (al_owner d) (al_user_identity d)
  | None, Some d => Active (allocated_token d) (ac_owner d) (ac_user_identity d)
  | None, None => if t <? token_factory tm then Dead else Fresh
  end.

Inductive lifecycle : TokenStatus → TokenStatus → Prop :=
| lc_allocate o u : lifecycle Fresh (Allocated o u)
| lc_activate p o u : lifecycle Fresh (Active p o u)
| lc_release o u : lifecycle (Allocated o u) Dead
| lc_retire p o u : lifecycle (Active p o u) Dead.

(** ** Lemmas *)

Lemma next_token_small tm : below_wrap tm 1 → next_token tm = token_factory tm + 1.
Proof. apply u64_add_small. Qed.

Lemma new_wf : wf new.
Proof.
  split; simpl; intros *; rewrite ?lookup_empty; try (by intros [? [=]]); try done.
Qed.

Lemma is_allocated_spec tm t d :
  is_allocated tm t d = true ↔
  ∃ data, allocated_tokens tm !! t = Some data ∧ al_owner data = d.
Proof.
  unfold is_allocated, SharedMap.with_.
  destruct (allocated_tokens tm !! t); simpl; [|naive_solver].
  rewrite bool_decide_eq_true. naive_solver.
Qed.

(** Shrinking both maps (the effect of every operation that only removes
    tokens) keeps the invariant. *)
Lemma wf_shrink tm al ac :
  wf tm → al ⊆ allocated_tokens tm → ac ⊆ active_tokens tm →
  wf {| token_factory := token_factory tm; allocated_tokens := al; active_tokens := ac |}.
Proof.
  intros Hwf Hal Hac. split; simpl.
  - intros t [d Hd]. apply (wf_allocated _ Hwf). exists d.
    eapply lookup_weaken; eauto.
  - intros t [d Hd]. apply (wf_active _ Hwf). exists d.
    eapply lookup_weaken; eauto.
  - intros t d Hd. eapply lookup_weaken in Hd; [|done].
    eapply lookup_weaken_None; [|done]. eapply wf_disjoint; eauto.
  - intros t d Hd. eapply lookup_weaken in Hd; [|done].
    destruct (wf_consumed _ Hwf _ _ Hd) as (Hlt & Ha & Hb). split; [done|].
    split; [by eapply lookup_weaken_None|by eapply lookup_weaken_None].
Qed.

Lemma deallocate_wf tm t : wf tm → wf (deallocate tm t).
Proof. intros. apply wf_shrink; auto with sv2. Qed.

Lemma deactivate_wf tm t : wf tm → wf (deactivate tm t).
Proof. intros. apply wf_shrink; auto with sv2. Qed.

Lemma clear_wf tm : wf tm → wf (clear tm).
Proof. intros. apply wf_shrink; auto with sv2. Qed.

Lemma remove_downstream_wf tm d : wf tm → wf (remove_downstream tm d).
Proof. intros. apply wf_shrink; auto with sv2. Qed.

Lemma janitor_wf tm now : wf tm → wf (janitor tm now).
Proof. intros. apply wf_shrink; auto with sv2. Qed.

#[export] Hint Resolve deallocate_wf deactivate_wf clear_wf remove_downstream_wf
  janitor_wf new_wf : sv2.

(** The next token has never been seen. *)
Lemma wf_fresh tm t :
  wf tm → token_factory tm ≤ t →
  allocated_tokens tm !! t = None ∧ active_tokens tm !! t = None.
Proof.
  intros Hwf Hle. split; apply eq_None_not_Some; intros Hs.
  - apply (wf_allocated _ Hwf) in Hs. lia.
  - apply (wf_active _ Hwf) in Hs. lia.
Qed.

Lemma allocate_wf tm now d u :
  wf tm → below_wrap tm 1 → wf (allocate tm now d u).2.
Proof.
  intros Hwf Hw. destruct (wf_fresh tm (token_factory tm) Hwf) as [Hfa Hfc]; [lia|].
  split; simpl; rewrite ?next_token_small by done.
  - intros t. rewrite lookup_insert_is_Some'. intros [<-|Hs]; [lia|].
    apply (wf_allocated _ Hwf) in Hs. lia.
  - intros t Hs. apply (wf_active _ Hwf) in Hs. lia.
  - intros t data. rewrite lookup_insert_Some. intros [[<- _]|[_ Hd]]; [done|].
    by eapply wf_disjoint.
  - intros t data Hd. destruct (wf_consumed _ Hwf _ _ Hd) as (? & ? & ?).
    split_and!; try done. rewrite lookup_insert_ne; [done|].
    assert (t < token_factory tm) by (apply (wf_active _ Hwf); eauto). lia.
Qed.

Lemma activate_cases tm now t d r tm' :
  activate tm now t d = (r, tm') →
  (r = None ∧ tm' = tm ∧
   ∀ data, allocated_tokens tm !! t = Some data → al_owner data ≠ d) ∨
  (∃ data, r = Some (token_factory tm) ∧
    allocated_tokens tm !! t = Some data ∧ al_owner data = d ∧
    tm' = {| token_factory := next_token tm;
             allocated_tokens := delete t (allocated_tokens tm);
             active_tokens :=
               <[token_factory tm := {| allocated_token := t; activated_at := now;
                   ac_owner := d; ac_user_identity := al_user_identity data |}]>
               (active_tokens tm) |}).
Proof.
  unfold activate. destruct (SharedMap.remove_if _ _ _) as [[[k data]|] m] eqn:E.
  - apply SharedMap.remove_if_Some in E as (v & ? & ? & Hown & ->). simplify_eq.
    apply bool_decide_eq_true in Hown. intros [= <- <-]. right. eauto.
  - apply SharedMap.remove_if_None in E as [-> Hf]. intros [= <- <-]. left.
    split_and!; try done. intros data Hd. specialize (Hf _ Hd).
    by apply bool_decide_eq_false in Hf.
Qed.

Lemma activate_wf tm now t d :
  wf tm → below_wrap tm 1 → wf (activate tm now t d).2.
Proof.
  intros Hwf Hw. destruct (activate tm now t d) as [r tm'] eqn:E. simpl.
  apply activate_cases in E as [(_ & -> & _)|(data & _ & Hd & <- & ->)]; [done|].
  destruct (wf_fresh tm (token_factory tm) Hwf) as [Hfa Hfc]; [lia|].
  assert (t < token_factory tm) as Hlt by (apply (wf_allocated _ Hwf); eauto).
  split; simpl; rewrite ?next_token_small by done.
  - intros t'. rewrite lookup_delete_is_Some. intros [_ Hs].
    apply (wf_allocated _ Hwf) in Hs. lia.
  - intros t'. rewrite lookup_insert_is_Some'. intros [<-|Hs]; [lia|].
    apply (wf_active _ Hwf) in Hs. lia.
  - intros t' d'. rewrite lookup_delete_Some. intros [_ Hd'].
    rewrite lookup_insert_ne by (by intros <-; congruence).
    by eapply wf_disjoint.
  - intros t' d'. rewrite lookup_insert_Some. intros [[<- <-]|[Hne Hd']]; simpl.
    + split_and!; [done|apply lookup_delete_eq|].
      rewrite lookup_insert_ne by lia.
      by eapply wf_disjoint.
    + destruct (wf_consumed _ Hwf _ _ Hd') as (? & Ha & Hb).
      assert (t' < token_factory tm) by (apply (wf_active _ Hwf); eauto).
      split_and!; [done|by apply lookup_delete_None; right|].
      by rewrite lookup_insert_ne by lia.
Qed.

#[export] Hint Resolve allocate_wf activate_wf : sv2.

Lemma exec_wf o tm : wf tm → below_wrap tm 1 → wf (exec o tm).2.
Proof. intros. destruct o; [by apply allocate_wf|cbn [exec snd]; eauto with sv2..]. Qed.

Lemma exec_factory o tm :
  below_wrap tm 1 →
  token_factory tm ≤ token_factory (exec o tm).2 ≤ token_factory tm + 1.
Proof.
  intros Hw. destruct o as [| |now t d| | | |]; cbn -[activate];
    rewrite ?next_token_small by done; try lia.
  destruct (activate tm now t d) as [r tm'] eqn:E.
  apply activate_cases in E as [(_ & -> & _)|(data & _ & _ & _ & ->)]; simpl;
    rewrite ?next_token_small by done; lia.
Qed.

Lemma exec_below_wrap o tm n :
  below_wrap tm (S n) → below_wrap (exec o tm).2 n.
Proof.
  intros Hw. assert (below_wrap tm 1) as Hw1 by (unfold below_wrap in *; lia).
  pose proof (exec_factory o tm Hw1). unfold below_wrap in *. lia.
Qed.

(** A token handed out is the value of the counter, which then moves on. *)
Lemma exec_issued o tm t tm' :
  exec o tm = (Some t, tm') → t = token_factory tm ∧ token_factory tm' = next_token tm.
Proof.
  destruct o as [| |now a d| | | |]; simpl; try naive_solver.
  intros E. apply activate_cases in E as [(? & _)|(data & [= ->] & _ & _ & ->)]; done.
Qed.

(** Status of a token in a state whose maps only shrank. *)
Lemma status_shrink tm al ac t :
  wf tm → al ⊆ allocated_tokens tm → ac ⊆ active_tokens tm →
  let tm' := {| token_factory := token_factory tm;
                allocated_tokens := al; active_tokens := ac |} in
  status tm' t = status tm t ∨ lifecycle (status tm t) (status tm' t).
Proof.
  intros Hwf Hal Hac tm'. unfold status; simpl.
  destruct (al !! t) as [d|] eqn:Ea.
  { rewrite (lookup_weaken _ _ _ _ Ea Hal). by left. }
  destruct (ac !! t) as [d|] eqn:Ec.
  { pose proof (lookup_weaken _ _ _ _ Ec Hac) as Hc.
    destruct (allocated_tokens tm !! t) as [d'|] eqn:E.
    - exfalso. apply (wf_disjoint _ Hwf) in E. congruence.
    - rewrite Hc. by left. }
  destruct (allocated_tokens tm !! t) as [d|] eqn:E.
  { rewrite (proj2 (N.ltb_lt _ _)); [right; constructor|].
    apply (wf_allocated _ Hwf). eauto. }
  destruct (active_tokens tm !! t) as [d|] eqn:E'; [|by left].
  rewrite (proj2 (N.ltb_lt _ _)); [right; constructor|].
  apply (wf_active _ Hwf). eauto.
Qed.

Lemma ltb_succ_ne t n : t ≠ n → (t <? n + 1) = (t <? n).
Proof. intros. destruct (N.ltb_spec t n), (N.ltb_spec t (n + 1)); (done || lia). Qed.

(** Every operation moves every token along its life cycle, or leaves it. *)
Lemma exec_lifecycle o tm t :
  wf tm → below_wrap tm 1 →
  status (exec o tm).2 t = status tm t ∨ lifecycle (status tm t) (status (exec o tm).2 t).
Proof.
  intros Hwf Hw. destruct o as [now d u|a|now a d|a| |d|now]; cbn -[activate].
  2,4-7: apply status_shrink; auto with sv2.
  - destruct (wf_fresh tm (token_factory tm) Hwf) as [Ha Hc]; [lia|].
    unfold status; simpl. destruct (decide (t = token_factory tm)) as [->|Hne].
    + rewrite lookup_insert_eq, Ha, Hc, N.ltb_irrefl. right. constructor.
    + rewrite lookup_insert_ne by done. left.
      by rewrite next_token_small, ltb_succ_ne by done.
  - destruct (activate tm now a d) as [r tm'] eqn:E. simpl.
    apply activate_cases in E as [(_ & -> & _)|(data & _ & Hd & <- & ->)]; [by left|].
    destruct (wf_fresh tm (token_factory tm) Hwf) as [Ha Hc]; [lia|].
    pose proof (wf_allocated _ Hwf a (mk_is_Some _ _ Hd)) as Hlt.
    unfold status; simpl. rewrite next_token_small by done.
    destruct (decide (t = token_factory tm)) as [->|Hne]; [|destruct (decide (t = a)) as [->|Hna]].
    + rewrite lookup_delete_ne, Ha, Hc, lookup_insert_eq, N.ltb_irrefl by lia.
      right. constructor.
    + rewrite lookup_delete_eq, lookup_insert_ne, Hd by done.
      rewrite (wf_disjoint _ Hwf _ _ Hd), (proj2 (N.ltb_lt _ _)) by lia.
      right. constructor.
    + rewrite lookup_delete_ne, lookup_insert_ne, ltb_succ_ne by done. by left.
Qed.

Lemma run_app ops1 ops2 tm :
  run (ops1 ++ ops2) tm =
  ((run ops1 tm).1 ++ (run ops2 (run ops1 tm).2).1, (run ops2 (run ops1 tm).2).2).
Proof.
  revert tm. induction ops1 as [|o ops1 IH]; intros tm; simpl.
  { by destruct (run ops2 tm). }
  destruct (exec o tm) as [issued tm1]. rewrite IH.
  destruct (run ops1 tm1) as [l tm2]. simpl. by destruct issued.
Qed.

Lemma run_cons_snd o ops tm : (run (o :: ops) tm).2 = (run ops (exec o tm).2).2.
Proof. simpl. destruct (exec o tm) as [i tm1]. simpl. by destruct (run ops tm1). Qed.

Lemma below_wrap_le tm n n' : (n' ≤ n)%nat → below_wrap tm n → below_wrap tm n'.
Proof. unfold below_wrap. lia. Qed.

Lemma run_invariant ops tm n :
  wf tm → below_wrap tm (length ops + n) →
  wf (run ops tm).2 ∧ below_wrap (run ops tm).2 n ∧
  ∀ t, rtc lifecycle (status tm t) (status (run ops tm).2 t).
Proof.
  revert tm. induction ops as [|o ops IH]; intros tm Hwf Hw; [done|].
  rewrite run_cons_snd.
  assert (below_wrap tm 1) as Hw1 by (eapply below_wrap_le; [|done]; simpl; lia).
  destruct (IH (exec o tm).2) as (Hwf' & Hb & Hlc).
  { by apply exec_wf. } { by apply exec_below_wrap. }
  split_and!; [done..|]. intros t.
  destruct (exec_lifecycle o tm t Hwf Hw1) as [<-|Hs]; [apply Hlc|].
  eapply rtc_l; [done|apply Hlc].
Qed.

Lemma dead_terminal s : rtc lifecycle Dead s → s = Dead.
Proof. intros Hr. apply rtc_inv in Hr as [|(s' & Hs & _)]; [done|inv Hs]. Qed.

Lemma status_dead tm t :
  status tm t = Dead → allocated_tokens tm !! t = None ∧ active_tokens tm !! t = None.
Proof. unfold status. intros. repeat case_match; naive_solver. Qed.

(** The tokens a sequence hands out lie between the counters around it. *)
Lemma run_issued_range ops tm t :
  below_wrap tm (length ops) → t ∈ (run ops tm).1 → token_factory tm ≤ t.
Proof.
  revert tm. induction ops as [|o ops IH]; intros tm Hw; [by intros ?%elem_of_nil|].
  assert (below_wrap tm 1) as Hw1 by (eapply below_wrap_le; [|done]; simpl; lia).
  pose proof (exec_factory o tm Hw1) as Hf. pose proof (exec_below_wrap _ _ _ Hw : below_wrap (exec o tm).2 (length ops)) as Hw'.
  simpl. destruct (exec o tm) as [issued tm1] eqn:E. simpl in *.
  specialize (IH tm1 Hw'). destruct (run ops tm1) as [rest tm2]. simpl in *.
  destruct issued as [t0|]; [|intros Hin; specialize (IH Hin); lia].
  apply exec_issued in E as [-> _].
  rewrite elem_of_cons. intros [->|Hin]; [lia|]. specialize (IH Hin). lia.
Qed.

Lemma run_issued_nodup ops tm :
  below_wrap tm (length ops) → NoDup (run ops tm).1.
Proof.
  revert tm. induction ops as [|o ops IH]; intros tm Hw; [constructor|].
  assert (below_wrap tm 1) as Hw1 by (eapply below_wrap_le; [|done]; simpl; lia).
  pose proof (exec_below_wrap _ _ _ Hw : below_wrap (exec o tm).2 (length ops)) as Hw'.
  simpl. destruct (exec o tm) as [issued tm1] eqn:E. simpl in *.
  pose proof (IH tm1 Hw') as Hnd. pose proof (λ t, run_issued_range ops tm1 t Hw') as Hr.
  destruct (run ops tm1) as [rest tm2]. simpl in *.
  destruct issued as [t0|]; [|done].
  apply exec_issued in E as [-> Hn]. rewrite next_token_small in Hn by done.
  constructor; [|done]. intros Hin. specialize (Hr _ Hin). lia.
Qed.

(** ** Provenance of identities

    The log of the allocations a sequence performs: token, owner, identity. *)
Fixpoint allocations (ops : list op) (tm : TokenManager) : list (N * N * string) :=
  match ops with
  | [] => []
  | o :: ops' =>
      match o with
      | OpAllocate _ d u => [(token_factory tm, d, u)]
      | _ => []
      end ++ allocations ops' (exec o tm).2
  end.

(** Every live token is bound to the owner and identity of its allocation. *)
Definition bound_by (log : list (N * N * string)) (tm : TokenManager) : Prop :=
  (∀ t d, allocated_tokens tm !! t = Some d → (t, al_owner d, al_user_identity d) ∈ log) ∧
  (∀ t d, active_tokens tm !! t = Some d →
     (allocated_token d, ac_owner d, ac_user_identity d) ∈ log).

Lemma bound_by_shrink log tm al ac :
  bound_by log tm → al ⊆ allocated_tokens tm → ac ⊆ active_tokens tm →
  bound_by log {| token_factory := token_factory tm;
                  allocated_tokens := al; active_tokens := ac |}.
Proof.
  intros [Ha Hc] Hal Hac. split; simpl; intros t d Hd.
  - apply Ha. by eapply lookup_weaken.
  - eapply Hc. by eapply lookup_weaken.
Qed.

Lemma exec_bound log o tm :
  bound_by log tm →
  bound_by (log ++ match o with OpAllocate _ d u => [(token_factory tm, d, u)] | _ => [] end)
    (exec o tm).2.
Proof.
  intros Hb. destruct o as [now d u|a|now a d|a| |d|now]; cbn -[activate];
    rewrite ?app_nil_r.
  2,4-7: apply bound_by_shrink; auto with sv2.
  - destruct Hb as [Ha Hc]. split; simpl; intros t data.
    + rewrite lookup_insert_Some. intros [[<- <-]|[_ Hd]]; simpl; [set_solver|].
      apply elem_of_app. left. by apply Ha.
    + intros Hd. apply elem_of_app. left. by eapply Hc.
  - destruct (activate tm now a d) as [r tm'] eqn:E. simpl.
    apply activate_cases in E as [(_ & -> & _)|(data & _ & Hd & <- & ->)]; [done|].
    destruct Hb as [Ha Hc]. split; simpl; intros t data'.
    + rewrite lookup_delete_Some. intros [_ ?]. by apply Ha.
    + rewrite lookup_insert_Some. intros [[<- <-]|[_ ?]]; simpl; [by apply Ha|].
      by eapply Hc.
Qed.

Lemma run_bound log ops tm :
  bound_by log tm → bound_by (log ++ allocations ops tm) (run ops tm).2.
Proof.
  revert log tm. induction ops as [|o ops IH]; intros log tm Hb.
  { simpl. by rewrite app_nil_r. }
  rewrite run_cons_snd. cbn [allocations]. rewrite (assoc_L (++)).
  by apply IH, exec_bound.
Qed.

(** ** Properties *)

(** C37: refinement of the token life cycle. However the manager's operations
    are interleaved, every token only ever moves along
    fresh -> allocated -> dead or fresh -> active -> dead, as long as fewer
    than 2^64 operations have run (so that the counter has not wrapped). *)
Theorem token_lifecycle_refinement (ops1 ops2 : list op) (t : N) :
  N.of_nat (length ops1 + length ops2) < u64_modulus →
  rtc lifecycle (status (run ops1 new).2 t) (status (run (ops1 ++ ops2) new).2 t).
Proof.
  intros Hlen. rewrite run_app. simpl.
  destruct (run_invariant ops1 new (length ops2)) as (Hwf & Hb & _);
    [apply new_wf|done|].
  apply (run_invariant ops2 _ 0); [done|]. by rewrite Nat.add_0_r.
Qed.

Definition demo_ops : list op :=
  [OpAllocate 5 1 "farm"; OpAllocate 6 2 "other"; OpActivate 7 0 1; OpActivate 8 0 1;
   OpDeactivate 2; OpRemoveDownstream 2].

Lemma token_lifecycle_refinement_witness :
  rtc lifecycle (status (run (take 3 demo_ops) new).2 0)
                (status (run (take 3 demo_ops ++ drop 3 demo_ops) new).2 0).
Proof. apply token_lifecycle_refinement. vm_compute. done. Defined.

(** A token is never handed out twice: the tokens returned by any
    sequence of allocations and activations, with any other operations in
    between, are pairwise distinct. *)
Theorem issued_tokens_unique (ops : list op) :
  N.of_nat (length ops) < u64_modulus → NoDup (run ops new).1.
Proof. intros. by apply run_issued_nodup. Qed.

Lemma issued_tokens_unique_witness :
  (run demo_ops new).1 = [0; 1; 2] ∧ NoDup (run demo_ops new).1.
Proof. split; [by vm_compute|apply issued_tokens_unique; by vm_compute]. Defined.

(** Activation is single use. Once a token has been activated no later
    activation of it succeeds, for any downstream and after any sequence of
    operations. *)
Theorem activate_single_use (ops1 ops2 : list op) (now now' t d d' a : N)
    (tm1 : TokenManager) :
  N.of_nat (length ops1 + S (length ops2)) < u64_modulus →
  activate (run ops1 new).2 now t d = (Some a, tm1) →
  (activate (run ops2 tm1).2 now' t d').1 = None.
Proof.
  intros Hlen Hact.
  destruct (run_invariant ops1 new (S (length ops2))) as (Hwf & Hb & _);
    [apply new_wf|done|].
  pose proof (exec_wf (OpActivate now t d) _ Hwf) as Hwf1.
  pose proof (exec_below_wrap (OpActivate now t d) _ _ Hb) as Hb1.
  cbn -[activate] in Hwf1, Hb1. rewrite Hact in Hwf1, Hb1. simpl in Hwf1, Hb1.
  assert (below_wrap (run ops1 new).2 1) as Hw1 by (eapply below_wrap_le; [|done]; lia).
  specialize (Hwf1 Hw1).
  destruct (run_invariant ops2 tm1 0) as (_ & _ & Hlc); [done|by rewrite Nat.add_0_r|].
  specialize (Hlc t). apply activate_cases in Hact as [[? _]|(data & _ & Hd & <- & ->)]; [done|].
  assert (t < token_factory (run ops1 new).2) by (apply (wf_allocated _ Hwf); eauto).
  replace (status _ t) with Dead in Hlc.
  - apply dead_terminal, status_dead in Hlc as [Hnone _].
    destruct (activate _ now' t d') as [r tm'] eqn:E. simpl.
    apply activate_cases in E as [(-> & _)|(data' & _ & ? & _)]; [done|congruence].
  - unfold status; simpl. rewrite lookup_delete_eq, lookup_insert_ne by lia.
    rewrite (wf_disjoint _ Hwf _ _ Hd), (proj2 (N.ltb_lt _ _)); [done|].
    rewrite next_token_small by done. lia.
Qed.

Lemma activate_single_use_witness :
  (activate (run [OpJanitor 9; OpAllocate 9 1 "farm"]
               (activate (run (take 2 demo_ops) new).2 7 0 1).2).2 10 0 1).1 = None.
Proof.
  eapply (activate_single_use (take 2 demo_ops) _ 7 10 0 1 1 2); by vm_compute.
Defined.

(** Ownership and identity binding. In every reachable state an active
    token carries the owner and the user identity under which its token was
    allocated: no sequence of operations moves a token to another downstream
    or to another identity. *)
Theorem active_token_provenance (ops : list op) (t : N) (d : ActiveTokenData) :
  allocated_from_active (run ops new).2 t = Some d →
  (allocated_token d, ac_owner d, ac_user_identity d) ∈ allocations ops new.
Proof.
  intros Hd. apply SharedMap.with_Some in Hd as (d' & Hd & <-).
  eapply (run_bound []); [|exact Hd].
  split; simpl; intros ??; by rewrite lookup_empty.
Qed.

Lemma active_token_provenance_witness :
  ((0, 1), "farm"%string) ∈ allocations (take 4 demo_ops) new.
Proof.
  apply (active_token_provenance (take 4 demo_ops) 2
    {| allocated_token := 0; activated_at := 7; ac_owner := 1;
       ac_user_identity := "farm" |}).
  by vm_compute.
Defined.

(** Activation succeeds exactly on a token that is allocated to the
    calling downstream ([is_allocated]); a refused activation changes nothing. *)
Theorem activate_iff_allocated (tm : TokenManager) (now t d : N) :
  (is_allocated tm t d = true → (activate tm now t d).1 = Some (token_factory tm)) ∧
  (is_allocated tm t d = false → activate tm now t d = (None, tm)).
Proof.
  destruct (activate tm now t d) as [r tm'] eqn:E.
  apply activate_cases in E as [(-> & -> & Hno)|(data & -> & Hd & Hown & _)].
  - split; [|done]. intros (data & Hd & Hown)%is_allocated_spec. by destruct (Hno data).
  - split; [done|]. intros Hf. exfalso.
    assert (is_allocated tm t d = true) by (apply is_allocated_spec; eauto). congruence.
Qed.

(** Disconnecting a downstream removes exactly the tokens it owns,
    allocated and active, and no token of anybody else. *)
Theorem remove_downstream_exact (tm : TokenManager) (d t : N) :
  (∀ data, allocated_tokens (remove_downstream tm d) !! t = Some data ↔
     allocated_tokens tm !! t = Some data ∧ al_owner data ≠ d) ∧
  (∀ data, active_tokens (remove_downstream tm d) !! t = Some data ↔
     active_tokens tm !! t = Some data ∧ ac_owner data ≠ d).
Proof.
  split; intros data; simpl; by rewrite SharedMap.retain_lookup, bool_decide_eq_true.
Qed.

(** The janitor evicts exactly the expired tokens: allocated tokens older
    than 24 hours and active tokens older than 10 seconds. *)
Theorem janitor_exact (tm : TokenManager) (now t : N) :
  (∀ data, allocated_tokens (janitor tm now) !! t = Some data ↔
     allocated_tokens tm !! t = Some data ∧
     now ≤ allocated_at data + 86400 * 1000000000) ∧
  (∀ data, active_tokens (janitor tm now) !! t = Some data ↔
     active_tokens tm !! t = Some data ∧
     now ≤ activated_at data + 10 * 1000000000).
Proof.
  split; intros data; simpl; rewrite SharedMap.retain_lookup, N.leb_le;
    unfold saturating_sub, from_secs, ALLOCATED_TOKEN_TIMEOUT_SECS,
      ACTIVE_TOKEN_TIMEOUT_SECS, TEMPORARY_TIMEOUT_MULTIPLIER.
  all: apply and_iff_compat_l; lia.
Qed.
End Tokens.
