(* ===== verification/Bitcoin.v ===== *)
(** * What the program takes from the [bitcoin] and [stratum_core] crates

    Transactions, hashing, consensus encoding and the weight constants live
    in crates outside the repository.  [BitcoinApi] is the interface the code
    uses of them, a parameter of every definition that needs it, and
    [BitcoinLaws] the documented behaviour some theorems rely on.  A 32-byte
    hash is the number its bytes encode.  The message records have the fields
    of the Stratum V2 messages the handlers read or fill in. *)
From S2P Require Import Prelude.

Record TxIn : Type := { script_sig : list byte; sequence : N }.
Record TxOut : Type := { value : N; script_pubkey : list byte }.

#[export] Instance byte_eq_dec : EqDecision byte.
Proof. exact Byte.byte_eq_dec. Defined.
#[export] Instance TxIn_eq_dec : EqDecision TxIn.
Proof. solve_decision. Defined.
#[export] Instance TxOut_eq_dec : EqDecision TxOut.
Proof. solve_decision. Defined.

Class BitcoinApi : Type := {
  Transaction : Type;
  (** Fields of [bitcoin::Transaction]. *)
  tx_version : Transaction → Z;
  tx_lock_time : Transaction → N;
  tx_input : Transaction → list TxIn;
  tx_output : Transaction → list TxOut;
  (** [compute_txid], [compute_wtxid], [weight().to_wu()], [is_coinbase]. *)
  compute_txid : Transaction → N;
  compute_wtxid : Transaction → N;
  tx_weight : Transaction → N;
  is_coinbase : Transaction → bool;
  (** [Decodable::consensus_decode] (trailing bytes allowed) and
      [consensus::deserialize] (all bytes consumed). *)
  consensus_decode : list byte → option Transaction;
  deserialize : list byte → option Transaction;
  (** [consensus::serialize] of a vector of outputs. *)
  serialize_outputs : list TxOut → list byte;
  (** [VarInt::consensus_decode] and [VarInt::size]. *)
  varint_decode : list byte → option N;
  varint_size : N → N;
  (** The double-SHA256 of two merkle nodes. *)
  merkle_combine : N → N → N;
  (** [Weight::MAX_BLOCK] and [Weight::MIN_TRANSACTION], in weight units. *)
  weight_max_block : N;
  weight_min_transaction : N;
}.

Class BitcoinLaws (B : BitcoinApi) : Prop := {
  law_max_block : weight_max_block = 4000000;
  law_min_transaction : weight_min_transaction = 240;
  (** The wtxid is the transaction's hash. *)
  law_wtxid_inj : ∀ t1 t2, compute_wtxid t1 = compute_wtxid t2 → t1 = t2;
  (** A transaction is an object in memory. *)
  law_weight_small : ∀ t, tx_weight t < 4611686018427387904;
}.

(** Only minimal encodings decode, so a decoded value has at least the bytes
    of its own encoding in front of it. *)
Class VarIntLaws (B : BitcoinApi) : Prop := {
  law_varint : ∀ bs v, varint_decode bs = Some v → varint_size v ≤ N.of_nat (length bs);
}.

Record BlockHeader : Type := { hdr_prev_blockhash : N; hdr_bits : N; hdr_time : N }.
Record Block `{BitcoinApi} : Type := { header : BlockHeader; block_txdata : list Transaction }.

(** The conversion [x as i32] of a [u32]. *)
Definition u32_as_i32 (n : N) : Z :=
  let z := (Z.of_N n mod 4294967296)%Z in
  if (z <? 2147483648)%Z then z else (z - 4294967296)%Z.

(** ** Messages of the Job Declaration and Mining protocols *)
Record AllocateMiningJobToken : Type := {
  amjt_request_id : N;
  user_identifier : string;
}.

Record DeclareMiningJob : Type := {
  dmj_request_id : N;
  mining_job_token : list byte;
  dmj_version : N;
  coinbase_tx_prefix : list byte;
  coinbase_tx_suffix : list byte;
  wtxid_list : list N;
}.

Record ProvideMissingTransactionsSuccess : Type := {
  pmts_request_id : N;
  transaction_list : list (list byte);
}.

Record SetCustomMiningJob : Type := {
  scmj_channel_id : N;
  scmj_request_id : N;
  scmj_token : list byte;
  scmj_version : N;
  scmj_prev_hash : N;
  scmj_ntime_start : N;
  scmj_nbits : N;
  coinbase_tx_version : N;
  coinbase_prefix : list byte;
  coinbase_tx_input_n_sequence : N;
  coinbase_tx_outputs : list byte;
  coinbase_tx_locktime : N;
  merkle_path : list N;
}.

#[export] Instance DeclareMiningJob_eq_dec : EqDecision DeclareMiningJob.
Proof. solve_decision. Defined.
#[export] Instance SetCustomMiningJob_eq_dec : EqDecision SetCustomMiningJob.
Proof. solve_decision. Defined.

(** ** A concrete interface for examples

    A transaction is the number of its wtxid and weighs what its low bits
    say; nothing else about it matters in the mirror's examples. *)
#[local] Instance number_api : BitcoinApi := {|
  Transaction := N;
  tx_version _ := 2%Z; tx_lock_time _ := 0; tx_input _ := [{| script_sig := []; sequence := 0 |}];
  tx_output _ := []; compute_txid t := t + 1000; compute_wtxid t := t;
  tx_weight t := t mod 4194304 * 4;
  is_coinbase t := (t =? 0)%N;
  consensus_decode _ := None; deserialize _ := None;
  serialize_outputs _ := []; varint_decode _ := None; varint_size _ := 1;
  merkle_combine a b := 31 * a + b;
  weight_max_block := 4000000; weight_min_transaction := 240
|}.

Lemma number_laws : BitcoinLaws number_api.
Proof.
  split; simpl; try done. intros t.
  pose proof (N.mod_lt t 4194304). lia.
Qed.

(** A second concrete interface, for the examples that decode coinbases: a
    transaction is its bytes, everything after the 44th being script. *)
#[local] Instance bytes_api : BitcoinApi := {|
  Transaction := list byte;
  tx_version _ := 2%Z; tx_lock_time _ := 0;
  tx_input bs := [{| script_sig := drop 44 bs; sequence := 7 |}];
  tx_output _ := []; compute_txid bs := N.of_nat (length bs);
  compute_wtxid bs := N.of_nat (length bs); tx_weight bs := 4 * N.of_nat (length bs);
  is_coinbase _ := false;
  consensus_decode bs := if decide (44 ≤ length bs)%nat then Some bs else None;
  deserialize bs := if decide (44 ≤ length bs)%nat then Some bs else None;
  serialize_outputs _ := [x00];
  varint_decode bs := match bs with
                      | b :: _ => if (Byte.to_N b <? 253)%N then Some (Byte.to_N b) else None
                      | [] => None
                      end;
  varint_size _ := 1;
  merkle_combine a b := 31 * a + b;
  weight_max_block := 4000000; weight_min_transaction := 240
|}.

Lemma bytes_varint : VarIntLaws bytes_api.
Proof. split. intros [|b bs] v; simpl; [done|]. intros. lia. Qed.
