(* ===== verification/MempoolMirror.v ===== *)
(** * The mempool mirror of the Job Declaration backend
    ([bitcoin-core-sv2/src/unix_capnp/v31x/job_declaration_protocol/mempool.rs];
    the v30x copy is the same code)

    The mirror caches transactions by wtxid under a weight ceiling.  A
    [HashMap] does not promise an iteration order: [update] takes the order
    its [retain] pass visits the entries in as [iter], any function that
    lists the entries of a map. *)
From S2P Require Import Prelude Bitcoin.

Section mirror.
Context `{BitcoinApi}.

Definition MAX_MIRROR_CARRY_OVER_WEIGHT : N := 4 * weight_max_block.
Definition MAX_MIRROR_WEIGHT : N := weight_max_block + MAX_MIRROR_CARRY_OVER_WEIGHT.

Inductive ResolveError : Type :=
| Missing (wtxids : list N)
| TooHeavy.

Record MempoolMirror : Type := {
  txdata : gmap N Transaction;
  current_prev_hash : option N;
  current_nbits : option N;
  current_ntime : option N;
}.

(** [MempoolMirror::new]. *)
Definition new_mirror : MempoolMirror :=
  {| txdata := ∅; current_prev_hash := None; current_nbits := None; current_ntime := None |}.

(** The template's transactions by wtxid, the coinbase skipped; a later
    duplicate replaces an earlier one. *)
Definition template_of (block : Block) : gmap N Transaction :=
  foldl (λ m tx, <[compute_wtxid tx := tx]> m) ∅ (drop 1 (block_txdata block)).

(** The [retain] closure run over the entries in order, with its counter. *)
Fixpoint retain_carried (template : gmap N Transaction) (entries : list (N * Transaction))
    (carried : N) : list (N * Transaction) :=
  match entries with
  | [] => []
  | (wtxid, tx) :: rest =>
      if decide (is_Some (template !! wtxid)) then
        (wtxid, tx) :: retain_carried template rest carried
      else
        let carried' := u64_add carried (tx_weight tx) in
        if (carried' <=? MAX_MIRROR_CARRY_OVER_WEIGHT)%N then
          (wtxid, tx) :: retain_carried template rest carried'
        else retain_carried template rest carried'
  end.

(** [MempoolMirror::update]. *)
Definition update (iter : gmap N Transaction → list (N * Transaction))
    (m : MempoolMirror) (block : Block) : MempoolMirror :=
  let prev_hash := hdr_prev_blockhash (header block) in
  let kept := if decide (current_prev_hash m = Some prev_hash) then txdata m else ∅ in
  let template := template_of block in
  {| txdata := list_to_map (retain_carried template (iter kept) 0) ∪ template;
     current_prev_hash := Some prev_hash;
     current_nbits := Some (hdr_bits (header block));
     current_ntime := Some (hdr_time (header block)) |}.

(** The loop of [add_transactions]: skip what is held, stop at the ceiling. *)
Fixpoint add_loop (txs : list Transaction) (held : gmap N Transaction) (mirror_weight : N)
    : gmap N Transaction :=
  match txs with
  | [] => held
  | tx :: rest =>
      let wtxid := compute_wtxid tx in
      if decide (is_Some (held !! wtxid)) then add_loop rest held mirror_weight
      else
        let weight := tx_weight tx in
        if (MAX_MIRROR_WEIGHT <? u64_add mirror_weight weight)%N then held
        else add_loop rest (<[wtxid := tx]> held) (u64_add mirror_weight weight)
  end.

(** The weight of a set of transactions, as the code sums it. *)
Definition weight_of (txs : gmap N Transaction) : N := map_sum tx_weight txs.

(** [MempoolMirror::add_transactions]. *)
Definition add_transactions (m : MempoolMirror) (txs : list Transaction) : MempoolMirror :=
  {| txdata := add_loop txs (txdata m) (u64_wrap (weight_of (txdata m)));
     current_prev_hash := current_prev_hash m;
     current_nbits := current_nbits m;
     current_ntime := current_ntime m |}.

(** [staged.get(wtxid).or_else(|| self.txdata.get(wtxid))]. *)
Definition find_tx (m : MempoolMirror) (staged : gmap N Transaction) (wtxid : N)
    : option Transaction :=
  match staged !! wtxid with
  | Some tx => Some tx
  | None => txdata m !! wtxid
  end.

(** The loop of [resolve_txdata], with its three accumulators. *)
Fixpoint resolve_loop (m : MempoolMirror) (staged : gmap N Transaction) (weight_budget : N)
    (wtxids : list N) (found : list Transaction) (missing : list N) (weight : N)
    : result (list Transaction) ResolveError :=
  match wtxids with
  | [] => if decide (missing = []) then Ok found else Err (Missing missing)
  | wtxid :: rest =>
      match find_tx m staged wtxid with
      | Some tx =>
          let weight' := u64_add weight (tx_weight tx) in
          if (weight_budget <? weight')%N then Err TooHeavy
          else resolve_loop m staged weight_budget rest (found ++ [tx]) missing weight'
      | None => resolve_loop m staged weight_budget rest found (missing ++ [wtxid]) weight
      end
  end.

(** [MempoolMirror::resolve_txdata]. *)
Definition resolve_txdata (m : MempoolMirror) (wtxids : list N)
    (staged : gmap N Transaction) (weight_budget : N)
    : result (list Transaction) ResolveError :=
  resolve_loop m staged weight_budget wtxids [] [] 0.

(** ** Invariant: keyed by wtxid, and under the ceiling. *)
Definition keyed (txs : gmap N Transaction) : Prop :=
  ∀ w tx, txs !! w = Some tx → compute_wtxid tx = w.

Record mirror_ok (m : MempoolMirror) : Prop := {
  mirror_keyed : keyed (txdata m);
  mirror_weight : weight_of (txdata m) ≤ MAX_MIRROR_WEIGHT;
}.

(** An admissible iteration order. *)
Definition lists_entries (iter : gmap N Transaction → list (N * Transaction)) : Prop :=
  ∀ m, iter m ≡ₚ map_to_list m.

(** The weight of a template without its coinbase. *)
Definition block_weight (block : Block) : N := sumN tx_weight (drop 1 (block_txdata block)).

(** ** Reference definition of resolution *)
Definition resolve_spec (m : MempoolMirror) (wtxids : list N)
    (staged : gmap N Transaction) (weight_budget : N)
    : result (list Transaction) ResolveError :=
  let found := omap (find_tx m staged) wtxids in
  let missing := filter (λ w, find_tx m staged w = None) wtxids in
  if decide (sumN tx_weight found ≤ weight_budget) then
    if decide (missing = []) then Ok found else Err (Missing missing)
  else Err TooHeavy.

(** ** Lemmas *)
Context `{!BitcoinLaws _}.

Lemma mirror_limits : MAX_MIRROR_CARRY_OVER_WEIGHT = 16000000 ∧ MAX_MIRROR_WEIGHT = 20000000.
Proof.
  unfold MAX_MIRROR_WEIGHT, MAX_MIRROR_CARRY_OVER_WEIGHT. rewrite law_max_block. done.
Qed.

Lemma keyed_empty : keyed ∅.
Proof. intros w tx. by rewrite lookup_empty. Qed.

Lemma keyed_insert txs tx : keyed txs → keyed (<[compute_wtxid tx := tx]> txs).
Proof.
  intros Hk w tx'. rewrite lookup_insert_Some. intros [[<- <-]|[_ ?]]; [done|by apply Hk].
Qed.

Lemma keyed_subseteq txs1 txs2 : txs1 ⊆ txs2 → keyed txs2 → keyed txs1.
Proof. intros Hs Hk w tx Hw. apply Hk. by eapply lookup_weaken. Qed.

Lemma keyed_union txs1 txs2 : keyed txs1 → keyed txs2 → keyed (txs1 ∪ txs2).
Proof.
  intros H1 H2 w tx. rewrite lookup_union_Some_raw. intros [?|[_ ?]]; [by apply H1|by apply H2].
Qed.

(** In two keyed maps equal keys hold equal transactions. *)
Lemma keyed_agree txs1 txs2 w tx1 tx2 :
  keyed txs1 → keyed txs2 → txs1 !! w = Some tx1 → txs2 !! w = Some tx2 → tx1 = tx2.
Proof.
  intros H1 H2 E1 E2. apply law_wtxid_inj. by rewrite (H1 _ _ E1), (H2 _ _ E2).
Qed.

Lemma template_fold_keyed txs m :
  keyed m → keyed (foldl (λ m tx, <[compute_wtxid tx := tx]> m) m txs).
Proof.
  revert m. induction txs as [|tx txs IH]; intros m Hk; simpl; [done|].
  by apply IH, keyed_insert.
Qed.

Lemma template_keyed block : keyed (template_of block).
Proof. apply template_fold_keyed, keyed_empty. Qed.

Lemma template_fold_weight txs m :
  keyed m →
  weight_of (foldl (λ m tx, <[compute_wtxid tx := tx]> m) m txs)
    ≤ weight_of m + sumN tx_weight txs.
Proof.
  revert m. induction txs as [|tx txs IH]; intros m Hk; simpl; [rewrite sumN_nil; lia|].
  etrans; [apply IH; by apply keyed_insert|]. rewrite sumN_cons.
  unfold weight_of. destruct (m !! compute_wtxid tx) as [tx'|] eqn:E.
  - assert (tx' = tx) as -> by (apply law_wtxid_inj; by apply Hk).
    rewrite insert_id by done. lia.
  - rewrite map_sum_insert by done. lia.
Qed.

Lemma template_weight block : weight_of (template_of block) ≤ block_weight block.
Proof.
  etrans; [apply template_fold_weight, keyed_empty|].
  unfold weight_of, block_weight. by rewrite map_sum_empty.
Qed.

Lemma template_fold_lookup txs m tx :
  keyed m → (m !! compute_wtxid tx = Some tx ∨ tx ∈ txs) →
  foldl (λ m tx, <[compute_wtxid tx := tx]> m) m txs !! compute_wtxid tx = Some tx.
Proof.
  revert m. induction txs as [|tx' txs IH]; intros m Hk Hin; simpl.
  { destruct Hin as [|Hin]; [done|]. by apply not_elem_of_nil in Hin. }
  apply IH; [by apply keyed_insert|].
  destruct Hin as [Hm|[->|Hin]%elem_of_cons].
  - left. destruct (decide (compute_wtxid tx' = compute_wtxid tx)) as [E|Hne].
    + apply law_wtxid_inj in E as ->. apply lookup_insert_eq.
    + by rewrite lookup_insert_ne.
  - left. apply lookup_insert_eq.
  - by right.
Qed.

Lemma template_fold_elem txs (m : gmap N Transaction) w tx :
  foldl (λ m tx, <[compute_wtxid tx := tx]> m) m txs !! w = Some tx →
  m !! w = Some tx ∨ tx ∈ txs.
Proof.
  revert m. induction txs as [|tx' txs IH]; intros m; simpl; [by left|].
  intros [Hm|Hin]%IH; [|right; by right].
  apply lookup_insert_Some in Hm as [[_ ->]|[_ ?]]; [right; left|by left].
Qed.

Lemma template_elem block w tx :
  template_of block !! w = Some tx → tx ∈ drop 1 (block_txdata block).
Proof. intros [Hm|?]%template_fold_elem; [by rewrite lookup_empty in Hm|done]. Qed.

(** The entries [retain_carried] keeps are a sublist of those it visits. *)
Lemma retain_carried_sublist template entries carried :
  sublist (retain_carried template entries carried) entries.
Proof.
  revert carried. induction entries as [|[w tx] entries IH]; intros carried; simpl.
  - constructor.
  - case_decide; [by constructor|]. case_match; by constructor.
Qed.

(** What it keeps beyond the template fits in what is left of the budget. *)
Lemma retain_carried_weight template entries carried :
  carried + sumN (λ e, tx_weight e.2) entries < u64_modulus →
  sumN (λ e, tx_weight e.2)
    (filter (λ e, template !! e.1 = None) (retain_carried template entries carried))
  ≤ MAX_MIRROR_CARRY_OVER_WEIGHT - carried.
Proof.
  revert carried. induction entries as [|[w tx] entries IH]; intros carried; simpl;
    [rewrite filter_nil, !sumN_nil; lia|]. rewrite sumN_cons. simpl. intros Hlt.
  case_decide as Ht.
  - rewrite filter_cons_False by (simpl; destruct Ht; congruence). apply IH. lia.
  - apply eq_None_not_Some in Ht. rewrite u64_add_small by lia.
    destruct (N.leb_spec (carried + tx_weight tx) MAX_MIRROR_CARRY_OVER_WEIGHT).
    + rewrite filter_cons_True, sumN_cons by done. simpl.
      specialize (IH (carried + tx_weight tx)). lia.
    + specialize (IH (carried + tx_weight tx)). lia.
Qed.

(** Entries of the template are always kept. *)
Lemma retain_carried_template template entries carried e :
  e ∈ entries → is_Some (template !! e.1) → e ∈ retain_carried template entries carried.
Proof.
  revert carried. induction entries as [|[w tx] entries IH]; intros carried;
    [by intros ?%elem_of_nil|].
  rewrite elem_of_cons. intros [->|Hin] Ht; simpl.
  - rewrite decide_True by done. left.
  - case_decide; [right; by apply IH|]. case_match; [right|]; by apply IH.
Qed.

Lemma retained_map_spec iter template kept :
  lists_entries iter → keyed kept →
  let retained := retain_carried template (iter kept) 0 in
  NoDup retained.*1 ∧ list_to_map retained ⊆ kept.
Proof.
  intros Hiter Hk retained.
  pose proof (retain_carried_sublist template (iter kept) 0) as Hsub.
  assert (NoDup retained.*1) as Hnd.
  { eapply sublist_NoDup; [|by apply fmap_sublist].
    rewrite (Hiter kept). apply NoDup_fst_map_to_list. }
  split; [done|]. apply map_subseteq_spec. intros w tx Hw.
  apply elem_of_list_to_map_2 in Hw. eapply elem_of_sublist in Hw; [|done].
  by rewrite (Hiter kept), elem_of_map_to_list in Hw.
Qed.

(** The union with the template only adds what was kept outside of it. *)
Lemma union_template template (kept : gmap N Transaction) :
  keyed kept → keyed template →
  kept ∪ template = filter (λ e, template !! e.1 = None) kept ∪ template.
Proof.
  intros Hk Ht. apply map_eq. intros w. apply option_eq. intros tx.
  rewrite !lookup_union_Some_raw, map_lookup_filter_Some, map_lookup_filter_None. simpl.
  destruct (template !! w) as [tx'|] eqn:E.
  - split.
    + intros [Hw|[? ?]]; [|naive_solver].
      right. rewrite (keyed_agree kept template w tx tx') by done. naive_solver.
    + intros [[_ ?]|[_ ?]]; [done|]. simplify_eq.
      destruct (kept !! w) as [tx'|] eqn:Ew; [|naive_solver].
      left. f_equal. by apply (keyed_agree kept template w).
  - naive_solver.
Qed.

Lemma kept_ok m prev :
  mirror_ok m →
  let kept := if decide (current_prev_hash m = Some prev) then txdata m else ∅ in
  keyed kept ∧ weight_of kept ≤ MAX_MIRROR_WEIGHT.
Proof.
  intros [Hk Hw]. simpl. case_decide; [done|]. split; [apply keyed_empty|].
  unfold weight_of. rewrite map_sum_empty. lia.
Qed.

Lemma update_weight iter m block :
  lists_entries iter → mirror_ok m →
  weight_of (txdata (update iter m block)) ≤ MAX_MIRROR_CARRY_OVER_WEIGHT + block_weight block.
Proof.
  intros Hiter Hok. destruct mirror_limits as [Hc Hm].
  pose proof (kept_ok m (hdr_prev_blockhash (header block)) Hok) as [Hk Hw].
  unfold update. cbn [txdata]. revert Hk Hw. generalize (if decide (current_prev_hash m =
    Some (hdr_prev_blockhash (header block))) then txdata m else ∅).
  intros kept Hk Hw. pose proof (template_keyed block) as Ht.
  pose proof (template_weight block) as Hb. set (template := template_of block) in *.
  destruct (retained_map_spec iter template kept Hiter Hk) as [Hnd Hsub].
  rewrite union_template by (done || by eapply keyed_subseteq).
  unfold weight_of in *. rewrite map_sum_union.
  - rewrite map_sum_filter_of_list by done.
    pose proof (retain_carried_weight template (iter kept) 0) as Hcw.
    rewrite (map_sum_perm tx_weight kept (iter kept) (Hiter kept)) in Hcw.
    unfold u64_modulus in Hcw. lia.
  - apply map_disjoint_spec. intros w tx1 tx2. rewrite map_lookup_filter_Some. simpl.
    intros [_ ?] ?. congruence.
Qed.

Lemma update_keyed iter m block :
  lists_entries iter → mirror_ok m → keyed (txdata (update iter m block)).
Proof.
  intros Hiter Hok. unfold update. cbn [txdata].
  destruct (kept_ok m (hdr_prev_blockhash (header block)) Hok) as [Hk _].
  apply keyed_union; [|apply template_keyed].
  eapply keyed_subseteq; [|exact Hk]. by apply retained_map_spec.
Qed.

(** One pass of the commit loop: the ceiling, what was held, what is new. *)
Lemma add_loop_spec txs held :
  keyed held → weight_of held ≤ MAX_MIRROR_WEIGHT →
  let held' := add_loop txs held (weight_of held) in
  keyed held' ∧ weight_of held' ≤ MAX_MIRROR_WEIGHT ∧ held ⊆ held' ∧
  ∀ w tx, held' !! w = Some tx → held !! w = Some tx ∨ tx ∈ txs ∧ compute_wtxid tx = w.
Proof.
  destruct mirror_limits as [_ Hm].
  revert held. induction txs as [|tx txs IH]; intros held Hk Hw; simpl.
  { split_and!; [done..|]. by left. }
  case_decide as Hs.
  { destruct (IH held Hk Hw) as (? & ? & ? & Hnew). split_and!; [done..|].
    intros w tx' Hw'. destruct (Hnew w tx' Hw') as [|[? ?]]; [by left|]. right.
    split; [by right|done]. }
  apply eq_None_not_Some in Hs. pose proof (law_weight_small tx) as Hsm.
  rewrite u64_add_small by (unfold u64_modulus; lia).
  destruct (N.ltb_spec MAX_MIRROR_WEIGHT (weight_of held + tx_weight tx)) as [Hlt|Hge].
  { split_and!; [done..|]. by left. }
  assert (weight_of (<[compute_wtxid tx := tx]> held) = weight_of held + tx_weight tx) as Hins.
  { unfold weight_of. rewrite map_sum_insert by done. lia. }
  rewrite <-Hins. destruct (IH (<[compute_wtxid tx := tx]> held)) as (? & ? & Hsub & Hnew).
  { by apply keyed_insert. } { lia. }
  split_and!; [done..| |].
  - etrans; [by apply insert_subseteq|done].
  - intros w tx' Hw'. destruct (Hnew w tx' Hw') as [Hin|[? ?]].
    + apply lookup_insert_Some in Hin as [[<- <-]|[_ ?]]; [right; split; [left|done]|by left].
    + right. split; [by right|done].
Qed.

(** When everything fits, everything supplied ends up held. *)
Lemma add_loop_complete txs held :
  keyed held → weight_of held + sumN tx_weight txs ≤ MAX_MIRROR_WEIGHT →
  ∀ tx, tx ∈ txs → add_loop txs held (weight_of held) !! compute_wtxid tx = Some tx.
Proof.
  destruct mirror_limits as [_ Hm].
  revert held. induction txs as [|tx0 txs IH]; intros held Hk; [by intros _ ? ?%elem_of_nil|].
  rewrite sumN_cons. intros Hw tx Hin. simpl. case_decide as Hs.
  - apply elem_of_cons in Hin as [->|Hin]; [|apply IH; [done|lia|done]].
    destruct Hs as [tx' Htx']. assert (tx' = tx0) as -> by (apply law_wtxid_inj; by apply Hk).
    destruct (add_loop_spec txs held Hk) as (_ & _ & Hsub & _); [lia|].
    by eapply lookup_weaken.
  - apply eq_None_not_Some in Hs. rewrite u64_add_small by (unfold u64_modulus; lia).
    rewrite (proj2 (N.ltb_ge _ _)) by lia.
    assert (weight_of (<[compute_wtxid tx0 := tx0]> held) = weight_of held + tx_weight tx0) as Hins.
    { unfold weight_of. rewrite map_sum_insert by done. lia. }
    rewrite <-Hins. apply elem_of_cons in Hin as [->|Hin].
    + destruct (add_loop_spec txs (<[compute_wtxid tx0 := tx0]> held)) as (_ & _ & Hsub & _);
        [by apply keyed_insert|lia|].
      eapply lookup_weaken; [apply lookup_insert_eq|done].
    + apply IH; [by apply keyed_insert|lia|done].
Qed.

Lemma add_transactions_spec m txs :
  mirror_ok m →
  let m' := add_transactions m txs in
  mirror_ok m' ∧ txdata m ⊆ txdata m' ∧
  ∀ w tx, txdata m' !! w = Some tx →
    txdata m !! w = Some tx ∨ tx ∈ txs ∧ compute_wtxid tx = w.
Proof.
  intros [Hk Hw]. destruct mirror_limits as [_ Hm]. unfold add_transactions. simpl.
  rewrite u64_wrap_small by (unfold u64_modulus; lia).
  destruct (add_loop_spec txs (txdata m) Hk Hw) as (? & ? & ? & ?). by split_and!.
Qed.

(** The resolution loop computes its reference definition, from any
    intermediate state of its accumulators. *)
Lemma resolve_loop_spec m staged budget wtxids found missing :
  budget ≤ weight_max_block → sumN tx_weight found ≤ budget →
  resolve_loop m staged budget wtxids found missing (sumN tx_weight found) =
  let found' := found ++ omap (find_tx m staged) wtxids in
  let missing' := missing ++ filter (λ w, find_tx m staged w = None) wtxids in
  if decide (sumN tx_weight found' ≤ budget) then
    if decide (missing' = []) then Ok found' else Err (Missing missing')
  else Err TooHeavy.
Proof.
  rewrite law_max_block. intros Hb. revert found missing.
  induction wtxids as [|w wtxids IH]; intros found missing Hw; simpl.
  { by rewrite filter_nil, !app_nil_r, (decide_True (P := _ ≤ budget)) by done. }
  destruct (find_tx m staged w) as [tx|] eqn:E.
  - rewrite filter_cons_False by congruence. pose proof (law_weight_small tx).
    rewrite u64_add_small by (unfold u64_modulus; lia).
    assert (sumN tx_weight (found ++ [tx]) = sumN tx_weight found + tx_weight tx) as Hs.
    { rewrite sumN_app, sumN_cons, sumN_nil. lia. }
    destruct (N.ltb_spec budget (sumN tx_weight found + tx_weight tx)) as [Hlt|Hge].
    + rewrite decide_False; [done|]. rewrite sumN_app, sumN_cons. lia.
    + rewrite <-Hs, IH by lia. simpl. by rewrite <-!(assoc_L (++)).
  - rewrite filter_cons_True, IH by done. simpl. by rewrite <-!(assoc_L (++)).
Qed.

Lemma find_tx_keyed m staged w tx :
  keyed (txdata m) → keyed staged → find_tx m staged w = Some tx → compute_wtxid tx = w.
Proof. intros Hm Hs. unfold find_tx. case_match; naive_solver. Qed.

(** A resolved list has the declared wtxids, in order, within the budget. *)
Lemma resolve_txdata_Ok m wtxids staged budget txs :
  budget ≤ weight_max_block → keyed (txdata m) → keyed staged →
  resolve_txdata m wtxids staged budget = Ok txs →
  compute_wtxid <$> txs = wtxids ∧ sumN tx_weight txs ≤ budget ∧
  txs = omap (find_tx m staged) wtxids.
Proof.
  intros Hb Hm Hs. unfold resolve_txdata. rewrite <-(sumN_nil tx_weight).
  rewrite resolve_loop_spec by (done || (rewrite sumN_nil; lia)). simpl.
  case_decide; [|done]. case_decide as Hmiss; [|done]. intros [= <-].
  split_and!; [|done..]. clear -Hmiss Hm Hs.
  induction wtxids as [|w wtxids IH]; [done|]. simpl.
  destruct (find_tx m staged w) as [tx|] eqn:E.
  - rewrite filter_cons_False in Hmiss by congruence.
    simpl. f_equal; [by eapply find_tx_keyed|by apply IH].
  - by rewrite filter_cons_True in Hmiss.
Qed.

Lemma new_mirror_ok : mirror_ok new_mirror.
Proof.
  split; [apply keyed_empty|]. unfold weight_of. simpl. rewrite map_sum_empty. lia.
Qed.

Lemma update_ok iter m block :
  lists_entries iter → mirror_ok m → block_weight block ≤ weight_max_block →
  mirror_ok (update iter m block).
Proof.
  intros Hiter Hok Hb. split; [by apply update_keyed|].
  etrans; [by apply update_weight|]. unfold MAX_MIRROR_WEIGHT. lia.
Qed.

(** Where an entry of the refreshed mirror comes from. *)
Lemma update_entries iter m block w tx :
  lists_entries iter → mirror_ok m →
  txdata (update iter m block) !! w = Some tx →
  template_of block !! w = Some tx ∨
  current_prev_hash m = Some (hdr_prev_blockhash (header block)) ∧ txdata m !! w = Some tx.
Proof.
  intros Hiter Hok. unfold update. cbn [txdata].
  destruct (kept_ok m (hdr_prev_blockhash (header block)) Hok) as [Hk _].
  rewrite lookup_union_Some_raw. intros [Hw|[_ Hw]]; [|by left].
  eapply lookup_weaken in Hw; [|by apply retained_map_spec].
  case_decide; [by right|by rewrite lookup_empty in Hw].
Qed.

Lemma update_holds_template iter m block tx :
  lists_entries iter → mirror_ok m → tx ∈ drop 1 (block_txdata block) →
  txdata (update iter m block) !! compute_wtxid tx = Some tx.
Proof.
  intros Hiter Hok Hin.
  assert (template_of block !! compute_wtxid tx = Some tx) as Ht.
  { apply template_fold_lookup; [apply keyed_empty|by right]. }
  destruct (txdata (update iter m block) !! compute_wtxid tx) as [tx'|] eqn:E.
  - f_equal. eapply keyed_agree; [apply update_keyed|apply template_keyed| |]; done.
  - unfold update in E. cbn [txdata] in E. apply lookup_union_None in E as [_ ?]. congruence.
Qed.

(** ** Properties *)

(** The weight ceiling holds across template refreshes. Refreshing a
    mirror that is keyed by wtxid and within MAX_MIRROR_WEIGHT with a template
    no heavier than a block gives such a mirror again, in whatever order the
    hash map visits its entries, and what it carries beyond the template stays
    within MAX_MIRROR_CARRY_OVER_WEIGHT. *)
Theorem update_keeps_ceiling iter (m : MempoolMirror) (block : Block) :
  lists_entries iter → mirror_ok m → block_weight block ≤ weight_max_block →
  mirror_ok (update iter m block) ∧
  weight_of (txdata (update iter m block))
    ≤ block_weight block + MAX_MIRROR_CARRY_OVER_WEIGHT.
Proof.
  intros. split; [by apply update_ok|]. rewrite N.add_comm. by apply update_weight.
Qed.

(** The template is authoritative. After a refresh every transaction of
    the template except the coinbase is held under its wtxid; any other entry
    was held before, at the same previous block hash; so a refresh at a new
    chain tip leaves exactly the template. *)
Theorem update_authoritative iter (m : MempoolMirror) (block : Block) :
  lists_entries iter → mirror_ok m →
  (∀ tx, tx ∈ drop 1 (block_txdata block) →
     txdata (update iter m block) !! compute_wtxid tx = Some tx) ∧
  (∀ w tx, txdata (update iter m block) !! w = Some tx →
     template_of block !! w = Some tx ∨
     current_prev_hash m = Some (hdr_prev_blockhash (header block)) ∧
     txdata m !! w = Some tx) ∧
  (current_prev_hash m ≠ Some (hdr_prev_blockhash (header block)) →
     txdata (update iter m block) = template_of block).
Proof.
  intros Hiter Hok. split_and!.
  - intros. by apply update_holds_template.
  - intros. by eapply update_entries.
  - intros Hne. unfold update. cbn [txdata]. rewrite decide_False by done.
    assert (iter ∅ = []) as ->.
    { apply Permutation_nil_r. rewrite (Hiter ∅). by rewrite map_to_list_empty. }
    simpl. apply (left_id_L ∅ (∪)).
Qed.

(** Commits respect the ceiling. Committing validated transactions keeps
    the mirror well formed and within MAX_MIRROR_WEIGHT, drops nothing, adds
    only supplied transactions under their own wtxid, leaves the template
    parameters alone, and keeps all of them when they fit. *)
Theorem add_transactions_bounded (m : MempoolMirror) (txs : list Transaction) :
  mirror_ok m →
  let m' := add_transactions m txs in
  mirror_ok m' ∧ txdata m ⊆ txdata m' ∧ current_prev_hash m' = current_prev_hash m ∧
  (∀ w tx, txdata m' !! w = Some tx →
     txdata m !! w = Some tx ∨ tx ∈ txs ∧ compute_wtxid tx = w) ∧
  (weight_of (txdata m) + sumN tx_weight txs ≤ MAX_MIRROR_WEIGHT →
     ∀ tx, tx ∈ txs → txdata m' !! compute_wtxid tx = Some tx).
Proof.
  intros Hok m'. destruct (add_transactions_spec m txs Hok) as (? & ? & ?).
  split_and!; try done. intros Hfit tx Hin. unfold m', add_transactions. cbn [txdata].
  destruct mirror_limits as [_ Hm]. destruct Hok as [Hk Hw].
  rewrite u64_wrap_small by (unfold u64_modulus; lia). by apply add_loop_complete.
Qed.

(** Resolution is correct. [resolve_txdata] returns the declared
    transactions in declaration order when all are known and fit the budget,
    exactly the unknown wtxids in declaration order when some are not, and
    TooHeavy when what is known outweighs the budget; no weight overflows. *)
Theorem resolve_txdata_correct (m : MempoolMirror) (wtxids : list N)
    (staged : gmap N Transaction) (weight_budget : N) :
  weight_budget ≤ weight_max_block →
  resolve_txdata m wtxids staged weight_budget = resolve_spec m wtxids staged weight_budget.
Proof.
  intros Hb. unfold resolve_txdata. rewrite <-(sumN_nil tx_weight).
  rewrite resolve_loop_spec; [done|done|rewrite sumN_nil; lia].
Qed.
End mirror.

(** ** Witnesses, on transactions that are numbers *)
Module MirrorExamples.
#[local] Existing Instance number_api.
#[local] Existing Instance number_laws.

Definition demo_block : Block :=
  {| header := {| hdr_prev_blockhash := 7; hdr_bits := 1; hdr_time := 2 |};
     block_txdata := [0; 100; 200] |}.

Definition demo_mirror : MempoolMirror :=
  add_transactions (update map_to_list new_mirror demo_block) [300; 400].

Lemma demo_order : lists_entries map_to_list.
Proof. intros m. reflexivity. Qed.

Lemma demo_mirror_ok : mirror_ok demo_mirror.
Proof.
  apply add_transactions_spec, update_ok; [apply demo_order|apply new_mirror_ok|done].
Qed.

Lemma update_keeps_ceiling_witness :
  mirror_ok (update map_to_list demo_mirror demo_block) ∧
  weight_of (txdata (update map_to_list demo_mirror demo_block)) ≤ 16001200.
Proof.
  apply (update_keeps_ceiling map_to_list demo_mirror demo_block);
    [apply demo_order|apply demo_mirror_ok|done].
Defined.

Lemma update_authoritative_witness :
  txdata (update map_to_list demo_mirror demo_block) !! 100 = Some 100.
Proof.
  apply (proj1 (update_authoritative map_to_list demo_mirror demo_block
    demo_order demo_mirror_ok) 100). apply list_elem_of_In. simpl. auto.
Defined.

Lemma add_transactions_bounded_witness : mirror_ok (add_transactions demo_mirror [500; 100]).
Proof. apply (add_transactions_bounded demo_mirror [500; 100] demo_mirror_ok). Defined.

Lemma resolve_txdata_correct_witness :
  resolve_txdata demo_mirror [400; 999; 100; 998] {[999 := 999]} 4000000 = Err (Missing [998]).
Proof. rewrite (resolve_txdata_correct demo_mirror); [|done]. by vm_compute. Defined.
End MirrorExamples.
