(* ===== verification/JdpHandlers.v ===== *)
(** * The Job Declaration backend over Bitcoin Core IPC
    ([bitcoin-core-sv2/src/unix_capnp/v31x/job_declaration_protocol/handlers.rs],
    [runtime_api/job_declaration_protocol/io.rs] and the request loop of
    [v31x/job_declaration_protocol/mod.rs])

    [handle_declare_mining_job] awaits Bitcoin Core's [checkBlock] in the
    middle, and the template monitor may refresh the mirror meanwhile.  The
    handler is therefore two functions, [declare_begin] up to the await and
    [declare_finish] after it, and the backend a transition system whose
    steps are template refreshes and the two halves of a request; requests
    are handled one at a time.  Bitcoin Core's answer is an input. *)
From S2P Require Import Prelude Bitcoin MempoolMirror.

(** The [DeclareMiningJob.Error] codes the code names. *)
Inductive DeclareErrorCode : Type :=
| InternalError
| InvalidCoinbaseTxInput
| InvalidJob
| StaleChainTip
| InvalidMiningJobToken
| InvalidCoinbaseTx
| MissingTxs.

#[export] Instance DeclareErrorCode_eq_dec : EqDecision DeclareErrorCode.
Proof. solve_decision. Defined.

Record ValidationContext : Type := { prev_hash : N; nbits : N }.

#[export] Instance ValidationContext_eq_dec : EqDecision ValidationContext.
Proof. solve_decision. Defined.

Inductive JdResponse : Type :=
| JdSuccess (prev_hash nbits : N) (txid_list : list N)
| JdError (error_code : DeclareErrorCode) (validation_context : ValidationContext)
| JdMissingTransactions (missing_wtxids : list N) (validation_context : ValidationContext).

#[export] Instance JdResponse_eq_dec : EqDecision JdResponse.
Proof. solve_decision. Defined.

(** Bitcoin Core's answer to [checkBlock]: the call failed on the IPC level,
    or it accepted the block, or rejected it with a reason that may be
    unreadable. *)
Inductive CheckBlockOutcome : Type :=
| IpcFailed
| Accepted
| Rejected (reason : option string).

Section backend.
Context `{BitcoinApi}.

Definition MAX_BLOCK_WEIGHT : N := weight_max_block.
Definition MAX_DECLARED_TXS : N := MAX_BLOCK_WEIGHT / weight_min_transaction.

(** [JdRequest::DeclareMiningJob], less its response channel. *)
Record DeclareRequest : Type := {
  req_version : Z;
  req_coinbase_tx : Transaction;
  req_wtxid_list : list N;
  req_missing_txs : list Transaction;
}.

(** The block handed to [checkBlock] (merkle root and nonce are zero). *)
Record TestBlock : Type := {
  tb_version : Z;
  tb_prev_blockhash : N;
  tb_time : N;
  tb_bits : N;
  tb_txdata : list Transaction;
}.

(** What the handler keeps across the await. *)
Record InFlight : Type := {
  initial_validation_context : ValidationContext;
  staged_txs : gmap N Transaction;
  declared_wtxids : list N;
  inflight_txids : list N;
  test_block : TestBlock;
}.

(** The duplicate check of [stage_missing_txs]. *)
Fixpoint collect_declared (wtxids : list N) (declared : gset N) : option (gset N) :=
  match wtxids with
  | [] => Some declared
  | w :: rest =>
      if decide (w ∈ declared) then None else collect_declared rest ({[w]} ∪ declared)
  end.

(** The staging loop of [stage_missing_txs]. *)
Fixpoint stage_loop (declared : gset N) (missing_txs : list Transaction)
    (staged : gmap N Transaction) : option (gmap N Transaction) :=
  match missing_txs with
  | [] => Some staged
  | tx :: rest =>
      let wtxid := compute_wtxid tx in
      if is_coinbase tx then None
      else if decide (wtxid ∉ declared) then None
      else if decide (is_Some (staged !! wtxid)) then None
      else stage_loop declared rest (<[wtxid := tx]> staged)
  end.

(** [stage_missing_txs]. *)
Definition stage_missing_txs (wtxids : list N) (missing_txs : list Transaction)
    : option (gmap N Transaction) :=
  if (MAX_DECLARED_TXS <? N.of_nat (length wtxids))%N then None
  else match collect_declared wtxids ∅ with
       | None => None
       | Some declared => stage_loop declared missing_txs ∅
       end.

(** [handle_declare_mining_job] up to the [checkBlock] call: a response sent
    at once, or a block to check. *)
Definition declare_begin (m : MempoolMirror) (req : DeclareRequest)
    : rust (JdResponse + InFlight) :=
  prev ← expect (current_prev_hash m);
  bits ← expect (current_nbits m);
  ntime ← expect (current_ntime m);
  let ctx := {| prev_hash := prev; nbits := bits |} in
  if decide (length (tx_input (req_coinbase_tx req)) ≠ 1%nat) then
    Done (inl (JdError InvalidCoinbaseTxInput ctx))
  else match stage_missing_txs (req_wtxid_list req) (req_missing_txs req) with
  | None => Done (inl (JdError InvalidJob ctx))
  | Some staged =>
      let weight_budget :=
        saturating_sub MAX_BLOCK_WEIGHT (tx_weight (req_coinbase_tx req)) in
      match resolve_txdata m (req_wtxid_list req) staged weight_budget with
      | Err (Missing missing_wtxids) => Done (inl (JdMissingTransactions missing_wtxids ctx))
      | Err TooHeavy => Done (inl (JdError InvalidJob ctx))
      | Ok txs =>
          Done (inr {| initial_validation_context := ctx;
                       staged_txs := staged;
                       declared_wtxids := req_wtxid_list req;
                       inflight_txids := compute_txid <$> txs;
                       test_block :=
                         {| tb_version := req_version req; tb_prev_blockhash := prev;
                            tb_time := ntime; tb_bits := bits;
                            tb_txdata := req_coinbase_tx req :: txs |} |})
      end
  end.

(** [wtxid_list.iter().filter_map(|w| staged_txs.remove(w))]. *)
Fixpoint take_staged (wtxids : list N) (staged : gmap N Transaction) : list Transaction :=
  match wtxids with
  | [] => []
  | w :: rest =>
      match staged !! w with
      | Some tx => tx :: take_staged rest (delete w staged)
      | None => take_staged rest staged
      end
  end.

(** The classification of a rejection by Core's reason string. *)
Definition classify_rejection (reason : string) : DeclareErrorCode :=
  if decide (reason = "inconclusive-not-best-prevblk" ∨ reason = "bad-txns-nonfinal" ∨
             reason = "bad-cb-height")
  then StaleChainTip else InvalidJob.

(** [handle_declare_mining_job] after the await: the mirror, the response,
    and whether the IPC connection is terminated. *)
Definition declare_finish (m : MempoolMirror) (f : InFlight) (outcome : CheckBlockOutcome)
    : rust (MempoolMirror * JdResponse * bool) :=
  let initial := initial_validation_context f in
  match outcome with
  | IpcFailed => Done (m, JdError InternalError initial, true)
  | Accepted =>
      latest_prev ← expect (current_prev_hash m);
      latest_bits ← expect (current_nbits m);
      let latest := {| prev_hash := latest_prev; nbits := latest_bits |} in
      if decide (prev_hash latest = prev_hash initial) then
        let validated := take_staged (declared_wtxids f) (staged_txs f) in
        Done (add_transactions m validated,
              JdSuccess (prev_hash initial) (nbits initial) (inflight_txids f), false)
      else Done (m, JdError StaleChainTip latest, false)
  | Rejected reason =>
      latest_prev ← expect (current_prev_hash m);
      latest_bits ← expect (current_nbits m);
      let latest := {| prev_hash := latest_prev; nbits := latest_bits |} in
      Done (m, JdError (classify_rejection (default "" reason)) latest, false)
  end.

(** ** The backend as a transition system

    [vouched] is ghost state: the pairs of chain tip and wtxid Bitcoin Core
    has vouched for, in a template or by accepting a declared block. *)
Record Backend : Type := {
  mirror : MempoolMirror;
  in_flight : option InFlight;
  cancelled : bool;
  sent : list JdResponse;
  vouched : gset (N * N);
}.

Definition template_vouches (block : Block) : gset (N * N) :=
  list_to_set ((λ tx, (hdr_prev_blockhash (header block), compute_wtxid tx)) <$>
    drop 1 (block_txdata block)).

Definition accept_vouches (f : InFlight) (outcome : CheckBlockOutcome) : gset (N * N) :=
  match outcome with
  | Accepted => list_to_set
      ((λ w, (prev_hash (initial_validation_context f), w)) <$> declared_wtxids f)
  | _ => ∅
  end.

(** The state once [new] has bootstrapped the mirror from the first template. *)
Definition backend_new (iter : gmap N Transaction → list (N * Transaction)) (block : Block)
    : Backend :=
  {| mirror := update iter new_mirror block; in_flight := None; cancelled := false;
     sent := []; vouched := template_vouches block |}.

Inductive backend_step : Backend → Backend → Prop :=
(** The monitor refreshes the mirror ([update_mempool_mirror]). *)
| step_refresh s iter block :
    lists_entries iter → block_weight block ≤ weight_max_block → cancelled s = false →
    backend_step s {| mirror := update iter (mirror s) block; in_flight := in_flight s;
                      cancelled := false; sent := sent s;
                      vouched := vouched s ∪ template_vouches block |}
(** A request is answered before [checkBlock]. *)
| step_answer s req r :
    in_flight s = None → cancelled s = false →
    declare_begin (mirror s) req = Done (inl r) →
    backend_step s {| mirror := mirror s; in_flight := None; cancelled := false;
                      sent := sent s ++ [r]; vouched := vouched s |}
(** A request is sent to [checkBlock]. *)
| step_check s req f :
    in_flight s = None → cancelled s = false →
    declare_begin (mirror s) req = Done (inr f) →
    backend_step s {| mirror := mirror s; in_flight := Some f; cancelled := false;
                      sent := sent s; vouched := vouched s |}
(** Bitcoin Core's answer to [checkBlock] is processed. *)
| step_finish s f outcome m r c :
    in_flight s = Some f → cancelled s = false →
    declare_finish (mirror s) f outcome = Done (m, r, c) →
    backend_step s {| mirror := m; in_flight := None; cancelled := c;
                      sent := sent s ++ [r];
                      vouched := vouched s ∪ accept_vouches f outcome |}.

Definition backend_reachable (s : Backend) : Prop :=
  ∃ iter block, lists_entries iter ∧ block_weight block ≤ weight_max_block ∧
    rtc backend_step (backend_new iter block) s.

(** ** Invariants *)

(** The template parameters are set, as the [expect]s demand. *)
Definition bootstrapped (m : MempoolMirror) : Prop :=
  is_Some (current_prev_hash m) ∧ is_Some (current_nbits m) ∧ is_Some (current_ntime m).

(** A staging area: keyed by wtxid, declared transactions only, no coinbase. *)
Record staged_ok (wtxids : list N) (staged : gmap N Transaction) : Prop := {
  staged_keyed : keyed staged;
  staged_declared : ∀ w tx, staged !! w = Some tx → w ∈ wtxids ∧ is_coinbase tx = false;
}.

Record backend_ok (s : Backend) : Prop := {
  bo_mirror : mirror_ok (mirror s);
  bo_bootstrapped : bootstrapped (mirror s);
  bo_vouched : ∀ p w tx, current_prev_hash (mirror s) = Some p →
    txdata (mirror s) !! w = Some tx → (p, w) ∈ vouched s;
  bo_in_flight : ∀ f, in_flight s = Some f → staged_ok (declared_wtxids f) (staged_txs f);
}.

(** ** Lemmas *)
Lemma collect_declared_Some wtxids declared result :
  collect_declared wtxids declared = Some result ↔
  NoDup wtxids ∧ (∀ w, w ∈ wtxids → w ∉ declared) ∧ result = list_to_set wtxids ∪ declared.
Proof.
  revert declared. induction wtxids as [|w wtxids IH]; intros declared; simpl.
  { rewrite (left_id_L ∅ (∪)). split; [intros [= <-]|by intros (_ & _ & ->)].
    split_and!; [constructor|set_solver|done]. }
  case_decide as Hw; [split; [done|]|rewrite IH, NoDup_cons; split].
  - intros (_ & Hd & _). destruct (Hd w); [left|done].
  - intros (Hnd & Hd & ->). split_and!; [set_solver|done|set_solver|set_solver].
  - intros ([Hin Hnd] & Hd & ->). split_and!; [done|set_solver|set_solver].
Qed.

Lemma stage_loop_Some declared txs staged result :
  stage_loop declared txs staged = Some result →
  Forall (λ tx, is_coinbase tx = false ∧ compute_wtxid tx ∈ declared) txs ∧
  NoDup (compute_wtxid <$> txs) ∧ (∀ tx, tx ∈ txs → staged !! compute_wtxid tx = None) ∧
  ∀ w tx, result !! w = Some tx ↔
    staged !! w = Some tx ∨ tx ∈ txs ∧ compute_wtxid tx = w.
Proof.
  revert staged. induction txs as [|tx txs IH]; intros staged; simpl.
  { intros [= <-]. split_and!; [constructor|constructor|set_solver|set_solver]. }
  destruct (is_coinbase tx) eqn:Ec; [done|]. case_decide as Hd; [done|].
  case_decide as Hs; [done|]. apply eq_None_not_Some in Hs.
  intros (Hall & Hnd & Hfresh & Hres)%IH. split_and!.
  - by constructor.
  - constructor; [|done]. intros (tx' & Heq & Hin)%list_elem_of_fmap.
    specialize (Hfresh tx' Hin). rewrite <-Heq in Hfresh. by rewrite lookup_insert_eq in Hfresh.
  - intros tx' [->|Hin]%elem_of_cons; [done|]. specialize (Hfresh tx' Hin).
    by apply lookup_insert_None in Hfresh as [? _].
  - intros w tx'. rewrite Hres, lookup_insert_Some, elem_of_cons. split.
    + intros [[[<- <-]|[_ ?]]|[? ?]]; eauto.
    + intros [Hw|[[->|?] ?]]; [left; right; split; [congruence|done]|by left; left|by right].
Qed.

Lemma stage_loop_complete declared txs staged :
  Forall (λ tx, is_coinbase tx = false ∧ compute_wtxid tx ∈ declared) txs →
  NoDup (compute_wtxid <$> txs) → (∀ tx, tx ∈ txs → staged !! compute_wtxid tx = None) →
  is_Some (stage_loop declared txs staged).
Proof.
  intros Hall. revert staged. induction Hall as [|tx txs [Hc Hd] _ IH];
    intros staged; simpl; [eauto|]. rewrite NoDup_cons. intros [Hnin Hnd] Hfresh.
  rewrite Hc, decide_False by (intros Hn; by apply Hn).
  rewrite decide_False; [|apply eq_None_not_Some, Hfresh; left]. apply IH; [done|].
  intros tx' Hin. rewrite lookup_insert_ne; [apply Hfresh; by right|].
  intros Heq. apply Hnin. rewrite Heq. by apply list_elem_of_fmap_2.
Qed.

Lemma stage_missing_txs_ok wtxids txs staged :
  stage_missing_txs wtxids txs = Some staged →
  N.of_nat (length wtxids) ≤ MAX_DECLARED_TXS ∧ NoDup wtxids ∧ staged_ok wtxids staged ∧
  ∀ w tx, staged !! w = Some tx ↔ tx ∈ txs ∧ compute_wtxid tx = w.
Proof.
  unfold stage_missing_txs. destruct (N.ltb_spec MAX_DECLARED_TXS (N.of_nat (length wtxids)));
    [done|]. destruct (collect_declared wtxids ∅) as [declared|] eqn:E; [|done].
  apply collect_declared_Some in E as (Hnd & _ & ->).
  intros (Hall & _ & _ & Hres)%stage_loop_Some. setoid_rewrite lookup_empty in Hres.
  split_and!; [done|done| |naive_solver]. split.
  - intros w tx ?%Hres. naive_solver.
  - intros w tx Hw. apply Hres in Hw as [?|[Hin <-]]; [done|].
    rewrite Forall_forall in Hall. destruct (Hall tx Hin). set_solver.
Qed.

Lemma take_staged_elem wtxids staged tx :
  tx ∈ take_staged wtxids staged → ∃ w, staged !! w = Some tx ∧ w ∈ wtxids.
Proof.
  revert staged. induction wtxids as [|w wtxids IH]; intros staged; simpl;
    [by intros ?%elem_of_nil|].
  destruct (staged !! w) as [tx'|] eqn:E.
  - intros [->|Hin]%elem_of_cons; [exists w; split; [done|left]|].
    apply IH in Hin as (w' & Hw' & ?). apply lookup_delete_Some in Hw' as [_ ?].
    exists w'. split; [done|by right].
  - intros (w' & ? & ?)%IH. exists w'. split; [done|by right].
Qed.

Context `{!BitcoinLaws _}.

Lemma declare_begin_inr m req f :
  keyed (txdata m) → declare_begin m req = Done (inr f) →
  ∃ ntime txs,
    current_prev_hash m = Some (prev_hash (initial_validation_context f)) ∧
    current_nbits m = Some (nbits (initial_validation_context f)) ∧
    length (tx_input (req_coinbase_tx req)) = 1%nat ∧
    N.of_nat (length (req_wtxid_list req)) ≤ MAX_DECLARED_TXS ∧
    NoDup (req_wtxid_list req) ∧
    staged_ok (req_wtxid_list req) (staged_txs f) ∧
    declared_wtxids f = req_wtxid_list req ∧
    compute_wtxid <$> txs = req_wtxid_list req ∧
    sumN tx_weight txs ≤ MAX_BLOCK_WEIGHT - tx_weight (req_coinbase_tx req) ∧
    inflight_txids f = compute_txid <$> txs ∧
    test_block f = {| tb_version := req_version req;
      tb_prev_blockhash := prev_hash (initial_validation_context f); tb_time := ntime;
      tb_bits := nbits (initial_validation_context f);
      tb_txdata := req_coinbase_tx req :: txs |}.
Proof.
  intros Hk. unfold declare_begin.
  intros (prev & Hp & (bits & Hbits & (ntime & Ht & E)%rust_bind_done)%rust_bind_done)%rust_bind_done.
  apply expect_done in Hp, Hbits, Ht.
  case_decide as Hin; [done|].
  destruct (stage_missing_txs _ _) as [staged|] eqn:Es; [|done].
  apply stage_missing_txs_ok in Es as (Hlen & Hnd & Hok & _).
  destruct (resolve_txdata _ _ _ _) as [txs|[?|]] eqn:Er; [|done..].
  injection E as <-. apply resolve_txdata_Ok in Er as (Hw & Hsum & _);
    [|unfold saturating_sub, MAX_BLOCK_WEIGHT; lia|done|apply Hok].
  exists ntime, txs. by split_and!.
Qed.

Lemma declare_begin_done m req : bootstrapped m → is_done (declare_begin m req).
Proof.
  intros ((p & Hp) & (b & Hb) & (t & Ht)). unfold declare_begin.
  rewrite Hp, Hb, Ht. simpl. case_decide; [by eexists|].
  destruct (stage_missing_txs _ _); [|by eexists].
  destruct (resolve_txdata _ _ _ _) as [|[|]]; by eexists.
Qed.

Lemma declare_finish_done m f outcome : bootstrapped m → is_done (declare_finish m f outcome).
Proof.
  intros ((p & Hp) & (b & Hb) & _). unfold declare_finish. rewrite Hp, Hb. simpl.
  destruct outcome; [by eexists| |by eexists]. case_decide; by eexists.
Qed.

(** What [declare_finish] does to the mirror: nothing, or a commit of staged
    transactions validated at the tip the mirror is still at. *)
Lemma declare_finish_mirror m f outcome m' r c :
  declare_finish m f outcome = Done (m', r, c) →
  m' = m ∨
  outcome = Accepted ∧ current_prev_hash m = Some (prev_hash (initial_validation_context f)) ∧
  m' = add_transactions m (take_staged (declared_wtxids f) (staged_txs f)).
Proof.
  unfold declare_finish. destruct outcome as [| |reason]; [naive_solver| |].
  - intros (p & Hp & (b & Hb & E)%rust_bind_done)%rust_bind_done.
    apply expect_done in Hp. case_decide as Hd; simplify_eq/=; [right; by split_and!|by left].
  - intros (p & Hp & (b & Hb & E)%rust_bind_done)%rust_bind_done. simplify_eq. by left.
Qed.

Lemma bootstrapped_update iter m block : bootstrapped (update iter m block).
Proof. split_and!; simpl; eauto. Qed.

Lemma refresh_vouched iter m block v :
  lists_entries iter → mirror_ok m →
  (∀ p w tx, current_prev_hash m = Some p → txdata m !! w = Some tx → (p, w) ∈ v) →
  ∀ p w tx, current_prev_hash (update iter m block) = Some p →
    txdata (update iter m block) !! w = Some tx → (p, w) ∈ v ∪ template_vouches block.
Proof.
  intros Hiter Hok Hv p w tx [= <-] Hw. apply elem_of_union.
  pose proof (update_keyed iter m block Hiter Hok w tx Hw) as Hkey.
  apply update_entries in Hw as [Ht|[Hp Hm]]; [right|left; by eapply Hv|done..].
  unfold template_vouches. apply elem_of_list_to_set, list_elem_of_fmap.
  exists tx. split; [by rewrite Hkey|]. by eapply template_elem.
Qed.

(** A commit at the unchanged tip only adds what the accepted block vouches for. *)
Lemma finish_vouched m f outcome m' r c v :
  mirror_ok m → staged_ok (declared_wtxids f) (staged_txs f) →
  declare_finish m f outcome = Done (m', r, c) →
  (∀ p w tx, current_prev_hash m = Some p → txdata m !! w = Some tx → (p, w) ∈ v) →
  mirror_ok m' ∧ current_prev_hash m' = current_prev_hash m ∧
  (bootstrapped m → bootstrapped m') ∧
  ∀ p w tx, current_prev_hash m' = Some p → txdata m' !! w = Some tx →
    (p, w) ∈ v ∪ accept_vouches f outcome.
Proof.
  intros Hok Hst Hfin Hv.
  apply declare_finish_mirror in Hfin as [->|(-> & Hp & ->)].
  { split_and!; [done..|]. intros. apply elem_of_union_l. by eapply Hv. }
  set (txs := take_staged _ _). destruct (add_transactions_spec m txs Hok) as (Hok' & _ & Hnew).
  split_and!; [done..|]. intros p w tx Hp' Hw. simpl in Hp'. simplify_eq.
  apply Hnew in Hw as [Hm|[Hin Hwt]]; [apply elem_of_union_l; by eapply Hv|].
  apply elem_of_union_r. apply take_staged_elem in Hin as (w' & Hs & Hd).
  apply (staged_keyed _ _ Hst) in Hs as ?. simplify_eq. simpl.
  apply elem_of_list_to_set, list_elem_of_fmap. eauto.
Qed.

Lemma backend_new_ok iter block :
  lists_entries iter → block_weight block ≤ weight_max_block →
  backend_ok (backend_new iter block).
Proof.
  intros Hiter Hb. split; cbn [mirror in_flight vouched backend_new].
  - apply update_ok; [done|apply new_mirror_ok|done].
  - apply bootstrapped_update.
  - rewrite <-(left_id_L ∅ (∪) (template_vouches block)).
    by apply refresh_vouched; [|apply new_mirror_ok|].
  - done.
Qed.

Lemma backend_step_ok s s' : backend_step s s' → backend_ok s → backend_ok s'.
Proof.
  intros Hs [Hm Hb Hv Hf]. destruct Hs as [s iter block Hit Hbw|s req r|s req f _ _ Hbeg|
    s f outcome m r c Hfl _ Hfin]; split;
    cbn [mirror in_flight vouched] in *; try done.
  - by apply update_ok.
  - by apply refresh_vouched.
  - intros f' [= <-]. apply declare_begin_inr in Hbeg as (? & ? & ?); [|apply Hm].
    destruct_and!. congruence.
  - by destruct (finish_vouched _ _ _ _ _ _ _ Hm (Hf f Hfl) Hfin Hv) as (? & _).
  - destruct (finish_vouched _ _ _ _ _ _ _ Hm (Hf f Hfl) Hfin Hv) as (_ & _ & ? & _); auto.
  - by destruct (finish_vouched _ _ _ _ _ _ _ Hm (Hf f Hfl) Hfin Hv) as (_ & _ & _ & ?).
Qed.

Lemma backend_reachable_ok s : backend_reachable s → backend_ok s.
Proof.
  intros (iter & block & Hit & Hb & Hr).
  assert (backend_ok (backend_new iter block)) as Hok by by apply backend_new_ok.
  induction Hr as [s|s1 s2 s3 Hstep _ IH]; [done|].
  by apply IH, (backend_step_ok s1).
Qed.

(** ** Properties *)

(** C40: the shared mirror is sound in every reachable state, however template
    refreshes and declarations interleave: it stays keyed by wtxid and under
    its weight ceiling, and every transaction in it was vouched for by Bitcoin
    Core at the mirror's current chain tip, either in a template or by
    accepting a declared block through checkBlock. *)
Theorem backend_mirror_sound (s : Backend) :
  backend_reachable s →
  mirror_ok (mirror s) ∧
  ∀ p w tx, current_prev_hash (mirror s) = Some p → txdata (mirror s) !! w = Some tx →
    compute_wtxid tx = w ∧ (p, w) ∈ vouched s.
Proof.
  intros Hok%backend_reachable_ok. split; [apply Hok|]. intros p w tx Hp Hw.
  split; [by apply (mirror_keyed _ (bo_mirror _ Hok))|by eapply bo_vouched].
Qed.

(** No reachable state makes the declaration handler panic: every expect
    on the mirror's template parameters succeeds, before and after the await,
    for every request and every answer of Bitcoin Core. *)
Theorem backend_never_panics (s : Backend) :
  backend_reachable s →
  (∀ req, is_done (declare_begin (mirror s) req)) ∧
  (∀ f outcome, is_done (declare_finish (mirror s) f outcome)).
Proof.
  intros Hok%backend_reachable_ok. pose proof (bo_bootstrapped _ Hok).
  split; intros; [by apply declare_begin_done|by apply declare_finish_done].
Qed.

(** Soundness of a successful declaration. If a declaration is answered
    with Success then Bitcoin Core accepted exactly the declared block: the
    coinbase has one input, the declared wtxids are distinct and few enough,
    the block carries the transactions with those wtxids in declaration order
    within the weight budget, the returned txids are theirs in the same order,
    and the chain tip of the mirror is the same before and after the check. *)
Theorem declare_success_sound (m m1 m2 : MempoolMirror) (req : DeclareRequest) (f : InFlight)
    (outcome : CheckBlockOutcome) (p b : N) (txids : list N) (c : bool) :
  mirror_ok m → declare_begin m req = Done (inr f) →
  declare_finish m1 f outcome = Done (m2, JdSuccess p b txids, c) →
  outcome = Accepted ∧ c = false ∧
  current_prev_hash m = Some p ∧ current_nbits m = Some b ∧ current_prev_hash m1 = Some p ∧
  length (tx_input (req_coinbase_tx req)) = 1%nat ∧ NoDup (req_wtxid_list req) ∧
  N.of_nat (length (req_wtxid_list req)) ≤ MAX_DECLARED_TXS ∧
  ∃ txs, tb_txdata (test_block f) = req_coinbase_tx req :: txs ∧
    compute_wtxid <$> txs = req_wtxid_list req ∧ txids = compute_txid <$> txs ∧
    sumN tx_weight txs ≤ MAX_BLOCK_WEIGHT - tx_weight (req_coinbase_tx req).
Proof.
  intros Hok Hbeg Hfin.
  apply declare_begin_inr in Hbeg as (ntime & txs & Hp & Hb & Hin & Hlen & Hnd & _ & _ & Hw &
    Hsum & Htx & Htb); [|apply Hok].
  unfold declare_finish in Hfin. destruct outcome as [| |reason]; [done| |].
  - apply rust_bind_done in Hfin as (p1 & Hp1 & (b1 & _ & Hfin)%rust_bind_done).
    apply expect_done in Hp1. case_decide as Hd; simplify_eq/=. split_and!; try done.
    exists txs. rewrite Htb. by split_and!.
  - apply rust_bind_done in Hfin as (p1 & _ & (b1 & _ & Hfin)%rust_bind_done). done.
Qed.

(** A declaration that is not answered with Success never changes the
    shared mirror, and the IPC connection is given up only on an IPC failure;
    a rejection is classified as a stale chain tip exactly for the three
    reasons Core gives when the tip or the coinbase height moved. *)
Theorem declare_rejection_commits_nothing (m m' : MempoolMirror) (f : InFlight)
    (outcome : CheckBlockOutcome) (r : JdResponse) (c : bool) :
  declare_finish m f outcome = Done (m', r, c) →
  ((∀ p b txids, r ≠ JdSuccess p b txids) → m' = m) ∧
  (c = true ↔ outcome = IpcFailed) ∧
  (∀ reason, outcome = Rejected (Some reason) → ∃ code ctx, r = JdError code ctx ∧
     (code = StaleChainTip ↔ reason ∈ ["inconclusive-not-best-prevblk"%string;
        "bad-txns-nonfinal"%string; "bad-cb-height"%string]) ∧
     (code ≠ StaleChainTip → code = InvalidJob)).
Proof.
  unfold declare_finish. destruct outcome as [| |reason].
  - intros [= <- <- <-]. split_and!; done.
  - intros (p & Hp & (b & Hb & E)%rust_bind_done)%rust_bind_done.
    case_decide; simplify_eq; split_and!; try done.
    intros Hr. by destruct (Hr _ _ _ eq_refl).
  - intros (p & Hp & (b & Hb & E)%rust_bind_done)%rust_bind_done. simplify_eq.
    split_and!; [done..|]. intros reason' [= ->]. eexists _, _. split; [done|].
    unfold classify_rejection. simpl. rewrite !elem_of_cons, elem_of_nil.
    case_decide; split; naive_solver.
Qed.

(** Staging accepts a declaration exactly when its wtxid list is short
    enough for a block and free of duplicates, and every supplied transaction
    is an ordinary transaction it declares, supplied once; what is staged are
    the supplied transactions, each under the wtxid it hashes to. *)
Theorem stage_missing_txs_correct (wtxids : list N) (txs : list Transaction) :
  (is_Some (stage_missing_txs wtxids txs) ↔
     N.of_nat (length wtxids) ≤ MAX_DECLARED_TXS ∧ NoDup wtxids ∧
     Forall (λ tx, is_coinbase tx = false ∧ compute_wtxid tx ∈ wtxids) txs ∧
     NoDup (compute_wtxid <$> txs)) ∧
  (∀ staged, stage_missing_txs wtxids txs = Some staged →
     ∀ w tx, staged !! w = Some tx ↔ tx ∈ txs ∧ compute_wtxid tx = w).
Proof.
  split; [|intros staged (_ & _ & _ & ?)%stage_missing_txs_ok; done].
  assert (∀ (A : list N) tx, compute_wtxid tx ∈@{gset N} list_to_set A ∪ ∅ ↔
    compute_wtxid tx ∈ A) as Hset by set_solver.
  unfold stage_missing_txs.
  destruct (N.ltb_spec MAX_DECLARED_TXS (N.of_nat (length wtxids))).
  { split; [by intros []|]. intros (? & _). lia. }
  destruct (collect_declared wtxids ∅) as [declared|] eqn:E.
  - apply collect_declared_Some in E as (Hnd & _ & ->). split.
    + intros [staged (Hall & Hnd' & _)%stage_loop_Some]. split_and!; try done.
      eapply Forall_impl; [done|]. intros tx [? ?]. split; [done|by apply Hset].
    + intros (_ & _ & Hall & Hnd'). apply stage_loop_complete; [|done|].
      * eapply Forall_impl; [done|]. intros tx [? ?]. split; [done|by apply Hset].
      * intros. apply lookup_empty.
  - split; [by intros []|]. intros (_ & Hnd & _).
    assert (collect_declared wtxids ∅ = Some (list_to_set wtxids ∪ ∅)); [|congruence].
    apply collect_declared_Some. split_and!; [done|set_solver|done].
Qed.
End backend.

Module BackendExamples.
#[local] Existing Instance number_api.
#[local] Existing Instance number_laws.

Definition demo_request : DeclareRequest :=
  {| req_version := 2; req_coinbase_tx := 1; req_wtxid_list := [100; 999];
     req_missing_txs := [999] |}.

Definition demo_start : Backend := backend_new map_to_list MirrorExamples.demo_block.

Definition demo_flight : InFlight :=
  {| initial_validation_context := {| prev_hash := 7; nbits := 1 |};
     staged_txs := {[999 := 999]}; declared_wtxids := [100; 999];
     inflight_txids := [1100; 1999];
     test_block := {| tb_version := 2; tb_prev_blockhash := 7; tb_time := 2; tb_bits := 1;
                      tb_txdata := [1; 100; 999] |} |}.

Definition demo_end : Backend :=
  {| mirror := add_transactions (mirror demo_start) [999]; in_flight := None;
     cancelled := false; sent := [JdSuccess 7 1 [1100; 1999]];
     vouched := template_vouches MirrorExamples.demo_block ∪
                accept_vouches demo_flight Accepted |}.

Lemma demo_begin :
  declare_begin (mirror demo_start) demo_request = Done (inr demo_flight).
Proof. by vm_compute. Qed.

Lemma demo_finish :
  declare_finish (mirror demo_start) demo_flight Accepted =
  Done (mirror demo_end, JdSuccess 7 1 [1100; 1999], false).
Proof. by vm_compute. Qed.

Lemma backend_demo_reachable : backend_reachable demo_end.
Proof.
  exists map_to_list, MirrorExamples.demo_block.
  split; [apply MirrorExamples.demo_order|]. split; [done|].
  eapply rtc_l; [eapply (step_check _ demo_request demo_flight); [done..|by vm_compute]|].
  apply rtc_once.
  exact (step_finish {| mirror := mirror demo_start; in_flight := Some demo_flight;
      cancelled := false; sent := []; vouched := vouched demo_start |}
    demo_flight Accepted (mirror demo_end) (JdSuccess 7 1 [1100; 1999]) false
    eq_refl eq_refl demo_finish).
Qed.

Lemma backend_mirror_sound_witness :
  txdata (mirror demo_end) !! 999 = Some 999 ∧ (7, 999) ∈ vouched demo_end.
Proof.
  split; [by vm_compute|].
  apply (proj2 (backend_mirror_sound demo_end backend_demo_reachable) 7 999 999); by vm_compute.
Defined.

Lemma backend_never_panics_witness :
  is_done (declare_begin (mirror demo_end) demo_request).
Proof. apply (backend_never_panics demo_end backend_demo_reachable). Defined.

Lemma declare_success_sound_witness : [1100; 1999] = compute_txid <$> [100; 999].
Proof.
  destruct (declare_success_sound (mirror demo_start) (mirror demo_start) (mirror demo_end)
    demo_request demo_flight Accepted 7 1 [1100; 1999] false)
    as (_ & _ & _ & _ & _ & _ & _ & _ & txs & Htx & _ & -> & _).
  - apply update_ok; [apply MirrorExamples.demo_order|apply new_mirror_ok|done].
  - by vm_compute.
  - by vm_compute.
  - vm_compute in Htx. by simplify_eq.
Defined.

Lemma declare_rejection_commits_nothing_witness :
  declare_finish (mirror demo_start) demo_flight (Rejected (Some "bad-cb-height"%string)) =
    Done (mirror demo_start, JdError StaleChainTip {| prev_hash := 7; nbits := 1 |}, false) ∧
  mirror demo_start = mirror demo_start.
Proof.
  split; [by vm_compute|].
  apply (declare_rejection_commits_nothing (mirror demo_start) (mirror demo_start) demo_flight
    (Rejected (Some "bad-cb-height"%string))
    (JdError StaleChainTip {| prev_hash := 7; nbits := 1 |}) false); [by vm_compute|done].
Defined.

Lemma stage_missing_txs_correct_witness :
  let txs : list Transaction := req_missing_txs demo_request in
  stage_missing_txs [100; 999] txs = Some (staged_txs demo_flight) ∧
  staged_txs demo_flight !! 999 = Some 999.
Proof.
  split; [by vm_compute|].
  apply (proj2 (stage_missing_txs_correct [100; 999] (req_missing_txs demo_request))
    (staged_txs demo_flight)); [by vm_compute|].
  split; [by left|done].
Defined.
End BackendExamples.
