(* ===== verification/Merkle.v ===== *)
(** * The coinbase merkle branch
    ([DeclaredCustomJob::get_merkle_path] in
    [pool-apps/jd-server/src/lib/job_declarator/job_validation/bitcoin_core_ipc.rs])

    The loop is translated with its indices, an out-of-range index being a
    panic, and related to the usual recursive definition of the merkle tree
    (pair up neighbours, the last node with itself on odd levels). *)
From S2P Require Import Prelude Bitcoin.

Section merkle.
Context `{BitcoinApi}.

(** One iteration of the inner [for idx in 0..half] loop. *)
Definition parent_at (hashes : list N) (idx : nat) : rust N :=
  left ← expect (hashes !! (2 * idx)%nat);
  right ← expect (hashes !! Nat.min (2 * idx + 1) (length hashes - 1));
  Done (merkle_combine left right).

(** The next level: [hashes.len().div_ceil(2)] parents. *)
Definition next_level (hashes : list N) : rust (list N) :=
  mapM (parent_at hashes) (seq 0 (N.to_nat (div_ceil (N.of_nat (length hashes)) 2))).

(** The [while hashes.len() > 1] loop; [None] when the fuel runs out. *)
Fixpoint branch_loop (fuel : nat) (hashes branch : list N) : rust (option (list N)) :=
  if decide (length hashes ≤ 1)%nat then Done (Some branch)
  else match fuel with
       | O => Done None
       | S fuel' =>
           sibling ← expect (hashes !! 1%nat);
           hashes' ← next_level hashes;
           branch_loop fuel' hashes' (branch ++ [sibling])
       end.

(** The branch of the node at index 0; a level is shorter than the one
    before, so the number of leaves is enough fuel. *)
Definition merkle_branch (hashes : list N) : rust (option (list N)) :=
  branch_loop (length hashes) hashes [].

(** ** Reference definitions *)
Fixpoint pair_up (hashes : list N) : list N :=
  match hashes with
  | [] => []
  | [x] => [merkle_combine x x]
  | x :: y :: rest => merkle_combine x y :: pair_up rest
  end.

Fixpoint merkle_root_fuel (fuel : nat) (hashes : list N) : option N :=
  match hashes, fuel with
  | [], _ => None
  | [root], _ => Some root
  | _, O => None
  | _, S fuel' => merkle_root_fuel fuel' (pair_up hashes)
  end.

(** The merkle root of a list of leaves. *)
Definition merkle_root (hashes : list N) : option N :=
  merkle_root_fuel (length hashes) hashes.

(** The root a header gets from the leaf at index 0 and its branch. *)
Definition root_from_branch (leaf : N) (branch : list N) : N :=
  foldl merkle_combine leaf branch.

(** The branch of the leftmost leaf, by recursion on the levels. *)
Fixpoint branch_spec (fuel : nat) (hashes : list N) : list N :=
  match hashes, fuel with
  | _ :: y :: _, S fuel' => y :: branch_spec fuel' (pair_up hashes)
  | _, _ => []
  end.

(** ** Lemmas *)

(** Induction two elements at a time. *)
Lemma pairs_ind (P : list N → Prop) :
  P [] → (∀ x, P [x]) → (∀ x y l, P l → P (x :: y :: l)) → ∀ l, P l.
Proof.
  intros H0 H1 H2 l. assert (P l ∧ ∀ x, P (x :: l)) as [? _]; [|done].
  induction l as [|y l [IH1 IH2]]; split; auto.
Qed.

Lemma pair_up_length hashes :
  length (pair_up hashes) = N.to_nat (div_ceil (N.of_nat (length hashes)) 2).
Proof.
  unfold div_ceil. induction hashes as [|x|x y l IH] using pairs_ind; [done..|].
  cbn [pair_up length]. rewrite IH.
  replace (N.of_nat (S (S (length l)))) with (N.of_nat (length l) + 1 * 2) by lia.
  rewrite N.Div0.mod_add, N.div_add by done. case_match; lia.
Qed.

Lemma pair_up_shorter hashes :
  (1 < length hashes)%nat → (0 < length (pair_up hashes) < length hashes)%nat.
Proof.
  destruct hashes as [|x [|y l]]; simpl; [lia..|]. intros _. split; [lia|].
  assert (length (pair_up l) ≤ length l)%nat; [|lia].
  induction l as [|z|z w l IH] using pairs_ind; simpl; lia.
Qed.

(** The indexed parent of two nodes is the paired one. *)
Lemma parent_at_pair_up hashes idx p :
  pair_up hashes !! idx = Some p → parent_at hashes idx = Done p.
Proof.
  revert idx p. induction hashes as [|x|x y l IH] using pairs_ind; intros idx p.
  - done.
  - destruct idx as [|idx]; [|done]. intros [= <-]. done.
  - destruct idx as [|idx]; cbn [pair_up lookup list_lookup].
    + intros [= <-]. unfold parent_at.
      replace (Nat.min (2 * 0 + 1) (length (x :: y :: l) - 1)) with 1%nat by (simpl; lia). done.
    + intros Hp. pose proof (lookup_lt_Some _ _ _ Hp) as Hlt. apply IH in Hp.
      destruct l as [|z l]; [simpl in Hlt; lia|].
      unfold parent_at in *. rewrite <-Hp.
      replace (2 * S idx)%nat with (S (S (2 * idx))) by lia.
      replace (Nat.min (S (S (2 * idx)) + 1) (length (x :: y :: z :: l) - 1))
        with (S (S (Nat.min (2 * idx + 1) (length (z :: l) - 1)))) by (simpl length; lia).
      done.
Qed.

Lemma mapM_done {A B} (f : A → rust B) (l : list A) (k : list B) :
  Forall2 (λ x y, f x = Done y) l k → mapM f l = Done k.
Proof. induction 1 as [|x y l k Hx _ IH]; [done|]. simpl. by rewrite Hx, IH. Qed.

Lemma next_level_pair_up hashes : next_level hashes = Done (pair_up hashes).
Proof.
  unfold next_level. rewrite <-pair_up_length. apply mapM_done.
  apply Forall2_same_length_lookup. rewrite length_seq. split; [done|].
  intros i idx p Hi Hp. apply lookup_seq in Hi as [-> _]. by apply parent_at_pair_up.
Qed.

Lemma branch_loop_spec fuel hashes branch :
  (length hashes ≤ fuel)%nat →
  branch_loop fuel hashes branch = Done (Some (branch ++ branch_spec fuel hashes)).
Proof.
  revert hashes branch. induction fuel as [|fuel IH]; intros hashes branch Hf.
  { destruct hashes; [|simpl in Hf; lia]. simpl. by rewrite app_nil_r. }
  destruct hashes as [|x [|y l]]; [simpl; by rewrite app_nil_r..|].
  cbn [branch_loop]. rewrite decide_False by (simpl; lia). simpl expect.
  pose proof (pair_up_shorter (x :: y :: l)) as Hs.
  rewrite next_level_pair_up. cbn [mbind rust_bind].
  rewrite IH; [|simpl length in *; lia].
  cbn [branch_spec]. by rewrite <-(assoc_L (++)).
Qed.

Lemma pair_up_head x y l : head (pair_up (x :: y :: l)) = Some (merkle_combine x y).
Proof. done. Qed.

Lemma branch_spec_root fuel leaf txids :
  (length txids < fuel)%nat →
  merkle_root_fuel fuel (leaf :: txids) =
  Some (root_from_branch leaf (branch_spec fuel (leaf :: txids))).
Proof.
  revert leaf txids. induction fuel as [|fuel IH]; intros leaf txids Hf; [lia|].
  destruct txids as [|y l]; [done|].
  pose proof (pair_up_shorter (leaf :: y :: l)) as Hs.
  cbn [merkle_root_fuel branch_spec root_from_branch foldl]. cbn [pair_up] in *.
  rewrite IH by (simpl in *; lia). done.
Qed.

Lemma branch_spec_leaf fuel leaf leaf' txids :
  branch_spec fuel (leaf :: txids) = branch_spec fuel (leaf' :: txids).
Proof.
  revert leaf leaf' txids. induction fuel as [|fuel IH]; intros leaf leaf' txids.
  { by destruct txids. }
  destruct txids as [|y l]; [done|]. cbn [branch_spec pair_up]. f_equal. apply IH.
Qed.

(** ** Properties *)

(** C39: the merkle path is correct. For every coinbase txid and list of
    transaction ids the loop terminates without an out-of-range access, and
    folding the returned branch over the coinbase txid gives the merkle root
    of the block. *)
Theorem merkle_path_root (coinbase_txid : N) (txids : list N) :
  ∃ branch, merkle_branch (coinbase_txid :: txids) = Done (Some branch) ∧
    merkle_root (coinbase_txid :: txids) = Some (root_from_branch coinbase_txid branch).
Proof.
  exists (branch_spec (S (length txids)) (coinbase_txid :: txids)). split.
  - unfold merkle_branch. by rewrite branch_loop_spec.
  - apply branch_spec_root. lia.
Qed.

(** The merkle path does not depend on the coinbase transaction, so the
    path computed from the declared coinbase with a zero-filled extranonce is
    the path of every coinbase that is actually mined. *)
Theorem merkle_path_coinbase_independent (cb cb' : N) (txids : list N) :
  merkle_branch (cb :: txids) = merkle_branch (cb' :: txids).
Proof.
  unfold merkle_branch. rewrite !branch_loop_spec by done. simpl length.
  by rewrite (branch_spec_leaf _ cb cb').
Qed.
End merkle.

Module MerkleExamples.
#[local] Existing Instance number_api.

Example branch_of_five : merkle_branch [1; 2; 3; 4; 5] =
  Done (Some [2; 97; 5120]).
Proof. by vm_compute. Qed.
End MerkleExamples.
