(* ===== verification/JobValidation.v ===== *)
(** * Validation of custom jobs
    ([pool-apps/jd-server/src/lib/job_declarator/job_validation/mod.rs] and
    [.../job_validation/bitcoin_core_ipc.rs])

    The engine keeps, per downstream, the declared jobs by request id and the
    request id of every allocated token.  [handle_declare_mining_job] awaits
    the answer of the IPC thread in the middle; a disconnect or the janitor
    may run meanwhile.  It is therefore split at the await into
    [engine_declare_begin] and [engine_declare_finish], and the engine is a
    transition system over the operations of its users. *)
From S2P Require Import Prelude SharedMap Bitcoin TokenManager MempoolMirror JdpHandlers Merkle.

(** The results of the [JobValidationEngine] trait. *)
Inductive DeclareMiningJobResult : Type :=
| DeclareSuccess
| DeclareError (error_code : DeclareErrorCode)
| DeclareMissingTransactions (missing_wtxids : list N).

(** The [SetCustomMiningJob.Error] codes the code names. *)
Inductive CustomErrorCode : Type :=
| CustomInvalidMiningJobToken
| CustomJobNotYetValidated
| CustomStaleChainTip
| CustomInvalidNbits
| CustomInvalidVersion
| CustomInvalidCoinbaseTx
| CustomInvalidCoinbaseTxVersion
| CustomInvalidCoinbasePrefix
| CustomInvalidCoinbaseTxInputNSequence
| CustomInvalidCoinbaseTxOutputs
| CustomInvalidCoinbaseTxLocktime
| CustomInvalidMerklePath.

Inductive SetCustomMiningJobResult : Type :=
| CustomSuccess
| CustomError (error_code : CustomErrorCode).

#[export] Instance DeclareMiningJobResult_eq_dec : EqDecision DeclareMiningJobResult.
Proof. solve_decision. Defined.
#[export] Instance CustomErrorCode_eq_dec : EqDecision CustomErrorCode.
Proof. solve_decision. Defined.
#[export] Instance SetCustomMiningJobResult_eq_dec : EqDecision SetCustomMiningJobResult.
Proof. solve_decision. Defined.

Record DeclaredCustomJob : Type := {
  declare_mining_job : DeclareMiningJob;
  validation_context : ValidationContext;
  txid_list : option (list N);
  validated : bool;
}.

Record AllocatedTokenEntry : Type := { entry_request_id : N; inserted_at : N }.

Record DownstreamState : Type := {
  declared_custom_jobs : gmap N DeclaredCustomJob;
  allocated_token_entries : gmap N AllocatedTokenEntry;
}.

(** [DownstreamState::default]. *)
Definition downstream_default : DownstreamState :=
  {| declared_custom_jobs := ∅; allocated_token_entries := ∅ |}.

(** [insert_declared_custom_job]. *)
Definition insert_declared_custom_job (st : DownstreamState) (now request_id token : N)
    (job : DeclaredCustomJob) : DownstreamState :=
  {| declared_custom_jobs := <[request_id := job]> (declared_custom_jobs st);
     allocated_token_entries :=
       <[token := {| entry_request_id := request_id; inserted_at := now |}]>
         (allocated_token_entries st) |}.

(** [remove_declared_custom_job]. *)
Definition remove_declared_custom_job (st : DownstreamState) (request_id token : N)
    : DownstreamState :=
  {| declared_custom_jobs := delete request_id (declared_custom_jobs st);
     allocated_token_entries := delete token (allocated_token_entries st) |}.

(** [take_declared_custom_job]: the entry is removed first, and stays removed
    when the job it names is gone. *)
Definition take_declared_custom_job (st : DownstreamState) (token : N)
    : option DeclaredCustomJob * DownstreamState :=
  match allocated_token_entries st !! token with
  | None => (None, st)
  | Some entry =>
      (declared_custom_jobs st !! entry_request_id entry,
       {| declared_custom_jobs := delete (entry_request_id entry) (declared_custom_jobs st);
          allocated_token_entries := delete token (allocated_token_entries st) |})
  end.

(** The [retain] closure of [prune_expired_allocations] over the entries in
    the order the hash map visits them. *)
Fixpoint prune_loop (entries : list (N * AllocatedTokenEntry)) (now timeout : N)
    (st : DownstreamState) (expired : list (N * N)) : DownstreamState * list (N * N) :=
  match entries with
  | [] => (st, expired)
  | (token, entry) :: rest =>
      if (saturating_sub now (inserted_at entry) <=? timeout)%N
      then prune_loop rest now timeout st expired
      else prune_loop rest now timeout
             (remove_declared_custom_job st (entry_request_id entry) token)
             (expired ++ [(token, entry_request_id entry)])
  end.

(** [prune_expired_allocations]. *)
Definition prune_expired_allocations
    (iter : gmap N AllocatedTokenEntry → list (N * AllocatedTokenEntry))
    (st : DownstreamState) (now timeout : N) : DownstreamState * list (N * N) :=
  prune_loop (iter (allocated_token_entries st)) now timeout st [].

(** [validation_context_for_request]. *)
Definition validation_context_for_request (st : DownstreamState) (request_id : N)
    : option ValidationContext :=
  validation_context <$> declared_custom_jobs st !! request_id.

(** [validation_context_drifted]. *)
Definition validation_context_drifted (previous current : ValidationContext) : bool :=
  bool_decide (prev_hash previous ≠ prev_hash current).

(** The engine's shared state: [downstream_states]. *)
Notation Engine := (gmap N DownstreamState).

Section engine.
Context `{BitcoinApi}.

(** [get_version], [get_nbits], [get_prev_hash]. *)
Definition get_version (job : DeclaredCustomJob) : N := dmj_version (declare_mining_job job).
Definition get_nbits (job : DeclaredCustomJob) : N := nbits (validation_context job).
Definition get_prev_hash (job : DeclaredCustomJob) : N := prev_hash (validation_context job).

Definition COINBASE_PREFIX_LEN : nat := 43.

(** [get_coinbase_tx]. The slice panics on a prefix shorter than 43 bytes and
    the subtractions panic on underflow.  Built without overflow checks, the
    second subtraction wraps to more than [isize::MAX] and the allocation of
    the zero bytes panics instead; the first one underflows only on a varint
    longer than its input, which [VarIntLaws] excludes. *)
Definition get_coinbase_tx (dmj : DeclareMiningJob) : rust (result Transaction unit) :=
  let prefix := coinbase_tx_prefix dmj in
  let suffix := coinbase_tx_suffix dmj in
  if decide (length prefix < COINBASE_PREFIX_LEN)%nat then Panic
  else match varint_decode (drop COINBASE_PREFIX_LEN prefix) with
  | None => Done (Err tt)
  | Some script_sig_size =>
      let script_sig_offset := N.of_nat COINBASE_PREFIX_LEN + varint_size script_sig_size in
      let prefix_len := N.of_nat (length prefix) in
      if (prefix_len <? script_sig_offset)%N then Panic
      else
        let script_sig_bytes_in_prefix := prefix_len - script_sig_offset in
        if (script_sig_size <? script_sig_bytes_in_prefix)%N then Panic
        else
          let full_extranonce_size := script_sig_size - script_sig_bytes_in_prefix in
          if (isize_max <? full_extranonce_size)%N then Panic
          else match consensus_decode
                 (prefix ++ replicate (N.to_nat full_extranonce_size) x00 ++ suffix) with
          | Some tx => Done (Ok tx)
          | None => Done (Err tt)
          end
  end.

(** [get_merkle_path]. *)
Definition get_merkle_path (job : DeclaredCustomJob) : rust (result (list N) unit) :=
  if negb (validated job) then Done (Err tt)
  else match txid_list job with
  | None => Done (Err tt)
  | Some txids =>
      coinbase ← get_coinbase_tx (declare_mining_job job);
      match coinbase with
      | Err _ => Panic
      | Ok tx =>
          branch ← merkle_branch (compute_txid tx :: txids);
          match branch with
          | Some branch => Done (Ok branch)
          | None => Panic
          end
      end
  end.

(** What [handle_declare_mining_job] keeps across the await. *)
Record EngineInFlight : Type := {
  ef_downstream_id : N;
  ef_allocated_token : N;
  ef_declare_mining_job : DeclareMiningJob;
  ef_is_retry : bool;
  ef_previous_context : option ValidationContext;
  ef_request : DeclareRequest;
}.

(** [handle_declare_mining_job] up to the await: an immediate result, or a
    request for the IPC thread with the downstream's state created. *)
Definition engine_declare_begin (es : Engine) (downstream_id : N) (dmj : DeclareMiningJob)
    (pmts : option ProvideMissingTransactionsSuccess)
    : rust (DeclareMiningJobResult + EngineInFlight * Engine) :=
  match parse_token (mining_job_token dmj) with
  | None => Done (inl (DeclareError InvalidMiningJobToken))
  | Some allocated_token =>
      coinbase ← get_coinbase_tx dmj;
      match coinbase with
      | Err _ => Done (inl (DeclareError InvalidCoinbaseTx))
      | Ok tx =>
          if decide (length (tx_input tx) ≠ 1%nat)
          then Done (inl (DeclareError InvalidCoinbaseTxInput))
          else
            let missing_txs :=
              match pmts with
              | Some p => omap consensus_decode (transaction_list p)
              | None => []
              end in
            let previous :=
              match pmts with
              | Some _ => mjoin (SharedMap.with_ es downstream_id
                  (λ st, validation_context_for_request st (dmj_request_id dmj)))
              | None => None
              end in
            let es' := (SharedMap.with_mut_or_default es downstream_id downstream_default
                          (λ st, (tt, st))).2 in
            Done (inr ({| ef_downstream_id := downstream_id;
                          ef_allocated_token := allocated_token;
                          ef_declare_mining_job := dmj;
                          ef_is_retry := bool_decide (is_Some pmts);
                          ef_previous_context := previous;
                          ef_request :=
                            {| req_version := u32_as_i32 (dmj_version dmj);
                               req_coinbase_tx := tx;
                               req_wtxid_list := wtxid_list dmj;
                               req_missing_txs := missing_txs |} |}, es'))
      end
  end.

(** [previous_pending_validation_context.map(drifted).unwrap_or(false)]. *)
Definition tip_drifted (f : EngineInFlight) (current : ValidationContext) : bool :=
  match ef_previous_context f with
  | Some previous => validation_context_drifted previous current
  | None => false
  end.

(** Store a job in a downstream's state if the state still exists; the
    result of [with_mut] says whether it does. *)
Definition store_job (es : Engine) (now : N) (f : EngineInFlight) (job : DeclaredCustomJob)
    : option unit * Engine :=
  SharedMap.with_mut es (ef_downstream_id f) (λ st,
    (tt, insert_declared_custom_job st now (dmj_request_id (ef_declare_mining_job f))
           (ef_allocated_token f) job)).

Definition drop_job (es : Engine) (f : EngineInFlight) : Engine :=
  (SharedMap.with_mut es (ef_downstream_id f) (λ st,
    (tt, remove_declared_custom_job st (dmj_request_id (ef_declare_mining_job f))
           (ef_allocated_token f)))).2.

(** [handle_declare_mining_job] after the await; [None] is a closed channel
    to or from the IPC thread. *)
Definition engine_declare_finish (es : Engine) (now : N) (f : EngineInFlight)
    (response : option JdResponse) : DeclareMiningJobResult * Engine :=
  match response with
  | None => (DeclareError InternalError, es)
  | Some (JdSuccess prev bits txids) =>
      let job := {| declare_mining_job := ef_declare_mining_job f;
                    validation_context := {| prev_hash := prev; nbits := bits |};
                    txid_list := Some txids; validated := true |} in
      match store_job es now f job with
      | (None, es') => (DeclareError InternalError, es')
      | (Some _, es') => (DeclareSuccess, es')
      end
  | Some (JdError code ctx) =>
      (DeclareError (if tip_drifted f ctx then StaleChainTip else code), drop_job es f)
  | Some (JdMissingTransactions missing ctx) =>
      if ef_is_retry f && tip_drifted f ctx then
        (DeclareError StaleChainTip, drop_job es f)
      else
        let job := {| declare_mining_job := ef_declare_mining_job f;
                      validation_context := ctx; txid_list := None; validated := false |} in
        match store_job es now f job with
        | (None, es') => (DeclareError InternalError, es')
        | (Some _, es') => (DeclareMissingTransactions missing, es')
        end
  end.

(** [cleanup_downstream]. *)
Definition engine_cleanup (es : Engine) (downstream_id : N) : Engine :=
  (SharedMap.remove es downstream_id).2.

(** One wake-up of the engine's janitor: every downstream pruned. *)
Definition engine_janitor (iter : gmap N AllocatedTokenEntry → list (N * AllocatedTokenEntry))
    (es : Engine) (now : N) : Engine :=
  (λ st, (prune_expired_allocations iter st now
            (from_secs ALLOCATED_TOKEN_TIMEOUT_SECS)).1) <$> es.

(** The coinbase part of [handle_set_custom_mining_job]: [None] when every
    field matches. [input[0]] panics when there is no input. *)
Definition check_custom_coinbase (tx : Transaction) (msg : SetCustomMiningJob)
    : rust (option CustomErrorCode) :=
  if decide (tx_version tx ≠ u32_as_i32 (coinbase_tx_version msg))
  then Done (Some CustomInvalidCoinbaseTxVersion)
  else
    input ← expect (tx_input tx !! 0%nat);
    if negb (bool_decide (coinbase_prefix msg `prefix_of` script_sig input))
    then Done (Some CustomInvalidCoinbasePrefix)
    else if decide (sequence input ≠ coinbase_tx_input_n_sequence msg)
    then Done (Some CustomInvalidCoinbaseTxInputNSequence)
    else if decide (serialize_outputs (tx_output tx) ≠ coinbase_tx_outputs msg)
    then Done (Some CustomInvalidCoinbaseTxOutputs)
    else if decide (tx_lock_time tx ≠ coinbase_tx_locktime msg)
    then Done (Some CustomInvalidCoinbaseTxLocktime)
    else Done None.

(** The checks of [handle_set_custom_mining_job] on the job it took. *)
Definition check_custom_job (job : DeclaredCustomJob) (msg : SetCustomMiningJob)
    : rust SetCustomMiningJobResult :=
  if negb (validated job) then Done (CustomError CustomJobNotYetValidated)
  else if decide (scmj_prev_hash msg ≠ get_prev_hash job)
  then Done (CustomError CustomStaleChainTip)
  else if decide (scmj_nbits msg ≠ get_nbits job)
  then Done (CustomError CustomInvalidNbits)
  else if decide (scmj_version msg ≠ get_version job)
  then Done (CustomError CustomInvalidVersion)
  else
    coinbase ← get_coinbase_tx (declare_mining_job job);
    match coinbase with
    | Err _ => Done (CustomError CustomInvalidCoinbaseTx)
    | Ok tx =>
        failure ← check_custom_coinbase tx msg;
        match failure with
        | Some code => Done (CustomError code)
        | None =>
            path ← get_merkle_path job;
            match path with
            | Err _ => Done (CustomError CustomJobNotYetValidated)
            | Ok declared_path =>
                if decide (declared_path ≠ merkle_path msg)
                then Done (CustomError CustomInvalidMerklePath)
                else Done CustomSuccess
            end
        end
    end.

(** [handle_set_custom_mining_job]: the job is taken before it is checked. *)
Definition engine_set_custom (es : Engine) (downstream_id : N) (msg : SetCustomMiningJob)
    (allocated_token : N) : rust (SetCustomMiningJobResult * Engine) :=
  let '(taken, es') :=
    SharedMap.with_mut es downstream_id (λ st, take_declared_custom_job st allocated_token) in
  match mjoin taken with
  | None => Done (CustomError CustomInvalidMiningJobToken, es')
  | Some job =>
      verdict ← check_custom_job job msg;
      Done (verdict, es')
  end.

(** ** The engine as a transition system

    [flights] are the declarations waiting for the IPC thread. *)
Record EngineSystem : Type := { engine : Engine; flights : list EngineInFlight }.

Inductive engine_step : EngineSystem → EngineSystem → Prop :=
| es_answer s d dmj pmts r :
    engine_declare_begin (engine s) d dmj pmts = Done (inl r) →
    engine_step s s
| es_begin s d dmj pmts f es' :
    engine_declare_begin (engine s) d dmj pmts = Done (inr (f, es')) →
    engine_step s {| engine := es'; flights := f :: flights s |}
| es_finish s now f response fs :
    flights s ≡ₚ f :: fs →
    engine_step s {| engine := (engine_declare_finish (engine s) now f response).2;
                     flights := fs |}
| es_cleanup s d :
    engine_step s {| engine := engine_cleanup (engine s) d; flights := flights s |}
| es_janitor s iter now :
    engine_step s {| engine := engine_janitor iter (engine s) now; flights := flights s |}
| es_set_custom s d msg token r es' :
    engine_set_custom (engine s) d msg token = Done (r, es') →
    engine_step s {| engine := es'; flights := flights s |}.

Definition engine_reachable (s : EngineSystem) : Prop :=
  rtc engine_step {| engine := ∅; flights := [] |} s.

(** ** Invariant: a validated job has its txids and a coinbase that decodes
    to a transaction with one input. *)
Definition coinbase_ok (dmj : DeclareMiningJob) : Prop :=
  ∃ tx, get_coinbase_tx dmj = Done (Ok tx) ∧ length (tx_input tx) = 1%nat.

Definition job_ok (job : DeclaredCustomJob) : Prop :=
  validated job = true → is_Some (txid_list job) ∧ coinbase_ok (declare_mining_job job).

Definition jobs_ok (st : DownstreamState) : Prop :=
  map_Forall (λ _, job_ok) (declared_custom_jobs st).

Record system_ok (s : EngineSystem) : Prop := {
  so_jobs : map_Forall (λ _, jobs_ok) (engine s);
  so_flights : Forall (λ f, coinbase_ok (ef_declare_mining_job f)) (flights s);
}.

(** What a [SetCustomMiningJob] must agree with the declared job on. *)
Record custom_matches (job : DeclaredCustomJob) (msg : SetCustomMiningJob) : Prop := {
  cm_validated : validated job = true;
  cm_prev_hash : scmj_prev_hash msg = prev_hash (validation_context job);
  cm_nbits : scmj_nbits msg = nbits (validation_context job);
  cm_version : scmj_version msg = dmj_version (declare_mining_job job);
  cm_coinbase : ∃ tx input rest txids,
    get_coinbase_tx (declare_mining_job job) = Done (Ok tx) ∧
    tx_version tx = u32_as_i32 (coinbase_tx_version msg) ∧
    tx_input tx = input :: rest ∧
    coinbase_prefix msg `prefix_of` script_sig input ∧
    sequence input = coinbase_tx_input_n_sequence msg ∧
    serialize_outputs (tx_output tx) = coinbase_tx_outputs msg ∧
    tx_lock_time tx = coinbase_tx_locktime msg ∧
    txid_list job = Some txids ∧
    merkle_branch (compute_txid tx :: txids) = Done (Some (merkle_path msg));
}.

(** ** Lemmas *)

(** A step that keeps, removes or replaces jobs by good ones keeps [jobs_ok]. *)
Lemma jobs_ok_subseteq st st' :
  declared_custom_jobs st' ⊆ declared_custom_jobs st → jobs_ok st → jobs_ok st'.
Proof. intros Hs Hok rid job Hj. eapply Hok. by eapply lookup_weaken. Qed.

Lemma jobs_ok_insert st now rid token job :
  job_ok job → jobs_ok st → jobs_ok (insert_declared_custom_job st now rid token job).
Proof. intros. by apply map_Forall_insert_2. Qed.

Lemma jobs_ok_default : jobs_ok downstream_default.
Proof. apply map_Forall_empty. Qed.

Lemma remove_jobs_subseteq st rid token :
  declared_custom_jobs (remove_declared_custom_job st rid token) ⊆ declared_custom_jobs st.
Proof. apply delete_subseteq. Qed.

Lemma prune_loop_subseteq entries now timeout st expired :
  declared_custom_jobs (prune_loop entries now timeout st expired).1 ⊆ declared_custom_jobs st.
Proof.
  revert st expired. induction entries as [|[token entry] entries IH]; intros st expired;
    simpl; [done|]. case_match; [apply IH|]. etrans; [apply IH|apply delete_subseteq].
Qed.

Lemma take_jobs st token :
  declared_custom_jobs (take_declared_custom_job st token).2 ⊆ declared_custom_jobs st ∧
  ∀ job, (take_declared_custom_job st token).1 = Some job →
    ∃ rid, declared_custom_jobs st !! rid = Some job.
Proof.
  unfold take_declared_custom_job. destruct (allocated_token_entries st !! token) as [e|].
  - split; [apply delete_subseteq|]. simpl. eauto.
  - by split.
Qed.

#[local] Hint Resolve jobs_ok_default remove_jobs_subseteq : sv2.

(** [with_mut] with a closure that keeps [jobs_ok] keeps it for the engine. *)
Lemma with_mut_jobs_ok {R} (es : Engine) d (f : DownstreamState → R * DownstreamState) :
  (∀ st, jobs_ok st → jobs_ok (f st).2) →
  map_Forall (λ _, jobs_ok) es → map_Forall (λ _, jobs_ok) (SharedMap.with_mut es d f).2.
Proof.
  intros Hf Hok. unfold SharedMap.with_mut. destruct (es !! d) as [st|] eqn:E; [|done].
  specialize (Hf st (Hok _ _ E)). destruct (f st). by apply map_Forall_insert_2.
Qed.

Lemma begin_ok es d dmj pmts f es' :
  engine_declare_begin es d dmj pmts = Done (inr (f, es')) →
  ef_downstream_id f = d ∧ ef_declare_mining_job f = dmj ∧ coinbase_ok dmj ∧
  parse_token (mining_job_token dmj) = Some (ef_allocated_token f) ∧
  es' = <[d := default downstream_default (es !! d)]> es.
Proof.
  unfold engine_declare_begin. destruct (parse_token _) as [token|]; [|done].
  intros (coinbase & Hc & E)%rust_bind_done. destruct coinbase as [tx|]; [|done].
  case_decide as Hin; [done|]. simplify_eq/=. split_and!; try done. eexists; eauto.
Qed.

Lemma finish_jobs_ok es now f response :
  coinbase_ok (ef_declare_mining_job f) → map_Forall (λ _, jobs_ok) es →
  map_Forall (λ _, jobs_ok) (engine_declare_finish es now f response).2.
Proof.
  intros Hf Hok. unfold engine_declare_finish, drop_job, store_job.
  destruct response as [[prev bits txids|code ctx|missing ctx]|]; [| | |done].
  - match goal with |- context [SharedMap.with_mut es ?d ?g] =>
      pose proof (with_mut_jobs_ok es d g) as Hw; destruct (SharedMap.with_mut es d g) as [[]?] end.
    all: apply Hw; [|done]; intros; apply jobs_ok_insert; [|done]; intros _; split; eauto.
  - apply with_mut_jobs_ok; [|done]. intros st. apply jobs_ok_subseteq, remove_jobs_subseteq.
  - case_match.
    + apply with_mut_jobs_ok; [|done]. intros st. apply jobs_ok_subseteq, remove_jobs_subseteq.
    + match goal with |- context [SharedMap.with_mut es ?d ?g] =>
      pose proof (with_mut_jobs_ok es d g) as Hw; destruct (SharedMap.with_mut es d g) as [[]?] end.
      all: apply Hw; [|done]; intros; by apply jobs_ok_insert.
Qed.

Lemma engine_set_custom_state es d msg token r es' :
  engine_set_custom es d msg token = Done (r, es') →
  es' = (SharedMap.with_mut es d (λ st, take_declared_custom_job st token)).2.
Proof.
  unfold engine_set_custom. destruct (SharedMap.with_mut _ _ _) as [taken es1]. simpl.
  destruct (mjoin taken); [|naive_solver]. intros (v & _ & E)%rust_bind_done. naive_solver.
Qed.

Lemma engine_step_ok s s' : engine_step s s' → system_ok s → system_ok s'.
Proof.
  intros Hs [Hj Hf]. destruct Hs as [|s d dmj pmts f es' Hb|s now f response fs Hp|s d|
    s iter now|s d msg token r es' Hc]; split; simpl in *; try done.
  - apply begin_ok in Hb as (_ & _ & _ & _ & ->). apply map_Forall_insert_2; [|done].
    destruct (engine s !! d) as [st|] eqn:E; [by eapply Hj|apply jobs_ok_default].
  - apply begin_ok in Hb as (_ & <- & ? & _). by constructor.
  - rewrite Hp in Hf. inv Hf. by apply finish_jobs_ok.
  - rewrite Hp in Hf. by inv Hf.
  - by apply map_Forall_delete.
  - apply map_Forall_fmap. eapply map_Forall_impl; [done|]. intros ? st.
    apply jobs_ok_subseteq, prune_loop_subseteq.
  - apply engine_set_custom_state in Hc as ->. apply with_mut_jobs_ok; [|done].
    intros st. apply jobs_ok_subseteq, take_jobs.
Qed.

Lemma engine_reachable_ok s : engine_reachable s → system_ok s.
Proof.
  intros Hr. refine (rtc_ind_r system_ok _ _ _ s Hr).
  - split; [apply map_Forall_empty|constructor].
  - intros. by eapply engine_step_ok.
Qed.

(** A branch always exists, and leads from the coinbase to the root. *)
Lemma merkle_branch_done cb txids :
  ∃ branch, merkle_branch (cb :: txids) = Done (Some branch) ∧
    merkle_root (cb :: txids) = Some (root_from_branch cb branch).
Proof.
  exists (branch_spec (S (length txids)) (cb :: txids)). split.
  - unfold merkle_branch. by rewrite branch_loop_spec.
  - apply branch_spec_root. lia.
Qed.

Lemma check_custom_job_done job msg : job_ok job → is_done (check_custom_job job msg).
Proof.
  intros Hok. unfold check_custom_job. destruct (validated job) eqn:Ev; [|by eexists]. simpl.
  repeat (case_decide; [by eexists|]).
  destruct (Hok Ev) as [[txids Htx] (tx & Htx' & Hlen)]. unfold get_merkle_path.
  rewrite Ev, Htx, Htx'. simpl. destruct (merkle_branch_done (compute_txid tx) txids) as (br & -> & _).
  unfold check_custom_coinbase. destruct (tx_input tx) as [|input [|]]; try done.
  simpl. repeat (case_match || case_decide); simplify_eq/=; by eexists.
Qed.

Lemma check_custom_coinbase_ok tx msg :
  check_custom_coinbase tx msg = Done None ↔
  tx_version tx = u32_as_i32 (coinbase_tx_version msg) ∧
  ∃ input rest, tx_input tx = input :: rest ∧
    coinbase_prefix msg `prefix_of` script_sig input ∧
    sequence input = coinbase_tx_input_n_sequence msg ∧
    serialize_outputs (tx_output tx) = coinbase_tx_outputs msg ∧
    tx_lock_time tx = coinbase_tx_locktime msg.
Proof.
  unfold check_custom_coinbase. destruct (tx_input tx) as [|input rest]; simpl.
  { case_decide; naive_solver. }
  case_decide; [naive_solver|]. case_bool_decide; simpl; [|naive_solver].
  repeat case_decide; naive_solver.
Qed.

Lemma check_custom_job_success job msg :
  check_custom_job job msg = Done CustomSuccess ↔ custom_matches job msg.
Proof.
  unfold check_custom_job, get_merkle_path. split.
  - destruct (validated job) eqn:Ev; [|done]. simpl.
    case_decide as Hp; [done|]. case_decide as Hb; [done|]. case_decide as Hv; [done|].
    intros (coinbase & Hc & E)%rust_bind_done. destruct coinbase as [tx|]; [|done].
    apply rust_bind_done in E as ([code|] & Hcc & E); [done|].
    apply check_custom_coinbase_ok in Hcc as (? & input & rest & ? & ? & ? & ? & ?).
    destruct (txid_list job) as [txids|] eqn:Et; [|done]. rewrite Hc in E. simpl in E.
    destruct (merkle_branch_done (compute_txid tx) txids) as (br & Hbr & _).
    rewrite Hbr in E. simpl in E. case_decide as Hm; [done|].
    split; [done..|]. exists tx, input, rest, txids. split_and!; try done. by rewrite Hbr, Hm.
  - intros [Hval Hp Hb Hv (tx & input & rest & txids & Hc & ? & ? & ? & ? & ? & ? & Ht & Hbr)].
    rewrite Hval. simpl. unfold get_prev_hash, get_nbits, get_version.
    rewrite !decide_False by (by rewrite ?Hp, ?Hb, ?Hv; intros []).
    rewrite Hc. simpl.
    rewrite (proj2 (check_custom_coinbase_ok tx msg)) by naive_solver. simpl.
    rewrite Ht. simpl. rewrite Hbr. simpl. by rewrite decide_False by (by intros []).
Qed.

Lemma engine_set_custom_taken es d msg token :
  engine_set_custom es d msg token =
  match mjoin (SharedMap.with_mut es d (λ st, take_declared_custom_job st token)).1 with
  | None => Done (CustomError CustomInvalidMiningJobToken,
                  (SharedMap.with_mut es d (λ st, take_declared_custom_job st token)).2)
  | Some job => check_custom_job job msg ≫= λ verdict,
      Done (verdict, (SharedMap.with_mut es d (λ st, take_declared_custom_job st token)).2)
  end.
Proof. unfold engine_set_custom. by destruct (SharedMap.with_mut _ _ _). Qed.

(** The job [engine_set_custom] works on. *)
Definition job_of_token (es : Engine) (d token : N) : option DeclaredCustomJob :=
  st ← es !! d; entry ← allocated_token_entries st !! token;
  declared_custom_jobs st !! entry_request_id entry.

Lemma taken_job es d token :
  mjoin (SharedMap.with_mut es d (λ st, take_declared_custom_job st token)).1 =
  job_of_token es d token.
Proof.
  unfold SharedMap.with_mut, job_of_token, take_declared_custom_job.
  destruct (es !! d) as [st|]; [|done]. simpl.
  by destruct (allocated_token_entries st !! token).
Qed.

Lemma engine_set_custom_done es d msg token :
  map_Forall (λ _, jobs_ok) es → is_done (engine_set_custom es d msg token).
Proof.
  intros Hj. rewrite engine_set_custom_taken, taken_job.
  unfold job_of_token. destruct (es !! d) as [st|] eqn:Est; [|by eexists]. simpl.
  destruct (allocated_token_entries st !! token) as [e|]; [|by eexists]. simpl.
  destruct (declared_custom_jobs st !! entry_request_id e) as [job|] eqn:Ej; [|by eexists].
  destruct (check_custom_job_done job msg) as [v ->]; [by eapply (Hj _ _ Est)|by eexists].
Qed.

(** [handle_set_custom_mining_job] accepts exactly the messages that agree
    with a validated job stored for this downstream under this token on the
    previous block, difficulty, version, every coinbase field and the merkle
    path. *)
Lemma engine_accepts_iff es d msg token :
  (∃ es', engine_set_custom es d msg token = Done (CustomSuccess, es')) ↔
  (∃ job, job_of_token es d token = Some job ∧ custom_matches job msg).
Proof.
  rewrite engine_set_custom_taken, taken_job. split.
  - intros [es' E]. destruct (job_of_token es d token) as [job|]; [|done].
    apply rust_bind_done in E as (v & Hv & [= -> _]). exists job. split; [done|].
    by apply check_custom_job_success.
  - intros (job & -> & Hm). apply check_custom_job_success in Hm as ->. by eexists.
Qed.

(** What pruning keeps: by induction, an entry survives unless it is one of
    the expired entries visited, a job unless an expired entry names it. *)
Definition expired_entry (now timeout : N) (entry : AllocatedTokenEntry) : Prop :=
  timeout < saturating_sub now (inserted_at entry).

Lemma prune_loop_spec entries now timeout st acc :
  let st' := (prune_loop entries now timeout st acc).1 in
  (∀ token e, allocated_token_entries st' !! token = Some e ↔
     allocated_token_entries st !! token = Some e ∧
     ∀ e', (token, e') ∈ entries → ¬ expired_entry now timeout e') ∧
  (∀ rid job, declared_custom_jobs st' !! rid = Some job ↔
     declared_custom_jobs st !! rid = Some job ∧
     ∀ token e', (token, e') ∈ entries → entry_request_id e' = rid →
       ¬ expired_entry now timeout e').
Proof.
  revert st acc. induction entries as [|[token entry] entries IH]; intros st acc; simpl.
  { split; intros; split; try naive_solver; intros Hl; split; try done; intros; set_solver. }
  unfold expired_entry in *. case_match eqn:E.
  - apply N.leb_le in E. destruct (IH st acc) as [IH1 IH2].
    split; intros; rewrite ?IH1, ?IH2; setoid_rewrite elem_of_cons;
      split; intros [? Hn]; split; try done; intros; destruct_or?; simplify_eq/=; try lia; naive_solver.
  - apply N.leb_gt in E.
    destruct (IH (remove_declared_custom_job st (entry_request_id entry) token)
                 (acc ++ [(token, entry_request_id entry)])) as [IH1 IH2].
    split; intros; rewrite ?IH1, ?IH2; setoid_rewrite elem_of_cons; simpl;
      rewrite lookup_delete_Some; split.
    + intros [[? ?] Hn]. split; [done|]. intros ? [|]; simplify_eq/=; naive_solver.
    + intros [? Hn]. split_and!; [|done|naive_solver]. intros ->. by apply (Hn entry); [left|].
    + intros [[? ?] Hn]. split; [done|]. intros ?? [|]; simplify_eq/=; naive_solver.
    + intros [? Hn]. split_and!; [|done|naive_solver]. intros <-. by apply (Hn token entry); [left| |].
Qed.

(** A visit order of the hash map. *)
Definition visits_all (iter : gmap N AllocatedTokenEntry → list (N * AllocatedTokenEntry)) : Prop :=
  ∀ m, iter m ≡ₚ map_to_list m.

Lemma prune_spec iter st now timeout :
  visits_all iter →
  let st' := (prune_expired_allocations iter st now timeout).1 in
  (∀ token e, allocated_token_entries st' !! token = Some e ↔
     allocated_token_entries st !! token = Some e ∧ ¬ expired_entry now timeout e) ∧
  (∀ rid job, declared_custom_jobs st' !! rid = Some job ↔
     declared_custom_jobs st !! rid = Some job ∧
     ∀ token e, allocated_token_entries st !! token = Some e → entry_request_id e = rid →
       ¬ expired_entry now timeout e).
Proof.
  intros Hit. destruct (prune_loop_spec (iter (allocated_token_entries st)) now timeout st [])
    as [H1 H2]. unfold prune_expired_allocations. simpl in *.
  assert (Hin : ∀ token e, (token, e) ∈ iter (allocated_token_entries st) ↔
    allocated_token_entries st !! token = Some e).
  { intros. unfold visits_all in Hit. by rewrite Hit, elem_of_map_to_list. }
  setoid_rewrite Hin in H1. setoid_rewrite Hin in H2.
  split; [|done]. intros token e. rewrite H1. split; intros [? Hn]; split; try done; naive_solver.
Qed.

(** The entry of a token is gone after it was taken, and only the end of a
    declaration under that token brings it back. *)
Definition entry_free (d token : N) (es : Engine) : Prop :=
  ∀ st, es !! d = Some st → allocated_token_entries st !! token = None.

(** Steps that do not finish a declaration of downstream [d] under [token]. *)
Definition quiet_step (d token : N) (s s' : EngineSystem) : Prop :=
  engine_step s s' ∧
  ∀ f, flights s ≡ₚ f :: flights s' → ¬ (ef_downstream_id f = d ∧ ef_allocated_token f = token).

Lemma entry_free_with_mut {R} es d token d' (g : DownstreamState → R * DownstreamState) :
  (∀ st, d' = d → allocated_token_entries st !! token = None →
     allocated_token_entries (g st).2 !! token = None) →
  entry_free d token es → entry_free d token (SharedMap.with_mut es d' g).2.
Proof.
  intros Hg Hf st. unfold SharedMap.with_mut. destruct (es !! d') as [st'|] eqn:E; [|apply Hf].
  specialize (Hg st'). destruct (g st') as [r st'']. simpl in *.
  destruct (decide (d' = d)) as [->|].
  - rewrite lookup_insert_eq. intros [= <-]. auto.
  - rewrite lookup_insert_ne by done. apply Hf.
Qed.

Lemma take_entries st token token' :
  allocated_token_entries st !! token = None →
  allocated_token_entries (take_declared_custom_job st token').2 !! token = None.
Proof.
  unfold take_declared_custom_job. destruct (_ !! token'); [|done].
  intros. by apply lookup_delete_None; right.
Qed.

Lemma entry_free_finish d token es now f response :
  ¬ (ef_downstream_id f = d ∧ ef_allocated_token f = token) →
  entry_free d token es → entry_free d token (engine_declare_finish es now f response).2.
Proof.
  intros Hne Hf. unfold engine_declare_finish.
  assert (∀ job, entry_free d token (store_job es now f job).2) as Hstore.
  { intros job. apply entry_free_with_mut; [|done]. intros st ? ?. simpl.
    rewrite lookup_insert_ne; [done|naive_solver]. }
  assert (entry_free d token (drop_job es f)) as Hdrop.
  { apply entry_free_with_mut; [|done]. intros st ? ?. by apply lookup_delete_None; right. }
  destruct response as [[? ? ?|? ?|? ?]|]; [| |case_match|]; try done.
  all: match goal with |- context [store_job ?a ?b ?c ?j] =>
         specialize (Hstore j); destruct (store_job a b c j) as [[]?] end; done.
Qed.

Lemma entry_free_quiet d token s s' :
  quiet_step d token s s' → entry_free d token (engine s) → entry_free d token (engine s').
Proof.
  intros [Hs Hq] Hf. destruct Hs as [|s d' dmj pmts f es' Hb|s now f response fs Hp|s d'|
    s iter now|s d' msg token' r es' Hc]; simpl in *; try done.
  - apply begin_ok in Hb as (_ & _ & _ & _ & ->). intros st.
    destruct (decide (d' = d)) as [->|]; [|rewrite lookup_insert_ne by done; apply Hf].
    rewrite lookup_insert_eq. intros [= <-]. destruct (engine s !! d) eqn:E; [by apply Hf|done].
  - apply entry_free_finish; auto.
  - intros st. unfold engine_cleanup, SharedMap.remove. simpl. intros Hst. apply (Hf st).
    by apply lookup_delete_Some in Hst as [].
  - intros st. unfold engine_janitor. rewrite lookup_fmap_Some. intros (st0 & <- & Hst).
    destruct (prune_loop_spec (iter (allocated_token_entries st0)) now
      (from_secs ALLOCATED_TOKEN_TIMEOUT_SECS) st0 []) as [Hp _].
    apply eq_None_not_Some. intros [e He]. apply Hp in He as [He _]. by rewrite (Hf _ Hst) in He.
  - apply engine_set_custom_state in Hc as ->. apply entry_free_with_mut; [|done].
    intros. by apply take_entries.
Qed.

Lemma entry_free_taken es d token :
  entry_free d token (SharedMap.with_mut es d (λ st, take_declared_custom_job st token)).2.
Proof.
  intros st. unfold SharedMap.with_mut, take_declared_custom_job.
  destruct (es !! d) as [st'|] eqn:E; simpl; [|by rewrite E].
  destruct (allocated_token_entries st' !! token) eqn:Et; simpl;
    rewrite lookup_insert_eq; intros [= <-]; [apply lookup_delete_eq|done].
Qed.

Lemma entry_free_job es d token : entry_free d token es → job_of_token es d token = None.
Proof.
  intros Hf. unfold job_of_token. destruct (es !! d) as [st|] eqn:E; [|done]. simpl.
  by rewrite (Hf st E).
Qed.
End engine.

(** ** Properties *)
Section properties.
Context `{BitcoinApi}.

(** With the coinbase and job invariant of reachable engine states,
    [handle_set_custom_mining_job] never panics: the coinbase of a validated
    job decodes again, it has its input 0, and its merkle path exists. *)
Theorem set_custom_never_panics s d msg token :
  engine_reachable s → is_done (engine_set_custom (engine s) d msg token).
Proof.
  intros [Hj _]%engine_reachable_ok. by apply engine_set_custom_done.
Qed.

(** C38: an accepted custom job commits, through its merkle path, to exactly
    the transactions of the declaration: folding the path onto the declared
    coinbase's txid gives the merkle root of coinbase and declared txids. *)
Theorem accepted_job_commits es d msg token es' :
  engine_set_custom es d msg token = Done (CustomSuccess, es') →
  ∃ job tx txids, job_of_token es d token = Some job ∧
    get_coinbase_tx (declare_mining_job job) = Done (Ok tx) ∧ txid_list job = Some txids ∧
    merkle_root (compute_txid tx :: txids) =
      Some (root_from_branch (compute_txid tx) (merkle_path msg)).
Proof.
  rewrite engine_set_custom_taken, taken_job. destruct (job_of_token es d token) as [job|]; [|done].
  intros (v & Hv & [= -> _])%rust_bind_done.
  apply check_custom_job_success in Hv as [_ _ _ _ (tx & input & rest & txids & Hc)].
  destruct Hc as (Htx & _ & _ & _ & _ & _ & _ & Ht & Hb).
  destruct (merkle_branch_done (compute_txid tx) txids) as (branch & Hb' & Hroot).
  exists job, tx, txids. split_and!; [done..|]. congruence.
Qed.

(** A declared job is used at most once: after any
    [handle_set_custom_mining_job] for a token, accepted or not, and any further
    steps of the engine that do not finish another declaration of the
    downstream under that token, the token is refused. *)
Theorem set_custom_one_shot s d msg token r es' s' msg' :
  engine_set_custom (engine s) d msg token = Done (r, es') →
  rtc (quiet_step d token) {| engine := es'; flights := flights s |} s' →
  ∃ es'', engine_set_custom (engine s') d msg' token =
    Done (CustomError CustomInvalidMiningJobToken, es'').
Proof.
  intros ->%engine_set_custom_state Hrun.
  assert (entry_free d token (engine s')) as Hfree.
  { refine (rtc_ind_r (λ x, entry_free d token (engine x)) _ _ _ s' Hrun).
    - apply entry_free_taken.
    - intros x y _ Hxy. by apply entry_free_quiet. }
  rewrite engine_set_custom_taken, taken_job, entry_free_job by done. by eexists.
Qed.

(** A declaration whose downstream was cleaned up while the node was
    validating leaves no state behind, and is answered with an error. *)
Theorem cleanup_not_undone es now f response :
  ∃ code, engine_declare_finish (engine_cleanup es (ef_downstream_id f)) now f response =
    (DeclareError code, engine_cleanup es (ef_downstream_id f)).
Proof.
  unfold engine_declare_finish, store_job, drop_job, SharedMap.with_mut.
  assert (engine_cleanup es (ef_downstream_id f) !! ef_downstream_id f = None) as ->
    by apply lookup_delete_eq.
  destruct response as [[]|]; [| |case_match|]; by eexists.
Qed.

(** A retry whose chain tip moved since the first attempt, and which the
    node did not validate, is answered stale-chain-tip, and its job can no
    longer be set. *)
Theorem stale_retry_rejected es now f response prev ctx :
  ef_is_retry f = true → ef_previous_context f = Some prev →
  prev_hash prev ≠ prev_hash ctx →
  (∃ code, response = JdError code ctx) ∨ (∃ missing, response = JdMissingTransactions missing ctx) →
  ∃ es', engine_declare_finish es now f (Some response) = (DeclareError StaleChainTip, es') ∧
    job_of_token es' (ef_downstream_id f) (ef_allocated_token f) = None.
Proof.
  intros Hr Hp Hne Hresp.
  assert (tip_drifted f ctx = true) as Hd.
  { unfold tip_drifted. rewrite Hp. by apply bool_decide_eq_true. }
  exists (drop_job es f). split.
  - unfold engine_declare_finish. destruct Hresp as [[code ->]|[missing ->]]; by rewrite ?Hr, Hd.
  - apply entry_free_job. intros st. unfold drop_job, SharedMap.with_mut.
    destruct (es !! ef_downstream_id f) as [st'|] eqn:E; simpl; [|by rewrite E].
    rewrite lookup_insert_eq. intros [= <-]. apply lookup_delete_eq.
Qed.

(** Whatever order the hash map visits its entries in, the janitor removes
    exactly the token entries older than the timeout and the jobs they name. *)
Theorem prune_expired_exact iter st now timeout :
  visits_all iter →
  let st' := (prune_expired_allocations iter st now timeout).1 in
  (∀ token e, allocated_token_entries st' !! token = Some e ↔
     allocated_token_entries st !! token = Some e ∧
     saturating_sub now (inserted_at e) <= timeout) ∧
  (∀ rid job, declared_custom_jobs st' !! rid = Some job ↔
     declared_custom_jobs st !! rid = Some job ∧
     ∀ token e, allocated_token_entries st !! token = Some e → entry_request_id e = rid →
       saturating_sub now (inserted_at e) <= timeout).
Proof.
  intros Hit. destruct (prune_spec iter st now timeout Hit) as [H1 H2].
  unfold expired_entry in *. simpl in *. split; intros; rewrite ?H1, ?H2.
  - by rewrite N.nlt_ge.
  - setoid_rewrite N.nlt_ge. done.
Qed.

(** Exactly when [get_coinbase_tx] panics, the connection's handler with
    it: the prefix is shorter than the 43 bytes before the script, or holds
    more script bytes than the script length in it declares, or the declared
    length asks for more than [isize::MAX] zero bytes. *)
Theorem get_coinbase_tx_panics_iff `{!VarIntLaws _} dmj :
  let prefix := coinbase_tx_prefix dmj in
  get_coinbase_tx dmj = Panic ↔
  (length prefix < 43)%nat ∨
  ∃ size, varint_decode (drop 43 prefix) = Some size ∧
    let in_prefix := N.of_nat (length prefix) - (43 + varint_size size) in
    (size < in_prefix ∨ isize_max + in_prefix < size).
Proof.
  intros prefix. unfold get_coinbase_tx, COINBASE_PREFIX_LEN. fold prefix.
  case_decide as Hlen; [naive_solver|].
  destruct (varint_decode (drop 43 prefix)) as [size|] eqn:Ev; [|naive_solver].
  pose proof (law_varint _ _ Ev) as Hv. rewrite length_drop in Hv.
  cbv zeta. change (N.of_nat 43) with 43.
  destruct (N.ltb_spec (N.of_nat (length prefix)) (43 + varint_size size)); [lia|].
  destruct (N.ltb_spec size (N.of_nat (length prefix) - (43 + varint_size size))).
  { split; [|done]. intros _. right. exists size. split; [done|by left]. }
  destruct (N.ltb_spec isize_max
    (size - (N.of_nat (length prefix) - (43 + varint_size size)))) as [Hi|Hi].
  { split; [|done]. intros _. right. exists size. split; [done|]. right. lia. }
  split; [by case_match|]. intros [?|(size' & [= <-] & [?|?])]; lia.
Qed.
End properties.

Module EngineExamples.
#[local] Existing Instance bytes_api.
#[local] Existing Instance bytes_varint.

(** A declaration with a 5-byte script, two bytes of it in the prefix. *)
Definition demo_dmj (request_id : N) : DeclareMiningJob :=
  {| dmj_request_id := request_id; mining_job_token := print_token 9; dmj_version := 2;
     coinbase_tx_prefix := replicate 43 x00 ++ [x05; x01; x02];
     coinbase_tx_suffix := [xff]; wtxid_list := [100; 200] |}.

Definition demo_coinbase : list byte :=
  replicate 43 x00 ++ [x05; x01; x02] ++ replicate 3 x00 ++ [xff].

Definition demo_flight (request_id : N) (retry : bool) (prev : option ValidationContext)
    : EngineInFlight :=
  {| ef_downstream_id := 1; ef_allocated_token := 9; ef_declare_mining_job := demo_dmj request_id;
     ef_is_retry := retry; ef_previous_context := prev;
     ef_request := {| req_version := 2; req_coinbase_tx := demo_coinbase;
                      req_wtxid_list := [100; 200]; req_missing_txs := [] |} |}.

Definition demo_job (request_id : N) : DeclaredCustomJob :=
  {| declare_mining_job := demo_dmj request_id;
     validation_context := {| prev_hash := 7; nbits := 1 |};
     txid_list := Some [1100; 1200]; validated := true |}.

Definition demo_engine : Engine :=
  {[1 := insert_declared_custom_job downstream_default 0 5 9 (demo_job 5)]}.

Definition demo_system : EngineSystem := {| engine := demo_engine; flights := [] |}.

(** The matching message: the merkle path is the first txid, then the pair of
    the second with itself. *)
Definition demo_msg : SetCustomMiningJob :=
  {| scmj_channel_id := 0; scmj_request_id := 1; scmj_token := print_token 10;
     scmj_version := 2; scmj_prev_hash := 7; scmj_ntime_start := 0; scmj_nbits := 1; coinbase_tx_version := 2;
     coinbase_prefix := [x01; x02]; coinbase_tx_input_n_sequence := 7;
     coinbase_tx_outputs := [x00]; coinbase_tx_locktime := 0;
     merkle_path := [1100; 32 * 1200] |}.

Definition taken_engine : Engine := {[1 := downstream_default]}.

Lemma engine_demo_reachable : engine_reachable demo_system.
Proof.
  eapply rtc_l.
  { apply (es_begin _ 1 (demo_dmj 5) None (demo_flight 5 false None)
      {[1 := downstream_default]}). by vm_compute. }
  apply rtc_once.
  replace demo_system with
    {| engine := (engine_declare_finish {[1 := downstream_default]} 0 (demo_flight 5 false None)
                    (Some (JdSuccess 7 1 [1100; 1200]))).2; flights := [] |} by by vm_compute.
  exact (es_finish {| engine := {[1 := downstream_default]};
                      flights := [demo_flight 5 false None] |} 0 (demo_flight 5 false None)
           (Some (JdSuccess 7 1 [1100; 1200])) [] (reflexivity _)).
Qed.

Lemma set_custom_never_panics_witness :
  engine_reachable demo_system ∧ is_done (engine_set_custom demo_engine 1 demo_msg 9).
Proof.
  split; [exact engine_demo_reachable|].
  exact (set_custom_never_panics demo_system 1 demo_msg 9 engine_demo_reachable).
Defined.

Lemma accepted_job_commits_witness :
  engine_set_custom demo_engine 1 demo_msg 9 = Done (CustomSuccess, taken_engine) ∧
  ∃ job tx txids, job_of_token demo_engine 1 9 = Some job ∧
    get_coinbase_tx (declare_mining_job job) = Done (Ok tx) ∧ txid_list job = Some txids ∧
    merkle_root (compute_txid tx :: txids) =
      Some (root_from_branch (compute_txid tx) (merkle_path demo_msg)).
Proof.
  split; [by vm_compute|].
  apply (accepted_job_commits demo_engine 1 demo_msg 9 taken_engine). by vm_compute.
Defined.

Lemma set_custom_one_shot_witness :
  ∃ es'', engine_set_custom taken_engine 1 demo_msg 9 =
    Done (CustomError CustomInvalidMiningJobToken, es'').
Proof.
  apply (set_custom_one_shot demo_system 1 demo_msg 9 CustomSuccess taken_engine
    {| engine := taken_engine; flights := [] |} demo_msg); [by vm_compute|done].
Defined.

Lemma stale_retry_rejected_witness :
  ∃ es', engine_declare_finish demo_engine 3
      (demo_flight 5 true (Some {| prev_hash := 7; nbits := 1 |}))
      (Some (JdMissingTransactions [200] {| prev_hash := 8; nbits := 1 |})) =
    (DeclareError StaleChainTip, es') ∧ job_of_token es' 1 9 = None.
Proof.
  apply (stale_retry_rejected demo_engine 3
    (demo_flight 5 true (Some {| prev_hash := 7; nbits := 1 |}))
    (JdMissingTransactions [200] {| prev_hash := 8; nbits := 1 |})
    {| prev_hash := 7; nbits := 1 |} {| prev_hash := 8; nbits := 1 |});
    [done|done|done|by right; eexists].
Defined.

Lemma prune_expired_exact_witness :
  declared_custom_jobs (prune_expired_allocations map_to_list
    (insert_declared_custom_job downstream_default 0 5 9 (demo_job 5)) 11 10).1 !! 5 = None.
Proof.
  apply eq_None_not_Some. intros [job Hj].
  destruct (prune_expired_exact map_to_list
    (insert_declared_custom_job downstream_default 0 5 9 (demo_job 5)) 11 10 (λ m, reflexivity _))
    as [_ Hp].
  apply Hp in Hj as [_ Hj]. specialize (Hj 9 {| entry_request_id := 5; inserted_at := 0 |}).
  by vm_compute in Hj; specialize (Hj eq_refl eq_refl).
Defined.

Lemma get_coinbase_tx_panics_iff_witness :
  get_coinbase_tx {| dmj_request_id := 1; mining_job_token := print_token 9; dmj_version := 2;
     coinbase_tx_prefix := [x01; x00]; coinbase_tx_suffix := []; wtxid_list := [] |} = Panic.
Proof.
  apply (get_coinbase_tx_panics_iff (VarIntLaws0 := bytes_varint)). left. by vm_compute; lia.
Defined.

(** Two declarations under one token with different request ids, both waiting
    for missing transactions. *)
Definition pending_job (request_id : N) : DeclaredCustomJob :=
  {| declare_mining_job := demo_dmj request_id;
     validation_context := {| prev_hash := 7; nbits := 1 |};
     txid_list := None; validated := false |}.

Definition orphan_state : DownstreamState :=
  insert_declared_custom_job
    (insert_declared_custom_job downstream_default 0 5 9 (pending_job 5)) 1 6 9 (pending_job 6).

Definition orphan_engine : Engine := {[1 := orphan_state]}.

Lemma orphan_reachable : engine_reachable {| engine := orphan_engine; flights := [] |}.
Proof.
  set (missing := Some (JdMissingTransactions [200] {| prev_hash := 7; nbits := 1 |})).
  set (e1 := (engine_declare_finish {[1 := downstream_default]} 0 (demo_flight 5 false None)
    missing).2).
  eapply rtc_l.
  { apply (es_begin _ 1 (demo_dmj 5) None (demo_flight 5 false None)
      {[1 := downstream_default]}). by vm_compute. }
  eapply rtc_l.
  { exact (es_finish {| engine := {[1 := downstream_default]};
      flights := [demo_flight 5 false None] |} 0 (demo_flight 5 false None) missing [] (reflexivity _)). }
  eapply rtc_l.
  { apply (es_begin _ 1 (demo_dmj 6) None (demo_flight 6 false None) e1). by vm_compute. }
  apply rtc_once.
  replace orphan_engine with (engine_declare_finish e1 1 (demo_flight 6 false None) missing).2
    by by vm_compute.
  exact (es_finish {| engine := e1; flights := [demo_flight 6 false None] |} 1
    (demo_flight 6 false None) missing [] (reflexivity _)).
Qed.

(** Declaring twice under one token with different request ids orphans the
    first job: no token leads to it any more, and no wake-up of the janitor,
    at any time, removes it. *)
Theorem orphaned_job_never_pruned :
  engine_reachable {| engine := orphan_engine; flights := [] |} ∧
  (∀ token, job_of_token orphan_engine 1 token ≠ Some (pending_job 5)) ∧
  ∀ iter now, visits_all iter →
    (declared_custom_jobs <$> engine_janitor iter orphan_engine now !! 1)
      ≫= lookup 5 = Some (pending_job 5).
Proof.
  split; [exact orphan_reachable|]. split.
  - intros token. unfold job_of_token, orphan_engine. rewrite lookup_singleton_eq. simpl.
    destruct (decide (token = 9)) as [->|]; [by vm_compute|].
    by rewrite !lookup_insert_ne, lookup_empty by done.
  - intros iter now Hit. unfold engine_janitor, orphan_engine.
    rewrite map_fmap_singleton, lookup_singleton_eq. simpl.
    apply (proj2 (prune_spec iter orphan_state now _ Hit)). split; [by vm_compute|].
    intros token e. simpl. destruct (decide (token = 9)) as [->|].
    + rewrite lookup_insert_eq. intros [= <-]. done.
    + by rewrite !lookup_insert_ne, lookup_empty by done.
Qed.
End EngineExamples.
