(* ===== verification/ValidationEngine.v ===== *)
(** * The [JobValidationEngine] trait
    ([pool-apps/jd-server/src/lib/job_declarator/job_validation/mod.rs])

    The interface between the job declarator and its validation backend.
    [JobValidationEngine] has the trait's methods, [EngineLaws] what the
    declarator relies on, and the Bitcoin Core engine is an instance of both.
    [handle_declare_mining_job] awaits inside, so it is a pair of methods: up
    to the await and from the answer on. *)
From S2P Require Import Prelude SharedMap Bitcoin TokenManager MempoolMirror JdpHandlers Merkle JobValidation.

(** [PushSolution]. *)
Record PushSolution : Type := {
  ps_extranonce : list byte; ps_prev_hash : N; ps_nonce : N; ps_ntime : N; ps_nbits : N;
  ps_version : N;
}.

Class JobValidationEngine : Type := {
  VState : Type;
  VFlight : Type;
  VAnswer : Type;
  v_init : VState;
  v_declare_begin : VState → N → DeclareMiningJob → option ProvideMissingTransactionsSuccess →
    rust (DeclareMiningJobResult + VFlight * VState);
  v_declare_finish : VState → N → VFlight → VAnswer → DeclareMiningJobResult * VState;
  v_push_solution : VState → N → PushSolution → VState;
  v_set_custom : VState → N → SetCustomMiningJob → N → rust (SetCustomMiningJobResult * VState);
  v_cleanup : VState → N → VState;
  v_shutdown : VState → VState;
  (** What the engine does on its own (its janitor). *)
  v_background : VState → VState → Prop;
}.

(** What a backend promises.  [v_view σ d] is what it stores for a
    downstream, [None] for nothing; [v_malformed] are the declarations on
    which the backend panics, whatever its state. *)
Class EngineLaws (E : JobValidationEngine) : Type := {
  VView : Type;
  v_view : VState → N → option VView;
  v_inv : VState → Prop;
  v_flight_ok : VFlight → Prop;
  v_flight_owner : VFlight → N;
  v_malformed : DeclareMiningJob → Prop;
  law_init : v_inv v_init ∧ ∀ d, v_view v_init d = None;
  law_begin_panic σ d dmj pmts :
    v_declare_begin σ d dmj pmts = Panic ↔ v_malformed dmj;
  law_begin σ d dmj pmts f σ' :
    v_inv σ → v_declare_begin σ d dmj pmts = Done (inr (f, σ')) →
    v_inv σ' ∧ v_flight_ok f ∧ v_flight_owner f = d ∧ ∀ d', d' ≠ d → v_view σ' d' = v_view σ d';
  law_finish σ now f answer :
    v_inv σ → v_flight_ok f →
    v_inv (v_declare_finish σ now f answer).2 ∧
    (∀ d, d ≠ v_flight_owner f ∨ v_view σ d = None →
       v_view (v_declare_finish σ now f answer).2 d = v_view σ d);
  law_set_custom σ d msg token :
    v_inv σ → ∃ r σ', v_set_custom σ d msg token = Done (r, σ') ∧ v_inv σ' ∧
      ∀ d', d' ≠ d ∨ v_view σ d' = None → v_view σ' d' = v_view σ d';
  law_push σ d ps :
    v_inv σ → v_inv (v_push_solution σ d ps) ∧ ∀ d', v_view (v_push_solution σ d ps) d' = v_view σ d';
  law_cleanup σ d :
    v_inv σ → v_inv (v_cleanup σ d) ∧ v_view (v_cleanup σ d) d = None ∧
      ∀ d', d' ≠ d → v_view (v_cleanup σ d) d' = v_view σ d';
  law_background σ σ' :
    v_inv σ → v_background σ σ' →
    v_inv σ' ∧ ∀ d, v_view σ d = None → v_view σ' d = None;
}.

(** ** The Bitcoin Core engine

    Its shared state, and the solutions it sent to the IPC thread. The
    thread's channel closes with the thread. *)
Section ipc.
Context `{BitcoinApi}.

Record BitcoinCoreIPCEngine : Type := {
  downstream_states : Engine;
  pushed : list PushSolution;
  request_open : bool;
  engine_cancelled : bool;
}.

Definition on_states (s : BitcoinCoreIPCEngine) (es : Engine) : BitcoinCoreIPCEngine :=
  {| downstream_states := es; pushed := pushed s; request_open := request_open s;
     engine_cancelled := engine_cancelled s |}.

(** [handle_push_solution]: fire and forget. *)
Definition engine_push_solution (s : BitcoinCoreIPCEngine) (ps : PushSolution)
    : BitcoinCoreIPCEngine :=
  if request_open s
  then {| downstream_states := downstream_states s; pushed := pushed s ++ [ps];
          request_open := true; engine_cancelled := engine_cancelled s |}
  else s.

(** [shutdown]: cancel, and join the IPC thread (its receiver is gone then). *)
Definition engine_shutdown (s : BitcoinCoreIPCEngine) : BitcoinCoreIPCEngine :=
  {| downstream_states := downstream_states s; pushed := pushed s;
     request_open := false; engine_cancelled := true |}.

#[export] Instance ipc_engine : JobValidationEngine := {|
  VState := BitcoinCoreIPCEngine;
  VFlight := EngineInFlight;
  VAnswer := option JdResponse;
  v_init := {| downstream_states := ∅; pushed := []; request_open := true;
               engine_cancelled := false |};
  v_declare_begin s d dmj pmts :=
    r ← engine_declare_begin (downstream_states s) d dmj pmts;
    Done (match r with inl r => inl r | inr (f, es) => inr (f, on_states s es) end);
  v_declare_finish s now f answer :=
    let '(r, es) := engine_declare_finish (downstream_states s) now f answer in
    (r, on_states s es);
  v_push_solution s _ ps := engine_push_solution s ps;
  v_set_custom s d msg token :=
    r ← engine_set_custom (downstream_states s) d msg token; Done (r.1, on_states s r.2);
  v_cleanup s d := on_states s (engine_cleanup (downstream_states s) d);
  v_shutdown := engine_shutdown;
  v_background s s' :=
    ∃ iter now, s' = on_states s (engine_janitor iter (downstream_states s) now);
|}.

Lemma begin_panic es d dmj pmts :
  engine_declare_begin es d dmj pmts = Panic ↔
  is_Some (parse_token (mining_job_token dmj)) ∧ get_coinbase_tx dmj = Panic.
Proof.
  unfold engine_declare_begin.
  destruct (parse_token _) as [t|]; [|split; [done|by intros [[] _]]].
  destruct (get_coinbase_tx dmj) as [[tx|]|]; simpl;
    [case_decide| |]; split; try done; by intros [].
Qed.

Lemma with_mut_view {R} (es : Engine) d (g : DownstreamState → R * DownstreamState) d' :
  d' ≠ d ∨ es !! d' = None → (SharedMap.with_mut es d g).2 !! d' = es !! d'.
Proof.
  unfold SharedMap.with_mut. destruct (es !! d) as [st|] eqn:E; [|done].
  destruct (g st) as [r st']. simpl. intros [?|?].
  - by rewrite lookup_insert_ne.
  - destruct (decide (d = d')) as [->|]; [congruence|by rewrite lookup_insert_ne].
Qed.

Lemma finish_view es now f answer d :
  d ≠ ef_downstream_id f ∨ es !! d = None →
  (engine_declare_finish es now f answer).2 !! d = es !! d.
Proof.
  intros Hd. unfold engine_declare_finish.
  assert (∀ job, (store_job es now f job).2 !! d = es !! d) as Hs
    by (intros; by apply with_mut_view).
  assert (drop_job es f !! d = es !! d) by by apply with_mut_view.
  destruct answer as [[? ? ?|? ?|? ?]|]; [| |case_match|]; try done.
  all: match goal with |- context [store_job ?a ?b ?c ?j] =>
         specialize (Hs j); destruct (store_job a b c j) as [[]?] end; done.
Qed.

#[export] Program Instance ipc_laws : EngineLaws ipc_engine := {|
  VView := DownstreamState;
  v_view s d := downstream_states s !! d;
  v_inv s := map_Forall (λ _, jobs_ok) (downstream_states s);
  v_flight_ok f := coinbase_ok (ef_declare_mining_job f);
  v_flight_owner f := ef_downstream_id f;
  v_malformed dmj := is_Some (parse_token (mining_job_token dmj)) ∧ get_coinbase_tx dmj = Panic;
|}.
Next Obligation. split; [apply map_Forall_empty|done]. Qed.
Next Obligation.
  intros σ d dmj pmts. simpl.
  rewrite <-(begin_panic (downstream_states σ) d dmj pmts).
  by destruct (engine_declare_begin _ _ _ _).
Qed.
Next Obligation.
  simpl. intros σ d dmj pmts f σ' Hinv (r & Hb & Er)%rust_bind_done.
  destruct r as [|[f' es']]; simplify_eq/=.
  apply begin_ok in Hb as (Hd & <- & Hok & _ & ->). split_and!; [|done..|].
  - apply map_Forall_insert_2; [|done].
    destruct (downstream_states σ !! d) as [st|] eqn:E; [by eapply Hinv|apply jobs_ok_default].
  - intros. by rewrite lookup_insert_ne.
Qed.
Next Obligation.
  simpl. intros σ now f answer Hinv Hf.
  pose proof (finish_jobs_ok (downstream_states σ) now f answer Hf Hinv) as Hok.
  pose proof (finish_view (downstream_states σ) now f answer) as Hv.
  by destruct (engine_declare_finish _ _ _ _).
Qed.
Next Obligation.
  simpl. intros σ d msg token Hinv.
  destruct (engine_set_custom_done (downstream_states σ) d msg token Hinv) as [[r es'] Hr].
  rewrite Hr. simpl. eexists _, _. split; [done|]. simpl.
  apply engine_set_custom_state in Hr as ->. split.
  - apply with_mut_jobs_ok; [|done]. intros st. apply jobs_ok_subseteq, take_jobs.
  - intros. by apply with_mut_view.
Qed.
Next Obligation.
  simpl. intros σ d ps. unfold engine_push_solution. by destruct (request_open σ).
Qed.
Next Obligation.
  simpl. intros σ d Hinv. split_and!; [by apply map_Forall_delete|apply lookup_delete_eq|].
  intros. by apply lookup_delete_ne.
Qed.
Next Obligation.
  simpl. intros σ σ' Hinv (iter & now & ->). split; simpl.
  - apply map_Forall_fmap. eapply map_Forall_impl; [done|]. intros ? st.
    apply jobs_ok_subseteq, prune_loop_subseteq.
  - intros d Hd. unfold engine_janitor. by rewrite lookup_fmap, Hd.
Qed.
End ipc.
