(* ===== verification/JobDeclarator.v ===== *)
(** * The job declarator of the JD server
    ([pool-apps/jd-server/src/lib/job_declarator/mod.rs],
    [job_declaration_message_handler.rs], [downstream/mod.rs], [error.rs])

    The handlers run in a monad of their own: they thread the declarator's
    shared state, stop at the first [JDSError], and may panic.  One task runs
    the message loop, so at most one handler waits for the validation backend
    at a time; disconnects, new connections, janitors and
    [handle_set_custom_mining_job] (called by the pool) run in between.  A
    handler's code between two awaits is one step. *)
From S2P Require Import Prelude SharedMap Bitcoin TokenManager MempoolMirror JdpHandlers Merkle JobValidation ValidationEngine.

(** ** Errors ([error.rs]); payloads of foreign error types are left out. *)
Inductive JDSErrorKind : Type :=
| Io | ChannelSend | ChannelRecv | BinarySv2 | Codec | Noise | Parser
| BitcoinCoreIPC (message : string)
| Framing
| UnexpectedMessage (extension_type message_type : N)
| ClientNotFound (downstream_id : N)
| ClientSenderNotFound (downstream_id : N)
| PendingDeclareMiningJobNotFound (request_id : N)
| UnsupportedProtocol | UnsupportedConnectionFlags | ProtocolVersionMismatch
| OneshotRecv
| InvalidConfig (message : string)
| PoisonLock.

Inductive Action : Type :=
| Log
| Disconnect (downstream_id : N)
| Shutdown.

Inductive LoopControl : Type := Continue | Break.

Record JDSError : Type := { kind : JDSErrorKind; action : Action }.

Definition shutdown_error (k : JDSErrorKind) : JDSError := {| kind := k; action := Shutdown |}.
Definition disconnect_error (k : JDSErrorKind) (d : N) : JDSError :=
  {| kind := k; action := Disconnect d |}.
Definition log_error (k : JDSErrorKind) : JDSError := {| kind := k; action := Log |}.

#[export] Instance JDSErrorKind_eq_dec : EqDecision JDSErrorKind.
Proof. solve_decision. Defined.
#[export] Instance Action_eq_dec : EqDecision Action.
Proof. solve_decision. Defined.
#[export] Instance JDSError_eq_dec : EqDecision JDSError.
Proof. solve_decision. Defined.

(** ** Messages *)

(** What a client sends over the job-declaration connection. *)
Inductive JdpRequest : Type :=
| ReqAllocateMiningJobToken (msg : AllocateMiningJobToken)
| ReqDeclareMiningJob (msg : DeclareMiningJob)
| ReqProvideMissingTransactionsSuccess (msg : ProvideMissingTransactionsSuccess)
| ReqPushSolution (msg : PushSolution).

(** What the server answers. *)
Inductive JdpMessage : Type :=
| AllocateMiningJobTokenSuccess (request_id : N) (token outputs : list byte)
| DeclareMiningJobSuccess (request_id : N) (new_mining_job_token : list byte)
| DeclareMiningJobError (request_id : N) (error_code : DeclareErrorCode)
| ProvideMissingTransactions (request_id : N) (unknown_tx_position_list : list N).

Inductive SetCustomMiningJobResponse : Type :=
| ScmjOk (channel_id request_id job_id : N)
| ScmjError (request_id channel_id : N) (error_code : CustomErrorCode).

(** ** State *)

(** The part of [Downstream] the declarator reads. *)
Record Downstream : Type := {
  negotiated_extensions : SharedLock.SharedLock (list N);
  pending_declare_mining_jobs : gmap N (N * DeclareMiningJob);
}.

(** [Downstream::new]. *)
Definition new_downstream : Downstream :=
  {| negotiated_extensions := SharedLock.new []; pending_declare_mining_jobs := ∅ |}.

(** One wake-up of [spawn_pending_jobs_janitor]. *)
Definition pending_janitor (ds : Downstream) (now : N) : Downstream :=
  {| negotiated_extensions := negotiated_extensions ds;
     pending_declare_mining_jobs :=
       SharedMap.retain
         (λ _ p, negb (from_secs ALLOCATED_TOKEN_TIMEOUT_SECS <? saturating_sub now p.1)%N)
         (pending_declare_mining_jobs ds) |}.

Section declarator.
Context `{BitcoinApi} `{JobValidationEngine}.
Variable coinbase_reward_script : list byte.

(** The maps and channels shared by the clones of [JobDeclarator].
    [downstream_client_senders] maps a client to its channel, named by the
    client; [closed] are the channels whose receivers are gone, [outbox] what
    was sent, [cancelled] the downstreams whose token was cancelled. *)
Record JobDeclarator : Type := {
  token_manager : TokenManager;
  job_validator : VState;
  downstream_client_senders : gmap N N;
  downstream_clients : gmap N Downstream;
  downstream_id_factory : N;
  closed : gset N;
  cancelled : gset N;
  outbox : list (N * JdpMessage);
}.

(** [JobDeclarator::new]. *)
Definition new_declarator : JobDeclarator :=
  {| token_manager := Tokens.new; job_validator := v_init;
     downstream_client_senders := SharedMap.new; downstream_clients := SharedMap.new;
     downstream_id_factory := 0; closed := ∅; cancelled := ∅; outbox := [] |}.

Definition set_tokens (jd : JobDeclarator) (tm : TokenManager) : JobDeclarator :=
  {| token_manager := tm; job_validator := job_validator jd;
     downstream_client_senders := downstream_client_senders jd;
     downstream_clients := downstream_clients jd;
     downstream_id_factory := downstream_id_factory jd;
     closed := closed jd; cancelled := cancelled jd; outbox := outbox jd |}.

Definition set_validator (jd : JobDeclarator) (σ : VState) : JobDeclarator :=
  {| token_manager := token_manager jd; job_validator := σ;
     downstream_client_senders := downstream_client_senders jd;
     downstream_clients := downstream_clients jd;
     downstream_id_factory := downstream_id_factory jd;
     closed := closed jd; cancelled := cancelled jd; outbox := outbox jd |}.

Definition set_clients (jd : JobDeclarator) (cs : gmap N Downstream) : JobDeclarator :=
  {| token_manager := token_manager jd; job_validator := job_validator jd;
     downstream_client_senders := downstream_client_senders jd;
     downstream_clients := cs;
     downstream_id_factory := downstream_id_factory jd;
     closed := closed jd; cancelled := cancelled jd; outbox := outbox jd |}.

Definition set_outbox (jd : JobDeclarator) (out : list (N * JdpMessage)) : JobDeclarator :=
  {| token_manager := token_manager jd; job_validator := job_validator jd;
     downstream_client_senders := downstream_client_senders jd;
     downstream_clients := downstream_clients jd;
     downstream_id_factory := downstream_id_factory jd;
     closed := closed jd; cancelled := cancelled jd; outbox := out |}.

(** ** The handlers' monad *)
Definition handler (A : Type) : Type :=
  JobDeclarator → rust (result A JDSError * JobDeclarator).

#[export] Instance handler_ret : MRet handler := λ A a jd, Done (Ok a, jd).
#[export] Instance handler_bind : MBind handler := λ A B k m jd,
  match m jd with
  | Panic => Panic
  | Done (Err e, jd') => Done (Err e, jd')
  | Done (Ok a, jd') => k a jd'
  end.

Definition fail {A} (e : JDSError) : handler A := λ jd, Done (Err e, jd).
Definition ok_or {A} (o : option A) (e : JDSError) : handler A :=
  match o with Some a => mret a | None => fail e end.
Definition gets {A} (f : JobDeclarator → A) : handler A := λ jd, Done (Ok (f jd), jd).
Definition modify {A} (f : JobDeclarator → A * JobDeclarator) : handler A :=
  λ jd, let '(a, jd') := f jd in Done (Ok a, jd').
Definition unwrap {A} (c : rust A) : handler A :=
  λ jd, match c with Done a => Done (Ok a, jd) | Panic => Panic end.

(** [client_sender.send(..).await.map_err(disconnect)]. *)
Definition send_to (client channel : N) (msg : JdpMessage) : handler unit := λ jd,
  if decide (channel ∈ closed jd) then Done (Err (disconnect_error ChannelSend client), jd)
  else Done (Ok tt, set_outbox jd (outbox jd ++ [(channel, msg)])).

(** The lookup of a client's sender. *)
Definition client_sender (client : N) : handler N :=
  found ← gets (λ jd, SharedMap.with_ (downstream_client_senders jd) client (λ c, c));
  ok_or found (disconnect_error (ClientSenderNotFound client) client).

Definition require_client (client_id : option N) : handler N :=
  ok_or client_id (shutdown_error (ClientNotFound 0)).

(** [get_negotiated_extensions_with_client]. *)
Definition get_negotiated_extensions_with_client (client_id : option N) : handler (list N) :=
  client ← require_client client_id;
  found ← gets (λ jd, SharedMap.with_ (downstream_clients jd) client
            (λ ds, (SharedLock.get (negotiated_extensions ds)).1));
  outcome ← ok_or found (disconnect_error (ClientNotFound client) client);
  exts ← unwrap outcome;
  match exts with
  | Ok l => mret l
  | Err _ => fail (shutdown_error PoisonLock)
  end.

(** [B0_64K::try_from] of a byte string, and [Seq064K::try_from] of a list. *)
Definition fits_64k {A} (l : list A) : bool := (N.of_nat (length l) <=? 65535)%N.

(** [handle_allocate_mining_job_token]. *)
Definition handle_allocate_mining_job_token (now : N) (client_id : option N)
    (msg : AllocateMiningJobToken) : handler unit :=
  client ← require_client client_id;
  token ← modify (λ jd,
    let '(t, tm) := Tokens.allocate (token_manager jd) now client (user_identifier msg) in
    (t, set_tokens jd tm));
  let outputs := serialize_outputs [{| value := 0; script_pubkey := coinbase_reward_script |}] in
  outputs ← unwrap (if fits_64k outputs then Done outputs else Panic);
  channel ← client_sender client;
  send_to client channel
    (AllocateMiningJobTokenSuccess (amjt_request_id msg) (print_token token) outputs).

(** The positions, as [u16], of the missing wtxids in the declared list; a
    wtxid that is not in it is skipped. *)
Definition position (wtxid : N) (l : list N) : option nat :=
  fst <$> list_find (λ x, x = wtxid) l.

Definition unknown_tx_positions (missing declared : list N) : list N :=
  omap (λ w, (λ pos, N.of_nat pos mod 65536) <$> position w declared) missing.

(** [activate] and the answer it leads to. *)
Definition activate_and_answer (now client token request_id : N) : handler JdpMessage :=
  activated ← modify (λ jd,
    let '(r, tm) := Tokens.activate (token_manager jd) now token client in
    (r, set_tokens jd tm));
  mret (match activated with
        | Some activated_token => DeclareMiningJobSuccess request_id (print_token activated_token)
        | None => DeclareMiningJobError request_id InvalidMiningJobToken
        end).

Definition deallocate_and_answer (token request_id : N) (code : DeclareErrorCode)
    : handler JdpMessage :=
  modify (λ jd, (tt, set_tokens jd (Tokens.deallocate (token_manager jd) token)));;
  mret (DeclareMiningJobError request_id code).

(** [handle_declare_mining_job] from the backend's result on. *)
Definition declare_response (now client channel token : N) (msg : DeclareMiningJob)
    (r : DeclareMiningJobResult) : handler unit :=
  response ←
    match r with
    | DeclareSuccess => activate_and_answer now client token (dmj_request_id msg)
    | DeclareError code => deallocate_and_answer token (dmj_request_id msg) code
    | DeclareMissingTransactions missing =>
        inserted ← modify (λ jd,
          let '(r, cs) := SharedMap.with_mut (downstream_clients jd) client (λ ds,
            (tt, {| negotiated_extensions := negotiated_extensions ds;
                    pending_declare_mining_jobs :=
                      (SharedMap.insert (pending_declare_mining_jobs ds)
                         (dmj_request_id msg) (now, msg)).2 |})) in
          (r, set_clients jd cs));
        ok_or inserted (disconnect_error (ClientNotFound client) client);;
        let positions := unknown_tx_positions missing (wtxid_list msg) in
        if fits_64k positions
        then mret (ProvideMissingTransactions (dmj_request_id msg) positions)
        else fail (shutdown_error BinarySv2)
    end;
  send_to client channel response.

(** [handle_provide_missing_transactions_success] from the backend's result
    on: a declaration that still misses transactions is refused. *)
Definition provide_response (now client channel token request_id : N)
    (r : DeclareMiningJobResult) : handler unit :=
  response ←
    match r with
    | DeclareSuccess => activate_and_answer now client token request_id
    | DeclareError code => deallocate_and_answer token request_id code
    | DeclareMissingTransactions _ => deallocate_and_answer token request_id MissingTxs
    end;
  send_to client channel response.

(** A handler waiting for the backend: which handler, and its locals. *)
Record Waiting : Type := {
  w_client : N;
  w_channel : N;
  w_token : N;
  w_request_id : N;
  w_msg : DeclareMiningJob;
  w_is_retry : bool;
  w_flight : VFlight;
}.

Definition respond (now client channel token request_id : N) (msg : DeclareMiningJob)
    (is_retry : bool) (r : DeclareMiningJobResult) : handler unit :=
  if is_retry then provide_response now client channel token request_id r
  else declare_response now client channel token msg r.

(** The call of the backend: its immediate result is answered at once. *)
Definition validate (now client channel token request_id : N) (msg : DeclareMiningJob)
    (pmts : option ProvideMissingTransactionsSuccess) : handler (option Waiting) :=
  σ ← gets job_validator;
  begun ← unwrap (v_declare_begin σ client msg pmts);
  match begun with
  | inl r =>
      respond now client channel token request_id msg (bool_decide (is_Some pmts)) r;;
      mret None
  | inr (f, σ') =>
      modify (λ jd, (tt, set_validator jd σ'));;
      mret (Some {| w_client := client; w_channel := channel; w_token := token;
                    w_request_id := request_id; w_msg := msg;
                    w_is_retry := bool_decide (is_Some pmts); w_flight := f |})
  end.

(** [handle_declare_mining_job] up to the backend. *)
Definition handle_declare_mining_job (now : N) (client_id : option N) (msg : DeclareMiningJob)
    : handler (option Waiting) :=
  client ← require_client client_id;
  channel ← client_sender client;
  match parse_token (mining_job_token msg) with
  | None =>
      send_to client channel (DeclareMiningJobError (dmj_request_id msg) InvalidMiningJobToken);;
      mret None
  | Some token =>
      tm ← gets token_manager;
      if negb (Tokens.is_allocated tm token client) then
        send_to client channel (DeclareMiningJobError (dmj_request_id msg) InvalidMiningJobToken);;
        mret None
      else validate now client channel token (dmj_request_id msg) msg None
  end.

(** [handle_provide_missing_transactions_success] up to the backend. *)
Definition handle_provide_missing_transactions_success (now : N) (client_id : option N)
    (msg : ProvideMissingTransactionsSuccess) : handler (option Waiting) :=
  client ← require_client client_id;
  channel ← client_sender client;
  removed ← modify (λ jd,
    let '(r, cs) := SharedMap.with_mut (downstream_clients jd) client (λ ds,
      let '(r, pending) :=
        SharedMap.remove (pending_declare_mining_jobs ds) (pmts_request_id msg) in
      (r, {| negotiated_extensions := negotiated_extensions ds;
             pending_declare_mining_jobs := pending |})) in
    (r, set_clients jd cs));
  maybe_pending ← ok_or removed (disconnect_error (ClientNotFound client) client);
  pending ← ok_or maybe_pending
              (log_error (PendingDeclareMiningJobNotFound (pmts_request_id msg)));
  let declare_mining_job := pending.2.2 in
  token ← unwrap (expect (parse_token (mining_job_token declare_mining_job)));
  validate now client channel token (pmts_request_id msg) declare_mining_job (Some msg).

(** [handle_push_solution]. *)
Definition handle_push_solution (client_id : option N) (msg : PushSolution) : handler unit :=
  client ← require_client client_id;
  modify (λ jd, (tt, set_validator jd (v_push_solution (job_validator jd) client msg))).

(** The end of a waiting handler: the backend answers. *)
Definition finish_waiting (now : N) (w : Waiting) (answer : VAnswer) : handler unit :=
  r ← modify (λ jd,
    let '(r, σ) := v_declare_finish (job_validator jd) now (w_flight w) answer in
    (r, set_validator jd σ));
  respond now (w_client w) (w_channel w) (w_token w) (w_request_id w) (w_msg w) (w_is_retry w) r.

(** [cleanup_downstream]. *)
Definition cleanup_downstream (d : N) (jd : JobDeclarator) : JobDeclarator :=
  let '(removed, clients) := SharedMap.remove (downstream_clients jd) d in
  {| token_manager := Tokens.remove_downstream (token_manager jd) d;
     job_validator := v_cleanup (job_validator jd) d;
     downstream_client_senders := (SharedMap.remove (downstream_client_senders jd) d).2;
     downstream_clients := clients;
     downstream_id_factory := downstream_id_factory jd;
     closed := closed jd;
     cancelled := if removed then {[d]} ∪ cancelled jd else cancelled jd;
     outbox := outbox jd |}.

(** [handle_error_action]. *)
Definition handle_error_action (e : JDSError) (jd : JobDeclarator) : LoopControl * JobDeclarator :=
  match action e with
  | Log => (Continue, jd)
  | Disconnect d => (Continue, cleanup_downstream d jd)
  | Shutdown => (Break, jd)
  end.

(** [handle_jdp_message]: the dispatch on the message. *)
Definition handle_jdp_message (now d : N) (msg : JdpRequest) : handler (option Waiting) :=
  match msg with
  | ReqAllocateMiningJobToken m =>
      handle_allocate_mining_job_token now (Some d) m;; mret None
  | ReqDeclareMiningJob m => handle_declare_mining_job now (Some d) m
  | ReqProvideMissingTransactionsSuccess m =>
      handle_provide_missing_transactions_success now (Some d) m
  | ReqPushSolution m => handle_push_solution (Some d) m;; mret None
  end.

(** The body of the loop of [start], after a handler ended. *)
Definition loop_body {A} (default : A) (outcome : result A JDSError * JobDeclarator)
    : LoopControl * A * JobDeclarator :=
  match outcome with
  | (Ok a, jd) => (Continue, a, jd)
  | (Err e, jd) => let '(c, jd') := handle_error_action e jd in (c, default, jd')
  end.

(** [shutdown]. *)
Definition shutdown (jd : JobDeclarator) : JobDeclarator :=
  {| token_manager := token_manager jd; job_validator := v_shutdown (job_validator jd);
     downstream_client_senders := SharedMap.clear (downstream_client_senders jd);
     downstream_clients := SharedMap.clear (downstream_clients jd);
     downstream_id_factory := downstream_id_factory jd;
     closed := closed jd; cancelled := cancelled jd; outbox := outbox jd |}.

(** The registration of a new connection in [start_downstream_server]. *)
Definition accept_downstream (jd : JobDeclarator) : N * JobDeclarator :=
  let d := downstream_id_factory jd in
  (d, {| token_manager := token_manager jd; job_validator := job_validator jd;
         downstream_client_senders :=
           (SharedMap.insert (downstream_client_senders jd) d d).2;
         downstream_clients := (SharedMap.insert (downstream_clients jd) d new_downstream).2;
         downstream_id_factory := u64_add d 1;
         closed := closed jd; cancelled := cancelled jd; outbox := outbox jd |}).

(** [handle_set_custom_mining_job]. *)
Definition handle_set_custom_mining_job (msg : SetCustomMiningJob) (user_identity : string)
    : handler SetCustomMiningJobResponse :=
  let refuse := ScmjError (scmj_request_id msg) (scmj_channel_id msg) in
  match parse_token (scmj_token msg) with
  | None => mret (refuse CustomInvalidMiningJobToken)
  | Some active_token =>
      tm ← gets token_manager;
      match Tokens.allocated_from_active tm active_token with
      | None => mret (refuse CustomInvalidMiningJobToken)
      | Some data =>
          if decide (user_identity ≠ ac_user_identity data)
          then mret (refuse CustomInvalidMiningJobToken)
          else
            modify (λ jd, (tt, set_tokens jd (Tokens.deactivate (token_manager jd) active_token)));;
            σ ← gets job_validator;
            verdict ← unwrap (v_set_custom σ (ac_owner data) msg (allocated_token data));
            modify (λ jd, (tt, set_validator jd verdict.2));;
            mret (match verdict.1 with
                  | CustomSuccess => ScmjOk (scmj_channel_id msg) (scmj_request_id msg) 0
                  | CustomError code => refuse code
                  end)
      end
  end.

(** ** The declarator as a transition system

    [loop] is the message loop's state: running with nothing to do, waiting
    for the backend, or stopped, by a shutdown error or a panic. The panics
    that can happen ([jds_panics_iff]) come before any change of state. *)
Inductive Loop : Type := Idle | Awaiting (w : Waiting) | Stopped.

Record JdSystem : Type := { jd : JobDeclarator; loop : Loop }.

Definition loop_of (c : LoopControl) (w : option Waiting) : Loop :=
  match c, w with
  | Break, _ => Stopped
  | Continue, Some w => Awaiting w
  | Continue, None => Idle
  end.

Inductive jd_step : JdSystem → JdSystem → Prop :=
| jd_message s now d msg outcome c w jd' :
    loop s = Idle →
    handle_jdp_message now d msg (jd s) = Done outcome →
    loop_body None outcome = (c, w, jd') →
    jd_step s {| jd := jd'; loop := loop_of c w |}
| jd_panic s now d msg :
    loop s = Idle →
    handle_jdp_message now d msg (jd s) = Panic →
    jd_step s {| jd := jd s; loop := Stopped |}
| jd_answer s now w answer outcome c u jd' :
    loop s = Awaiting w →
    finish_waiting now w answer (jd s) = Done outcome →
    loop_body tt outcome = (c, u, jd') →
    jd_step s {| jd := jd'; loop := loop_of c None |}
| jd_set_custom s msg identity r jd' :
    handle_set_custom_mining_job msg identity (jd s) = Done (r, jd') →
    jd_step s {| jd := jd'; loop := loop s |}
| jd_connect s :
    jd_step s {| jd := (accept_downstream (jd s)).2; loop := loop s |}
| jd_disconnect s d :
    jd_step s {| jd := cleanup_downstream d (jd s); loop := loop s |}
| jd_close s d :
    jd_step s {| jd := {| token_manager := token_manager (jd s);
                          job_validator := job_validator (jd s);
                          downstream_client_senders := downstream_client_senders (jd s);
                          downstream_clients := downstream_clients (jd s);
                          downstream_id_factory := downstream_id_factory (jd s);
                          closed := {[d]} ∪ closed (jd s); cancelled := cancelled (jd s);
                          outbox := outbox (jd s) |};
                 loop := loop s |}
| jd_token_janitor s now :
    jd_step s {| jd := set_tokens (jd s) (Tokens.janitor (token_manager (jd s)) now);
                 loop := loop s |}
| jd_pending_janitor s d now :
    jd_step s {| jd := set_clients (jd s)
                   (alter (λ ds, pending_janitor ds now) d (downstream_clients (jd s)));
                 loop := loop s |}
| jd_background s σ :
    v_background (job_validator (jd s)) σ →
    jd_step s {| jd := set_validator (jd s) σ; loop := loop s |}.

Definition jd_reachable (s : JdSystem) : Prop :=
  rtc jd_step {| jd := new_declarator; loop := Idle |} s.
End declarator.
Arguments handler_ret _ _ _ _ /.
Arguments handler_bind _ _ _ _ _ _ /.

(** ** Invariant and a small program logic for handlers *)
Section invariant.
Context `{BitcoinApi} {VE : JobValidationEngine} `{!EngineLaws VE}.
Variable coinbase_reward_script : list byte.

Definition connected (jd : JobDeclarator) (d : N) : Prop :=
  is_Some (downstream_client_senders jd !! d).

(** A declaration a handler may hand to the backend again. *)
Definition well_formed (msg : DeclareMiningJob) : Prop :=
  is_Some (parse_token (mining_job_token msg)) ∧ ¬ v_malformed msg.

(** Tokens and validation state belong to connected clients ([except] is one
    that may have been missed), pending declarations are well formed and
    stored under their request id. *)
Record jd_inv_but (except : option N) (jd : JobDeclarator) : Prop := {
  ji_engine : v_inv (job_validator jd);
  ji_allocated : ∀ t a, allocated_tokens (token_manager jd) !! t = Some a →
    connected jd (al_owner a) ∨ except = Some (al_owner a);
  ji_active : ∀ t a, active_tokens (token_manager jd) !! t = Some a →
    connected jd (ac_owner a) ∨ except = Some (ac_owner a);
  ji_views : ∀ d, is_Some (v_view (job_validator jd) d) → connected jd d;
  ji_pending : ∀ d ds rid p, downstream_clients jd !! d = Some ds →
    pending_declare_mining_jobs ds !! rid = Some p →
    well_formed p.2 ∧ dmj_request_id p.2 = rid;
}.

Notation jd_inv := (jd_inv_but None).

Record waiting_ok (w : Waiting) : Prop := {
  wo_flight : v_flight_ok (w_flight w);
  wo_owner : v_flight_owner (w_flight w) = w_client w;
  wo_msg : well_formed (w_msg w);
  wo_token : parse_token (mining_job_token (w_msg w)) = Some (w_token w);
  wo_request : dmj_request_id (w_msg w) = w_request_id w;
}.

Definition jd_ok (s : JdSystem) : Prop :=
  jd_inv (jd s) ∧ ∀ w, loop s = Awaiting w → waiting_ok w.

(** [triple P m Q]: from a state with [P], [m] does not panic, leaves [Q] of
    its result when it succeeds, and the invariant when it fails. *)
Definition triple {A} (P : JobDeclarator → Prop) (m : handler A)
    (Q : A → JobDeclarator → Prop) : Prop :=
  ∀ jd, P jd → ∃ r jd', m jd = Done (r, jd') ∧
    match r with Ok a => Q a jd' | Err _ => jd_inv jd' end.

Lemma triple_bind {A B} P (m : handler A) (k : A → handler B) Q R :
  triple P m Q → (∀ a, triple (Q a) (k a) R) → triple P (m ≫= k) R.
Proof.
  intros Hm Hk jd HP. destruct (Hm jd HP) as ([a|e] & jd' & E & HQ); simpl; unfold mbind, handler_bind;
    rewrite E; [by apply Hk|eauto].
Qed.

Lemma triple_ret {A} (a : A) P Q : (∀ jd, P jd → Q a jd) → triple P (mret a) Q.
Proof. intros HQ jd HP. eexists _, _. split; [done|]. by apply HQ. Qed.

Lemma triple_gets {A} (f : JobDeclarator → A) P Q :
  (∀ jd, P jd → Q (f jd) jd) → triple P (gets f) Q.
Proof. intros HQ jd HP. eexists _, _. split; [done|]. by apply HQ. Qed.

Lemma triple_modify {A} (f : JobDeclarator → A * JobDeclarator) P Q :
  (∀ jd, P jd → Q (f jd).1 (f jd).2) → triple P (modify f) Q.
Proof.
  intros HQ jd HP. unfold modify. specialize (HQ jd HP). destruct (f jd). eexists _, _.
  by split.
Qed.

Lemma triple_fail {A} e P (Q : A → _) : (∀ jd, P jd → jd_inv jd) → triple P (fail e) Q.
Proof. intros HP jd H'. eexists _, _. split; [done|]. by apply HP. Qed.

Lemma triple_ok_or {A} (o : option A) e P Q :
  (∀ a, o = Some a → triple P (mret a) Q) → (∀ jd, P jd → jd_inv jd) → triple P (ok_or o e) Q.
Proof. intros HS HN. destruct o; [by apply HS|by apply triple_fail]. Qed.

Lemma triple_unwrap {A} (c : rust A) P Q :
  (∀ jd, P jd → ∃ a, c = Done a ∧ Q a jd) → triple P (unwrap c) Q.
Proof.
  intros HQ jd HP. destruct (HQ jd HP) as (a & -> & ?). eexists _, _. by split.
Qed.

Lemma triple_weaken {A} (P P' : _ → Prop) (m : handler A) (Q : A → _ → Prop) :
  triple P m Q → (∀ jd, P' jd → P jd) → triple P' m Q.
Proof. intros Hm HP jd H'. by apply Hm, HP. Qed.

(** ** The primitives keep the invariant *)
Lemma send_to_triple client channel msg :
  triple jd_inv (send_to client channel msg) (λ _, jd_inv).
Proof.
  intros jd [] . unfold send_to. case_decide; eexists _, _; split; try done; by split.
Qed.

Lemma client_sender_triple client :
  triple jd_inv (client_sender client) (λ _ jd, jd_inv jd ∧ connected jd client).
Proof.
  intros jd Hi. unfold client_sender, SharedMap.with_, gets. simpl.
  unfold mbind, handler_bind. simpl.
  destruct (downstream_client_senders jd !! client) as [c|] eqn:E; simpl; eexists _, _;
    (split; [done|]); [|done]. split; [done|]. by eexists.
Qed.

(** Fewer tokens keep the invariant. *)
Lemma jd_inv_tokens ex jd tm :
  allocated_tokens tm ⊆ allocated_tokens (token_manager jd) →
  active_tokens tm ⊆ active_tokens (token_manager jd) →
  jd_inv_but ex jd → jd_inv_but ex (set_tokens jd tm).
Proof.
  intros H1 H2 []. split; simpl; try done.
  - intros t a Ha. eapply ji_allocated0, lookup_weaken; eauto.
  - intros t a Ha. eapply ji_active0, lookup_weaken; eauto.
Qed.

Lemma deallocate_triple token rid code :
  triple jd_inv (deallocate_and_answer token rid code) (λ _, jd_inv).
Proof.
  eapply (triple_bind _ _ _ (λ _, jd_inv)); [|intros; by apply triple_ret].
  apply triple_modify. intros jd Hi. apply jd_inv_tokens; [apply delete_subseteq|done|done].
Qed.

Lemma activate_triple now client token rid :
  triple jd_inv (activate_and_answer now client token rid) (λ _, jd_inv).
Proof.
  eapply (triple_bind _ _ _ (λ _, jd_inv)); [|intros; by apply triple_ret].
  apply triple_modify. intros jd Hi.
  destruct (Tokens.activate (token_manager jd) now token client) as [r tm] eqn:E. simpl.
  apply Tokens.activate_cases in E as [(-> & -> & ?)|(a & -> & Hal & Hd & ->)].
  - by apply jd_inv_tokens.
  - destruct Hi. split; simpl; try done.
    + intros t b [_ Hb]%lookup_delete_Some. eauto.
    + intros t b [[<- <-]|[_ Hb]]%lookup_insert_Some; [|eauto]. simpl.
      rewrite <-Hd. eauto.
Qed.

(** Storing a pending declaration under its request id. *)
Lemma jd_inv_pending jd d (g : Downstream → Downstream) :
  (∀ ds rid p, downstream_clients jd !! d = Some ds →
     pending_declare_mining_jobs (g ds) !! rid = Some p →
     pending_declare_mining_jobs ds !! rid = Some p ∨
     (well_formed p.2 ∧ dmj_request_id p.2 = rid)) →
  jd_inv jd → jd_inv (set_clients jd (alter g d (downstream_clients jd))).
Proof.
  intros Hg []. split; simpl; try done. intros d' ds rid p Hd Hp.
  destruct (decide (d' = d)) as [->|Hne].
  - rewrite lookup_alter_eq in Hd. apply fmap_Some in Hd as (ds0 & Hd0 & ->).
    destruct (Hg ds0 rid p Hd0 Hp); [by eapply ji_pending0|done].
  - rewrite lookup_alter_ne in Hd by done. by eapply ji_pending0.
Qed.

(** [with_mut] is [alter] with a result. *)
Lemma with_mut_alter {R} (m : gmap N Downstream) d (f : Downstream → R * Downstream) :
  (SharedMap.with_mut m d f).2 = alter (λ ds, (f ds).2) d m.
Proof.
  apply map_eq. intros d'. unfold SharedMap.with_mut. destruct (decide (d' = d)) as [->|].
  - rewrite lookup_alter_eq. destruct (m !! d) as [ds|] eqn:E; simpl; [|done].
    destruct (f ds). apply lookup_insert_eq.
  - rewrite lookup_alter_ne by done. destruct (m !! d) as [ds|]; [|done].
    destruct (f ds). by apply lookup_insert_ne.
Qed.

Lemma declare_response_triple now client channel token msg r :
  well_formed msg →
  triple jd_inv (declare_response now client channel token msg r) (λ _, jd_inv).
Proof.
  intros Hwf. eapply (triple_bind _ _ _ (λ _, jd_inv)); [|intros; apply send_to_triple].
  destruct r as [|code|missing]; [apply activate_triple|apply deallocate_triple|].
  eapply (triple_bind _ _ _ (λ _, jd_inv)).
  { apply triple_modify. intros jd Hi.
    match goal with |- context [SharedMap.with_mut ?m ?d ?f] =>
      pose proof (with_mut_alter m d f) as Ha; destruct (SharedMap.with_mut m d f) end.
    simpl in *. subst. apply jd_inv_pending; [|done]. intros ds rid p _. simpl.
    rewrite lookup_insert_Some. intros [[<- <-]|[_ ?]]; [by right|by left]. }
  intros inserted. eapply (triple_bind _ _ _ (λ _, jd_inv)).
  { apply triple_ok_or; [|done]. intros. by apply triple_ret. }
  intros _. cbv beta zeta. destruct (fits_64k _); [by apply triple_ret|by apply triple_fail].
Qed.

Lemma provide_response_triple now client channel token rid r :
  triple jd_inv (provide_response now client channel token rid r) (λ _, jd_inv).
Proof.
  eapply (triple_bind _ _ _ (λ _, jd_inv)); [|intros; apply send_to_triple].
  destruct r; [apply activate_triple|apply deallocate_triple..].
Qed.

Lemma respond_triple now client channel token rid msg retry r :
  well_formed msg →
  triple jd_inv (respond now client channel token rid msg retry r) (λ _, jd_inv).
Proof.
  intros. unfold respond. destruct retry;
    [apply provide_response_triple|by apply declare_response_triple].
Qed.

(** What a handler that calls the backend leaves. *)
Definition waits (w : option Waiting) (jd : JobDeclarator) : Prop :=
  jd_inv jd ∧ ∀ w', w = Some w' → waiting_ok w'.

Lemma validate_triple now client channel token rid msg pmts :
  ¬ v_malformed msg → parse_token (mining_job_token msg) = Some token →
  dmj_request_id msg = rid →
  triple (λ jd, jd_inv jd ∧ connected jd client)
    (validate now client channel token rid msg pmts) waits.
Proof.
  intros Hm Hp Hr. assert (well_formed msg) as Hwf by (split; [by eexists|done]).
  eapply (triple_bind _ _ _ (λ σ jd, (jd_inv jd ∧ connected jd client) ∧ σ = job_validator jd));
    [by apply triple_gets|]. intros σ.
  eapply (triple_bind _ _ _ (λ b jd, (jd_inv jd ∧ connected jd client) ∧
    v_declare_begin (job_validator jd) client msg pmts = Done b)).
  { apply triple_unwrap. intros jd [Hj ->].
    destruct (v_declare_begin (job_validator jd) client msg pmts) as [b|] eqn:E; [by eauto|].
    by apply law_begin_panic in E. }
  intros [r|[f σ']].
  - eapply (triple_bind _ _ _ (λ _, jd_inv)).
    + eapply triple_weaken; [by apply respond_triple|]. by intros jd [[] _].
    + intros _. apply triple_ret. intros jd Hj. by split.
  - eapply (triple_bind _ _ _ (λ _ jd, jd_inv jd ∧ v_flight_ok f ∧ v_flight_owner f = client)).
    + apply triple_modify. intros jd [[[] Hc] E]. simpl.
      apply law_begin in E as (? & ? & ? & Hv); [|done]. split; [|done].
      split; simpl; try done. intros d Hd.
      destruct (decide (d = client)) as [->|]; [done|]. rewrite Hv in Hd by done. by apply ji_views0.
    + intros _. apply triple_ret. intros jd (Hj & Hf & Ho). split; [done|].
      intros w [= <-]. by split.
Qed.

Lemma declare_triple now d msg :
  triple (λ jd, jd_inv jd ∧
      ∀ t, connected jd d → parse_token (mining_job_token msg) = Some t →
        Tokens.is_allocated (token_manager jd) t d = true → ¬ v_malformed msg)
    (handle_declare_mining_job now (Some d) msg) waits.
Proof.
  intros jd [Hi Hm]. unfold handle_declare_mining_job, require_client, ok_or, client_sender, gets,
    SharedMap.with_. unfold mbind, mret, handler_bind, handler_ret. simpl.
  destruct (downstream_client_senders jd !! d) as [channel|] eqn:Ec; simpl; [|by eexists _, _].
  assert (connected jd d) as Hc by by eexists.
  destruct (parse_token (mining_job_token msg)) as [t|] eqn:Et.
  2: { destruct (send_to_triple d channel (DeclareMiningJobError (dmj_request_id msg)
         InvalidMiningJobToken) jd Hi) as ([] & jd' & -> & Hj); eexists _, _; (split; [done|]);
       [by split|done]. }
  destruct (Tokens.is_allocated (token_manager jd) t d) eqn:Ea; simpl.
  - apply validate_triple; [by eapply Hm|done..].
  - destruct (send_to_triple d channel (DeclareMiningJobError (dmj_request_id msg)
         InvalidMiningJobToken) jd Hi) as ([] & jd' & -> & Hj); eexists _, _; (split; [done|]);
       [by split|done].
Qed.

Lemma provide_triple now d msg :
  triple jd_inv (handle_provide_missing_transactions_success now (Some d) msg) waits.
Proof.
  unfold handle_provide_missing_transactions_success.
  eapply (triple_bind _ _ _ (λ client jd, jd_inv jd ∧ client = d)); [by apply triple_ret|].
  intros client. eapply (triple_bind _ _ _ (λ _ jd, jd_inv jd ∧ connected jd client)).
  { eapply triple_weaken; [apply client_sender_triple|]. by intros jd [? _]. }
  intros channel.
  eapply (triple_bind _ _ _ (λ removed jd, (jd_inv jd ∧ connected jd client) ∧
    ∀ p, removed = Some (Some p) →
      well_formed p.2.2 ∧ dmj_request_id p.2.2 = pmts_request_id msg)).
  { apply triple_modify. intros jd [Hi Hc].
    match goal with |- context [SharedMap.with_mut ?m ?d ?f] =>
      pose proof (with_mut_alter m d f) as Ha;
      destruct (SharedMap.with_mut m d f) as [removed cs] eqn:Ew end.
    simpl in *. subst. split; [split; [|done]|].
    - apply jd_inv_pending; [|done]. intros ds rid p _. simpl.
      intros [_ ?]%lookup_delete_Some. by left.
    - intros p ->. unfold SharedMap.with_mut in Ew.
      destruct (downstream_clients jd !! client) as [ds|] eqn:Ed; [|done]. simplify_eq/=.
      destruct (pending_declare_mining_jobs ds !! pmts_request_id msg) as [q|] eqn:Eq;
        simplify_eq/=. by eapply ji_pending. }
  intros removed. eapply (triple_bind _ _ _ (λ mp jd, (jd_inv jd ∧ connected jd client) ∧
    ∀ p, mp = Some p → well_formed p.2.2 ∧ dmj_request_id p.2.2 = pmts_request_id msg)).
  { apply triple_ok_or; [|by intros jd [[] _]]. intros mp ->. apply triple_ret.
    intros jd [? Hp]. split; [done|]. intros p ->. by apply Hp. }
  intros mp. eapply (triple_bind _ _ _ (λ p jd, (jd_inv jd ∧ connected jd client) ∧
    well_formed p.2.2 ∧ dmj_request_id p.2.2 = pmts_request_id msg)).
  { apply triple_ok_or; [|by intros jd [[] _]]. intros p ->. apply triple_ret.
    intros jd [? Hp]. split; [done|]. by apply Hp. }
  intros p jd (Hj & [[t Ht] Hm] & Hr).
  unfold unwrap, mbind, handler_bind. rewrite Ht. simpl. by apply validate_triple.
Qed.

Lemma jd_inv_weaken ex jd : jd_inv jd → jd_inv_but ex jd.
Proof. intros []. split; eauto; intros t a Ha; left; [edestruct ji_allocated0|edestruct ji_active0]; naive_solver. Qed.

(** [cleanup_downstream] repairs what was missed for the client it removes. *)
Lemma cleanup_inv d jd : jd_inv_but (Some d) jd → jd_inv (cleanup_downstream d jd).
Proof.
  intros []. unfold cleanup_downstream. simpl.
  destruct (law_cleanup (job_validator jd) d) as (Hi & Hd & Hv); [done|].
  split; simpl; try done; unfold connected; simpl.
  - intros t a [Ha Hne]%SharedMap.retain_lookup. apply bool_decide_eq_true in Hne. left.
    destruct (ji_allocated0 t a Ha) as [?|?]; [by rewrite lookup_delete_ne|naive_solver].
  - intros t a [Ha Hne]%SharedMap.retain_lookup. apply bool_decide_eq_true in Hne. left.
    destruct (ji_active0 t a Ha) as [?|?]; [by rewrite lookup_delete_ne|naive_solver].
  - intros d' Hd'. destruct (decide (d' = d)) as [->|]; [by rewrite Hd in Hd'; destruct Hd'|].
    rewrite Hv in Hd' by done. rewrite lookup_delete_ne by done. by apply ji_views0.
  - intros d' ds rid p [_ Hds]%lookup_delete_Some. by eapply ji_pending0.
Qed.

Lemma cleanup_keeps_inv d jd : jd_inv jd → jd_inv (cleanup_downstream d jd).
Proof. intros. by apply cleanup_inv, jd_inv_weaken. Qed.

Lemma error_action_inv e jd : jd_inv jd → jd_inv (handle_error_action e jd).2.
Proof.
  intros. unfold handle_error_action. destruct (action e); simpl; [done| |done].
  by apply cleanup_keeps_inv.
Qed.

(** The reward output fits the message field. *)
Definition reward_fits : Prop :=
  fits_64k (serialize_outputs [{| value := 0; script_pubkey := coinbase_reward_script |}]) = true.

Lemma allocate_outcome now d msg jd :
  reward_fits → jd_inv jd →
  ∃ r jd', handle_allocate_mining_job_token coinbase_reward_script now (Some d) msg jd = Done (r, jd') ∧
    match r with
    | Ok _ => jd_inv jd'
    | Err e => jd_inv_but (Some d) jd' ∧ action e = Disconnect d
    end.
Proof.
  intros Hfit Hi. unfold handle_allocate_mining_job_token, require_client, ok_or, client_sender,
    gets, modify, unwrap, SharedMap.with_, mbind, mret, handler_bind, handler_ret. simpl.
  unfold reward_fits in Hfit. rewrite Hfit. simpl.
  destruct (downstream_client_senders jd !! d) as [channel|] eqn:Ec; simpl.
  - set (jd' := set_tokens jd _). assert (jd_inv jd') as Hj.
    { destruct Hi. split; simpl; try done.
      intros t a [[<- <-]|[_ Ha]]%lookup_insert_Some; [left; by eexists|eauto]. }
    unfold send_to. case_decide; eexists _, _; (split; [done|]).
    + split; [by apply jd_inv_weaken|done].
    + destruct Hj. by split.
  - eexists _, _. split; [done|]. split; [|done].
    apply (jd_inv_weaken (Some d)) in Hi as []. split; simpl; try done.
    intros t a [[<- <-]|[_ Ha]]%lookup_insert_Some; [by right|eauto].
Qed.

Lemma push_triple d msg : triple jd_inv (handle_push_solution (Some d) msg) (λ _, jd_inv).
Proof.
  eapply (triple_bind _ _ _ (λ _, jd_inv)); [by apply triple_ret|]. intros client.
  apply triple_modify. intros jd []. destruct (law_push (job_validator jd) client msg) as [? Hv];
    [done|]. split; simpl; try done. intros d' Hd. rewrite Hv in Hd. by apply ji_views0.
Qed.

Lemma set_custom_triple msg identity :
  triple jd_inv (handle_set_custom_mining_job msg identity) (λ _, jd_inv).
Proof.
  unfold handle_set_custom_mining_job. destruct (parse_token _) as [t|]; [|by apply triple_ret].
  eapply (triple_bind _ _ _ (λ _, jd_inv)); [by apply triple_gets|]. intros tm.
  destruct (Tokens.allocated_from_active tm t) as [data|]; [|by apply triple_ret].
  case_decide; [by apply triple_ret|].
  eapply (triple_bind _ _ _ (λ _, jd_inv)).
  { apply triple_modify. intros. apply jd_inv_tokens; [done|apply delete_subseteq|done]. }
  intros _. eapply (triple_bind _ _ _ (λ σ jd, jd_inv jd ∧ σ = job_validator jd));
    [by apply triple_gets|]. intros σ.
  eapply (triple_bind _ _ _ (λ v jd, jd_inv jd ∧ v_inv v.2 ∧
    ∀ d, v_view (job_validator jd) d = None → v_view v.2 d = None)).
  { apply triple_unwrap. intros jd [Hi ->].
    destruct (law_set_custom (job_validator jd) (ac_owner data) msg (allocated_token data))
      as (r & σ' & -> & ? & Hv); [by destruct Hi|].
    exists (r, σ'). split_and!; [done..|]. intros d Hd. simpl. rewrite Hv; auto. }
  intros v. eapply (triple_bind _ _ _ (λ _, jd_inv)); [|intros; by apply triple_ret].
  apply triple_modify. intros jd ([] & ? & Hv). split; simpl; try done.
  intros d Hd. apply ji_views0. apply not_eq_None_Some. intros HN. apply Hv in HN.
  rewrite HN in Hd. by destruct Hd.
Qed.

Lemma finish_triple now w answer :
  waiting_ok w → triple jd_inv (finish_waiting now w answer) (λ _, jd_inv).
Proof.
  intros []. eapply (triple_bind _ _ _ (λ _, jd_inv)); [|intros; by apply respond_triple].
  apply triple_modify. intros jd []. 
  destruct (law_finish (job_validator jd) now (w_flight w) answer) as [Hi Hv]; [done..|].
  destruct (v_declare_finish _ _ _ _) as [r σ']. simpl in *. split; simpl; try done.
  intros d Hd. apply ji_views0. apply not_eq_None_Some. intros HN.
  rewrite Hv in Hd by auto. rewrite HN in Hd. by destruct Hd.
Qed.

(** When the message loop panics: a client with an allocated token declares a
    job on which the backend panics. *)
Definition panics (jd : JobDeclarator) (d : N) (msg : JdpRequest) : Prop :=
  ∃ m t, msg = ReqDeclareMiningJob m ∧ connected jd d ∧
    parse_token (mining_job_token m) = Some t ∧
    Tokens.is_allocated (token_manager jd) t d = true ∧ v_malformed m.

Lemma message_panics now d msg jd :
  panics jd d msg → handle_jdp_message coinbase_reward_script now d msg jd = Panic.
Proof.
  intros (m & t & -> & [c Hc] & Ht & Ha & Hm). simpl.
  unfold handle_declare_mining_job, require_client, ok_or, client_sender, gets, validate, unwrap,
    SharedMap.with_, mbind, mret, handler_bind, handler_ret. simpl. rewrite Hc. simpl.
  rewrite Ht. simpl. rewrite Ha. simpl. by apply (law_begin_panic (job_validator jd) d m None) in Hm as ->.
Qed.

(** Every other message is handled, and the loop body restores the invariant. *)
Lemma message_outcome now d msg jd :
  reward_fits → jd_inv jd → ¬ panics jd d msg →
  ∃ outcome, handle_jdp_message coinbase_reward_script now d msg jd = Done outcome ∧
    jd_inv (loop_body None outcome).2 ∧
    ∀ w, (loop_body None outcome).1.2 = Some w → waiting_ok w.
Proof.
  intros Hfit Hi Hnp. assert (∀ m : handler (option Waiting), (∃ r jd', m jd = Done (r, jd') ∧
    match r with Ok w => waits w jd' | Err e => jd_inv (handle_error_action e jd').2 end) →
    ∃ outcome, m jd = Done outcome ∧ jd_inv (loop_body None outcome).2 ∧
      ∀ w, (loop_body None outcome).1.2 = Some w → waiting_ok w) as Hwrap.
  { intros m (r & jd' & -> & Hr). eexists. split; [done|]. destruct r as [w|e]; simpl.
    - by destruct Hr.
    - by destruct (handle_error_action e jd'). }
  assert (∀ m : handler (option Waiting), triple (λ j, j = jd) m waits →
    ∃ r jd', m jd = Done (r, jd') ∧
    match r with Ok w => waits w jd' | Err e => jd_inv (handle_error_action e jd').2 end) as Htr.
  { intros m Hm. destruct (Hm jd eq_refl) as (r & jd' & -> & Hr). eexists _, _. split; [done|].
    destruct r; [done|by apply error_action_inv]. }
  apply Hwrap. destruct msg as [m|m|m|m]; simpl.
  - destruct (allocate_outcome now d m jd Hfit Hi) as (r & jd' & E & Hr).
    unfold mbind, handler_bind. rewrite E. destruct r as [u|e]; eexists _, _; (split; [done|]).
    + by split.
    + destruct Hr as [Hr Ha]. unfold handle_error_action. rewrite Ha. simpl. by apply cleanup_inv.
  - apply Htr. eapply triple_weaken; [apply declare_triple|]. intros j ->. split; [done|].
    intros t Hc Ht Ha Hm. apply Hnp. by exists m, t.
  - apply Htr. eapply triple_weaken; [apply provide_triple|]. by intros j ->.
  - apply Htr. eapply (triple_bind _ _ _ (λ _, jd_inv)).
    + eapply triple_weaken; [apply push_triple|]. by intros j ->.
    + intros _. apply triple_ret. intros j Hj. by split.
Qed.

Lemma jd_step_ok s s' :
  reward_fits → jd_step coinbase_reward_script s s' → jd_ok s → jd_ok s'.
Proof.
  intros Hfit Hs [Hi Hw]. destruct Hs as [s now d msg outcome c w jd' Hl Hm Hb|s now d msg Hl Hm|
    s now w answer outcome c u jd' Hl Hm Hb|s msg identity r jd' Hm|s|s d|s d|s now|s d now|s σ Hb].
  - destruct (message_outcome now d msg (jd s) Hfit Hi) as (o & Ho & Hj & Hwo).
    { intros Hp. apply (message_panics now) in Hp. congruence. }
    rewrite Ho in Hm. injection Hm as ->. rewrite Hb in Hj, Hwo. simpl in Hj, Hwo. split; [done|]. simpl. intros w'.
    destruct c, w; simpl; try done. intros [= <-]. by apply Hwo.
  - split; [done|]. by simpl.
  - destruct (finish_triple now w answer (Hw w Hl) (jd s) Hi) as (r & jd1 & E & Hr).
    rewrite E in Hm. injection Hm as <-. destruct r as [u'|e]; simpl in Hb.
    + injection Hb as <- _ <-. split; [done|]. done.
    + pose proof (error_action_inv e jd1 Hr) as He.
      destruct (handle_error_action e jd1) as [c' jd2]. simplify_eq. split; [done|].
      simpl. by destruct c.
  - destruct (set_custom_triple msg identity (jd s) Hi) as (r' & jd1 & E & Hr).
    rewrite E in Hm. injection Hm as -> ->. split; [|done]. by destruct r.
  - split; [|done]. simpl. destruct Hi. split; simpl; try done; unfold connected; simpl.
    + intros t a Ha. destruct (ji_allocated0 t a Ha) as [?|]; [left|done]. by apply lookup_insert_is_Some'; right.
    + intros t a Ha. destruct (ji_active0 t a Ha) as [?|]; [left|done]. by apply lookup_insert_is_Some'; right.
    + intros d Hd. apply lookup_insert_is_Some'; right. by apply ji_views0.
    + intros d ds rid p [[<- <-]|[_ Hd]]%lookup_insert_Some; [done|]. by eapply ji_pending0.
  - split; [by apply cleanup_keeps_inv|done].
  - split; [|done]. destruct Hi. by split.
  - split; [|done]. apply jd_inv_tokens; [apply SharedMap.retain_subseteq..|done].
  - split; [|done]. apply jd_inv_pending; [|done]. intros ds rid p _ Hp. left. simpl in Hp.
    by apply SharedMap.retain_lookup in Hp as [].
  - split; [|done]. destruct Hi. apply law_background in Hb as [? Hv]; [|done].
    split; simpl; try done. intros d Hd. apply ji_views0. apply not_eq_None_Some. intros HN.
    rewrite Hv in Hd by done. by destruct Hd.
Qed.

Lemma jd_reachable_ok s : reward_fits → jd_reachable coinbase_reward_script s → jd_ok s.
Proof.
  intros Hfit Hr. refine (rtc_ind_r jd_ok _ _ _ s Hr); [|by eauto using jd_step_ok].
  destruct law_init as [? Hv]. split; [|done]. split; simpl; try done.
  intros d. rewrite Hv. by intros [].
Qed.
End invariant.

(** ** The declarator's steps as token-manager operations *)
Section trace.
Context `{BitcoinApi} {VE : JobValidationEngine}.
Variable coinbase_reward_script : list byte.

(** From [tm] to [tm'] with at most [n] operations of the token manager. *)
Definition token_run (n : nat) (tm tm' : TokenManager) : Prop :=
  ∃ ops, (length ops ≤ n)%nat ∧ tm' = (Tokens.run ops tm).2.

Lemma token_run_refl n tm : token_run n tm tm.
Proof. exists []. split; [simpl; lia|done]. Qed.

Lemma token_run_op o tm : token_run 1 tm (Tokens.exec o tm).2.
Proof. exists [o]. split; [done|]. by rewrite Tokens.run_cons_snd. Qed.

Lemma token_run_trans n1 n2 tm1 tm2 tm3 :
  token_run n1 tm1 tm2 → token_run n2 tm2 tm3 → token_run (n1 + n2) tm1 tm3.
Proof.
  intros (ops1 & ? & ->) (ops2 & ? & ->). exists (ops1 ++ ops2).
  rewrite length_app, Tokens.run_app. split; [lia|done].
Qed.

Lemma token_run_le n n' tm tm' : (n ≤ n')%nat → token_run n tm tm' → token_run n' tm tm'.
Proof. intros ? (ops & ? & ->). exists ops. split; [lia|done]. Qed.

Definition issues {A} (n : nat) (m : handler A) : Prop :=
  ∀ jd r jd', m jd = Done (r, jd') → token_run n (token_manager jd) (token_manager jd').

Lemma issues_bind {A B} n1 n2 (m : handler A) (k : A → handler B) :
  issues n1 m → (∀ a, issues n2 (k a)) → issues (n1 + n2) (m ≫= k).
Proof.
  intros Hm Hk jd r jd'. unfold mbind, handler_bind.
  destruct (m jd) as [[[a|e] jd1]|] eqn:E; [|intros [= <- <-]|done].
  - intros E2. eapply token_run_trans; [by eapply Hm|by eapply Hk].
  - eapply token_run_le; [|by eapply Hm]. lia.
Qed.

Lemma issues_same {A} (m : handler A) :
  (∀ jd r jd', m jd = Done (r, jd') → token_manager jd' = token_manager jd) → issues 0 m.
Proof. intros Hm jd r jd' ->%Hm. apply token_run_refl. Qed.

Lemma issues_modify_op {A} (f : JobDeclarator → A * JobDeclarator) :
  (∀ jd, ∃ o, token_manager (f jd).2 = (Tokens.exec o (token_manager jd)).2) →
  issues 1 (modify f).
Proof.
  intros Hf jd r jd'. unfold modify. destruct (Hf jd) as [o Ho]. destruct (f jd). simpl in Ho.
  intros [= <- <-]. rewrite Ho. apply token_run_op.
Qed.

Lemma issues_modify_same {A} (f : JobDeclarator → A * JobDeclarator) :
  (∀ jd, token_manager (f jd).2 = token_manager jd) → issues 0 (modify f).
Proof.
  intros Hf. apply issues_same. intros jd r jd'. unfold modify. specialize (Hf jd).
  destruct (f jd). by intros [= <- <-].
Qed.

Lemma issues_le {A} n n' (m : handler A) : (n ≤ n')%nat → issues n m → issues n' m.
Proof. intros ? Hm jd r jd' E. by eapply token_run_le, Hm. Qed.

Lemma issues_ret {A} n (a : A) : issues n (mret a).
Proof. intros jd r jd' [= <- <-]. apply token_run_refl. Qed.
Lemma issues_fail {A} n e : issues n (@fail _ A e).
Proof. intros jd r jd' [= <- <-]. apply token_run_refl. Qed.
Lemma issues_gets {A} (f : JobDeclarator → A) : issues 0 (gets f).
Proof. by apply issues_same; intros ??? [= <- <-]. Qed.
Lemma issues_ok_or {A} (o : option A) e : issues 0 (ok_or o e).
Proof. destruct o; [apply issues_ret|apply issues_fail]. Qed.
Lemma issues_unwrap {A} (c : rust A) : issues 0 (unwrap c).
Proof. apply issues_same. intros jd r jd'. destruct c; [by intros [= <- <-]|done]. Qed.
Lemma issues_send client channel msg : issues 0 (send_to client channel msg).
Proof. apply issues_same. intros jd r jd'. unfold send_to. by case_decide; intros [= <- <-]. Qed.

Lemma issues_sender client : issues 0 (client_sender client).
Proof. apply (issues_bind 0 0); [apply issues_gets|intros; apply issues_ok_or]. Qed.

Lemma issues_activate now client token rid : issues 1 (activate_and_answer now client token rid).
Proof.
  apply (issues_bind 1 0); [|intros; apply issues_ret]. apply issues_modify_op. intros jd.
  exists (Tokens.OpActivate now token client). simpl. by destruct (Tokens.activate _ _ _ _).
Qed.

Lemma issues_deallocate token rid code : issues 1 (deallocate_and_answer token rid code).
Proof.
  apply (issues_bind 1 0); [|intros; apply issues_ret]. apply issues_modify_op. intros jd.
  by exists (Tokens.OpDeallocate token).
Qed.

Lemma issues_respond now client channel token rid msg retry r :
  issues 1 (respond now client channel token rid msg retry r).
Proof.
  unfold respond. destruct retry; apply (issues_bind 1 0); intros; try apply issues_send;
    destruct r; try apply issues_activate; try apply issues_deallocate.
  apply (issues_le 0); [lia|]. apply (issues_bind 0 0); [|intros; apply (issues_bind 0 0)].
  - apply issues_modify_same. intros jd. by destruct (SharedMap.with_mut _ _ _).
  - apply issues_ok_or.
  - intros. cbv beta zeta. destruct (fits_64k _); [apply issues_ret|apply issues_fail].
Qed.

Lemma issues_validate now client channel token rid msg pmts :
  issues 1 (validate now client channel token rid msg pmts).
Proof.
  apply (issues_bind 0 1); [apply issues_gets|intros σ].
  apply (issues_bind 0 1); [apply issues_unwrap|intros [r|[f σ']]].
  - apply (issues_bind 1 0); [apply issues_respond|intros; apply issues_ret].
  - apply (issues_bind 0 1); [by apply issues_modify_same|intros; apply issues_ret].
Qed.

Lemma issues_message now d msg : issues 1 (handle_jdp_message coinbase_reward_script now d msg).
Proof.
  destruct msg as [m|m|m|m]; simpl.
  - apply (issues_bind 1 0); [|intros; apply issues_ret].
    apply (issues_bind 0 1); [apply issues_ret|intros client].
    apply (issues_bind 1 0).
    + apply issues_modify_op. intros jd.
      by exists (Tokens.OpAllocate now client (user_identifier m)).
    + intros t. cbv beta zeta. apply (issues_bind 0 0); [apply issues_unwrap|intros].
      apply (issues_bind 0 0); [apply issues_sender|intros; apply issues_send].
  - apply (issues_bind 0 1); [apply issues_ret|intros client].
    apply (issues_bind 0 1); [apply issues_sender|intros channel].
    destruct (parse_token _); [|apply (issues_le 0), (issues_bind 0 0); [lia|apply issues_send|
      intros; apply issues_ret]].
    apply (issues_bind 0 1); [apply issues_gets|intros tm]. case_match; [|apply issues_validate].
    apply (issues_le 0), (issues_bind 0 0); [lia|apply issues_send|intros; apply issues_ret].
  - apply (issues_bind 0 1); [apply issues_ret|intros client].
    apply (issues_bind 0 1); [apply issues_sender|intros channel].
    apply (issues_bind 0 1); [apply issues_modify_same; intros jd;
      by destruct (SharedMap.with_mut _ _ _)|intros removed].
    apply (issues_bind 0 1); [apply issues_ok_or|intros mp].
    apply (issues_bind 0 1); [apply issues_ok_or|intros p]. cbv beta zeta.
    apply (issues_bind 0 1); [apply issues_unwrap|intros; apply issues_validate].
  - apply (issues_bind 0 1); [|intros; apply issues_ret].
    apply (issues_bind 0 0); [apply issues_ret|intros]. by apply issues_modify_same.
Qed.

Lemma issues_finish now w answer : issues 1 (finish_waiting now w answer).
Proof.
  apply (issues_bind 0 1); [|intros; apply issues_respond]. apply issues_modify_same.
  intros jd. by destruct (v_declare_finish _ _ _ _).
Qed.

Lemma issues_set_custom msg identity : issues 1 (handle_set_custom_mining_job msg identity).
Proof.
  unfold handle_set_custom_mining_job. destruct (parse_token _) as [t|]; [|apply issues_ret].
  apply (issues_bind 0 1); [apply issues_gets|intros tm].
  destruct (Tokens.allocated_from_active tm t); [|apply issues_ret].
  case_decide; [apply issues_ret|].
  apply (issues_bind 1 0); [by apply issues_modify_op; intros; exists (Tokens.OpDeactivate t)|].
  intros _. apply (issues_bind 0 0); [apply issues_gets|intros].
  apply (issues_bind 0 0); [apply issues_unwrap|intros].
  apply (issues_bind 0 0); [by apply issues_modify_same|intros; apply issues_ret].
Qed.

Lemma error_action_tokens e jd :
  token_run 1 (token_manager jd) (token_manager (handle_error_action e jd).2).
Proof.
  unfold handle_error_action. destruct (action e); simpl; try apply token_run_refl.
  apply (token_run_op (Tokens.OpRemoveDownstream downstream_id)).
Qed.

Lemma loop_body_tokens {A} (a : A) outcome c x jd' :
  loop_body a outcome = (c, x, jd') → token_run 1 (token_manager outcome.2) (token_manager jd').
Proof.
  destruct outcome as [[u|e] jd1]; simpl; [intros [= <- <- <-]; apply token_run_refl|].
  pose proof (error_action_tokens e jd1) as Hr.
  destruct (handle_error_action e jd1). by intros [= <- <- <-].
Qed.

Lemma jd_step_tokens s s' :
  jd_step coinbase_reward_script s s' →
  token_run 2 (token_manager (jd s)) (token_manager (jd s')).
Proof.
  intros [s0 now d msg [r jd1] c w jd' Hl Hm Hb|s0 now d msg Hl Hm|
    s0 now w answer [r jd1] c u jd' Hl Hm Hb|s0 msg identity r jd' Hm|s0|s0 d|s0 d|s0 now|s0 d now|
    s0 σ Hb]; simpl; try apply token_run_refl.
  - eapply (token_run_trans 1 1); [by eapply issues_message|by eapply loop_body_tokens in Hb].
  - eapply (token_run_trans 1 1); [by eapply issues_finish|by eapply loop_body_tokens in Hb].
  - eapply (token_run_le 1); [lia|]. by eapply issues_set_custom.
  - eapply (token_run_le 1); [lia|]. apply (token_run_op (Tokens.OpRemoveDownstream d)).
  - eapply (token_run_le 1); [lia|]. apply (token_run_op (Tokens.OpJanitor now)).
Qed.

Lemma nsteps_tokens n s s' :
  nsteps (jd_step coinbase_reward_script) n s s' →
  token_run (2 * n) (token_manager (jd s)) (token_manager (jd s')).
Proof.
  induction 1 as [|n s1 s2 s3 Hs _ IH]; [apply token_run_refl|].
  replace (2 * S n)%nat with (2 + 2 * n)%nat by lia.
  eapply token_run_trans; [by apply jd_step_tokens|done].
Qed.

(** A dead token stays dead. *)
Lemma token_run_dead n tm tm' t :
  Tokens.wf tm → Tokens.below_wrap tm n → token_run n tm tm' →
  Tokens.status tm t = Tokens.Dead → active_tokens tm' !! t = None.
Proof.
  intros Hwf Hb (ops & Hl & ->) Hd.
  destruct (Tokens.run_invariant ops tm 0) as (_ & _ & Hlc); [done|eapply Tokens.below_wrap_le; [|done]; lia|].
  specialize (Hlc t). rewrite Hd in Hlc. by apply Tokens.dead_terminal, Tokens.status_dead in Hlc as [].
Qed.

Lemma reachable_tokens_wf n s :
  nsteps (jd_step coinbase_reward_script) n {| jd := new_declarator; loop := Idle |} s →
  ∀ m, N.of_nat (2 * n + m) < u64_modulus →
  Tokens.wf (token_manager (jd s)) ∧ Tokens.below_wrap (token_manager (jd s)) m.
Proof.
  intros (ops & Hl & ->)%nsteps_tokens m Hb.
  destruct (Tokens.run_invariant ops (token_manager new_declarator) m) as (? & ? & _);
    [apply Tokens.new_wf| |done].
  unfold Tokens.below_wrap. simpl in *. lia.
Qed.
End trace.

(** ** Properties *)
Section properties.
Context `{BitcoinApi} {VE : JobValidationEngine} `{!EngineLaws VE}.
Variable coinbase_reward_script : list byte.
Notation step := (jd_step coinbase_reward_script).

Lemma set_custom_eq msg identity (jd : JobDeclarator) :
  handle_set_custom_mining_job msg identity jd =
  match parse_token (scmj_token msg) ≫= λ t, (λ data, (t, data)) <$>
          active_tokens (token_manager jd) !! t with
  | Some (t, data) =>
      if decide (identity = ac_user_identity data) then
        match v_set_custom (job_validator jd) (ac_owner data) msg (allocated_token data) with
        | Panic => Panic
        | Done (verdict, σ) =>
            Done (Ok (match verdict with
                      | CustomSuccess => ScmjOk (scmj_channel_id msg) (scmj_request_id msg) 0
                      | CustomError code =>
                          ScmjError (scmj_request_id msg) (scmj_channel_id msg) code
                      end),
                  set_validator (set_tokens jd (Tokens.deactivate (token_manager jd) t)) σ)
        end
      else Done (Ok (ScmjError (scmj_request_id msg) (scmj_channel_id msg)
                       CustomInvalidMiningJobToken), jd)
  | None => Done (Ok (ScmjError (scmj_request_id msg) (scmj_channel_id msg)
                        CustomInvalidMiningJobToken), jd)
  end.
Proof.
  unfold handle_set_custom_mining_job, Tokens.allocated_from_active, SharedMap.with_.
  destruct (parse_token _) as [t|]; [|done]. unfold gets, modify, unwrap, mbind, mret,
    handler_bind, handler_ret. simpl.
  destruct (active_tokens (token_manager jd) !! t) as [data|]; [|done]. simpl.
  destruct (decide (identity = ac_user_identity data)) as [->|].
  - rewrite decide_False by (by intros []). simpl.
    by destruct (v_set_custom _ _ _ _) as [[verdict σ]|].
  - by rewrite decide_True.
Qed.

Lemma declare_panics now d m jd :
  jd_inv_but None jd → handle_declare_mining_job now (Some d) m jd = Panic →
  panics jd d (ReqDeclareMiningJob m).
Proof.
  intros Hi. unfold handle_declare_mining_job, require_client, ok_or, client_sender, gets,
    SharedMap.with_, validate, unwrap, mbind, mret, handler_bind, handler_ret. simpl.
  destruct (downstream_client_senders jd !! d) as [c|] eqn:Ec; simpl; [|done].
  destruct (parse_token (mining_job_token m)) as [t|] eqn:Et.
  2: { unfold send_to. by case_decide. }
  destruct (Tokens.is_allocated (token_manager jd) t d) eqn:Ea; simpl.
  2: { unfold send_to. by case_decide. }
  destruct (v_declare_begin (job_validator jd) d m None) as [[r|[f σ]]|] eqn:Eb; try done.
  - destruct (declare_response_triple now d c t m r) with (jd := jd)
      as (r' & jd' & -> & _); [|done|by destruct r'].
    split; [by eexists|]. intros Hm. apply (law_begin_panic (job_validator jd) d m None) in Hm.
    congruence.
  - intros _. exists m, t. split_and!; [done|by eexists|done..|]. by eapply law_begin_panic.
Qed.

(** C28: the message loop panics on exactly one kind of message: a declaration
    from a connected client, under a token allocated to that client, on which
    the validation backend panics.  In particular the token of a pending
    declaration is always readable, and providing missing transactions,
    allocating tokens and pushing solutions never panic. *)
Theorem jds_panics_iff s now d msg :
  reward_fits coinbase_reward_script → jd_reachable coinbase_reward_script s →
  handle_jdp_message coinbase_reward_script now d msg (jd s) = Panic ↔ panics (jd s) d msg.
Proof.
  intros Hfit [Hi _]%jd_reachable_ok; [|done]. split; [|apply message_panics].
  intros Hp. destruct msg as [m|m|m|m]; [|by eapply declare_panics|..].
  all: match type of Hp with handle_jdp_message _ _ _ ?msg _ = _ =>
    destruct (message_outcome coinbase_reward_script now d msg (jd s)) as (o & Ho & _);
      [done|done|by intros (m' & ? & ? & _)|congruence] end.
Qed.

(** C29: no token and no validation state outlives its connection: in every
    reachable state, between the loop's steps, the owner of each allocated or
    active token and each client the backend keeps state for is connected. *)
Theorem no_state_outlives_connection s :
  reward_fits coinbase_reward_script → jd_reachable coinbase_reward_script s →
  (∀ t a, allocated_tokens (token_manager (jd s)) !! t = Some a → connected (jd s) (al_owner a)) ∧
  (∀ t a, active_tokens (token_manager (jd s)) !! t = Some a → connected (jd s) (ac_owner a)) ∧
  (∀ d, is_Some (v_view (job_validator (jd s)) d) → connected (jd s) d).
Proof.
  intros Hfit [[] _]%jd_reachable_ok; [|done]. split_and!; [| |done].
  - intros t a Ha. by destruct (ji_allocated0 t a Ha).
  - intros t a Ha. by destruct (ji_active0 t a Ha).
Qed.

(** [cleanup_downstream] removes everything of its client - registration,
    sender, tokens, validation state - cancels its tasks, and touches nothing
    of any other client. *)
Theorem cleanup_downstream_exact d d' (j : JobDeclarator) :
  v_inv (job_validator j) →
  let j' := cleanup_downstream d j in
  (d' = d → downstream_clients j' !! d' = None ∧ downstream_client_senders j' !! d' = None ∧
     v_view (job_validator j') d' = None ∧
     (is_Some (downstream_clients j !! d') → d' ∈ cancelled j')) ∧
  (d' ≠ d → downstream_clients j' !! d' = downstream_clients j !! d' ∧
     downstream_client_senders j' !! d' = downstream_client_senders j !! d' ∧
     v_view (job_validator j') d' = v_view (job_validator j) d' ∧
     (d' ∈ cancelled j' ↔ d' ∈ cancelled j)) ∧
  (∀ t a, allocated_tokens (token_manager j') !! t = Some a ↔
     allocated_tokens (token_manager j) !! t = Some a ∧ al_owner a ≠ d) ∧
  (∀ t a, active_tokens (token_manager j') !! t = Some a ↔
     active_tokens (token_manager j) !! t = Some a ∧ ac_owner a ≠ d) ∧
  outbox j' = outbox j.
Proof.
  intros Hinv. destruct (law_cleanup _ d Hinv) as (_ & Hd & Hv). split_and!; simpl.
  - intros ->. split_and!; [apply lookup_delete_eq..|done|].
    intros [x ->]. simpl. set_solver.
  - intros Hne. rewrite !lookup_delete_ne by done. split_and!; auto.
    destruct (downstream_clients j !! d); simpl; set_solver.
  - intros t a. by rewrite SharedMap.retain_lookup, bool_decide_eq_true.
  - intros t a. by rewrite SharedMap.retain_lookup, bool_decide_eq_true.
  - done.
Qed.

(** The pool cannot set a job under a token of someone else: when the
    identity of the presenting channel is not the one bound to the token, the
    request is refused and nothing changes - the backend is not consulted and
    the token stays active. *)
Theorem set_custom_identity_checked msg identity t data (j : JobDeclarator) :
  parse_token (scmj_token msg) = Some t →
  active_tokens (token_manager j) !! t = Some data → identity ≠ ac_user_identity data →
  handle_set_custom_mining_job msg identity j =
    Done (Ok (ScmjError (scmj_request_id msg) (scmj_channel_id msg) CustomInvalidMiningJobToken), j).
Proof.
  intros Ht Hd Hne. rewrite set_custom_eq, Ht. simpl. rewrite Hd. simpl.
  by rewrite decide_False.
Qed.

(** An active token reaches the backend once: after a request with the
    bound identity, whatever the verdict, and any further steps of the server
    (fewer than the 64-bit token counter can count), a request with the same
    token is refused, whoever presents it. *)
Theorem active_token_single_use n m s t data msg msg' identity' r j' s' :
  nsteps step n {| jd := new_declarator; loop := Idle |} s →
  parse_token (scmj_token msg) = Some t → scmj_token msg' = scmj_token msg →
  active_tokens (token_manager (jd s)) !! t = Some data →
  handle_set_custom_mining_job msg (ac_user_identity data) (jd s) = Done (r, j') →
  nsteps step m {| jd := j'; loop := loop s |} s' →
  N.of_nat (2 * n + S (2 * m)) < u64_modulus →
  handle_set_custom_mining_job msg' identity' (jd s') =
    Done (Ok (ScmjError (scmj_request_id msg') (scmj_channel_id msg') CustomInvalidMiningJobToken),
          jd s').
Proof.
  intros Hn Ht Htok Hd Hset Hm Hb.
  apply nsteps_tokens in Hm.
  destruct (reachable_tokens_wf _ n s Hn _ Hb) as [Hwf Hbw].
  rewrite set_custom_eq, Ht in Hset. simpl in Hset. rewrite Hd in Hset. simpl in Hset.
  rewrite decide_True in Hset by done.
  destruct (v_set_custom _ _ _ _) as [[verdict σ]|]; [|done]. injection Hset as _ <-.
  simpl in Hm. set (tm := Tokens.deactivate _ t) in *.
  assert (active_tokens (token_manager (jd s')) !! t = None) as Hnone.
  { eapply (token_run_dead _ tm); [by apply Tokens.deactivate_wf| |done|].
    - apply (Tokens.exec_below_wrap (Tokens.OpDeactivate t)). done.
    - unfold Tokens.status, tm. simpl. rewrite lookup_delete_eq.
      destruct (allocated_tokens (token_manager (jd s)) !! t) eqn:Ea.
      + by rewrite (Tokens.wf_disjoint _ Hwf _ _ Ea) in Hd.
      + by rewrite (proj2 (N.ltb_lt _ _)) by (apply (Tokens.wf_active _ Hwf); by eexists). }
  rewrite set_custom_eq, Htok, Ht. simpl. by rewrite Hnone.
Qed.

(** The positions in [ProvideMissingTransactions] are right: for missing
    wtxids of the declared list, of at most the 65536 entries a position can
    name, each position points at its wtxid, in the order of the missing list. *)
Theorem unknown_tx_positions_correct missing declared :
  missing ⊆ declared → N.of_nat (length declared) <= 65536 →
  Forall2 (λ w p, declared !! N.to_nat p = Some w ∧ p < 65536)
    missing (unknown_tx_positions missing declared).
Proof.
  intros Hsub Hlen. induction missing as [|w missing IH]; [constructor|].
  unfold unknown_tx_positions, position. simpl.
  destruct (list_find (λ x, x = w) declared) as [[i w']|] eqn:E; simpl.
  - apply list_find_Some in E as (Hi & -> & _). pose proof (lookup_lt_Some _ _ _ Hi).
    constructor; [|apply IH; set_solver]. rewrite N.mod_small by lia.
    split; [by rewrite Nat2N.id|lia].
  - apply list_find_None in E. rewrite Forall_forall in E.
    destruct (E w); [set_solver|done].
Qed.
End properties.

(** ** The answers to declarations *)
Section answers.
Context `{BitcoinApi} {VE : JobValidationEngine}.

Definition answered (j j' : JobDeclarator) (w : Waiting) (r : DeclareMiningJobResult)
    (msg : JdpMessage) : Prop :=
  match msg with
  | DeclareMiningJobSuccess rid token =>
      rid = w_request_id w ∧ r = DeclareSuccess ∧
      ∃ a data old, token = print_token a ∧
        active_tokens (token_manager j') !! a = Some data ∧
        allocated_token data = w_token w ∧ ac_owner data = w_client w ∧
        allocated_tokens (token_manager j) !! w_token w = Some old ∧
        ac_user_identity data = al_user_identity old ∧
        allocated_tokens (token_manager j') !! w_token w = None
  | DeclareMiningJobError rid code =>
      rid = w_request_id w ∧
      Tokens.is_allocated (token_manager j') (w_token w) (w_client w) = false ∧
      active_tokens (token_manager j') = active_tokens (token_manager j)
  | ProvideMissingTransactions rid positions =>
      rid = w_request_id w ∧ token_manager j' = token_manager j ∧
      (∃ missing, r = DeclareMissingTransactions missing ∧
         positions = unknown_tx_positions missing (wtxid_list (w_msg w))) ∧
      ∃ ds now, downstream_clients j' !! w_client w = Some ds ∧
        pending_declare_mining_jobs ds !! rid = Some (now, w_msg w)
  | AllocateMiningJobTokenSuccess _ _ _ => False
  end.

Lemma handler_bind_ok {A B} (m : handler A) (k : A → handler B) j b j' :
  (m ≫= k) j = Done (Ok b, j') →
  ∃ a j1, m j = Done (Ok a, j1) ∧ k a j1 = Done (Ok b, j').
Proof.
  unfold mbind, handler_bind. destruct (m j) as [[[a|e] j1]|]; [eauto|done|done].
Qed.

Lemma send_to_ok client channel msg j j' :
  send_to client channel msg j = Done (Ok tt, j') → j' = set_outbox j (outbox j ++ [(channel, msg)]).
Proof. unfold send_to. case_decide; naive_solver. Qed.

(** The answer after an activation, before it is sent. *)
Lemma activate_answered now w j msg j1 out :
  activate_and_answer now (w_client w) (w_token w) (w_request_id w) j = Done (Ok msg, j1) →
  outbox j1 = outbox j ∧ answered j (set_outbox j1 out) w DeclareSuccess msg.
Proof.
  unfold activate_and_answer, modify, mbind, mret, handler_bind, handler_ret.
  destruct (Tokens.activate (token_manager j) now (w_token w) (w_client w)) as [r tm] eqn:E.
  intros [= <- <-]. split; [done|].
  apply Tokens.activate_cases in E as [(-> & -> & Hn)|(data & -> & Hd & Ho & ->)]; simpl.
  - split_and!; [done| |done]. apply not_true_is_false.
    rewrite Tokens.is_allocated_spec. intros (data & Hd & Hc). by eapply Hn.
  - split_and!; [done..|]. eexists _, _, data.
    rewrite lookup_insert_eq, lookup_delete_eq. by split_and!.
Qed.

Lemma deallocate_answered w code j msg j1 r out :
  deallocate_and_answer (w_token w) (w_request_id w) code j = Done (Ok msg, j1) →
  outbox j1 = outbox j ∧ answered j (set_outbox j1 out) w r msg.
Proof.
  intros [= <- <-]. split; [done|]. simpl. split_and!; [done| |done].
  unfold Tokens.is_allocated, Tokens.deallocate, SharedMap.with_. simpl.
  by rewrite lookup_delete_eq.
Qed.

Lemma pending_answered now w missing j msg j1 out :
  dmj_request_id (w_msg w) = w_request_id w →
  (inserted ← modify (λ jd,
     let '(r, cs) := SharedMap.with_mut (downstream_clients jd) (w_client w) (λ ds,
       (tt, {| negotiated_extensions := negotiated_extensions ds;
               pending_declare_mining_jobs :=
                 (SharedMap.insert (pending_declare_mining_jobs ds)
                    (dmj_request_id (w_msg w)) (now, w_msg w)).2 |})) in
     (r, set_clients jd cs));
   ok_or inserted (disconnect_error (ClientNotFound (w_client w)) (w_client w));;
   let positions := unknown_tx_positions missing (wtxid_list (w_msg w)) in
   if fits_64k positions
   then mret (ProvideMissingTransactions (dmj_request_id (w_msg w)) positions)
   else fail (shutdown_error BinarySv2)) j = Done (Ok msg, j1) →
  outbox j1 = outbox j ∧ answered j (set_outbox j1 out) w (DeclareMissingTransactions missing) msg.
Proof.
  intros Hr (inserted & j2 & E1 & (u & j3 & E2 & E3)%handler_bind_ok)%handler_bind_ok.
  revert E1. unfold modify, SharedMap.with_mut.
  destruct (downstream_clients j !! w_client w) as [ds|] eqn:Ed; intros [= <- <-]; [|done].
  injection E2 as <- <-. cbv beta zeta in E3. destruct (fits_64k _); [|done].
  injection E3 as <- <-. split; [done|]. simpl. rewrite Hr. split_and!; [done..|by eexists|].
  eexists _, now. rewrite lookup_insert_eq. split; [done|]. simpl. apply lookup_insert_eq.
Qed.

Lemma respond_answered now w r j j' :
  dmj_request_id (w_msg w) = w_request_id w →
  respond now (w_client w) (w_channel w) (w_token w) (w_request_id w) (w_msg w) (w_is_retry w) r j
    = Done (Ok tt, j') →
  ∃ msg, outbox j' = outbox j ++ [(w_channel w, msg)] ∧ answered j j' w r msg.
Proof.
  intros Hr. unfold respond, declare_response, provide_response.
  destruct (w_is_retry w); rewrite ?Hr; intros (msg & j1 & E & ->%send_to_ok)%handler_bind_ok;
    exists msg; cbn [outbox set_outbox].
  - destruct r; [eapply activate_answered in E as [-> ?]; by split|
      eapply deallocate_answered in E as [-> ?]; by split..].
  - destruct r; [eapply activate_answered in E as [-> ?]; by split|
      eapply deallocate_answered in E as [-> ?]; by split|].
    rewrite <-Hr in E. eapply (pending_answered _ _ _ _ _ _ _ Hr) in E as [-> ?]. by split.
Qed.

(** Every declaration that the backend answered and whose answer could be
    sent is answered once, on the client's channel. A success carries a new
    active token of this client, bound to the identity its allocated token was
    allocated to, and consumes the allocated token; an error leaves the client
    without the token; a request for transactions leaves the token allocated
    and the declaration pending under its request id. *)
Theorem declaration_answered now w answer (j j' : JobDeclarator) :
  dmj_request_id (w_msg w) = w_request_id w →
  finish_waiting now w answer j = Done (Ok tt, j') →
  ∃ msg, outbox j' = outbox j ++ [(w_channel w, msg)] ∧
    answered j j' w (v_declare_finish (job_validator j) now (w_flight w) answer).1 msg.
Proof.
  intros Hr (r & j1 & E & Hf)%handler_bind_ok. revert E. unfold modify.
  destruct (v_declare_finish _ _ _ _) as [r' σ]. intros [= <- <-].
  by apply respond_answered in Hf.
Qed.
End answers.

(** ** The declarator with the Bitcoin Core engine *)
Section end_to_end.
Context `{BitcoinApi}.

(** The pool may set a custom job exactly when its token is active, bound
    to the presenting identity, and the token's owner declared a job under the
    allocated token that Bitcoin Core validated and that the message agrees
    with in every field that describes the job; nobody looks at its
    [ntime_start]. *)
Theorem custom_job_accepted_iff msg identity (j : JobDeclarator) :
  (∃ j', handle_set_custom_mining_job msg identity j =
     Done (Ok (ScmjOk (scmj_channel_id msg) (scmj_request_id msg) 0), j')) ↔
  ∃ t data job, parse_token (scmj_token msg) = Some t ∧
    active_tokens (token_manager j) !! t = Some data ∧ identity = ac_user_identity data ∧
    job_of_token (downstream_states (job_validator j)) (ac_owner data) (allocated_token data)
      = Some job ∧
    custom_matches job msg.
Proof.
  rewrite set_custom_eq. destruct (parse_token _) as [t|]; simpl; [|naive_solver].
  destruct (active_tokens (token_manager j) !! t) as [data|] eqn:Ed; simpl; [|naive_solver].
  pose proof (engine_accepts_iff (downstream_states (job_validator j)) (ac_owner data) msg
    (allocated_token data)) as Hiff.
  case_decide as Hid; [|naive_solver]. split.
  - intros [j' E]. destruct (engine_set_custom _ _ _ _) as [[v es]|]; [|done]. simpl in E.
    destruct v; [|done]. destruct Hiff as [(job & ? & ?) _]; [by eexists|]. by exists t, data, job.
  - intros (t' & data' & job & [= <-] & Hd & _ & Hj & Hm). simplify_eq.
    destruct Hiff as [_ [es ->]]; [by eexists|]. by eexists.
Qed.
End end_to_end.

Module DeclaratorExamples.
#[local] Existing Instance bytes_api.
#[local] Existing Instance bytes_varint.

(** A message, and the backend's answer to the waiting handler, run. *)
Definition do_message (now d : N) (msg : JdpRequest) (s : JdSystem) : JdSystem :=
  match loop s, handle_jdp_message [] now d msg (jd s) with
  | Idle, Done outcome =>
      let '(c, w, jd') := loop_body None outcome in {| jd := jd'; loop := loop_of c w |}
  | _, _ => s
  end.

Definition do_answer (now : N) (answer : VAnswer) (s : JdSystem) : JdSystem :=
  match loop s with
  | Awaiting w =>
      match finish_waiting now w answer (jd s) with
      | Done outcome =>
          let '(c, _, jd') := loop_body tt outcome in {| jd := jd'; loop := loop_of c None |}
      | Panic => s
      end
  | _ => s
  end.

(** The loop is idle, the handler returns. *)
Definition handles (now d : N) (msg : JdpRequest) (s : JdSystem) : bool :=
  match loop s with Idle => done_b (handle_jdp_message [] now d msg (jd s)) | _ => false end.

(** A handler waits, and sends its answer. *)
Definition answers (now : N) (answer : VAnswer) (s : JdSystem) : bool :=
  match loop s with
  | Awaiting w => match finish_waiting now w answer (jd s) with
                  | Done (Ok _, _) => true
                  | _ => false
                  end
  | _ => false
  end.

Lemma do_message_step now d msg s :
  handles now d msg s = true → jd_step [] s (do_message now d msg s).
Proof.
  unfold handles, do_message. destruct (loop s) eqn:Hl; try done.
  destruct (handle_jdp_message [] now d msg (jd s)) as [o|] eqn:E; [|done]. intros _.
  destruct (loop_body None o) as [[c w] jd'] eqn:Eb. by eapply jd_message.
Qed.

Lemma do_answer_finish now answer s :
  answers now answer s = true →
  ∃ w, loop s = Awaiting w ∧
    finish_waiting now w answer (jd s) = Done (Ok tt, jd (do_answer now answer s)) ∧
    jd_step [] s (do_answer now answer s).
Proof.
  unfold answers, do_answer. destruct (loop s) as [|w|] eqn:Hl; try done.
  destruct (finish_waiting now w answer (jd s)) as [[[[]|e] j]|] eqn:E; try done.
  intros _. exists w. split_and!; [done..|]. by eapply (jd_answer _ _ _ _ _ (Ok tt, j)).
Qed.

(** A client connects, allocates token 0, declares a job under it, Bitcoin
    Core validates it, and the client holds the active token 1. *)
Definition demo_declare : DeclareMiningJob :=
  {| dmj_request_id := 5; mining_job_token := print_token 0; dmj_version := 2;
     coinbase_tx_prefix := replicate 43 x00 ++ [x05; x01; x02];
     coinbase_tx_suffix := [xff]; wtxid_list := [100; 200] |}.

Definition validated_answer : option JdResponse := Some (JdSuccess 7 1 [1100; 1200]).

Definition s0 : JdSystem := {| jd := new_declarator; loop := Idle |}.
Definition s1 : JdSystem := {| jd := (accept_downstream (jd s0)).2; loop := Idle |}.
Definition demo_allocate : JdpRequest :=
  ReqAllocateMiningJobToken {| amjt_request_id := 4; user_identifier := "farm"%string |}.
Definition s2 : JdSystem := do_message 1 0 demo_allocate s1.
Definition s3 : JdSystem := do_message 2 0 (ReqDeclareMiningJob demo_declare) s2.
Definition s4 : JdSystem := do_answer 3 validated_answer s3.

Definition demo_custom : SetCustomMiningJob :=
  {| scmj_channel_id := 0; scmj_request_id := 1; scmj_token := print_token 1;
     scmj_version := 2; scmj_prev_hash := 7; scmj_ntime_start := 0; scmj_nbits := 1; coinbase_tx_version := 2;
     coinbase_prefix := [x01; x02]; coinbase_tx_input_n_sequence := 7;
     coinbase_tx_outputs := [x00]; coinbase_tx_locktime := 0;
     merkle_path := [1100; 32 * 1200] |}.

Definition demo_active : ActiveTokenData :=
  {| allocated_token := 0; activated_at := 3; ac_owner := 0; ac_user_identity := "farm"%string |}.

Lemma s2_reached : nsteps (jd_step []) 2 s0 s2.
Proof.
  apply (nsteps_l _ _ s0 s1); [exact (jd_connect [] s0)|].
  apply nsteps_once. apply (do_message_step 1 0 demo_allocate s1). vm_eq.
Qed.

Lemma s3_reached : nsteps (jd_step []) 3 s0 s3.
Proof.
  apply (nsteps_r 2 s0 s2); [exact s2_reached|].
  apply (do_message_step 2 0 (ReqDeclareMiningJob demo_declare) s2). vm_eq.
Qed.

Lemma s3_answers : answers 3 validated_answer s3 = true.
Proof. vm_eq. Qed.

Lemma s4_reached : nsteps (jd_step []) 4 s0 s4.
Proof.
  apply (nsteps_r 3 s0 s3); [exact s3_reached|].
  by destruct (do_answer_finish 3 validated_answer s3 s3_answers) as (w & _ & _ & Hs).
Qed.

Lemma s2_reachable : jd_reachable [] s2.
Proof. apply rtc_nsteps; eexists; exact s2_reached. Qed.
Lemma s3_reachable : jd_reachable [] s3.
Proof. apply rtc_nsteps; eexists; exact s3_reached. Qed.
Lemma s4_reachable : jd_reachable [] s4.
Proof. apply rtc_nsteps; eexists; exact s4_reached. Qed.
Lemma s4_active : active_tokens (token_manager (jd s4)) !! 1 = Some demo_active.
Proof. vm_eq. Qed.

Lemma reward_ok : reward_fits [].
Proof. done. Qed.

(** A declaration with a two-byte coinbase prefix. *)
Definition short_declare : DeclareMiningJob :=
  {| dmj_request_id := 5; mining_job_token := print_token 0; dmj_version := 2;
     coinbase_tx_prefix := [x01; x00]; coinbase_tx_suffix := []; wtxid_list := [] |}.

Lemma jds_panics_iff_witness :
  jd_reachable [] s2 ∧
  handle_jdp_message [] 3 0 (ReqDeclareMiningJob short_declare) (jd s2) = Panic.
Proof.
  split; [exact s2_reachable|].
  apply (jds_panics_iff [] s2 3 0 (ReqDeclareMiningJob short_declare)); [done|exact s2_reachable|].
  exists short_declare, 0. split_and!; [done| |vm_eq|vm_eq|split].
  - exists 0. vm_eq.
  - exists 0. vm_eq.
  - vm_eq.
Defined.

Lemma no_state_outlives_connection_witness :
  jd_reachable [] s4 ∧ connected (jd s4) 0.
Proof.
  split; [exact s4_reachable|].
  exact (proj1 (proj2 (no_state_outlives_connection [] s4 reward_ok s4_reachable)) 1 demo_active
    s4_active).
Defined.

Lemma cleanup_downstream_exact_witness :
  active_tokens (token_manager (cleanup_downstream 0 (jd s4))) !! 1 = None.
Proof.
  pose proof (ji_engine _ _ (proj1 (jd_reachable_ok [] s4 reward_ok s4_reachable))) as Hinv.
  destruct (cleanup_downstream_exact 0 0 (jd s4) Hinv) as (_ & _ & _ & Ha & _).
  apply eq_None_not_Some. intros [a [Hs Hne]%Ha]. rewrite s4_active in Hs.
  injection Hs as <-. by apply Hne.
Defined.

Lemma set_custom_identity_checked_witness :
  handle_set_custom_mining_job demo_custom "thief"%string (jd s4) =
    Done (Ok (ScmjError 1 0 CustomInvalidMiningJobToken), jd s4).
Proof.
  apply (set_custom_identity_checked demo_custom "thief"%string 1 demo_active (jd s4));
    [vm_eq|exact s4_active|done].
Defined.

Definition s5 : result SetCustomMiningJobResponse JDSError * JobDeclarator :=
  done_or (Err (shutdown_error Io), jd s4)
    (handle_set_custom_mining_job demo_custom "farm"%string (jd s4)).

Lemma active_token_single_use_witness :
  s5.1 = Ok (ScmjOk 0 1 0) ∧
  handle_set_custom_mining_job demo_custom "farm"%string s5.2 =
    Done (Ok (ScmjError 1 0 CustomInvalidMiningJobToken), s5.2).
Proof.
  split; [vm_eq|].
  apply (active_token_single_use [] 4 0 s4 1 demo_active demo_custom demo_custom "farm"%string
    s5.1 s5.2 {| jd := s5.2; loop := loop s4 |});
    [exact s4_reached|vm_eq|done|exact s4_active| |constructor|done].
  transitivity (Done s5); [apply done_or_eq; vm_eq|by destruct s5].
Defined.

Lemma unknown_tx_positions_correct_witness :
  Forall2 (λ w p, [10; 20; 30] !! N.to_nat p = Some w ∧ p < 65536) [20; 30]
    (unknown_tx_positions [20; 30] [10; 20; 30]).
Proof. apply unknown_tx_positions_correct; [set_solver|done]. Defined.

Lemma declaration_answered_witness :
  ∃ w msg, loop s3 = Awaiting w ∧ outbox (jd s4) = outbox (jd s3) ++ [(w_channel w, msg)] ∧
    answered (jd s3) (jd s4) w
      (v_declare_finish (job_validator (jd s3)) 3 (w_flight w) validated_answer).1 msg.
Proof.
  destruct (do_answer_finish 3 validated_answer s3 s3_answers) as (w & Hl & Hf & _).
  destruct (proj2 (jd_reachable_ok [] s3 reward_ok s3_reachable) w Hl) as [_ _ _ _ Hr].
  destruct (declaration_answered 3 w validated_answer (jd s3) (jd s4) Hr Hf) as (msg & ? & ?).
  by exists w, msg.
Defined.
End DeclaratorExamples.
