(* ===== verification/Payout.v ===== *)
(** * Payout modes ([stratum-apps/src/payout.rs])

    How a mining [user_identity] encodes who is paid, what coinbase outputs
    the pool builds for it, and how a miner's proxy verifies the coinbase of
    an upstream job ([translator/src/lib/config.rs],
    [pool/src/lib/downstream/mod.rs]).  Amounts are [u64] satoshis with
    wrapping arithmetic.  Address parsing (the [miniscript] descriptor behind
    [CoinbaseRewardScript::from_descriptor]) and [Script::is_op_return] are
    parameters; a reward script is its script_pubkey. *)
From Stdlib Require Import Ascii.
From stdpp Require Import pretty.
From S2P Require Import Prelude Bitcoin.

Class AddressApi : Type := {
  (** [CoinbaseRewardScript::from_descriptor("addr(..)")]. *)
  script_of_address : string → option (list byte);
  (** [Script::is_op_return]. *)
  is_op_return : list byte → bool;
}.

(** An address contains no slash (base58 and bech32 have none), and pays to a
    spendable script. *)
Class AddressLaws (A : AddressApi) : Prop := {
  law_no_slash : ∀ a s, script_of_address a = Some s → "/"%char ∉ String.list_ascii_of_string a;
  law_spendable : ∀ a s, script_of_address a = Some s → is_op_return s = false;
}.

Definition MIN_LEGACY_SOLO_PAYOUT_PERCENTAGE : N := 90.

Inductive PayoutMode : Type :=
| Solo (address : string) (script : list byte)
| LegacySolo (address : string) (script : list byte)
| Donate (percentage : N) (address : string) (script : list byte)
| FullDonation.

Inductive MissingMinerPayoutMode : Type := MissingFullDonation | MissingNoPayoutMode.

Inductive PayoutModeError : Type :=
| NoPayoutMode (user_identity : string)
| InvalidUserIdentity (user_identity : string)
| InvalidPayoutAddress (address : string)
| InvalidDonationPercentage (percentage : string)
| MissingMinerPayout (user_identity : string) (mode : MissingMinerPayoutMode).

Inductive PayoutValidationError : Type :=
| NoSpendableOutputs
| PayoutMismatch (address : string) (expected_sats expected_percentage total_spendable_sats
    actual_sats : N)
| DecodeCoinbaseTransaction.

#[export] Instance PayoutMode_eq_dec : EqDecision PayoutMode.
Proof. solve_decision. Defined.
#[export] Instance MissingMinerPayoutMode_eq_dec : EqDecision MissingMinerPayoutMode.
Proof. solve_decision. Defined.
#[export] Instance PayoutModeError_eq_dec : EqDecision PayoutModeError.
Proof. solve_decision. Defined.
#[export] Instance PayoutValidationError_eq_dec : EqDecision PayoutValidationError.
Proof. solve_decision. Defined.

(** [str::split('/')]: the parts between separators, one more than there are
    separators. *)
Fixpoint split_on (sep : ascii) (s : string) : list string :=
  match s with
  | EmptyString => [EmptyString]
  | String c rest =>
      let parts := split_on sep rest in
      if Ascii.eqb c sep then EmptyString :: parts
      else match parts with
           | p :: ps => String c p :: ps
           | [] => [String c EmptyString]
           end
  end.

(** [str::split_once(sep)]'s first part, or all of the string. *)
Fixpoint before_sep (sep : ascii) (s : string) : string :=
  match s with
  | EmptyString => EmptyString
  | String c rest => if Ascii.eqb c sep then EmptyString else String c (before_sep sep rest)
  end.

(** [address_part_from_user_identity]. *)
Definition address_part_from_user_identity (s : string) : string := before_sep "." s.

(** [str::parse::<u8>]: an optional plus sign, at least one digit, no value
    above 255. *)
Definition digit (c : ascii) : option N :=
  let n := N_of_ascii c in
  if ((48 <=? n) && (n <=? 57))%N then Some (n - 48) else None.

Fixpoint parse_digits (s : string) (acc : N) : option N :=
  match s with
  | EmptyString => Some acc
  | String c rest =>
      d ← digit c;
      let acc' := acc * 10 + d in
      if (255 <? acc')%N then None else parse_digits rest acc'
  end.

Definition parse_u8 (s : string) : option N :=
  match s with
  | EmptyString => None
  | String "+" EmptyString => None
  | String "+" rest => parse_digits rest 0
  | _ => parse_digits s 0
  end.

Section payout.
Context `{BitcoinApi} `{AddressApi}.

(** [script_from_address]. *)
Definition script_from_address (address : string) : result (list byte) PayoutModeError :=
  match script_of_address address with
  | Some script => Ok script
  | None => Err (InvalidPayoutAddress address)
  end.

(** [PayoutMode::try_from]. *)
Definition try_from (user_identity : string) : result PayoutMode PayoutModeError :=
  if decide (user_identity = EmptyString) then Err (NoPayoutMode user_identity)
  else
    let addr := address_part_from_user_identity user_identity in
    match script_from_address addr with
    | Ok script => Ok (LegacySolo addr script)
    | Err _ =>
        match split_on "/" user_identity with
        | "sri"%string :: "solo"%string :: payout_address :: _ =>
            match script_from_address payout_address with
            | Ok script => Ok (Solo payout_address script)
            | Err e => Err e
            end
        | ["sri"%string; "donate"%string] | ["sri"%string; "donate"%string; _] => Ok FullDonation
        | "sri"%string :: "donate"%string :: percentage :: payout_address :: _ =>
            match parse_u8 percentage with
            | None => Err (InvalidDonationPercentage percentage)
            | Some p =>
                if negb ((1 <=? p) && (p <? 100))%N then
                  Err (InvalidDonationPercentage (pretty p))
                else match script_from_address payout_address with
                     | Ok script => Ok (Donate p payout_address script)
                     | Err e => Err e
                     end
            end
        | "sri"%string :: _ :: _ => Err (InvalidUserIdentity user_identity)
        | _ => Err (NoPayoutMode user_identity)
        end
    end.

Definition tx_out (sats : N) (script : list byte) : TxOut :=
  {| value := sats; script_pubkey := script |}.

(** [coinbase_outputs]. *)
Definition coinbase_outputs (mode : PayoutMode) (total_value : N) (pool_script : list byte)
    : list TxOut :=
  match mode with
  | Solo _ script | LegacySolo _ script => [tx_out total_value script]
  | Donate percentage _ miner_script =>
      let pool_value := u64_mul total_value percentage / 100 in
      let miner_value := saturating_sub total_value pool_value in
      [tx_out pool_value pool_script; tx_out miner_value miner_script]
  | FullDonation => [tx_out total_value pool_script]
  end.

(** [has_same_coinbase_outputs_as]. *)
Definition has_same_coinbase_outputs_as (self other : PayoutMode) (pool_script : list byte) : bool :=
  bool_decide (coinbase_outputs self 100 pool_script = coinbase_outputs other 100 pool_script).

Definition miner_address (mode : PayoutMode) : option string :=
  match mode with
  | Solo address _ | LegacySolo address _ | Donate _ address _ => Some address
  | FullDonation => None
  end.

Definition miner_script_pubkey (mode : PayoutMode) : option (list byte) :=
  match mode with
  | Solo _ script | LegacySolo _ script | Donate _ _ script => Some script
  | FullDonation => None
  end.

Definition expected_miner_percentage (mode : PayoutMode) : N :=
  match mode with
  | Solo _ _ | LegacySolo _ _ => 100
  | Donate percentage _ _ => 100 - percentage
  | FullDonation => 0
  end.

Definition expected_miner_sats (mode : PayoutMode) (total : N) : N :=
  match mode with
  | Solo _ _ | LegacySolo _ _ => total
  | Donate percentage _ _ => saturating_sub total (u64_mul total percentage / 100)
  | FullDonation => 0
  end.

Definition expected_legacy_solo_miner_sats (total : N) : N :=
  div_ceil (u64_mul total MIN_LEGACY_SOLO_PAYOUT_PERCENTAGE) 100.

(** [.map(to_sat).sum()] over [u64]. *)
Definition sum_sats (outputs : list TxOut) : N :=
  foldl (λ acc o, u64_add acc (value o)) 0 outputs.

Definition spendable (outputs : list TxOut) : list TxOut :=
  filter (λ o, is_op_return (script_pubkey o) = false) outputs.

Definition paid_to (script : list byte) (outputs : list TxOut) : list TxOut :=
  filter (λ o, script_pubkey o = script) outputs.

(** [validate_coinbase_outputs]. The two [expect]s are on [miner_address]. *)
Definition validate_coinbase_outputs (mode : PayoutMode) (outputs : list TxOut)
    : rust (result unit PayoutValidationError) :=
  match miner_script_pubkey mode with
  | None => Done (Ok tt)
  | Some script =>
      let total := sum_sats (spendable outputs) in
      if (total =? 0)%N then Done (Err NoSpendableOutputs)
      else
        let actual := sum_sats (paid_to script (spendable outputs)) in
        match mode with
        | LegacySolo _ _ =>
            let expected := expected_legacy_solo_miner_sats total in
            if (actual <? expected)%N then
              address ← expect (miner_address mode);
              Done (Err (PayoutMismatch address expected MIN_LEGACY_SOLO_PAYOUT_PERCENTAGE
                           total actual))
            else Done (Ok tt)
        | _ =>
            let expected := expected_miner_sats mode total in
            if decide (actual ≠ expected) then
              address ← expect (miner_address mode);
              Done (Err (PayoutMismatch address expected (expected_miner_percentage mode)
                           total actual))
            else Done (Ok tt)
        end
  end.

(** [validate_coinbase_tx_parts]. *)
Definition validate_coinbase_tx_parts (mode : PayoutMode) (prefix suffix : list byte)
    (full_extranonce_size : nat) : rust (result unit PayoutValidationError) :=
  match deserialize (prefix ++ replicate full_extranonce_size x00 ++ suffix) with
  | None => Done (Err DecodeCoinbaseTransaction)
  | Some coinbase => validate_coinbase_outputs mode (tx_output coinbase)
  end.

(** [TranslatorConfig::expected_payout_distribution]. *)
Definition expected_payout_distribution (verify_payout : bool) (user_identity : string)
    : result (option PayoutMode) PayoutModeError :=
  if negb verify_payout then Ok None
  else match try_from user_identity with
  | Ok FullDonation => Err (MissingMinerPayout user_identity MissingFullDonation)
  | Ok mode => Ok (Some mode)
  | Err (NoPayoutMode _) => Err (MissingMinerPayout user_identity MissingNoPayoutMode)
  | Err e => Err e
  end.

(** The pool's [Downstream::payout_is_compatible] on its locked payout mode. *)
Definition payout_is_compatible (current : option PayoutMode) (mode : PayoutMode)
    (pool_script : list byte) : bool :=
  match current with
  | None => true
  | Some c => has_same_coinbase_outputs_as c mode pool_script
  end.
End payout.

(** ** Specification *)

(** Bitcoin's money supply in satoshis: no coinbase pays more. *)
Definition MAX_MONEY : N := 2100000000000000.

Section laws.
Context `{BitcoinApi} {AA : AddressApi}.

(** What [try_from] guarantees of the mode it returns. *)
Definition mode_wf (mode : PayoutMode) : Prop :=
  match mode with
  | Solo a s | LegacySolo a s => script_of_address a = Some s
  | Donate p a s => script_of_address a = Some s ∧ 1 ≤ p < 100
  | FullDonation => True
  end.

(** The documented identity patterns. *)
Definition print_identity (mode : PayoutMode) (worker : string) : string :=
  match mode with
  | Solo a _ => "sri/solo/" +:+ a +:+ "/" +:+ worker
  | LegacySolo a _ => a +:+ "." +:+ worker
  | Donate p a _ => "sri/donate/" +:+ pretty p +:+ "/" +:+ a +:+ "/" +:+ worker
  | FullDonation => "sri/donate/" +:+ worker
  end.

Notation chars := String.list_ascii_of_string.

(** ** Lemmas on strings *)
Lemma split_on_none sep s : sep ∉ chars s → split_on sep s = [s].
Proof.
  induction s as [|c s IH]; intros Hn; [done|]. simpl in *.
  destruct (Ascii.eqb_spec c sep) as [->|]; [set_solver|]. rewrite IH by set_solver. done.
Qed.

Lemma split_on_app sep a b :
  sep ∉ chars a → split_on sep (a +:+ String sep b) = a :: split_on sep b.
Proof.
  induction a as [|c a IH]; intros Hn; simpl in *.
  - by rewrite Ascii.eqb_refl.
  - destruct (Ascii.eqb_spec c sep) as [->|]; [set_solver|]. by rewrite IH by set_solver.
Qed.

Lemma before_sep_app sep a b : sep ∉ chars a → before_sep sep (a +:+ String sep b) = a.
Proof.
  induction a as [|c a IH]; intros Hn; simpl in *; [by rewrite Ascii.eqb_refl|].
  destruct (Ascii.eqb_spec c sep) as [->|]; [set_solver|]. by rewrite IH by set_solver.
Qed.

Lemma parse_pretty_percentage p :
  1 ≤ p < 100 → parse_u8 (pretty p) = Some p ∧ "/"%char ∉ chars (pretty p).
Proof.
  intros Hp.
  assert (Forall (λ p, parse_u8 (pretty p) = Some p ∧ "/"%char ∉ chars (pretty p))
    (N.of_nat <$> seq 0 100)) as Hall.
  { apply (bool_decide_unpack _). vm_compute. exact I. }
  rewrite Forall_forall in Hall. apply Hall.
  apply list_elem_of_fmap. exists (N.to_nat p). split; [lia|]. apply elem_of_seq. lia.
Qed.

(** ** Lemmas on sums *)
Lemma sum_sats_acc outputs acc :
  acc + sumN value outputs < u64_modulus →
  foldl (λ acc o, u64_add acc (value o)) acc outputs = acc + sumN value outputs.
Proof.
  revert acc. induction outputs as [|o outputs IH]; intros acc Hlt; simpl.
  - rewrite sumN_nil. lia.
  - rewrite sumN_cons in *. rewrite u64_add_small by lia. rewrite IH by lia. lia.
Qed.

Lemma sum_sats_small outputs :
  sumN value outputs < u64_modulus → sum_sats outputs = sumN value outputs.
Proof. intros. unfold sum_sats. rewrite sum_sats_acc; lia. Qed.

Lemma sum_filter_le (P : TxOut → Prop) `{∀ o, Decision (P o)} outputs :
  sumN value (filter P outputs) ≤ sumN value outputs.
Proof. apply sumN_sublist, sublist_filter. Qed.

(** The sums of the validation are the true ones below the money supply. *)
Lemma validate_sums outputs (script : list byte) :
  sumN value outputs ≤ MAX_MONEY →
  sum_sats (spendable outputs) = sumN value (spendable outputs) ∧
  sum_sats (paid_to script (spendable outputs)) =
    sumN value (paid_to script (spendable outputs)) ∧
  sumN value (paid_to script (spendable outputs)) ≤ sumN value (spendable outputs) ≤ MAX_MONEY.
Proof.
  intros Hmax. unfold spendable, paid_to.
  pose proof (sum_filter_le (λ o, is_op_return (script_pubkey o) = false) outputs).
  pose proof (sum_filter_le (λ o, script_pubkey o = script)
    (filter (λ o, is_op_return (script_pubkey o) = false) outputs)).
  unfold MAX_MONEY in *.
  rewrite !sum_sats_small by (unfold u64_modulus; lia). lia.
Qed.

Lemma percent_exact total p :
  total ≤ MAX_MONEY → p ≤ 100 → u64_mul total p / 100 = total * p / 100.
Proof.
  intros. rewrite u64_mul_small; [done|]. unfold MAX_MONEY, u64_modulus in *. nia.
Qed.

(** What a miner with this mode must receive of [total] spendable satoshis. *)
Definition payout_spec (mode : PayoutMode) (total actual : N) : Prop :=
  match mode with
  | Solo _ _ => actual = total
  | LegacySolo _ _ => 90 * total ≤ 100 * actual
  | Donate p _ _ => actual = total - total * p / 100
  | FullDonation => True
  end.

Lemma validate_iff mode outputs :
  mode_wf mode → sumN value outputs ≤ MAX_MONEY →
  validate_coinbase_outputs mode outputs = Done (Ok tt) ↔
  ∀ script, miner_script_pubkey mode = Some script →
    0 < sumN value (spendable outputs) ∧
    payout_spec mode (sumN value (spendable outputs))
      (sumN value (paid_to script (spendable outputs))).
Proof.
  intros Hwf Hmax. unfold validate_coinbase_outputs.
  destruct (miner_script_pubkey mode) as [script|] eqn:Es; [|naive_solver].
  destruct (validate_sums outputs script Hmax) as (-> & -> & Hle & Hmax').
  destruct (N.eqb_spec (sumN value (spendable outputs)) 0) as [E|E].
  { split; [done|]. intros Hs. destruct (Hs _ eq_refl). lia. }
  assert (Hgoal : match mode with
      | LegacySolo _ _ => expected_legacy_solo_miner_sats (sumN value (spendable outputs)) ≤
          sumN value (paid_to script (spendable outputs))
      | _ => sumN value (paid_to script (spendable outputs)) =
          expected_miner_sats mode (sumN value (spendable outputs))
      end ↔ payout_spec mode (sumN value (spendable outputs))
        (sumN value (paid_to script (spendable outputs)))).
  { destruct mode as [a s|a s|p a s|]; simpl in *; try done.
    - unfold expected_legacy_solo_miner_sats, MIN_LEGACY_SOLO_PAYOUT_PERCENTAGE.
      rewrite u64_mul_small by (unfold MAX_MONEY, u64_modulus in *; lia).
      rewrite div_ceil_spec by done. lia.
    - unfold saturating_sub. by rewrite percent_exact by lia. }
  transitivity (payout_spec mode (sumN value (spendable outputs))
    (sumN value (paid_to script (spendable outputs)))).
  2: { split; [intros Hs s [= <-]; split; [lia|done]|intros Hs; by apply Hs]. }
  rewrite <-Hgoal. destruct mode as [a s|a s|p a s|]; try done; cbv zeta.
  - case_decide; naive_solver.
  - destruct (N.ltb_spec (sumN value (paid_to script (spendable outputs)))
      (expected_legacy_solo_miner_sats (sumN value (spendable outputs)))); simpl;
      split; try done; lia.
  - case_decide; naive_solver.
Qed.

Lemma script_from_address_Ok a s : script_from_address a = Ok s ↔ script_of_address a = Some s.
Proof. unfold script_from_address. destruct (script_of_address a); naive_solver. Qed.

Lemma try_from_wf id mode : try_from id = Ok mode → mode_wf mode.
Proof.
  unfold try_from. case_decide; [done|]. cbv zeta.
  destruct (script_from_address (address_part_from_user_identity id)) as [s|] eqn:E.
  { intros [= <-]. by apply script_from_address_Ok. }
  clear E. intros Hm. repeat (case_match; simplify_eq/=; try done).
  all: repeat match goal with
    | H : script_from_address _ = Ok _ |- _ => apply script_from_address_Ok in H
    | H : negb _ = false |- _ => apply negb_false_iff, andb_prop in H as [?%N.leb_le ?%N.ltb_lt]
    end; done.
Qed.

(** A string that starts with a scheme prefix is not an address. *)
Lemma not_an_address `{!AddressLaws AA} a :
  "/"%char ∈ chars a → script_from_address a = Err (InvalidPayoutAddress a).
Proof.
  intros Hin. unfold script_from_address. destruct (script_of_address a) as [s|] eqn:E; [|done].
  by apply law_no_slash in E.
Qed.

Lemma sri_not_an_address `{!AddressLaws AA} rest :
  ∃ e, script_from_address (address_part_from_user_identity ("sri/" +:+ rest)) = Err e.
Proof. eexists. apply not_an_address. simpl. set_solver. Qed.

Lemma slash_notin_literal :
  "/"%char ∉ chars "sri" ∧ "/"%char ∉ chars "solo" ∧ "/"%char ∉ chars "donate".
Proof. split_and!; apply (bool_decide_unpack _); vm_compute; exact I. Qed.

Lemma try_from_sri `{!AddressLaws AA} rest :
  try_from ("sri/" +:+ rest) =
  match split_on "/" rest with
  | "solo"%string :: payout_address :: _ =>
      match script_from_address payout_address with
      | Ok script => Ok (Solo payout_address script)
      | Err e => Err e
      end
  | ["donate"%string] | ["donate"%string; _] => Ok FullDonation
  | "donate"%string :: percentage :: payout_address :: _ =>
      match parse_u8 percentage with
      | None => Err (InvalidDonationPercentage percentage)
      | Some p =>
          if negb ((1 <=? p) && (p <? 100))%N then Err (InvalidDonationPercentage (pretty p))
          else match script_from_address payout_address with
               | Ok script => Ok (Donate p payout_address script)
               | Err e => Err e
               end
      end
  | _ => Err (InvalidUserIdentity ("sri/" +:+ rest))
  end.
Proof.
  unfold try_from. rewrite decide_False by done. cbv zeta.
  destruct (sri_not_an_address rest) as [e ->].
  replace (split_on "/" ("sri/" +:+ rest)) with ("sri"%string :: split_on "/" rest).
  2: { symmetry. apply (split_on_app "/" "sri" rest). apply slash_notin_literal. }
  assert (∃ p ps, split_on "/" rest = p :: ps) as (p & ps & ->).
  { destruct rest as [|c rest]; simpl; [by eexists _, _|].
    destruct (split_on "/" rest); case_match; by eexists _, _. }
  done.
Qed.

(** ** Properties *)

(** The documented identity of a payout mode parses back to that mode: a
    solo or donation identity whatever the worker name is, a legacy one for an
    address without a dot, a full donation for a worker without a slash. *)
Theorem identity_roundtrip `{!AddressLaws AA} mode worker :
  mode_wf mode →
  (∀ a s, mode = LegacySolo a s → a ≠ EmptyString ∧ "."%char ∉ chars a) →
  (mode = FullDonation → "/"%char ∉ chars worker) →
  try_from (print_identity mode worker) = Ok mode.
Proof.
  destruct slash_notin_literal as (Hsri & Hsolo & Hdonate). intros Hwf Hleg Hfull.
  destruct mode as [a s|a s|p a s|]; simpl in Hwf.
  - change (print_identity _ _) with
      ("sri/" +:+ ("solo" +:+ String "/" (a +:+ String "/" worker)) : string).
    rewrite try_from_sri, split_on_app by done.
    rewrite split_on_app by (by eapply law_no_slash).
    by rewrite (proj2 (script_from_address_Ok a s) Hwf).
  - destruct (Hleg a s eq_refl) as [Hne Hdot].
    change (print_identity _ _) with (a +:+ String "." worker). unfold try_from.
    rewrite decide_False by (by destruct a). cbv zeta.
    unfold address_part_from_user_identity. rewrite before_sep_app by done.
    by rewrite (proj2 (script_from_address_Ok a s) Hwf).
  - destruct Hwf as [Hs Hp]. destruct (parse_pretty_percentage p Hp) as [Hparse Hslash].
    change (print_identity _ _) with
      ("sri/" +:+ ("donate" +:+ String "/" (pretty p +:+ String "/" (a +:+ String "/" worker)))
        : string).
    rewrite try_from_sri, !split_on_app by (done || by eapply law_no_slash).
    destruct (split_on "/" worker); rewrite Hparse;
      rewrite (proj2 (N.leb_le 1 p)), (proj2 (N.ltb_lt p 100)) by lia; simpl;
      by rewrite (proj2 (script_from_address_Ok a s) Hs).
  - change (print_identity _ _) with ("sri/" +:+ ("donate" +:+ String "/" worker) : string).
    rewrite try_from_sri, split_on_app by done. by rewrite split_on_none by auto.
Qed.

Lemma spendable_app l1 l2 : spendable (l1 ++ l2) = spendable l1 ++ spendable l2.
Proof. apply filter_app. Qed.

Lemma spendable_none extras :
  Forall (λ o, is_op_return (script_pubkey o) = true) extras → spendable extras = [].
Proof.
  induction 1 as [|o extras Ho _ IH]; [done|].
  unfold spendable. by rewrite filter_cons_False by (by rewrite Ho).
Qed.

(** The outputs the pool builds for a payout mode spend the whole block
    value, and its fee never exceeds its percentage: the miner's output is at
    least the complement of it, rounded down to the satoshi. *)
Theorem coinbase_outputs_conserve mode total pool_script :
  mode_wf mode → total ≤ MAX_MONEY →
  sumN value (coinbase_outputs mode total pool_script) = total ∧
  ∀ p a s, mode = Donate p a s →
    ∃ pool miner, coinbase_outputs mode total pool_script =
        [tx_out pool pool_script; tx_out miner s] ∧
      100 * pool ≤ p * total < 100 * (pool + 1) ∧ (100 - p) * total ≤ 100 * miner.
Proof.
  intros Hwf Hmax. split.
  - destruct mode as [a s|a s|p a s|]; simpl in *; rewrite ?sumN_cons, ?sumN_nil; simpl; try lia.
    unfold saturating_sub. rewrite percent_exact by lia.
    assert (total * p / 100 ≤ total); [|lia].
    apply N.Div0.div_le_upper_bound. nia.
  - intros p a s ->. simpl in *. unfold saturating_sub. rewrite percent_exact by lia.
    eexists _, _. split; [done|].
    pose proof (N.div_mod (total * p) 100). pose proof (N.mod_lt (total * p) 100).
    assert (total * p / 100 ≤ total) by (apply N.Div0.div_le_upper_bound; nia).
    revert H0 H1 H2. generalize (total * p / 100) ((total * p) mod 100). intros q r ???.
    split; nia.
Qed.

(** A miner's proxy accepts the coinbase its pool builds for the same
    payout mode, with any OP_RETURN outputs added anywhere - provided, for a
    donation, that the pool is paid to a spendable script other than the
    miner's. *)
Theorem pool_payout_accepted `{!AddressLaws AA} mode total pool_script extras outputs :
  mode_wf mode → 0 < total ≤ MAX_MONEY →
  Forall (λ o, is_op_return (script_pubkey o) = true) extras →
  (∀ p a s, mode = Donate p a s → is_op_return pool_script = false ∧ pool_script ≠ s) →
  outputs ≡ₚ coinbase_outputs mode total pool_script ++ extras →
  sumN value outputs ≤ MAX_MONEY →
  validate_coinbase_outputs mode outputs = Done (Ok tt).
Proof.
  intros Hwf Htotal Hextras Hpool Hperm Hmax.
  apply validate_iff; [done|done|]. intros script Hscript.
  assert (spendable outputs ≡ₚ spendable (coinbase_outputs mode total pool_script)) as Hsp.
  { unfold spendable. rewrite Hperm, filter_app. fold (spendable extras).
    rewrite spendable_none by done. by rewrite app_nil_r. }
  assert (Hs : sumN value (spendable outputs) =
      sumN value (spendable (coinbase_outputs mode total pool_script)) ∧
    sumN value (paid_to script (spendable outputs)) =
      sumN value (paid_to script (spendable (coinbase_outputs mode total pool_script)))).
  { unfold paid_to. split; [by rewrite Hsp|by rewrite Hsp]. }
  destruct Hs as [-> ->].
  destruct mode as [a s|a s|p a s|]; simpl in Hscript; simplify_eq; simpl in Hwf |- *;
    unfold spendable, paid_to.
  - pose proof (law_spendable _ _ Hwf). rewrite filter_cons_True, filter_nil by done.
    rewrite filter_cons_True, filter_nil by done. rewrite sumN_cons, sumN_nil. simpl. lia.
  - pose proof (law_spendable _ _ Hwf). rewrite filter_cons_True, filter_nil by done.
    rewrite filter_cons_True, filter_nil by done. rewrite sumN_cons, sumN_nil. simpl. lia.
  - destruct Hwf as [Hwf Hp]. pose proof (law_spendable _ _ Hwf).
    destruct (Hpool p a script eq_refl) as [Hps Hne].
    rewrite !filter_cons_True, filter_nil by done.
    rewrite filter_cons_False by done. rewrite filter_cons_True, filter_nil by done.
    rewrite !sumN_cons, sumN_nil. simpl. unfold saturating_sub. rewrite percent_exact by lia.
    assert (total * p / 100 ≤ total) by (apply N.Div0.div_le_upper_bound; nia).
    replace (total * p / 100 + (total - total * p / 100 + 0)) with total by lia. lia.
Qed.

(** C31: with payout verification on, a job that passes decodes to a coinbase
    whose spendable outputs pay the miner of the configured identity what its
    payout mode promises; an identity without a miner payout is not accepted
    as configuration, so the check is never empty. *)
Theorem verify_payout_sound id mode prefix suffix n :
  expected_payout_distribution true id = Ok (Some mode) →
  validate_coinbase_tx_parts mode prefix suffix n = Done (Ok tt) →
  ∃ tx script,
    deserialize (prefix ++ replicate n x00 ++ suffix) = Some tx ∧
    miner_script_pubkey mode = Some script ∧
    (sumN value (tx_output tx) ≤ MAX_MONEY →
     0 < sumN value (spendable (tx_output tx)) ∧
     payout_spec mode (sumN value (spendable (tx_output tx)))
       (sumN value (paid_to script (spendable (tx_output tx))))).
Proof.
  unfold expected_payout_distribution, validate_coinbase_tx_parts. simpl. intros Hid.
  assert (try_from id = Ok mode ∧ ∃ script, miner_script_pubkey mode = Some script)
    as [Hwf%try_from_wf [script Hs]].
  { destruct (try_from id) as [[]|[]]; simplify_eq/=; eauto. }
  destruct (deserialize _) as [tx|]; [|done]. intros Hv. exists tx, script.
  split_and!; [done..|]. intros Hmax.
  by apply (proj1 (validate_iff mode (tx_output tx) Hwf Hmax) Hv).
Qed.

(** Comparing the outputs for 100 satoshis decides whether two payout
    modes pay the same way for every block value. *)
Theorem same_outputs_iff m1 m2 pool_script :
  mode_wf m1 → mode_wf m2 →
  has_same_coinbase_outputs_as m1 m2 pool_script = true ↔
  ∀ total, coinbase_outputs m1 total pool_script = coinbase_outputs m2 total pool_script.
Proof.
  intros H1 H2. unfold has_same_coinbase_outputs_as. rewrite bool_decide_eq_true.
  split; [|intros Hall; apply Hall]. intros E total.
  assert (∀ p, p < 100 → u64_mul 100 p / 100 = p) as Hp.
  { intros p Hlt. rewrite u64_mul_small by (unfold u64_modulus; lia).
    rewrite N.mul_comm. by apply N.div_mul. }
  destruct m1 as [a1 s1|a1 s1|p1 a1 s1|], m2 as [a2 s2|a2 s2|p2 a2 s2|];
    cbn [coinbase_outputs] in *; cbn [mode_wf] in H1, H2; unfold tx_out in *.
  11: { rewrite (Hp p1), (Hp p2) in E by lia. by simplify_eq. }
  all: by simplify_eq.
Qed.
End laws.

Module PayoutExamples.
#[local] Instance demo_addresses : AddressApi := {|
  script_of_address a :=
    if decide (a = "bc1miner"%string) then Some [x00; x01]
    else if decide (a = "bc1pool"%string) then Some [x00; x02] else None;
  is_op_return s := match s with b :: _ => bool_decide (b = x6a) | [] => false end;
|}.

Lemma demo_address_laws : AddressLaws demo_addresses.
Proof.
  split; simpl; intros a s; repeat case_decide; intros [= <-]; subst;
    (done || (apply (bool_decide_unpack _); vm_compute; exact I)).
Qed.
#[local] Existing Instance demo_address_laws.

(** A coinbase is its outputs; every byte string decodes to the one that pays
    the miner 950 of 1000 satoshis and carries a commitment. *)
#[local] Instance outputs_api : BitcoinApi := {|
  Transaction := list TxOut;
  tx_version _ := 2%Z; tx_lock_time _ := 0; tx_input _ := [];
  tx_output o := o; compute_txid _ := 0; compute_wtxid _ := 0; tx_weight _ := 4;
  is_coinbase _ := true;
  consensus_decode _ := None;
  deserialize _ := Some [tx_out 50 [x00; x02]; tx_out 950 [x00; x01]; tx_out 0 [x6a]];
  serialize_outputs _ := []; varint_decode _ := None; varint_size _ := 1;
  merkle_combine a b := a + b;
  weight_max_block := 4000000; weight_min_transaction := 240
|}.

Definition demo_mode : PayoutMode := Donate 5 "bc1miner" [x00; x01].

Lemma demo_wf : mode_wf demo_mode.
Proof. by split. Qed.

Lemma identity_roundtrip_witness :
  print_identity demo_mode "rig" = "sri/donate/5/bc1miner/rig"%string ∧
  try_from (print_identity demo_mode "rig") = Ok demo_mode.
Proof. split; [by vm_compute|]. by apply (identity_roundtrip demo_mode "rig" demo_wf). Defined.

Lemma coinbase_outputs_conserve_witness :
  sumN value (coinbase_outputs demo_mode 1000 [x00; x02]) = 1000.
Proof. by apply (coinbase_outputs_conserve demo_mode 1000 [x00; x02] demo_wf). Defined.

Lemma pool_payout_accepted_witness :
  validate_coinbase_outputs demo_mode
    (tx_out 0 [x6a] :: coinbase_outputs demo_mode 1000 [x00; x02]) = Done (Ok tt).
Proof.
  apply (pool_payout_accepted demo_mode 1000 [x00; x02] [tx_out 0 [x6a]]);
    [exact demo_wf|done| | | |by vm_compute].
  - by repeat constructor.
  - intros p a s [= <- <- <-]. done.
  - apply Permutation_cons_append.
Defined.

Lemma verify_payout_sound_witness :
  expected_payout_distribution true "sri/donate/5/bc1miner/rig" = Ok (Some demo_mode) ∧
  ∃ tx script,
    deserialize [x00; x00] = Some tx ∧ miner_script_pubkey demo_mode = Some script ∧
    (sumN value (tx_output tx) ≤ MAX_MONEY →
     0 < sumN value (spendable (tx_output tx)) ∧
     payout_spec demo_mode (sumN value (spendable (tx_output tx)))
       (sumN value (paid_to script (spendable (tx_output tx))))).
Proof.
  split; [by vm_compute|].
  apply (verify_payout_sound "sri/donate/5/bc1miner/rig" demo_mode [] [x00] 1); by vm_compute.
Defined.

Lemma same_outputs_iff_witness :
  has_same_coinbase_outputs_as demo_mode (Donate 6 "bc1miner" [x00; x01]) [x00; x02] = false ∧
  has_same_coinbase_outputs_as demo_mode demo_mode [x00; x02] = true.
Proof.
  split; [by vm_compute|]. by apply (same_outputs_iff demo_mode demo_mode [x00; x02] demo_wf demo_wf).
Defined.
End PayoutExamples.
