(* ===== verification/JobStore.v ===== *)
(** * SV1 job store of the translator
    ([miner-apps/translator/src/lib/sv1/job_store.rs])

    One active job and a bounded number of past jobs, kept in a map and a
    queue of their ids.  The abstract store is the list of jobs from the
    newest to the oldest; the concrete one refines it. *)
From S2P Require Import Prelude.

Section store.
Context {T : Type}.
(** [channels_sv2::client::MAX_PAST_JOBS]. *)
Variable MAX_PAST_JOBS : nat.

Record ActiveJob : Type := { job_id : string; job : T }.

Record Sv1JobStore : Type := {
  active_job : option ActiveJob;
  past_jobs : gmap string T;
  past_job_order : list string;
  max_past_jobs : nat;
}.

(** [new]: an unset or zero cap is the channel's default. *)
Definition new_store (max : option nat) : Sv1JobStore :=
  {| active_job := None; past_jobs := ∅; past_job_order := [];
     max_past_jobs := match max with
                      | Some cap => if decide (cap = 0%nat) then MAX_PAST_JOBS else cap
                      | None => MAX_PAST_JOBS
                      end |}.

(** [remove_past]. *)
Definition remove_past (s : Sv1JobStore) (id : string) : Sv1JobStore :=
  match past_jobs s !! id with
  | Some _ =>
      {| active_job := active_job s; past_jobs := delete id (past_jobs s);
         past_job_order := filter (λ past_id, past_id ≠ id) (past_job_order s);
         max_past_jobs := max_past_jobs s |}
  | None => s
  end.

(** [clear]. *)
Definition clear_store (s : Sv1JobStore) : Sv1JobStore :=
  {| active_job := None; past_jobs := ∅; past_job_order := [];
     max_past_jobs := max_past_jobs s |}.

(** The displacement of the active job in [activate]. *)
Definition retire_active (s : Sv1JobStore) (id : string) : Sv1JobStore :=
  match active_job s with
  | Some a =>
      if decide (job_id a ≠ id)
      then {| active_job := None; past_jobs := <[job_id a := job a]> (past_jobs s);
              past_job_order := past_job_order s ++ [job_id a];
              max_past_jobs := max_past_jobs s |}
      else {| active_job := None; past_jobs := past_jobs s;
              past_job_order := past_job_order s; max_past_jobs := max_past_jobs s |}
  | None => s
  end.

(** The eviction loop of [activate]. An empty queue with too many jobs would
    loop for ever: [None] is a loop that has not ended within the fuel. *)
Fixpoint evict (fuel : nat) (s : Sv1JobStore) : option Sv1JobStore :=
  if decide (max_past_jobs s < size (past_jobs s))%nat then
    match fuel with
    | O => None
    | S fuel' =>
        match past_job_order s with
        | evicted :: order =>
            evict fuel' {| active_job := active_job s; past_jobs := delete evicted (past_jobs s);
                           past_job_order := order; max_past_jobs := max_past_jobs s |}
        | [] => evict fuel' s
        end
    end
  else Some s.

Definition install (s : Sv1JobStore) (id : string) (j : T) : Sv1JobStore :=
  {| active_job := Some {| job_id := id; job := j |}; past_jobs := past_jobs s;
     past_job_order := past_job_order s; max_past_jobs := max_past_jobs s |}.

(** [activate]; the loop gets as much fuel as there are past jobs. *)
Definition activate (s : Sv1JobStore) (id : string) (j : T) (clean_jobs : bool)
    : option Sv1JobStore :=
  if clean_jobs then Some (install (clear_store s) id j)
  else
    let s1 := retire_active (remove_past s id) id in
    s2 ← evict (size (past_jobs s1)) s1;
    Some (install s2 id j).

(** [get] and [active]. *)
Definition get (s : Sv1JobStore) (id : string) : option T :=
  match active_job s with
  | Some a => if decide (job_id a = id) then Some (job a) else past_jobs s !! id
  | None => past_jobs s !! id
  end.

Definition active (s : Sv1JobStore) : option T := job <$> active_job s.

(** ** The abstract store *)
Notation Jobs := (list (string * T)).

Definition spec_activate (cap : nat) (h : Jobs) (id : string) (j : T) (clean : bool) : Jobs :=
  if clean then [(id, j)] else (id, j) :: take cap (filter (λ p, p.1 ≠ id) h).

Definition spec_get (h : Jobs) (id : string) : option T :=
  (λ found, found.2.2) <$> list_find (λ p, p.1 = id) h.

(** Runs of activations, on both sides. *)
Definition activation : Type := string * T * bool.

Definition run_store (ops : list activation) (s : Sv1JobStore) : option Sv1JobStore :=
  foldl (λ acc op, s ← acc; activate s op.1.1 op.1.2 op.2) (Some s) ops.

Definition run_spec (cap : nat) (ops : list activation) : Jobs :=
  foldl (λ h op, spec_activate cap h op.1.1 op.1.2 op.2) [] ops.

(** ** Refinement: the queue is the reversed ids of the past jobs, the map
    holds them, and every id occurs once. *)
Definition past_ok (s : Sv1JobStore) (pl : Jobs) : Prop :=
  past_job_order s = reverse pl.*1 ∧ past_jobs s = list_to_map pl ∧ NoDup pl.*1.

Definition active_part (s : Sv1JobStore) : Jobs :=
  match active_job s with Some a => [(job_id a, job a)] | None => [] end.

Definition refines (s : Sv1JobStore) (h : Jobs) : Prop :=
  ∃ pl, past_ok s pl ∧ h = active_part s ++ pl ∧ NoDup h.*1 ∧ (length pl ≤ max_past_jobs s)%nat ∧
    (active_job s = None → pl = []).

(** ** Lemmas *)
Lemma list_to_map_filter_ne (pl : Jobs) id :
  NoDup pl.*1 →
  (delete id (list_to_map pl) : gmap string T) = list_to_map (filter (λ p, p.1 ≠ id) pl).
Proof.
  induction pl as [|[k v] pl IH]; simpl; [intros; apply delete_empty|].
  intros [Hk Hnd]%NoDup_cons. rewrite filter_cons. simpl. case_decide.
  - simpl. rewrite <-IH by done. by rewrite delete_insert_ne.
  - assert (k = id) as -> by (by destruct (decide (k = id))).
    rewrite delete_insert_eq. by apply IH.
Qed.

Lemma filter_fmap_fst (P : string → Prop) `{∀ x, Decision (P x)} (pl : Jobs) :
  filter P pl.*1 = (filter (λ p, P p.1) pl).*1.
Proof.
  induction pl as [|[k v] pl IH]; [done|]. rewrite fmap_cons, !filter_cons. simpl.
  case_decide; simpl; by rewrite IH.
Qed.

Lemma filter_reverse_comm (P : string → Prop) `{∀ x, Decision (P x)} (l : list string) :
  filter P (reverse l) = reverse (filter P l).
Proof.
  induction l as [|x l IH]; [done|]. rewrite reverse_cons, filter_app, IH, filter_cons.
  rewrite filter_cons, filter_nil. case_decide; [by rewrite reverse_cons|by rewrite app_nil_r].
Qed.

Lemma filter_ne_id (pl : Jobs) id :
  id ∉ pl.*1 → filter (λ p, p.1 ≠ id) pl = pl.
Proof.
  induction pl as [|[k v] pl IH]; [done|]. simpl. intros [? ?]%not_elem_of_cons.
  rewrite filter_cons_True by done. by rewrite IH.
Qed.

Lemma nodup_filter_fst (P : string * T → Prop) `{∀ x, Decision (P x)} (pl : Jobs) :
  NoDup pl.*1 → NoDup (filter P pl).*1.
Proof. intros Hnd. eapply sublist_NoDup; [exact Hnd|]. apply fmap_sublist, sublist_filter. Qed.

Lemma remove_past_ok s pl id :
  past_ok s pl → past_ok (remove_past s id) (filter (λ p, p.1 ≠ id) pl) ∧
  active_job (remove_past s id) = active_job s ∧
  max_past_jobs (remove_past s id) = max_past_jobs s.
Proof.
  intros (Ho & Hp & Hnd). unfold remove_past. destruct (past_jobs s !! id) as [v|] eqn:E.
  - split; [|done]. split_and!; simpl.
    + by rewrite Ho, filter_reverse_comm, filter_fmap_fst.
    + by rewrite Hp, list_to_map_filter_ne.
    + by apply nodup_filter_fst.
  - split; [|done]. rewrite Hp in E. apply not_elem_of_list_to_map in E.
    by rewrite filter_ne_id.
Qed.

Lemma retire_active_ok s pl id :
  past_ok s pl → id ∉ pl.*1 → NoDup (active_part s ++ pl).*1 →
  past_ok (retire_active s id) (filter (λ p, p.1 ≠ id) (active_part s ++ pl)) ∧
  max_past_jobs (retire_active s id) = max_past_jobs s.
Proof.
  intros (Ho & Hp & Hnd) Hid Hall. rewrite filter_app, (filter_ne_id pl) by done.
  unfold active_part, retire_active in *. destruct (active_job s) as [a|]; [|by split].
  rewrite filter_cons, filter_nil. simpl in *. case_decide; (split; [|done]); simpl.
  - split_and!; simpl; [by rewrite Ho, reverse_cons|by rewrite Hp|done].
  - by split_and!.
Qed.

Lemma past_size s pl : past_ok s pl → size (past_jobs s) = length pl.
Proof. intros (_ & -> & Hnd). by apply map_size_list_to_map. Qed.

(** The eviction loop ends, and keeps the newest jobs. *)
Lemma evict_ok fuel s pl :
  past_ok s pl → (length pl ≤ fuel)%nat →
  ∃ s', evict fuel s = Some s' ∧ past_ok s' (take (max_past_jobs s) pl) ∧
    max_past_jobs s' = max_past_jobs s ∧ active_job s' = active_job s.
Proof.
  revert s pl. induction fuel as [|fuel IH]; intros s pl Hok Hlen.
  - simpl. rewrite (past_size s pl Hok), decide_False by lia.
    exists s. by rewrite take_ge by lia.
  - simpl. rewrite (past_size s pl Hok). case_decide as Hd.
    2: { exists s. by rewrite take_ge by lia. }
    destruct pl as [|[k v] pl _] using rev_ind; [simpl in Hd; lia|].
    destruct Hok as (Ho & Hp & Hnd). rewrite Ho, fmap_app, reverse_app. simpl.
    rewrite length_app in *. simpl in *.
    destruct (IH {| active_job := active_job s; past_jobs := delete k (past_jobs s);
       past_job_order := reverse pl.*1; max_past_jobs := max_past_jobs s |} pl)
      as (s' & Es & Hs' & ? & ?).
    + rewrite fmap_app in Hnd. apply NoDup_app in Hnd as (Hnd & Hk & _).
      split_and!; simpl; [done| |done]. rewrite Hp, list_to_map_app.
      assert (k ∉ pl.*1) as Hkn. { intros Hin. apply (Hk k Hin). simpl. set_solver. }
      simpl. rewrite delete_union, delete_insert_eq, !delete_empty, (right_id_L ∅ (∪)).
      apply delete_id. by apply not_elem_of_list_to_map.
    + lia.
    + exists s'. simpl in *. rewrite take_app_le by lia. by rewrite Es.
Qed.

Lemma spec_get_cons p (l : Jobs) id :
  spec_get (p :: l) id = if decide (p.1 = id) then Some p.2 else spec_get l id.
Proof.
  unfold spec_get. simpl. case_decide; [done|]. by destruct (list_find _ l) as [[i q]|].
Qed.

Lemma spec_get_map (pl : Jobs) id : spec_get pl id = (list_to_map pl : gmap string T) !! id.
Proof.
  induction pl as [|[k v] pl IH]; [done|]. rewrite spec_get_cons, IH. simpl.
  case_decide; [subst; by rewrite lookup_insert_eq|by rewrite lookup_insert_ne].
Qed.

Lemma refines_get s h id : refines s h → get s id = spec_get h id.
Proof.
  intros (pl & (_ & Hp & _) & -> & _). unfold get, active_part. rewrite Hp.
  destruct (active_job s) as [a|]; simpl; rewrite ?spec_get_cons, spec_get_map; done.
Qed.

Lemma activate_refines s h id j clean :
  refines s h →
  ∃ s', activate s id j clean = Some s' ∧
    refines s' (spec_activate (max_past_jobs s) h id j clean) ∧ max_past_jobs s' = max_past_jobs s.
Proof.
  intros (pl & Hok & -> & Hnd & Hlen & _). unfold activate. destruct clean.
  { eexists. split; [done|]. split; [|done]. exists []. split_and!; try done.
    - repeat constructor.
    - apply NoDup_singleton.
    - simpl. lia. }
  destruct (remove_past_ok s pl id Hok) as (Hok1 & Ha1 & Hm1).
  set (s1 := remove_past s id) in *. set (pl1 := filter _ pl) in *.
  assert (active_part s1 = active_part s) as Hpart by (unfold active_part; by rewrite Ha1).
  assert (id ∉ pl1.*1) as Hid.
  { unfold pl1. rewrite list_elem_of_fmap. intros ([k v] & -> & [Hne _]%list_elem_of_filter). done. }
  destruct (retire_active_ok s1 pl1 id Hok1 Hid) as (Hok2 & Hm2).
  { rewrite Hpart. eapply sublist_NoDup; [exact Hnd|]. apply fmap_sublist.
    apply sublist_app; [done|apply sublist_filter]. }
  cbv zeta. fold s1. destruct (evict_ok (size (past_jobs (retire_active s1 id))) _ _ Hok2)
    as (s2 & -> & Hok3 & Hm3 & _); [by rewrite (past_size _ _ Hok2)|].
  simpl. eexists. split; [done|]. split; [|simpl; congruence].
  rewrite Hpart, filter_app in Hok3.
  assert (filter (λ p, p.1 ≠ id) pl1 = pl1) as Hpl1 by by apply filter_ne_id.
  rewrite Hpl1 in Hok3. unfold spec_activate. rewrite filter_app. fold pl1.
  replace (max_past_jobs (retire_active s1 id)) with (max_past_jobs s) in * by congruence.
  eexists. split; [exact Hok3|]. split; [done|]. split_and!; [| |done].
  - simpl. apply NoDup_cons. split; [|by destruct Hok3 as (_ & _ & ?)].
    rewrite list_elem_of_fmap. intros (p & -> & Hin).
    apply elem_of_take in Hin as (i & Hin & _). apply list_elem_of_lookup_2 in Hin.
    rewrite <-filter_app with (l1 := active_part s) (l2 := pl) in Hin.
    by apply list_elem_of_filter in Hin as [? _].
  - simpl. rewrite length_take. rewrite Hm3. lia.
Qed.

Lemma run_refines ops s h :
  refines s h →
  ∃ s', run_store ops s = Some s' ∧ max_past_jobs s' = max_past_jobs s ∧
    refines s' (foldl (λ h op, spec_activate (max_past_jobs s) h op.1.1 op.1.2 op.2) h ops).
Proof.
  revert s h. induction ops as [|[[id j] clean] ops IH]; intros s h Hr; [by exists s|].
  unfold run_store. simpl. destruct (activate_refines s h id j clean Hr) as (s1 & -> & Hr1 & Hm).
  destruct (IH s1 _ Hr1) as (s' & Hrun & Hm' & Hr'). rewrite Hm in Hm', Hr'. by exists s'.
Qed.

(** C32: over any sequence of activations the eviction loop ends, and the store
    is the abstract one: the active job is the newest, a job is found exactly
    when it is among the [cap] newest others since the last clean job, under
    its newest value, and at most [cap] past jobs are kept. *)
Theorem job_store_refines max ops :
  let cap := max_past_jobs (new_store max) in
  ∃ s, run_store ops (new_store max) = Some s ∧
    (∀ id, get s id = spec_get (run_spec cap ops) id) ∧
    active s = snd <$> head (run_spec cap ops) ∧
    (size (past_jobs s) ≤ cap)%nat.
Proof.
  intros cap. destruct (run_refines ops (new_store max) []) as (s & Hrun & Hm & Hr).
  { exists []. split_and!; try done; [|apply NoDup_nil_2|simpl; lia].
    split_and!; [done|done|apply NoDup_nil_2]. }
  exists s. split_and!; [done|intros id; by apply refines_get| |].
  - destruct Hr as (pl & _ & Hh & _ & _ & Hn). unfold run_spec, active. fold cap in Hh.
    rewrite Hh. unfold active_part. destruct (active_job s); [done|]. by rewrite Hn.
  - destruct Hr as (pl & Hok & _ & _ & Hlen & _). rewrite (past_size s pl Hok). lia.
Qed.
End store.

(** The documented behaviour on four activations with a cap of two. *)
Example evicts_oldest :
  let ops := [("a"%string, 1, false); ("b"%string, 2, false); ("c"%string, 3, false);
              ("d"%string, 4, false)] in
  (λ s, (get s "a", get s "b", active s)) <$> run_store ops (new_store 10 (Some 2%nat)) =
  Some (None, Some 2, Some 4).
Proof. by vm_compute. Qed.
