(* ===== verification/Fallback.v ===== *)
(** * Fallback coordination ([stratum-apps/src/fallback_coordinator.rs])

    A fallback is triggered once and waits until the registered components
    have cleaned up.  Every access to the shared counter, the cancellation
    token and the [Notify] is one step, so that all interleavings of
    [register], [done] and [trigger_fallback_and_wait] are covered.
    [Notify::notify_one] stores a permit that [notified] consumes. *)
From S2P Require Import Prelude.

(** [FallbackCoordinator]: its token, counter and notification. *)
Record FallbackCoordinator : Type := {
  signal : bool;
  pending_tasks : N;
  permit : bool;
}.

(** [FallbackCoordinator::new]. *)
Definition new_coordinator : FallbackCoordinator :=
  {| signal := false; pending_tasks := 0; permit := false |}.

(** [register]. *)
Definition register (c : FallbackCoordinator) : FallbackCoordinator :=
  {| signal := signal c; pending_tasks := u64_add (pending_tasks c) 1; permit := permit c |}.

(** The two accesses of [FallbackHandler::done]: [fetch_sub], which returns the
    previous count, and the test of the token with the notification. *)
Definition done_sub (c : FallbackCoordinator) : N * FallbackCoordinator :=
  (pending_tasks c,
   {| signal := signal c; pending_tasks := u64_wrap (pending_tasks c + (u64_modulus - 1));
      permit := permit c |}).

Definition done_notify (prev : N) (c : FallbackCoordinator) : FallbackCoordinator :=
  if (signal c && (prev =? 1))%N
  then {| signal := signal c; pending_tasks := pending_tasks c; permit := true |}
  else c.

(** [FallbackHandler]'s [Drop]: dropping it before [done] panics. *)
Definition drop_handler (done : bool) : rust unit := if done then Done tt else Panic.

(** The three accesses of [trigger_fallback_and_wait]. *)
Definition trigger_cancel (c : FallbackCoordinator) : FallbackCoordinator :=
  {| signal := true; pending_tasks := pending_tasks c; permit := permit c |}.

Definition trigger_load (c : FallbackCoordinator) : bool := (pending_tasks c =? 0)%N.

Definition trigger_notified (c : FallbackCoordinator) : option FallbackCoordinator :=
  if permit c
  then Some {| signal := signal c; pending_tasks := pending_tasks c; permit := false |}
  else None.

(** ** Interleavings

    [live] handlers have not started [done]; [finishing] are between the two
    accesses of [done], with the count they saw. *)
Inductive Trigger : Type := NotTriggered | Signalled | Waiting | Returned.

Record FallbackSystem : Type := {
  coordinator : FallbackCoordinator;
  live : nat;
  finishing : list N;
  trigger : Trigger;
}.

Definition fallback_start : FallbackSystem :=
  {| coordinator := new_coordinator; live := 0; finishing := []; trigger := NotTriggered |}.

(** A step that registers no component. *)
Inductive progress : FallbackSystem → FallbackSystem → Prop :=
| p_done_sub s n prev c' :
    live s = S n → done_sub (coordinator s) = (prev, c') →
    progress s {| coordinator := c'; live := n; finishing := prev :: finishing s;
                  trigger := trigger s |}
| p_done_notify s l1 prev l2 :
    finishing s = l1 ++ prev :: l2 →
    progress s {| coordinator := done_notify prev (coordinator s); live := live s;
                  finishing := l1 ++ l2; trigger := trigger s |}
| p_cancel s :
    trigger s = NotTriggered →
    progress s {| coordinator := trigger_cancel (coordinator s); live := live s;
                  finishing := finishing s; trigger := Signalled |}
| p_load s :
    trigger s = Signalled →
    progress s {| coordinator := coordinator s; live := live s; finishing := finishing s;
                  trigger := if trigger_load (coordinator s) then Returned else Waiting |}
| p_wake s c' :
    trigger s = Waiting → trigger_notified (coordinator s) = Some c' →
    progress s {| coordinator := c'; live := live s; finishing := finishing s;
                  trigger := Returned |}.

(** Registration; a coordinator serves fewer than 2^64 components. *)
Inductive fallback_step : FallbackSystem → FallbackSystem → Prop :=
| f_progress s s' : progress s s' → fallback_step s s'
| f_register s :
    N.of_nat (live s) + 1 < u64_modulus →
    fallback_step s {| coordinator := register (coordinator s); live := S (live s);
                       finishing := finishing s; trigger := trigger s |}.

Definition fallback_reachable (s : FallbackSystem) : Prop := rtc fallback_step fallback_start s.

(** ** Invariants *)

(** The counter counts the live handlers, and nobody who waits is forgotten. *)
Record fallback_ok (s : FallbackSystem) : Prop := {
  fo_small : N.of_nat (live s) < u64_modulus;
  fo_count : pending_tasks (coordinator s) = N.of_nat (live s);
  fo_signal : trigger s ≠ NotTriggered → signal (coordinator s) = true;
  fo_wakeup : trigger s = Waiting →
    permit (coordinator s) = true ∨ (0 < live s)%nat ∨ 1 ∈ finishing s;
}.

(** Without registrations, a count of one in [finishing], a permit or a return
    mean that no handler is left. *)
Record all_registered (s : FallbackSystem) : Prop := {
  ar_finishing : 1 ∈ finishing s → live s = 0%nat;
  ar_permit : permit (coordinator s) = true → live s = 0%nat;
  ar_returned : trigger s = Returned → live s = 0%nat;
}.

Definition fallback_measure (s : FallbackSystem) : nat :=
  2 * live s + length (finishing s) +
  match trigger s with NotTriggered => 3 | Signalled => 2 | Waiting => 1 | Returned => 0 end.

Lemma done_sub_count s n prev c' :
  fallback_ok s → live s = S n → done_sub (coordinator s) = (prev, c') →
  prev = N.of_nat (S n) ∧ pending_tasks c' = N.of_nat n ∧
  signal c' = signal (coordinator s) ∧ permit c' = permit (coordinator s).
Proof.
  intros [Hs Hc _ _] Hl [= <- <-]. simpl. rewrite Hc, Hl in *. split_and!; try done.
  unfold u64_wrap. replace (N.of_nat (S n) + (u64_modulus - 1)) with (N.of_nat n + 1 * u64_modulus)
    by (unfold u64_modulus in *; lia).
  rewrite N.Div0.mod_add. apply N.mod_small. lia.
Qed.

Lemma progress_ok s s' : progress s s' → fallback_ok s → fallback_ok s'.
Proof.
  intros Hp Hok. destruct Hp as [s n prev c' Hl Hd|s l1 prev l2 Hf|s Ht|s Ht|s c' Ht Hn].
  - destruct (done_sub_count s n prev c' Hok Hl Hd) as (-> & Hc & Hs & Hper).
    destruct Hok. split; simpl; [lia|done|by rewrite Hs|]. intros Hw. rewrite Hper.
    destruct n; [right; right; by left|right; left; lia].
  - destruct Hok. unfold done_notify. rewrite Hf in *.
    destruct (signal (coordinator s)) eqn:Es, (N.eqb_spec prev 1) as [->|Hne]; simpl;
      split; simpl; try done; try (by intros; left); intros Hw.
    1: destruct (fo_wakeup0 Hw) as [?|[?|Hin]]; [by left|by right; left|].
    1: right; right; rewrite elem_of_app, elem_of_cons in *; naive_solver.
    all: assert (signal (coordinator s) = true) by (rewrite Es; apply fo_signal0; congruence);
      congruence.
  - destruct Hok. by split.
  - destruct Hok. split; simpl; try done.
    + intros _. apply fo_signal0. by rewrite Ht.
    + unfold trigger_load. rewrite fo_count0.
      destruct (N.eqb_spec (N.of_nat (live s)) 0); [done|]. intros _. right. left. lia.
  - destruct Hok. unfold trigger_notified in Hn. destruct (permit (coordinator s)); simplify_eq.
    split; simpl; try done. intros _. apply fo_signal0. by rewrite Ht.
Qed.

Lemma fallback_step_ok s s' : fallback_step s s' → fallback_ok s → fallback_ok s'.
Proof.
  intros [s0 s1 Hp|s0 Hb] Hok; [by eapply progress_ok|].
  destruct Hok. split; simpl; try done.
  - lia.
  - rewrite fo_count0, u64_add_small; lia.
  - intros Hw. right. left. lia.
Qed.

Lemma fallback_reachable_ok s : fallback_reachable s → fallback_ok s.
Proof.
  intros Hr. refine (rtc_ind_r fallback_ok _ _ _ s Hr); [by split|].
  intros. by eapply fallback_step_ok.
Qed.

Lemma progress_decreases s s' :
  progress s s' → (fallback_measure s' < fallback_measure s)%nat.
Proof.
  intros [s0 n prev c' Hl Hd|s0 l1 prev l2 Hf|s0 Ht|s0 Ht|s0 c' Ht Hn];
    unfold fallback_measure; simpl.
  - rewrite Hl. lia.
  - rewrite Hf, !length_app. simpl. lia.
  - rewrite Ht. lia.
  - rewrite Ht. destruct (trigger_load _); lia.
  - rewrite Ht. lia.
Qed.

Lemma progress_registered s s' :
  progress s s' → fallback_ok s → all_registered s → all_registered s'.
Proof.
  intros Hp Hok [Hfin Hper Hret].
  destruct Hp as [s n prev c' Hl Hd|s l1 prev l2 Hf|s Ht|s Ht|s c' Ht Hn].
  - destruct (done_sub_count s n prev c' Hok Hl Hd) as (-> & Hc & Hs & Hperm).
    rewrite Hl in *. split; simpl; intros.
    + rewrite elem_of_cons in *. destruct H as [?|?]; [lia|]. by specialize (Hfin H).
    + rewrite Hperm in *. by specialize (Hper H).
    + by specialize (Hret H).
  - rewrite Hf in *. split; simpl; [|unfold done_notify|done].
    + intros Hin. apply Hfin. rewrite elem_of_app, elem_of_cons in *. naive_solver.
    + destruct (signal _), (N.eqb_spec prev 1) as [->|]; simpl; auto.
      intros _. apply Hfin. rewrite elem_of_app, elem_of_cons. naive_solver.
  - by split.
  - split; simpl; try done. unfold trigger_load. destruct Hok. rewrite fo_count0.
    destruct (N.eqb_spec (N.of_nat (live s)) 0); [lia|done].
  - unfold trigger_notified in Hn. destruct (permit (coordinator s)); simplify_eq.
    split; simpl; auto.
Qed.

(** ** Properties *)

(** C33: a fallback never hangs: however [register], [done] and the trigger
    interleave, from a reachable state the components that are there can only
    finish (each step decreases a measure), and when no step but a new
    registration is left, a trigger that was made has returned. *)
Theorem fallback_no_lost_wakeup s :
  fallback_reachable s →
  (∀ s', progress s s' → (fallback_measure s' < fallback_measure s)%nat) ∧
  ((∀ s', ¬ progress s s') → trigger s = Returned).
Proof.
  intros Hok%fallback_reachable_ok. split; [intros; by apply progress_decreases|].
  intros Hstuck. destruct (trigger s) eqn:Ht; [| | |done]; exfalso.
  - by eapply Hstuck, p_cancel.
  - by eapply Hstuck, p_load.
  - destruct (fo_wakeup s Hok Ht) as [Hp|[Hl|Hin]].
    + eapply Hstuck, (p_wake s); [done|]. unfold trigger_notified. by rewrite Hp.
    + destruct (live s) as [|n] eqn:El; [lia|]. by eapply Hstuck, (p_done_sub s n).
    + apply list_elem_of_split in Hin as (l1 & l2 & Hf). by eapply Hstuck, (p_done_notify s l1 1 l2).
Qed.

(** When all components are registered before the first of them finishes
    and before the fallback, the trigger returns only after every one of them
    has called [done]. *)
Theorem fallback_waits_for_all n s :
  N.of_nat n < u64_modulus →
  rtc progress {| coordinator := {| signal := false; pending_tasks := N.of_nat n; permit := false |};
                  live := n; finishing := []; trigger := NotTriggered |} s →
  trigger s = Returned → live s = 0%nat.
Proof.
  intros Hn Hr. enough (fallback_ok s ∧ all_registered s) as [_ []] by done.
  refine (rtc_ind_r (λ s, fallback_ok s ∧ all_registered s) _ _ _ s Hr).
  - split; [by split|]. split; simpl; try done. by intros ?%elem_of_nil.
  - intros x y _ Hp [Hok Har]. eauto using progress_ok, progress_registered.
Qed.

(** Registrations that race with a finishing component break that promise:
    a component registers after the last other one counted itself down and
    before it looked at the token; the trigger then waits, is woken by the
    finished component, and returns while the new one is still running,
    although it registered before the fallback was triggered. *)
Theorem fallback_returns_early :
  ∃ s, fallback_reachable s ∧ trigger s = Returned ∧ live s = 1%nat.
Proof.
  eexists. split.
  - eapply rtc_l; [by apply f_register|].
    eapply rtc_l; [by apply f_progress, (p_done_sub _ 0)|].
    eapply rtc_l; [by apply f_register|].
    eapply rtc_l; [by apply f_progress, p_cancel|].
    eapply rtc_l; [by apply f_progress, p_load|].
    eapply rtc_l; [by apply f_progress, (p_done_notify _ [] 1 [])|].
    apply rtc_once. by apply f_progress, p_wake.
  - done.
Qed.

Lemma fallback_no_lost_wakeup_witness :
  fallback_reachable fallback_start ∧
  ((∀ s', ¬ progress fallback_start s') → trigger fallback_start = Returned).
Proof.
  assert (fallback_reachable fallback_start) as Hr by apply rtc_refl.
  split; [exact Hr|]. exact (proj2 (fallback_no_lost_wakeup fallback_start Hr)).
Defined.

(** A component finishes, and the trigger returns. *)
Lemma fallback_waits_for_all_witness :
  live {| coordinator := {| signal := true; pending_tasks := 0; permit := false |};
          live := 0; finishing := []; trigger := Returned |} = 0%nat.
Proof.
  apply (fallback_waits_for_all 1); [done| |done].
  eapply rtc_l; [by apply p_cancel|]. eapply rtc_l; [by apply p_load|].
  eapply rtc_l; [by apply (p_done_sub _ 0)|]. eapply rtc_l; [by apply (p_done_notify _ [] 1 [])|].
  apply rtc_once. apply p_wake; by vm_compute.
Defined.
