(* ===== verification/Setup.v ===== *)
(** * Connection set-up and message routing

    - [stratum-apps/src/utils/protocol_message_type.rs]: to which protocol a
      frame belongs;
    - the [SetupConnection] handlers of the three servers: the JD server
      ([jd-server/.../downstream/common_message_handler.rs]), the pool
      ([pool/.../downstream/common_message_handler.rs]) and the JD client
      ([jd-client/.../downstream/common_message_handler.rs]);
    - the JD server's per-connection routing and error actions
      ([jd-server/.../downstream/mod.rs]).

    Message-type numbers and the flag predicates come from the protocol
    crates and are parameters. *)
From S2P Require Import Prelude.

(** ** Message types *)
Class MessageTypes : Type := {
  MESSAGE_TYPE_SETUP_CONNECTION : N;
  MESSAGE_TYPE_SETUP_CONNECTION_SUCCESS : N;
  MESSAGE_TYPE_SETUP_CONNECTION_ERROR : N;
  MESSAGE_TYPE_CHANNEL_ENDPOINT_CHANGED : N;
  MESSAGE_TYPE_RECONNECT : N;
  MESSAGE_TYPE_OPEN_STANDARD_MINING_CHANNEL : N;
  MESSAGE_TYPE_OPEN_STANDARD_MINING_CHANNEL_SUCCESS : N;
  MESSAGE_TYPE_OPEN_MINING_CHANNEL_ERROR : N;
  MESSAGE_TYPE_OPEN_EXTENDED_MINING_CHANNEL : N;
  MESSAGE_TYPE_OPEN_EXTENDED_MINING_CHANNEL_SUCCESS : N;
  MESSAGE_TYPE_NEW_MINING_JOB : N;
  MESSAGE_TYPE_UPDATE_CHANNEL : N;
  MESSAGE_TYPE_UPDATE_CHANNEL_ERROR : N;
  MESSAGE_TYPE_CLOSE_CHANNEL : N;
  MESSAGE_TYPE_SET_EXTRANONCE_PREFIX : N;
  MESSAGE_TYPE_SUBMIT_SHARES_STANDARD : N;
  MESSAGE_TYPE_SUBMIT_SHARES_EXTENDED : N;
  MESSAGE_TYPE_SUBMIT_SHARES_SUCCESS : N;
  MESSAGE_TYPE_SUBMIT_SHARES_ERROR : N;
  MESSAGE_TYPE_NEW_EXTENDED_MINING_JOB : N;
  MESSAGE_TYPE_MINING_SET_NEW_PREV_HASH : N;
  MESSAGE_TYPE_SET_TARGET : N;
  MESSAGE_TYPE_SET_CUSTOM_MINING_JOB : N;
  MESSAGE_TYPE_SET_CUSTOM_MINING_JOB_SUCCESS : N;
  MESSAGE_TYPE_SET_CUSTOM_MINING_JOB_ERROR : N;
  MESSAGE_TYPE_SET_GROUP_CHANNEL : N;
  MESSAGE_TYPE_ALLOCATE_MINING_JOB_TOKEN : N;
  MESSAGE_TYPE_ALLOCATE_MINING_JOB_TOKEN_SUCCESS : N;
  MESSAGE_TYPE_PROVIDE_MISSING_TRANSACTIONS : N;
  MESSAGE_TYPE_PROVIDE_MISSING_TRANSACTIONS_SUCCESS : N;
  MESSAGE_TYPE_DECLARE_MINING_JOB : N;
  MESSAGE_TYPE_DECLARE_MINING_JOB_SUCCESS : N;
  MESSAGE_TYPE_DECLARE_MINING_JOB_ERROR : N;
  MESSAGE_TYPE_PUSH_SOLUTION : N;
  MESSAGE_TYPE_COINBASE_OUTPUT_CONSTRAINTS : N;
  MESSAGE_TYPE_NEW_TEMPLATE : N;
  MESSAGE_TYPE_SET_NEW_PREV_HASH : N;
  MESSAGE_TYPE_REQUEST_TRANSACTION_DATA : N;
  MESSAGE_TYPE_REQUEST_TRANSACTION_DATA_SUCCESS : N;
  MESSAGE_TYPE_REQUEST_TRANSACTION_DATA_ERROR : N;
  MESSAGE_TYPE_SUBMIT_SOLUTION : N;
  EXTENSION_TYPE_EXTENSIONS_NEGOTIATION : N;
  MESSAGE_TYPE_REQUEST_EXTENSIONS : N;
  MESSAGE_TYPE_REQUEST_EXTENSIONS_ERROR : N;
  MESSAGE_TYPE_REQUEST_EXTENSIONS_SUCCESS : N;
}.

Inductive MessageType : Type :=
| Common | Mining | JobDeclaration | TemplateDistribution | Extensions | Unknown.

#[export] Instance MessageType_eq_dec : EqDecision MessageType.
Proof. solve_decision. Defined.

Section routing.
Context `{MessageTypes}.

Definition common_types : list N :=
  [MESSAGE_TYPE_SETUP_CONNECTION; MESSAGE_TYPE_SETUP_CONNECTION_SUCCESS;
   MESSAGE_TYPE_SETUP_CONNECTION_ERROR; MESSAGE_TYPE_CHANNEL_ENDPOINT_CHANGED;
   MESSAGE_TYPE_RECONNECT].

Definition mining_types : list N :=
  [MESSAGE_TYPE_OPEN_STANDARD_MINING_CHANNEL; MESSAGE_TYPE_OPEN_STANDARD_MINING_CHANNEL_SUCCESS;
   MESSAGE_TYPE_OPEN_MINING_CHANNEL_ERROR; MESSAGE_TYPE_OPEN_EXTENDED_MINING_CHANNEL;
   MESSAGE_TYPE_OPEN_EXTENDED_MINING_CHANNEL_SUCCESS; MESSAGE_TYPE_NEW_MINING_JOB;
   MESSAGE_TYPE_UPDATE_CHANNEL; MESSAGE_TYPE_UPDATE_CHANNEL_ERROR; MESSAGE_TYPE_CLOSE_CHANNEL;
   MESSAGE_TYPE_SET_EXTRANONCE_PREFIX; MESSAGE_TYPE_SUBMIT_SHARES_STANDARD;
   MESSAGE_TYPE_SUBMIT_SHARES_EXTENDED; MESSAGE_TYPE_SUBMIT_SHARES_SUCCESS;
   MESSAGE_TYPE_SUBMIT_SHARES_ERROR; 0x1e; MESSAGE_TYPE_NEW_EXTENDED_MINING_JOB;
   MESSAGE_TYPE_MINING_SET_NEW_PREV_HASH; MESSAGE_TYPE_SET_TARGET;
   MESSAGE_TYPE_SET_CUSTOM_MINING_JOB; MESSAGE_TYPE_SET_CUSTOM_MINING_JOB_SUCCESS;
   MESSAGE_TYPE_SET_CUSTOM_MINING_JOB_ERROR; MESSAGE_TYPE_SET_GROUP_CHANNEL].

Definition job_declaration_types : list N :=
  [MESSAGE_TYPE_ALLOCATE_MINING_JOB_TOKEN; MESSAGE_TYPE_ALLOCATE_MINING_JOB_TOKEN_SUCCESS;
   MESSAGE_TYPE_PROVIDE_MISSING_TRANSACTIONS; MESSAGE_TYPE_PROVIDE_MISSING_TRANSACTIONS_SUCCESS;
   MESSAGE_TYPE_DECLARE_MINING_JOB; MESSAGE_TYPE_DECLARE_MINING_JOB_SUCCESS;
   MESSAGE_TYPE_DECLARE_MINING_JOB_ERROR; MESSAGE_TYPE_PUSH_SOLUTION].

Definition template_types : list N :=
  [MESSAGE_TYPE_COINBASE_OUTPUT_CONSTRAINTS; MESSAGE_TYPE_NEW_TEMPLATE;
   MESSAGE_TYPE_SET_NEW_PREV_HASH; MESSAGE_TYPE_REQUEST_TRANSACTION_DATA;
   MESSAGE_TYPE_REQUEST_TRANSACTION_DATA_SUCCESS; MESSAGE_TYPE_REQUEST_TRANSACTION_DATA_ERROR;
   MESSAGE_TYPE_SUBMIT_SOLUTION].

Definition extension_types : list N :=
  [MESSAGE_TYPE_REQUEST_EXTENSIONS; MESSAGE_TYPE_REQUEST_EXTENSIONS_ERROR;
   MESSAGE_TYPE_REQUEST_EXTENSIONS_SUCCESS].

Definition is_common_message (ext msg : N) : bool :=
  (ext =? 0)%N && bool_decide (msg ∈ common_types).
Definition is_mining_message (ext msg : N) : bool :=
  (ext =? 0)%N && bool_decide (msg ∈ mining_types).
Definition is_job_declaration_message (ext msg : N) : bool :=
  (ext =? 0)%N && bool_decide (msg ∈ job_declaration_types).
Definition is_template_distribution_message (ext msg : N) : bool :=
  (ext =? 0)%N && bool_decide (msg ∈ template_types).
Definition is_extensions_message (ext msg : N) : bool :=
  (ext =? EXTENSION_TYPE_EXTENSIONS_NEGOTIATION)%N && bool_decide (msg ∈ extension_types).

(** [protocol_message_type]: [!CHANNEL_MSG_MASK] of a [u16] is 0x7fff. *)
Definition protocol_message_type (extension_type message_type : N) : MessageType :=
  let ext := N.land extension_type 0x7fff in
  if is_common_message ext message_type then Common
  else if is_mining_message ext message_type then Mining
  else if is_job_declaration_message ext message_type then JobDeclaration
  else if is_template_distribution_message ext message_type then TemplateDistribution
  else if is_extensions_message ext message_type then Extensions
  else Unknown.

(** The numbers of the protocols do not overlap, and the negotiation extension
    is a [u16] below the channel bit, other than 0. *)
Class MessageTypesLaws : Prop := {
  law_types_disjoint : NoDup (common_types ++ mining_types ++ job_declaration_types ++ template_types);
  law_extension : 0 < EXTENSION_TYPE_EXTENSIONS_NEGOTIATION < 0x8000;
}.

Definition types_of (t : MessageType) : list N :=
  match t with
  | Common => common_types | Mining => mining_types | JobDeclaration => job_declaration_types
  | TemplateDistribution => template_types | Extensions => extension_types | Unknown => []
  end.

Definition extension_of (t : MessageType) : N :=
  match t with Extensions => EXTENSION_TYPE_EXTENSIONS_NEGOTIATION | _ => 0 end.
End routing.

(** ** SetupConnection *)
Inductive Protocol : Type := MiningProtocol | JobDeclarationProtocol | TemplateDistributionProtocol.

#[export] Instance Protocol_eq_dec : EqDecision Protocol.
Proof. solve_decision. Defined.

Record SetupConnection : Type := {
  protocol : Protocol; min_version : N; max_version : N; flags : N;
}.

(** [utils/types.rs]. *)
Definition SUPPORTED_PROTOCOL_VERSION : N := 2.

Inductive SetupErrorCode : Type :=
| UnsupportedProtocolCode | ProtocolVersionMismatchCode | MissingDeclareTxDataFlagCode
| UnsupportedFeatureFlagsCode.

Inductive SetupReply : Type :=
| SetupConnectionSuccess (used_version flags : N)
| SetupConnectionError (flags : N) (error_code : SetupErrorCode).

(** Every error of these handlers disconnects the client. *)
Inductive SetupFailure : Type :=
| SetupChannelSend | SetupUnsupportedProtocol | SetupProtocolVersionMismatch
| SetupUnsupportedConnectionFlags | SetupFailed.

#[export] Instance SetupErrorCode_eq_dec : EqDecision SetupErrorCode.
Proof. solve_decision. Defined.
#[export] Instance SetupReply_eq_dec : EqDecision SetupReply.
Proof. solve_decision. Defined.
#[export] Instance SetupFailure_eq_dec : EqDecision SetupFailure.
Proof. solve_decision. Defined.

(** The frames sent, and the handler's result. *)
Definition Setup : Type := list SetupReply * result unit SetupFailure.

(** Send and fail; a closed channel is a failure of its own. *)
Definition reject (open : bool) (reply : SetupReply) (e : SetupFailure) : Setup :=
  if open then ([reply], Err e) else ([], Err SetupChannelSend).

Definition accept (open : bool) (reply : SetupReply) : Setup :=
  if open then ([reply], Ok tt) else ([], Err SetupChannelSend).

(** The version test of the three handlers. *)
Definition version_mismatch (msg : SetupConnection) : bool :=
  ((SUPPORTED_PROTOCOL_VERSION <? min_version msg) ||
   (max_version msg <? SUPPORTED_PROTOCOL_VERSION))%N.

(** [u32::reverse_bits]. *)
Definition reverse_bits (x : N) : N :=
  foldr (λ i acc, N.lor acc (if N.testbit x (N.of_nat i) then N.shiftl 1 (N.of_nat (31 - i)) else 0))
    0 (seq 0 32).

Definition has_declare_tx_data (flags : N) : bool :=
  negb (N.shiftr (reverse_bits flags) 31 =? 0)%N.

(** The JD server's [handle_setup_connection]. *)
Definition jds_setup_connection (open : bool) (msg : SetupConnection) : Setup :=
  if decide (protocol msg ≠ JobDeclarationProtocol)
  then reject open (SetupConnectionError 0 UnsupportedProtocolCode) SetupUnsupportedProtocol
  else if version_mismatch msg
  then reject open (SetupConnectionError 0 ProtocolVersionMismatchCode) SetupProtocolVersionMismatch
  else if negb (has_declare_tx_data (flags msg))
  then reject open (SetupConnectionError 0 MissingDeclareTxDataFlagCode)
         SetupUnsupportedConnectionFlags
  else accept open (SetupConnectionSuccess SUPPORTED_PROTOCOL_VERSION 0).

Section mining_setup.
(** [common_messages_sv2::has_work_selection] and [has_requires_std_job]. *)
Variables has_work_selection has_requires_std_job : N → bool.

(** The pool's [handle_setup_connection]; its state is
    [(requires_custom_work, requires_standard_jobs)]. *)
Definition pool_setup_connection (open : bool) (msg : SetupConnection) (st : bool * bool)
    : Setup * (bool * bool) :=
  if decide (protocol msg ≠ MiningProtocol)
  then (reject open (SetupConnectionError 0 UnsupportedProtocolCode) SetupUnsupportedProtocol, st)
  else if version_mismatch msg
  then (reject open (SetupConnectionError 0 ProtocolVersionMismatchCode) SetupFailed, st)
  else
    let response_flags := if has_work_selection (flags msg) then N.lor 0 0x02 else 0 in
    (accept open (SetupConnectionSuccess SUPPORTED_PROTOCOL_VERSION response_flags),
     (has_work_selection (flags msg), has_requires_std_job (flags msg))).

(** The JD client's: a rejection that cannot be sent is only logged; its state
    is [require_std_job], which is never reset. *)
Definition jdc_reject (open : bool) (reply : SetupReply) : Setup :=
  (if open then [reply] else [], Err SetupFailed).

Definition jdc_setup_connection (open : bool) (msg : SetupConnection) (require_std_job : bool)
    : Setup * bool :=
  if decide (protocol msg ≠ MiningProtocol)
  then (jdc_reject open (SetupConnectionError 0 UnsupportedProtocolCode), require_std_job)
  else if version_mismatch msg
  then (jdc_reject open (SetupConnectionError 0 ProtocolVersionMismatchCode), require_std_job)
  else if has_work_selection (flags msg)
  then (jdc_reject open (SetupConnectionError 2 UnsupportedFeatureFlagsCode), require_std_job)
  else
    (accept open (SetupConnectionSuccess SUPPORTED_PROTOCOL_VERSION 0),
     if has_requires_std_job (flags msg) then true else require_std_job).
End mining_setup.

(** ** The JD server's connection task *)

(** Where a frame of a set-up connection goes. *)
Inductive Routed : Type := ToJobDeclarator | Ignored.

Section jds_connection.
Context `{MessageTypes}.

(** [setup_connection_with_downstream] on the first frame: only
    [SetupConnection] is handled. *)
Definition first_frame_handled (ext_type msg_type : N) : bool :=
  (ext_type =? 0)%N && (msg_type =? MESSAGE_TYPE_SETUP_CONNECTION)%N.

(** [handle_message_from_downstream]'s dispatch on the header. *)
Definition route_frame (ext_type msg_type : N) : Routed :=
  match protocol_message_type ext_type msg_type with
  | JobDeclaration => ToJobDeclarator
  | Extensions => Ignored
  | Common | Mining | TemplateDistribution => Ignored
  | Unknown => Ignored
  end.
End jds_connection.

(** ** Lemmas *)
Lemma reverse_bits_fold x l k :
  N.testbit (foldr (λ i acc, N.lor acc
    (if N.testbit x (N.of_nat i) then N.shiftl 1 (N.of_nat (31 - i)) else 0)) 0 l) k =
  existsb (λ i, N.testbit x (N.of_nat i) && (N.of_nat (31 - i) =? k)%N) l.
Proof.
  induction l as [|i l IH]; [apply N.bits_0|]. cbn [foldr existsb].
  rewrite N.lor_spec, IH, orb_comm. f_equal. destruct (N.testbit x (N.of_nat i)); cbn [andb].
  - destruct (N.le_gt_cases (N.of_nat (31 - i)) k) as [Hle|Hgt].
    + rewrite N.shiftl_spec_high' by done. destruct (N.eqb_spec (N.of_nat (31 - i)) k) as [->|Hne].
      * by rewrite N.sub_diag.
      * apply N.bits_above_log2. simpl. lia.
    + rewrite N.shiftl_spec_low by done. symmetry. apply N.eqb_neq. lia.
  - apply N.bits_0.
Qed.

(** The flag is the lowest bit: only it reaches bit 31 of the reversed word. *)
Lemma has_declare_tx_data_bit0 x : has_declare_tx_data x = N.testbit x 0.
Proof.
  unfold has_declare_tx_data, reverse_bits.
  match goal with |- context [N.shiftr ?r 31] => set (r0 := r) end.
  assert (∀ k, N.testbit (N.shiftr r0 31) k = (N.testbit x 0 && (k =? 0)%N)) as Hbits.
  { intros k. rewrite N.shiftr_spec'. unfold r0. rewrite reverse_bits_fold.
    cbn [seq existsb]. replace (N.of_nat (31 - 0) =? k + 31)%N with (k =? 0)%N.
    2: { destruct (N.eqb_spec k 0), (N.eqb_spec (N.of_nat (31 - 0)) (k + 31)); lia. }
    rewrite <-(orb_false_r (N.testbit x 0 && _)) at 1. f_equal.
    repeat match goal with
    | |- context [(N.of_nat (31 - ?i) =? k + 31)%N] =>
        rewrite (proj2 (N.eqb_neq (N.of_nat (31 - i)) (k + 31))) by lia
    end. by rewrite !andb_false_r. }
  destruct (N.testbit x 0) eqn:Ex.
  - apply negb_true_iff, N.eqb_neq. intros E. specialize (Hbits 0). rewrite E in Hbits.
    by rewrite N.bits_0 in Hbits.
  - apply negb_false_iff, N.eqb_eq. apply N.bits_inj_0. intros k. by rewrite Hbits.
Qed.

Lemma version_ok_iff msg :
  version_mismatch msg = false ↔ min_version msg ≤ 2 ≤ max_version msg.
Proof.
  unfold version_mismatch, SUPPORTED_PROTOCOL_VERSION.
  rewrite orb_false_iff, !N.ltb_ge. done.
Qed.

(** ** Properties *)

(** A frame is classified under a protocol exactly when its extension, the
    channel bit aside, is that protocol's and its number one of the protocol's
    messages: the tests done first hide no later protocol. *)
Theorem protocol_message_type_exact `{MessageTypes} {HL : MessageTypesLaws} ext msg t :
  t ≠ Unknown →
  protocol_message_type ext msg = t ↔
  N.land ext 0x7fff = extension_of t ∧ msg ∈ types_of t.
Proof.
  intros Ht. destruct HL as [Hnd Hext].
  apply NoDup_app in Hnd as (_ & Hc & Hnd). apply NoDup_app in Hnd as (_ & Hm & Hnd).
  apply NoDup_app in Hnd as (_ & Hj & _).
  assert (∀ m, m ∈ common_types → m ∉ mining_types ∧ m ∉ job_declaration_types ∧ m ∉ template_types)
    as Hc' by (intros m Hin; specialize (Hc m Hin); rewrite !elem_of_app in Hc; tauto).
  assert (∀ m, m ∈ mining_types → m ∉ job_declaration_types ∧ m ∉ template_types)
    as Hm' by (intros m Hin; specialize (Hm m Hin); rewrite !elem_of_app in Hm; tauto).
  unfold protocol_message_type, is_common_message, is_mining_message, is_job_declaration_message,
    is_template_distribution_message, is_extensions_message. cbv zeta.
  generalize (N.land ext 0x7fff) as e. intros e.
  specialize (Hc' msg). specialize (Hm' msg). specialize (Hj msg).
  destruct (N.eqb_spec e 0) as [->|He].
  - rewrite !andb_true_l. repeat case_bool_decide; rewrite ?andb_false_r;
      try (rewrite (proj2 (N.eqb_neq 0 EXTENSION_TYPE_EXTENSIONS_NEGOTIATION)) by lia; simpl);
      destruct t; simpl; try done; intuition (try lia; try done).
  - simpl. destruct (N.eqb_spec e EXTENSION_TYPE_EXTENSIONS_NEGOTIATION) as [->|]; simpl;
      [case_bool_decide|]; destruct t; simpl; try done; intuition (try lia; try done).
Qed.

(** The JD server accepts a connection exactly when the client asks for the
    job declaration protocol, offers version 2 and sets the lowest flag bit
    (full-template mode); otherwise the handler fails and, when it can, sends
    one error. *)
Theorem jds_setup_accepts_iff open msg :
  ((jds_setup_connection open msg).2 = Ok tt ↔
    open = true ∧ protocol msg = JobDeclarationProtocol ∧
    min_version msg ≤ 2 ≤ max_version msg ∧ N.testbit (flags msg) 0 = true) ∧
  ((jds_setup_connection open msg).2 = Ok tt →
    (jds_setup_connection open msg).1 = [SetupConnectionSuccess 2 0]) ∧
  (open = true → (jds_setup_connection open msg).2 ≠ Ok tt →
    ∃ code, (jds_setup_connection open msg).1 = [SetupConnectionError 0 code]).
Proof.
  pose proof (version_ok_iff msg) as Hv. unfold jds_setup_connection, reject, accept.
  rewrite has_declare_tx_data_bit0.
  destruct (decide (protocol msg = JobDeclarationProtocol)) as [Hp|Hp];
    [rewrite decide_False by (by intros [])|rewrite decide_True by done];
    destruct (version_mismatch msg), (N.testbit (flags msg) 0), open; simpl;
    intuition (try congruence; eauto).
Qed.

(** The two mining servers accept a connection exactly when the client asks
    for the mining protocol and offers version 2 - and, at the JD client, does
    not ask for work selection; the pool records the client's flags and demands
    extended channels exactly from a client with work selection. *)
Theorem mining_setup_accepts_iff work std open msg st old :
  let '(pool_out, pool_st) := pool_setup_connection work std open msg st in
  let '(jdc_out, jdc_st) := jdc_setup_connection work std open msg old in
  (pool_out.2 = Ok tt ↔
     open = true ∧ protocol msg = MiningProtocol ∧ min_version msg ≤ 2 ≤ max_version msg) ∧
  (pool_out.2 = Ok tt → pool_st = (work (flags msg), std (flags msg)) ∧
     pool_out.1 = [SetupConnectionSuccess 2 (if work (flags msg) then 2 else 0)]) ∧
  (jdc_out.2 = Ok tt ↔
     open = true ∧ protocol msg = MiningProtocol ∧ min_version msg ≤ 2 ≤ max_version msg ∧
     work (flags msg) = false) ∧
  (jdc_out.2 = Ok tt → jdc_st = std (flags msg) || old).
Proof.
  pose proof (version_ok_iff msg) as Hv.
  unfold pool_setup_connection, jdc_setup_connection, jdc_reject, reject, accept.
  destruct (decide (protocol msg = MiningProtocol)) as [Hp|Hp];
    [rewrite !decide_False by (by intros [])|rewrite !decide_True by done];
    destruct (version_mismatch msg), (work (flags msg)), (std (flags msg)), open; simpl;
    intuition congruence.
Qed.

(** The numbers of the Stratum V2 specification. *)
Module SetupExamples.
#[local] Instance spec_types : MessageTypes := {|
  MESSAGE_TYPE_SETUP_CONNECTION := 0x00; MESSAGE_TYPE_SETUP_CONNECTION_SUCCESS := 0x01;
  MESSAGE_TYPE_SETUP_CONNECTION_ERROR := 0x02; MESSAGE_TYPE_CHANNEL_ENDPOINT_CHANGED := 0x03;
  MESSAGE_TYPE_RECONNECT := 0x04;
  MESSAGE_TYPE_OPEN_STANDARD_MINING_CHANNEL := 0x10;
  MESSAGE_TYPE_OPEN_STANDARD_MINING_CHANNEL_SUCCESS := 0x11;
  MESSAGE_TYPE_OPEN_MINING_CHANNEL_ERROR := 0x12;
  MESSAGE_TYPE_OPEN_EXTENDED_MINING_CHANNEL := 0x13;
  MESSAGE_TYPE_OPEN_EXTENDED_MINING_CHANNEL_SUCCESS := 0x14;
  MESSAGE_TYPE_NEW_MINING_JOB := 0x15; MESSAGE_TYPE_UPDATE_CHANNEL := 0x16;
  MESSAGE_TYPE_UPDATE_CHANNEL_ERROR := 0x17; MESSAGE_TYPE_CLOSE_CHANNEL := 0x18;
  MESSAGE_TYPE_SET_EXTRANONCE_PREFIX := 0x19; MESSAGE_TYPE_SUBMIT_SHARES_STANDARD := 0x1a;
  MESSAGE_TYPE_SUBMIT_SHARES_EXTENDED := 0x1b; MESSAGE_TYPE_SUBMIT_SHARES_SUCCESS := 0x1c;
  MESSAGE_TYPE_SUBMIT_SHARES_ERROR := 0x1d; MESSAGE_TYPE_NEW_EXTENDED_MINING_JOB := 0x1f;
  MESSAGE_TYPE_MINING_SET_NEW_PREV_HASH := 0x20; MESSAGE_TYPE_SET_TARGET := 0x21;
  MESSAGE_TYPE_SET_CUSTOM_MINING_JOB := 0x22; MESSAGE_TYPE_SET_CUSTOM_MINING_JOB_SUCCESS := 0x23;
  MESSAGE_TYPE_SET_CUSTOM_MINING_JOB_ERROR := 0x24; MESSAGE_TYPE_SET_GROUP_CHANNEL := 0x25;
  MESSAGE_TYPE_ALLOCATE_MINING_JOB_TOKEN := 0x50;
  MESSAGE_TYPE_ALLOCATE_MINING_JOB_TOKEN_SUCCESS := 0x51;
  MESSAGE_TYPE_PROVIDE_MISSING_TRANSACTIONS := 0x55;
  MESSAGE_TYPE_PROVIDE_MISSING_TRANSACTIONS_SUCCESS := 0x56;
  MESSAGE_TYPE_DECLARE_MINING_JOB := 0x57; MESSAGE_TYPE_DECLARE_MINING_JOB_SUCCESS := 0x58;
  MESSAGE_TYPE_DECLARE_MINING_JOB_ERROR := 0x59; MESSAGE_TYPE_PUSH_SOLUTION := 0x60;
  MESSAGE_TYPE_COINBASE_OUTPUT_CONSTRAINTS := 0x70; MESSAGE_TYPE_NEW_TEMPLATE := 0x71;
  MESSAGE_TYPE_SET_NEW_PREV_HASH := 0x72; MESSAGE_TYPE_REQUEST_TRANSACTION_DATA := 0x73;
  MESSAGE_TYPE_REQUEST_TRANSACTION_DATA_SUCCESS := 0x74;
  MESSAGE_TYPE_REQUEST_TRANSACTION_DATA_ERROR := 0x75; MESSAGE_TYPE_SUBMIT_SOLUTION := 0x76;
  EXTENSION_TYPE_EXTENSIONS_NEGOTIATION := 1; MESSAGE_TYPE_REQUEST_EXTENSIONS := 0x00;
  MESSAGE_TYPE_REQUEST_EXTENSIONS_SUCCESS := 0x01; MESSAGE_TYPE_REQUEST_EXTENSIONS_ERROR := 0x02
|}.

Lemma spec_types_laws : MessageTypesLaws.
Proof. split; [|done]. apply (bool_decide_unpack _). vm_compute. exact I. Qed.

Lemma protocol_message_type_exact_witness :
  protocol_message_type 0x8000 0x57 = JobDeclaration.
Proof.
  apply (protocol_message_type_exact (HL := spec_types_laws)); [done|].
  split; [by vm_compute|]. apply (bool_decide_unpack _). vm_compute. exact I.
Defined.

Lemma jds_setup_accepts_iff_witness :
  (jds_setup_connection true {| protocol := JobDeclarationProtocol; min_version := 2;
     max_version := 2; flags := 1 |}).1 = [SetupConnectionSuccess 2 0].
Proof. by apply jds_setup_accepts_iff. Defined.

Lemma mining_setup_accepts_iff_witness :
  (pool_setup_connection (λ f, N.testbit f 1) (λ f, N.testbit f 0) true
    {| protocol := MiningProtocol; min_version := 1; max_version := 3; flags := 2 |}
    (false, false)).2 = (true, false).
Proof.
  pose proof (mining_setup_accepts_iff (λ f, N.testbit f 1) (λ f, N.testbit f 0) true
    {| protocol := MiningProtocol; min_version := 1; max_version := 3; flags := 2 |}
    (false, false) false) as Hs.
  by apply Hs.
Defined.
End SetupExamples.
