(* ===== verification/ShareCache.v ===== *)
(** * JD client: the cache of shares waiting for the pool
    ([miner-apps/jd-client/src/lib/utils.rs])

    Miners start on a custom job before the pool has acknowledged it; the
    shares they find in between are cached per template, and the cache keeps
    the best ones.  The [BinaryHeap] is the list of its entries: which of
    several equally bad entries [pop] removes is not specified by the library,
    and the list removes the first. *)
From S2P Require Import Prelude Bitcoin.

(** [ShareValidationError] of the [channels_sv2] crate, of its client and its
    server side. *)
Inductive ShareValidationError : Type :=
| Invalid (code : string) | Stale (code : string) | InvalidJobId (code : string)
| DoesNotMeetTarget (code : string) | DuplicateShare (code : string)
| BadExtranonceSize (code : string) | VersionRollingNotAllowed (code : string)
| SeenSharesBudgetExhausted | OtherShareError.

(** [SubmitSharesExtended]. *)
Record SubmitSharesExtended : Type := {
  sse_channel_id : N; sequence_number : N; sse_job_id : N; nonce : N; ntime : N;
  sse_version : N; extranonce : list byte;
}.

#[export] Instance SubmitSharesExtended_eq_dec : EqDecision SubmitSharesExtended.
Proof. solve_decision. Defined.

(** [SharesOrderedByDiff]; [Target::from_le_bytes] of the share's hash. *)
Record SharesOrderedByDiff : Type := { share : SubmitSharesExtended; share_target : N }.

#[export] Instance SharesOrderedByDiff_eq_dec : EqDecision SharesOrderedByDiff.
Proof. solve_decision. Defined.

Definition CACHED_SHARES_CAPACITY : nat := 100.

(** [SharesOrderedByDiff::new]. *)
Definition new_entry (s : SubmitSharesExtended) (share_hash : list byte) : SharesOrderedByDiff :=
  {| share := s; share_target := from_le_bytes share_hash |}.

(** [BinaryHeap::peek]: an entry with the greatest target. *)
Fixpoint worst (heap : list SharesOrderedByDiff) : option SharesOrderedByDiff :=
  match heap with
  | [] => None
  | e :: rest =>
      match worst rest with
      | Some w => if (share_target e <? share_target w)%N then Some w else Some e
      | None => Some e
      end
  end.

(** [BinaryHeap::pop]. *)
Fixpoint pop_worst (heap : list SharesOrderedByDiff) : list SharesOrderedByDiff :=
  match heap with
  | [] => []
  | e :: rest =>
      match worst rest with
      | Some w => if (share_target e <? share_target w)%N then e :: pop_worst rest else rest
      | None => []
      end
  end.

(** [add_share_to_cache]. *)
Definition add_share_to_cache (heap : list SharesOrderedByDiff) (entry : SharesOrderedByDiff)
    : list SharesOrderedByDiff :=
  if decide (length heap < CACHED_SHARES_CAPACITY)%nat then entry :: heap
  else match worst heap with
  | None => heap
  | Some w =>
      if (share_target entry <? share_target w)%N then entry :: pop_worst heap else heap
  end.

(** ** Lemmas *)
Lemma worst_spec heap w :
  worst heap = Some w →
  heap ≡ₚ w :: pop_worst heap ∧ ∀ e, e ∈ heap → share_target e ≤ share_target w.
Proof.
  revert w. induction heap as [|e heap IH]; intros w; [done|]. simpl.
  destruct (worst heap) as [w'|] eqn:E.
  - destruct (IH w' eq_refl) as [Hp Hmax].
    destruct (N.ltb_spec (share_target e) (share_target w')); intros [= <-].
    + split; [by rewrite Hp at 1; apply Permutation_swap|].
      intros x [->|Hx]%elem_of_cons; [lia|auto].
    + split; [done|]. intros x [->|Hx]%elem_of_cons; [lia|]. specialize (Hmax x Hx). lia.
  - intros [= <-]. destruct heap as [|e' heap]; [|simpl in E; by repeat case_match].
    split; [done|]. intros x [->|Hx%elem_of_nil]%elem_of_cons; [lia|done].
Qed.

Lemma worst_None heap : worst heap = None → heap = [].
Proof. destruct heap; [done|]. simpl. by repeat case_match. Qed.

(** The cache is a best selection of what was offered. *)
Definition best_of (cache offered : list SharesOrderedByDiff) : Prop :=
  length cache = Nat.min CACHED_SHARES_CAPACITY (length offered) ∧
  ∃ dropped, offered ≡ₚ cache ++ dropped ∧
    ∀ c d, c ∈ cache → d ∈ dropped → share_target c ≤ share_target d.

Lemma add_share_best cache offered e :
  best_of cache offered → best_of (add_share_to_cache cache e) (offered ++ [e]).
Proof.
  intros (Hlen & dropped & Hperm & Hle). unfold add_share_to_cache.
  pose proof (Permutation_length Hperm) as Hl. rewrite length_app in Hl.
  case_decide as Hcap.
  - split; [rewrite length_app; cbn [length]; lia|]. exists dropped.
    assert (dropped = []) as -> by (destruct dropped; [done|cbn [length] in *; lia]).
    rewrite app_nil_r in *. split; [by rewrite Hperm, (comm (++))|]. by intros ?? _ ?%elem_of_nil.
  - destruct (worst cache) as [w|] eqn:Ew.
    2: { apply worst_None in Ew as ->. simpl in Hcap. unfold CACHED_SHARES_CAPACITY in *. lia. }
    apply worst_spec in Ew as [Hp Hmax].
    pose proof (Permutation_length Hp) as Hl'. simpl in Hl'.
    destruct (N.ltb_spec (share_target e) (share_target w)).
    + split; [rewrite length_app; cbn [length]; lia|]. exists (w :: dropped). split.
      { generalize dependent (pop_worst cache). intros rest Hp _.
        rewrite Hperm, Hp, (comm (++) _ [e]). simpl. by rewrite Permutation_middle. }
      assert (∀ d, d ∈ w :: dropped → share_target w ≤ share_target d) as Hd.
      { intros d [->|Hd]%elem_of_cons; [done|]. apply Hle; [|done]. rewrite Hp. by left. }
      intros c d [->|Hc]%elem_of_cons Hdin; specialize (Hd d Hdin); [lia|].
      assert (c ∈ cache) as Hc' by (rewrite Hp; by right). specialize (Hmax c Hc'). lia.
    + split; [rewrite length_app; cbn [length]; lia|]. exists (dropped ++ [e]). split.
      { by rewrite Hperm, (assoc_L (++)). }
      intros c d Hc [Hd| ->%list_elem_of_singleton]%elem_of_app; [by apply Hle|].
      specialize (Hmax c Hc). lia.
Qed.

(** ** Properties *)

(** The cache of a template always holds the best of all the shares offered
    to it: as many as fit, and none worse than one that was dropped. *)
Theorem share_cache_keeps_best offered :
  let cache := foldl add_share_to_cache [] offered in
  length cache = Nat.min 100 (length offered) ∧
  ∃ dropped, offered ≡ₚ cache ++ dropped ∧
    ∀ c d, c ∈ cache → d ∈ dropped → share_target c ≤ share_target d.
Proof.
  cut (best_of (foldl add_share_to_cache [] offered) offered); [done|].
  induction offered as [|e offered IH] using rev_ind.
  - split; [done|]. exists []. split; [done|]. by intros ?? ?%elem_of_nil.
  - rewrite foldl_app. by apply add_share_best.
Qed.

