(* ===== verification/ServerChannels.v ===== *)
(** * Mining channels

    The messages of the mining and template distribution protocols, and the
    server-side channels of the [channels_sv2] crate, which the pool and the
    JD client keep for their miners.  The crate is outside the repository:
    [ServerChannels] is what the code uses of it, and [ChannelLaws] what some
    theorems rely on. *)
From S2P Require Import Prelude Bitcoin ShareCache.

(** ** Messages *)

(** [SubmitSharesStandard]. *)
Record SubmitSharesStandard : Type := {
  sss_channel_id : N; sss_sequence_number : N; sss_job_id : N; sss_nonce : N; sss_ntime : N;
  sss_version : N;
}.

(** [SubmitSolution]. *)
Record SubmitSolution : Type := {
  sol_template_id : N; sol_version : N; sol_ntime : N; sol_nonce : N; sol_coinbase_tx : list byte;
}.

(** [SetNewPrevHash] of the template distribution protocol. *)
Record SetNewPrevHash : Type := {
  ph_template_id : N; ph_prev_hash : N; ph_ntime_start : N; ph_n_bits : N; ph_target : N;
}.

(** [NewTemplate]. *)
Record NewTemplate : Type := {
  template_id : N; future_template : bool; nt_version : N; nt_coinbase_tx_version : N;
  nt_coinbase_prefix : list byte; nt_coinbase_tx_input_sequence : N;
  coinbase_tx_value_remaining : N; nt_coinbase_tx_outputs_count : N;
  nt_coinbase_tx_outputs : list byte; nt_coinbase_tx_locktime : N; nt_merkle_path : list N;
}.

Inductive TpMessage : Type :=
| MsgSubmitSolution (m : SubmitSolution)
| MsgCoinbaseOutputConstraints (max_additional_size max_additional_sigops : N)
| MsgRequestTransactionData (template_id : N).

(** ** Coinbase output constraints *)
Section constraints.
(** [TxOut::size] and [total_sigop_cost] of the dummy coinbase with the
    outputs, of the [bitcoin] crate. *)
Context (txout_size : TxOut → N) (coinbase_sigop_cost : list TxOut → N).

Definition as_u32 (n : N) : N := n mod 4294967296.
Definition as_u16 (n : N) : N := n mod 65536.

(** [OFFSET_ADDITIONAL_SIZE], [OFFSET_MAX_SIGOPS]. *)
Definition OFFSET_ADDITIONAL_SIZE : N := 43.
Definition OFFSET_MAX_SIGOPS : N := 4.

(** [coinbase_output_constraints_message]: the sizes are summed as [u32]. *)
Definition coinbase_output_constraints_message (outputs : list TxOut) : N * N :=
  (foldl (λ acc o, as_u32 (acc + as_u32 (txout_size o))) 0 outputs,
   as_u16 (coinbase_sigop_cost outputs)).

(** [coinbase_output_constraints_message_with_offset]. *)
Definition coinbase_output_constraints_message_with_offset (outputs : list TxOut) : N * N :=
  let '(size, sigops) := coinbase_output_constraints_message outputs in
  (as_u32 (size + OFFSET_ADDITIONAL_SIZE), as_u16 (sigops + OFFSET_MAX_SIGOPS)).
End constraints.

(** ** Errors of the channel library *)

(** [StandardChannelError] and [ExtendedChannelError] of the server side, as
    far as the code tells them apart. *)
Inductive ServerChannelError : Type :=
| OpenChannelInvalidNominalHashrate (code : string)
| OpenChannelInvalidMaxTarget (code : string)
| RequestedMinExtranonceSizeTooLarge (code : string)
| UpdateChannelInvalidNominalHashrate (code : string)
| UpdateChannelInvalidMaxTarget (code : string)
| UnlistedChannelError.

Inductive ExtranonceAllocatorError : Type :=
| CapacityExhausted | InvalidRollableSize | OtherAllocatorError.

(** [ShareValidationResult] of a server-side channel. *)
Inductive DownVerdict : Type :=
| DownValid (share_hash : list byte)
| DownBlockFound (share_hash : list byte) (template_id : option N) (coinbase : list byte)
| DownErr (e : ShareValidationError).

(** What the handlers read of a channel's [ShareAccounting]. *)
Record ShareAccounting : Type := {
  should_acknowledge : bool; last_share_sequence_number : N; last_batch_accepted : N;
  last_batch_work_sum : N;
}.

(** ** The channels

    A method with [&mut self] returns the channel it leaves.  Targets are
    256-bit numbers. *)
Class ServerChannels : Type := {
  (** Hash rates ([f32]), their sum and zero. *)
  Hashrate : Type;
  hashrate_zero : Hashrate;
  hashrate_add : Hashrate → Hashrate → Hashrate;
  (** Jobs, and the messages [get_job_message] makes of them. *)
  NewMiningJob : Type;
  StdJob : Type;
  std_job_id : StdJob → N;
  std_job_message : StdJob → NewMiningJob;
  NewExtendedMiningJob : Type;
  ExtJob : Type;
  ext_job_id : ExtJob → N;
  ext_job_message : ExtJob → NewExtendedMiningJob;
  (** [ExtranonceAllocator]; dropping a prefix releases its slot. *)
  ExtranoncePrefix : Type;
  prefix_bytes : ExtranoncePrefix → list byte;
  ExtranonceAllocator : Type;
  allocate_standard : ExtranonceAllocator →
    result ExtranoncePrefix ExtranonceAllocatorError * ExtranonceAllocator;
  allocate_extended : ExtranonceAllocator → N →
    result ExtranoncePrefix ExtranonceAllocatorError * ExtranonceAllocator;
  release_prefix : ExtranonceAllocator → ExtranoncePrefix → ExtranonceAllocator;
  (** [StandardChannel]: the constructors of the pool and of the JD client
      take channel id, user identity, prefix, maximum target and hash rate;
      their other arguments are constants of the configuration. *)
  StdChannel : Type;
  std_new_for_pool : N → string → ExtranoncePrefix → N → Hashrate →
    result StdChannel ServerChannelError;
  std_new_for_job_declaration_client : N → string → ExtranoncePrefix → N → Hashrate →
    option string → result StdChannel ServerChannelError;
  std_user_identity : StdChannel → string;
  std_prefix : StdChannel → ExtranoncePrefix;
  std_target : StdChannel → N;
  std_nominal_hashrate : StdChannel → Hashrate;
  std_share_accounting : StdChannel → ShareAccounting;
  std_get_active_job : StdChannel → option StdJob;
  std_get_future_job : StdChannel → N → option StdJob;
  std_get_future_job_id_from_template_id : StdChannel → N → option N;
  std_validate_share : StdChannel → SubmitSharesStandard → DownVerdict * StdChannel;
  std_on_new_template : StdChannel → NewTemplate → list TxOut →
    result unit ServerChannelError * StdChannel;
  std_on_set_new_prev_hash : StdChannel → SetNewPrevHash →
    result unit ServerChannelError * StdChannel;
  std_on_group_channel_job : StdChannel → ExtJob → result unit ServerChannelError * StdChannel;
  std_update_channel : StdChannel → Hashrate → option N →
    result unit ServerChannelError * StdChannel;
  std_set_stable_hashrate : StdChannel → bool → StdChannel;
  std_set_extranonce_prefix : StdChannel → ExtranoncePrefix →
    result unit ServerChannelError * StdChannel;
  (** [ExtendedChannel]; its constructors also take the rollable size. *)
  ExtChannel : Type;
  ext_new_for_pool : N → string → ExtranoncePrefix → N → Hashrate → N →
    result ExtChannel ServerChannelError;
  ext_new_for_job_declaration_client : N → string → ExtranoncePrefix → N → Hashrate → N →
    option string → result ExtChannel ServerChannelError;
  ext_user_identity : ExtChannel → string;
  ext_prefix : ExtChannel → ExtranoncePrefix;
  ext_target : ExtChannel → N;
  ext_nominal_hashrate : ExtChannel → Hashrate;
  ext_rollable_extranonce_size : ExtChannel → N;
  ext_full_extranonce_size : ExtChannel → N;
  ext_share_accounting : ExtChannel → ShareAccounting;
  ext_get_active_job : ExtChannel → option ExtJob;
  ext_get_future_job : ExtChannel → N → option ExtJob;
  ext_get_future_job_id_from_template_id : ExtChannel → N → option N;
  ext_validate_share : ExtChannel → SubmitSharesExtended → DownVerdict * ExtChannel;
  ext_on_new_template : ExtChannel → NewTemplate → list TxOut →
    result unit ServerChannelError * ExtChannel;
  ext_on_set_new_prev_hash : ExtChannel → SetNewPrevHash →
    result unit ServerChannelError * ExtChannel;
  ext_on_group_channel_job : ExtChannel → ExtJob → result unit ServerChannelError * ExtChannel;
  ext_on_set_custom_mining_job : ExtChannel → SetCustomMiningJob →
    result N ServerChannelError * ExtChannel;
  ext_update_channel : ExtChannel → Hashrate → option N →
    result unit ServerChannelError * ExtChannel;
  ext_set_stable_hashrate : ExtChannel → bool → ExtChannel;
  ext_set_extranonce_prefix : ExtChannel → ExtranoncePrefix →
    result unit ServerChannelError * ExtChannel;
  (** [GroupChannel]. *)
  GroupChannel : Type;
  grp_new : N → option GroupChannel;
  grp_id : GroupChannel → N;
  grp_is_empty : GroupChannel → bool;
  grp_has_channel_id : GroupChannel → N → bool;
  grp_add_channel_id : GroupChannel → N → N → result unit ServerChannelError * GroupChannel;
  grp_remove_channel_id : GroupChannel → N → GroupChannel;
  grp_get_active_job : GroupChannel → option ExtJob;
  grp_get_future_job : GroupChannel → N → option ExtJob;
  grp_get_future_job_id_from_template_id : GroupChannel → N → option N;
  grp_on_new_template : GroupChannel → NewTemplate → list TxOut →
    result unit ServerChannelError * GroupChannel;
  grp_on_set_new_prev_hash : GroupChannel → SetNewPrevHash →
    result unit ServerChannelError * GroupChannel;
  grp_set_full_extranonce_size : GroupChannel → N →
    result unit ServerChannelError * GroupChannel;
  (** [VardiffState]; [try_vardiff] is given hash rate and target of the
      channel and may propose a new hash rate. *)
  Vardiff : Type;
  vardiff_new : option Vardiff;
  increment_shares_since_last_update : Vardiff → Vardiff;
  try_vardiff : Vardiff → Hashrate → N → result (option Hashrate) unit * Vardiff;
  (** [outputs::deserialize_outputs]. *)
  deserialize_outputs : list byte → option (list TxOut);
  (** Error codes of the protocol crates. *)
  ERROR_CODE_SUBMIT_SHARES_INVALID_CHANNEL_ID : string;
  ERROR_CODE_UPDATE_CHANNEL_INVALID_CHANNEL_ID : string;
  ERROR_CODE_OPEN_MINING_CHANNEL_STANDARD_CHANNELS_NOT_SUPPORTED_FOR_CUSTOM_WORK : string;
  ERROR_CODE_OPEN_MINING_CHANNEL_EXTENDED_CHANNELS_NOT_SUPPORTED_FOR_STANDARD_JOBS : string;
  ERROR_CODE_OPEN_MINING_CHANNEL_INVALID_USER_IDENTITY : string;
  ERROR_CODE_OPEN_MINING_CHANNEL_CHANNEL_CAPACITY_EXHAUSTED : string;
  ERROR_CODE_OPEN_MINING_CHANNEL_MIN_EXTRANONCE_SIZE_TOO_LARGE : string;
  ERROR_CODE_SET_CUSTOM_MINING_JOB_JD_NOT_SUPPORTED : string;
  ERROR_CODE_SET_CUSTOM_MINING_JOB_INVALID_CHANNEL_ID : string;
}.

Section channels.
Context `{ServerChannels}.

(** [get_extranonce_prefix]. *)
Definition std_extranonce_prefix (c : StdChannel) : list byte := prefix_bytes (std_prefix c).
Definition ext_extranonce_prefix (c : ExtChannel) : list byte := prefix_bytes (ext_prefix c).

(** Requests of a miner; the identity is the message's as a string
    ([as_utf8_or_hex]). *)
Record OpenStandardMiningChannel : Type := {
  osc_request_id : N; osc_user_identity : string; osc_nominal_hash_rate : Hashrate;
  osc_max_target : N;
}.
Record OpenExtendedMiningChannel : Type := {
  oec_request_id : N; oec_user_identity : string; oec_nominal_hash_rate : Hashrate;
  oec_max_target : N; oec_min_extranonce_size : N;
}.
Record UpdateChannel : Type := {
  uc_channel_id : N; uc_nominal_hash_rate : Hashrate; uc_maximum_target : N;
}.

(** Mining messages to a miner. *)
Inductive MinerMessage : Type :=
| OpenStandardMiningChannelSuccess (request_id channel_id target : N) (extranonce_prefix : list byte)
    (group_channel_id : N)
| OpenExtendedMiningChannelSuccess (request_id channel_id target : N) (extranonce_prefix : list byte)
    (extranonce_size group_channel_id : N)
| OpenMiningChannelError (request_id : N) (error_code : string)
| MsgNewMiningJob (m : NewMiningJob)
| MsgNewExtendedMiningJob (m : NewExtendedMiningJob)
| MsgSetNewPrevHash (channel_id job_id prev_hash ntime_start nbits : N)
| MsgSetTarget (channel_id target : N)
| MsgSetExtranoncePrefix (channel_id : N) (extranonce_prefix : list byte)
| SubmitSharesSuccess (channel_id last_sequence_number accepted_count shares_sum : N)
| SubmitSharesError (channel_id sequence_number : N) (error_code : string)
| UpdateChannelError (channel_id : N) (error_code : string)
| SetCustomMiningJobSuccess (channel_id request_id job_id : N)
| SetCustomMiningJobError (request_id channel_id : N) (error_code : string)
| CloseChannel (channel_id : N) (reason_code : string).
End channels.

(** ** Laws

    What the channel library documents: an operation of a channel keeps the
    channel's extranonce prefix and user identity, a group channel holds the
    channels that were added and not removed, and the allocator hands out only
    prefixes no live prefix equals. *)
Section same.
Context `{ServerChannels}.

Definition std_keeps (c c' : StdChannel) : Prop :=
  std_prefix c' = std_prefix c ∧ std_user_identity c' = std_user_identity c.
Definition ext_keeps (c c' : ExtChannel) : Prop :=
  ext_prefix c' = ext_prefix c ∧ ext_user_identity c' = ext_user_identity c.
Definition grp_keeps (g g' : GroupChannel) : Prop :=
  grp_id g' = grp_id g ∧ ∀ c, grp_has_channel_id g' c = grp_has_channel_id g c.

#[export] Instance std_keeps_preorder : PreOrder std_keeps.
Proof. unfold std_keeps. split; [by split|intros ??? [??] [??]; split; congruence]. Qed.
#[export] Instance ext_keeps_preorder : PreOrder ext_keeps.
Proof. unfold ext_keeps. split; [by split|intros ??? [??] [??]; split; congruence]. Qed.
#[export] Instance grp_keeps_preorder : PreOrder grp_keeps.
Proof.
  unfold grp_keeps. split; [by split|].
  intros ??? [? E1] [? E2]. split; [congruence|]. intros c. by rewrite E2, E1.
Qed.
End same.

Class ChannelLaws (SC : ServerChannels) : Type := {
  std_new_keeps i u p t h c : std_new_for_pool i u p t h = Ok c →
    std_prefix c = p ∧ std_user_identity c = u;
  std_validate_keeps c m : std_keeps c (std_validate_share c m).2;
  std_template_keeps c m o : std_keeps c (std_on_new_template c m o).2;
  std_prev_hash_keeps c m : std_keeps c (std_on_set_new_prev_hash c m).2;
  std_group_job_keeps c j : std_keeps c (std_on_group_channel_job c j).2;
  std_update_keeps c h t : std_keeps c (std_update_channel c h t).2;
  std_stable_keeps c b : std_keeps c (std_set_stable_hashrate c b);
  ext_new_keeps i u p t h n c : ext_new_for_pool i u p t h n = Ok c →
    ext_prefix c = p ∧ ext_user_identity c = u;
  ext_validate_keeps c m : ext_keeps c (ext_validate_share c m).2;
  ext_template_keeps c m o : ext_keeps c (ext_on_new_template c m o).2;
  ext_prev_hash_keeps c m : ext_keeps c (ext_on_set_new_prev_hash c m).2;
  ext_group_job_keeps c j : ext_keeps c (ext_on_group_channel_job c j).2;
  ext_custom_keeps c m : ext_keeps c (ext_on_set_custom_mining_job c m).2;
  ext_update_keeps c h t : ext_keeps c (ext_update_channel c h t).2;
  ext_stable_keeps c b : ext_keeps c (ext_set_stable_hashrate c b);
  grp_new_empty i g : grp_new i = Some g → grp_id g = i ∧ ∀ c, grp_has_channel_id g c = false;
  grp_add_spec g c n g' : grp_add_channel_id g c n = (Ok tt, g') →
    grp_id g' = grp_id g ∧
    ∀ c', grp_has_channel_id g' c' = bool_decide (c' = c) || grp_has_channel_id g c';
  grp_add_failed g c n e g' : grp_add_channel_id g c n = (Err e, g') → grp_keeps g g';
  grp_remove_spec g c : grp_id (grp_remove_channel_id g c) = grp_id g ∧
    ∀ c', grp_has_channel_id (grp_remove_channel_id g c) c' =
      negb (bool_decide (c' = c)) && grp_has_channel_id g c';
  grp_template_keeps g m o : grp_keeps g (grp_on_new_template g m o).2;
  grp_prev_hash_keeps g m : grp_keeps g (grp_on_set_new_prev_hash g m).2;
  (** The prefixes the allocator counts as used. *)
  live : ExtranonceAllocator → ExtranoncePrefix → Prop;
  live_inj a p q : live a p → live a q → prefix_bytes p = prefix_bytes q → p = q;
  allocate_standard_ok a p a' : allocate_standard a = (Ok p, a') →
    ¬ live a p ∧ ∀ q, live a' q ↔ q = p ∨ live a q;
  allocate_standard_err a e a' : allocate_standard a = (Err e, a') → ∀ q, live a' q ↔ live a q;
  allocate_extended_ok a n p a' : allocate_extended a n = (Ok p, a') →
    ¬ live a p ∧ ∀ q, live a' q ↔ q = p ∨ live a q;
  allocate_extended_err a n e a' : allocate_extended a n = (Err e, a') → ∀ q, live a' q ↔ live a q;
  release_spec a p q : live (release_prefix a p) q ↔ live a q ∧ q ≠ p;
}.

#[export] Hint Resolve std_validate_keeps std_template_keeps std_prev_hash_keeps
  std_group_job_keeps std_update_keeps std_stable_keeps ext_validate_keeps ext_template_keeps
  ext_prev_hash_keeps ext_group_job_keeps ext_custom_keeps ext_update_keeps ext_stable_keeps
  grp_template_keeps grp_prev_hash_keeps : sv2.

