(* ===== verification/ShareForward.v ===== *)
(** * JD client: shares on their way to the pool
    ([miner-apps/jd-client/src/lib/channel_manager/], [utils.rs])

    A share from a miner is validated against the miner's channel; a valid
    one is translated to the upstream channel and, when the pool has
    acknowledged the custom job of its template, validated there and
    submitted.  Until then it waits in the cache of its template
    ([ShareCache]), which the answer to [SetCustomMiningJob] empties.  Modelled
    are the handlers of [SubmitSharesStandard], [SubmitSharesExtended],
    [SetCustomMiningJob.Success] and [SetCustomMiningJob.Error], whole.

    The channels of the [channels_sv2] crate are the class [ChannelsSv2].
    Handlers run one after the other, in the channel manager's loop; a
    closure that panics is the outcome [Panic], so locks are never found
    poisoned. *)
From S2P Require Import Prelude SharedMap Bitcoin ValidationEngine ShareCache ServerChannels.

(** ** Messages *)

(** [AllocateMiningJobToken.Success]. *)
Record TokenGrant : Type := {
  tg_request_id : N; tg_mining_job_token : list byte; tg_coinbase_outputs : list byte;
}.

Inductive JdsMessage : Type :=
| MsgAllocateMiningJobToken (request_id : N) (user_identifier : string)
| MsgPushSolution (m : PushSolution)
| MsgDeclareMiningJob (m : DeclareMiningJob)
| MsgProvideMissingTransactionsSuccess (m : ProvideMissingTransactionsSuccess).

(** ** Errors *)
Inductive Action : Type := Log | Disconnect (downstream_id : N) | Fallback | Shutdown.

(** The kinds of [JDCErrorKind] the modelled handlers raise. *)
Inductive JDCErrorKind : Type :=
| BinarySv2 | BitcoinEncodeError | ChannelErrorSender | FramingSv2 | ChannelSv2
| LastDeclareJobNotFound (request_id : N) | LastNewPrevhashNotFound
| DownstreamNotFound (downstream_id : N) | UpstreamNotFound | CustomJobError
| FailedToCreateCustomJob | ChannelManagerHasBadCoinbaseOutputs | DeclareMiningJobRefused
| DeclaredJobHasBadCoinbaseOutputs | FutureTemplateNotPresent | TemplateNotFound (template_id : N)
| TxDataError | ExtranonceSizeTooSmall | ExtranonceSizeTooLarge | OpenMiningChannelRefused
| OpenStandardMiningChannelError | UpstreamClosedChannel | VardiffFailed
| RequiredExtensionsNotSupported (missing : list N)
| ServerRequiresUnsupportedExtensions (unsupported : list N) | UnexpectedMessage.

Record JDCError : Type := { kind : JDCErrorKind; action : Action }.

Definition log k : JDCError := {| kind := k; action := Log |}.
Definition disconnect k d : JDCError := {| kind := k; action := Disconnect d |}.
Definition fallback k : JDCError := {| kind := k; action := Fallback |}.
Definition shutdown k : JDCError := {| kind := k; action := Shutdown |}.

(** ** The channel library *)

(** [ShareValidationResult] of a client-side channel. *)
Inductive UpVerdict : Type := UpValid | UpBlockFound | UpErr (e : ShareValidationError).

Inductive ExtendedChannelError : Type := ChainTipMismatch | OtherChannelError.

Class ChannelsSv2 : Type := {
  (** The miners' channels. *)
  #[global] server_channels :: ServerChannels;
  (** The upstream channel: [client::extended::ExtendedChannel]. *)
  UpChannel : Type;
  up_validate_share : UpChannel → SubmitSharesExtended → UpVerdict * UpChannel;
  up_extranonce_prefix : UpChannel → list byte;
  up_channel_id : UpChannel → N;
  up_full_extranonce_size : UpChannel → N;
  up_set_custom_mining_job_success : UpChannel → SetCustomMiningJob → N * N * N →
    option ExtendedChannelError * UpChannel;
  (** [JobFactory::new_custom_job]. *)
  JobFactory : Type;
  new_custom_job : JobFactory → N → N → list byte → SetNewPrevHash → NewTemplate → list TxOut → N →
    option SetCustomMiningJob * JobFactory;
  (** Error codes of the protocol crates. *)
  ERROR_CODE_SET_CUSTOM_MINING_JOB_STALE_CHAIN_TIP : string;
  ERROR_CODE_DECLARE_MINING_JOB_STALE_CHAIN_TIP : string;
}.

(** The arms of [match err]: [None] is [unreachable!()]. *)
Definition standard_code (e : ShareValidationError) : option string :=
  match e with
  | Invalid code | Stale code | InvalidJobId code | DoesNotMeetTarget code
  | DuplicateShare code | VersionRollingNotAllowed code => Some code
  | _ => None
  end.

Definition extended_code (e : ShareValidationError) : option string :=
  match e with
  | BadExtranonceSize code => Some code
  | _ => standard_code e
  end.

(** ** State *)
Section client.
Context `{ChannelsSv2}.

(** Messages to the pool; the identity of a request is the string the
    client was configured with. *)
Inductive PoolMessage : Type :=
| MsgSubmitSharesExtended (m : SubmitSharesExtended)
| MsgSetCustomMiningJob (m : SetCustomMiningJob)
| MsgOpenExtendedMiningChannel (m : OpenExtendedMiningChannel)
| MsgUpdateChannel (m : UpdateChannel)
| MsgCloseChannel (channel_id : N) (reason_code : string)
| MsgRequestExtensions (request_id : N) (requested : list N).

(** [RouteMessageTo]. *)
Inductive RouteMessageTo : Type :=
| Upstream (m : PoolMessage)
| JobDeclaratorTo (m : JdsMessage)
| TemplateProvider (m : TpMessage)
| ToDownstream (downstream_id : N) (m : MinerMessage).

(** [DeclaredJob]. *)
Record DeclaredJob : Type := {
  dj_declare_mining_job : option DeclareMiningJob; dj_template : NewTemplate;
  dj_prev_hash : option SetNewPrevHash; dj_set_custom_mining_job : option SetCustomMiningJob;
  dj_coinbase_output : list byte; dj_tx_list : list (list byte);
}.

(** [Downstream]; [set_up] tells whether the connection's message loop runs. *)
Record Downstream : Type := {
  group_channel : GroupChannel; extended_channels : gmap N ExtChannel;
  standard_channels : gmap N StdChannel; channel_id_factory : N;
  negotiated_extensions : list N; require_std_job : bool; set_up : bool;
}.

Definition put_std (m : gmap N StdChannel) (ds : Downstream) : Downstream :=
  {| group_channel := group_channel ds; extended_channels := extended_channels ds;
     standard_channels := m; channel_id_factory := channel_id_factory ds;
     negotiated_extensions := negotiated_extensions ds; require_std_job := require_std_job ds;
     set_up := set_up ds |}.
Definition put_ext (m : gmap N ExtChannel) (ds : Downstream) : Downstream :=
  {| group_channel := group_channel ds; extended_channels := m;
     standard_channels := standard_channels ds; channel_id_factory := channel_id_factory ds;
     negotiated_extensions := negotiated_extensions ds; require_std_job := require_std_job ds;
     set_up := set_up ds |}.

(** The state of [ChannelManager] the handlers below touch. *)
Record Client : Type := {
  downstream : gmap N Downstream;
  vardiff : gmap (N * N) Vardiff;
  sequence_number_factory : N;
  last_new_prev_hash : option SetNewPrevHash;
  allocate_tokens : list TokenGrant;
  last_declare_job_store : gmap N DeclaredJob;
  template_id_to_upstream_job_id : gmap N N;
  downstream_channel_id_and_job_id_to_template_id : gmap (N * N * N) N;
  coinbase_outputs : list byte;
  upstream_channel : option UpChannel;
  job_factory : option JobFactory;
  cached_shares : gmap N (list SharesOrderedByDiff);
}.

(** The fields a share handler changes: upstream channel, factory, cache. *)
Definition set_shares (c : Client) up seq cache : Client :=
  {| downstream := downstream c; vardiff := vardiff c; sequence_number_factory := seq;
     last_new_prev_hash := last_new_prev_hash c; allocate_tokens := allocate_tokens c;
     last_declare_job_store := last_declare_job_store c;
     template_id_to_upstream_job_id := template_id_to_upstream_job_id c;
     downstream_channel_id_and_job_id_to_template_id :=
       downstream_channel_id_and_job_id_to_template_id c;
     coinbase_outputs := coinbase_outputs c; upstream_channel := up;
     job_factory := job_factory c; cached_shares := cache |}.

Definition set_miners (c : Client) ds vd : Client :=
  {| downstream := ds; vardiff := vd; sequence_number_factory := sequence_number_factory c;
     last_new_prev_hash := last_new_prev_hash c; allocate_tokens := allocate_tokens c;
     last_declare_job_store := last_declare_job_store c;
     template_id_to_upstream_job_id := template_id_to_upstream_job_id c;
     downstream_channel_id_and_job_id_to_template_id :=
       downstream_channel_id_and_job_id_to_template_id c;
     coinbase_outputs := coinbase_outputs c; upstream_channel := upstream_channel c;
     job_factory := job_factory c; cached_shares := cached_shares c |}.

Definition set_jobs (c : Client) store acknowledged cache : Client :=
  {| downstream := downstream c; vardiff := vardiff c;
     sequence_number_factory := sequence_number_factory c;
     last_new_prev_hash := last_new_prev_hash c; allocate_tokens := allocate_tokens c;
     last_declare_job_store := store; template_id_to_upstream_job_id := acknowledged;
     downstream_channel_id_and_job_id_to_template_id :=
       downstream_channel_id_and_job_id_to_template_id c;
     coinbase_outputs := coinbase_outputs c; upstream_channel := upstream_channel c;
     job_factory := job_factory c; cached_shares := cache |}.

(** What a handler does: the messages it hands to [forward], or its error;
    and the state it leaves. *)
Definition Handled : Type := result (list RouteMessageTo) JDCError * Client.

(** ** Submitting to the pool *)

(** [fetch_add(1)] on an [AtomicU32]. *)
Definition fetch_add (n : N) : N := (n + 1) mod 4294967296.

Definition with_number (m : SubmitSharesExtended) (seq : N) : SubmitSharesExtended :=
  {| sse_channel_id := sse_channel_id m; sequence_number := seq; sse_job_id := sse_job_id m;
     nonce := nonce m; ntime := ntime m; sse_version := sse_version m; extranonce := extranonce m |}.

Definition with_job (m : SubmitSharesExtended) (job : N) : SubmitSharesExtended :=
  {| sse_channel_id := sse_channel_id m; sequence_number := sequence_number m; sse_job_id := job;
     nonce := nonce m; ntime := ntime m; sse_version := sse_version m; extranonce := extranonce m |}.

Definition push_solution (ph : SetNewPrevHash) (m : SubmitSharesExtended) (en : list byte)
    : PushSolution :=
  {| ps_extranonce := en; ps_ntime := ntime m; ps_nonce := nonce m; ps_version := sse_version m;
     ps_nbits := ph_n_bits ph; ps_prev_hash := ph_prev_hash ph |}.

(** [match upstream_channel.validate_share(...)], the same in the three
    places a share is submitted but for the extranonce of a solution and the
    errors it lists.  [Err tt]: the extranonce of a solution is too long. *)
Definition validate_upstream (code : ShareValidationError → option string)
    (solution_extranonce : UpChannel → list byte) (ph : SetNewPrevHash)
    (m : SubmitSharesExtended) (up : UpChannel) (factory : N)
    : rust (result (list RouteMessageTo) unit * UpChannel * N) :=
  let '(verdict, up') := up_validate_share up m in
  let submit := Upstream (MsgSubmitSharesExtended (with_number m factory)) in
  match verdict with
  | UpValid => Done (Ok [submit], up', fetch_add factory)
  | UpBlockFound =>
      let en := solution_extranonce up' in
      if fits_b032 en
      then Done (Ok [JobDeclaratorTo (MsgPushSolution (push_solution ph m en)); submit], up',
                 fetch_add factory)
      else Done (Err tt, up', fetch_add factory)
  | UpErr e => match code e with Some _ => Done (Ok [], up', factory) | None => Panic end
  end.

Definition full_extranonce (m : SubmitSharesExtended) (up : UpChannel) : list byte :=
  up_extranonce_prefix up ++ extranonce m.

(** [validate_cached_share]: the solution's extranonce is [expect]ed to fit. *)
Definition validate_cached_share (m : SubmitSharesExtended) (ph : SetNewPrevHash)
    (st : UpChannel * N * list RouteMessageTo) : rust (UpChannel * N * list RouteMessageTo) :=
  let '(up, factory, messages) := st in
  r ← validate_upstream extended_code (full_extranonce m) ph m up factory;
  match r with
  | (Ok out, up', factory') => Done (up', factory', messages ++ out)
  | (Err tt, _, _) => Panic
  end.

(** The loop over the cached shares in [handle_set_custom_mining_job_success]. *)
Fixpoint forward_cached (job_id : N) (ph : SetNewPrevHash) (shares : list SharesOrderedByDiff)
    (st : UpChannel * N * list RouteMessageTo) : rust (UpChannel * N * list RouteMessageTo) :=
  match shares with
  | [] => Done st
  | s :: rest =>
      st' ← validate_cached_share (with_job (share s) job_id) ph st;
      forward_cached job_id ph rest st'
  end.

(** ** Shares from the miners *)

(** The end of both share handlers: submit, or wait in the cache. *)
Definition submit_or_cache (code : ShareValidationError → option string)
    (solution_extranonce : SubmitSharesExtended → UpChannel → list byte) (ph : SetNewPrevHash)
    (upstream_message : SubmitSharesExtended) (share_hash : list byte) (template : option N)
    (up : UpChannel) (c : Client) : rust Handled :=
  match template ≫= λ t, template_id_to_upstream_job_id c !! t with
  | Some upstream_job_id =>
      let m := with_job upstream_message upstream_job_id in
      '(r, up', factory') ← validate_upstream code (solution_extranonce m) ph m up
        (sequence_number_factory c);
      let c' := set_shares c (Some up') factory' (cached_shares c) in
      Done (match r with Ok out => Ok out | Err tt => Err (shutdown BinarySv2) end, c')
  | None =>
      match template with
      | Some t =>
          let entry := new_entry upstream_message share_hash in
          let heap := default [] (cached_shares c !! t) in
          Done (Ok [], set_shares c (upstream_channel c) (sequence_number_factory c)
                         (<[t := add_share_to_cache heap entry]> (cached_shares c)))
      | None => Done (Ok [], c)
      end
  end.

(** [&prefix[n..]]. *)
Definition slice_from (prefix : list byte) (n : nat) : rust (list byte) :=
  if decide (n ≤ length prefix)%nat then Done (drop n prefix) else Panic.

Definition template_of_job (c : Client) (d channel job : N) : option N :=
  downstream_channel_id_and_job_id_to_template_id c !! (d, channel, job).

(** The [upstream_channel] closure of [handle_submit_shares_standard]. *)
Definition standard_upstream (d : N) (ph : SetNewPrevHash) (msg : SubmitSharesStandard)
    (std : StdChannel) (share_hash : list byte) (c : Client) : rust Handled :=
  match upstream_channel c with
  | None => Done (Ok [], c)
  | Some up =>
      en ← slice_from (std_extranonce_prefix std) (length (up_extranonce_prefix up));
      if fits_b032 en then
        submit_or_cache standard_code (λ _ _, std_extranonce_prefix std) ph
          {| sse_channel_id := up_channel_id up; sequence_number := 0; sse_job_id := 0;
             nonce := sss_nonce msg; ntime := sss_ntime msg; sse_version := sss_version msg;
             extranonce := en |}
          share_hash (template_of_job c d (sss_channel_id msg) (sss_job_id msg)) up c
      else Done (Err (shutdown BinarySv2), c)
  end.

(** The [upstream_channel] closure of [handle_submit_shares_extended]. *)
Definition extended_upstream (d : N) (ph : SetNewPrevHash) (msg : SubmitSharesExtended)
    (ext : ExtChannel) (share_hash : list byte) (c : Client) : rust Handled :=
  match upstream_channel c with
  | None => Done (Ok [], c)
  | Some up =>
      prefix ← slice_from (ext_extranonce_prefix ext) (length (up_extranonce_prefix up));
      let en := prefix ++ extranonce msg in
      if fits_b032 en then
        submit_or_cache extended_code full_extranonce ph
          {| sse_channel_id := up_channel_id up; sequence_number := 0;
             sse_job_id := sse_job_id msg; nonce := nonce msg; ntime := ntime msg;
             sse_version := sse_version msg; extranonce := en |}
          share_hash (template_of_job c d (sse_channel_id msg) (sse_job_id msg)) up c
      else Done (Err (disconnect BinarySv2 d), c)
  end.

(** The downstream half of both handlers: the share is refused, or valid
    with its hash and the messages for miner and template provider. *)
Inductive Judged : Type :=
| JudgedValid (share_hash : list byte) (messages : list RouteMessageTo)
| JudgedAnswered (messages : list RouteMessageTo)
| JudgedError (e : JDCError).

Definition share_success (d channel : N) (acc : ShareAccounting) : RouteMessageTo :=
  ToDownstream d (SubmitSharesSuccess channel (last_share_sequence_number acc)
                    (last_batch_accepted acc) (last_batch_work_sum acc)).

Definition judge_share (code : ShareValidationError → option string)
    (d channel seq version ntime nonce : N) (verdict : DownVerdict) (acc : ShareAccounting)
    : rust Judged :=
  match verdict with
  | DownValid hash =>
      Done (JudgedValid hash (if should_acknowledge acc then [share_success d channel acc] else []))
  | DownBlockFound hash (Some t) coinbase =>
      if fits_b064k coinbase then
        Done (JudgedValid hash
          [TemplateProvider (MsgSubmitSolution
             {| sol_template_id := t; sol_version := version; sol_ntime := ntime;
                sol_nonce := nonce; sol_coinbase_tx := coinbase |});
           share_success d channel acc])
      else Done (JudgedError (shutdown BinarySv2))
  | DownBlockFound hash None _ => Done (JudgedValid hash [share_success d channel acc])
  | DownErr SeenSharesBudgetExhausted => Done (JudgedError (disconnect ChannelSv2 d))
  | DownErr e =>
      match code e with
      | Some c => Done (JudgedAnswered [ToDownstream d (SubmitSharesError channel seq c)])
      | None => Panic
      end
  end.

(** A valid share goes on upstream; its messages come after the answer's. *)
Definition go_upstream (judged : Judged) (up : list byte → rust Handled) (c : Client)
    : rust Handled :=
  match judged with
  | JudgedError e => Done (Err e, c)
  | JudgedAnswered out => Done (Ok out, c)
  | JudgedValid hash out =>
      '(r, c') ← up hash;
      Done (match r with Ok out' => Ok (out ++ out') | Err e => Err e end, c')
  end.

(** After the channel: the share counts for vardiff. *)
Definition count_share (d channel : N) (h : Handled) : Handled :=
  let '(r, c) := h in
  match vardiff c !! (d, channel) with
  | Some v =>
      (r, set_miners c (downstream c)
            (<[(d, channel) := increment_shares_since_last_update v]> (vardiff c)))
  | None => (Ok [ToDownstream d (CloseChannel channel "invalid-channel-id")], c)
  end.

(** [handle_submit_shares_standard]. *)
Definition handle_submit_shares_standard (d : N) (msg : SubmitSharesStandard) (c : Client)
    : rust Handled :=
  let channel := sss_channel_id msg in
  match last_new_prev_hash c with
  | None => Done (Err (disconnect LastNewPrevhashNotFound d), c)
  | Some ph =>
      match downstream c !! d with
      | None => Done (Err (disconnect (DownstreamNotFound d) d), c)
      | Some ds =>
          match standard_channels ds !! channel with
          | None =>
              Done (Ok [ToDownstream d (SubmitSharesError channel (sss_sequence_number msg)
                          ERROR_CODE_SUBMIT_SHARES_INVALID_CHANNEL_ID)], c)
          | Some std =>
              let '(verdict, std') := std_validate_share std msg in
              let c' := set_miners c
                (<[d := put_std (<[channel := std']> (standard_channels ds)) ds]> (downstream c))
                (vardiff c) in
              judged ← judge_share standard_code d channel (sss_sequence_number msg)
                (sss_version msg) (sss_ntime msg) (sss_nonce msg) verdict
                (std_share_accounting std');
              r ← go_upstream judged (λ hash, standard_upstream d ph msg std' hash c') c';
              Done (count_share d channel r)
          end
      end
  end.

(** [handle_submit_shares_extended]; the user identity it reads from the TLV
    fields is not used. *)
Definition handle_submit_shares_extended (d : N) (msg : SubmitSharesExtended) (c : Client)
    : rust Handled :=
  let channel := sse_channel_id msg in
  match last_new_prev_hash c with
  | None => Done (Err (disconnect LastNewPrevhashNotFound d), c)
  | Some ph =>
      match downstream c !! d with
      | None => Done (Err (disconnect (DownstreamNotFound d) d), c)
      | Some ds =>
          match extended_channels ds !! channel with
          | None =>
              Done (Ok [ToDownstream d (SubmitSharesError channel (sequence_number msg)
                          ERROR_CODE_SUBMIT_SHARES_INVALID_CHANNEL_ID)], c)
          | Some ext =>
              let '(verdict, ext') := ext_validate_share ext msg in
              let c' := set_miners c
                (<[d := put_ext (<[channel := ext']> (extended_channels ds)) ds]> (downstream c))
                (vardiff c) in
              judged ← judge_share extended_code d channel (sequence_number msg)
                (sse_version msg) (ntime msg) (nonce msg) verdict (ext_share_accounting ext');
              r ← go_upstream judged (λ hash, extended_upstream d ph msg ext' hash c') c';
              Done (count_share d channel r)
          end
      end
  end.

(** ** The pool's answer to a custom job *)

(** [handle_set_custom_mining_job_success]; [order] is the order in which the
    heap is iterated. *)
Definition handle_set_custom_mining_job_success
    (order : list SharesOrderedByDiff → list SharesOrderedByDiff)
    (channel_id request_id job_id : N) (c : Client) : rust Handled :=
  match SharedMap.remove (last_declare_job_store c) request_id with
  | (None, _) => Done (Err (fallback (LastDeclareJobNotFound request_id)), c)
  | (Some (_, job), store) =>
      let t := template_id (dj_template job) in
      let '(removed, cache) := SharedMap.remove (cached_shares c) t in
      let c1 := set_jobs c store (<[t := job_id]> (template_id_to_upstream_job_id c)) cache in
      match upstream_channel c1 with
      | None => Done (Err (log UpstreamNotFound), c1)
      | Some up =>
          match dj_set_custom_mining_job job with
          | None => Done (Err (shutdown CustomJobError), c1)
          | Some custom =>
              let '(e, up') :=
                up_set_custom_mining_job_success up custom (channel_id, request_id, job_id) in
              let c2 := set_shares c1 (Some up') (sequence_number_factory c1) cache in
              match e with
              | Some ChainTipMismatch => Done (Err (log ChannelSv2), c2)
              | Some OtherChannelError => Done (Err (fallback ChannelSv2), c2)
              | None =>
                  match last_new_prev_hash c2, removed with
                  | Some ph, Some (_, heap) =>
                      '(up'', factory', out) ← forward_cached job_id ph (order heap)
                        (up', sequence_number_factory c2, []);
                      Done (Ok out, set_shares c2 (Some up'') factory' cache)
                  | _, _ => Done (Ok [], c2)
                  end
              end
          end
      end
  end.

(** [handle_set_custom_mining_job_error]. *)
Definition handle_set_custom_mining_job_error (request_id : N) (error_code : string) (c : Client)
    : Handled :=
  if decide (error_code = ERROR_CODE_SET_CUSTOM_MINING_JOB_STALE_CHAIN_TIP) then
    match SharedMap.remove (last_declare_job_store c) request_id with
    | (Some (_, job), store) =>
        (Ok [], set_jobs c store (template_id_to_upstream_job_id c)
                  (SharedMap.remove (cached_shares c) (template_id (dj_template job))).2)
    | (None, _) => (Ok [], c)
    end
  else (Err (fallback CustomJobError), c).

(** ** Runs of the channel manager *)

(** The shares among the messages of a handler. *)
Definition submitted (out : list RouteMessageTo) : list SubmitSharesExtended :=
  omap (λ r, match r with Upstream (MsgSubmitSharesExtended m) => Some m | _ => None end) out.

Definition messages_of (r : result (list RouteMessageTo) JDCError) : list RouteMessageTo :=
  match r with Ok out => out | Err _ => [] end.

(** A share without the job id and sequence number it gets on submission. *)
Definition bare (m : SubmitSharesExtended) : SubmitSharesExtended := with_number (with_job m 0) 0.

(** The share a miner's message stands for on the upstream channel, if it is
    valid on the miner's. *)
Definition standard_offer (d : N) (msg : SubmitSharesStandard) (c : Client)
    : list SubmitSharesExtended :=
  match downstream c !! d ≫= (λ ds, standard_channels ds !! sss_channel_id msg),
        upstream_channel c with
  | Some std, Some up =>
      let '(verdict, std') := std_validate_share std msg in
      match verdict with
      | DownErr _ => []
      | _ => [{| sse_channel_id := up_channel_id up; sequence_number := 0; sse_job_id := 0;
                 nonce := sss_nonce msg; ntime := sss_ntime msg; sse_version := sss_version msg;
                 extranonce :=
                   drop (length (up_extranonce_prefix up)) (std_extranonce_prefix std') |}]
      end
  | _, _ => []
  end.

Definition extended_offer (d : N) (msg : SubmitSharesExtended) (c : Client)
    : list SubmitSharesExtended :=
  match downstream c !! d ≫= (λ ds, extended_channels ds !! sse_channel_id msg),
        upstream_channel c with
  | Some ext, Some up =>
      let '(verdict, ext') := ext_validate_share ext msg in
      match verdict with
      | DownErr _ => []
      | _ => [{| sse_channel_id := up_channel_id up; sequence_number := 0; sse_job_id := 0;
                 nonce := nonce msg; ntime := ntime msg; sse_version := sse_version msg;
                 extranonce :=
                   drop (length (up_extranonce_prefix up)) (ext_extranonce_prefix ext')
                     ++ extranonce msg |}]
      end
  | _, _ => []
  end.

(** One handler, with the valid shares offered to it and the messages it
    sends.  The handlers not modelled here change what they like but the
    numbering and the acknowledged jobs, and touch the cache only to clear it
    (on [SetNewPrevHash]). *)
Inductive client_step (c : Client) :
    list SubmitSharesExtended → list RouteMessageTo → Client → Prop :=
| step_standard d msg r c' :
    handle_submit_shares_standard d msg c = Done (r, c') →
    client_step c (standard_offer d msg c) (messages_of r) c'
| step_extended d msg r c' :
    handle_submit_shares_extended d msg c = Done (r, c') →
    client_step c (extended_offer d msg c) (messages_of r) c'
| step_acknowledged order channel_id request_id job_id r c' :
    (∀ heap, order heap ≡ₚ heap) →
    handle_set_custom_mining_job_success order channel_id request_id job_id c = Done (r, c') →
    client_step c [] (messages_of r) c'
| step_refused request_id error_code r c' :
    handle_set_custom_mining_job_error request_id error_code c = (r, c') →
    client_step c [] (messages_of r) c'
| step_other c' :
    sequence_number_factory c' = sequence_number_factory c →
    template_id_to_upstream_job_id c' = template_id_to_upstream_job_id c →
    cached_shares c' = cached_shares c ∨ cached_shares c' = ∅ →
    client_step c [] [] c'.

Inductive client_run (c : Client) :
    list SubmitSharesExtended → list RouteMessageTo → Client → Prop :=
| run_start : client_run c [] [] c
| run_step offered out c1 offered' out' c2 :
    client_run c offered out c1 → client_step c1 offered' out' c2 →
    client_run c (offered ++ offered') (out ++ out') c2.
End client.

(** ** Accounting for shares *)

(** The entries of a map of lists. *)
Section entries.
Context {A : Type}.
Implicit Types m : gmap N (list A).

Definition entries m : list A := (map_to_list m).*2 ≫= id.

Lemma entries_empty : entries ∅ = [].
Proof. unfold entries. by rewrite map_to_list_empty. Qed.

Lemma entries_insert_fresh m k l : m !! k = None → entries (<[k := l]> m) ≡ₚ l ++ entries m.
Proof. intros. unfold entries. by rewrite map_to_list_insert. Qed.

Lemma entries_delete m k : entries m ≡ₚ default [] (m !! k) ++ entries (delete k m).
Proof.
  destruct (m !! k) as [l|] eqn:E; simpl.
  - rewrite <-(insert_delete_id m k l E) at 1. apply entries_insert_fresh, lookup_delete_eq.
  - by rewrite delete_id.
Qed.

Lemma entries_insert m k l : entries (<[k := l]> m) ≡ₚ l ++ entries (delete k m).
Proof. rewrite <-insert_delete_eq. apply entries_insert_fresh, lookup_delete_eq. Qed.
End entries.

(** The [n] numbers a counter hands out from [f] on. *)
Definition numbers (f : N) (n : nat) : list N := (λ i, (f + N.of_nat i) mod u32_modulus) <$> seq 0 n.

Lemma numbers_app f n1 n2 :
  numbers f (n1 + n2) = numbers f n1 ++ numbers ((f + N.of_nat n1) mod u32_modulus) n2.
Proof.
  unfold numbers. rewrite seq_app, fmap_app. f_equal.
  rewrite (Nat.add_comm 0 n1), <-(fmap_add_seq n1 0 n2), <-list_fmap_compose. apply list_fmap_ext. intros i x _. simpl.
  rewrite N.Div0.add_mod_idemp_l. f_equal. lia.
Qed.

Lemma numbers_small f n :
  f + N.of_nat n ≤ u32_modulus → numbers f n = (λ i, f + N.of_nat i) <$> seq 0 n.
Proof.
  intros Hn. apply list_fmap_ext. intros i x [-> ?]%lookup_seq. apply N.mod_small. lia.
Qed.

Section accounting.
Context `{ChannelsSv2}.
Implicit Types c : Client.

Definition waiting c : list SubmitSharesExtended :=
  bare <$> (share <$> entries (cached_shares c)).

(** What a stretch of the run did with the shares: [n] numbers were used;
    the shares submitted carry some of them, in order, and with those still
    waiting they are among those offered or waiting before. *)
Definition accounted offered c out c' : Prop :=
  ∃ n : nat,
    sequence_number_factory c' = (sequence_number_factory c + N.of_nat n) mod u32_modulus ∧
    (n + length (waiting c') ≤ length offered + length (waiting c))%nat ∧
    (bare <$> submitted out) ++ waiting c' ⊆+ offered ++ waiting c ∧
    (sequence_number <$> submitted out) `sublist_of` numbers (sequence_number_factory c) n.

Lemma accounted_trans o1 c1 out1 c2 o2 out2 c3 :
  accounted o1 c1 out1 c2 → accounted o2 c2 out2 c3 →
  accounted (o1 ++ o2) c1 (out1 ++ out2) c3.
Proof.
  intros (n1 & F1 & L1 & S1 & Q1) (n2 & F2 & L2 & S2 & Q2). exists (n1 + n2)%nat. split_and!.
  - rewrite F2, F1, N.Div0.add_mod_idemp_l. f_equal. lia.
  - rewrite length_app. lia.
  - unfold submitted in *. rewrite omap_app, fmap_app, <-(assoc_L (++)).
    etrans; [apply submseteq_skips_l, S2|].
    rewrite (assoc_L (++)), (comm (++) _ o2), <-(assoc_L (++)).
    etrans; [apply submseteq_skips_l, S1|].
    by rewrite (assoc_L (++)), (comm (++) o2 o1).
  - unfold submitted in *. rewrite omap_app, fmap_app, numbers_app, <-F1. by apply sublist_app.
Qed.

(** A stretch that submits nothing. *)
Lemma accounted_quiet c out c' offered :
  sequence_number_factory c < u32_modulus →
  sequence_number_factory c' = sequence_number_factory c → submitted out = [] →
  waiting c' ⊆+ offered ++ waiting c → accounted offered c out c'.
Proof.
  intros Hf F Q W. exists 0%nat. rewrite Q, F. split_and!.
  - rewrite N.add_0_r. by rewrite N.mod_small.
  - apply submseteq_length in W. rewrite length_app in W. lia.
  - done.
  - apply sublist_nil_l.
Qed.

(** Only factory and cache matter. *)
Lemma accounted_ext offered c out c' c'' :
  sequence_number_factory c'' = sequence_number_factory c' → cached_shares c'' = cached_shares c' →
  accounted offered c out c' → accounted offered c out c''.
Proof. unfold accounted, waiting. by intros -> ->. Qed.

Lemma submitted_app l1 l2 : submitted (l1 ++ l2) = submitted l1 ++ submitted l2.
Proof. apply omap_app. Qed.

(** ** Submission and cache *)
Lemma bare_with_job m j : bare (with_job m j) = bare m.
Proof. done. Qed.
Lemma bare_with_number m j : bare (with_number m j) = bare m.
Proof. done. Qed.

(** One submission uses at most one number, and submits at most the share. *)
Lemma validate_upstream_spec code sol ph m up f r up' f' :
  f < u32_modulus → validate_upstream code sol ph m up f = Done (r, up', f') →
  ∃ n : nat, (n ≤ 1)%nat ∧ f' = (f + N.of_nat n) mod u32_modulus ∧
    ∀ out, r = Ok out →
      submitted out = if decide (n = 0%nat) then [] else [with_number m f].
Proof.
  intros Hf. unfold validate_upstream. destruct (up_validate_share up m) as [[| |e] up1].
  - intros [= <- <- <-]. exists 1%nat. split_and!; [lia|done|]. by intros ? [= <-].
  - case_match; intros [= <- <- <-]; exists 1%nat; (split_and!; [lia|done|]); by intros ? [= <-].
  - case_match; intros [= <- <- <-]. exists 0%nat. split_and!; [lia| |by intros ? [= <-]].
    rewrite N.add_0_r. by rewrite N.mod_small.
Qed.

Lemma numbers_1 f : f < u32_modulus → numbers f 1 = [f].
Proof. intros. unfold numbers. simpl. by rewrite N.add_0_r, N.mod_small. Qed.

Lemma number_lt x : x mod u32_modulus < u32_modulus.
Proof. by apply N.mod_lt. Qed.

(** The cached shares get consecutive numbers. *)
Lemma forward_cached_spec job ph shares up f out0 up' f' out :
  f < u32_modulus → forward_cached job ph shares (up, f, out0) = Done (up', f', out) →
  ∃ (n : nat) out1, out = out0 ++ out1 ∧ (n ≤ length shares)%nat ∧
    f' = (f + N.of_nat n) mod u32_modulus ∧
    (bare <$> submitted out1) `sublist_of` (bare <$> (share <$> shares)) ∧
    (sequence_number <$> submitted out1) = numbers f n ∧
    Forall (λ m, sse_job_id m = job) (submitted out1).
Proof.
  revert up f out0. induction shares as [|s shares IH]; intros up f out0 Hf; simpl.
  { intros [= <- <- <-]. exists 0%nat, []. rewrite app_nil_r, N.add_0_r, N.mod_small by done.
    by split_and!. }
  unfold validate_cached_share. intros ([[up1 f1] o1] & E & Hrest)%rust_bind_done.
  apply rust_bind_done in E as ([[[out2|[]] up2] f2] & Ev & [= <- <- <-]).
  apply validate_upstream_spec in Ev as (n1 & Hn1 & -> & Hs); [|done].
  specialize (Hs _ eq_refl). apply IH in Hrest as (n & out3 & -> & Hn & -> & Hsub & Hnum & Hjob);
    [|apply number_lt].
  exists (n1 + n)%nat, (out2 ++ out3). rewrite submitted_app, !fmap_app, Hs. split_and!.
  - by rewrite (assoc_L (++)).
  - lia.
  - rewrite N.Div0.add_mod_idemp_l. f_equal. lia.
  - case_decide; simpl; [by apply sublist_cons|by apply sublist_skip].
  - rewrite numbers_app, Hnum. case_decide; [by subst|].
    assert (n1 = 1%nat) as -> by lia. by rewrite numbers_1.
  - case_decide; simpl; [done|]. by constructor.
Qed.

Lemma add_share_submseteq heap e : add_share_to_cache heap e ⊆+ e :: heap.
Proof.
  unfold add_share_to_cache. case_decide; [done|].
  destruct (worst heap) as [w|] eqn:E; [|by apply submseteq_cons].
  case_match; [|by apply submseteq_cons]. apply submseteq_skip.
  apply worst_spec in E as [Hp _]. generalize dependent (pop_worst heap). intros l ->.
  by apply submseteq_cons.
Qed.

(** A share is submitted, or waits, or is dropped. *)
Lemma submit_or_cache_accounted code sol ph m hash t up c r c' :
  sequence_number_factory c < u32_modulus →
  submit_or_cache code sol ph m hash t up c = Done (r, c') →
  accounted [bare m] c (messages_of r) c'.
Proof.
  intros Hf. unfold submit_or_cache.
  destruct (t ≫= _) as [j|].
  - intros ([[r1 up1] f1] & Ev & [= <- <-])%rust_bind_done.
    apply validate_upstream_spec in Ev as (n & Hn & Hf1 & Hs); [|done].
    exists n. unfold waiting; simpl. split_and!; [done|lia|..];
      destruct r1 as [out|[]]; simpl; try (by apply submseteq_cons); try apply sublist_nil_l;
      rewrite (Hs out eq_refl).
    + case_decide; simpl; [by apply submseteq_cons|]. by rewrite bare_with_number.
    + case_decide; [apply sublist_nil_l|]. assert (n = 1%nat) as -> by lia. by rewrite numbers_1.
  - destruct t as [t|]; intros [= <- <-]; apply accounted_quiet; try done; cycle 1.
    { by apply submseteq_cons. }
    unfold waiting; simpl. rewrite entries_insert, (entries_delete (cached_shares c) t).
    rewrite !fmap_app, app_comm_cons. apply submseteq_app; [|done].
    change (bare m) with (bare (share (new_entry m hash))). rewrite <-!fmap_cons.
    do 2 apply fmap_submseteq. apply add_share_submseteq.
Qed.

(** Answers to miners and the template provider carry no share. *)
Lemma judge_share_silent code d ch seq v nt no verdict acc j :
  judge_share code d ch seq v nt no verdict acc = Done j →
  match j with
  | JudgedValid _ out => submitted out = [] ∧ ∀ e, verdict ≠ DownErr e
  | JudgedAnswered out => submitted out = []
  | JudgedError _ => True
  end.
Proof. unfold judge_share. intros Hj. repeat case_match; simplify_eq/=; done. Qed.

Lemma accounted_silent offered c out c' :
  sequence_number_factory c < u32_modulus → sequence_number_factory c' = sequence_number_factory c →
  cached_shares c' = cached_shares c → submitted out = [] → accounted offered c out c'.
Proof.
  intros Hf F C Q. apply accounted_quiet; try done. unfold waiting. rewrite C.
  by apply submseteq_inserts_l.
Qed.

Lemma accounted_drop offered c out out' c' :
  submitted out' = submitted out ∨ submitted out' = [] →
  accounted offered c out c' → accounted offered c out' c'.
Proof.
  intros [E|E] (n & F & L & S & Q); exists n; rewrite E; split_and!; try done.
  - etrans; [|exact S]. by apply submseteq_inserts_l.
  - apply sublist_nil_l.
Qed.

Lemma accounted_count offered c d ch r c1 r' c' :
  accounted offered c (messages_of r) c1 → count_share d ch (r, c1) = (r', c') →
  accounted offered c (messages_of r') c'.
Proof.
  intros Ha. unfold count_share. case_match; intros [= <- <-]; [done|].
  eapply accounted_drop; [by right|done].
Qed.

(** The whole path of a share, against the offer it was. *)
Lemma go_upstream_accounted offered c j up r c' :
  sequence_number_factory c < u32_modulus →
  match j with
  | JudgedValid hash out => submitted out = [] ∧
      ∀ r1 c1, up hash = Done (r1, c1) → accounted offered c (messages_of r1) c1
  | JudgedAnswered out => submitted out = []
  | JudgedError _ => True
  end → go_upstream j up c = Done (r, c') → accounted offered c (messages_of r) c'.
Proof.
  intros Hf Hj. destruct j as [hash out|out|e]; simpl.
  - destruct Hj as [Hout Hup]. intros ([r1 c1] & E & [= <- <-])%rust_bind_done.
    eapply accounted_drop; [|by apply Hup]. left.
    destruct r1; simpl; [|done]. by rewrite submitted_app, Hout.
  - intros [= <- <-]. by apply accounted_silent.
  - intros [= <- <-]. by apply accounted_silent.
Qed.

Lemma slice_from_done l n s : slice_from l n = Done s → s = drop n l.
Proof. unfold slice_from. case_decide; naive_solver. Qed.

Ltac silent := intros [= <- <-]; by apply accounted_silent.

Lemma standard_accounted d msg c r c' :
  sequence_number_factory c < u32_modulus → handle_submit_shares_standard d msg c = Done (r, c') →
  accounted (standard_offer d msg c) c (messages_of r) c'.
Proof.
  intros Hf. unfold handle_submit_shares_standard, standard_offer.
  destruct (last_new_prev_hash c) as [ph|]; [|silent].
  destruct (downstream c !! d) as [ds|]; simpl; [|silent].
  destruct (standard_channels ds !! _) as [std|]; [|silent].
  destruct (std_validate_share std msg) as [verdict std'].
  set (c1 := set_miners c _ _). intros (j & Hj & Hr)%rust_bind_done.
  apply judge_share_silent in Hj. apply rust_bind_done in Hr as ([r1 c2] & Hgo & [= Hc]).
  eapply accounted_count; [|exact Hc].
  change (accounted ?o c ?out c2) with (accounted o c1 out c2).
  eapply go_upstream_accounted; [done| |exact Hgo].
  destruct j as [hash out|out|e]; [|done..]. destruct Hj as [Hj Hv]. split; [done|].
  intros r3 c3. unfold standard_upstream. change (upstream_channel c1) with (upstream_channel c).
  destruct (upstream_channel c) as [up|]; [|silent].
  intros (en & ->%slice_from_done & Hsub)%rust_bind_done. case_match.
  - apply submit_or_cache_accounted in Hsub; [|done]. destruct verdict; [exact Hsub..|].
    by destruct (Hv e).
  - injection Hsub as <- <-. by apply accounted_silent.
Qed.

Lemma extended_accounted d msg c r c' :
  sequence_number_factory c < u32_modulus → handle_submit_shares_extended d msg c = Done (r, c') →
  accounted (extended_offer d msg c) c (messages_of r) c'.
Proof.
  intros Hf. unfold handle_submit_shares_extended, extended_offer.
  destruct (last_new_prev_hash c) as [ph|]; [|silent].
  destruct (downstream c !! d) as [ds|]; simpl; [|silent].
  destruct (extended_channels ds !! _) as [ext|]; [|silent].
  destruct (ext_validate_share ext msg) as [verdict ext'].
  set (c1 := set_miners c _ _). intros (j & Hj & Hr)%rust_bind_done.
  apply judge_share_silent in Hj. apply rust_bind_done in Hr as ([r1 c2] & Hgo & [= Hc]).
  eapply accounted_count; [|exact Hc].
  change (accounted ?o c ?out c2) with (accounted o c1 out c2).
  eapply go_upstream_accounted; [done| |exact Hgo].
  destruct j as [hash out|out|e]; [|done..]. destruct Hj as [Hj Hv]. split; [done|].
  intros r3 c3. unfold extended_upstream. change (upstream_channel c1) with (upstream_channel c).
  destruct (upstream_channel c) as [up|]; [|silent].
  intros (en & ->%slice_from_done & Hsub)%rust_bind_done. case_match.
  - apply submit_or_cache_accounted in Hsub; [|done]. destruct verdict; [exact Hsub..|].
    by destruct (Hv e).
  - injection Hsub as <- <-. by apply accounted_silent.
Qed.

(** Dropping the cached shares of a template. *)
Lemma waiting_remove c store ack t :
  waiting (set_jobs c store ack (SharedMap.remove (cached_shares c) t).2) ⊆+ waiting c.
Proof.
  unfold waiting, SharedMap.remove. simpl.
  do 2 apply fmap_submseteq. rewrite (entries_delete (cached_shares c) t).
  by apply submseteq_inserts_l.
Qed.

Lemma acknowledged_accounted order ch rid job c r c' :
  (∀ heap, order heap ≡ₚ heap) → sequence_number_factory c < u32_modulus →
  handle_set_custom_mining_job_success order ch rid job c = Done (r, c') →
  accounted [] c (messages_of r) c'.
Proof.
  intros Horder Hf. unfold handle_set_custom_mining_job_success.
  destruct (SharedMap.remove _ rid) as [[[drid dj]|] store]; [|silent].
  set (t := template_id (dj_template dj)). set (ack := <[t := job]> _).
  pose proof (waiting_remove c store ack t) as Hw.
  destruct (SharedMap.remove (cached_shares c) t) as [removed cache] eqn:Er. simpl in Hw. simpl.
  destruct (upstream_channel c) as [up|]; [|intros [= <- <-]; by apply accounted_quiet].
  destruct (dj_set_custom_mining_job dj) as [custom|]; [|intros [= <- <-]; by apply accounted_quiet].
  destruct (up_set_custom_mining_job_success _ _ _) as [[[]|] up'];
    [intros [= <- <-]; by apply accounted_quiet..|].
  destruct (last_new_prev_hash c) as [ph|]; [|intros [= <- <-]; by apply accounted_quiet].
  destruct removed as [[rt heap]|]; [|intros [= <- <-]; by apply accounted_quiet].
  intros ([[up2 f2] out] & Hfwd & [= <- <-])%rust_bind_done.
  apply forward_cached_spec in Hfwd as (n & out1 & -> & Hn & -> & Hsub & Hnum & _); [|done].
  assert (waiting c ≡ₚ (bare <$> (share <$> order heap)) ++ (bare <$> (share <$> entries cache)))
    as Hwait.
  { unfold SharedMap.remove in Er. destruct (cached_shares c !! t) as [h|] eqn:Et; [|done].
    injection Er as _ -> <-. unfold waiting. rewrite (entries_delete _ t), Et. simpl.
    by rewrite !fmap_app, (Horder heap). }
  simpl. exists n. unfold waiting at 1 3; simpl. split_and!; [done|..].
  - rewrite Hwait, length_app, !length_fmap. lia.
  - rewrite Hwait. apply submseteq_app; [by apply sublist_submseteq|done].
  - by rewrite Hnum.
Qed.

Lemma refused_accounted rid code c r c' :
  sequence_number_factory c < u32_modulus →
  handle_set_custom_mining_job_error rid code c = (r, c') →
  accounted [] c (messages_of r) c'.
Proof.
  intros Hf. unfold handle_set_custom_mining_job_error. case_decide; [|silent].
  destruct (SharedMap.remove _ rid) as [[[? dj]|] store]; [|silent].
  intros [= <- <-]. apply accounted_quiet; try done. apply waiting_remove.
Qed.

Lemma step_accounted c offered out c' :
  sequence_number_factory c < u32_modulus → client_step c offered out c' →
  accounted offered c out c'.
Proof.
  intros Hf [d msg r c1 E|d msg r c1 E|order ch rid job r c1 Ho E|rid code r c1 E|c1 F _ C].
  - by apply standard_accounted.
  - by apply extended_accounted.
  - by eapply acknowledged_accounted.
  - by eapply refused_accounted.
  - apply accounted_quiet; try done. unfold waiting. destruct C as [-> | ->]; [done|].
    rewrite entries_empty. apply submseteq_nil_l.
Qed.

Lemma accounted_bound offered c out c' :
  accounted offered c out c' → sequence_number_factory c' < u32_modulus.
Proof. intros (n & -> & _). apply number_lt. Qed.

Lemma run_accounted c offered out c' :
  sequence_number_factory c < u32_modulus → client_run c offered out c' →
  accounted offered c out c'.
Proof.
  intros Hf. induction 1 as [|offered out c1 offered' out' c2 _ IH Hstep].
  - by apply accounted_silent.
  - eapply accounted_trans; [exact IH|]. apply step_accounted; [|done].
    by eapply accounted_bound.
Qed.

(** ** No share waits for an acknowledged job *)
Definition cache_ok c : Prop :=
  ∀ t heap, cached_shares c !! t = Some heap →
    template_id_to_upstream_job_id c !! t = None ∧ (length heap ≤ CACHED_SHARES_CAPACITY)%nat.

Lemma add_share_length heap e :
  (length heap ≤ CACHED_SHARES_CAPACITY →
   length (add_share_to_cache heap e) ≤ CACHED_SHARES_CAPACITY)%nat.
Proof.
  intros Hl. unfold add_share_to_cache. case_decide; simpl; [lia|].
  destruct (worst heap) as [w|] eqn:E; [|done]. case_match; [|done].
  apply worst_spec in E as [Hp%Permutation_length _]. simpl in *. lia.
Qed.

Lemma submit_or_cache_ok code sol ph m hash t up c r c' :
  cache_ok c → submit_or_cache code sol ph m hash t up c = Done (r, c') → cache_ok c'.
Proof.
  intros Hok. unfold submit_or_cache. destruct (t ≫= _) as [j|] eqn:Et.
  - by intros ([[r1 up1] f1] & _ & [= <- <-])%rust_bind_done.
  - destruct t as [t|]; intros [= <- <-]; [|done]. intros t' heap. simpl in *.
    intros [[<- <-]|[Hne Ht]]%lookup_insert_Some; [split; [done|]|by apply Hok].
    apply add_share_length. destruct (cached_shares c !! t) as [h|] eqn:Eh; simpl; [|lia].
    by eapply Hok.
Qed.

Lemma count_share_ok d ch h r c' : cache_ok h.2 → count_share d ch h = (r, c') → cache_ok c'.
Proof. unfold count_share. destruct h. case_match; by intros ? [= <- <-]. Qed.

Lemma go_upstream_ok j up c r c' :
  cache_ok c → (∀ hash r1 c1, up hash = Done (r1, c1) → cache_ok c1) →
  go_upstream j up c = Done (r, c') → cache_ok c'.
Proof.
  intros Hok Hup. destruct j; simpl; [|naive_solver..].
  intros ([r1 c1] & E & [= <- <-])%rust_bind_done. by eapply Hup.
Qed.

Lemma standard_cache_ok d msg c r c' :
  cache_ok c → handle_submit_shares_standard d msg c = Done (r, c') → cache_ok c'.
Proof.
  intros Hok. unfold handle_submit_shares_standard. repeat case_match; try by intros [= <- <-].
  intros (j & _ & ([r1 c2] & Hgo & [= Hc])%rust_bind_done)%rust_bind_done.
  eapply (count_share_ok _ _ (r1, c2)); [|exact Hc]. eapply go_upstream_ok; [| |exact Hgo]; [done|].
  intros hash r3 c3. unfold standard_upstream. destruct (upstream_channel _) as [up|]; [|by intros [= <- <-]].
  intros (en & _ & Hsub)%rust_bind_done. destruct (fits_b032 _); [|by injection Hsub as <- <-].
  eapply submit_or_cache_ok; [|exact Hsub]. exact Hok.
Qed.

Lemma extended_cache_ok d msg c r c' :
  cache_ok c → handle_submit_shares_extended d msg c = Done (r, c') → cache_ok c'.
Proof.
  intros Hok. unfold handle_submit_shares_extended. repeat case_match; try by intros [= <- <-].
  intros (j & _ & ([r1 c2] & Hgo & [= Hc])%rust_bind_done)%rust_bind_done.
  eapply (count_share_ok _ _ (r1, c2)); [|exact Hc]. eapply go_upstream_ok; [| |exact Hgo]; [done|].
  intros hash r3 c3. unfold extended_upstream. destruct (upstream_channel _) as [up|]; [|by intros [= <- <-]].
  intros (en & _ & Hsub)%rust_bind_done. destruct (fits_b032 _); [|by injection Hsub as <- <-].
  eapply submit_or_cache_ok; [|exact Hsub]. exact Hok.
Qed.

(** Acknowledging or refusing a job empties the cache of its template. *)
Lemma set_jobs_ok c store ack t :
  cache_ok c → (∀ t', t' ≠ t → ack !! t' = template_id_to_upstream_job_id c !! t') →
  cache_ok (set_jobs c store ack (delete t (cached_shares c))).
Proof.
  intros Hok Hack t' heap. simpl. intros [Hne Ht]%lookup_delete_Some.
  rewrite Hack by done. by apply Hok.
Qed.

Lemma acknowledged_cache_ok order ch rid job c r c' :
  cache_ok c → handle_set_custom_mining_job_success order ch rid job c = Done (r, c') →
  cache_ok c'.
Proof.
  intros Hok. unfold handle_set_custom_mining_job_success, SharedMap.remove.
  destruct (last_declare_job_store c !! rid) as [dj|]; simpl; [|by intros [= <- <-]].
  set (t := template_id (dj_template dj)).
  pose proof (set_jobs_ok c (delete rid (last_declare_job_store c))
    (<[t := job]> (template_id_to_upstream_job_id c)) t Hok) as Hok1.
  repeat case_match; intros E; simplify_eq/=;
    try (by apply Hok1; intros; apply lookup_insert_ne).
  apply rust_bind_done in E as ([[up2 f2] out] & _ & [= <- <-]).
  by apply Hok1; intros; apply lookup_insert_ne.
Qed.

Lemma step_cache_ok c offered out c' :
  cache_ok c → client_step c offered out c' → cache_ok c'.
Proof.
  intros Hok [d msg r c1 E|d msg r c1 E|order ch rid job r c1 Ho E|rid code r c1 E|c1 _ Hack C].
  - by eapply standard_cache_ok.
  - by eapply extended_cache_ok.
  - by eapply acknowledged_cache_ok.
  - revert E. unfold handle_set_custom_mining_job_error, SharedMap.remove.
    case_decide; [|by intros [= <- <-]].
    destruct (last_declare_job_store c !! rid); intros [= <- <-]; [|done]. by apply set_jobs_ok.
  - intros t heap. rewrite Hack. destruct C as [-> | ->]; [apply Hok|]. by rewrite lookup_empty.
Qed.

Lemma run_cache_ok c offered out c' :
  cache_ok c → client_run c offered out c' → cache_ok c'.
Proof. intros Hok. induction 1; [done|by eapply step_cache_ok]. Qed.

(** ** What an acknowledgement submits *)

(** The shares the upstream channel accepts, offered one after the other. *)
Fixpoint accepted (up : UpChannel) (shares : list SubmitSharesExtended)
    : list SubmitSharesExtended :=
  match shares with
  | [] => []
  | m :: rest =>
      let '(verdict, up') := up_validate_share up m in
      match verdict with
      | UpErr _ => accepted up' rest
      | _ => m :: accepted up' rest
      end
  end.

(** What is relied on of the upstream channel: its errors are the listed
    ones, and a block is only found with an extranonce of the channel's size. *)
Definition channel_laws : Prop :=
  (∀ up m e, (up_validate_share up m).1 = UpErr e → is_Some (extended_code e)) ∧
  (∀ up m, (up_validate_share up m).1 = UpBlockFound →
     fits_b032 (full_extranonce m (up_validate_share up m).2) = true).

Lemma validate_upstream_returns ph m up f :
  channel_laws →
  ∃ out, validate_upstream extended_code (full_extranonce m) ph m up f =
           Done (Ok out, (up_validate_share up m).2,
                 match (up_validate_share up m).1 with UpErr _ => f | _ => fetch_add f end) ∧
    submitted out =
      match (up_validate_share up m).1 with UpErr _ => [] | _ => [with_number m f] end.
Proof.
  intros [Herr Hfit]. specialize (Herr up m). specialize (Hfit up m). unfold validate_upstream.
  destruct (up_validate_share up m) as [[| |e] up']; simpl in *.
  - by eexists.
  - rewrite Hfit by done. by eexists.
  - destruct (Herr e eq_refl) as [code ->]. by eexists.
Qed.

Lemma numbers_S f n : f < u32_modulus → numbers f (S n) = f :: numbers (fetch_add f) n.
Proof. intros. change (S n) with (1 + n)%nat. by rewrite numbers_app, numbers_1. Qed.

Lemma fetch_add_more f n :
  (fetch_add f + N.of_nat n) mod u32_modulus = (f + N.of_nat (S n)) mod u32_modulus.
Proof. unfold fetch_add. rewrite N.Div0.add_mod_idemp_l. f_equal. lia. Qed.

Lemma forward_cached_returns job ph shares up f out0 :
  channel_laws → f < u32_modulus →
  ∃ up' f' out, forward_cached job ph shares (up, f, out0) = Done (up', f', out0 ++ out) ∧
    let sent := accepted up ((λ s, with_job (share s) job) <$> shares) in
    submitted out = zip_with with_number sent (numbers f (length sent)) ∧
    f' = (f + N.of_nat (length sent)) mod u32_modulus.
Proof.
  intros Hlaws. revert up f out0. induction shares as [|s shares IH]; intros up f out0 Hf.
  { exists up, f, []. rewrite app_nil_r. split_and!; [done..|]. simpl.
    by rewrite N.add_0_r, N.mod_small. }
  cbn [forward_cached fmap list_fmap accepted].
  set (m := with_job (share s) job).
  destruct (validate_upstream_returns ph m up f Hlaws) as (out1 & Ev & Hs).
  unfold validate_cached_share. rewrite Ev. cbn.
  destruct (up_validate_share up m) as [verdict up1]. cbn in Hs |- *.
  set (f1 := match verdict with UpErr _ => f | _ => fetch_add f end).
  assert (f1 < u32_modulus) as Hf1 by (subst f1; case_match; try done; apply number_lt).
  destruct (IH up1 f1 (out0 ++ out1) Hf1) as (up' & f' & out & -> & Hout & Hf').
  exists up', f', (out1 ++ out). rewrite (assoc_L (++)). split; [done|].
  rewrite submitted_app, Hs, Hout, Hf'. subst f1.
  destruct verdict; [| |done]; cbn [app length]; (split; [|apply fetch_add_more]);
    by rewrite numbers_S.
Qed.
End accounting.

Section properties.
Context `{ChannelsSv2}.
Implicit Types c : Client.

Lemma numbers_from_1 n : N.of_nat n < 4294967295 → numbers 1 n = N.of_nat <$> seq 1 n.
Proof.
  intros Hn. rewrite numbers_small by (unfold u32_modulus; lia).
  change (seq 1 n) with (seq (1 + 0) n).
  rewrite <-(fmap_add_seq 1 0 n), <-list_fmap_compose. apply list_fmap_ext. intros i x _. simpl. lia.
Qed.

Lemma numbers_prefix f n n' : (n ≤ n')%nat → numbers f n `sublist_of` numbers f n'.
Proof.
  intros. rewrite <-(Nat.sub_add n n'), Nat.add_comm, numbers_app by done. by apply sublist_inserts_r.
Qed.

(** Over any run of a new channel manager, every share sent to the pool is
    the translation of a share that was valid on its miner's channel, each
    such share is sent at most once, and the sequence numbers sent are
    strictly increasing, from 1, and at most the number of valid shares. *)
Theorem shares_submitted_at_most_once c offered out c' :
  sequence_number_factory c = 1 → cached_shares c = ∅ →
  N.of_nat (length offered) < 4294967295 →
  client_run c offered out c' →
  (bare <$> submitted out) ⊆+ offered ∧
  (sequence_number <$> submitted out) `sublist_of` (N.of_nat <$> seq 1 (length offered)).
Proof.
  intros Hf Hc Hlen Hrun. assert (waiting c = []) as Hw.
  { unfold waiting. by rewrite Hc, entries_empty. }
  apply run_accounted in Hrun as (n & _ & Hn & Hsub & Hseq); [|by rewrite Hf].
  rewrite Hw, app_nil_r in Hsub. rewrite Hw in Hn. simpl in Hn. rewrite Hf in Hseq. split.
  - etrans; [|exact Hsub]. by apply submseteq_inserts_r.
  - rewrite <-numbers_from_1 by done. etrans; [exact Hseq|]. apply numbers_prefix. lia.
Qed.

(** In every reachable state no share waits for a job the pool has already
    acknowledged, and the cache of a template holds at most 100 shares. *)
Theorem cached_shares_are_pending c offered out c' t heap :
  cached_shares c = ∅ → client_run c offered out c' → cached_shares c' !! t = Some heap →
  template_id_to_upstream_job_id c' !! t = None ∧ (length heap ≤ 100)%nat.
Proof.
  intros Hc Hrun. apply run_cache_ok in Hrun; [apply Hrun|].
  intros t' h. by rewrite Hc, lookup_empty.
Qed.

(** When the pool acknowledges a custom job, the handler returns and
    submits, under the job's id and with consecutive sequence numbers, exactly
    the cached shares of the job's template the upstream channel accepts; the
    declared job and the cached shares are gone and later shares are submitted
    at once. *)
Theorem acknowledged_job_submits order channel_id request_id job_id c dj up custom up' ph heap :
  channel_laws → sequence_number_factory c < 4294967296 →
  last_declare_job_store c !! request_id = Some dj →
  upstream_channel c = Some up → dj_set_custom_mining_job dj = Some custom →
  up_set_custom_mining_job_success up custom (channel_id, request_id, job_id) = (None, up') →
  last_new_prev_hash c = Some ph →
  cached_shares c !! template_id (dj_template dj) = Some heap →
  ∃ out c', handle_set_custom_mining_job_success order channel_id request_id job_id c =
      Done (Ok out, c') ∧
    let sent := accepted up' ((λ s, with_job (share s) job_id) <$> order heap) in
    submitted out =
      zip_with with_number sent (numbers (sequence_number_factory c) (length sent)) ∧
    sequence_number_factory c' =
      (sequence_number_factory c + N.of_nat (length sent)) mod 4294967296 ∧
    last_declare_job_store c' = delete request_id (last_declare_job_store c) ∧
    cached_shares c' = delete (template_id (dj_template dj)) (cached_shares c) ∧
    template_id_to_upstream_job_id c' =
      <[template_id (dj_template dj) := job_id]> (template_id_to_upstream_job_id c).
Proof.
  intros Hlaws Hf Hdj Hup Hcustom Hack Hph Hheap.
  unfold handle_set_custom_mining_job_success, SharedMap.remove. rewrite Hdj. simpl.
  rewrite Hup, Hcustom, Hack, Hph, Hheap. simpl.
  destruct (forward_cached_returns job_id ph (order heap) up' (sequence_number_factory c) [] Hlaws Hf)
    as (up2 & f2 & out & -> & Hout & ->).
  by eexists _, _.
Qed.

(** A share valid on its miner's extended channel is not lost: translated
    to the upstream channel, it is submitted under the job the pool
    acknowledged for its template with the next sequence number when the
    upstream channel accepts it too, and cached for the template when the pool
    has not answered yet. *)
Theorem extended_share_routed d msg c ph ds ext hash ext' v up t :
  let en := drop (length (up_extranonce_prefix up)) (ext_extranonce_prefix ext')
              ++ extranonce msg in
  let m := {| sse_channel_id := up_channel_id up; sequence_number := 0;
              sse_job_id := sse_job_id msg; nonce := nonce msg; ntime := ntime msg;
              sse_version := sse_version msg; extranonce := en |} in
  last_new_prev_hash c = Some ph → downstream c !! d = Some ds →
  extended_channels ds !! sse_channel_id msg = Some ext →
  ext_validate_share ext msg = (DownValid hash, ext') →
  vardiff c !! (d, sse_channel_id msg) = Some v → upstream_channel c = Some up →
  (length (up_extranonce_prefix up) ≤ length (ext_extranonce_prefix ext'))%nat →
  (length en ≤ 32)%nat →
  template_of_job c d (sse_channel_id msg) (sse_job_id msg) = Some t →
  match template_id_to_upstream_job_id c !! t with
  | Some j =>
      (up_validate_share up (with_job m j)).1 = UpValid →
      ∃ out c', handle_submit_shares_extended d msg c = Done (Ok out, c') ∧
        submitted out = [with_number (with_job m j) (sequence_number_factory c)] ∧
        sequence_number_factory c' = (sequence_number_factory c + 1) mod 4294967296
  | None =>
      ∃ out c', handle_submit_shares_extended d msg c = Done (Ok out, c') ∧
        submitted out = [] ∧
        cached_shares c' = <[t := add_share_to_cache (default [] (cached_shares c !! t))
                                    (new_entry m hash)]> (cached_shares c)
  end.
Proof.
  intros en m Hph Hds Hext Hval Hv Hup Hle Hfit Ht.
  assert (handle_submit_shares_extended d msg c =
    r ← go_upstream (JudgedValid hash (if should_acknowledge (ext_share_accounting ext')
              then [share_success d (sse_channel_id msg) (ext_share_accounting ext')] else []))
          (λ hash, submit_or_cache extended_code full_extranonce ph m hash (Some t) up
             (set_miners c
                (<[d := put_ext (<[sse_channel_id msg := ext']> (extended_channels ds)) ds]>
                   (downstream c)) (vardiff c))) c;
    Done (count_share d (sse_channel_id msg) r)) as ->.
  { unfold handle_submit_shares_extended. rewrite Hph, Hds, Hext, Hval. simpl.
    unfold extended_upstream. simpl. rewrite Hup. unfold slice_from. rewrite decide_True by done.
    simpl. fold en. unfold fits_b032. destruct (N.leb_spec (N.of_nat (length en)) 32); [|lia].
    unfold template_of_job in *. simpl. by rewrite Ht. }
  unfold go_upstream, submit_or_cache. simpl.
  destruct (template_id_to_upstream_job_id c !! t) as [j|] eqn:Ej; simpl.
  - intros Hvalid. unfold validate_upstream. destruct (up_validate_share up _) as [verdict up'].
    simpl in Hvalid. subst verdict. simpl. rewrite Hv. eexists _, _. split_and!; [done| |done].
    by destruct (should_acknowledge _).
  - rewrite Hv. eexists _, _. split_and!; [done| |done]. by destruct (should_acknowledge _).
Qed.
End properties.

(** ** Examples *)
Module ShareExamples.

Definition custom_job (channel_id request_id : N) (token : list byte) : SetCustomMiningJob :=
  {| scmj_channel_id := channel_id; scmj_request_id := request_id; scmj_token := token;
     scmj_version := 0; scmj_prev_hash := 0; scmj_ntime_start := 0; scmj_nbits := 0; coinbase_tx_version := 2;
     coinbase_prefix := []; coinbase_tx_input_n_sequence := 0; coinbase_tx_outputs := [];
     coinbase_tx_locktime := 0; merkle_path := [] |}.

(** An upstream channel that remembers nonces, and miners' channels that
    accept everything; nonce 99 finds a block. *)
#[local] Instance toy_server : ServerChannels := {|
  Hashrate := N; hashrate_zero := 0; hashrate_add := N.add;
  NewMiningJob := N; StdJob := N; std_job_id j := j; std_job_message j := j;
  NewExtendedMiningJob := N; ExtJob := N; ext_job_id j := j; ext_job_message j := j;
  ExtranoncePrefix := list byte; prefix_bytes p := p;
  ExtranonceAllocator := unit; allocate_standard a := (Ok [x00; x03], a);
  allocate_extended a _ := (Ok [x00; x03], a); release_prefix a _ := a;
  StdChannel := list byte; std_new_for_pool _ _ p _ _ := Ok p;
  std_new_for_job_declaration_client _ _ p _ _ _ := Ok p; std_user_identity _ := EmptyString;
  std_prefix p := p; std_target _ := 0; std_nominal_hashrate _ := 0;
  std_share_accounting _ :=
    {| should_acknowledge := true; last_share_sequence_number := 1; last_batch_accepted := 1;
       last_batch_work_sum := 1 |};
  std_get_active_job _ := Some 1; std_get_future_job _ _ := Some 1;
  std_get_future_job_id_from_template_id _ _ := Some 1;
  std_validate_share p _ := (DownValid [x05], p);
  std_on_new_template p _ _ := (Ok tt, p); std_on_set_new_prev_hash p _ := (Ok tt, p);
  std_on_group_channel_job p _ := (Ok tt, p); std_update_channel p _ _ := (Ok tt, p);
  std_set_stable_hashrate p _ := p; std_set_extranonce_prefix _ p := (Ok tt, p);
  ExtChannel := list byte; ext_new_for_pool _ _ p _ _ _ := Ok p;
  ext_new_for_job_declaration_client _ _ p _ _ _ _ := Ok p; ext_user_identity _ := EmptyString;
  ext_prefix p := p; ext_target _ := 0; ext_nominal_hashrate _ := 0;
  ext_rollable_extranonce_size _ := 4; ext_full_extranonce_size _ := 8;
  ext_share_accounting _ :=
    {| should_acknowledge := false; last_share_sequence_number := 1; last_batch_accepted := 1;
       last_batch_work_sum := 1 |};
  ext_get_active_job _ := Some 1; ext_get_future_job _ _ := Some 1;
  ext_get_future_job_id_from_template_id _ _ := Some 1;
  ext_validate_share p _ := (DownValid [x05], p);
  ext_on_new_template p _ _ := (Ok tt, p); ext_on_set_new_prev_hash p _ := (Ok tt, p);
  ext_on_group_channel_job p _ := (Ok tt, p); ext_on_set_custom_mining_job p _ := (Ok 1, p);
  ext_update_channel p _ _ := (Ok tt, p);
  ext_set_stable_hashrate p _ := p; ext_set_extranonce_prefix _ p := (Ok tt, p);
  GroupChannel := gset N; grp_new _ := Some ∅; grp_id _ := 1;
  grp_is_empty g := bool_decide (g = ∅); grp_has_channel_id g i := bool_decide (i ∈ g);
  grp_add_channel_id g i _ := (Ok tt, {[ i ]} ∪ g); grp_remove_channel_id g i := g ∖ {[ i ]};
  grp_get_active_job _ := Some 1; grp_get_future_job _ _ := Some 1;
  grp_get_future_job_id_from_template_id _ _ := Some 1;
  grp_on_new_template g _ _ := (Ok tt, g); grp_on_set_new_prev_hash g _ := (Ok tt, g);
  grp_set_full_extranonce_size g _ := (Ok tt, g);
  Vardiff := N; vardiff_new := Some 0; increment_shares_since_last_update := N.succ;
  try_vardiff v _ _ := (Ok None, v);
  deserialize_outputs _ := Some [];
  ERROR_CODE_SUBMIT_SHARES_INVALID_CHANNEL_ID := "invalid-channel-id";
  ERROR_CODE_UPDATE_CHANNEL_INVALID_CHANNEL_ID := "invalid-channel-id";
  ERROR_CODE_OPEN_MINING_CHANNEL_STANDARD_CHANNELS_NOT_SUPPORTED_FOR_CUSTOM_WORK :=
    "standard-channels-not-supported-for-custom-work";
  ERROR_CODE_OPEN_MINING_CHANNEL_EXTENDED_CHANNELS_NOT_SUPPORTED_FOR_STANDARD_JOBS :=
    "extended-channels-not-supported-for-standard-jobs";
  ERROR_CODE_OPEN_MINING_CHANNEL_INVALID_USER_IDENTITY := "invalid-user-identity";
  ERROR_CODE_OPEN_MINING_CHANNEL_CHANNEL_CAPACITY_EXHAUSTED := "channel-capacity-exhausted";
  ERROR_CODE_OPEN_MINING_CHANNEL_MIN_EXTRANONCE_SIZE_TOO_LARGE := "min-extranonce-size-too-large";
  ERROR_CODE_SET_CUSTOM_MINING_JOB_JD_NOT_SUPPORTED := "jd-not-supported";
  ERROR_CODE_SET_CUSTOM_MINING_JOB_INVALID_CHANNEL_ID := "invalid-channel-id";
|}.

#[local] Instance toy_channels : ChannelsSv2 := {|
  server_channels := toy_server;
  UpChannel := list N;
  up_validate_share seen m :=
    if negb (fits_b032 (x00 :: extranonce m))
    then (UpErr (BadExtranonceSize "bad-extranonce-size"), seen)
    else if bool_decide (nonce m ∈ seen) then (UpErr (DuplicateShare "duplicate-share"), seen)
    else if (nonce m =? 99)%N then (UpBlockFound, nonce m :: seen)
    else (UpValid, nonce m :: seen);
  up_extranonce_prefix _ := [x00];
  up_channel_id _ := 7;
  up_full_extranonce_size _ := 20;
  up_set_custom_mining_job_success seen _ _ := (None, seen);
  JobFactory := unit;
  new_custom_job _ channel_id request_id token _ _ _ _ :=
    (Some (custom_job channel_id request_id token), tt);
  ERROR_CODE_SET_CUSTOM_MINING_JOB_STALE_CHAIN_TIP := "stale-chain-tip";
  ERROR_CODE_DECLARE_MINING_JOB_STALE_CHAIN_TIP := "stale-chain-tip";
|}.

Lemma toy_laws : channel_laws.
Proof.
  split; simpl; intros up m; unfold full_extranonce; simpl.
  - intros e. repeat case_match; simpl; intros; simplify_eq/=; eauto.
  - destruct (fits_b032 (x00 :: extranonce m)) eqn:E; [done|by simpl].
Qed.

Definition custom : SetCustomMiningJob := custom_job 7 3 [].

Definition declared : DeclaredJob :=
  {| dj_declare_mining_job := None;
     dj_template := {| template_id := 11; future_template := false; nt_version := 0;
       nt_coinbase_tx_version := 2; nt_coinbase_prefix := []; nt_coinbase_tx_input_sequence := 0;
       coinbase_tx_value_remaining := 0; nt_coinbase_tx_outputs_count := 0;
       nt_coinbase_tx_outputs := []; nt_coinbase_tx_locktime := 0; nt_merkle_path := [] |};
     dj_prev_hash := None; dj_set_custom_mining_job := Some custom; dj_coinbase_output := [];
     dj_tx_list := [] |}.

Definition tip : SetNewPrevHash :=
  {| ph_template_id := 11; ph_prev_hash := 5; ph_ntime_start := 0; ph_n_bits := 0;
     ph_target := 0 |}.

Definition miner : Downstream :=
  {| group_channel := (∅ : gset N); extended_channels := {[ 1 := [x00; x01] ]};
     standard_channels := {[ 2 := [x00; x02] ]}; channel_id_factory := 3;
     negotiated_extensions := []; require_std_job := false; set_up := true |}.

Definition c0 : Client :=
  {| downstream := {[ 4 := miner ]}; vardiff := {[ (4, 1) := 0; (4, 2) := 0 ]};
     sequence_number_factory := 1; last_new_prev_hash := Some tip; allocate_tokens := [];
     last_declare_job_store := {[ 3 := declared ]}; template_id_to_upstream_job_id := ∅;
     downstream_channel_id_and_job_id_to_template_id := {[ (4, 1, 21) := 11; (4, 2, 22) := 11 ]};
     coinbase_outputs := []; upstream_channel := Some []; job_factory := None;
     cached_shares := ∅ |}.

Definition extended_share (n : N) : SubmitSharesExtended :=
  {| sse_channel_id := 1; sequence_number := 40; sse_job_id := 21; nonce := n; ntime := 0;
     sse_version := 0; extranonce := [x09] |}.
Definition standard_share (n : N) : SubmitSharesStandard :=
  {| sss_channel_id := 2; sss_sequence_number := 41; sss_job_id := 22; sss_nonce := n;
     sss_ntime := 0; sss_version := 0 |}.

(** Two shares wait, the pool acknowledges the job, a third share finds a
    block and a fourth repeats the first. *)
Definition h1 := handle_submit_shares_extended 4 (extended_share 31) c0.
Definition c1 := (done_or (Ok [], c0) h1).2.
Definition h2 := handle_submit_shares_standard 4 (standard_share 32) c1.
Definition c2 := (done_or (Ok [], c0) h2).2.
Definition h3 := handle_set_custom_mining_job_success id 7 3 55 c2.
Definition c3 := (done_or (Ok [], c0) h3).2.
Definition h4 := handle_submit_shares_extended 4 (extended_share 99) c3.
Definition c4 := (done_or (Ok [], c0) h4).2.
Definition out_of (h : rust Handled) : list RouteMessageTo := messages_of (done_or (Ok [], c0) h).1.

Lemma done_pair (h : rust Handled) : done_b h = true →
  h = Done ((done_or (Ok [], c0) h).1, (done_or (Ok [], c0) h).2).
Proof. by destruct h as [[]|]. Qed.

Lemma waiting_run :
  client_run c0 (([] ++ extended_offer 4 (extended_share 31) c0)
                 ++ standard_offer 4 (standard_share 32) c1)
    (([] ++ out_of h1) ++ out_of h2) c2.
Proof.
  eapply run_step; [eapply run_step; [apply run_start|]|];
    [eapply step_extended; apply done_pair; vm_eq|eapply step_standard; apply done_pair; vm_eq].
Qed.

Lemma example_run :
  client_run c0 ((((([] ++ extended_offer 4 (extended_share 31) c0)
                 ++ standard_offer 4 (standard_share 32) c1)) ++ [])
                 ++ extended_offer 4 (extended_share 99) c3)
    (((([] ++ out_of h1) ++ out_of h2) ++ out_of h3) ++ out_of h4) c4.
Proof.
  eapply run_step; [eapply run_step; [apply waiting_run|]|].
  - eapply (step_acknowledged _ id 7 3 55); [by intros|]. apply done_pair. vm_eq.
  - eapply step_extended. apply done_pair. vm_eq.
Qed.

Lemma shares_submitted_at_most_once_witness :
  let out := ((([] ++ out_of h1) ++ out_of h2) ++ out_of h3) ++ out_of h4 in
  length (submitted out) = 3%nat ∧
  (bare <$> submitted out) ⊆+ ((((([] ++ extended_offer 4 (extended_share 31) c0)
                 ++ standard_offer 4 (standard_share 32) c1)) ++ [])
                 ++ extended_offer 4 (extended_share 99) c3).
Proof.
  split; [vm_eq|].
  eapply (shares_submitted_at_most_once c0 _ _ c4); [vm_eq|vm_eq| |exact example_run]. unfold N.lt. vm_eq.
Defined.

Lemma cached_shares_are_pending_witness :
  cached_shares c2 !! 11 = Some (default [] (cached_shares c2 !! 11)) ∧
  length (default [] (cached_shares c2 !! 11)) = 2%nat ∧
  template_id_to_upstream_job_id c2 !! 11 = None.
Proof.
  assert (E : cached_shares c2 !! 11 = Some (default [] (cached_shares c2 !! 11))) by vm_eq.
  split; [exact E|]. split; [vm_eq|].
  by destruct (cached_shares_are_pending c0 _ _ c2 11 _ eq_refl waiting_run E).
Defined.

Lemma acknowledged_job_submits_witness :
  ∃ out c', handle_set_custom_mining_job_success id 7 3 55 c2 = Done (Ok out, c') ∧
    length (submitted out) = 2%nat ∧ cached_shares c' !! 11 = None.
Proof.
  destruct (acknowledged_job_submits id 7 3 55 c2 declared [] custom [] tip
    (default [] (cached_shares c2 !! 11)) toy_laws) as (out & c' & E & Hs & _ & _ & Hc & _);
    [unfold N.lt; vm_eq|vm_eq..|].
  exists out, c'. split; [exact E|]. split; [rewrite Hs; vm_eq|].
  rewrite Hc. apply lookup_delete_eq.
Defined.

Lemma extended_share_routed_witness :
  ∃ out c', handle_submit_shares_extended 4 (extended_share 31) c0 = Done (Ok out, c') ∧
    submitted out = [].
Proof.
  destruct (extended_share_routed 4 (extended_share 31) c0 tip miner [x00; x01] [x05] [x00; x01]
    0 [] 11) as (out & c' & E & Hs & _);
    [vm_eq|vm_eq|vm_eq|vm_eq|vm_eq|vm_eq|vm_compute; lia|vm_compute; lia|vm_eq|].
  by exists out, c'.
Defined.
End ShareExamples.
