(* ===== verification/JdClient.v ===== *)
(** * JD client: talking to the JD server
    ([miner-apps/jd-client/src/lib/channel_manager/jd_message_handler.rs],
    [utils.rs], [jd_mode.rs]; [stratum-apps/src/coinbase_output_constraints.rs])

    The client's handlers of the JD server's messages, over the state of
    [ShareForward]; its operating mode, the state of its upstream channel and
    the [SetupConnection] messages it opens its three connections with. *)
From S2P Require Import Prelude SharedMap Bitcoin JobDeclarator Setup ShareCache ServerChannels ShareForward.

Section jds.
Context (txout_size : TxOut → N) (coinbase_sigop_cost : list TxOut → N).

(** ** Messages from the JD server *)
Context `{ChannelsSv2}.
(** [consensus::deserialize] of a vector of outputs; whether a
    [SetCustomMiningJob] fits a frame. *)
Context (deserialize_txouts : list byte → option (list TxOut))
  (frame_fits : SetCustomMiningJob → bool).

(** Which of the outgoing channels still have a receiver. *)
Record Io : Type := { upstream_open : bool; jd_open : bool; tp_open : bool }.

Definition set_jds (c : Client) outputs tokens store factory : Client :=
  {| downstream := downstream c; vardiff := vardiff c;
     sequence_number_factory := sequence_number_factory c;
     last_new_prev_hash := last_new_prev_hash c; allocate_tokens := tokens;
     last_declare_job_store := store;
     template_id_to_upstream_job_id := template_id_to_upstream_job_id c;
     downstream_channel_id_and_job_id_to_template_id :=
       downstream_channel_id_and_job_id_to_template_id c;
     coinbase_outputs := outputs; upstream_channel := upstream_channel c;
     job_factory := factory; cached_shares := cached_shares c |}.

(** [handle_allocate_mining_job_token_success]. *)
Definition handle_allocate_mining_job_token_success (io : Io) (msg : TokenGrant) (c : Client)
    : Handled :=
  let changed := bool_decide (coinbase_outputs c ≠ tg_coinbase_outputs msg) in
  let c' := set_jds c (tg_coinbase_outputs msg) (allocate_tokens c ++ [msg])
              (last_declare_job_store c) (job_factory c) in
  if changed then
    match deserialize_txouts (tg_coinbase_outputs msg) with
    | None => (Err (shutdown BitcoinEncodeError), c')
    | Some outputs =>
        let max_additional_size := sumN txout_size outputs in
        let max_additional_sigops := as_u16 (coinbase_sigop_cost outputs) in
        if tp_open io
        then (Ok [TemplateProvider (MsgCoinbaseOutputConstraints (as_u32 max_additional_size)
                                      max_additional_sigops)], c')
        else (Err (shutdown ChannelErrorSender), c')
    end
  else (Ok [], c').

(** [handle_declare_mining_job_error]. *)
Definition handle_declare_mining_job_error (error_code : string) (c : Client) : Handled :=
  if decide (error_code = ERROR_CODE_DECLARE_MINING_JOB_STALE_CHAIN_TIP)
  then (Ok [], c) else (Err (fallback DeclareMiningJobRefused), c).

Definition with_custom_job (dj : DeclaredJob) (custom : SetCustomMiningJob) : DeclaredJob :=
  {| dj_declare_mining_job := dj_declare_mining_job dj; dj_template := dj_template dj;
     dj_prev_hash := dj_prev_hash dj; dj_set_custom_mining_job := Some custom;
     dj_coinbase_output := dj_coinbase_output dj; dj_tx_list := dj_tx_list dj |}.

(** [handle_declare_mining_job_success]. *)
Definition handle_declare_mining_job_success (io : Io) (request_id : N)
    (new_mining_job_token : list byte) (c : Client) : Handled :=
  match SharedMap.get_cloned (last_declare_job_store c) request_id with
  | None => (Err (log (LastDeclareJobNotFound request_id)), c)
  | Some dj =>
      match dj_prev_hash dj with
      | None => (Err (log LastNewPrevhashNotFound), c)
      | Some prevhash =>
          match deserialize_outputs (dj_coinbase_output dj) with
          | None => (Err (shutdown ChannelManagerHasBadCoinbaseOutputs), c)
          | Some outputs =>
              match upstream_channel c, job_factory c with
              | Some up, Some factory =>
                  let '(built, factory') :=
                    new_custom_job factory (up_channel_id up) request_id new_mining_job_token
                      prevhash (dj_template dj) outputs (up_full_extranonce_size up) in
                  let c1 := set_jds c (coinbase_outputs c) (allocate_tokens c)
                              (last_declare_job_store c) (Some factory') in
                  match built with
                  | None => (Err (log FailedToCreateCustomJob), c1)
                  | Some custom =>
                      let '(updated, store) :=
                        SharedMap.with_mut (last_declare_job_store c1) request_id
                          (λ dj, (tt, with_custom_job dj custom)) in
                      let c2 := set_jds c1 (coinbase_outputs c1) (allocate_tokens c1) store
                                  (job_factory c1) in
                      match updated with
                      | None => (Err (log (LastDeclareJobNotFound request_id)), c2)
                      | Some tt =>
                          if negb (frame_fits custom) then (Err (shutdown FramingSv2), c2)
                          else if upstream_open io
                          then (Ok [Upstream (MsgSetCustomMiningJob custom)], c2)
                          else (Err (fallback ChannelErrorSender), c2)
                      end
                  end
              | _, _ => (Err (log FailedToCreateCustomJob), c)
              end
          end
      end
  end.

(** [B016M::try_from]. *)
Definition fits_b016m (bs : list byte) : bool := (N.of_nat (length bs) <=? 16777215)%N.

(** [handle_provide_missing_transactions]. *)
Definition handle_provide_missing_transactions (io : Io) (request_id : N)
    (unknown_positions : list N) (c : Client) : Handled :=
  match SharedMap.get_cloned (last_declare_job_store c) request_id with
  | None => (Err (log (LastDeclareJobNotFound request_id)), c)
  | Some entry =>
      let full_tx_list := dj_tx_list entry in
      if negb (forallb fits_b016m full_tx_list) then (Err (shutdown BinarySv2), c)
      else
        let missing := omap (λ pos, full_tx_list !! N.to_nat pos) unknown_positions in
        if negb (fits_64k missing) then (Err (shutdown BinarySv2), c)
        else if jd_open io
        then (Ok [JobDeclaratorTo (MsgProvideMissingTransactionsSuccess
                    {| pmts_request_id := request_id; transaction_list := missing |})], c)
        else (Err (fallback ChannelErrorSender), c)
  end.
End jds.

(** ** Upstream state and operating mode *)
Inductive UpstreamState : Type := NoChannel | Pending | Connected | SoloMiningState.

#[export] Instance UpstreamState_eq_dec : EqDecision UpstreamState.
Proof. solve_decision. Defined.

(** [state as u8], and the decoding of [get] and [compare_and_set]. *)
Definition state_u8 (s : UpstreamState) : N :=
  match s with NoChannel => 0 | Pending => 1 | Connected => 2 | SoloMiningState => 3 end.

Definition decode_state (n : N) : rust UpstreamState :=
  match n with
  | 0 => Done NoChannel | 1 => Done Pending | 2 => Done Connected | 3 => Done SoloMiningState
  | _ => Panic
  end.

(** [AtomicUpstreamState]: the shared byte. *)
Definition upstream_new (s : UpstreamState) : N := state_u8 s.
Definition upstream_get (inner : N) : rust UpstreamState := decode_state inner.
Definition upstream_set (inner : N) (s : UpstreamState) : N := state_u8 s.
Definition compare_and_set (inner : N) (current new : UpstreamState)
    : rust (result unit UpstreamState) * N :=
  if (inner =? state_u8 current)%N then (Done (Ok tt), state_u8 new)
  else (s ← decode_state inner; Done (Err s), inner).

Inductive ConfigJDCMode : Type := FullTemplate | CoinbaseOnly | SoloMining.

#[export] Instance ConfigJDCMode_eq_dec : EqDecision ConfigJDCMode.
Proof. solve_decision. Defined.

Definition mode_u8 (m : ConfigJDCMode) : N :=
  match m with FullTemplate => 0 | CoinbaseOnly => 1 | SoloMining => 2 end.

Record JDMode : Type := { mode_inner : N; config_mode : ConfigJDCMode }.

Definition new_mode (c : ConfigJDCMode) : JDMode :=
  {| mode_inner := mode_u8 SoloMining; config_mode := c |}.
Definition set_mode (m : JDMode) (c : ConfigJDCMode) : JDMode :=
  {| mode_inner := mode_u8 c; config_mode := config_mode m |}.
Definition set_solo_mining (m : JDMode) : JDMode := set_mode m SoloMining.
Definition activate_mode (m : JDMode) : JDMode :=
  match config_mode m with
  | CoinbaseOnly => set_mode m CoinbaseOnly
  | FullTemplate => set_mode m FullTemplate
  | SoloMining => set_solo_mining m
  end.
Definition is_solo_mining (m : JDMode) : bool := (mode_inner m =? mode_u8 SoloMining)%N.
Definition is_full_template (m : JDMode) : bool := (mode_inner m =? mode_u8 FullTemplate)%N.
Definition is_coinbase_only (m : JDMode) : bool := (mode_inner m =? mode_u8 CoinbaseOnly)%N.
Definition is_config_full_template (m : JDMode) : bool := bool_decide (config_mode m = FullTemplate).

(** ** SetupConnection messages of the client

    [allow_full_template_mode] of the message crate is a parameter. *)
Definition get_setup_connection_message (min_version max_version : N) : SetupConnection :=
  {| protocol := MiningProtocol; min_version := min_version; max_version := max_version;
     flags := 6 |}.

Definition get_setup_connection_message_jds (allow_full_template_mode : N → N) (mode : JDMode)
    : SetupConnection :=
  {| protocol := JobDeclarationProtocol; min_version := 2; max_version := 2;
     flags := if is_config_full_template mode then allow_full_template_mode 0 else 0 |}.

Definition get_setup_connection_message_tp : SetupConnection :=
  {| protocol := TemplateDistributionProtocol; min_version := 2; max_version := 2; flags := 0 |}.


(** ** Lemmas *)
Lemma decode_state_u8 s : decode_state (state_u8 s) = Done s.
Proof. by destruct s. Qed.

(** However many requests find no channel, the first opens it and the others
    learn that it is pending. *)
Fixpoint request_upstream (n : nat) (inner : N) : list (rust (result unit UpstreamState)) * N :=
  match n with
  | O => ([], inner)
  | S n' =>
      let '(r, inner') := compare_and_set inner NoChannel Pending in
      let '(rs, last) := request_upstream n' inner' in (r :: rs, last)
  end.

Lemma request_upstream_first n :
  request_upstream (S n) (upstream_new NoChannel) =
    (Done (Ok tt) :: repeat (Done (Err Pending)) n, state_u8 Pending).
Proof.
  assert (request_upstream n (state_u8 Pending) =
    (repeat (Done (Err Pending)) n, state_u8 Pending)) as E.
  { induction n as [|n IH]; [done|]. simpl in *. by rewrite IH. }
  simpl in *. by rewrite E.
Qed.

Lemma constraints_size (txout_size : TxOut → N) l acc :
  acc < 4294967296 →
  foldl (λ acc o, as_u32 (acc + as_u32 (txout_size o))) acc l =
    as_u32 (acc + sumN txout_size l).
Proof.
  revert acc. induction l as [|o l IH]; intros acc Hacc; simpl.
  - rewrite sumN_nil, N.add_0_r. unfold as_u32. by rewrite N.mod_small.
  - rewrite IH by by apply N.mod_lt. rewrite sumN_cons. unfold as_u32.
    rewrite N.Div0.add_mod_idemp_r, N.Div0.add_mod_idemp_l. f_equal. lia.
Qed.

(** Positions of present entries select as many entries. *)
Lemma omap_lookup_Forall2 {A} (P : N → A → Prop) (l : list A) (keys positions : list N) :
  Forall2 (λ w p, ∃ x, l !! N.to_nat p = Some x ∧ P w x) keys positions →
  Forall2 P keys (omap (λ p, l !! N.to_nat p) positions).
Proof.
  induction 1 as [|w p keys positions (x & Hx & HP) _ IH]; [constructor|].
  simpl. rewrite Hx. by constructor.
Qed.

(** ** Properties *)
Section properties.
Context `{BitcoinApi} `{ChannelsSv2}.
Context (txout_size : TxOut → N) (coinbase_sigop_cost : list TxOut → N)
  (deserialize_txouts : list byte → option (list TxOut)) (frame_fits : SetCustomMiningJob → bool).
Implicit Types c : Client.

(** C30: the two ends of [ProvideMissingTransactions] agree: when the JD server
    asks by position for wtxids of the declared list, the client that declared
    the list answers with exactly the transactions of those wtxids, in the
    order asked. *)
Theorem missing_transactions_roundtrip io c request_id dj declared missing :
  last_declare_job_store c !! request_id = Some dj →
  Forall2 (λ w raw, ∃ tx, deserialize raw = Some tx ∧ compute_wtxid tx = w)
    declared (dj_tx_list dj) →
  Forall (λ raw, N.of_nat (length raw) ≤ 16777215) (dj_tx_list dj) →
  missing ⊆ declared → N.of_nat (length declared) ≤ 65535 → N.of_nat (length missing) ≤ 65535 →
  jd_open io = true →
  ∃ answer,
    handle_provide_missing_transactions io request_id (unknown_tx_positions missing declared) c =
      (Ok [JobDeclaratorTo (MsgProvideMissingTransactionsSuccess
             {| pmts_request_id := request_id; transaction_list := answer |})], c) ∧
    Forall2 (λ w raw, ∃ tx, deserialize raw = Some tx ∧ compute_wtxid tx = w) missing answer.
Proof.
  intros Hdj Htxs Hfit Hsub Hlen Hmissing Hopen.
  set (answer := omap (λ pos, dj_tx_list dj !! N.to_nat pos) (unknown_tx_positions missing declared)).
  assert (Forall2 (λ w raw, ∃ tx, deserialize raw = Some tx ∧ compute_wtxid tx = w) missing answer)
    as Hanswer.
  { apply omap_lookup_Forall2.
    eapply Forall2_impl; [apply unknown_tx_positions_correct; [done|lia]|].
    intros w p [Hp _]. destruct (Forall2_lookup_l _ _ _ _ _ Htxs Hp) as (raw & ? & ?). by exists raw. }
  exists answer. split; [|done]. unfold handle_provide_missing_transactions, SharedMap.get_cloned.
  rewrite Hdj. fold answer. assert (forallb fits_b016m (dj_tx_list dj) = true) as ->.
  { apply forallb_forall. intros raw Hraw. rewrite Forall_forall in Hfit.
    apply N.leb_le, Hfit. by apply list_elem_of_In. }
  unfold fits_64k. rewrite <-(Forall2_length _ _ _ Hanswer).
  rewrite (proj2 (N.leb_le _ _) Hmissing), Hopen. done.
Qed.

(** After [DeclareMiningJob.Success] the client either sends the pool
    exactly the custom job its factory built from the declared job, its
    prev-hash and the server's new token, and keeps that job with the
    declaration; or it reports an error, and one that is only logged leaves
    every declared job as it was. *)
Theorem declare_success_exact io request_id token c r c' :
  handle_declare_mining_job_success frame_fits io request_id token c = (r, c') →
  match r with
  | Ok out =>
      ∃ dj ph outputs up factory custom factory',
        last_declare_job_store c !! request_id = Some dj ∧ dj_prev_hash dj = Some ph ∧
        deserialize_outputs (dj_coinbase_output dj) = Some outputs ∧
        upstream_channel c = Some up ∧ job_factory c = Some factory ∧
        new_custom_job factory (up_channel_id up) request_id token ph (dj_template dj) outputs
          (up_full_extranonce_size up) = (Some custom, factory') ∧
        out = [Upstream (MsgSetCustomMiningJob custom)] ∧
        last_declare_job_store c' !! request_id = Some (with_custom_job dj custom) ∧
        delete request_id (last_declare_job_store c') = delete request_id (last_declare_job_store c)
  | Err e => action e = Log → last_declare_job_store c' = last_declare_job_store c
  end.
Proof.
  unfold handle_declare_mining_job_success, SharedMap.get_cloned, SharedMap.with_mut.
  destruct (last_declare_job_store c !! request_id) as [dj|] eqn:Edj; [|by intros [= <- <-]].
  destruct (dj_prev_hash dj) as [ph|] eqn:?; [|by intros [= <- <-]].
  destruct (deserialize_outputs _) as [outputs|] eqn:?; [|by intros [= <- <-]].
  destruct (upstream_channel c) as [up|] eqn:?; [|by intros [= <- <-]].
  destruct (job_factory c) as [factory|] eqn:?; [|by intros [= <- <-]].
  destruct (new_custom_job _ _ _ _ _ _ _ _) as [[custom|] factory'] eqn:Eb; [|by intros [= <- <-]].
  simpl. rewrite Edj. destruct (frame_fits custom); [|by intros [= <- <-]].
  destruct (upstream_open io); intros [= <- <-]; [|done].
  exists dj, ph, outputs, up, factory, custom, factory'. split_and!; try done; simpl.
  - apply lookup_insert_eq.
  - apply delete_insert_eq.
Qed.

(** A token granted by the JD server is queued behind those already there;
    and when the grant changes the coinbase outputs, the template provider is
    sent the constraints of the new outputs, the ones
    [coinbase_output_constraints_message] computes. *)
Theorem token_grant_constraints io msg c outputs :
  deserialize_txouts (tg_coinbase_outputs msg) = Some outputs → tp_open io = true →
  ∃ out c', handle_allocate_mining_job_token_success txout_size coinbase_sigop_cost
      deserialize_txouts io msg c = (Ok out, c') ∧
    allocate_tokens c' = allocate_tokens c ++ [msg] ∧
    coinbase_outputs c' = tg_coinbase_outputs msg ∧
    let '(size, sigops) := coinbase_output_constraints_message txout_size coinbase_sigop_cost
                             outputs in
    out = if decide (coinbase_outputs c = tg_coinbase_outputs msg) then []
          else [TemplateProvider (MsgCoinbaseOutputConstraints size sigops)].
Proof.
  intros Hd Hopen. unfold handle_allocate_mining_job_token_success.
  unfold coinbase_output_constraints_message. rewrite constraints_size by done.
  case_bool_decide as Hc.
  - rewrite Hd, Hopen. eexists _, _. split_and!; [done..|]. by rewrite decide_False.
  - eexists _, _. split_and!; [done..|]. by rewrite decide_True.
Qed.

(** A JD client configured for full templates, and no other, is accepted by
    the JD server; and a pool accepts the client's mining connection, records
    that it brings its own jobs and demands extended channels. *)
Theorem client_setup_accepted allow mode work std st :
  N.testbit (allow 0) 0 = true → (∀ f, work f = N.testbit f 1) →
  ((jds_setup_connection true (get_setup_connection_message_jds allow mode)).2 = Ok tt ↔
     config_mode mode = FullTemplate) ∧
  pool_setup_connection work std true (get_setup_connection_message 2 2) st =
    (([SetupConnectionSuccess 2 2], Ok tt), (true, std 6)).
Proof.
  intros Hallow Hwork. split.
  - unfold jds_setup_connection. rewrite has_declare_tx_data_bit0.
    unfold get_setup_connection_message_jds, is_config_full_template.
    cbn [protocol flags]. rewrite decide_False by tauto.
    case_bool_decide as Hm; cbn [version_mismatch]; [by rewrite Hallow|]. by split.
  - unfold pool_setup_connection. simpl. by rewrite Hwork.
Qed.
End properties.

(** ** Examples *)
Module ClientExamples.
Import ShareExamples.
#[local] Existing Instance toy_channels.

(** A transaction's bytes are its wtxid in one byte. *)
#[local] Instance one_byte_api : BitcoinApi := {|
  Transaction := N;
  tx_version _ := 2%Z; tx_lock_time _ := 0; tx_input _ := []; tx_output _ := [];
  compute_txid t := t; compute_wtxid t := t; tx_weight _ := 4; is_coinbase _ := false;
  consensus_decode bs := Byte.to_N <$> head bs; deserialize bs := Byte.to_N <$> head bs;
  serialize_outputs _ := []; varint_decode _ := None; varint_size _ := 1;
  merkle_combine a b := a + b; weight_max_block := 4000000; weight_min_transaction := 240
|}.

Definition io : Io := {| upstream_open := true; jd_open := true; tp_open := true |}.

Definition with_txs : DeclaredJob :=
  {| dj_declare_mining_job := None; dj_template := dj_template declared;
     dj_prev_hash := Some tip; dj_set_custom_mining_job := None; dj_coinbase_output := [];
     dj_tx_list := [[x01]; [x02]; [x03]] |}.

Definition client : Client :=
  set_jds c0 [] [] {[ 3 := with_txs ]} (Some tt).

(** The transactions of the answer, if there is one. *)
Definition sent (r : Handled) : list (list byte) :=
  match r.1 with
  | Ok [JobDeclaratorTo (MsgProvideMissingTransactionsSuccess m)] => transaction_list m
  | _ => []
  end.

Lemma missing_transactions_roundtrip_witness :
  handle_provide_missing_transactions io 3 (unknown_tx_positions [3; 1] [1; 2; 3]) client =
    (Ok [JobDeclaratorTo (MsgProvideMissingTransactionsSuccess
           {| pmts_request_id := 3; transaction_list := [[x03]; [x01]] |})], client).
Proof.
  destruct (missing_transactions_roundtrip io client 3 with_txs [1; 2; 3] [3; 1])
    as (answer & E & _);
    [reflexivity|repeat constructor; by eexists|repeat constructor; simpl; lia|set_solver|
     simpl; lia|simpl; lia|reflexivity|].
  assert (answer = [[x03]; [x01]]) as <-; [|exact E].
  apply (f_equal sent) in E. symmetry. etransitivity; [|exact E]. vm_eq.
Defined.

Lemma declare_success_exact_witness :
  let c' := (handle_declare_mining_job_success (λ _, true) io 3 [x07] client).2 in
  last_declare_job_store c' !! 3 = Some (with_custom_job with_txs (custom_job 7 3 [x07])).
Proof.
  destruct (declare_success_exact (λ _, true) io 3 [x07] client
    (Ok [Upstream (MsgSetCustomMiningJob (custom_job 7 3 [x07]))]) _ eq_refl)
    as (dj & ph & outputs & up & f & custom & f' & Hdj & _ & _ & _ & _ & _ & [= <-] & Hstore & _).
  revert Hdj. intros [= <-]. exact Hstore.
Defined.

Lemma token_grant_constraints_witness :
  ∃ c', handle_allocate_mining_job_token_success (λ o, 9 + N.of_nat (length (script_pubkey o)))
      (λ _, 4) (λ _, Some [{| value := 0; script_pubkey := [x00; x01] |}]) io
      {| tg_request_id := 1; tg_mining_job_token := []; tg_coinbase_outputs := [x05] |} client =
    (Ok [TemplateProvider (MsgCoinbaseOutputConstraints 11 4)], c').
Proof.
  destruct (token_grant_constraints (λ o, 9 + N.of_nat (length (script_pubkey o))) (λ _, 4)
    (λ _, Some [{| value := 0; script_pubkey := [x00; x01] |}]) io
    {| tg_request_id := 1; tg_mining_job_token := []; tg_coinbase_outputs := [x05] |} client _
    eq_refl eq_refl) as (out & c' & E & _ & _ & Hout).
  exists c'. rewrite E. simpl in Hout. by rewrite Hout.
Defined.

Lemma client_setup_accepted_witness :
  (jds_setup_connection true
     (get_setup_connection_message_jds (λ f, N.lor f 1) (new_mode FullTemplate))).2 = Ok tt.
Proof.
  apply (client_setup_accepted (λ f, N.lor f 1) (new_mode FullTemplate) (λ f, N.testbit f 1)
    (λ f, N.testbit f 0) (false, false)); by simpl.
Defined.
End ClientExamples.
