(* ===== verification/JdcManager.v ===== *)
(** * JD client: channel manager and miners
    ([miner-apps/jd-client/src/lib/channel_manager/mod.rs],
    [downstream_message_handler.rs], [utils.rs])

    The channel manager of the JD client serves miners like a pool, and is
    itself a miner of the upstream pool: all its miners' channels share one
    upstream channel, which it opens when the first miner asks for a channel.
    This file holds the state, the sending of messages and the handlers of
    the miners' requests; [JdcTemplates] those of the template provider,
    [JdcSystem] those of the pool and the loop.

    The part of the state that shares and declared jobs concern is the
    [Client] of [ShareForward], whose handlers run on it unchanged.  Handlers
    are programs of [Handler]; a channel owns its extranonce prefix, and where
    the code drops a channel the model releases the prefix.  [release_prefix]
    of a prefix that another allocator handed out does nothing, as a prefix
    knows its allocator. *)
From S2P Require Import Prelude Handler SharedMap Bitcoin Setup ShareCache ServerChannels ShareForward JdClient.

(** ** What the manager uses besides [ChannelsSv2] *)
Class JdcChannels `{CS : ChannelsSv2} : Type := {
  (** [ExtranonceAllocator]: the upstream's prefix, a local one, the size of
      the whole extranonce and the number of channels. *)
  MAX_EXTRANONCE_LEN : N;
  from_upstream_prefix : list byte → list byte → N → N →
    result ExtranonceAllocator ExtranonceAllocatorError;
  from_wire : list byte → result ExtranoncePrefix ExtranonceAllocatorError;
  (** [client::extended::ExtendedChannel]: channel id, user identity, prefix,
      target, hash rate and rollable size. *)
  up_new : N → string → ExtranoncePrefix → N → Hashrate → N → option UpChannel;
  up_rollable_extranonce_size : UpChannel → N;
  up_set_extranonce_prefix : UpChannel → ExtranoncePrefix → result unit unit * UpChannel;
  up_set_target : UpChannel → N → result unit unit * UpChannel;
  up_set_nominal_hashrate : UpChannel → Hashrate → UpChannel;
  up_on_chain_tip_update : UpChannel → SetNewPrevHash → UpChannel;
  up_on_share_acknowledgement : UpChannel → N → N → UpChannel;
  up_on_share_rejection : UpChannel → string → UpChannel;
  (** [GroupChannel::new_for_job_declaration_client]: channel id and size of
      the whole extranonce. *)
  grp_new_for_job_declaration_client : N → N → option GroupChannel;
  (** [JobFactory::new] and [new_coinbase_tx_prefix_and_suffix]. *)
  job_factory_new : JobFactory;
  new_coinbase_tx_prefix_and_suffix : JobFactory → NewTemplate → list TxOut → N →
    option (list byte * list byte) * JobFactory;
  (** Error codes of the template distribution protocol. *)
  ERROR_CODE_REQUEST_TRANSACTION_DATA_TEMPLATE_ID_NOT_FOUND : string;
  ERROR_CODE_REQUEST_TRANSACTION_DATA_STALE_TEMPLATE_ID : string;
}.

Definition JDC_MAX_CHANNELS : N := 65536.
(** [bytes_needed(JDC_MAX_CHANNELS)]. *)
Definition JDC_LOCAL_PREFIX_BYTES : N := 2.
Definition SOLO_FULL_EXTRANONCE_SIZE : N := 20.
Definition as_u8 (n : N) : N := n mod 256.

(** [Str0255::try_from]. *)
Definition fits_str0255 (s : string) : bool := (String.length s <=? 255)%nat.

Section manager.
Context `{B : BitcoinApi} `{CS : ChannelsSv2} `{!JdcChannels}.

(** ** State *)
Inductive PendingChannelRequest : Type :=
| ExtendedChannelRequest (downstream_id : N) (message : OpenExtendedMiningChannel)
| StandardChannelRequest (downstream_id : N) (message : OpenStandardMiningChannel).

Definition pending_downstream_id (p : PendingChannelRequest) : N :=
  match p with ExtendedChannelRequest d _ | StandardChannelRequest d _ => d end.
Definition pending_hashrate (p : PendingChannelRequest) : Hashrate :=
  match p with
  | ExtendedChannelRequest _ m => oec_nominal_hash_rate m
  | StandardChannelRequest _ m => osc_nominal_hash_rate m
  end.

(** [ChannelManagerIo]: which of the outgoing channels still have a receiver,
    the registered miners' senders, those whose receiver is gone, and what
    was sent, in order. *)
Record ChannelManagerIo : Type := {
  io : Io; downstream_sender : gset N; closed : gset N; sent : list RouteMessageTo;
}.

(** [ChannelManager]; [pool_tag_string] is never set and stays [None]. *)
Record ChannelManager : Type := {
  client : Client;
  extranonce_allocator : ExtranonceAllocator;
  request_id_factory : N;
  downstream_id_factory : N;
  last_future_template : option NewTemplate;
  template_store : gmap N NewTemplate;
  pending_downstream_requests : list PendingChannelRequest;
  server_extensions : list N;
  upstream_state : N;
  channel_manager_io : ChannelManagerIo;
}.

Definition eta_manager (s : ChannelManager) : ChannelManager :=
  {| client := client s; extranonce_allocator := extranonce_allocator s;
     request_id_factory := request_id_factory s;
     downstream_id_factory := downstream_id_factory s;
     last_future_template := last_future_template s; template_store := template_store s;
     pending_downstream_requests := pending_downstream_requests s;
     server_extensions := server_extensions s; upstream_state := upstream_state s;
     channel_manager_io := channel_manager_io s |}.

Implicit Types (s : ChannelManager).
Definition put_client v s : ChannelManager := ltac:(update_field eta_manager client v s).
Definition put_allocator v s : ChannelManager :=
  ltac:(update_field eta_manager extranonce_allocator v s).
Definition put_request_id v s : ChannelManager :=
  ltac:(update_field eta_manager request_id_factory v s).
Definition put_downstream_id v s : ChannelManager :=
  ltac:(update_field eta_manager downstream_id_factory v s).
Definition put_future_template v s : ChannelManager :=
  ltac:(update_field eta_manager last_future_template v s).
Definition put_templates v s : ChannelManager := ltac:(update_field eta_manager template_store v s).
Definition put_pending v s : ChannelManager :=
  ltac:(update_field eta_manager pending_downstream_requests v s).
Definition put_server_extensions v s : ChannelManager :=
  ltac:(update_field eta_manager server_extensions v s).
Definition put_upstream_state v s : ChannelManager :=
  ltac:(update_field eta_manager upstream_state v s).
Definition put_io v s : ChannelManager := ltac:(update_field eta_manager channel_manager_io v s).

(** The fields of the [Client] part. *)
Definition eta_client (c : Client) : Client :=
  {| downstream := downstream c; vardiff := vardiff c;
     sequence_number_factory := sequence_number_factory c;
     last_new_prev_hash := last_new_prev_hash c; allocate_tokens := allocate_tokens c;
     last_declare_job_store := last_declare_job_store c;
     template_id_to_upstream_job_id := template_id_to_upstream_job_id c;
     downstream_channel_id_and_job_id_to_template_id :=
       downstream_channel_id_and_job_id_to_template_id c;
     coinbase_outputs := coinbase_outputs c; upstream_channel := upstream_channel c;
     job_factory := job_factory c; cached_shares := cached_shares c |}.

Definition set_downstream v (c : Client) : Client := ltac:(update_field eta_client downstream v c).
Definition set_vardiff v (c : Client) : Client := ltac:(update_field eta_client vardiff v c).
Definition set_prev_hash v (c : Client) : Client := ltac:(update_field eta_client last_new_prev_hash v c).
Definition set_tokens v (c : Client) : Client := ltac:(update_field eta_client allocate_tokens v c).
Definition set_declared v (c : Client) : Client := ltac:(update_field eta_client last_declare_job_store v c).
Definition set_job_templates v (c : Client) : Client :=
  ltac:(update_field eta_client downstream_channel_id_and_job_id_to_template_id v c).
Definition set_upstream v (c : Client) : Client := ltac:(update_field eta_client upstream_channel v c).
Definition set_factory v (c : Client) : Client := ltac:(update_field eta_client job_factory v c).
Definition set_cache v (c : Client) : Client := ltac:(update_field eta_client cached_shares v c).

Definition in_client (f : Client → Client) s : ChannelManager := put_client (f (client s)) s.

(** The registered miners. *)
Definition downstreams s : gmap N Downstream := downstream (client s).
Definition put_downstreams v s : ChannelManager := in_client (set_downstream v) s.

Definition eta_downstream (ds : Downstream) : Downstream :=
  {| group_channel := group_channel ds; extended_channels := extended_channels ds;
     standard_channels := standard_channels ds; channel_id_factory := channel_id_factory ds;
     negotiated_extensions := negotiated_extensions ds; require_std_job := require_std_job ds;
     set_up := set_up ds |}.
Definition put_group v (ds : Downstream) : Downstream :=
  ltac:(update_field eta_downstream group_channel v ds).
Definition put_factory v (ds : Downstream) : Downstream :=
  ltac:(update_field eta_downstream channel_id_factory v ds).
Definition put_extensions v (ds : Downstream) : Downstream :=
  ltac:(update_field eta_downstream negotiated_extensions v ds).
Definition put_set_up (require : bool) (ds : Downstream) : Downstream :=
  {| group_channel := group_channel ds; extended_channels := extended_channels ds;
     standard_channels := standard_channels ds; channel_id_factory := channel_id_factory ds;
     negotiated_extensions := negotiated_extensions ds; require_std_job := require;
     set_up := true |}.

Definition handler (A : Type) : Type := prog ChannelManager JDCError A.
Definition guarded (A : Type) : Type := prog Downstream JDCError A.

(** A handler of [ShareForward] or [JdClient], on its part of the state. *)
Definition run_client (h : Client → rust Handled) : handler (list RouteMessageTo) := λ s,
  match h (client s) with
  | Panic => Panic
  | Done (r, c') => Done (r, put_client c' s)
  end.

(** ** Configuration

    The mode and the identity the runtime sets before the manager starts, the
    rollable bytes reserved for the miners; whether a [SetCustomMiningJob]
    fits a frame (the other messages always do). *)
Context (mode : JDMode) (user_identity : option string)
  (reserved_downstream_rollable_extranonce_size : N) (frame_fits : SetCustomMiningJob → bool).

(** [with_registered_downstream]. *)
Definition with_registered_downstream {A} (d : N) (f : guarded A) : handler A :=
  focus downstreams put_downstreams d (raise (disconnect (DownstreamNotFound d) d)) f.

Definition registered (d : N) : handler Downstream :=
  with_registered_downstream d (ask (λ ds, ds)).

(** ** Sending *)

(** [RouteMessageTo::forward]. *)
Definition forward (m : RouteMessageTo) (cio : ChannelManagerIo)
    : result unit JDCErrorKind * ChannelManagerIo :=
  let send := {| io := io cio; downstream_sender := downstream_sender cio;
                 closed := closed cio; sent := sent cio ++ [m] |} in
  let send_if (open : bool) := if open then (Ok tt, send) else (Err ChannelErrorSender, cio) in
  match m with
  | ToDownstream d _ =>
      if decide (d ∈ downstream_sender cio) then send_if (negb (bool_decide (d ∈ closed cio)))
      else (Ok tt, cio)
  | Upstream (MsgSetCustomMiningJob custom) =>
      if frame_fits custom then send_if (upstream_open (io cio)) else (Err FramingSv2, cio)
  | Upstream _ => send_if (upstream_open (io cio))
  | JobDeclaratorTo _ => send_if (jd_open (io cio))
  | TemplateProvider _ => send_if (tp_open (io cio))
  end.

(** A failed send is logged. *)
Definition forward_all (messages : list RouteMessageTo) : handler unit :=
  for_each messages (λ m, update (λ s, put_io (forward m (channel_manager_io s)).2 s)).

(** A failed send ends the handler. *)
Definition forward_or_raise (m : RouteMessageTo) (f : JDCErrorKind → JDCError) : handler unit :=
  r ← transact (λ s, let '(r, cio) := forward m (channel_manager_io s) in (r, put_io cio s));
  ok_or_raise r f.

Definition send_upstream (m : PoolMessage) : handler unit :=
  forward_or_raise (Upstream m) (λ k, match k with FramingSv2 => shutdown k | _ => fallback k end).
Definition send_jd (m : JdsMessage) : handler unit := forward_or_raise (JobDeclaratorTo m) fallback.
Definition send_tp (m : TpMessage) : handler unit := forward_or_raise (TemplateProvider m) shutdown.

(** [request_transaction_data]. *)
Definition request_transaction_data (template_id : N) : handler unit :=
  send_tp (MsgRequestTransactionData template_id).

(** [request_id_factory.fetch_add(1)]. *)
Definition next_request_id : handler N :=
  transact (λ s, (request_id_factory s, put_request_id (fetch_add (request_id_factory s)) s)).

(** [allocate_tokens]; the identity is [expect]ed to be set and to fit. *)
Definition request_token : handler unit :=
  request_id ← next_request_id;
  identity ← some_or_crash user_identity;
  some_or_crash (guard (fits_str0255 identity = true));;
  send_jd (MsgAllocateMiningJobToken request_id identity).

Definition request_tokens (n : nat) : handler unit := for_each (seq 0 n) (λ _, request_token).

(** [_ = self.allocate_tokens(1).await]. *)
Definition refill_tokens : handler unit := attempt (request_tokens 1);; mret tt.

(** [allocate_tokens.with(|tokens| tokens.pop_front())]. *)
Definition pop_token : handler (option TokenGrant) :=
  transact (λ s, match allocate_tokens (client s) with
                 | [] => (None, s)
                 | t :: rest => (Some t, in_client (set_tokens rest) s)
                 end).

(** ** The outputs of a job *)

(** [coinbase_outputs[0].value = ..], which panics when there is none. *)
Definition pay_first (value : N) (outputs : list TxOut) : option (list TxOut) :=
  match outputs with
  | [] => None
  | o :: rest => Some ({| value := value; script_pubkey := script_pubkey o |} :: rest)
  end.

Definition configured_outputs : handler (list TxOut) :=
  bytes ← ask (λ s, coinbase_outputs (client s));
  some_or (deserialize_outputs bytes) (shutdown ChannelManagerHasBadCoinbaseOutputs).

Definition template_outputs (template : NewTemplate) (outputs : list TxOut)
    : handler (list TxOut) :=
  some_or_crash (pay_first (coinbase_tx_value_remaining template) outputs).

(** ** Extranonce prefixes *)
Definition extranonce_allocation_error_code (e : ExtranonceAllocatorError)
    : result string ExtranonceAllocatorError :=
  match e with
  | CapacityExhausted => Ok ERROR_CODE_OPEN_MINING_CHANNEL_CHANNEL_CAPACITY_EXHAUSTED
  | InvalidRollableSize => Ok ERROR_CODE_OPEN_MINING_CHANNEL_MIN_EXTRANONCE_SIZE_TOO_LARGE
  | e => Err e
  end.

Definition release_all (ps : list ExtranoncePrefix) s : ChannelManager :=
  put_allocator (foldl release_prefix (extranonce_allocator s) ps) s.
Definition drop_prefix (p : ExtranoncePrefix) : handler unit := update (release_all [p]).

(** The size of the whole extranonce of the miners' channels. *)
Definition full_extranonce_size s : N :=
  match upstream_channel (client s) with
  | Some up => up_full_extranonce_size up
  | None => SOLO_FULL_EXTRANONCE_SIZE
  end.

(** ** Closing a channel *)
Definition close_in_downstream (channel_id : N) : guarded (list ExtranoncePrefix) :=
  update (λ ds, if grp_has_channel_id (group_channel ds) channel_id
                then put_group (grp_remove_channel_id (group_channel ds) channel_id) ds else ds);;
  ext ← transact (λ ds, let '(o, m) := SharedMap.remove (extended_channels ds) channel_id in
                        (o, put_ext m ds));
  std ← transact (λ ds, let '(o, m) := SharedMap.remove (standard_channels ds) channel_id in
                        (o, put_std m ds));
  mret (match ext with Some (_, c) => [ext_prefix c] | None => [] end ++
        match std with Some (_, c) => [std_prefix c] | None => [] end).

(** [handle_close_channel]. *)
Definition handle_close_channel (d channel_id : N) : handler unit :=
  dropped ← with_registered_downstream d (close_in_downstream channel_id);
  update (release_all dropped);;
  update (λ s, in_client
    (set_vardiff (SharedMap.remove (vardiff (client s)) (d, channel_id)).2) s).

(** ** Opening a channel *)
Definition open_error (d request_id : N) (code : string) : list RouteMessageTo :=
  [ToDownstream d (OpenMiningChannelError request_id code)].

(** [channel_id_factory.fetch_add(1)]. *)
Definition next_channel_id : guarded N :=
  transact (λ ds, (u32_wrap (channel_id_factory ds), put_factory (channel_id_factory ds + 1) ds)).

Definition start_vardiff (d channel_id : N) : handler unit :=
  v ← some_or_crash vardiff_new;
  update (λ s, in_client (set_vardiff (<[(d, channel_id) := v]> (vardiff (client s)))) s).

(** The template a job of a miner's channel was made from. *)
Definition record_template (d channel_id job_id template : N) : handler unit :=
  update (λ s, in_client (set_job_templates
    (<[(d, channel_id, job_id) := template]>
       (downstream_channel_id_and_job_id_to_template_id (client s)))) s).

Definition prev_hash_message (channel_id job_id : N) (ph : SetNewPrevHash) : MinerMessage :=
  MsgSetNewPrevHash channel_id job_id (ph_prev_hash ph) (ph_ntime_start ph) (ph_n_bits ph).

Definition add_to_group (d channel_id size : N) : handler unit :=
  r ← with_registered_downstream d
        (transact (λ ds, let '(r, g) := grp_add_channel_id (group_channel ds) channel_id size in
                         (r, put_group g ds)));
  ok_or_raise r (λ _, shutdown ChannelSv2).

(** Storing the opened channel; a channel it replaces is returned. *)
Definition insert_standard (channel_id : N) (c : StdChannel) : guarded (option StdChannel) :=
  transact (λ ds, let '(o, m) := SharedMap.insert (standard_channels ds) channel_id c in
                  (o, put_std m ds)).
Definition insert_extended (channel_id : N) (c : ExtChannel) : guarded (option ExtChannel) :=
  transact (λ ds, let '(o, m) := SharedMap.insert (extended_channels ds) channel_id c in
                  (o, put_ext m ds)).

(** From the constructed channel on. *)
Definition finish_open_standard (d request_id channel_id : N) (c : StdChannel)
    (template : NewTemplate) (ph : SetNewPrevHash) (outputs : list TxOut)
    : handler (list RouteMessageTo) :=
  ds ← registered d;
  let fail {A} (c : StdChannel) (k : JDCErrorKind) : handler A :=
    drop_prefix (std_prefix c);; raise (shutdown k) in
  let prefix := std_extranonce_prefix c in
  if negb (fits_b032 prefix) then fail c BinarySv2
  else
    let success := OpenStandardMiningChannelSuccess request_id channel_id (std_target c) prefix
                     (grp_id (group_channel ds)) in
    let '(r, c1) := std_on_new_template c template outputs in
    match r with
    | Err _ => fail c1 ChannelSv2
    | Ok _ =>
        job_id ← some_or_crash (std_get_future_job_id_from_template_id c1 (template_id template));
        job ← some_or_crash (std_get_future_job c1 job_id);
        let '(r, c2) := std_on_set_new_prev_hash c1 ph in
        match r with
        | Err _ => fail c2 ChannelSv2
        | Ok _ =>
            start_vardiff d channel_id;;
            old ← with_registered_downstream d (insert_standard channel_id c2);
            update (release_all (std_prefix <$> option_list old));;
            record_template d channel_id job_id (template_id template);;
            (if require_std_job ds then mret tt
             else add_to_group d channel_id (N.of_nat (length prefix)));;
            mret [ToDownstream d success; ToDownstream d (MsgNewMiningJob (std_job_message job));
                  ToDownstream d (prev_hash_message channel_id job_id ph)]
        end
    end.

Definition open_standard (d : N) (msg : OpenStandardMiningChannel)
    : handler (list RouteMessageTo) :=
  let request_id := osc_request_id msg in
  outputs ← configured_outputs;
  template ← ask last_future_template;
  template ← some_or template (disconnect FutureTemplateNotPresent d);
  ph ← ask (λ s, last_new_prev_hash (client s));
  ph ← some_or ph (disconnect LastNewPrevhashNotFound d);
  outputs ← template_outputs template outputs;
  channel_id ← with_registered_downstream d next_channel_id;
  r ← transact (λ s, let '(r, a) := allocate_standard (extranonce_allocator s) in
                     (r, put_allocator a s));
  match r with
  | Err e =>
      code ← ok_or_raise (extranonce_allocation_error_code e) (λ _, shutdown ChannelSv2);
      mret (open_error d request_id code)
  | Ok prefix =>
      match std_new_for_job_declaration_client channel_id (osc_user_identity msg) prefix
              (osc_max_target msg) (osc_nominal_hash_rate msg) None with
      | Ok c => finish_open_standard d request_id channel_id c template ph outputs
      | Err (OpenChannelInvalidNominalHashrate code)
      | Err (OpenChannelInvalidMaxTarget code) =>
          drop_prefix prefix;; mret (open_error d request_id code)
      | Err _ => drop_prefix prefix;; raise (disconnect ChannelSv2 d)
      end
  end.

(** [handle_open_standard_mining_channel]. *)
Definition handle_open_standard_mining_channel (d : N) (msg : OpenStandardMiningChannel)
    : handler unit :=
  open_standard d msg ≫= forward_all.

(** From the constructed channel on. *)
Definition finish_open_extended (d request_id channel_id : N) (c : ExtChannel)
    (template : NewTemplate) (ph : SetNewPrevHash) : handler (list RouteMessageTo) :=
  ds ← registered d;
  let fail {A} (c : ExtChannel) (k : JDCErrorKind) : handler A :=
    drop_prefix (ext_prefix c);; raise (shutdown k) in
  let prefix := ext_extranonce_prefix c in
  some_or_crash (guard (fits_b032 prefix = true));;
  let success := OpenExtendedMiningChannelSuccess request_id channel_id (ext_target c) prefix
                   (ext_rollable_extranonce_size c) (grp_id (group_channel ds)) in
  let full_size := ext_full_extranonce_size c in
  bytes ← ask (λ s, coinbase_outputs (client s));
  match deserialize_outputs bytes with
  | None => fail c ChannelManagerHasBadCoinbaseOutputs
  | Some outputs =>
      outputs ← template_outputs template outputs;
      let '(r, c1) := ext_on_new_template c template outputs in
      match r with
      | Err _ => fail c1 ChannelSv2
      | Ok _ =>
          job_id ← some_or_crash (ext_get_future_job_id_from_template_id c1 (template_id template));
          job ← some_or_crash (ext_get_future_job c1 job_id);
          let '(r, c2) := ext_on_set_new_prev_hash c1 ph in
          match r with
          | Err _ => fail c2 ChannelSv2
          | Ok _ =>
              old ← with_registered_downstream d (insert_extended channel_id c2);
              update (release_all (ext_prefix <$> option_list old));;
              record_template d channel_id job_id (template_id template);;
              start_vardiff d channel_id;;
              add_to_group d channel_id full_size;;
              mret [ToDownstream d success;
                    ToDownstream d (MsgNewExtendedMiningJob (ext_job_message job));
                    ToDownstream d (prev_hash_message channel_id job_id ph)]
          end
      end
  end.

Definition open_extended (d : N) (msg : OpenExtendedMiningChannel)
    : handler (list RouteMessageTo) :=
  let request_id := oec_request_id msg in
  template ← ask last_future_template;
  template ← some_or template (disconnect FutureTemplateNotPresent d);
  ph ← ask (λ s, last_new_prev_hash (client s));
  ph ← some_or ph (disconnect LastNewPrevhashNotFound d);
  ds ← registered d;
  if require_std_job ds then
    mret (open_error d request_id
            ERROR_CODE_OPEN_MINING_CHANNEL_EXTENDED_CHANNELS_NOT_SUPPORTED_FOR_STANDARD_JOBS)
  else
    channel_id ← with_registered_downstream d next_channel_id;
    r ← transact (λ s, let '(r, a) := allocate_extended (extranonce_allocator s)
                                        (oec_min_extranonce_size msg) in
                       (r, put_allocator a s));
    match r with
    | Err e =>
        code ← ok_or_raise (extranonce_allocation_error_code e) (λ _, shutdown ChannelSv2);
        mret (open_error d request_id code)
    | Ok prefix =>
        full_size ← ask full_extranonce_size;
        let rollable := as_u16 (u64_wrap (full_size + u64_modulus
                                            - N.of_nat (length (prefix_bytes prefix)))) in
        match ext_new_for_job_declaration_client channel_id (oec_user_identity msg) prefix
                (oec_max_target msg) (oec_nominal_hash_rate msg) rollable None with
        | Ok c => finish_open_extended d request_id channel_id c template ph
        | Err (OpenChannelInvalidNominalHashrate code)
        | Err (OpenChannelInvalidMaxTarget code) =>
            drop_prefix prefix;; mret (open_error d request_id code)
        | Err _ => drop_prefix prefix;; raise (disconnect ChannelSv2 d)
        end
    end.

(** [handle_open_extended_mining_channel]. *)
Definition handle_open_extended_mining_channel (d : N) (msg : OpenExtendedMiningChannel)
    : handler unit :=
  open_extended d msg ≫= forward_all.

(** ** Changing a channel *)

(** The iteration orders of the maps are arguments. *)
Context (downstream_order : list N) (channel_order : N → list N).

(** The answer to [update_channel]'s result; other errors are only logged. *)
Definition update_answer (d channel_id : N) (r : result unit ServerChannelError) (target : N)
    : list RouteMessageTo :=
  match r with
  | Err (UpdateChannelInvalidNominalHashrate code)
  | Err (UpdateChannelInvalidMaxTarget code) =>
      if decide (code = "internal-error"%string)
      then [ToDownstream d (MsgSetTarget channel_id target)]
      else [ToDownstream d (UpdateChannelError channel_id code)]
  | _ => [ToDownstream d (MsgSetTarget channel_id target)]
  end.

Definition update_standard (d : N) (msg : UpdateChannel)
    : prog StdChannel JDCError (list RouteMessageTo) :=
  r ← transact (λ ch, std_update_channel ch (uc_nominal_hash_rate msg)
                        (Some (uc_maximum_target msg)));
  target ← ask std_target;
  mret (update_answer d (uc_channel_id msg) r target).

Definition update_extended (d : N) (msg : UpdateChannel)
    : prog ExtChannel JDCError (list RouteMessageTo) :=
  r ← transact (λ ch, ext_update_channel ch (uc_nominal_hash_rate msg)
                        (Some (uc_maximum_target msg)));
  target ← ask ext_target;
  mret (update_answer d (uc_channel_id msg) r target).

(** Hash rate and target of every open channel. *)
Definition channel_work (ds : Downstream) (order : list N) : list (Hashrate * N) :=
  omap (λ c, (λ ch, (std_nominal_hashrate ch, std_target ch)) <$> standard_channels ds !! c)
    order ++
  omap (λ c, (λ ch, (ext_nominal_hashrate ch, ext_target ch)) <$> extended_channels ds !! c)
    order.
Definition downstream_work s : list (Hashrate * N) :=
  downstream_order ≫= λ d,
    match downstreams s !! d with Some ds => channel_work ds (channel_order d) | None => [] end.

Definition total_hashrate (work : list (Hashrate * N)) : Hashrate :=
  foldl (λ acc w, hashrate_add acc w.1) hashrate_zero work.

(** The target with 32 bytes [0xff]. *)
Definition MAX_TARGET : N := 2 ^ 256 - 1.

(** [handle_update_channel] compares targets. *)
Definition min_target (work : list (Hashrate * N)) : N :=
  foldl (λ acc w, N.min w.2 acc) MAX_TARGET work.

(** The upstream channel gets the sum of the hash rates. *)
Definition update_upstream (work : list (Hashrate * N)) (target : N)
    : handler (list RouteMessageTo) :=
  transact (λ s, match upstream_channel (client s) with
                 | None => ([], s)
                 | Some up =>
                     let up' := up_set_nominal_hashrate up (total_hashrate work) in
                     ([Upstream (MsgUpdateChannel {| uc_channel_id := up_channel_id up';
                         uc_nominal_hash_rate := total_hashrate work;
                         uc_maximum_target := target |})],
                      in_client (set_upstream (Some up')) s)
                 end).

(** [handle_update_channel]. *)
Definition handle_update_channel (d : N) (msg : UpdateChannel) : handler unit :=
  messages ← with_registered_downstream d
    (focus standard_channels put_std (uc_channel_id msg)
       (focus extended_channels put_ext (uc_channel_id msg)
          (mret [ToDownstream d (UpdateChannelError (uc_channel_id msg)
                                   ERROR_CODE_UPDATE_CHANNEL_INVALID_CHANNEL_ID)])
          (update_extended d msg))
       (update_standard d msg));
  work ← ask downstream_work;
  upstream ← update_upstream work (min_target work);
  forward_all (messages ++ upstream).

(** ** Messages of a miner *)
Inductive MiningRequest : Type :=
| ReqCloseChannel (channel_id : N)
| ReqOpenStandard (msg : OpenStandardMiningChannel)
| ReqOpenExtended (msg : OpenExtendedMiningChannel)
| ReqSubmitStandard (msg : SubmitSharesStandard)
| ReqSubmitExtended (msg : SubmitSharesExtended)
| ReqUpdateChannel (msg : UpdateChannel).

(** [handle_mining_message_from_client]. *)
Definition handle_mining_message_from_client (d : N) (m : MiningRequest) : handler unit :=
  match m with
  | ReqCloseChannel c => handle_close_channel d c
  | ReqOpenStandard msg => handle_open_standard_mining_channel d msg
  | ReqOpenExtended msg => handle_open_extended_mining_channel d msg
  | ReqSubmitStandard msg =>
      run_client (ShareForward.handle_submit_shares_standard d msg) ≫= forward_all
  | ReqSubmitExtended msg =>
      run_client (ShareForward.handle_submit_shares_extended d msg) ≫= forward_all
  | ReqUpdateChannel msg => handle_update_channel d msg
  end.

Definition pending_message (p : PendingChannelRequest) : MiningRequest :=
  match p with
  | ExtendedChannelRequest _ m => ReqOpenExtended m
  | StandardChannelRequest _ m => ReqOpenStandard m
  end.

(** ** The upstream channel *)
Definition get_upstream_state : handler UpstreamState :=
  inner ← ask upstream_state; run_rust (upstream_get inner).
Definition set_upstream_state (st : UpstreamState) : handler unit :=
  update (λ s, put_upstream_state (upstream_set (upstream_state s) st) s).

(** The bytes to ask the pool for: [as u16] cuts them off. *)
Definition upstream_min_extranonce_size (p : PendingChannelRequest) : N :=
  as_u16 (JDC_LOCAL_PREFIX_BYTES +
          match p with
          | ExtendedChannelRequest _ m =>
              N.max reserved_downstream_rollable_extranonce_size (oec_min_extranonce_size m)
          | StandardChannelRequest _ _ => reserved_downstream_rollable_extranonce_size
          end).
Definition pending_max_target (p : PendingChannelRequest) : N :=
  match p with
  | ExtendedChannelRequest _ m => oec_max_target m
  | StandardChannelRequest _ m => osc_max_target m
  end.

(** The request for the upstream channel.  An identity that does not fit is
    an error for the one kind of request and a panic for the other. *)
Definition open_upstream (p : PendingChannelRequest) : handler unit :=
  identity ← some_or_crash user_identity;
  (if fits_str0255 identity then mret tt
   else match p with
        | ExtendedChannelRequest _ _ => raise (shutdown BinarySv2)
        | StandardChannelRequest _ _ => crash
        end);;
  send_upstream (MsgOpenExtendedMiningChannel
    {| oec_request_id := 1; oec_user_identity := identity;
       oec_nominal_hash_rate := pending_hashrate p; oec_max_target := pending_max_target p;
       oec_min_extranonce_size := upstream_min_extranonce_size p |}).

(** The two arms of [handle_downstream_message] for channel requests. *)
Definition handle_channel_request (p : PendingChannelRequest) : handler unit :=
  st ← get_upstream_state;
  match st with
  | NoChannel =>
      update (λ s, put_pending (p :: pending_downstream_requests s) s);;
      r ← transact (λ s, let '(r, inner) := compare_and_set (upstream_state s) NoChannel Pending in
                         (r, put_upstream_state inner s));
      won ← run_rust r;
      match (won : result unit UpstreamState) with
      | Ok _ => open_upstream p
      | Err _ => mret tt
      end
  | Pending => update (λ s, put_pending (pending_downstream_requests s ++ [p]) s)
  | Connected | SoloMiningState =>
      handle_mining_message_from_client (pending_downstream_id p) (pending_message p)
  end.

(** [handle_downstream_message]. *)
Definition handle_downstream_message (d : N) (m : MiningRequest) : handler unit :=
  match m with
  | ReqOpenExtended msg => handle_channel_request (ExtendedChannelRequest d msg)
  | ReqOpenStandard msg => handle_channel_request (StandardChannelRequest d msg)
  | m => handle_mining_message_from_client d m
  end.
End manager.
