(* ===== verification/JdcTemplates.v ===== *)
(** * JD client: templates and chain tips
    ([miner-apps/jd-client/src/lib/channel_manager/template_message_handler.rs])

    The handlers of the template provider's messages: a template becomes a
    job of every miner's group and channels and, depending on the mode, is
    declared to the JD server or set as a custom job at the pool. *)
From S2P Require Import Prelude Handler SharedMap Bitcoin JobDeclarator ShareCache ServerChannels ShareForward JdClient JdcManager.

Section templates.
Context `{B : BitcoinApi} `{CS : ChannelsSv2} `{!JdcChannels}.
Context (mode : JDMode) (user_identity : option string) (frame_fits : SetCustomMiningJob → bool).
(** The iteration orders of the maps. *)
Context (downstream_order : list N) (channel_order : N → list N) (job_order : list N).

Local Notation send_jd := (send_jd frame_fits).
Local Notation request_transaction_data := (request_transaction_data frame_fits).
Local Notation refill_tokens := (refill_tokens user_identity frame_fits).
Local Notation forward_all := (forward_all frame_fits).

(** ** Custom jobs *)
Definition custom_declared (template : NewTemplate) (ph : SetNewPrevHash)
    (custom : SetCustomMiningJob) (outputs : list byte) : DeclaredJob :=
  {| dj_declare_mining_job := None; dj_template := template; dj_prev_hash := Some ph;
     dj_set_custom_mining_job := Some custom; dj_coinbase_output := outputs; dj_tx_list := [] |}.

Definition store_declared (request_id : N) (job : DeclaredJob) : handler unit :=
  update (λ s, in_client (set_declared
    (<[request_id := job]> (last_declare_job_store (client s)))) s).

(** A custom job by the stored factory, which is [expect]ed to be there; it is
    remembered under its request id. *)
Definition set_custom_job (token : TokenGrant) (channel_id full_size : N) (ph : SetNewPrevHash)
    (template : NewTemplate) (outputs : list TxOut) : handler (list RouteMessageTo) :=
  request_id ← next_request_id;
  factory ← ask (λ s, job_factory (client s));
  factory ← some_or_crash factory;
  let '(built, factory') := new_custom_job factory channel_id request_id
    (tg_mining_job_token token) ph template outputs full_size in
  update (in_client (set_factory (Some factory')));;
  match built with
  | None => mret []
  | Some custom =>
      bytes ← ask (λ s, coinbase_outputs (client s));
      store_declared request_id (custom_declared template ph custom bytes);;
      mret [Upstream (MsgSetCustomMiningJob custom)]
  end.

Definition upstream_info : handler (option (N * N)) :=
  ask (λ s, (λ up, (up_channel_id up, up_full_extranonce_size up)) <$> upstream_channel (client s)).

(** ** New templates *)

(** The group's job for the template. *)
Definition group_job (msg : NewTemplate) (outputs : list TxOut) : guarded ExtJob :=
  r ← transact (λ ds, let '(r, g) := grp_on_new_template (group_channel ds) msg outputs in
                      (r, put_group g ds));
  ok_or_raise r (λ _, shutdown ChannelSv2);;
  g ← ask group_channel;
  if future_template msg then
    job_id ← some_or_crash (grp_get_future_job_id_from_template_id g (template_id msg));
    some_or_crash (grp_get_future_job g job_id)
  else some_or_crash (grp_get_active_job g).

(** A standard channel's own job for the template. *)
Definition own_standard_job (msg : NewTemplate) (outputs : list TxOut)
    : prog StdChannel JDCError (N * NewMiningJob) :=
  r ← transact (λ ch, std_on_new_template ch msg outputs);
  ok_or_raise r (λ _, shutdown ChannelSv2);;
  ch ← ask (λ ch, ch);
  if future_template msg then
    job_id ← some_or_crash (std_get_future_job_id_from_template_id ch (template_id msg));
    job ← some_or_crash (std_get_future_job ch job_id);
    mret (job_id, std_job_message job)
  else
    job ← some_or_crash (std_get_active_job ch);
    mret (std_job_id job, std_job_message job).

Definition template_standard (msg : NewTemplate) (outputs : list TxOut) (d : N) (own_jobs : bool)
    (group : ExtJob) (channel_id : N) : handler (list RouteMessageTo) :=
  ds ← registered d;
  match standard_channels ds !! channel_id with
  | None => mret []
  | Some _ =>
      if negb own_jobs then
        record_template d channel_id (ext_job_id group) (template_id msg);;
        r ← with_registered_downstream d
              (focus standard_channels put_std channel_id (mret (Ok tt))
                 (transact (λ ch, std_on_group_channel_job ch group)));
        ok_or_raise r (λ _, shutdown ChannelSv2);;
        mret []
      else
        own ← with_registered_downstream d
                (focus standard_channels put_std channel_id (mret None)
                   (job ← own_standard_job msg outputs; mret (Some job)));
        match own with
        | None => mret []
        | Some (job_id, message) =>
            record_template d channel_id job_id (template_id msg);;
            mret [ToDownstream d (MsgNewMiningJob message)]
        end
  end.

Definition template_extended (msg : NewTemplate) (d : N) (group : ExtJob) (channel_id : N)
    : handler (list RouteMessageTo) :=
  ds ← registered d;
  match extended_channels ds !! channel_id with
  | None => mret []
  | Some _ =>
      record_template d channel_id (ext_job_id group) (template_id msg);;
      r ← with_registered_downstream d
            (focus extended_channels put_ext channel_id (mret (Ok tt))
               (transact (λ ch, ext_on_group_channel_job ch group)));
      ok_or_raise r (λ _, shutdown ChannelSv2);;
      mret []
  end.

(** One round of the loop over the miners.  In coinbase-only mode the custom
    job is set in here. *)
Definition template_round (msg : NewTemplate) (outputs : list TxOut) (token : option TokenGrant)
    (info : option (N * N)) (ph : option SetNewPrevHash) (d : N) : handler (list RouteMessageTo) :=
  connected ← ask (λ s, downstreams s !! d);
  match connected with
  | None => mret []
  | Some _ =>
      group ← with_registered_downstream d (group_job msg outputs);
      custom ← match token, info, ph with
               | Some token, Some (channel_id, full_size), Some ph =>
                   set_custom_job token channel_id full_size ph msg outputs
               | _, _, _ => mret []
               end;
      ds ← registered d;
      let own_jobs := require_std_job ds in
      let announced := if negb own_jobs && negb (grp_is_empty (group_channel ds))
                       then [ToDownstream d (MsgNewExtendedMiningJob (ext_job_message group))]
                       else [] in
      standard ← collect (channel_order d) (template_standard msg outputs d own_jobs group);
      extended ← collect (channel_order d) (template_extended msg d group);
      mret (custom ++ announced ++ standard ++ extended)
  end.

(** Whether the client can set a custom job now. *)
Definition can_set_custom_job (s : ChannelManager) : bool :=
  bool_decide (is_Some (upstream_channel (client s))) &&
  bool_decide (is_Some (last_new_prev_hash (client s))) &&
  bool_decide (is_Some (job_factory (client s))).

(** [handle_new_template]. *)
Definition handle_new_template (msg : NewTemplate) : handler unit :=
  update (λ s, put_templates (<[template_id msg := msg]> (template_store s)) s);;
  (if future_template msg then update (put_future_template (Some msg)) else mret tt);;
  outputs ← configured_outputs;
  outputs ← template_outputs msg outputs;
  (if is_full_template mode then
     st ← get_upstream_state;
     if bool_decide (st = Connected) then request_transaction_data (template_id msg) else mret tt
   else mret tt);;
  ready ← ask can_set_custom_job;
  token ← (if negb (future_template msg) && is_coinbase_only mode && ready
           then pop_token else mret None);
  info ← upstream_info;
  ph ← ask (λ s, last_new_prev_hash (client s));
  messages ← collect downstream_order (template_round msg outputs token info ph);
  (if bool_decide (is_Some token) then refill_tokens else mret tt);;
  forward_all messages.

(** ** Transaction data *)

(** [handle_request_tx_data_error]. *)
Definition handle_request_tx_data_error (error_code : string) : handler unit :=
  if decide (error_code = ERROR_CODE_REQUEST_TRANSACTION_DATA_TEMPLATE_ID_NOT_FOUND ∨
             error_code = ERROR_CODE_REQUEST_TRANSACTION_DATA_STALE_TEMPLATE_ID)
  then mret tt else raise (log TxDataError).

(** The declaration of a template, by the stored factory; remembered under its
    request id. *)
Definition declare_template (request_id : N) (token : TokenGrant) (template : NewTemplate)
    (ph : option SetNewPrevHash) (outputs : list TxOut) (wtxids : list N)
    (transactions : list (list byte)) : handler (option DeclareMiningJob) :=
  info ← upstream_info;
  factory ← ask (λ s, job_factory (client s));
  match info, factory with
  | Some (_, full_size), Some factory =>
      let '(built, factory') :=
        new_coinbase_tx_prefix_and_suffix factory template outputs full_size in
      update (in_client (set_factory (Some factory')));;
      match built with
      | None => mret None
      | Some (prefix, suffix) =>
          some_or_crash (guard (fits_b064k prefix && fits_b064k suffix = true));;
          let job := {| dmj_request_id := request_id; mining_job_token := tg_mining_job_token token;
                        dmj_version := nt_version template; coinbase_tx_prefix := prefix;
                        coinbase_tx_suffix := suffix; wtxid_list := wtxids |} in
          store_declared request_id
            {| dj_declare_mining_job := Some job; dj_template := template; dj_prev_hash := ph;
               dj_set_custom_mining_job := None;
               dj_coinbase_output := serialize_outputs outputs; dj_tx_list := transactions |};;
          mret (Some job)
      end
  | _, _ => mret None
  end.

(** [handle_request_tx_data_success]; the excess data it passes on is left
    out. *)
Definition handle_request_tx_data_success (id : N) (transactions : list (list byte))
    : handler unit :=
  st ← (if is_full_template mode then get_upstream_state else mret NoChannel);
  if negb (bool_decide (st = Connected)) then mret tt
  else
    outputs ← configured_outputs;
    token ← pop_token;
    template ← transact (λ s, let '(o, m) := SharedMap.remove (template_store s) id in
                              (snd <$> o, put_templates m s));
    request_id ← next_request_id;
    ph ← ask (λ s, last_new_prev_hash (client s));
    refill_tokens;;
    match token with
    | None => mret tt
    | Some token =>
        template ← some_or template (log (TemplateNotFound id));
        outputs ← template_outputs template outputs;
        txs ← some_or (mapM deserialize transactions) (shutdown BitcoinEncodeError);
        let wtxids := compute_wtxid <$> txs in
        ensure (fits_64k wtxids) (shutdown BinarySv2);;
        let not_activated := future_template template &&
          bool_decide (ph_template_id <$> ph ≠ Some (template_id template)) in
        job ← declare_template request_id token template ph outputs wtxids transactions;
        if not_activated then mret tt
        else match job with
             | Some job => attempt (send_jd (MsgDeclareMiningJob job));; mret tt
             | None => mret tt
             end
    end.

(** ** A new chain tip *)

(** The declared jobs of the template now have their previous hash. *)
Definition mark_declared (ph : SetNewPrevHash) (job : DeclaredJob) : DeclaredJob :=
  let t := dj_template job in
  if future_template t && (template_id t =? ph_template_id ph)%N then
    {| dj_declare_mining_job := dj_declare_mining_job job;
       dj_template := {| template_id := template_id t; future_template := false;
         nt_version := nt_version t; nt_coinbase_tx_version := nt_coinbase_tx_version t;
         nt_coinbase_prefix := nt_coinbase_prefix t;
         nt_coinbase_tx_input_sequence := nt_coinbase_tx_input_sequence t;
         coinbase_tx_value_remaining := coinbase_tx_value_remaining t;
         nt_coinbase_tx_outputs_count := nt_coinbase_tx_outputs_count t;
         nt_coinbase_tx_outputs := nt_coinbase_tx_outputs t;
         nt_coinbase_tx_locktime := nt_coinbase_tx_locktime t;
         nt_merkle_path := nt_merkle_path t |};
       dj_prev_hash := Some ph; dj_set_custom_mining_job := dj_set_custom_mining_job job;
       dj_coinbase_output := dj_coinbase_output job; dj_tx_list := dj_tx_list job |}
  else job.

(** The declaration of the last future template: of the last stored job made
    from it, in the order of iteration. *)
Definition pending_declaration (s : ChannelManager) : option DeclareMiningJob :=
  match last_future_template s with
  | None => None
  | Some t =>
      last (omap (λ id, job ← last_declare_job_store (client s) !! id;
                        if (template_id (dj_template job) =? template_id t)%N
                        then Some (dj_declare_mining_job job) else None) job_order) ≫= id
  end.

Definition prev_hash_standard (ph : SetNewPrevHash) (d : N) (own_jobs : bool) (channel_id : N)
    : handler (list RouteMessageTo) :=
  r ← with_registered_downstream d
        (focus standard_channels put_std channel_id (mret None)
           (r ← transact (λ ch, std_on_set_new_prev_hash ch ph);
            ok_or_raise r (λ _, fallback ChannelSv2);;
            if own_jobs then
              job ← ask std_get_active_job; job ← some_or_crash job; mret (Some (std_job_id job))
            else mret None));
  match r with
  | None => mret []
  | Some job_id =>
      record_template d channel_id job_id (ph_template_id ph);;
      mret [ToDownstream d (prev_hash_message channel_id job_id ph)]
  end.

Definition prev_hash_extended (ph : SetNewPrevHash)
    : prog ExtChannel JDCError (list RouteMessageTo) :=
  r ← transact (λ ch, ext_on_set_new_prev_hash ch ph);
  ok_or_raise r (λ _, fallback ChannelSv2);;
  mret [].

(** The group, and the id of the job it now works on. *)
Definition prev_hash_group (ph : SetNewPrevHash) : guarded N :=
  r ← transact (λ ds, let '(r, g) := grp_on_set_new_prev_hash (group_channel ds) ph in
                      (r, put_group g ds));
  ok_or_raise r (λ _, fallback ChannelSv2);;
  job ← ask (λ ds, grp_get_active_job (group_channel ds));
  job ← some_or_crash job;
  mret (ext_job_id job).

(** The channels of the group work on its job. *)
Definition record_group (d job_id template : N) (channels : list N) : handler unit :=
  for_each channels (λ c,
    ds ← registered d;
    if bool_decide (is_Some (standard_channels ds !! c)) ||
       bool_decide (is_Some (extended_channels ds !! c))
    then record_template d c job_id template else mret tt).

(** One round of the loop over the miners. *)
Definition prev_hash_round (ph : SetNewPrevHash) (d : N) : handler (list RouteMessageTo) :=
  connected ← ask (λ s, downstreams s !! d);
  match connected with
  | None => mret []
  | Some _ =>
      job_id ← with_registered_downstream d (prev_hash_group ph);
      ds ← registered d;
      let own_jobs := require_std_job ds in
      announced ← (if negb own_jobs && negb (grp_is_empty (group_channel ds)) then
                     record_group d job_id (ph_template_id ph) (channel_order d);;
                     mret [ToDownstream d
                             (prev_hash_message (grp_id (group_channel ds)) job_id ph)]
                   else mret []);
      standard ← collect (channel_order d) (prev_hash_standard ph d own_jobs);
      collect (channel_order d) (λ c, with_registered_downstream d
        (focus extended_channels put_ext c (mret []) (prev_hash_extended ph)));;
      mret (announced ++ standard)
  end.

(** In coinbase-only mode the custom job of the template becomes possible.
    The result tells whether a token was used. *)
Definition coinbase_only_job (ph : SetNewPrevHash) (template : option NewTemplate)
    (outputs : list TxOut) : handler (list RouteMessageTo * bool) :=
  match is_coinbase_only mode, template with
  | true, Some template =>
      token ← pop_token;
      info ← upstream_info;
      match token, info with
      | Some token, Some (channel_id, full_size) =>
          messages ← set_custom_job token channel_id full_size ph template outputs;
          mret (messages, true)
      | _, _ => mret ([], false)
      end
  | _, _ => mret ([], false)
  end.

(** [handle_set_new_prev_hash]. *)
Definition handle_set_new_prev_hash (ph : SetNewPrevHash) : handler unit :=
  outputs ← configured_outputs;
  update (in_client (set_cache ∅));;
  update (λ s, in_client (set_upstream
    ((λ up, up_on_chain_tip_update up ph) <$> upstream_channel (client s))) s);;
  template ← ask last_future_template;
  declaration ← ask pending_declaration;
  (if is_full_template mode then
     match declaration with
     | Some job => send_jd (MsgDeclareMiningJob job)
     | None => mret tt
     end
   else mret tt);;
  update (in_client (set_prev_hash (Some ph)));;
  update (λ s, in_client (set_declared
    (mark_declared ph <$> last_declare_job_store (client s))) s);;
  r ← coinbase_only_job ph template outputs;
  let '(custom, token_consumed) := r in
  messages ← collect downstream_order (prev_hash_round ph);
  (if (token_consumed : bool) then refill_tokens else mret tt);;
  forward_all (custom ++ messages).

(** ** Messages of the template provider *)
Inductive TpIncoming : Type :=
| TpNewTemplate (m : NewTemplate)
| TpSetNewPrevHash (m : SetNewPrevHash)
| TpRequestTransactionDataSuccess (template_id : N) (transactions : list (list byte))
| TpRequestTransactionDataError (error_code : string).

Definition handle_template_provider_message (m : TpIncoming) : handler unit :=
  match m with
  | TpNewTemplate m => handle_new_template m
  | TpSetNewPrevHash m => handle_set_new_prev_hash m
  | TpRequestTransactionDataSuccess t txs => handle_request_tx_data_success t txs
  | TpRequestTransactionDataError code => handle_request_tx_data_error code
  end.
End templates.
