(* ===== verification/JdcSystem.v ===== *)
(** * JD client: the upstream pool and the loop
    ([miner-apps/jd-client/src/lib/channel_manager/upstream_message_handler.rs],
    [extensions_message_handler.rs], [mod.rs])

    The handlers of the pool's messages, the variable difficulty of the
    miners, the connections, and the channel manager beside the other tasks
    as the step relation [jdc_step]. *)
From S2P Require Import Prelude Handler SharedMap Bitcoin JobDeclarator Setup ShareCache ServerChannels ShareForward JdClient JdcManager JdcTemplates.

(** [OpenExtendedMiningChannel.Success] of the pool. *)
Record OpenExtendedGrant : Type := {
  gr_channel_id : N; gr_target : N; gr_extranonce_size : N; gr_extranonce_prefix : list byte;
}.

Section upstream.
Context `{B : BitcoinApi} `{CS : ChannelsSv2} `{!JdcChannels}.
Context (mode : JDMode) (user_identity : option string)
  (reserved_downstream_rollable_extranonce_size : N) (frame_fits : SetCustomMiningJob → bool)
  (required_extensions supported_extensions : list N).
Context (downstream_order : list N) (channel_order : N → list N).

Local Notation send_upstream := (send_upstream frame_fits).
Local Notation request_transaction_data := (request_transaction_data frame_fits).
Local Notation refill_tokens := (refill_tokens user_identity frame_fits).
Local Notation forward_all := (forward_all frame_fits).
Local Notation handle_mining_message_from_client :=
  (handle_mining_message_from_client frame_fits downstream_order channel_order).

(** ** Opening the upstream channel *)

(** The pool's channel is not wanted, or of no use. *)
Definition give_up_channel (channel_id : N) : handler unit :=
  set_upstream_state NoChannel;;
  send_upstream (MsgCloseChannel channel_id "downstream not available").

(** A custom job for the last template, by the new factory; only when a factory
    was there before. *)
Definition first_custom_job (up : UpChannel) (factory : JobFactory) (outputs : list TxOut)
    : handler (option SetCustomMiningJob * JobFactory) :=
  template ← ask last_future_template;
  ph ← ask (λ s, last_new_prev_hash (client s));
  had_job_factory ← ask (λ s, bool_decide (is_Some (job_factory (client s))));
  match is_coinbase_only mode && had_job_factory, template, ph with
  | true, Some template, Some ph =>
      token ← pop_token;
      match token with
      | None => mret (None, factory)
      | Some token =>
          request_id ← next_request_id;
          let '(built, factory') := new_custom_job factory (up_channel_id up) request_id
            (tg_mining_job_token token) ph template outputs (up_full_extranonce_size up) in
          match built with
          | None => mret (None, factory')
          | Some custom =>
              bytes ← ask (λ s, coinbase_outputs (client s));
              store_declared request_id (custom_declared template ph custom bytes);;
              mret (Some custom, factory')
          end
      end
  | _, _, _ => mret (None, factory)
  end.

Definition resize_group (full_size : N) : guarded unit :=
  r ← transact (λ ds, let '(r, g) := grp_set_full_extranonce_size (group_channel ds) full_size in
                      (r, put_group g ds));
  ok_or_raise r (λ _, shutdown ChannelSv2).

(** The requests that waited for the channel, in order. *)
Definition serve_pending : handler unit :=
  pending ← transact (λ s, (pending_downstream_requests s, put_pending [] s));
  for_each pending (λ p,
    handle_mining_message_from_client (pending_downstream_id p) (pending_message p)).

(** Once the channel is there. *)
Definition channel_opened (up : UpChannel) (allocator : ExtranonceAllocator) (factory : JobFactory)
    (custom : option SetCustomMiningJob) : handler unit :=
  update (put_allocator allocator);;
  update (in_client (set_upstream (Some up)));;
  update (in_client (set_factory (Some factory)));;
  set_upstream_state Connected;;
  template ← ask last_future_template;
  for_each downstream_order (λ d,
    focus downstreams put_downstreams d (mret tt) (resize_group (up_full_extranonce_size up)));;
  st ← get_upstream_state;
  if bool_decide (st = Connected) then
    (if is_full_template mode then
       match template with
       | Some t => request_transaction_data (template_id t)
       | None => mret tt
       end
     else mret tt);;
    (if is_coinbase_only mode then
       match custom with
       | Some custom => send_upstream (MsgSetCustomMiningJob custom);; refill_tokens
       | None => mret tt
       end
     else mret tt);;
    serve_pending
  else mret tt.

(** [handle_open_extended_mining_channel_success]. *)
Definition handle_open_extended_mining_channel_success (msg : OpenExtendedGrant) : handler unit :=
  bytes ← ask (λ s, coinbase_outputs (client s));
  outputs ← some_or (deserialize_outputs bytes) (shutdown DeclaredJobHasBadCoinbaseOutputs);
  ensure (JDC_LOCAL_PREFIX_BYTES + reserved_downstream_rollable_extranonce_size
            <=? gr_extranonce_size msg)%N (fallback ExtranonceSizeTooSmall);;
  first ← ask (λ s, head (pending_downstream_requests s));
  match first with
  | None => give_up_channel (gr_channel_id msg)
  | Some first =>
      let prefix := gr_extranonce_prefix msg in
      let total := as_u16 (as_u16 (N.of_nat (length prefix)) + gr_extranonce_size msg) in
      match from_upstream_prefix prefix [] (as_u8 total) JDC_MAX_CHANNELS with
      | Err _ => give_up_channel (gr_channel_id msg)
      | Ok allocator =>
          extranonce_prefix ← some_or_crash (match from_wire prefix with
                                             | Ok p => Some p | Err _ => None end);
          identity ← some_or_crash user_identity;
          up ← some_or (up_new (gr_channel_id msg) identity extranonce_prefix (gr_target msg)
                          (pending_hashrate first) (gr_extranonce_size msg)) (fallback ChannelSv2);
          ph ← ask (λ s, last_new_prev_hash (client s));
          let up := match ph with Some ph => up_on_chain_tip_update up ph | None => up end in
          r ← first_custom_job up job_factory_new outputs;
          let '(custom, factory) := r in
          channel_opened up allocator factory custom
      end
  end.

(** ** A new extranonce prefix *)

(** One channel; what goes wrong is dropped with the messages that could not
    be made. *)
Definition renew_standard (d channel_id : N) : handler (list RouteMessageTo) :=
  ds ← registered d;
  match standard_channels ds !! channel_id with
  | None => mret []
  | Some _ =>
      r ← transact (λ s, let '(r, a) := allocate_standard (extranonce_allocator s) in
                         (r, put_allocator a s));
      match r with
      | Err _ => mret []
      | Ok prefix =>
          r ← with_registered_downstream d
                (focus standard_channels put_std channel_id (mret (Ok tt))
                   (transact (λ ch, std_set_extranonce_prefix ch prefix)));
          match r with
          | Err _ => drop_prefix prefix;; mret []
          | Ok _ =>
              mret (if fits_b032 (prefix_bytes prefix)
                    then [ToDownstream d (MsgSetExtranoncePrefix channel_id (prefix_bytes prefix))]
                    else [])
          end
      end
  end.

Definition renew_extended (d channel_id : N) : handler (list RouteMessageTo) :=
  ds ← registered d;
  match extended_channels ds !! channel_id with
  | None => mret []
  | Some ch =>
      r ← transact (λ s, let '(r, a) := allocate_extended (extranonce_allocator s)
                                          (ext_rollable_extranonce_size ch) in
                         (r, put_allocator a s));
      match r with
      | Err _ => mret []
      | Ok prefix =>
          r ← with_registered_downstream d
                (focus extended_channels put_ext channel_id (mret (Ok tt))
                   (transact (λ ch, ext_set_extranonce_prefix ch prefix)));
          match r with
          | Err _ => drop_prefix prefix;; mret []
          | Ok _ =>
              mret (if fits_b032 (prefix_bytes prefix)
                    then [ToDownstream d (MsgSetExtranoncePrefix channel_id (prefix_bytes prefix))]
                    else [])
          end
      end
  end.

Definition renew_round (d : N) : handler (list RouteMessageTo) :=
  connected ← ask (λ s, downstreams s !! d);
  match connected with
  | None => mret []
  | Some _ =>
      standard ← collect (channel_order d) (renew_standard d);
      extended ← collect (channel_order d) (renew_extended d);
      mret (standard ++ extended)
  end.

(** [handle_set_extranonce_prefix]. *)
Definition handle_set_extranonce_prefix (prefix : list byte) : handler unit :=
  up ← ask (λ s, upstream_channel (client s));
  match up with
  | None => mret tt
  | Some up =>
      p ← ok_or_raise (from_wire prefix) (λ _, fallback ExtranonceSizeTooLarge);
      let '(r, up') := up_set_extranonce_prefix up p in
      update (in_client (set_upstream (Some up')));;
      ok_or_raise r (λ _, fallback ChannelSv2);;
      let full_size := N.of_nat (length prefix) + up_rollable_extranonce_size up' in
      ensure (full_size <=? MAX_EXTRANONCE_LEN)%N (fallback ExtranonceSizeTooLarge);;
      allocator ← ok_or_raise (from_upstream_prefix prefix [] (as_u8 full_size) JDC_MAX_CHANNELS)
                    (λ _, fallback ChannelSv2);
      update (put_allocator allocator);;
      messages ← collect downstream_order renew_round;
      forward_all messages
  end.

(** ** The other messages of the pool *)
Definition with_upstream (f : UpChannel → UpChannel) : handler unit :=
  update (λ s, in_client (set_upstream (f <$> upstream_channel (client s))) s).

(** [handle_set_target]. *)
Definition handle_set_target (target : N) : handler unit :=
  r ← transact (λ s, match upstream_channel (client s) with
                     | None => (Ok tt, s)
                     | Some up => let '(r, up') := up_set_target up target in
                                  (r, in_client (set_upstream (Some up')) s)
                     end);
  ok_or_raise r (λ _, fallback ChannelSv2).

(** [handle_close_channel] of the upstream. *)
Definition handle_upstream_close_channel : handler unit :=
  update (in_client (set_upstream None));; raise (fallback UpstreamClosedChannel).

(** [handle_request_extensions_success]. *)
Definition handle_request_extensions_success (supported : list N) : handler unit :=
  let missing := filter (λ e, e ∉ supported) required_extensions in
  ensure (bool_decide (missing = [])) (fallback (RequiredExtensionsNotSupported missing));;
  update (put_server_extensions supported).

(** [handle_request_extensions_error]. *)
Definition handle_request_extensions_error (request_id : N) (unsupported required : list N)
    : handler unit :=
  let missing := filter (λ e, e ∈ unsupported) required_extensions in
  ensure (bool_decide (missing = [])) (fallback (RequiredExtensionsNotSupported missing));;
  if bool_decide (required = []) then mret tt
  else
    let can_support := filter (λ e, e ∈ supported_extensions) required in
    let cannot_support := filter (λ e, e ∉ supported_extensions) required in
    ensure (bool_decide (cannot_support = []))
      (fallback (ServerRequiresUnsupportedExtensions cannot_support));;
    send_upstream (MsgRequestExtensions (as_u16 (request_id + 1)) can_support).

(** [order] is the order in which a heap of cached shares is iterated. *)
Inductive PoolIncoming : Type :=
| PoolOpenStandardSuccess
| PoolOpenExtendedSuccess (m : OpenExtendedGrant)
| PoolOpenMiningChannelError
| PoolUpdateChannelError
| PoolCloseChannel
| PoolSetExtranoncePrefix (prefix : list byte)
| PoolSubmitSharesSuccess (accepted_count shares_sum : N)
| PoolSubmitSharesError (error_code : string)
| PoolIgnored
| PoolSetCustomMiningJobSuccess (order : list SharesOrderedByDiff → list SharesOrderedByDiff)
    (channel_id request_id job_id : N)
| PoolSetCustomMiningJobError (request_id : N) (error_code : string)
| PoolSetTarget (target : N)
| PoolRequestExtensionsSuccess (supported : list N)
| PoolRequestExtensionsError (request_id : N) (unsupported required : list N)
| PoolUnexpected.

(** [handle_pool_message_frame]; [PoolIgnored] are the jobs, previous hashes
    and group channels the client only warns about, [PoolUnexpected] the
    frames that belong to neither protocol. *)
Definition handle_pool_message (m : PoolIncoming) : handler unit :=
  match m with
  | PoolOpenStandardSuccess => raise (fallback OpenStandardMiningChannelError)
  | PoolOpenExtendedSuccess m => handle_open_extended_mining_channel_success m
  | PoolOpenMiningChannelError => raise (fallback OpenMiningChannelRefused)
  | PoolUpdateChannelError | PoolIgnored => mret tt
  | PoolCloseChannel => handle_upstream_close_channel
  | PoolSetExtranoncePrefix prefix => handle_set_extranonce_prefix prefix
  | PoolSubmitSharesSuccess n w => with_upstream (λ up, up_on_share_acknowledgement up n w)
  | PoolSubmitSharesError code => with_upstream (λ up, up_on_share_rejection up code)
  | PoolSetCustomMiningJobSuccess order channel_id request_id job_id =>
      run_client (handle_set_custom_mining_job_success order channel_id request_id job_id)
        ≫= forward_all
  | PoolSetCustomMiningJobError request_id code =>
      run_client (λ c, Done (handle_set_custom_mining_job_error request_id code c))
        ≫= forward_all
  | PoolSetTarget target => handle_set_target target
  | PoolRequestExtensionsSuccess supported => handle_request_extensions_success supported
  | PoolRequestExtensionsError request_id unsupported required =>
      handle_request_extensions_error request_id unsupported required
  | PoolUnexpected => raise (log UnexpectedMessage)
  end.

(** ** Variable difficulty *)

(** [run_vardiff_on_standard_channel], [run_vardiff_on_extended_channel]. *)
Definition run_vardiff_on_standard_channel (d channel_id : N) (v : Vardiff)
    : prog StdChannel JDCError (Vardiff * list RouteMessageTo) :=
  transact (λ ch,
    let '(r, v') := try_vardiff v (std_nominal_hashrate ch) (std_target ch) in
    match r with
    | Err _ => (v', [], ch)
    | Ok None => (v', [], std_set_stable_hashrate ch true)
    | Ok (Some hashrate) =>
        let '(r, ch') := std_update_channel (std_set_stable_hashrate ch false) hashrate None in
        match r with
        | Ok _ => (v', [ToDownstream d (MsgSetTarget channel_id (std_target ch'))], ch')
        | Err _ => (v', [], ch')
        end
    end).

Definition run_vardiff_on_extended_channel (d channel_id : N) (v : Vardiff)
    : prog ExtChannel JDCError (Vardiff * list RouteMessageTo) :=
  transact (λ ch,
    let '(r, v') := try_vardiff v (ext_nominal_hashrate ch) (ext_target ch) in
    match r with
    | Err _ => (v', [], ch)
    | Ok None => (v', [], ext_set_stable_hashrate ch true)
    | Ok (Some hashrate) =>
        let '(r, ch') := ext_update_channel (ext_set_stable_hashrate ch false) hashrate None in
        match r with
        | Ok _ => (v', [ToDownstream d (MsgSetTarget channel_id (ext_target ch'))], ch')
        | Err _ => (v', [], ch')
        end
    end).

Definition put_vardiff (m : gmap (N * N) Vardiff) (s : ChannelManager) : ChannelManager :=
  in_client (set_vardiff m) s.

(** One key of the vardiff map; a key of a removed connection is removed. *)
Definition vardiff_round (key : N * N) : handler (list RouteMessageTo) :=
  let '(d, channel_id) := key in
  controller ← ask (λ s, vardiff (client s) !! key);
  connection ← ask (λ s, downstreams s !! d);
  match connection, controller with
  | None, _ =>
      update (λ s, put_vardiff (SharedMap.remove (vardiff (client s)) key).2 s);; mret []
  | Some _, None => mret []
  | Some _, Some v =>
      r ← with_registered_downstream d
            (focus standard_channels put_std channel_id (mret (v, []))
               (run_vardiff_on_standard_channel d channel_id v));
      let '(v1, updates1) := (r : Vardiff * list RouteMessageTo) in
      r ← with_registered_downstream d
            (focus extended_channels put_ext channel_id (mret (v1, []))
               (run_vardiff_on_extended_channel d channel_id v1));
      let '(v2, updates2) := (r : Vardiff * list RouteMessageTo) in
      update (λ s, put_vardiff (<[key := v2]> (vardiff (client s))) s);;
      mret (updates1 ++ updates2)
  end.

(** The order of arrays of bytes, and the least target in this order of their
    little-endian bytes, as [run_vardiff] computes it. *)
Fixpoint bytes_lt (a b : list byte) : bool :=
  match a, b with
  | x :: a', y :: b' =>
      (Byte.to_N x <? Byte.to_N y)%N ||
      ((Byte.to_N x =? Byte.to_N y)%N && bytes_lt a' b')
  | [], _ :: _ => true
  | _, [] => false
  end.
Definition target_bytes (t : N) : list byte := to_le_bytes 32 t.
Definition min_target_bytes (work : list (Hashrate * N)) : N :=
  foldl (λ acc w, if bytes_lt (target_bytes acc) (target_bytes w.2) then acc else w.2)
    MAX_TARGET work.

(** [run_vardiff]; [keys] is an enumeration of the vardiff map. *)
Definition run_vardiff (keys : list (N * N)) : handler unit :=
  messages ← collect keys vardiff_round;
  work ← ask (downstream_work downstream_order channel_order);
  upstream ← (if bool_decide (messages = []) then mret []
              else update_upstream work (min_target_bytes work));
  forward_all (messages ++ upstream).

(** One tick of [run_vardiff_loop]: an error is logged. *)
Definition vardiff_tick (keys : list (N * N)) : handler unit :=
  attempt (run_vardiff keys);; mret tt.

(** ** Connections *)

(** [bootstrap_group_channel]; [None] when it fails. *)
Definition bootstrap_group_channel (channel_id : N) : handler (option GroupChannel) :=
  full_size ← ask full_extranonce_size;
  template ← ask last_future_template;
  template ← some_or_crash template;
  ph ← ask (λ s, last_new_prev_hash (client s));
  ph ← some_or_crash ph;
  bytes ← ask (λ s, coinbase_outputs (client s));
  match grp_new_for_job_declaration_client channel_id full_size, deserialize_outputs bytes with
  | Some g, Some outputs =>
      outputs ← template_outputs template outputs;
      let '(r, g1) := grp_on_new_template g template outputs in
      let '(r', g2) := grp_on_set_new_prev_hash g1 ph in
      mret (match r, r' with Ok _, Ok _ => Some g2 | _, _ => None end)
  | _, _ => mret None
  end.

(** [Downstream::new]: the group channel took the first channel id. *)
Definition new_downstream (g : GroupChannel) : Downstream :=
  {| group_channel := g; extended_channels := SharedMap.new; standard_channels := SharedMap.new;
     channel_id_factory := 2; negotiated_extensions := []; require_std_job := false;
     set_up := false |}.

(** The registration of an accepted connection in [start_downstream_server]:
    its id and a connection it replaces, or [None] when the group channel
    could not be set up. *)
Definition accept_downstream : handler (option (N * option Downstream)) :=
  d ← transact (λ s, (downstream_id_factory s,
                      put_downstream_id (u64_add (downstream_id_factory s) 1) s));
  g ← bootstrap_group_channel 1;
  match g with
  | None => mret None
  | Some g =>
      update (λ s, let cio := channel_manager_io s in
                   put_io {| io := io cio; downstream_sender := {[d]} ∪ downstream_sender cio;
                             closed := closed cio ∖ {[d]}; sent := sent cio |} s);;
      old ← transact (λ s, let '(o, m) := SharedMap.insert (downstreams s) d (new_downstream g) in
                           (o, put_downstreams m s));
      mret (Some (d, old))
  end.

(** [remove_downstream]; the connection's task may still hold a clone, which
    keeps the channels alive. *)
Definition remove_downstream (d : N) (s : ChannelManager) : option Downstream * ChannelManager :=
  let '(o, m) := SharedMap.remove (downstreams s) d in
  let c := client s in
  let cio := channel_manager_io s in
  (snd <$> o,
   put_io {| io := io cio; downstream_sender := downstream_sender cio ∖ {[d]};
             closed := closed cio; sent := sent cio |}
     (in_client (set_vardiff (SharedMap.retain (λ k _, negb (k.1 =? d)%N) (vardiff c)))
        (in_client (set_job_templates
            (SharedMap.retain (λ k _, negb (k.1.1 =? d)%N)
               (downstream_channel_id_and_job_id_to_template_id c)))
           (put_downstreams m s)))).

(** ** The running manager

    [detached] are the removed connections whose task still runs; [cancelled]
    and [fell_back] the state of the tokens for shutdown and fallback. *)
Record JdcSystem : Type := {
  cm : ChannelManager;
  detached : list Downstream;
  cancelled : bool;
  fell_back : bool;
}.

(** [handle_error_action]. *)
Definition handle_error_action (e : JDCError) (s : JdcSystem) : LoopControl * JdcSystem :=
  if cancelled s || fell_back s then (Continue, s)
  else match action e with
       | ShareForward.Log => (Continue, s)
       | ShareForward.Disconnect d =>
           let '(old, m) := remove_downstream d (cm s) in
           (Continue, {| cm := m; detached := option_list old ++ detached s;
                         cancelled := cancelled s; fell_back := fell_back s |})
       | Fallback => (Break, {| cm := cm s; detached := detached s; cancelled := cancelled s;
                                fell_back := true |})
       | ShareForward.Shutdown => (Break, {| cm := cm s; detached := detached s;
                                             cancelled := true; fell_back := fell_back s |})
       end.

Definition with_cm (m : ChannelManager) (s : JdcSystem) : JdcSystem :=
  {| cm := m; detached := detached s; cancelled := cancelled s; fell_back := fell_back s |}.

(** A handler's turn in the loop of [start]. *)
Definition turn (r : result unit JDCError) (m : ChannelManager) (s : JdcSystem) : JdcSystem :=
  match r with Ok _ => with_cm m s | Err e => (handle_error_action e (with_cm m s)).2 end.

Definition downstream_prefixes (ds : Downstream) : list ExtranoncePrefix :=
  (std_prefix <$> values (standard_channels ds)) ++ (ext_prefix <$> values (extended_channels ds)).
End upstream.

(** ** Messages of the JD server *)
Section jd_server.
Context `{B : BitcoinApi} `{CS : ChannelsSv2} `{!JdcChannels}.
Context (txout_size : TxOut → N) (coinbase_sigop_cost : list TxOut → N)
  (deserialize_txouts : list byte → option (list TxOut)) (frame_fits : SetCustomMiningJob → bool).

Inductive JdsIncoming : Type :=
| JdsTokenGrant (m : TokenGrant)
| JdsDeclareSuccess (request_id : N) (new_mining_job_token : list byte)
| JdsDeclareError (error_code : string)
| JdsProvideMissingTransactions (request_id : N) (unknown_positions : list N).

(** [handle_jds_message]. *)
Definition handle_jds_message (m : JdsIncoming) : handler unit :=
  cio ← ask (λ s, io (channel_manager_io s));
  messages ← run_client (λ c, Done (match m with
    | JdsTokenGrant m =>
        handle_allocate_mining_job_token_success txout_size coinbase_sigop_cost
          deserialize_txouts cio m c
    | JdsDeclareSuccess request_id token =>
        handle_declare_mining_job_success frame_fits cio request_id token c
    | JdsDeclareError code => handle_declare_mining_job_error code c
    | JdsProvideMissingTransactions request_id positions =>
        handle_provide_missing_transactions cio request_id positions c
    end));
  forward_all frame_fits messages.
End jd_server.

(** ** The system

    A turn of the manager's loop is one step; the tasks of the connections and
    the accept loop run beside it ([jdc_env]).  [jdc_step s ev s'] carries what
    the manager handled. *)
Section system.
Context `{B : BitcoinApi} `{CS : ChannelsSv2} `{!JdcChannels}.
Context (mode : JDMode) (user_identity : option string)
  (reserved_downstream_rollable_extranonce_size : N) (frame_fits : SetCustomMiningJob → bool)
  (required_extensions supported_extensions : list N)
  (txout_size : TxOut → N) (coinbase_sigop_cost : list TxOut → N)
  (deserialize_txouts : list byte → option (list TxOut))
  (has_work_selection has_requires_std_job : N → bool).

Inductive jdc_env : JdcSystem → JdcSystem → Prop :=
| env_connect s d old m :
    accept_downstream (cm s) = Done (Ok (Some (d, old)), m) →
    jdc_env s {| cm := m; detached := option_list old ++ detached s; cancelled := cancelled s;
                 fell_back := fell_back s |}
| env_connect_failed s m :
    accept_downstream (cm s) = Done (Ok None, m) →
    jdc_env s {| cm := m; detached := detached s; cancelled := true; fell_back := fell_back s |}
| env_set_up s d ds msg replies std :
    downstreams (cm s) !! d = Some ds → set_up ds = false →
    jdc_setup_connection has_work_selection has_requires_std_job true msg (require_std_job ds) =
      ((replies, Ok tt), std) →
    jdc_env s (with_cm (put_downstreams (<[d := put_set_up std ds]> (downstreams (cm s)))
                          (cm s)) s)
| env_extensions s d ds l :
    downstreams (cm s) !! d = Some ds →
    jdc_env s (with_cm (put_downstreams (<[d := put_extensions l ds]> (downstreams (cm s)))
                          (cm s)) s)
| env_disconnect s d :
    jdc_env s {| cm := (remove_downstream d (cm s)).2;
                 detached := option_list (remove_downstream d (cm s)).1 ++ detached s;
                 cancelled := cancelled s; fell_back := fell_back s |}
| env_release s l1 ds l2 :
    detached s = l1 ++ ds :: l2 →
    jdc_env s {| cm := release_all (downstream_prefixes ds) (cm s); detached := l1 ++ l2;
                 cancelled := cancelled s; fell_back := fell_back s |}
| env_receivers s open gone :
    jdc_env s (with_cm (put_io
      {| io := open; downstream_sender := downstream_sender (channel_manager_io (cm s));
         closed := gone; sent := sent (channel_manager_io (cm s)) |} (cm s)) s)
| env_cancel s :
    jdc_env s {| cm := cm s; detached := detached s; cancelled := true;
                 fell_back := fell_back s |}
| env_fallback s :
    jdc_env s {| cm := cm s; detached := detached s; cancelled := cancelled s;
                 fell_back := true |}.

(** Messages of a connection reach the manager once it is set up. *)
Definition may_send (s : JdcSystem) (d : N) : Prop :=
  ∀ ds, downstreams (cm s) !! d = Some ds → set_up ds = true.

Definition running (s : JdcSystem) : Prop := cancelled s = false ∧ fell_back s = false.

(** What the manager's loop handles, with the iteration orders it meets. *)
Inductive JdcEvent : Type :=
| EvMiner (d : N) (m : MiningRequest)
| EvTemplate (m : TpIncoming)
| EvPool (m : PoolIncoming)
| EvJds (m : JdsIncoming)
| EvVardiff (keys : list (N * N)).

Record Orders : Type := {
  downstream_order : list N; channel_order : N → list N; job_order : list N;
}.

Definition handle_event (o : Orders) (ev : JdcEvent) : handler unit :=
  match ev with
  | EvMiner d m =>
      handle_downstream_message user_identity reserved_downstream_rollable_extranonce_size
        frame_fits (downstream_order o) (channel_order o) d m
  | EvTemplate m =>
      handle_template_provider_message mode user_identity frame_fits
        (downstream_order o) (channel_order o) (job_order o) m
  | EvPool m =>
      handle_pool_message mode user_identity reserved_downstream_rollable_extranonce_size
        frame_fits required_extensions supported_extensions
        (downstream_order o) (channel_order o) m
  | EvJds m =>
      handle_jds_message txout_size coinbase_sigop_cost deserialize_txouts frame_fits m
  | EvVardiff keys => vardiff_tick frame_fits (downstream_order o) (channel_order o) keys
  end.

(** The guards of the loop's branches; the iteration orders enumerate the
    maps. *)
Definition may_handle (s : JdcSystem) (ev : JdcEvent) : Prop :=
  match ev with
  | EvMiner d _ => may_send s d
  | EvPool (PoolSetCustomMiningJobSuccess order _ _ _) =>
      is_solo_mining mode = false ∧ ∀ heap, order heap ≡ₚ heap
  | EvPool _ | EvJds _ => is_solo_mining mode = false
  | EvTemplate _ | EvVardiff _ => True
  end.

Inductive jdc_step (s : JdcSystem) : option JdcEvent → JdcSystem → Prop :=
| step_env s' : jdc_env s s' → jdc_step s None s'
| step_event o ev r m :
    running s → may_handle s ev →
    handle_event o ev (cm s) = Done (r, m) → jdc_step s (Some ev) (turn r m s).

(** A manager when its loop starts; [st] is the state of the upstream channel
    the runtime chose. *)
Definition jdc_init (outputs : list byte) (allocator : ExtranonceAllocator) (st : UpstreamState)
    : JdcSystem :=
  {| cm := {| client := {| downstream := SharedMap.new; vardiff := SharedMap.new;
                sequence_number_factory := 1; last_new_prev_hash := None; allocate_tokens := [];
                last_declare_job_store := SharedMap.new;
                template_id_to_upstream_job_id := SharedMap.new;
                downstream_channel_id_and_job_id_to_template_id := SharedMap.new;
                coinbase_outputs := outputs; upstream_channel := None; job_factory := None;
                cached_shares := SharedMap.new |};
              extranonce_allocator := allocator; request_id_factory := 0;
              downstream_id_factory := 0; last_future_template := None;
              template_store := SharedMap.new; pending_downstream_requests := [];
              server_extensions := []; upstream_state := upstream_new st;
              channel_manager_io := {| io := {| upstream_open := true; jd_open := true;
                                                tp_open := true |};
                                       downstream_sender := ∅; closed := ∅; sent := [] |} |};
     detached := []; cancelled := false; fell_back := false |}.

(** Runs, with what was handled. *)
Inductive jdc_run (s : JdcSystem) : list JdcEvent → JdcSystem → Prop :=
| jdc_run_start : jdc_run s [] s
| jdc_run_step evs s1 ev s2 :
    jdc_run s evs s1 → jdc_step s1 ev s2 → jdc_run s (evs ++ option_list ev) s2.
End system.
