(* ===== verification/JdcFrame.v ===== *)
(** * JD client: what handlers leave alone

    Frame rules for the handlers of the manager.  [R] is a preorder on states
    and [ok] a predicate on messages; every lemma says that a handler lets the
    state evolve along [R], and that the messages it collects are [ok], given
    that [R] allows the updates the handler makes.  The lemmas take only the
    hypotheses they use, so that one pass over the handlers serves every
    relation: [JdcRefines] uses it for shares, [JdcPending] for the upstream
    channel and [JdcTokens] for tokens. *)
From S2P Require Import Prelude Handler SharedMap Bitcoin ShareCache ServerChannels ShareForward JdClient JdcManager JdcTemplates JdcSystem.

Lemma trivial_keeps {S A} (p : prog S JDCError A) : keeps (λ _ _, True) (λ _, True) p.
Proof. intros s. unfold wp. destruct (p s) as [[]|]; done. Qed.

Lemma keeps_same_focus {S V A} (get : S → gmap N V) put k (P : A → Prop) absent
    (p : prog V JDCError A) :
  keeps (λ _ _, True) P absent → keeps (λ _ _, True) P p →
  keeps (λ _ _, True) P (focus get put k absent p).
Proof. intros. by apply keeps_focus. Qed.

Section frame.
Context `{B : BitcoinApi} `{CS : ChannelsSv2} `{!JdcChannels}.
Context (R : ChannelManager → ChannelManager → Prop) `{!PreOrder R} (ok : RouteMessageTo → Prop).
Context (mode : JDMode) (user_identity : option string)
  (reserved : N) (frame_fits : SetCustomMiningJob → bool)
  (required_extensions supported_extensions : list N)
  (downstream_order : list N) (channel_order : N → list N) (job_order : list N).

(** The updates. *)
Hypothesis R_send : ∀ m s, ok m → R s (put_io (forward frame_fits m (channel_manager_io s)).2 s).
Hypothesis R_downstreams : ∀ s v, R s (put_downstreams v s).
Hypothesis R_vardiff : ∀ s v, R s (in_client (set_vardiff v) s).
Hypothesis R_job_templates : ∀ s v, R s (in_client (set_job_templates v) s).
Hypothesis R_allocator : ∀ s v, R s (put_allocator v s).
Hypothesis R_request_id : ∀ s v, R s (put_request_id v s).
Hypothesis R_downstream_id : ∀ s v, R s (put_downstream_id v s).
Hypothesis R_upstream : ∀ s v, R s (in_client (set_upstream v) s).
Hypothesis R_factory : ∀ s v, R s (in_client (set_factory v) s).
Hypothesis R_templates : ∀ s v, R s (put_templates v s).
Hypothesis R_future : ∀ s v, R s (put_future_template v s).
Hypothesis R_server_extensions : ∀ s v, R s (put_server_extensions v s).
Hypothesis R_prev_hash : ∀ s v, R s (in_client (set_prev_hash v) s).
Hypothesis R_clear_cache : ∀ s, R s (in_client (set_cache ∅) s).
Hypothesis R_pop : ∀ s t l, allocate_tokens (client s) = t :: l → R s (in_client (set_tokens l) s).
Hypothesis R_store_custom : ∀ s id t ph custom bytes,
  R s (in_client (set_declared (<[id := custom_declared t ph custom bytes]>
                                  (last_declare_job_store (client s)))) s).
Hypothesis R_mark : ∀ s ph,
  R s (in_client (set_declared (mark_declared ph <$> last_declare_job_store (client s))) s).
Hypothesis R_pending : ∀ s v, R s (put_pending v s).
Hypothesis R_state : ∀ s v, R s (put_upstream_state v s).
Hypothesis R_senders : ∀ s v,
  R s (put_io {| io := io (channel_manager_io s); downstream_sender := v;
                 closed := closed (channel_manager_io s);
                 sent := sent (channel_manager_io s) |} s).
Hypothesis R_new_sender : ∀ s d,
  R s (put_io {| io := io (channel_manager_io s);
                 downstream_sender := {[d]} ∪ downstream_sender (channel_manager_io s);
                 closed := closed (channel_manager_io s) ∖ {[d]};
                 sent := sent (channel_manager_io s) |} s).

(** The messages. *)
Hypothesis ok_miner : ∀ d m, ok (ToDownstream d m).
Hypothesis ok_template : ∀ m, ok (TemplateProvider m).
Hypothesis ok_allocate : ∀ i u, ok (JobDeclaratorTo (MsgAllocateMiningJobToken i u)).
Hypothesis ok_declare : ∀ m, ok (JobDeclaratorTo (MsgDeclareMiningJob m)).
Hypothesis ok_custom : ∀ m, ok (Upstream (MsgSetCustomMiningJob m)).
Hypothesis ok_update : ∀ m, ok (Upstream (MsgUpdateChannel m)).
Hypothesis ok_open : ∀ m, ok (Upstream (MsgOpenExtendedMiningChannel m)).
Hypothesis ok_close : ∀ c r, ok (Upstream (MsgCloseChannel c r)).
Hypothesis ok_extensions : ∀ i l, ok (Upstream (MsgRequestExtensions i l)).

Lemma frame_forward_all messages :
  Forall ok messages → keeps R (λ _, True) (forward_all frame_fits messages).
Proof using PreOrder0 R_send.
  intros Hm. apply keeps_for_each; [done|]. intros m Hin.
  apply evolves_keeps, evolves_update. intros s. apply R_send. by eapply Forall_forall.
Qed.

Lemma frame_forward_or_raise m f :
  ok m → keeps R (λ _, True) (forward_or_raise frame_fits m f).
Proof using PreOrder0 R_send.
  intros Hm. eapply keeps_bind; [done| |intros r _; apply evolves_keeps, evolves_ok_or_raise, _].
  apply evolves_keeps, evolves_transact. intros s.
  pose proof (R_send m s Hm) as Hs. by destruct (forward _ _ _).
Qed.

Lemma frame_focus d {A} (P : A → Prop) absent (p : guarded A) :
  keeps R P absent → keeps (λ _ _, True) P p →
  keeps R P (focus downstreams put_downstreams d absent p).
Proof using R_downstreams. intros Habs Hp. apply keeps_focus; [done|done|]. auto. Qed.

Lemma frame_registered_downstream d {A} (P : A → Prop) (p : guarded A) :
  keeps (λ _ _, True) P p → keeps R P (with_registered_downstream d p).
Proof using PreOrder0 R_downstreams.
  intros Hp. apply frame_focus; [by apply keeps_raise, _|done].
Qed.

(** The values a part of a handler returns: messages are [ok]. *)
Ltac value_of A :=
  lazymatch A with
  | list RouteMessageTo => constr:(Forall ok)
  | (list RouteMessageTo * bool)%type => constr:(λ r : list RouteMessageTo * bool, Forall ok r.1)
  | (Vardiff * list RouteMessageTo)%type =>
      constr:(λ r : Vardiff * list RouteMessageTo, Forall ok r.2)
  | _ => constr:(λ _ : A, True)
  end.

Ltac ok_messages :=
  simpl in *; repeat first
    [ assumption | exact I | apply Forall_app; split | apply Forall_nil; exact I
    | apply Forall_cons; split; [solve [auto]|]
    | progress case_match ].

(** One rule for [keeps]; lemmas about parts are found by [auto]. *)
Ltac order_goal := lazymatch goal with |- PreOrder _ => apply _ | _ => idtac end.
Ltac update_goal :=
  intros ?; unfold release_all, put_vardiff; cbv beta; repeat case_match; cbn [fst snd];
  try solve [auto | eauto | reflexivity].
Ltac keep_rule :=
  lazymatch goal with
  | |- keeps _ _ (forward_all _ _) => apply frame_forward_all; ok_messages
  | |- keeps _ _ (forward_or_raise _ _ _) => apply frame_forward_or_raise; solve [auto]
  | |- keeps _ _ (mret _) => eapply keeps_ret; order_goal; ok_messages
  | |- keeps _ _ (raise _) => eapply keeps_raise; order_goal
  | |- keeps _ _ crash => eapply keeps_crash
  | |- keeps _ _ (attempt _) =>
      apply evolves_keeps, evolves_attempt, (keeps_evolves _ (λ _, True))
  | |- keeps _ _ (update _) => apply evolves_keeps, evolves_update; update_goal
  | |- keeps _ _ (if ?b then _ else _) => destruct b
  | |- keeps _ _ (match ?x with _ => _ end) => destruct x
  | |- keeps _ _ (let '(_, _) := ?x in _) => destruct x
  | |- keeps _ _ (with_registered_downstream _ _) => eapply frame_registered_downstream
  | |- keeps _ _ (focus downstreams put_downstreams _ _ _) => eapply frame_focus
  | |- keeps (λ _ _, True) _ (focus _ _ _ _ _) => eapply keeps_same_focus
  | |- keeps _ (Forall _) (collect _ _) => eapply keeps_collect; order_goal; intros ? _
  | |- keeps _ _ (for_each _ _) => eapply keeps_for_each; order_goal; intros ? _
  | |- keeps _ _ (@mbind _ _ ?A _ _ _) =>
      let P := value_of A in eapply (keeps_bind _ P); order_goal; [|intros ? ?]
  | |- keeps (λ _ _, True) (λ _, True) _ => apply trivial_keeps
  | |- keeps _ (λ _, True) (transact _) => apply evolves_keeps, evolves_transact; update_goal
  | |- keeps _ _ (transact _) =>
      eapply keeps_transact; order_goal; intros ?; repeat case_match; cbn [fst snd];
      (split; [try solve [auto | eauto | reflexivity]|ok_messages])
  | |- keeps _ (λ _, True) _ => apply evolves_keeps; evolve_rule
  end.
Ltac keep := repeat first [solve [auto 2 using frame_forward_all] | keep_rule].

(** ** Parts of the handlers *)
Lemma frame_refill : keeps R (λ _, True) (refill_tokens user_identity frame_fits).
Proof.
  unfold refill_tokens, request_tokens, request_token, send_jd, next_request_id. keep.
Qed.

Lemma frame_close d c : keeps R (λ _, True) (handle_close_channel d c).
Proof. unfold handle_close_channel. keep. Qed.

Lemma frame_open_standard d msg : keeps R (Forall ok) (open_standard d msg).
Proof.
  unfold open_standard, finish_open_standard, configured_outputs, template_outputs, registered,
    drop_prefix, start_vardiff, record_template, add_to_group, open_error. keep.
Qed.

Lemma frame_open_extended d msg : keeps R (Forall ok) (open_extended d msg).
Proof.
  unfold open_extended, finish_open_extended, template_outputs, registered, drop_prefix,
    start_vardiff, record_template, add_to_group, open_error. keep.
Qed.

Lemma frame_update_upstream work t : keeps R (Forall ok) (update_upstream work t).
Proof. unfold update_upstream. keep. Qed.

Lemma frame_update_channel d msg :
  keeps R (λ _, True) (handle_update_channel frame_fits downstream_order channel_order d msg).
Proof.
  pose proof frame_update_upstream.
  unfold handle_update_channel, update_standard, update_extended, update_answer. keep.
Qed.

Lemma frame_open d p :
  keeps R (λ _, True)
    (handle_mining_message_from_client frame_fits downstream_order channel_order d
       (pending_message p)).
Proof.
  pose proof frame_open_standard. pose proof frame_open_extended.
  destruct p; simpl; unfold handle_open_standard_mining_channel,
    handle_open_extended_mining_channel; keep.
Qed.

Lemma frame_set_upstream_state st : keeps R (λ _, True) (set_upstream_state st).
Proof. unfold set_upstream_state. keep. Qed.

Lemma frame_channel_request p :
  keeps R (λ _, True) (handle_channel_request user_identity reserved frame_fits
                         downstream_order channel_order p).
Proof.
  pose proof frame_open.
  unfold handle_channel_request, get_upstream_state, open_upstream, send_upstream. keep.
Qed.

(** ** Templates *)
Lemma frame_set_custom_job token c f ph t outputs :
  keeps R (Forall ok) (set_custom_job token c f ph t outputs).
Proof. unfold set_custom_job, next_request_id, store_declared. keep. Qed.

(** The round of a template, with and without a custom job. *)
Lemma frame_template_round msg outputs token info ph d :
  keeps R (Forall ok)
    match token, info, ph with
    | Some token, Some (channel_id, full_size), Some ph =>
        set_custom_job token channel_id full_size ph msg outputs
    | _, _, _ => mret []
    end →
  keeps R (Forall ok) (template_round channel_order msg outputs token info ph d).
Proof.
  intros Hcustom.
  unfold template_round, template_standard, template_extended, registered, record_template,
    own_standard_job. set (custom := match token with Some _ => _ | None => _ end) in *.
  clearbody custom. keep.
Qed.

Lemma frame_no_custom_round msg outputs info ph d :
  keeps R (Forall ok) (template_round channel_order msg outputs None info ph d).
Proof. apply frame_template_round. by apply keeps_ret. Qed.

Lemma frame_any_round msg outputs token info ph d :
  keeps R (Forall ok) (template_round channel_order msg outputs token info ph d).
Proof. pose proof frame_set_custom_job. apply frame_template_round. keep. Qed.

Lemma frame_pop_token : keeps R (λ _, True) pop_token.
Proof. unfold pop_token. keep. Qed.

Lemma frame_new_template msg :
  keeps R (λ _, True)
    (handle_new_template mode user_identity frame_fits downstream_order channel_order msg).
Proof.
  pose proof frame_any_round. pose proof frame_refill. pose proof frame_pop_token.
  unfold handle_new_template, configured_outputs, template_outputs, get_upstream_state,
    request_transaction_data, send_tp, upstream_info. keep.
Qed.

(** [declare_template] is left to the relation. *)
Lemma frame_tx_data id txs :
  (∀ request_id token template ph outputs wtxids, keeps R (λ _, True)
     (declare_template request_id token template ph outputs wtxids txs)) →
  keeps R (λ _, True) (handle_request_tx_data_success mode user_identity frame_fits id txs).
Proof.
  intros Hdeclare. pose proof frame_refill. pose proof frame_pop_token.
  unfold handle_request_tx_data_success, configured_outputs, template_outputs,
    get_upstream_state, send_jd, next_request_id. keep.
Qed.

Lemma frame_tx_data_error code : keeps R (λ _, True) (handle_request_tx_data_error code).
Proof. unfold handle_request_tx_data_error. keep. Qed.

Lemma frame_prev_hash_round ph d : keeps R (Forall ok) (prev_hash_round channel_order ph d).
Proof.
  unfold prev_hash_round, record_group, prev_hash_standard, prev_hash_extended, registered,
    record_template. keep.
Qed.

Lemma frame_coinbase_only_job ph template outputs :
  keeps R (λ r, Forall ok r.1) (coinbase_only_job mode ph template outputs).
Proof.
  pose proof frame_set_custom_job. pose proof frame_pop_token.
  unfold coinbase_only_job, upstream_info. keep.
Qed.

(** The custom job is left to the relation. *)
Lemma frame_prev_hash ph :
  (∀ template outputs, keeps R (λ r, Forall ok r.1) (coinbase_only_job mode ph template outputs)) →
  keeps R (λ _, True)
    (handle_set_new_prev_hash mode user_identity frame_fits downstream_order channel_order
       job_order ph).
Proof.
  intros Hcustom. pose proof frame_prev_hash_round. pose proof frame_refill.
  unfold handle_set_new_prev_hash, configured_outputs, send_jd. keep.
Qed.

(** ** The pool *)
Lemma frame_first_custom_job up f outputs :
  keeps R (λ _, True) (first_custom_job mode up f outputs).
Proof.
  pose proof frame_pop_token. unfold first_custom_job, next_request_id, store_declared. keep.
Qed.

Lemma frame_serve_pending :
  keeps R (λ _, True) (serve_pending frame_fits downstream_order channel_order).
Proof. pose proof frame_open. unfold serve_pending. keep. Qed.

(** What follows once the channel is there. *)
Lemma frame_channel_opened up a f custom :
  keeps R (λ _, True) (channel_opened mode user_identity frame_fits downstream_order
                         channel_order up a f custom).
Proof.
  pose proof frame_serve_pending. pose proof frame_refill. pose proof frame_set_upstream_state.
  unfold channel_opened, resize_group, send_upstream, request_transaction_data, send_tp,
    get_upstream_state. keep.
Qed.

Lemma frame_open_success msg :
  keeps R (λ _, True)
    (handle_open_extended_mining_channel_success mode user_identity reserved frame_fits
       downstream_order channel_order msg).
Proof.
  pose proof frame_channel_opened. pose proof frame_first_custom_job.
  pose proof frame_set_upstream_state.
  unfold handle_open_extended_mining_channel_success, give_up_channel, send_upstream. keep.
Qed.

Lemma frame_renew_round d : keeps R (Forall ok) (renew_round channel_order d).
Proof. unfold renew_round, renew_standard, renew_extended, registered, drop_prefix. keep. Qed.

Lemma frame_set_extranonce_prefix p :
  keeps R (λ _, True) (handle_set_extranonce_prefix frame_fits downstream_order channel_order p).
Proof. pose proof frame_renew_round. unfold handle_set_extranonce_prefix. keep. Qed.

Lemma frame_vardiff_round key : keeps R (Forall ok) (vardiff_round key).
Proof.
  unfold vardiff_round, run_vardiff_on_standard_channel, run_vardiff_on_extended_channel. keep.
Qed.

Lemma frame_run_vardiff keys :
  keeps R (λ _, True) (run_vardiff frame_fits downstream_order channel_order keys).
Proof.
  pose proof frame_update_upstream. pose proof frame_vardiff_round. unfold run_vardiff. keep.
Qed.

Lemma frame_vardiff_tick keys :
  keeps R (λ _, True) (vardiff_tick frame_fits downstream_order channel_order keys).
Proof. pose proof frame_run_vardiff. unfold vardiff_tick. keep. Qed.

Lemma frame_extensions_success supported :
  keeps R (λ _, True) (handle_request_extensions_success required_extensions supported).
Proof. unfold handle_request_extensions_success. keep. Qed.
Lemma frame_extensions_error id unsupported required :
  keeps R (λ _, True)
    (handle_request_extensions_error frame_fits required_extensions supported_extensions
       id unsupported required).
Proof. unfold handle_request_extensions_error, send_upstream. keep. Qed.
Lemma frame_set_target t : keeps R (λ _, True) (handle_set_target t).
Proof. unfold handle_set_target. keep. Qed.
Lemma frame_with_upstream f : keeps R (λ _, True) (with_upstream f).
Proof. unfold with_upstream. keep. Qed.
Lemma frame_upstream_close : keeps R (λ _, True) handle_upstream_close_channel.
Proof. unfold handle_upstream_close_channel. keep. Qed.

(** ** Connections *)
Lemma frame_accept : keeps R (λ _, True) accept_downstream.
Proof. unfold accept_downstream, bootstrap_group_channel, template_outputs. keep. Qed.

Lemma frame_remove d s : R s (remove_downstream d s).2.
Proof.
  unfold remove_downstream. destruct (SharedMap.remove (downstreams s) d) as [o m]. cbn [snd].
  etrans; [apply (R_downstreams s m)|]. etrans; [apply R_job_templates|].
  etrans; [apply R_vardiff|].
  exact (R_senders (in_client (set_vardiff _) (in_client (set_job_templates _)
           (put_downstreams m s))) _).
Qed.
End frame.

(** Parts of handlers that only read. *)
Ltac reads :=
  unfold configured_outputs, template_outputs, get_upstream_state, upstream_info, registered;
  repeat evolve_rule.

(** ** The handlers of [ShareForward]

    They leave the tokens alone, forget at most a declared job, and send only
    shares, solutions and answers to miners. *)
Section shares.
Context `{B : BitcoinApi} `{CS : ChannelsSv2}.

Definition share_message (m : RouteMessageTo) : bool :=
  match m with
  | ToDownstream _ _ | Upstream (MsgSubmitSharesExtended _) | JobDeclaratorTo (MsgPushSolution _)
  | TemplateProvider _ => true
  | _ => false
  end.

Record share_frame (c : Client) (r : result (list RouteMessageTo) JDCError) (c' : Client) : Prop := {
  share_messages : Forall share_message (messages_of r);
  share_tokens : allocate_tokens c' = allocate_tokens c;
  share_declared : last_declare_job_store c' ⊆ last_declare_job_store c;
}.

Lemma share_frame_same c out : Forall share_message out → share_frame c (Ok out) c.
Proof. by split. Qed.

Lemma validate_upstream_messages code sol ph m up f r up' f' :
  validate_upstream code sol ph m up f = Done (r, up', f') →
  match r with Ok out => Forall share_message out | Err _ => True end.
Proof.
  unfold validate_upstream. intros E. repeat (case_match; simplify_eq/=); repeat constructor.
Qed.

Lemma submit_or_cache_frame code sol ph m hash t up c r c' :
  submit_or_cache code sol ph m hash t up c = Done (r, c') → share_frame c r c'.
Proof.
  unfold submit_or_cache. destruct (t ≫= _) as [j|]; [|destruct t; intros [= <- <-]; by split].
  destruct (validate_upstream _ _ _ _ _ _) as [[[r0 up'] f']|] eqn:E; [|done].
  apply validate_upstream_messages in E. simpl. intros [= <- <-]. destruct r0 as [out|[]]; by split.
Qed.

Lemma go_upstream_frame j up c r c' :
  (∀ h out, j = JudgedValid h out → Forall share_message out) →
  (∀ out, j = JudgedAnswered out → Forall share_message out) →
  (∀ hash r c', up hash = Done (r, c') → share_frame c r c') →
  go_upstream j up c = Done (r, c') → share_frame c r c'.
Proof.
  intros H1 H2 Hup. destruct j as [hash out|out|e]; simpl.
  - destruct (up hash) as [[r0 c0]|] eqn:E; [|done]. intros [= <- <-].
    apply Hup in E as []. split; [|done..]. destruct r0; [|constructor]. simpl.
    apply Forall_app. eauto.
  - intros [= <- <-]. apply share_frame_same; eauto.
  - intros [= <- <-]. by split.
Qed.

Lemma judge_share_messages code d ch seq v nt no verdict acc j :
  judge_share code d ch seq v nt no verdict acc = Done j →
  (∀ h out, j = JudgedValid h out → Forall share_message out) ∧
  (∀ out, j = JudgedAnswered out → Forall share_message out).
Proof.
  unfold judge_share. intros E. repeat (case_match; simplify_eq/=); split; intros; simplify_eq;
    repeat constructor.
Qed.

Lemma count_share_frame c d ch h r c' :
  share_frame c h.1 h.2 → count_share d ch h = (r, c') → share_frame c r c'.
Proof.
  destruct h as [r0 c0]. intros [] E. simpl in *. case_match; simplify_eq; split; auto.
  repeat constructor.
Qed.

Lemma share_frame_miners c ds vd r c' : share_frame (set_miners c ds vd) r c' → share_frame c r c'.
Proof. by intros []. Qed.

(** What both share handlers do after validation. *)
Lemma judged_frame code d ch seq v nt no verdict acc up c r c' :
  (∀ hash r c', up hash = Done (r, c') → share_frame c r c') →
  (judged ← judge_share code d ch seq v nt no verdict acc;
   h ← go_upstream judged up c; Done (count_share d ch h)) = Done (r, c') →
  share_frame c r c'.
Proof.
  intros Hup. destruct (judge_share _ _ _ _ _ _ _ _ _) as [j|] eqn:Ej; [|done]. simpl.
  destruct (go_upstream _ _ _) as [[r0 c0]|] eqn:Eg; [|done]. intros [= E].
  apply judge_share_messages in Ej as [H1 H2].
  eapply (count_share_frame c d ch (r0, c0)); [|exact E]. by eapply go_upstream_frame.
Qed.

Lemma standard_frame d msg c r c' :
  handle_submit_shares_standard d msg c = Done (r, c') → share_frame c r c'.
Proof.
  unfold handle_submit_shares_standard.
  repeat (case_match; simplify_eq/=);
    try (intros [= <- <-]; apply share_frame_same || split; by repeat constructor).
  intros E. eapply share_frame_miners, judged_frame; [|exact E]. clear E.
  intros hash r0 c0. unfold standard_upstream.
  case_match; [|intros [= <- <-]; by apply share_frame_same].
  destruct (slice_from _ _); [|done]. simpl.
  case_match; [apply submit_or_cache_frame|intros [= <- <-]; by split].
Qed.

Lemma extended_frame d msg c r c' :
  handle_submit_shares_extended d msg c = Done (r, c') → share_frame c r c'.
Proof.
  unfold handle_submit_shares_extended.
  repeat (case_match; simplify_eq/=);
    try (intros [= <- <-]; apply share_frame_same || split; by repeat constructor).
  intros E. eapply share_frame_miners, judged_frame; [|exact E]. clear E.
  intros hash r0 c0. unfold extended_upstream.
  case_match; [|intros [= <- <-]; by apply share_frame_same].
  destruct (slice_from _ _); [|done]. simpl.
  case_match; [apply submit_or_cache_frame|intros [= <- <-]; by split].
Qed.

Lemma forward_cached_messages job ph shares up f out0 up' f' out :
  Forall share_message out0 → forward_cached job ph shares (up, f, out0) = Done (up', f', out) →
  Forall share_message out.
Proof.
  revert up f out0. induction shares as [|s shares IH]; intros up f out0 Hout; simpl.
  { by intros [= <- <- <-]. }
  destruct (validate_upstream _ _ _ _ _ _) as [[[[o|[]] up1] f1]|] eqn:E; simpl; [|done..].
  apply validate_upstream_messages in E. apply IH, Forall_app. by split.
Qed.

Lemma acknowledged_frame order ch rid job c r c' :
  handle_set_custom_mining_job_success order ch rid job c = Done (r, c') → share_frame c r c'.
Proof.
  unfold handle_set_custom_mining_job_success.
  destruct (SharedMap.remove (last_declare_job_store c) rid) as [o store] eqn:Es.
  assert (store ⊆ last_declare_job_store c) as Hstore.
  { unfold SharedMap.remove in Es. simplify_eq. apply delete_subseteq. }
  destruct o as [[k j]|]; [|intros [= <- <-]; by split; repeat constructor].
  destruct (SharedMap.remove (cached_shares c) _) as [removed cache]. simpl.
  destruct (upstream_channel c) as [up|]; [|intros [= <- <-]; by split; repeat constructor].
  destruct (dj_set_custom_mining_job j); [|intros [= <- <-]; by split; repeat constructor].
  destruct (up_set_custom_mining_job_success _ _ _) as [e up'].
  destruct e as [[]|]; [intros [= <- <-]; by split; repeat constructor..|].
  destruct (last_new_prev_hash c) as [ph|]; [|intros [= <- <-]; by split; repeat constructor].
  destruct removed as [[k' heap]|]; [|intros [= <- <-]; by split; repeat constructor].
  destruct (forward_cached _ _ _ _) as [[[up'' f''] out]|] eqn:Ef; [|done]. simpl.
  apply forward_cached_messages in Ef; [|constructor]. intros [= <- <-]. by split.
Qed.

Lemma refused_frame rid code c r c' :
  handle_set_custom_mining_job_error rid code c = (r, c') → share_frame c r c'.
Proof.
  unfold handle_set_custom_mining_job_error, SharedMap.remove.
  destruct (decide _); [|intros [= <- <-]; by split; repeat constructor].
  destruct (last_declare_job_store c !! rid) as [j|] eqn:E; simpl;
    intros [= <- <-]; split; simpl; try done; try by constructor. apply delete_subseteq.
Qed.
End shares.
