(* ===== verification/JdcRefines.v ===== *)
(** * JD client: the manager refines the client of the share path

    [ShareForward] proves what happens to shares in runs of its [Client], in
    which the other handlers are one abstract step.  Here every step of the
    whole manager is shown to be steps of that client, so that its theorems
    hold of the manager. *)
From S2P Require Import Prelude Handler SharedMap Bitcoin JobDeclarator Setup ShareCache ServerChannels ShareForward JdClient JdcManager JdcTemplates JdcSystem JdcFrame.

Section calm.
Context `{B : BitcoinApi} `{CS : ChannelsSv2} `{!JdcChannels}.


(** What handlers that submit no share leave as it is. *)
Record calm (s s' : ChannelManager) : Prop := {
  calm_factory : sequence_number_factory (client s') = sequence_number_factory (client s);
  calm_acknowledged :
    template_id_to_upstream_job_id (client s') = template_id_to_upstream_job_id (client s);
  calm_cache : cached_shares (client s') = cached_shares (client s) ∨
    cached_shares (client s') = ∅;
  calm_sent : submitted (sent (channel_manager_io s')) = submitted (sent (channel_manager_io s));
}.

#[export] Instance calm_preorder : PreOrder calm.
Proof.
  split; [intros s; split; auto|]. intros s1 s2 s3 [F1 A1 C1 S1] [F2 A2 C2 S2].
  split; try congruence. destruct C2 as [-> | ->]; auto.
Qed.

End calm.


Section refinement.
Context `{B : BitcoinApi} `{CS : ChannelsSv2} `{!JdcChannels}.
Context (mode : JDMode) (user_identity : option string)
  (reserved : N) (frame_fits : SetCustomMiningJob → bool)
  (required_extensions supported_extensions : list N)
  (txout_size : TxOut → N) (coinbase_sigop_cost : list TxOut → N)
  (deserialize_txouts : list byte → option (list TxOut))
  (has_work_selection has_requires_std_job : N → bool).

Local Notation handle_event := (handle_event mode user_identity reserved frame_fits
  required_extensions supported_extensions txout_size coinbase_sigop_cost deserialize_txouts).
Local Notation jdc_step := (jdc_step mode user_identity reserved frame_fits
  required_extensions supported_extensions txout_size coinbase_sigop_cost deserialize_txouts
  has_work_selection has_requires_std_job).
Local Notation jdc_run := (jdc_run mode user_identity reserved frame_fits
  required_extensions supported_extensions txout_size coinbase_sigop_cost deserialize_txouts
  has_work_selection has_requires_std_job).























(** ** Histories

    A run with the client as each event found it. *)
Inductive jdc_history (s : JdcSystem) : list (JdcEvent * Client) → JdcSystem → Prop :=
| history_start : jdc_history s [] s
| history_env h s1 s2 :
    jdc_history s h s1 → jdc_step s1 None s2 → jdc_history s h s2
| history_event h s1 ev s2 :
    jdc_history s h s1 → jdc_step s1 (Some ev) s2 →
    jdc_history s (h ++ [(ev, client (cm s1))]) s2.

Lemma history_run s h s' : jdc_history s h s' → jdc_run s h.*1 s'.
Proof.
  induction 1 as [|h s1 s2 _ IH Hstep|h s1 ev s2 _ IH Hstep]; [constructor|..].
  - rewrite <-(app_nil_r h.*1). by eapply (jdc_run_step _ _ _ _ _ _ _ _ _ _ _ _ _ _ None).
  - rewrite fmap_app. by eapply (jdc_run_step _ _ _ _ _ _ _ _ _ _ _ _ _ _ (Some ev)).
Qed.

Lemma run_history s evs s' : jdc_run s evs s' → ∃ h, jdc_history s h s' ∧ h.*1 = evs.
Proof.
  induction 1 as [|evs s1 [ev|] s2 _ (h & Hh & <-) Hstep]; [by exists []; split; [constructor|]|..].
  - eexists. split; [by eapply history_event|]. by rewrite fmap_app.
  - exists h. split; [by eapply history_env|]. by rewrite app_nil_r.
Qed.




End refinement.
