(* ===== verification/JdcPending.v ===== *)
(** * JD client: the upstream channel and the requests that wait for it

    The first miner that asks for a channel makes the client ask its pool for
    one; requests that come before the answer wait.  This file follows the
    state of the upstream channel through all runs, and shows what becomes of
    the waiting requests. *)
From S2P Require Import Prelude Handler SharedMap Bitcoin JobDeclarator Setup ShareCache ServerChannels ShareForward JdClient JdcManager JdcTemplates JdcSystem JdcFrame JdcRefines.

Section pending.
Context `{B : BitcoinApi} `{CS : ChannelsSv2} `{!JdcChannels}.
Context (mode : JDMode) (user_identity : option string)
  (reserved : N) (frame_fits : SetCustomMiningJob → bool)
  (required_extensions supported_extensions : list N)
  (txout_size : TxOut → N) (coinbase_sigop_cost : list TxOut → N)
  (deserialize_txouts : list byte → option (list TxOut))
  (has_work_selection has_requires_std_job : N → bool).
Implicit Types (s : ChannelManager).

Local Notation handle_event := (handle_event mode user_identity reserved frame_fits
  required_extensions supported_extensions txout_size coinbase_sigop_cost deserialize_txouts).
Local Notation jdc_run := (jdc_run mode user_identity reserved frame_fits
  required_extensions supported_extensions txout_size coinbase_sigop_cost deserialize_txouts
  has_work_selection has_requires_std_job).
Local Notation jdc_step := (jdc_step mode user_identity reserved frame_fits
  required_extensions supported_extensions txout_size coinbase_sigop_cost deserialize_txouts
  has_work_selection has_requires_std_job).

(** ** Requests for an upstream channel *)
Definition is_open (m : RouteMessageTo) : bool :=
  match m with Upstream (MsgOpenExtendedMiningChannel _) => true | _ => false end.
Definition requests_sent s : nat := length (filter is_open (sent (channel_manager_io s))).
Definition is_grant (ev : JdcEvent) : bool :=
  match ev with EvPool (PoolOpenExtendedSuccess _) => true | _ => false end.
Definition grants (evs : list JdcEvent) : nat := length (filter is_grant evs).

(** What the handlers of other messages leave alone. *)
Record idle s s' : Prop := {
  idle_state : upstream_state s' = upstream_state s;
  idle_pending : pending_downstream_requests s' = pending_downstream_requests s;
  idle_requests : requests_sent s' = requests_sent s;
}.
#[local] Instance idle_preorder : PreOrder idle.
Proof. split; [by split|]. intros s1 s2 s3 [] []. split; congruence. Qed.

Lemma requests_forward m s :
  requests_sent (put_io (forward frame_fits m (channel_manager_io s)).2 s) =
    requests_sent s ∨
  is_open m = true ∧
  requests_sent (put_io (forward frame_fits m (channel_manager_io s)).2 s) = S (requests_sent s).
Proof.
  unfold requests_sent, forward. simpl.
  destruct m as [[]| | |]; repeat case_match; simpl; auto;
    rewrite filter_app, length_app; simpl; rewrite ?Nat.add_0_r, ?Nat.add_1_r; auto.
Qed.

Lemma idle_forward m s :
  is_open m = false → idle s (put_io (forward frame_fits m (channel_manager_io s)).2 s).
Proof.
  intros Hm. split; [done..|]. destruct (requests_forward m s) as [->|[Ho _]]; [done|congruence].
Qed.

(** ** The state of the upstream channel *)
Definition wants_channel (st : UpstreamState) : bool :=
  bool_decide (st = Pending) || bool_decide (st = Connected).

Record channel_ok (g : nat) (waits : Prop) s : Prop := {
  ok_state : ∃ st, upstream_state s = state_u8 st ∧
    (requests_sent s ≤ g + if wants_channel st then 1 else 0)%nat ∧
    (waits → pending_downstream_requests s ≠ [] → st = NoChannel ∨ st = Pending);
}.

Lemma channel_ok_idle g w s s' : idle s s' → channel_ok g w s → channel_ok g w s'.
Proof. intros [E1 E2 E3] [Hok]. split. by rewrite E1, E2, E3. Qed.

Lemma channel_ok_weaken g g' (w w' : Prop) s :
  (g ≤ g')%nat → (w' → w) → channel_ok g w s → channel_ok g' w' s.
Proof.
  intros Hg Hw [(st & E & Hn & Hp)]. split. exists st. split_and!; [done|lia|auto].
Qed.
(** The frame rules, for [idle]. *)
Ltac idle_frame lem :=
  eapply lem; first
    [ apply _ | exact idle_forward | apply idle_forward | intros; reflexivity
    | intros; split; auto; fail | idtac ].

Lemma idle_run_client (h : Client → rust Handled) :
  (∀ c r c', h c = Done (r, c') → share_frame c r c') →
  keeps idle (λ _, True) (run_client h ≫= forward_all frame_fits).
Proof.
  intros Hh. apply (keeps_bind _ (Forall (λ m, is_open m = false))).
  - intros s. apply wp_intro. intros r s'. unfold run_client.
    destruct (h (client s)) as [[r0 c']|] eqn:E; [|done]. intros [= <- <-].
    apply Hh in E as [Hm _ _]. split; [by split|]. intros out ->.
    eapply Forall_impl; [exact Hm|]. intros m Hm1. by destruct m as [[]| | |].
  - intros out Hout. by idle_frame frame_forward_all.
Qed.

Lemma idle_jds m :
  keeps idle (λ _, True)
    (handle_jds_message txout_size coinbase_sigop_cost deserialize_txouts frame_fits m).
Proof.
  unfold handle_jds_message.
  apply (keeps_bind _ (λ _, True)); [apply evolves_keeps, evolves_ask, _|intros cio _].
  apply (keeps_bind _ (Forall (λ m, is_open m = false))); [|intros out Hm; by idle_frame frame_forward_all].
  intros s. unfold wp, run_client.
  destruct m; simpl;
    unfold handle_allocate_mining_job_token_success, handle_declare_mining_job_success,
      handle_declare_mining_job_error, handle_provide_missing_transactions;
    repeat (case_match; simplify_eq/=); (split; [by split; auto|]);
    intros ? [=]; subst; by repeat constructor.
Qed.

Lemma declare_idle id token t ph outputs wtxids txs :
  keeps idle (λ _, True) (declare_template id token t ph outputs wtxids txs).
Proof.
  apply evolves_keeps. unfold declare_template, upstream_info, store_declared.
  repeat evolve_rule; apply evolves_update; intros s; by split.
Qed.

(** ** The events *)

Lemma channel_ok_keeps g w (p : handler unit) s :
  keeps idle (λ _, True) p → channel_ok g w s → wp p (λ _ s', channel_ok g w s') s.
Proof.
  intros Hp Hok. eapply wp_mono; [|apply Hp]. intros r s' [Hidle _].
  exact (channel_ok_idle _ _ _ _ Hidle Hok).
Qed.

Lemma forward_or_raise_once m f s :
  wp (forward_or_raise frame_fits m f)
    (λ _ s', upstream_state s' = upstream_state s ∧
       pending_downstream_requests s' = pending_downstream_requests s ∧
       (requests_sent s' ≤ S (requests_sent s))%nat) s.
Proof.
  unfold forward_or_raise. apply wp_bind, wp_transact. intros r s1 E.
  pose proof (requests_forward m s) as Hr.
  destruct (forward frame_fits m (channel_manager_io s)) as [r0 cio].
  injection E as <- <-.
  apply wp_ok_or_raise; intros ? _; (split; [done|split; [done|]]);
    destruct Hr as [Hr|[_ Hr]]; simpl in Hr; cbv beta; lia.
Qed.

Lemma open_upstream_once p s :
  wp (open_upstream user_identity reserved frame_fits p)
    (λ _ s', upstream_state s' = upstream_state s ∧
       pending_downstream_requests s' = pending_downstream_requests s ∧
       (requests_sent s' ≤ S (requests_sent s))%nat) s.
Proof.
  unfold open_upstream, send_upstream.
  apply wp_bind, wp_some_or_crash. intros identity _. simpl.
  apply wp_bind. eapply (wp_mono _ (λ r s', s' = s)).
  2:{ destruct (fits_str0255 identity); [by apply wp_ret|]. destruct p; [by apply wp_raise|done]. }
  intros [[]|e] s' ->; simpl; [apply forward_or_raise_once|by auto].
Qed.

Lemma channel_request_ok g w p down chan s :
  channel_ok g w s →
  wp (handle_channel_request user_identity reserved frame_fits down chan p)
    (λ _ s', channel_ok g w s') s.
Proof.
  intros Hok. pose proof Hok as [(st & Es & Hn & Hp)].
  unfold handle_channel_request, get_upstream_state.
  apply wp_bind, wp_bind, wp_ask. simpl. apply wp_run_rust. intros st'.
  rewrite Es. unfold upstream_get. rewrite decode_state_u8. intros [= <-]. simpl.
  assert (wp (handle_mining_message_from_client frame_fits down chan (pending_downstream_id p)
    (pending_message p)) (λ _ s', channel_ok g w s') s) as Hopen.
  { apply channel_ok_keeps; [|done]. idle_frame frame_open. }
  destruct st; try exact Hopen; clear Hopen.
  - apply wp_bind, wp_update. simpl. apply wp_bind, wp_transact. intros won s1. simpl.
    rewrite Es. unfold compare_and_set, state_u8. simpl. intros [= <- <-].
    apply wp_bind, wp_run_rust. intros r [= <-]. simpl.
    eapply wp_mono; [|apply open_upstream_once]. intros _ s' (E1 & E2 & E3).
    split. exists Pending. split_and!; [by rewrite E1| |auto].
    change (requests_sent s' ≤ S (requests_sent s))%nat in E3.
    change (requests_sent s' ≤ g + 1)%nat. change (requests_sent s ≤ g + 0)%nat in Hn. lia.
  - apply wp_update. split. exists Pending. split_and!; auto.
Qed.

Lemma serve_pending_ok g s down chan :
  upstream_state s = state_u8 Connected → (requests_sent s ≤ g + 1)%nat →
  wp (serve_pending frame_fits down chan) (λ _ s', channel_ok g True s') s.
Proof.
  intros Es Hn. unfold serve_pending. apply wp_bind, wp_transact. intros ps s1 [= <- <-]. simpl.
  apply channel_ok_keeps; [|split; exists Connected; split_and!; [done|done|by intros _ []]].
  apply keeps_for_each; [apply _|]. intros p _. idle_frame frame_open.
Qed.
(** Parts that leave the channel alone and whose errors end the loop. *)
Definition fatal (e : JDCError) : Prop := action e = ShareForward.Fallback ∨ action e = ShareForward.Shutdown.
Definition fatal_result {A} (r : result A JDCError) : Prop :=
  match r with Err e => fatal e | Ok _ => False end.

Definition stern {A} (p : handler A) : Prop :=
  ∀ s, wp p (λ r s', idle s s' ∧ match r with Err e => fatal e | Ok _ => True end) s.

Lemma stern_bind {A B'} (p : handler A) (k : A → handler B') :
  stern p → (∀ a, stern (k a)) → stern (p ≫= k).
Proof.
  intros Hp Hk s. apply wp_bind. eapply wp_mono; [|apply Hp].
  intros [a|e] s1 [H1 He]; simpl; [|by split]. eapply wp_mono; [|apply Hk].
  intros r s2 [H2 Hr]. split; [by etrans|done].
Qed.
Lemma stern_ret {A} (a : A) : stern (mret a).
Proof. intros s. apply wp_ret. by split. Qed.
Lemma stern_ask {A} (f : ChannelManager → A) : stern (ask f).
Proof. intros s. apply wp_ask. by split. Qed.
Lemma stern_for_each {A} (l : list A) f : (∀ x, stern (f x)) → stern (for_each l f).
Proof.
  intros Hf. induction l as [|x l IH]; [apply stern_ret|]. apply stern_bind; [done|by intros []].
Qed.
Lemma stern_quiet {A} (p : handler A) :
  keeps idle (λ _, True) p → (∀ s e s', p s ≠ Done (Err e, s')) → stern p.
Proof.
  intros Hp Hok s. apply wp_intro. intros r s' E. split.
  - by eapply (wp_sound _ _ s _ _ (Hp s)) in E as [].
  - destruct r; [done|]. by apply Hok in E.
Qed.
Lemma stern_send m f : is_open m = false → (∀ k, fatal (f k)) → stern (forward_or_raise frame_fits m f).
Proof.
  intros Hm Hf s. unfold forward_or_raise. apply wp_bind, wp_transact. intros r s1 E.
  pose proof (idle_forward m s Hm) as Hidle.
  destruct (forward frame_fits m (channel_manager_io s)) as [r0 cio]. injection E as <- <-.
  apply wp_ok_or_raise; intros; by split.
Qed.
Lemma stern_send_upstream m : is_open (Upstream m) = false → stern (send_upstream frame_fits m).
Proof. intros Hm. apply stern_send; [done|]. intros []; first [by left | by right]. Qed.
Lemma stern_resize d size :
  stern (focus downstreams put_downstreams d (mret tt) (resize_group size)).
Proof.
  intros s. apply wp_focus; [by intros _; apply wp_ret|]. intros ds _.
  unfold resize_group. apply wp_bind, wp_transact. intros r ds' _.
  apply wp_ok_or_raise; intros; (split; [by split|]); [done|by right].
Qed.

Lemma refill_never_fails s e s' : refill_tokens user_identity frame_fits s ≠ Done (Err e, s').
Proof.
  unfold refill_tokens. generalize (request_tokens user_identity frame_fits 1). intros p.
  unfold mbind, prog_bind, attempt. by destruct (p s) as [[]|].
Qed.

(** What a wp of an opened channel needs. *)
Definition opened (g : nat) s : Prop :=
  upstream_state s = state_u8 Connected ∧ (requests_sent s ≤ g + 1)%nat.

Definition granted (g : nat) (w : Prop) (r : result unit JDCError) s : Prop :=
  channel_ok g (w ∧ ¬ fatal_result r) s.

Lemma stern_then {A} g w (p : handler A) (k : A → handler unit) s :
  stern p → opened g s → (∀ a s', opened g s' → wp (k a) (granted g w) s') →
  wp (p ≫= k) (granted g w) s.
Proof.
  intros Hp [Es Hn] Hk. apply wp_bind. eapply wp_mono; [|apply Hp].
  intros r s' [[E1 E2 E3] He].
  assert (opened g s') as Ho by (split; congruence || lia).
  destruct r as [a|e]; simpl; [by apply Hk|]. destruct Ho as [Es' Hn'].
  split. exists Connected. split_and!; [done|done|]. intros [_ Hf]. by destruct Hf.
Qed.

Lemma channel_opened_ok g w up a f custom down chan s :
  channel_ok g w s →
  wp (channel_opened mode user_identity frame_fits down chan up a f custom) (granted (S g) w) s.
Proof.
  intros [(st & Es & Hn & Hp)].
  assert (requests_sent s ≤ g + 1)%nat as Hn1 by (case_match; lia).
  unfold channel_opened. do 3 (apply wp_bind, wp_update; simpl).
  apply wp_bind, wp_update. simpl.
  set (s1 := put_upstream_state _ _). assert (opened (S g) s1) as Ho.
  { split; [done|]. change (requests_sent s ≤ S g + 1)%nat. lia. }
  clearbody s1. clear Es Hn Hp Hn1 s st.
  apply stern_then; [apply stern_ask|done|]. intros t s2 Ho2. clear Ho.
  apply stern_then; [apply stern_for_each; intros d; apply stern_resize|done|].
  intros [] s3 [Es Hn].
  unfold get_upstream_state. apply wp_bind, wp_bind, wp_ask. simpl. apply wp_run_rust. intros st.
  rewrite Es. intros [= <-]. simpl.
  apply stern_then; [|done|].
  { destruct (is_full_template mode); [|apply stern_ret]. destruct t; [|apply stern_ret].
    apply stern_send; [done|]. by right. }
  intros [] s4 Ho4. apply stern_then; [|done|].
  { destruct (is_coinbase_only mode); [|apply stern_ret]. destruct custom; [|apply stern_ret].
    apply stern_bind; [by apply stern_send_upstream|intros []].
    apply stern_quiet; [idle_frame frame_refill|]. apply refill_never_fails. }
  intros [] s5 [Es5 Hn5]. eapply wp_mono; [|by apply serve_pending_ok].
  intros r s6 Hok. eapply channel_ok_weaken; [done| |exact Hok]. done.
Qed.

(** Idle parts of the grant's handler, and its last part. *)
Lemma granted_error g w e s : channel_ok g w s → granted (S g) w (Err e) s.
Proof. intros Hok. eapply channel_ok_weaken; [| |exact Hok]; [lia|by intros []]. Qed.

Lemma idle_then {A} (P : A → Prop) g w (p : handler A) (k : A → handler unit) s :
  keeps idle P p → channel_ok g w s →
  (∀ a s', P a → channel_ok g w s' → wp (k a) (granted (S g) w) s') →
  wp (p ≫= k) (granted (S g) w) s.
Proof.
  intros Hp Hok Hk. apply wp_bind. eapply wp_mono; [|apply Hp].
  intros r s' [Hidle HP]. pose proof (channel_ok_idle _ _ _ _ Hidle Hok) as Hok'.
  destruct r as [a|e]; simpl; [by apply Hk; auto|by apply granted_error].
Qed.

Lemma give_up_ok g w c s :
  channel_ok g w s → wp (give_up_channel frame_fits c) (granted (S g) w) s.
Proof.
  intros [(st & Es & Hn & Hp)]. unfold give_up_channel. apply wp_bind, wp_update. simpl.
  eapply wp_mono; [|apply stern_send_upstream; done]. intros r s' [[E1 E2 E3] _].
  split. exists NoChannel. split_and!; [by rewrite E1| |by auto].
  change (requests_sent s' = requests_sent s) in E3. rewrite E3. destruct (wants_channel st); simpl; lia.
Qed.

Lemma grant_ok g w msg down chan s :
  channel_ok g w s →
  wp (handle_open_extended_mining_channel_success mode user_identity reserved frame_fits down chan msg)
    (granted (S g) w) s.
Proof.
  intros Hok. unfold handle_open_extended_mining_channel_success.
  assert (∀ A (p : handler A), evolves idle p → keeps idle (λ _, True) p) as Hk
    by (intros; by apply evolves_keeps).
  eapply idle_then; [apply Hk, evolves_ask, _|exact Hok|]. clear Hok s. intros bytes s _ Hok.
  eapply idle_then; [apply Hk, evolves_some_or, _|exact Hok|]. clear Hok s. intros outputs s _ Hok.
  eapply idle_then; [apply Hk, evolves_ensure, _|exact Hok|]. clear Hok s. intros [] s _ Hok.
  eapply idle_then; [apply Hk, evolves_ask, _|exact Hok|]. clear Hok s. intros [first|] s _ Hok.
  2: by apply give_up_ok.
  destruct (from_upstream_prefix _ _ _ _) as [allocator|e]; [|by apply give_up_ok].
  eapply idle_then; [apply Hk, evolves_some_or_crash, _|exact Hok|]. clear Hok s. intros p s _ Hok.
  eapply idle_then; [apply Hk, evolves_some_or_crash, _|exact Hok|]. clear Hok s. intros i s _ Hok.
  eapply idle_then; [apply Hk, evolves_some_or, _|exact Hok|]. clear Hok s. intros up s _ Hok.
  eapply idle_then; [apply Hk, evolves_ask, _|exact Hok|]. clear Hok s. intros ph s _ Hok.
  eapply idle_then; [idle_frame frame_first_custom_job|exact Hok|]. clear Hok s.
  intros [custom factory] s _ Hok. by apply channel_opened_ok.
Qed.

Definition event_grants (ev : JdcEvent) : nat := if is_grant ev then 1 else 0.

Lemma event_ok g w o ev s :
  channel_ok g w s → wp (handle_event o ev) (granted (event_grants ev + g) w) s.
Proof.
  intros Hok.
  assert (∀ (p : handler unit), keeps idle (λ _, True) p → wp p (granted g w) s) as Hkeep.
  { intros p Hp. eapply wp_mono; [|by apply channel_ok_keeps]. intros r s' Hok'.
    eapply channel_ok_weaken; [done| |exact Hok']. by intros []. }
  destruct ev as [d m|m|m|m|keys]; simpl.
  - destruct m; simpl;
      try (eapply wp_mono; [|by apply channel_request_ok]; intros r s' Hok';
           eapply channel_ok_weaken; [done| |exact Hok']; by intros []);
      apply Hkeep.
    + idle_frame frame_close.
    + apply idle_run_client. intros. by eapply standard_frame.
    + apply idle_run_client. intros. by eapply extended_frame.
    + idle_frame frame_update_channel.
  - apply Hkeep. destruct m; simpl.
    + idle_frame frame_new_template.
    + idle_frame frame_prev_hash. intros. idle_frame frame_coinbase_only_job.
    + idle_frame frame_tx_data. intros. apply declare_idle.
    + apply frame_tx_data_error, _.
  - destruct m; simpl; try apply Hkeep.
    + apply keeps_raise, _.
    + by apply grant_ok.
    + apply keeps_raise, _.
    + apply keeps_ret; [apply _|done].
    + idle_frame frame_upstream_close.
    + idle_frame frame_set_extranonce_prefix.
    + idle_frame frame_with_upstream.
    + idle_frame frame_with_upstream.
    + apply keeps_ret; [apply _|done].
    + apply idle_run_client. intros. by eapply acknowledged_frame.
    + apply idle_run_client. intros c r c' [= E]. by eapply refused_frame.
    + idle_frame frame_set_target.
    + idle_frame frame_extensions_success.
    + idle_frame frame_extensions_error.
    + apply keeps_raise, _.
  - apply Hkeep, idle_jds.
  - apply Hkeep. idle_frame frame_vardiff_tick.
Qed.

(** ** Steps and runs *)
Lemma jdc_turn_ok g r m (s : JdcSystem) :
  running s → granted g (running s) r m → channel_ok g (running (turn r m s)) (cm (turn r m s)).
Proof.
  intros [Hc Hf] Hg.
  assert (∀ w : Prop, (w → ¬ fatal_result r) → channel_ok g w m) as Hok.
  { intros w Hw. eapply channel_ok_weaken; [done| |exact Hg]. intros Hw'. split; [done|auto]. }
  destruct r as [[]|e]; [by apply Hok; intros _ []|].
  unfold turn, handle_error_action, with_cm. cbn [cm cancelled fell_back].
  rewrite Hc, Hf. cbn [orb]. unfold fatal_result, fatal in Hok.
  destruct (action e) as [|d| |]; cbn [snd cm].
  - apply Hok. by intros _ [[=]|[=]].
  - eapply channel_ok_idle; [|apply Hok; by intros _ [[=]|[=]]].
    assert (idle m (remove_downstream d m).2) as Hidle by idle_frame frame_remove.
    by destruct (remove_downstream d m).
  - apply Hok. intros [_ [=]].
  - apply Hok. intros [[=] _].
Qed.

Lemma env_idle (s s' : JdcSystem) :
  jdc_env has_work_selection has_requires_std_job s s' → idle (cm s) (cm s').
Proof.
  intros Henv.
  destruct Henv as [? ? ? ? E|? ? E| | | | | | |]; simpl; try by split.
  - eapply (wp_sound _ (λ _ m, idle _ m)); [|exact E]. eapply keeps_evolves. idle_frame frame_accept.
  - eapply (wp_sound _ (λ _ m, idle _ m)); [|exact E]. eapply keeps_evolves. idle_frame frame_accept.
Qed.

Lemma env_running (s s' : JdcSystem) :
  jdc_env has_work_selection has_requires_std_job s s' → running s' → running s.
Proof. intros Henv [Hc Hf]. destruct Henv; by split. Qed.

Lemma step_ok g (s : JdcSystem) ev (s' : JdcSystem) :
  jdc_step s ev s' → channel_ok g (running s) (cm s) →
  channel_ok (grants (option_list ev) + g) (running s') (cm s').
Proof.
  intros [s1 Henv|o ev' r m Hrun _ E] Hok.
  - eapply channel_ok_idle; [by apply env_idle|]. eapply channel_ok_weaken; [|exact (env_running _ _ Henv)|exact Hok].
    unfold grants. simpl. lia.
  - assert (grants (option_list (Some ev')) = event_grants ev') as ->.
    { unfold grants, event_grants. simpl. rewrite filter_cons, filter_nil. by destruct (is_grant ev'). }
    apply jdc_turn_ok; [done|]. eapply (wp_sound _ (granted _ _)); [|exact E]. by apply event_ok.
Qed.

Lemma run_ok g (s : JdcSystem) evs (s' : JdcSystem) :
  jdc_run s evs s' → channel_ok g (running s) (cm s) →
  channel_ok (grants evs + g) (running s') (cm s').
Proof.
  intros Hrun Hok. induction Hrun as [|evs s1 ev s2 _ IH Hstep]; [done|].
  eapply channel_ok_weaken; [|exact id|by eapply step_ok].
  unfold grants. rewrite filter_app, length_app. lia.
Qed.

(** C10: In every run of a JD client's manager, the client has asked its pool
    for channels at most once more than the pool has granted one, and only
    while it waits for the answer or has the channel; and miners' requests are
    kept waiting only while there is no channel: as long as the manager runs,
    none is left once the state says connected. *)
Theorem one_upstream_request outputs allocator st evs (s : JdcSystem) :
  st = NoChannel ∨ st = SoloMiningState →
  jdc_run (jdc_init outputs allocator st) evs s →
  ∃ st', upstream_get (upstream_state (cm s)) = Done st' ∧
    (requests_sent (cm s) ≤ grants evs +
       if bool_decide (st' = Pending ∨ st' = Connected) then 1 else 0)%nat ∧
    (running s → pending_downstream_requests (cm s) ≠ [] → st' = NoChannel ∨ st' = Pending).
Proof.
  intros Hst Hrun. eapply (run_ok 0) in Hrun as [(st' & Es & Hn & Hp)].
  - exists st'. split; [rewrite Es; apply decode_state_u8|]. split; [|done].
    replace (bool_decide _) with (wants_channel st') by (by destruct st').
    by rewrite Nat.add_0_r in Hn.
  - split. exists st. split_and!; [done| |by intros _ []].
    simpl. unfold requests_sent. simpl. lia.
Qed.

(** ** What becomes of the waiting requests *)

(** The manager's messages reach the miner. *)
Definition heard s (d : N) : Prop :=
  d ∈ downstream_sender (channel_manager_io s) ∧ d ∉ closed (channel_manager_io s).

Record steady s s' : Prop := {
  steady_pending : pending_downstream_requests s' = pending_downstream_requests s;
  steady_senders : downstream_sender (channel_manager_io s') = downstream_sender (channel_manager_io s);
  steady_closed : closed (channel_manager_io s') = closed (channel_manager_io s);
  steady_sent : ∃ new, sent (channel_manager_io s') = sent (channel_manager_io s) ++ new;
}.
#[local] Instance steady_preorder : PreOrder steady.
Proof.
  split; [intros s; split; [done..|by exists []; rewrite app_nil_r]|].
  intros s1 s2 s3 [P1 D1 C1 [n1 E1]] [P2 D2 C2 [n2 E2]]. split; [congruence..|].
  exists (n1 ++ n2). by rewrite E2, E1, (assoc_L (++)).
Qed.

Lemma steady_forward m s :
  True → steady s (put_io (forward frame_fits m (channel_manager_io s)).2 s).
Proof.
  intros _. unfold forward.
  destruct m as [[]| | |]; repeat case_match; simpl; (split; [done..|]); simpl;
    first [by eexists | by exists []; rewrite app_nil_r].
Qed.

Ltac steady_frame lem :=
  eapply lem; first
    [ apply _ | exact steady_forward | apply steady_forward | intros; exact I
    | intros; split; [done..|exists []; by rewrite app_nil_r]; fail | idtac ].

(** The answer to a request for a channel. *)
Definition answers (request_id : N) (m : MinerMessage) : Prop :=
  match m with
  | OpenStandardMiningChannelSuccess r _ _ _ _ | OpenExtendedMiningChannelSuccess r _ _ _ _ _
  | OpenMiningChannelError r _ => r = request_id
  | _ => False
  end.
Definition pending_request_id (p : PendingChannelRequest) : N :=
  match p with
  | ExtendedChannelRequest _ m => oec_request_id m
  | StandardChannelRequest _ m => osc_request_id m
  end.
Definition has_answer (d request_id : N) (out : list RouteMessageTo) : Prop :=
  ∃ m, ToDownstream d m ∈ out ∧ answers request_id m.

(** The request was answered between the two states. *)
Definition answered s s' (p : PendingChannelRequest) : Prop :=
  ∃ new, sent (channel_manager_io s') = sent (channel_manager_io s) ++ new ∧
    has_answer (pending_downstream_id p) (pending_request_id p) new.

Lemma answered_later s s1 s2 p : answered s s1 p → steady s1 s2 → answered s s2 p.
Proof.
  intros (new & E & m & Hm & Ha) [_ _ _ [new' E']]. exists (new ++ new').
  rewrite E', E, (assoc_L (++)). split; [done|]. exists m. by rewrite elem_of_app; auto.
Qed.
Lemma answered_earlier s s1 s2 p : steady s s1 → answered s1 s2 p → answered s s2 p.
Proof.
  intros [_ _ _ [new E]] (new' & E' & m & Hm & Ha). exists (new ++ new').
  rewrite E', E, (assoc_L (++)). split; [done|]. exists m. by rewrite elem_of_app; auto.
Qed.

Ltac answer_rule :=
  lazymatch goal with
  | |- keeps _ _ (mret _) => apply keeps_ret; [apply _|by eexists; split; [by left|]]
  | |- keeps _ _ (raise _) => apply keeps_raise, _
  | |- keeps _ _ crash => apply keeps_crash
  | |- keeps _ _ (_ ≫= _) => apply (keeps_bind _ (λ _, True)); [apply trivial_keeps|intros ? _]
  | |- keeps _ _ (if ?b then _ else _) => destruct b
  | |- keeps _ _ (match ?x with _ => _ end) => destruct x
  | |- keeps _ _ (let '(_, _) := ?x in _) => destruct x
  end.

Lemma open_standard_answers d msg :
  keeps (λ _ _, True) (has_answer d (osc_request_id msg)) (open_standard d msg).
Proof.
  unfold open_standard, finish_open_standard, open_error. repeat answer_rule.
Qed.
Lemma open_extended_answers d msg :
  keeps (λ _ _, True) (has_answer d (oec_request_id msg)) (open_extended d msg).
Proof.
  unfold open_extended, finish_open_extended, open_error. repeat answer_rule.
Qed.

(** Messages to a miner that hears arrive. *)
Lemma forward_all_delivers messages d m s r s' :
  heard s d → ToDownstream d m ∈ messages → forward_all frame_fits messages s = Done (r, s') →
  ∃ new, sent (channel_manager_io s') = sent (channel_manager_io s) ++ new ∧ ToDownstream d m ∈ new.
Proof.
  revert s. induction messages as [|m0 messages IH]; intros s Hd Hin E; [by apply not_elem_of_nil in Hin|].
  change (forward_all frame_fits messages
    (put_io (forward frame_fits m0 (channel_manager_io s)).2 s) = Done (r, s')) in E.
  pose proof (steady_forward m0 s I) as Hs. set (s1 := put_io _ s) in *.
  apply elem_of_cons in Hin as [<-|Hin].
  - assert (sent (channel_manager_io s1) = sent (channel_manager_io s) ++ [ToDownstream d m]) as E1.
    { destruct Hd as [H1 H2]. unfold s1, forward. rewrite decide_True, bool_decide_eq_false_2 by done.
      done. }
    assert (steady s1 s') as [_ _ _ [new En]].
    { eapply (wp_sound _ (λ _ s', steady s1 s')); [|exact E]. eapply keeps_evolves.
      steady_frame frame_forward_all. by apply Forall_forall. }
    exists ([ToDownstream d m] ++ new). rewrite En, E1, (assoc_L (++)). split; [done|by left].
  - assert (heard s1 d) as Hd1.
    { destruct Hs as [_ E1 E2 _]. unfold heard. by rewrite E1, E2. }
    destruct Hs as [_ _ _ [n1 E1]].
    destruct (IH s1 Hd1 Hin E) as (new & E2 & Hnew). exists (n1 ++ new).
    rewrite E2, E1, (assoc_L (++)). split; [done|]. apply elem_of_app. by right.
Qed.

(** Answers that are made are delivered. *)
Lemma open_delivers (open : handler (list RouteMessageTo)) p s s' :
  keeps steady (Forall (λ _, True)) open →
  keeps (λ _ _, True) (has_answer (pending_downstream_id p) (pending_request_id p)) open →
  heard s (pending_downstream_id p) → (open ≫= forward_all frame_fits) s = Done (Ok tt, s') →
  answered s s' p.
Proof.
  intros Hs Ha Hd (out & s1 & E1 & E2)%bind_inv.
  pose proof (wp_sound _ _ _ _ _ (Hs s) E1) as [Hs1 _].
  pose proof (wp_sound _ _ _ _ _ (Ha s) E1) as [_ Hout].
  destruct (Hout out eq_refl) as (m & Hm & Hr).
  eapply answered_earlier; [exact Hs1|].
  eapply forward_all_delivers in E2 as (new & En & Hnew); [|destruct Hs1 as [_ H1 H2 _]|exact Hm].
  - exists new. split; [done|]. by exists m.
  - unfold heard. by rewrite H1, H2.
Qed.

(** A handled request is answered, if its handler does not fail. *)
Lemma open_steady p down chan :
  keeps steady (λ _, True)
    (handle_mining_message_from_client frame_fits down chan (pending_downstream_id p)
      (pending_message p)).
Proof. steady_frame frame_open. Qed.

Lemma open_answered p down chan s s' :
  heard s (pending_downstream_id p) →
  handle_mining_message_from_client frame_fits down chan (pending_downstream_id p)
    (pending_message p) s = Done (Ok tt, s') →
  answered s s' p.
Proof.
  intros Hd. destruct p as [d msg|d msg].
  - apply (open_delivers _ (ExtendedChannelRequest d msg)); [|apply open_extended_answers|done].
    steady_frame frame_open_extended.
  - apply (open_delivers _ (StandardChannelRequest d msg)); [|apply open_standard_answers|done].
    steady_frame frame_open_standard.
Qed.

Lemma opens_answered ps down chan s s' :
  for_each ps (λ p, handle_mining_message_from_client frame_fits down chan
    (pending_downstream_id p) (pending_message p)) s = Done (Ok tt, s') →
  Forall (λ p, heard s (pending_downstream_id p) → answered s s' p) ps.
Proof.
  revert s. induction ps as [|p ps IH]; intros s; simpl; [by constructor|].
  intros ([] & s1 & E1 & E2)%bind_inv.
  pose proof (wp_sound _ _ _ _ _ (open_steady p down chan s) E1) as [Hs1 _].
  assert (steady s1 s') as Hs2.
  { eapply (wp_sound _ (λ _ s', steady s1 s')); [|exact E2]. eapply keeps_evolves.
    apply (keeps_for_each steady). intros q _. apply open_steady. }
  constructor.
  - intros Hd. eapply answered_later; [by eapply open_answered|exact Hs2].
  - eapply Forall_impl; [by apply IH|]. intros q Hq Hd. eapply answered_earlier; [exact Hs1|].
    apply Hq. destruct Hs1 as [_ H1 H2 _]. unfold heard. by rewrite H1, H2.
Qed.

(** The grant's handler up to the waiting requests. *)
Definition served s s' : Prop :=
  upstream_state s' = state_u8 Connected →
  pending_downstream_requests s' = [] ∧
  Forall (λ p, heard s (pending_downstream_id p) → answered s s' p) (pending_downstream_requests s).
Definition on_ok (Q : ChannelManager → Prop) (r : result unit JDCError) s : Prop :=
  match r with Ok _ => Q s | Err _ => True end.

Lemma steady_then {A} (P : A → Prop) (p : handler A) (k : A → handler unit) s0 s :
  keeps steady P p → steady s0 s →
  (∀ a s1, P a → steady s0 s1 → wp (k a) (on_ok (served s0)) s1) →
  wp (p ≫= k) (on_ok (served s0)) s.
Proof.
  intros Hp H0 Hk. apply wp_bind. eapply wp_mono; [|apply Hp]. intros [a|e] s1 [H1 HP]; [|done].
  apply Hk; [by apply HP|by etrans].
Qed.

Lemma serve_pending_served down chan s0 s :
  steady s0 s → wp (serve_pending frame_fits down chan) (on_ok (served s0)) s.
Proof.
  intros H0. unfold serve_pending. apply wp_bind, wp_transact. intros ps s1 [= <- <-].
  cbn [andthen]. apply wp_intro. intros [[]|e] s' E; [|done]. intros _.
  set (s1 := put_pending [] s) in *.
  assert (steady s1 s') as [Ep _ _ _].
  { eapply (wp_sound _ (λ _ s', steady s1 s')); [|exact E]. eapply keeps_evolves.
    apply (keeps_for_each steady). intros q _. apply open_steady. }
  split; [by rewrite Ep|]. apply opens_answered in E.
  destruct H0 as [E0 E1 E2 E3]. rewrite <-E0. eapply Forall_impl; [exact E|]. intros p Hp Hd.
  destruct Hp as (new & En & Ha).
  { unfold heard. cbn. by rewrite E1, E2. }
  destruct E3 as [n0 E3]. exists (n0 ++ new). cbn in En. rewrite En, E3, (assoc_L (++)).
  split; [done|]. destruct Ha as (m & Hm & Hr). exists m. rewrite elem_of_app. auto.
Qed.

Lemma steady_send m f : keeps steady (λ _, True) (forward_or_raise frame_fits m f).
Proof. steady_frame frame_forward_or_raise. Qed.

Lemma steady_refill : keeps steady (λ _, True) (refill_tokens user_identity frame_fits).
Proof. steady_frame frame_refill. Qed.

Ltac steady_update := apply evolves_keeps, evolves_update; intros s2;
  split; [done..|exists []; by rewrite app_nil_r].

Lemma channel_opened_served up a f custom down chan s0 s :
  steady s0 s →
  wp (channel_opened mode user_identity frame_fits down chan up a f custom) (on_ok (served s0)) s.
Proof.
  intros H0. unfold channel_opened, set_upstream_state.
  do 4 (eapply (steady_then (λ _, True)); [steady_update|exact H0|];
        clear H0 s; intros [] s _ H0).
  eapply (steady_then (λ _, True)); [apply evolves_keeps, evolves_ask, _|exact H0|].
  clear H0 s. intros t s _ H0.
  eapply (steady_then (λ _, True)); [|exact H0|].
  { apply keeps_for_each; [apply _|]. intros d _.
    apply (frame_focus steady); [|by apply keeps_ret; [apply _|]|apply trivial_keeps].
    intros. split; [done..|exists []; by rewrite app_nil_r]. }
  clear H0 s. intros [] s _ H0.
  unfold get_upstream_state. apply wp_bind, wp_bind, wp_ask, wp_run_rust. intros st Est.
  cbn [andthen]. case_bool_decide as Hst.
  2:{ apply wp_ret. intros Es. rewrite Es in Est. unfold upstream_get in Est.
      rewrite decode_state_u8 in Est. by injection Est as <-. }
  clear Est.
  eapply (steady_then (λ _, True)); [|exact H0|].
  { destruct (is_full_template mode); [|by apply keeps_ret; [apply _|]].
    destruct t; [apply steady_send|by apply keeps_ret; [apply _|]]. }
  clear H0 s. intros [] s _ H0.
  eapply (steady_then (λ _, True)); [|exact H0|].
  { destruct (is_coinbase_only mode); [|by apply keeps_ret; [apply _|]].
    destruct custom; [|by apply keeps_ret; [apply _|]].
    eapply (keeps_bind steady (λ _, True)); [apply steady_send|intros [] _; apply steady_refill]. }
  clear H0 s. intros [] s _ H0. by apply serve_pending_served.
Qed.

Lemma give_up_served c s0 s : wp (give_up_channel frame_fits c) (on_ok (served s0)) s.
Proof.
  unfold give_up_channel, set_upstream_state. apply wp_bind, wp_update. cbn [andthen].
  eapply wp_mono; [|by apply stern_send_upstream]. intros [[]|e] s' [[Es _ _] _]; [|done].
  intros Ec. by rewrite Ec in Es.
Qed.

Lemma grant_served msg down chan s0 s :
  steady s0 s →
  wp (handle_open_extended_mining_channel_success mode user_identity reserved frame_fits down chan
        msg) (on_ok (served s0)) s.
Proof.
  intros H0. unfold handle_open_extended_mining_channel_success.
  do 4 (eapply (steady_then (λ _, True)); [apply evolves_keeps; evolve_rule|exact H0|];
        clear H0 s; intros ? s _ H0).
  match goal with |- context [match ?first with _ => _ end] => destruct first end;
    [|by apply give_up_served].
  destruct (from_upstream_prefix _ _ _ _); [|by apply give_up_served].
  do 4 (eapply (steady_then (λ _, True)); [apply evolves_keeps; evolve_rule|exact H0|];
        clear H0 s; intros ? s _ H0).
  eapply (steady_then (λ _, True)); [steady_frame frame_first_custom_job|exact H0|].
  clear H0 s. intros [custom factory] s _ H0. by apply channel_opened_served.
Qed.

(** C20: When the pool has granted the channel and the handler succeeds,
    nobody waits any more, and every miner that had asked and can be reached has
    been sent the answer to its request: the channel, or an error. *)
Theorem grant_serves_waiting msg down chan s s' :
  handle_open_extended_mining_channel_success mode user_identity reserved frame_fits down chan msg s
    = Done (Ok tt, s') →
  upstream_state s' = state_u8 Connected →
  pending_downstream_requests s' = [] ∧
  Forall (λ p, heard s (pending_downstream_id p) → answered s s' p) (pending_downstream_requests s).
Proof.
  intros E. apply (wp_sound _ _ _ _ _ (grant_served msg down chan s s ltac:(done)) E).
Qed.

(** The handler for a miner that is gone fails at the latest when it looks the
    miner up. *)
Definition fails_at {A} s (r : result A JDCError) s' : Prop := s' = s ∧ ∃ e, r = Err e.

Lemma fails_then {A B'} (p : handler A) (k : A → handler B') s :
  evolves eq p → (∀ a, wp (k a) (fails_at s) s) → wp (p ≫= k) (fails_at s) s.
Proof.
  intros Hp Hk. apply wp_bind. eapply wp_mono; [|apply Hp].
  intros [a|e] s' <-; [apply Hk|]. split; [done|by eexists].
Qed.
Lemma fails_gone {A B'} d (p : guarded A) (k : A → handler B') s :
  downstreams s !! d = None → wp (with_registered_downstream d p ≫= k) (fails_at s) s.
Proof.
  intros Hd. apply wp_bind. apply wp_focus; [|by rewrite Hd].
  intros _. apply wp_raise. split; [done|by eexists].
Qed.

Lemma gone_fails p down chan s :
  downstreams s !! pending_downstream_id p = None →
  wp (handle_mining_message_from_client frame_fits down chan (pending_downstream_id p)
        (pending_message p)) (fails_at s) s.
Proof.
  intros Hd. destruct p as [d msg|d msg]; simpl in *;
    unfold handle_open_extended_mining_channel, handle_open_standard_mining_channel;
    apply wp_bind; eapply (wp_mono _ (fails_at s));
    try (intros r s' [-> [e ->]]; by split; [|eexists]).
  - unfold open_extended. do 4 (apply fails_then; [reads|intros ?]). by apply fails_gone.
  - unfold open_standard. do 6 (apply fails_then; [reads|intros ?]). by apply fails_gone.
Qed.

(** C23: One miner that left is enough for the others to be forgotten: if the
    one whose request waits first is gone, serving the requests fails, and
    nobody is answered or left waiting. *)
Theorem left_miner_drops_waiting p ps down chan s r s' :
  pending_downstream_requests s = p :: ps → downstreams s !! pending_downstream_id p = None →
  serve_pending frame_fits down chan s = Done (r, s') →
  (∃ e, r = Err e) ∧ pending_downstream_requests s' = [] ∧
  sent (channel_manager_io s') = sent (channel_manager_io s).
Proof.
  intros Hp Hd E. pattern r, s'. eapply wp_sound; [|exact E]. clear E r s'. unfold serve_pending. apply wp_bind, wp_transact.
  intros l s1 [= <- <-]. cbn [andthen]. rewrite Hp. simpl. apply wp_bind.
  eapply wp_mono; [|by apply gone_fails]. intros r1 s1 [-> [e ->]]. simpl.
  by split_and!; [exists e|..].
Qed.
End pending.
