(* ===== verification/JdcTokens.v ===== *)
(** * JD client: mining-job tokens

    The JD server grants tokens, and every custom job takes one.  This file
    follows the tokens through all runs: where they are kept, and what the
    client can still do when it has none. *)
From S2P Require Import Prelude Handler SharedMap Bitcoin JobDeclarator Setup ShareCache ServerChannels ShareForward JdClient JdcManager JdcTemplates JdcSystem JdcFrame JdcPending.

Section tokens.
Context `{B : BitcoinApi} `{CS : ChannelsSv2} `{!JdcChannels}.
Context (mode : JDMode) (user_identity : option string)
  (reserved : N) (frame_fits : SetCustomMiningJob → bool)
  (required_extensions supported_extensions : list N)
  (txout_size : TxOut → N) (coinbase_sigop_cost : list TxOut → N)
  (deserialize_txouts : list byte → option (list TxOut))
  (has_work_selection has_requires_std_job : N → bool).
Implicit Types (s : ChannelManager).

Local Notation handle_event := (handle_event mode user_identity reserved frame_fits
  required_extensions supported_extensions txout_size coinbase_sigop_cost deserialize_txouts).
Local Notation jdc_run := (jdc_run mode user_identity reserved frame_fits
  required_extensions supported_extensions txout_size coinbase_sigop_cost deserialize_txouts
  has_work_selection has_requires_std_job).
Local Notation jdc_step := (jdc_step mode user_identity reserved frame_fits
  required_extensions supported_extensions txout_size coinbase_sigop_cost deserialize_txouts
  has_work_selection has_requires_std_job).

(** ** Without tokens *)

(** Requests for tokens, and the jobs that take them. *)
Definition is_hungry (m : RouteMessageTo) : bool :=
  match m with
  | JobDeclaratorTo (MsgAllocateMiningJobToken _ _) | Upstream (MsgSetCustomMiningJob _) => true
  | _ => false
  end.
Definition hungry s : list RouteMessageTo := filter is_hungry (sent (channel_manager_io s)).

(** A client without tokens stays without, and asks for none. *)
Definition starved s s' : Prop :=
  allocate_tokens (client s) = [] →
  allocate_tokens (client s') = [] ∧ hungry s' = hungry s.
#[local] Instance starved_preorder : PreOrder starved.
Proof.
  split; [done|]. intros s1 s2 s3 H1 H2 [E1 E2]%H1. apply H2 in E1 as [E3 E4].
  split; [done|congruence].
Qed.

Lemma starved_forward m s :
  is_hungry m = false → starved s (put_io (forward frame_fits m (channel_manager_io s)).2 s).
Proof.
  intros Hm Ht. split; [done|]. unfold hungry, forward. simpl.
  assert (filter is_hungry (sent (channel_manager_io s) ++ [m]) =
    filter is_hungry (sent (channel_manager_io s))) as E.
  { rewrite filter_app. simpl. rewrite filter_cons, Hm, filter_nil. by rewrite app_nil_r. }
  destruct m as [[]| | |]; repeat case_match; simpl; done.
Qed.

Ltac starved_frame lem :=
  eapply lem; first
    [ apply _ | exact starved_forward | apply starved_forward | intros; reflexivity
    | intros ? ?; exact (λ H, conj H eq_refl) | intros; exact (λ H, conj H eq_refl)
    | intros ? ? ? H1 H2; congruence | idtac ].

Lemma starved_pop : keeps starved (λ _, True) pop_token.
Proof. starved_frame frame_pop_token. Qed.
Lemma starved_close d c : keeps starved (λ _, True) (handle_close_channel d c).
Proof. starved_frame frame_close. Qed.
Lemma starved_request p down chan :
  keeps starved (λ _, True) (handle_channel_request user_identity reserved frame_fits down chan p).
Proof. starved_frame frame_channel_request. Qed.
Lemma starved_vardiff down chan keys :
  keeps starved (λ _, True) (vardiff_tick frame_fits down chan keys).
Proof. starved_frame frame_vardiff_tick. Qed.

(** Hoare triples for a client without tokens. *)
Definition dry (h : list RouteMessageTo) s : Prop :=
  allocate_tokens (client s) = [] ∧ hungry s = h.

Lemma dry_starved h s s' : starved s s' → dry h s → dry h s'.
Proof. intros Hs [E1 E2]. apply Hs in E1 as [E1' E3]. split; congruence. Qed.

Lemma dry_keeps {A} (P : A → Prop) h (p : handler A) s :
  keeps starved P p → dry h s → wp p (λ _ s', dry h s') s.
Proof. intros Hp Hd. eapply wp_mono; [|apply Hp]. intros r s' [Hs _]. by eapply dry_starved. Qed.

Lemma dry_then {A B'} (P : A → Prop) h (p : handler A) (k : A → handler B') s :
  keeps starved P p → dry h s → (∀ a s1, P a → dry h s1 → wp (k a) (λ _ s', dry h s') s1) →
  wp (p ≫= k) (λ _ s', dry h s') s.
Proof.
  intros Hp Hd Hk. apply wp_bind. eapply wp_mono; [|apply Hp]. intros r s1 [Hs HP].
  pose proof (dry_starved _ _ _ Hs Hd). destruct r; [apply Hk|]; auto.
Qed.

Lemma pop_dry {B'} h (k : option TokenGrant → handler B') s :
  dry h s → wp (k None) (λ _ s', dry h s') s → wp (pop_token ≫= k) (λ _ s', dry h s') s.
Proof.
  intros [E _] Hk. apply wp_bind, wp_transact. intros a s1. rewrite E. by intros [= <- <-].
Qed.

Lemma maybe_pop_dry {B'} (b : bool) h (k : option TokenGrant → handler B') s :
  dry h s → wp (k None) (λ _ s', dry h s') s →
  wp ((if b then pop_token else mret None) ≫= k) (λ _ s', dry h s') s.
Proof. intros Hd Hk. destruct b; [by apply pop_dry|done]. Qed.

Lemma starved_quiet messages :
  Forall (λ m, is_hungry m = false) messages →
  keeps starved (λ _, True) (forward_all frame_fits messages).
Proof. intros Hm. starved_frame frame_forward_all. done. Qed.

Lemma coinbase_not_full : is_coinbase_only mode = true → is_full_template mode = false.
Proof.
  unfold is_coinbase_only, is_full_template, mode_u8. intros E%N.eqb_eq. by rewrite E.
Qed.

Ltac read_step Hd :=
  eapply (dry_then (λ _, True)); [apply evolves_keeps; reads|exact Hd|];
  clear Hd; intros ? ? _ Hd.
Ltac update_step Hd :=
  eapply (dry_then (λ _, True));
    [apply evolves_keeps, evolves_update; intros ?; exact (λ H, conj H eq_refl)|exact Hd|];
  clear Hd; intros ? ? _ Hd.

Context (Hmode : is_coinbase_only mode = true).

Lemma new_template_dry down chan msg h s :
  dry h s →
  wp (handle_new_template mode user_identity frame_fits down chan msg) (λ _ s', dry h s') s.
Proof.
  intros Hd. unfold handle_new_template. rewrite coinbase_not_full by done.
  update_step Hd.
  eapply (dry_then (λ _, True)); [|exact Hd|].
  { apply evolves_keeps. destruct (future_template msg); [|apply evolves_ret, _].
    apply evolves_update. intros ?. exact (λ H, conj H eq_refl). }
  clear Hd. intros ? ? _ Hd. do 4 read_step Hd.
  apply maybe_pop_dry; [exact Hd|]. do 2 read_step Hd.
  eapply dry_then; [|exact Hd|].
  { apply (keeps_collect _ (λ m, is_hungry m = false)). intros d _. starved_frame frame_no_custom_round. }
  clear Hd. intros messages ? Hm Hd.
  change (bool_decide (is_Some None)) with false. cbn [negb].
  read_step Hd. eapply dry_keeps; [|exact Hd]. by apply starved_quiet.
Qed.

Lemma tx_data_dry id txs h s :
  dry h s →
  wp (handle_request_tx_data_success mode user_identity frame_fits id txs) (λ _ s', dry h s') s.
Proof.
  intros Hd. unfold handle_request_tx_data_success. rewrite coinbase_not_full by done. done.
Qed.

Lemma coinbase_only_dry {B'} ph t outputs h (k : list RouteMessageTo * bool → handler B') s :
  dry h s → (∀ s1, dry h s1 → wp (k ([], false)) (λ _ s', dry h s') s1) →
  wp (coinbase_only_job mode ph t outputs ≫= k) (λ _ s', dry h s') s.
Proof.
  intros Hd Hk. apply wp_bind. unfold coinbase_only_job. rewrite Hmode.
  destruct t; [|by apply Hk]. apply wp_bind, wp_transact. destruct Hd as [E Hh]. rewrite E.
  intros ? ? [= <- <-]. apply wp_bind, wp_ask. simpl. by apply Hk.
Qed.

Lemma prev_hash_dry down chan jobs ph h s :
  dry h s →
  wp (handle_set_new_prev_hash mode user_identity frame_fits down chan jobs ph)
    (λ _ s', dry h s') s.
Proof.
  intros Hd. unfold handle_set_new_prev_hash. rewrite coinbase_not_full by done.
  read_step Hd. do 2 update_step Hd. do 3 read_step Hd. do 2 update_step Hd.
  apply coinbase_only_dry; [exact Hd|]. clear Hd. intros ? Hd.
  eapply dry_then; [|exact Hd|].
  { apply (keeps_collect _ (λ m, is_hungry m = false)). intros d _. starved_frame frame_prev_hash_round. }
  clear Hd. intros messages ? Hm Hd. read_step Hd. eapply dry_keeps; [|exact Hd].
  by apply starved_quiet.
Qed.

Lemma first_job_dry {B'} up f outputs h (k : option SetCustomMiningJob * JobFactory → handler B') s :
  dry h s → (∀ s1, dry h s1 → wp (k (None, f)) (λ _ s', dry h s') s1) →
  wp (first_custom_job mode up f outputs ≫= k) (λ _ s', dry h s') s.
Proof.
  intros Hd Hk. apply wp_bind. unfold first_custom_job. do 3 (apply wp_bind, wp_ask; cbn [andthen]).
  case_match; [|by apply Hk]. case_match; [|by apply Hk]. case_match; [|by apply Hk].
  apply wp_bind, wp_transact. destruct Hd as [E Hh]. rewrite E.
  intros ? ? [= <- <-]. by apply Hk.
Qed.

Lemma opened_dry up a f down chan h s :
  dry h s →
  wp (channel_opened mode user_identity frame_fits down chan up a f None) (λ _ s', dry h s') s.
Proof.
  intros Hd. unfold channel_opened, set_upstream_state. rewrite coinbase_not_full by done.
  do 4 update_step Hd. read_step Hd.
  eapply (dry_then (λ _, True)); [|exact Hd|].
  { apply keeps_for_each; [apply _|]. intros d _.
    apply (frame_focus starved); [|by apply keeps_ret; [apply _|]|apply trivial_keeps].
    intros. exact (λ H, conj H eq_refl). }
  clear Hd. intros ? ? _ Hd. read_step Hd. case_match; [|by apply wp_ret].
  read_step Hd. rewrite Hmode. read_step Hd. eapply dry_keeps; [|exact Hd].
  starved_frame frame_serve_pending.
Qed.

Lemma give_up_dry c h s :
  dry h s → wp (give_up_channel frame_fits c) (λ _ s', dry h s') s.
Proof.
  intros Hd. unfold give_up_channel, set_upstream_state, send_upstream. update_step Hd.
  eapply dry_keeps; [|exact Hd]. starved_frame frame_forward_or_raise.
Qed.

Lemma grant_dry msg down chan h s :
  dry h s →
  wp (handle_open_extended_mining_channel_success mode user_identity reserved frame_fits down chan
        msg) (λ _ s', dry h s') s.
Proof.
  intros Hd. unfold handle_open_extended_mining_channel_success.
  do 4 read_step Hd.
  repeat (case_match; [|by apply give_up_dry]).
  do 4 read_step Hd. apply first_job_dry; [exact Hd|]. clear Hd. intros ? Hd.
  by apply opened_dry.
Qed.

Lemma starved_run_client (h : Client → rust Handled) :
  (∀ c r c', h c = Done (r, c') → share_frame c r c') →
  keeps starved (λ _, True) (run_client h ≫= forward_all frame_fits).
Proof.
  intros Hh. apply (keeps_bind _ (Forall (λ m, is_hungry m = false))); [|apply starved_quiet].
  intros s. apply wp_intro. intros r s'. unfold run_client.
  destruct (h (client s)) as [[r0 c']|] eqn:E; [|done]. intros [= <- <-].
  apply Hh in E as [Hm Ht _]. split; [intros H0; simpl; by rewrite Ht|].
  intros out ->. eapply Forall_impl; [exact Hm|]. intros m Hm1. by destruct m as [[]|[]| |].
Qed.

Definition is_jds (ev : JdcEvent) : bool := match ev with EvJds _ => true | _ => false end.

Lemma event_dry o ev h s :
  is_jds ev = false → dry h s → wp (handle_event o ev) (λ _ s', dry h s') s.
Proof.
  intros Hev Hd.
  assert (∀ p : handler unit, keeps starved (λ _, True) p → wp p (λ _ s', dry h s') s) as Hkeep
    by (intros p Hp; by eapply dry_keeps).
  destruct ev as [d m|m|m|m|keys]; simpl; [| | |done|].
  - apply Hkeep. destruct m; simpl.
    + apply starved_close.
    + apply starved_request.
    + apply starved_request.
    + apply starved_run_client. intros. by eapply standard_frame.
    + apply starved_run_client. intros. by eapply extended_frame.
    + starved_frame frame_update_channel.
  - destruct m; simpl.
    + by apply new_template_dry.
    + by apply prev_hash_dry.
    + by apply tx_data_dry.
    + apply Hkeep, frame_tx_data_error, _.
  - destruct m; simpl; [|by apply grant_dry|..]; apply Hkeep.
    + apply keeps_raise, _.
    + apply keeps_raise, _.
    + apply keeps_ret; [apply _|done].
    + starved_frame frame_upstream_close.
    + starved_frame frame_set_extranonce_prefix.
    + starved_frame frame_with_upstream.
    + starved_frame frame_with_upstream.
    + apply keeps_ret; [apply _|done].
    + apply starved_run_client. intros. by eapply acknowledged_frame.
    + apply starved_run_client. intros c r c' [= E]. by eapply refused_frame.
    + starved_frame frame_set_target.
    + starved_frame frame_extensions_success.
    + starved_frame frame_extensions_error.
    + apply keeps_raise, _.
  - apply Hkeep, starved_vardiff.
Qed.

Lemma env_dry h (s s' : JdcSystem) :
  jdc_env has_work_selection has_requires_std_job s s' → dry h (cm s) → dry h (cm s').
Proof.
  intros Henv. apply dry_starved.
  destruct Henv as [? ? ? ? E|? ? E| | | | | | |]; simpl; try exact (λ H, conj H eq_refl).
  - eapply (wp_sound _ (λ _ m, starved _ m)); [|exact E]. eapply keeps_evolves. starved_frame frame_accept.
  - eapply (wp_sound _ (λ _ m, starved _ m)); [|exact E]. eapply keeps_evolves. starved_frame frame_accept.
Qed.

Lemma turn_dry h r m (s : JdcSystem) : dry h m → dry h (cm (turn r m s)).
Proof.
  intros Hd. destruct r as [[]|e]; [done|]. unfold turn, handle_error_action.
  case_match; [done|]. by destruct (action e).
Qed.

(** C12: In coinbase-only mode a client that has run out of tokens never sets
    another custom job: whatever miners, pool and template provider send, it
    neither asks the JD server for a token nor sends the pool a job, until the
    JD server speaks first. *)
Theorem coinbase_only_starves (s : JdcSystem) evs (s' : JdcSystem) :
  jdc_run s evs s' → Forall (λ ev, is_jds ev = false) evs →
  allocate_tokens (client (cm s)) = [] →
  allocate_tokens (client (cm s')) = [] ∧ hungry (cm s') = hungry (cm s).
Proof.
  intros Hrun Hevs Ht. change (dry (hungry (cm s)) (cm s')).
  induction Hrun as [|evs s1 ev s2 _ IH Hstep]; [done|].
  apply Forall_app in Hevs as [H1 H2]. specialize (IH H1).
  destruct Hstep as [s2 Henv|o ev r m _ _ E]; [by eapply env_dry|]. apply turn_dry.
  eapply (wp_sound _ (λ _ m, dry _ m)); [|exact E]. apply event_dry; [|done].
  by inversion H2.
Qed.

(** ** A token that is wasted *)

(** What a chain tip without a channel leaves as it is, the token aside. *)
Record fed s s' : Prop := {
  fed_tokens : allocate_tokens (client s') = allocate_tokens (client s);
  fed_hungry : hungry s' = hungry s;
  fed_template : last_future_template s' = last_future_template s;
  fed_upstream : upstream_channel (client s) = None → upstream_channel (client s') = None;
}.
#[local] Instance fed_preorder : PreOrder fed.
Proof. split; [by split|]. intros s1 s2 s3 [] []. split; [congruence..|auto]. Qed.

Lemma fed_forward m s :
  is_hungry m = false → fed s (put_io (forward frame_fits m (channel_manager_io s)).2 s).
Proof.
  intros Hm. split; [done| |done..]. unfold hungry, forward.
  assert (filter is_hungry (sent (channel_manager_io s) ++ [m]) =
    filter is_hungry (sent (channel_manager_io s))) as E.
  { rewrite filter_app. simpl. rewrite filter_cons, Hm, filter_nil. by rewrite app_nil_r. }
  destruct m as [[]| | |]; repeat case_match; simpl; done.
Qed.
Ltac fed_frame lem :=
  eapply lem; first
    [ apply _ | exact fed_forward | intros; reflexivity | intros; split; [done..|auto]; fail | idtac ].

Definition left_with (l : list TokenGrant) (h : list RouteMessageTo) (r : result unit JDCError) s : Prop :=
  match r with Ok _ => allocate_tokens (client s) = l ∧ hungry s = h | Err _ => True end.

Lemma fed_then {A} (P : A → Prop) l h s0 (p : handler A) (k : A → handler unit) s :
  keeps fed P p → fed s0 s →
  (∀ a s1, P a → fed s0 s1 → wp (k a) (left_with l h) s1) →
  wp (p ≫= k) (left_with l h) s.
Proof.
  intros Hp H0 Hk. apply wp_bind. eapply wp_mono; [|apply Hp]. intros [a|e] s1 [H1 HP]; [|done].
  apply Hk; [by apply HP|by etrans].
Qed.

Ltac fed_read H0 :=
  eapply (fed_then (λ _, True)); [apply evolves_keeps; reads|exact H0|]; clear H0; intros ? ? _ H0.
Ltac fed_update H0 :=
  eapply (fed_then (λ _, True));
    [apply evolves_keeps, evolves_update; intros ?; split; [done..|simpl; by intros ->]|exact H0|];
  clear H0; intros [] ? _ H0.

Lemma tip_rest down chan ph s :
  wp (messages ← collect down (prev_hash_round chan ph);
      mret tt;; forward_all frame_fits ([] ++ messages))
    (left_with (allocate_tokens (client s)) (hungry s)) s.
Proof.
  assert (fed s s) as H0 by done.
  eapply (fed_then (Forall (λ m, is_hungry m = false))); [|exact H0|].
  { apply keeps_collect; [apply _|]. intros d _. fed_frame frame_prev_hash_round. }
  clear H0. intros messages s1 Hm H0. fed_read H0.
  assert (keeps fed (λ _, True) (forward_all frame_fits messages)) as Hk
    by (fed_frame frame_forward_all; done).
  eapply wp_mono; [|apply Hk]. intros [[]|e] s3 [H1 _]; [|done].
  split; destruct H0, H1; congruence.
Qed.

(** A chain tip that comes before the pool's channel is there takes a
    token in coinbase-only mode and makes nothing of it. *)
Theorem early_tip_wastes_token down chan jobs ph t rest template s s' :
  allocate_tokens (client s) = t :: rest → upstream_channel (client s) = None →
  last_future_template s = Some template →
  handle_set_new_prev_hash mode user_identity frame_fits down chan jobs ph s = Done (Ok tt, s') →
  allocate_tokens (client s') = rest ∧ hungry s' = hungry s.
Proof.
  intros Ht Hu Hf E. change (left_with rest (hungry s) (Ok tt) s').
  eapply wp_sound; [|exact E]. clear E s'.
  assert (∀ s1, fed s s1 → wp (handle_set_new_prev_hash mode user_identity frame_fits down chan jobs
    ph) (left_with rest (hungry s)) s1) as Hwp; [|by apply Hwp]. intros s1 H0.
  unfold handle_set_new_prev_hash. rewrite coinbase_not_full by done.
  fed_read H0. fed_update H0. fed_update H0.
  apply wp_bind, wp_ask. cbn [andthen]. rewrite (fed_template _ _ H0), Hf.
  fed_read H0. fed_read H0. fed_update H0. fed_update H0.
  unfold coinbase_only_job. rewrite Hmode. apply wp_bind, wp_bind, wp_transact.
  rewrite (fed_tokens _ _ H0), Ht. intros ? popped [= <- <-]. cbn [andthen].
  apply wp_bind, wp_ask. simpl. rewrite (fed_upstream _ _ H0 Hu).
  apply wp_ret. cbn [andthen]. eapply wp_mono; [|apply tip_rest].
  intros [[]|e] s' Hs'; [|done]. destruct Hs' as [E1 E2]. split; [exact E1|].
  rewrite E2. exact (fed_hungry _ _ H0).
Qed.
End tokens.
