(* ===== verification/JdcJobs.v ===== *)
(** * JD client: templates become jobs

    A share of a miner goes upstream only if the template of its job is known.
    This file shows what a new template does to every channel of every miner,
    and that the template is recorded for just the job the channel got. *)
From S2P Require Import Prelude Handler SharedMap Bitcoin JobDeclarator ShareCache ServerChannels ShareForward JdClient JdcManager JdcTemplates JdcSystem JdcFrame.

Section jobs.
Context `{B : BitcoinApi} `{CS : ChannelsSv2} `{!JdcChannels}.
Context (mode : JDMode) (user_identity : option string) (frame_fits : SetCustomMiningJob → bool).
Context (downstream_order : list N) (channel_order : N → list N).
Context (msg : NewTemplate).
Implicit Types (s : ChannelManager).

(** ** What a template does *)

(** The job of the channel was made from the template. *)
Definition recorded s (d c j : N) : Prop :=
  downstream_channel_id_and_job_id_to_template_id (client s) !! (d, c, j) = Some (template_id msg).

(** The group's job for the template, and the id of a channel's own one. *)
Definition group_made (g : GroupChannel) : option ExtJob :=
  if future_template msg
  then grp_get_future_job_id_from_template_id g (template_id msg) ≫= grp_get_future_job g
  else grp_get_active_job g.
Definition own_made (ch : StdChannel) : option N :=
  if future_template msg
  then j ← std_get_future_job_id_from_template_id ch (template_id msg);
       _ ← std_get_future_job ch j; Some j
  else std_job_id <$> std_get_active_job ch.

(** What a standard channel becomes, with the job it got: its own one or the
    group's. *)
Definition std_made (outputs : list TxOut) (own : bool) (group : ExtJob) (ch0 ch : StdChannel)
    (j : N) : Prop :=
  if own then std_on_new_template ch0 msg outputs = (Ok tt, ch) ∧ own_made ch = Some j
  else std_on_group_channel_job ch0 group = (Ok tt, ch) ∧ j = ext_job_id group.
Definition ext_made (group : ExtJob) (ch0 ch : ExtChannel) (j : N) : Prop :=
  ext_on_group_channel_job ch0 group = (Ok tt, ch) ∧ j = ext_job_id group.

(** Some channels of a connection were handed their jobs. *)
Definition all_made {V} (made : V → V → N → Prop) (s : ChannelManager) (d : N) (l : list N)
    (m0 m : gmap N V) : Prop :=
  ∀ c ch0, c ∈ l → m0 !! c = Some ch0 → ∃ ch j, m !! c = Some ch ∧ made ch0 ch j ∧ recorded s d c j.

(** The connection [ds0] after its round. *)
Definition round_made (outputs : list TxOut) s (d : N) (ds0 : Downstream) : Prop :=
  ∃ ds group, downstreams s !! d = Some ds ∧
    grp_on_new_template (group_channel ds0) msg outputs = (Ok tt, group_channel ds) ∧
    group_made (group_channel ds) = Some group ∧
    dom (standard_channels ds) = dom (standard_channels ds0) ∧
    dom (extended_channels ds) = dom (extended_channels ds0) ∧
    all_made (std_made outputs (require_std_job ds0) group) s d (channel_order d)
      (standard_channels ds0) (standard_channels ds) ∧
    all_made (ext_made group) s d (channel_order d) (extended_channels ds0) (extended_channels ds).

(** ** What changes meanwhile *)

(** Nothing of another connection, and no record is lost. *)
Record frame (d : N) s s' : Prop := {
  frame_recorded : ∀ d' c j, recorded s d' c j → recorded s' d' c j;
  frame_other : ∀ d', d' ≠ d → downstreams s' !! d' = downstreams s !! d';
}.
#[local] Instance frame_preorder d : PreOrder (frame d).
Proof.
  split; [by split|]. intros s1 s2 s3 [R1 O1] [R2 O2]. split; [auto|].
  intros d' Hd. by rewrite O2, O1.
Qed.

(** Neither connections nor records nor the configured outputs. *)
Definition silent s s' : Prop :=
  downstreams s' = downstreams s ∧
  coinbase_outputs (client s') = coinbase_outputs (client s) ∧
  downstream_channel_id_and_job_id_to_template_id (client s') =
    downstream_channel_id_and_job_id_to_template_id (client s).
#[local] Instance silent_preorder : PreOrder silent.
Proof. split; [by split|]. intros s1 s2 s3 (?&?&?) (?&?&?). split_and!; congruence. Qed.

Lemma silent_frame d s s' : silent s s' → frame d s s'.
Proof. intros (E1 & _ & E2). split; unfold recorded; intros; by rewrite ?E1, ?E2. Qed.

Lemma frame_downstream d ds s : frame d s (put_downstreams (<[d := ds]> (downstreams s)) s).
Proof. split; [done|]. intros d' Hd. cbn. by rewrite lookup_insert_ne. Qed.

Lemma record_frame d c j s :
  let s' := in_client (set_job_templates (<[(d, c, j) := template_id msg]>
              (downstream_channel_id_and_job_id_to_template_id (client s)))) s in
  frame d s s' ∧ recorded s' d c j.
Proof.
  split; [split; [|done]|apply lookup_insert_eq]. intros d' c' j' Hj. unfold recorded. cbn.
  destruct (decide ((d, c, j) = (d', c', j'))) as [->|]; [apply lookup_insert_eq|].
  by rewrite lookup_insert_ne.
Qed.

(** Reading a connection. *)
Lemma wp_known {A} d (k : Downstream → handler A) (Q : result A JDCError → ChannelManager → Prop) s ds :
  downstreams s !! d = Some ds → wp (k ds) Q s → wp (registered d ≫= k) Q s.
Proof.
  intros Hd Hk. apply wp_bind. unfold registered. apply wp_focus; [by rewrite Hd|].
  intros ds'. rewrite Hd. intros [= <-]. apply wp_ask. cbn.
  rewrite insert_id by done. by destruct s as [[]].
Qed.

(** ** The channels of one connection

    A loop over channels of one kind. *)
Section loop.
Context {V : Type} (get : Downstream → gmap N V) (put : gmap N V → Downstream → Downstream).
Hypothesis get_put : ∀ m ds, get (put m ds) = m.
Hypothesis put_put : ∀ m m' ds, put m (put m' ds) = put m ds.
Hypothesis put_get : ∀ ds, put (get ds) ds = ds.
Context (made : V → V → N → Prop) (d : N).

(** The connection [ds] when the channels of [l] had their turns. *)
Definition turned {A} (l : list N) (ds : Downstream) s (r : result A JDCError) s' : Prop :=
  frame d s s' ∧ ∃ m, downstreams s' !! d = Some (put m ds) ∧ dom m = dom (get ds) ∧
    (∀ c, c ∉ l → m !! c = get ds !! c) ∧
    ∀ a, r = Ok a → all_made made s' d l (get ds) m.

Lemma turned_absent {A} c ds s (a : A) :
  downstreams s !! d = Some ds → get ds !! c = None → turned [c] ds s (Ok a) s.
Proof.
  intros Hd Hc. split; [done|]. exists (get ds). rewrite put_get. split_and!; [done..|].
  intros _ _ c' ch0 ->%list_elem_of_singleton. by rewrite Hc.
Qed.

Lemma channel_loop {A} (f : N → handler (list A)) l :
  (∀ c s ds, downstreams s !! d = Some ds → wp (f c) (turned [c] ds s) s) → NoDup l →
  ∀ s ds, downstreams s !! d = Some ds → wp (collect l f) (turned l ds s) s.
Proof.
  intros Hf. induction l as [|c l IH]; intros Hnd s ds Hd.
  { simpl. apply wp_ret. split; [done|]. exists (get ds). rewrite put_get.
    split_and!; [done..|]. by intros _ _ c ch0 ?%not_elem_of_nil. }
  apply NoDup_cons in Hnd as [Hc Hnd]. simpl. apply wp_bind.
  eapply wp_mono; [|by apply Hf]. intros [out|e] s1 [F1 (m1 & Hd1 & Hdom1 & Hk1 & Hm1)]; cbn [andthen].
  2:{ split; [done|]. exists m1. split_and!; [done..| |done].
      intros c' Hc'. apply Hk1. intros ->%list_elem_of_singleton. by destruct Hc'; left. }
  apply wp_bind. eapply wp_mono; [|by apply (IH Hnd s1 (put m1 ds))].
  intros r s2 [F2 (m2 & Hd2 & Hdom2 & Hk2 & Hm2)]. rewrite get_put in *. rewrite put_put in Hd2.
  assert (turned (c :: l) ds s r s2) as Hturn.
  { split; [by etrans|]. exists m2. split_and!; [done|by rewrite Hdom2| |].
    - intros c' [Hne Hc']%not_elem_of_cons. rewrite Hk2 by done. apply Hk1. by intros ?%list_elem_of_singleton.
    - intros a Ha c' ch0 [->|Hc']%elem_of_cons Hch.
      + destruct (Hm1 out eq_refl c ch0) as (ch & j & Hm & Hmade & Hrec); [by left|done|].
        exists ch, j. rewrite Hk2 by done. split_and!; [done..|]. by apply F2.
      + apply (Hm2 a Ha c' ch0 Hc'). rewrite Hk1; [done|]. intros ->%list_elem_of_singleton. done. }
  destruct r as [outs|e]; cbn [andthen]; [apply wp_ret|]; destruct Hturn as [F (m & H1 & H2 & H3 & H4)];
    (split; [done|]); exists m; split_and!; try done. intros _ _. by apply (H4 outs).
Qed.
End loop.

Lemma own_job outputs ch0 :
  wp (own_standard_job msg outputs) (λ r ch, ∀ a, r = Ok a →
    std_on_new_template ch0 msg outputs = (Ok tt, ch) ∧ own_made ch = Some a.1) ch0.
Proof.
  unfold own_standard_job, own_made. apply wp_bind, wp_transact. intros r ch ->. cbn [andthen].
  apply wp_bind. destruct r as [[]|e]; cbn [ok_or_raise];
    [apply wp_ret; cbn [andthen]|apply wp_raise; by intros a].
  apply wp_bind, wp_ask. cbn [andthen]. destruct (future_template msg); apply wp_bind.
  - apply wp_some_or_crash. intros j Ei. cbn [andthen]. apply wp_bind, wp_some_or_crash.
    intros job Ej. cbn [andthen]. apply wp_ret. intros a [= <-]. rewrite Ei. cbn. by rewrite Ej.
  - apply wp_some_or_crash. intros job Ej. cbn [andthen]. apply wp_ret. intros a [= <-].
    by rewrite Ej.
Qed.

(** A channel that is there is replaced. *)
Lemma turned_here {V A} (get : Downstream → gmap N V) put (made : V → V → N → Prop) d c s s1 ds
    ch0 ch (r : result A JDCError) :
  get ds !! c = Some ch0 → frame d s s1 →
  (∀ a, r = Ok a → ∃ j, made ch0 ch j ∧ recorded s1 d c j) →
  turned get put made d [c] ds s r
    (put_downstreams (<[d := put (<[c := ch]> (get ds)) ds]> (downstreams s1)) s1).
Proof.
  intros Ec Hf Hj. split; [etrans; [exact Hf|apply frame_downstream]|].
  exists (<[c := ch]> (get ds)). split_and!.
  - apply lookup_insert_eq.
  - rewrite dom_insert_L. apply elem_of_dom_2 in Ec. set_solver.
  - intros c' Hc'. apply lookup_insert_ne. intros ->. by apply Hc', list_elem_of_singleton.
  - intros a Ha c' ch' ->%list_elem_of_singleton. rewrite Ec. intros [= <-].
    destruct (Hj a Ha) as (j & Hm & Hr). exists ch, j. by rewrite lookup_insert_eq.
Qed.

(** The group's job is recorded and handed to a channel. *)
Lemma group_turn {V} (get : Downstream → gmap N V) put (made : V → V → N → Prop) d c s ds ch0
    (hand : V → result unit ServerChannelError * V) group :
  downstreams s !! d = Some ds → get ds !! c = Some ch0 →
  (∀ ch, hand ch0 = (Ok tt, ch) → made ch0 ch (ext_job_id group)) →
  wp (record_template d c (ext_job_id group) (template_id msg);;
      r ← with_registered_downstream d (focus get put c (mret (Ok tt)) (transact hand));
      ok_or_raise r (λ _, shutdown ChannelSv2);; mret ([] : list RouteMessageTo))
    (turned get put made d [c] ds s) s.
Proof.
  intros Hd Hc Hmade. apply wp_bind. unfold record_template. apply wp_update. cbn [andthen].
  set (s1 := in_client _ s). destruct (record_frame d c (ext_job_id group) s) as [Hf Hr].
  fold s1 in Hf, Hr. assert (downstreams s1 !! d = Some ds) as Hd1 by exact Hd.
  apply wp_bind, wp_focus; [by rewrite Hd1|]. intros ds'. rewrite Hd1. intros [= <-].
  apply wp_focus; [by rewrite Hc|]. intros ch'. rewrite Hc. intros [= <-].
  apply wp_transact. intros r ch E. cbn [andthen]. apply wp_bind.
  destruct r as [[]|e]; cbn [ok_or_raise andthen].
  - apply wp_ret. cbn [andthen]. apply wp_ret. eapply turned_here; [done..|].
    intros _ _. exists (ext_job_id group). auto.
  - apply wp_raise. cbn [andthen]. eapply turned_here; [done..|]. by intros a.
Qed.

Lemma std_turn outputs own group d c s ds :
  downstreams s !! d = Some ds →
  wp (template_standard msg outputs d own group c)
    (turned standard_channels put_std (std_made outputs own group) d [c] ds s) s.
Proof.
  intros Hd. unfold template_standard. apply wp_known with (ds := ds); [done|].
  destruct (standard_channels ds !! c) as [ch0|] eqn:Ec.
  2:{ apply wp_ret. apply turned_absent; [by intros []|done..]. }
  destruct own; simpl.
  2:{ eapply group_turn; [done..|]. by split. }
  apply wp_bind, wp_focus; [by rewrite Hd|]. intros ds'. rewrite Hd. intros [= <-].
  apply wp_focus; [by rewrite Ec|]. intros ch'. rewrite Ec. intros [= <-].
  apply wp_bind. eapply wp_mono; [|apply own_job]. intros [[j m]|e] ch Hown; cbn [andthen].
  2:{ eapply turned_here; [done..|]. by intros a. }
  apply wp_ret. cbn [andthen]. destruct (Hown _ eq_refl) as [Hnew Hj]. apply wp_bind.
  unfold record_template. apply wp_update. cbn [andthen]. apply wp_ret.
  destruct (record_frame d c j s) as [Hf Hr].
  refine (turned_here standard_channels put_std _ d c s _ ds ch0 ch _ Ec Hf _).
  intros _ _. exists j. by split.
Qed.

Lemma ext_turn group d c s ds :
  downstreams s !! d = Some ds →
  wp (template_extended msg d group c) (turned extended_channels put_ext (ext_made group) d [c] ds s) s.
Proof.
  intros Hd. unfold template_extended. apply wp_known with (ds := ds); [done|].
  destruct (extended_channels ds !! c) as [ch0|] eqn:Ec.
  - eapply group_turn; [done..|]. by split.
  - apply wp_ret. apply turned_absent; [by intros []|done..].
Qed.

(** ** One round *)
Ltac silent_steps :=
  repeat first
    [ evolve_rule
    | apply evolves_transact; intros ?; repeat case_match; (done || by split)
    | apply evolves_update; intros ?; by split ].

Lemma custom_silent token ci f ph t outputs :
  evolves silent (set_custom_job token ci f ph t outputs).
Proof. unfold set_custom_job, next_request_id, store_declared. silent_steps. Qed.

Lemma customs_silent token (info : option (N * N)) ph outputs :
  evolves silent
    match token, info, ph with
    | Some token, Some (channel_id, full_size), Some ph =>
        set_custom_job token channel_id full_size ph msg outputs
    | _, _, _ => mret []
    end.
Proof. destruct token, info as [[]|], ph; first [apply custom_silent|apply evolves_ret, _]. Qed.

Lemma group_job_made outputs ds0 :
  wp (group_job msg outputs) (λ r ds, ∃ g, ds = put_group g ds0 ∧ ∀ group, r = Ok group →
    grp_on_new_template (group_channel ds0) msg outputs = (Ok tt, g) ∧ group_made g = Some group) ds0.
Proof.
  unfold group_job, group_made. apply wp_bind, wp_transact. intros r ds E. cbn [andthen].
  destruct (grp_on_new_template _ msg outputs) as [r' g] eqn:Eg. injection E as <- <-.
  apply wp_bind. destruct r' as [[]|e]; cbn [ok_or_raise];
    [apply wp_ret; cbn [andthen]|apply wp_raise; by exists g].
  apply wp_bind, wp_ask. cbn [andthen]. destruct (future_template msg); cbn.
  - apply wp_bind, wp_some_or_crash. intros j Ei. cbn [andthen]. apply wp_some_or_crash.
    intros job Ej. exists g. split; [done|]. intros group [= <-]. rewrite Ei. by split.
  - apply wp_some_or_crash. intros job Ej. exists g. split; [done|]. intros group [= <-]. by split.
Qed.

(** The connections of a state, and their channels. *)
Definition channels_of (ds : Downstream) : gset N * gset N :=
  (dom (standard_channels ds), dom (extended_channels ds)).
Definition shape s : gmap N (gset N * gset N) := channels_of <$> downstreams s.

Lemma round_spec outputs token info ph d s :
  NoDup (channel_order d) →
  wp (template_round channel_order msg outputs token info ph d)
    (λ r s', frame d s s' ∧ ∀ a, r = Ok a →
       match downstreams s !! d with
       | None => downstreams s' !! d = None
       | Some ds0 => round_made outputs s' d ds0
       end) s.
Proof.
  intros Hnd. unfold template_round. apply wp_bind, wp_ask. cbn [andthen].
  destruct (downstreams s !! d) as [ds0|] eqn:Hd; [|by apply wp_ret].
  apply wp_bind, wp_focus; [by rewrite Hd|]. intros ds'. rewrite Hd. intros [= <-].
  eapply wp_mono; [|apply group_job_made]. intros [group|e] ds1 (g & -> & Hg); cbn [andthen].
  2:{ split; [apply frame_downstream|done]. }
  destruct (Hg group eq_refl) as [Hnew Hjob]. clear Hg.
  set (s1 := put_downstreams _ s). assert (frame d s s1) as F1 by apply frame_downstream.
  apply wp_bind. eapply wp_mono; [|apply customs_silent].
  intros [custom|e] s2 Hs2; cbn [andthen].
  2:{ split; [|done]. etrans; [exact F1|by apply silent_frame]. }
  assert (downstreams s2 !! d = Some (put_group g ds0)) as Hd2.
  { destruct Hs2 as [-> _]. apply lookup_insert_eq. }
  assert (frame d s s2) as F2 by (etrans; [exact F1|by apply silent_frame]).
  apply wp_known with (ds := put_group g ds0); [done|]. cbv zeta.
  apply wp_bind. eapply wp_mono.
  2:{ apply (channel_loop standard_channels put_std) with (ds := put_group g ds0);
        [done|done|by intros []| |done|done]. intros c s0 ds H0. by apply std_turn. }
  intros [standard|e] s3 [F3 (m & Hd3 & Hdom & _ & Hm)]; cbn [andthen].
  2:{ split; [by etrans|done]. }
  apply wp_bind. eapply wp_mono.
  2:{ apply (channel_loop extended_channels put_ext) with (ds := put_std m (put_group g ds0));
        [done|done|by intros []| |done|done]. intros c s0 ds H0. by apply ext_turn. }
  intros r s4 [F4 (m' & Hd4 & Hdom' & _ & Hm')]. assert (frame d s s4) as F by by do 2 (etrans; [|done]).
  destruct r as [ext|e]; cbn [andthen]; [apply wp_ret|]; (split; [done|]); [|done].
  intros _ _. exists (put_ext m' (put_std m (put_group g ds0))), group.
  split_and!; [done..| |exact (Hm' ext eq_refl)].
  intros c ch0 Hc Hch. destruct (Hm standard eq_refl c ch0 Hc Hch) as (ch & j & ? & ? & ?).
  exists ch, j. split_and!; [done..|]. by apply F4.
Qed.

(** ** The loop over the connections *)
Lemma round_stable outputs d s s' ds0 :
  (∀ d c j, recorded s d c j → recorded s' d c j) → downstreams s' !! d = downstreams s !! d →
  round_made outputs s d ds0 → round_made outputs s' d ds0.
Proof.
  intros Hr E (ds & group & Hd & ? & ? & ? & ? & Hs & He). exists ds, group. rewrite E.
  split_and!; [done..| |].
  - intros c ch0 Hc Hch. destruct (Hs c ch0 Hc Hch) as (ch & j & ? & ? & ?). exists ch, j. auto.
  - intros c ch0 Hc Hch. destruct (He c ch0 Hc Hch) as (ch & j & ? & ? & ?). exists ch, j. auto.
Qed.

Lemma rounds_spec outputs token info ph l s :
  NoDup l → (∀ d, NoDup (channel_order d)) →
  wp (collect l (template_round channel_order msg outputs token info ph))
    (λ r s', (∀ d c j, recorded s d c j → recorded s' d c j) ∧
       (∀ d, d ∉ l → downstreams s' !! d = downstreams s !! d) ∧ ∀ a, r = Ok a → ∀ d, d ∈ l →
       match downstreams s !! d with
       | None => downstreams s' !! d = None
       | Some ds0 => round_made outputs s' d ds0
       end) s.
Proof.
  intros Hl Hc. revert s. induction l as [|d l IH]; intros s; simpl.
  { apply wp_ret. split_and!; [done..|]. by intros _ _ d ?%not_elem_of_nil. }
  apply NoDup_cons in Hl as [Hd Hl]. apply wp_bind.
  eapply wp_mono; [|by apply round_spec]. intros [out|e] s1 [F1 H1]; cbn [andthen].
  2:{ split_and!; [apply F1| |done]. intros d' [Hne _]%not_elem_of_cons. by apply F1. }
  apply wp_bind. eapply wp_mono; [|by apply IH]. intros r s2 (R2 & F2 & H2).
  assert (∀ d c j, recorded s d c j → recorded s2 d c j) as R by (intros; by apply R2, F1).
  assert (∀ d', d' ∉ d :: l → downstreams s2 !! d' = downstreams s !! d') as F.
  { intros d' [Hne Hd']%not_elem_of_cons. rewrite F2 by done. by apply F1. }
  destruct r as [outs|e]; cbn [andthen]; [apply wp_ret|]; (split_and!; [done..|]); [|done].
  intros _ _ d' [->|Hd']%elem_of_cons.
  - specialize (H1 out eq_refl). destruct (downstreams s !! d) as [ds0|]; [|by rewrite F2].
    eapply round_stable; [exact R2|by apply F2|done].
  - rewrite <-(frame_other _ _ _ F1) by (by intros ->). by apply (H2 outs).
Qed.

Lemma refill_silent : evolves silent (refill_tokens user_identity frame_fits).
Proof.
  unfold refill_tokens, request_tokens, request_token, next_request_id, send_jd, forward_or_raise.
  silent_steps.
Qed.

Lemma forward_silent messages : evolves silent (forward_all frame_fits messages).
Proof. unfold forward_all. silent_steps. Qed.

(** Before and after the loop. *)
Lemma silent_then {A A'} (p : handler A) (k : A → handler A') Q s :
  evolves silent p → (∀ a s1, silent s s1 → wp (k a) (λ r s', ∀ b, r = Ok b → Q s') s1) →
  wp (p ≫= k) (λ r s', ∀ b, r = Ok b → Q s') s.
Proof.
  intros Hp Hk. apply wp_bind. eapply wp_mono; [|apply Hp].
  intros [a|e] s1 H1; cbn [andthen]; [by apply Hk|done].
Qed.

(** The outputs of the template's coinbase. *)
Definition outputs_for s : option (list TxOut) :=
  deserialize_outputs (coinbase_outputs (client s)) ≫=
  pay_first (coinbase_tx_value_remaining msg).

Lemma round_silent outputs d s s' ds0 :
  silent s s' → round_made outputs s d ds0 → round_made outputs s' d ds0.
Proof.
  intros Hs. apply round_stable; [|by destruct Hs as [-> _]].
  apply (frame_recorded d), silent_frame, Hs.
Qed.

Lemma new_template_spec s :
  NoDup downstream_order → (∀ d, NoDup (channel_order d)) →
  wp (handle_new_template mode user_identity frame_fits downstream_order channel_order msg)
    (λ r s', ∀ a, r = Ok a → (∀ d, d ∉ downstream_order → downstreams s' !! d = downstreams s !! d) ∧
       ∃ outputs, outputs_for s = Some outputs ∧ ∀ d, d ∈ downstream_order →
         match downstreams s !! d with
         | None => downstreams s' !! d = None
         | Some ds0 => round_made outputs s' d ds0
         end) s.
Proof.
  intros Hnd Hc. unfold handle_new_template.
  apply silent_then; [silent_steps|intros _ s1 S1].
  apply silent_then; [silent_steps|intros _ s2 S2].
  unfold configured_outputs, template_outputs.
  apply wp_bind, wp_bind, wp_ask. cbn [andthen]. apply wp_some_or; [|by intros ? a].
  intros configured Ec. cbn [andthen].
  apply wp_bind, wp_some_or_crash. intros outputs Eo. cbn [andthen].
  assert (outputs_for s = Some outputs) as Hout.
  { unfold outputs_for. destruct S1 as (_ & <- & _), S2 as (_ & <- & _). by rewrite Ec. }
  apply silent_then.
  { unfold get_upstream_state, request_transaction_data, send_tp, forward_or_raise. silent_steps. }
  intros _ s3 S3. apply silent_then; [silent_steps|intros ready s4 S4].
  apply silent_then; [unfold pop_token; silent_steps|intros token s5 S5].
  apply silent_then; [unfold upstream_info; silent_steps|intros info s6 S6].
  apply silent_then; [silent_steps|intros ph s7 S7].
  assert (downstreams s7 = downstreams s) as E7.
  { destruct S1 as [<- _], S2 as [<- _], S3 as [<- _], S4 as [<- _], S5 as [<- _], S6 as [<- _]. apply S7. }
  apply wp_bind. eapply wp_mono; [|by apply rounds_spec].
  intros [messages|e] s8 (_ & F8 & H8); cbn [andthen]; [|by intros a]. rewrite E7 in F8, H8.
  apply silent_then; [case_match; [apply refill_silent|silent_steps]|intros _ s9 S9].
  eapply wp_mono; [|apply forward_silent]. intros r s10 S10 a _.
  assert (silent s8 s10) as S by by etrans.
  assert (downstreams s10 = downstreams s8) as E10 by apply S. split.
  { intros d Hd. rewrite E10. by apply F8. }
  exists outputs. split; [done|]. intros d Hd. specialize (H8 messages eq_refl d Hd).
  destruct (downstreams s !! d) as [ds0|]; [|by rewrite E10]. by eapply round_silent.
Qed.

(** ** The theorem *)

(** C15: When a new template has been handled without an error, no connection
    and no channel has come or gone, and every connection's group, and every
    standard channel of a connection that wants standard jobs, has taken the
    template with the outputs paying its value; every other channel, standard
    or extended, was handed the job the group made of it. For each of them the
    template is recorded under the id of just that job, so that shares for it
    can go upstream. *)
Theorem template_reaches_every_channel s s' :
  NoDup downstream_order → (∀ d, NoDup (channel_order d)) →
  (∀ d ds c, downstreams s !! d = Some ds →
     is_Some (standard_channels ds !! c) ∨ is_Some (extended_channels ds !! c) → c ∈ channel_order d) →
  (∀ d ds, downstreams s !! d = Some ds → d ∈ downstream_order) →
  handle_new_template mode user_identity frame_fits downstream_order channel_order msg s
    = Done (Ok tt, s') →
  dom (downstreams s') = dom (downstreams s) ∧
  ∃ outputs, outputs_for s = Some outputs ∧ ∀ d ds0, downstreams s !! d = Some ds0 →
    ∃ ds group, downstreams s' !! d = Some ds ∧
      dom (standard_channels ds) = dom (standard_channels ds0) ∧
      dom (extended_channels ds) = dom (extended_channels ds0) ∧
      grp_on_new_template (group_channel ds0) msg outputs = (Ok tt, group_channel ds) ∧
      group_made (group_channel ds) = Some group ∧
      (∀ c ch0, standard_channels ds0 !! c = Some ch0 → ∃ ch j,
         standard_channels ds !! c = Some ch ∧ recorded s' d c j ∧
         if require_std_job ds0
         then std_on_new_template ch0 msg outputs = (Ok tt, ch) ∧ own_made ch = Some j
         else std_on_group_channel_job ch0 group = (Ok tt, ch) ∧ j = ext_job_id group) ∧
      (∀ c ch0, extended_channels ds0 !! c = Some ch0 → ∃ ch,
         extended_channels ds !! c = Some ch ∧ recorded s' d c (ext_job_id group) ∧
         ext_on_group_channel_job ch0 group = (Ok tt, ch)).
Proof.
  intros Hnd Hc Hchans Hall E.
  destruct (wp_sound _ _ _ _ _ (new_template_spec s Hnd Hc) E tt eq_refl) as (F & outputs & Ho & Hmade).
  split.
  { apply set_eq. intros d. rewrite !elem_of_dom. destruct (decide (d ∈ downstream_order)) as [Hd|Hd];
      [|by rewrite F]. specialize (Hmade d Hd). destruct (downstreams s !! d) as [ds0|]; [|by rewrite Hmade].
    destruct Hmade as (ds & ? & -> & _). split; by eexists. }
  exists outputs. split; [done|]. intros d ds0 Hd. specialize (Hmade d (Hall _ _ Hd)). rewrite Hd in Hmade.
  destruct Hmade as (ds & group & ? & ? & ? & ? & ? & Hs & He). exists ds, group. split_and!; [done..| |].
  - intros c ch0 Hch. destruct (Hs c ch0) as (ch & j & ? & ? & ?); [|done|by exists ch, j].
    eapply Hchans; [done|]. left. by eexists.
  - intros c ch0 Hch. destruct (He c ch0) as (ch & j & ? & [? ->] & ?); [|done|by exists ch].
    eapply Hchans; [done|]. right. by eexists.
Qed.
End jobs.
