(* ===== verification/ClientChannels.v ===== *)
(** * Client-side mining channels

    The channels of the [channels_sv2] crate that a proxy keeps towards its
    upstream, and the messages of the mining protocol it receives and sends.
    The crate is outside the repository: [ClientChannels] is what the
    translator uses of it, and [ClientLaws] what some theorems rely on.  A
    method with [&mut self] returns the object it leaves. *)
From S2P Require Import Prelude Bitcoin ShareCache.

(** ** Messages of the mining protocol *)
Record NewExtendedMiningJob : Type := {
  nj_channel_id : N; nj_job_id : N; nj_min_ntime : option N; nj_version : N;
  version_rolling_allowed : bool; nj_merkle_path : list N;
  nj_coinbase_tx_prefix : list byte; nj_coinbase_tx_suffix : list byte;
}.

Record SetNewPrevHash : Type := {
  snp_channel_id : N; snp_job_id : N; snp_prev_hash : N; snp_min_ntime : N; snp_nbits : N;
}.

Record OpenExtendedMiningChannelSuccess : Type := {
  oes_request_id : N; oes_channel_id : N; oes_target : N; oes_extranonce_size : N;
  oes_extranonce_prefix : list byte; oes_group_channel_id : N;
}.

#[export] Instance NewExtendedMiningJob_eq_dec : EqDecision NewExtendedMiningJob.
Proof. solve_decision. Defined.
#[export] Instance SetNewPrevHash_eq_dec : EqDecision SetNewPrevHash.
Proof. solve_decision. Defined.
#[export] Instance OpenExtendedMiningChannelSuccess_eq_dec :
  EqDecision OpenExtendedMiningChannelSuccess.
Proof. solve_decision. Defined.

(** [message.channel_id = c]. *)
Definition job_for (c : N) (m : NewExtendedMiningJob) : NewExtendedMiningJob :=
  {| nj_channel_id := c; nj_job_id := nj_job_id m; nj_min_ntime := nj_min_ntime m;
     nj_version := nj_version m; version_rolling_allowed := version_rolling_allowed m;
     nj_merkle_path := nj_merkle_path m; nj_coinbase_tx_prefix := nj_coinbase_tx_prefix m;
     nj_coinbase_tx_suffix := nj_coinbase_tx_suffix m |}.

Definition prev_hash_for (c : N) (m : SetNewPrevHash) : SetNewPrevHash :=
  {| snp_channel_id := c; snp_job_id := snp_job_id m; snp_prev_hash := snp_prev_hash m;
     snp_min_ntime := snp_min_ntime m; snp_nbits := snp_nbits m |}.

(** ** The channels *)
Class ClientChannels : Type := {
  (** Hash rates ([f32]). *)
  Hashrate : Type;
  (** Errors of the crate. *)
  ExtranonceAllocatorError : Type;
  ExtendedChannelError : Type;
  GroupChannelError : Type;
  (** [NewExtendedMiningJob::is_future]. *)
  is_future : NewExtendedMiningJob → bool;
  (** [ExtranoncePrefix]: its bytes, the first of which the upstream owns. *)
  ExtranoncePrefix : Type;
  prefix_bytes : ExtranoncePrefix → list byte;
  prefix_upstream_len : ExtranoncePrefix → N;
  from_wire : list byte → result ExtranoncePrefix ExtranonceAllocatorError;
  (** [ExtranonceAllocator]; dropping a prefix releases its slot.  The last
      two arguments of [from_upstream_prefix] are the size of the whole
      extranonce and the maximum number of channels. *)
  ExtranonceAllocator : Type;
  bytes_needed : N → N;
  MAX_EXTRANONCE_LEN : N;
  from_upstream_prefix : list byte → list byte → N → N →
    result ExtranonceAllocator ExtranonceAllocatorError;
  allocate_extended : ExtranonceAllocator → N →
    result ExtranoncePrefix ExtranonceAllocatorError * ExtranonceAllocator;
  upstream_prefix : ExtranonceAllocator → list byte;
  upstream_prefix_len : ExtranonceAllocator → N;
  rollable_extranonce_size : ExtranonceAllocator → N;
  set_upstream_prefix : ExtranonceAllocator → list byte →
    result unit ExtranonceAllocatorError * ExtranonceAllocator;
  release_prefix : ExtranonceAllocator → ExtranoncePrefix → ExtranonceAllocator;
  (** [ExtendedJob]: the message of a job, the prefix and the target it
      captured when it arrived. *)
  ExtendedJob : Type;
  job_message : ExtendedJob → NewExtendedMiningJob;
  job_extranonce_prefix : ExtendedJob → list byte;
  job_target : ExtendedJob → N;
  (** [ExtendedChannel]; its constructor takes channel id, user identity,
      prefix, target, hash rate, version rolling, rollable size and the cap
      on past jobs. *)
  ChainTip : Type;
  ExtendedChannel : Type;
  ext_new : N → string → ExtranoncePrefix → N → Hashrate → bool → N → option N →
    result ExtendedChannel ExtendedChannelError;
  get_channel_id : ExtendedChannel → N;
  ext_prefix : ExtendedChannel → ExtranoncePrefix;
  get_target : ExtendedChannel → N;
  get_rollable_extranonce_size : ExtendedChannel → N;
  get_full_extranonce_size : ExtendedChannel → N;
  get_active_job : ExtendedChannel → option ExtendedJob;
  get_future_jobs : ExtendedChannel → list (N * ExtendedJob);
  get_chain_tip : ExtendedChannel → option ChainTip;
  set_chain_tip : ExtendedChannel → ChainTip → ExtendedChannel;
  set_target : ExtendedChannel → N → result unit ExtendedChannelError * ExtendedChannel;
  set_nominal_hashrate : ExtendedChannel → Hashrate → ExtendedChannel;
  set_upstream_extranonce_prefix : ExtendedChannel → list byte →
    result unit ExtranonceAllocatorError * ExtendedChannel;
  on_new_extended_mining_job : ExtendedChannel → NewExtendedMiningJob →
    result unit ExtendedChannelError * ExtendedChannel;
  on_set_new_prev_hash : ExtendedChannel → SetNewPrevHash →
    result unit ExtendedChannelError * ExtendedChannel;
  validate_share : ExtendedChannel → SubmitSharesExtended →
    result unit ShareValidationError * ExtendedChannel;
  on_share_acknowledgement : ExtendedChannel → N → N → ExtendedChannel;
  on_share_rejection : ExtendedChannel → string → ExtendedChannel;
  (** [GroupChannel]. *)
  GroupChannel : Type;
  grp_new : N → GroupChannel;
  grp_add_channel_id : GroupChannel → N → N → result unit GroupChannelError * GroupChannel;
  grp_remove_channel_id : GroupChannel → N → GroupChannel;
  grp_has_channel_id : GroupChannel → N → bool;
  grp_get_channel_ids : GroupChannel → list N;
  grp_is_empty : GroupChannel → bool;
  grp_get_full_extranonce_size : GroupChannel → option N;
  grp_on_new_extended_mining_job : GroupChannel → NewExtendedMiningJob → GroupChannel;
  grp_on_set_new_prev_hash : GroupChannel → SetNewPrevHash →
    result unit GroupChannelError * GroupChannel;
  (** [UserIdentity] of the extension for worker hash rates. *)
  UserIdentity : Type;
  user_identity_new : string → option UserIdentity;
  MAX_USER_IDENTITY_LENGTH : nat;
  EXTENSION_TYPE_WORKER_HASHRATE_TRACKING : N;
  (** Message types and error codes of the protocol crates. *)
  MESSAGE_TYPE_OPEN_STANDARD_MINING_CHANNEL_SUCCESS : N;
  MESSAGE_TYPE_SET_CUSTOM_MINING_JOB_SUCCESS : N;
  MESSAGE_TYPE_SET_CUSTOM_MINING_JOB_ERROR : N;
  ERROR_CODE_OPEN_MINING_CHANNEL_CHANNEL_CAPACITY_EXHAUSTED : string;
  ERROR_CODE_OPEN_MINING_CHANNEL_UNSUPPORTED_MIN_EXTRANONCE_SIZE : string;
}.

Section client.
Context `{ClientChannels}.

(** [get_extranonce_prefix] and [upstream_prefix_len] of a channel. *)
Definition get_extranonce_prefix (c : ExtendedChannel) : list byte := prefix_bytes (ext_prefix c).
Definition ext_upstream_prefix_len (c : ExtendedChannel) : N := prefix_upstream_len (ext_prefix c).

(** The bytes of a prefix after the upstream's:
    [local_prefix | local_index]. *)
Definition local_bytes (p : ExtranoncePrefix) : list byte :=
  drop (N.to_nat (prefix_upstream_len p)) (prefix_bytes p).

Record OpenExtendedMiningChannel : Type := {
  oec_request_id : N; oec_user_identity : string; oec_nominal_hash_rate : Hashrate;
  oec_max_target : N; oec_min_extranonce_size : N;
}.
Record UpdateChannel : Type := {
  uc_channel_id : N; uc_nominal_hash_rate : Hashrate; uc_maximum_target : N;
}.
End client.

(** ** Laws

    What the crate documents: an operation of a channel keeps its id, prefix
    and rollable size, a change of the upstream's part of a prefix keeps the
    local part, a job captures the channel's prefix and target, a group holds
    the channels added and not removed, and the allocator gives a new local
    part, all of one length, to every prefix it hands out. *)
Section same.
Context `{ClientChannels}.

Record same_identity (c c' : ExtendedChannel) : Prop := {
  same_id : get_channel_id c' = get_channel_id c;
  same_prefix : ext_prefix c' = ext_prefix c;
  same_rollable : get_rollable_extranonce_size c' = get_rollable_extranonce_size c;
}.

(** The jobs a channel may still hand out. *)
Definition has_job (c : ExtendedChannel) (j : ExtendedJob) : Prop :=
  get_active_job c = Some j ∨ j ∈ (get_future_jobs c).*2.

Definition same_jobs (c c' : ExtendedChannel) : Prop :=
  get_active_job c' = get_active_job c ∧ get_future_jobs c' = get_future_jobs c.

(** What stays of a message in the job made of it. *)
Definition same_work (m m' : NewExtendedMiningJob) : Prop :=
  nj_channel_id m' = nj_channel_id m ∧ nj_job_id m' = nj_job_id m ∧
  version_rolling_allowed m' = version_rolling_allowed m ∧
  nj_coinbase_tx_prefix m' = nj_coinbase_tx_prefix m ∧
  nj_coinbase_tx_suffix m' = nj_coinbase_tx_suffix m.

(** [j] is the job [c] makes of the message [m]. *)
Definition captures (c : ExtendedChannel) (m : NewExtendedMiningJob) (j : ExtendedJob) : Prop :=
  same_work m (job_message j) ∧ job_extranonce_prefix j = get_extranonce_prefix c ∧
  job_target j = get_target c.

Definition same_members (g g' : GroupChannel) : Prop :=
  ∀ c, c ∈ grp_get_channel_ids g' ↔ c ∈ grp_get_channel_ids g.

(** The parts of an allocator a client can rely on. *)
Record same_layout (a a' : ExtranonceAllocator) : Prop := {
  same_upstream : upstream_prefix a' = upstream_prefix a;
  same_rollable_size : rollable_extranonce_size a' = rollable_extranonce_size a;
}.

#[export] Instance same_identity_preorder : PreOrder same_identity.
Proof. split; [by split|intros ??? [] []; split; congruence]. Qed.
#[export] Instance same_jobs_preorder : PreOrder same_jobs.
Proof. split; [by split|]. intros ??? [] []. split; congruence. Qed.
#[export] Instance same_work_preorder : PreOrder same_work.
Proof. split; [by repeat split|]. intros ??? (?&?&?&?&?) (?&?&?&?&?). repeat split; congruence. Qed.
#[export] Instance same_members_preorder : PreOrder same_members.
Proof. split; [done|]. intros ??? H1 H2 c. by rewrite (H2 c). Qed.
End same.

Class ClientLaws (CC : ClientChannels) : Type := {
  (** The local parts of the prefixes an allocator counts as used. *)
  live : ExtranonceAllocator → list byte → Prop;
  live_length a l l' : live a l → live a l' → length l = length l';
  from_wire_spec bs p : from_wire bs = Ok p →
    prefix_bytes p = bs ∧ prefix_upstream_len p = N.of_nat (length bs);
  allocator_new up pad total n a : from_upstream_prefix up pad total n = Ok a →
    upstream_prefix a = up ∧ (∀ l, ¬ live a l) ∧
    total = N.of_nat (length up) + N.of_nat (length pad) + bytes_needed n + rollable_extranonce_size a;
  upstream_prefix_len_spec a : upstream_prefix_len a = N.of_nat (length (upstream_prefix a));
  allocate_spec a n p a' : allocate_extended a n = (Ok p, a') →
    prefix_bytes p = upstream_prefix a ++ local_bytes p ∧
    prefix_upstream_len p = N.of_nat (length (upstream_prefix a)) ∧
    ¬ live a (local_bytes p) ∧ (∀ l, live a' l ↔ l = local_bytes p ∨ live a l) ∧ same_layout a a';
  allocate_failed a n e a' : allocate_extended a n = (Err e, a') →
    (∀ l, live a' l ↔ live a l) ∧ same_layout a a';
  set_upstream_spec a up a' : set_upstream_prefix a up = (Ok tt, a') →
    upstream_prefix a' = up ∧ rollable_extranonce_size a' = rollable_extranonce_size a ∧
    (∀ l, live a' l ↔ live a l);
  set_upstream_failed a up e a' : set_upstream_prefix a up = (Err e, a') →
    (∀ l, live a' l ↔ live a l) ∧ same_layout a a';
  release_spec a p : same_layout a (release_prefix a p) ∧
    ∀ l, live (release_prefix a p) l ↔ live a l ∧ l ≠ local_bytes p;
  ext_new_spec i u p t h v n k c : ext_new i u p t h v n k = Ok c →
    get_channel_id c = i ∧ ext_prefix c = p ∧ get_rollable_extranonce_size c = n ∧
    get_active_job c = None ∧ get_future_jobs c = [];
  full_size_spec c : get_full_extranonce_size c =
    N.of_nat (length (get_extranonce_prefix c)) + get_rollable_extranonce_size c;
  set_chain_tip_keeps c t : same_identity c (set_chain_tip c t) ∧ same_jobs c (set_chain_tip c t);
  set_target_keeps c t : same_identity c (set_target c t).2 ∧ same_jobs c (set_target c t).2;
  set_hashrate_keeps c h :
    same_identity c (set_nominal_hashrate c h) ∧ same_jobs c (set_nominal_hashrate c h);
  validate_share_keeps c m :
    same_identity c (validate_share c m).2 ∧ same_jobs c (validate_share c m).2;
  acknowledgement_keeps c n w :
    same_identity c (on_share_acknowledgement c n w) ∧ same_jobs c (on_share_acknowledgement c n w);
  rejection_keeps c code :
    same_identity c (on_share_rejection c code) ∧ same_jobs c (on_share_rejection c code);
  set_prefix_keeps c up : same_jobs c (set_upstream_extranonce_prefix c up).2 ∧
    get_channel_id (set_upstream_extranonce_prefix c up).2 = get_channel_id c ∧
    get_rollable_extranonce_size (set_upstream_extranonce_prefix c up).2 =
      get_rollable_extranonce_size c ∧
    local_bytes (ext_prefix (set_upstream_extranonce_prefix c up).2) = local_bytes (ext_prefix c);
  set_prefix_spec c up c' : set_upstream_extranonce_prefix c up = (Ok tt, c') →
    get_extranonce_prefix c' = up ++ local_bytes (ext_prefix c) ∧
    ext_upstream_prefix_len c' = N.of_nat (length up);
  set_prefix_failed c up e c' : set_upstream_extranonce_prefix c up = (Err e, c') →
    ext_prefix c' = ext_prefix c;
  new_job_identity c m : same_identity c (on_new_extended_mining_job c m).2;
  new_job_jobs c m j : has_job (on_new_extended_mining_job c m).2 j → has_job c j ∨ captures c m j;
  new_job_active c m c' : on_new_extended_mining_job c m = (Ok tt, c') → is_future m = false →
    ∃ j, get_active_job c' = Some j ∧ captures c m j;
  prev_hash_identity c m : same_identity c (on_set_new_prev_hash c m).2;
  (** A promoted job may be stamped with the time of the new tip. *)
  prev_hash_jobs c m j : has_job (on_set_new_prev_hash c m).2 j →
    ∃ j0, has_job c j0 ∧ same_work (job_message j0) (job_message j) ∧
      job_extranonce_prefix j = job_extranonce_prefix j0;
  prev_hash_active c m c' : on_set_new_prev_hash c m = (Ok tt, c') → is_Some (get_active_job c');
  grp_new_spec i : grp_get_channel_ids (grp_new i) = [];
  grp_ids_nodup g : NoDup (grp_get_channel_ids g);
  grp_has_spec g c : grp_has_channel_id g c = true ↔ c ∈ grp_get_channel_ids g;
  grp_empty_spec g : grp_is_empty g = true ↔ grp_get_channel_ids g = [];
  grp_add_spec g c n g' : grp_add_channel_id g c n = (Ok tt, g') →
    ∀ c', c' ∈ grp_get_channel_ids g' ↔ c' = c ∨ c' ∈ grp_get_channel_ids g;
  grp_remove_spec g c c' :
    c' ∈ grp_get_channel_ids (grp_remove_channel_id g c) ↔ c' ∈ grp_get_channel_ids g ∧ c' ≠ c;
  grp_job_keeps g m : same_members g (grp_on_new_extended_mining_job g m);
  grp_prev_hash_keeps g m : same_members g (grp_on_set_new_prev_hash g m).2;
}.
