(* ===== verification/TproxyManager.v ===== *)
(** * Translator: SV2 channel manager
    ([miner-apps/translator/src/lib/sv2/channel_manager/mod.rs],
    [mining_message_handler.rs], [extensions_message_handler.rs],
    [utils.rs], [error.rs])

    The manager keeps the extended channels the translator has opened at its
    upstream: one per SV1 miner, or a single one that all miners share
    (aggregated mode).  It turns the upstream's messages into messages to the
    SV1 server and the miners' shares into shares of the upstream channel.
    The handlers are programs of [Handler] over the manager's state; they run
    one after the other in its loop, and as the queues are unbounded they never
    wait.

    A channel owns its extranonce prefix: where the code drops a channel, the
    model releases the prefix.  [DashMap] promises no order of iteration: a
    handler that iterates takes [ord], which lists a set of keys.  Locks are
    never found poisoned, and encoding a message never fails. *)
From Stdlib Require Import Ascii.
From S2P Require Import Prelude Handler SharedMap Bitcoin Payout ShareCache ClientChannels.

(** [AGGREGATED_CHANNEL_ID]: the key of the channel all miners share. *)
Definition AGGREGATED_CHANNEL_ID : N := 4294967295.
Definition AGGREGATED_TPROXY_MAX_CHANNELS : N := 65536.
Definition NON_AGGREGATED_TPROXY_MAX_CHANNELS : N := 1.

Inductive AggregatedState : Type := NoChannel | Pending | Connected.
Inductive TproxyMode : Type := Aggregated | NonAggregated.

#[export] Instance AggregatedState_eq_dec : EqDecision AggregatedState.
Proof. solve_decision. Defined.
#[export] Instance TproxyMode_eq_dec : EqDecision TproxyMode.
Proof. solve_decision. Defined.

Definition is_aggregated (m : TproxyMode) : bool := bool_decide (m = Aggregated).

Inductive Action : Type := Log | Disconnect (downstream_id : N) | Fallback | Shutdown.
Inductive LoopControl : Type := Continue | Break.

(** ** User identities *)

(** [aggregated_upstream_user_identity]. *)
Definition aggregated_upstream_user_identity (user_identity : string) : string :=
  if String.prefix "sri/" user_identity then user_identity
  else (before_sep "."%char user_identity +:+ ".translator-proxy")%string.

(** [Str0255::try_from]. *)
Definition fits_str0255 (s : string) : bool := (String.length s <=? 255)%nat.

(** [str::is_char_boundary] of a string of UTF-8 bytes. *)
Definition continuation_byte (c : Ascii.ascii) : bool :=
  let n := Ascii.N_of_ascii c in (128 <=? n)%N && (n <? 192)%N.
Definition is_char_boundary (s : string) (i : nat) : bool :=
  if (i =? 0)%nat then true
  else match String.get i s with
       | Some c => negb (continuation_byte c)
       | None => (i =? String.length s)%nat
       end.

(** [while end > 0 && !s.is_char_boundary(end) { end -= 1 }]. *)
Fixpoint floor_char_boundary (s : string) (e : nat) : nat :=
  match e with
  | O => O
  | S e' => if is_char_boundary s e then e else floor_char_boundary s e'
  end.

(** The state of [ChannelManager] and the handlers over it. *)
Section manager.
Context `{BitcoinApi} `{AddressApi} `{CC : ClientChannels}.

(** ** Errors *)

(** The kinds of [TproxyErrorKind] the manager raises. *)
Inductive TproxyErrorKind : Type :=
| ChannelErrorReceiver | ChannelErrorSender | BinarySv2
| UnexpectedMessage (extension_type message_type : N)
| InvalidUserIdentity (identity : string)
| PendingChannelNotFound (request_id : N)
| ChannelIdAlreadyInUse (id : N)
| FailedToAddChannelIdToGroupChannel (e : GroupChannelError)
| OpenMiningChannelError
| AggregatedChannelClosed
| ChannelNotFound
| InvalidExtranonceSize (prefix_len rollable_size : N)
| MissingAggregatedExtranonceAllocator
| AggregatedExtranonceAllocatorUpdateFailed (e : ExtranonceAllocatorError)
| UpstreamExtranoncePrefixUpdateFailed (channel_id : N) (e : ExtranonceAllocatorError)
| VersionRollingNotAllowed
| FailedToProcessNewExtendedMiningJob
| FailedToProcessSetNewPrevHash
| FailedToProcessSetTarget
| PayoutVerificationFailed (e : PayoutValidationError)
| RequiredExtensionsMissing (missing : list N)
| RequiredExtensionsNotSupported (missing : list N)
| ServerRequiresUnsupportedExtensions (unsupported : list N).

Record TproxyError : Type := { kind : TproxyErrorKind; action : Action }.
Definition log (k : TproxyErrorKind) : TproxyError := {| kind := k; action := Log |}.
Definition fallback (k : TproxyErrorKind) : TproxyError := {| kind := k; action := Fallback |}.
Definition shutdown (k : TproxyErrorKind) : TproxyError := {| kind := k; action := Shutdown |}.

(** ** State *)

(** Messages to the upstream server; a share may carry its worker's name. *)
Inductive UpstreamMessage : Type :=
| UpOpenExtendedMiningChannel (m : OpenExtendedMiningChannel)
| UpSubmitSharesExtended (m : SubmitSharesExtended) (worker : option UserIdentity)
| UpUpdateChannel (m : UpdateChannel)
| UpCloseChannel (channel_id : N) (reason_code : string)
| UpRequestExtensions (request_id : N) (requested_extensions : list N).

(** Messages to the SV1 server. *)
Inductive Sv1Message : Type :=
| DownOpenSuccess (m : OpenExtendedMiningChannelSuccess)
| DownOpenError (request_id : N) (error_code : string)
| DownNewExtendedMiningJob (m : NewExtendedMiningJob)
| DownSetNewPrevHash (m : SetNewPrevHash)
| DownSetTarget (channel_id target : N)
| DownSetExtranoncePrefix (channel_id : N) (extranonce_prefix : list byte)
| DownCloseChannel (channel_id : N) (reason_code : string).

(** [ChannelManagerIo]: whether the receivers are still there, and what was
    sent, in order. *)
Record ChannelManagerIo : Type := {
  upstream_open : bool; sv1_open : bool;
  to_upstream : list UpstreamMessage; to_sv1 : list Sv1Message;
}.

Record ChannelManager : Type := {
  channel_manager_io : ChannelManagerIo;
  pending_downstream_channels : gmap N (string * Hashrate * N);
  extended_channels : gmap N ExtendedChannel;
  sv1_advertised_extranonce_prefixes : gmap N (list byte);
  group_channels : gmap N GroupChannel;
  share_sequence_counters : gmap N N;
  negotiated_extensions : list N;
  aggregated_extranonce_allocator : option ExtranonceAllocator;
  aggregated_channel_state : AggregatedState;
  expected_payout_distribution : option (option PayoutMode);
}.

Definition put_io (io : ChannelManagerIo) (s : ChannelManager) : ChannelManager :=
  {| channel_manager_io := io; pending_downstream_channels := pending_downstream_channels s;
     extended_channels := extended_channels s;
     sv1_advertised_extranonce_prefixes := sv1_advertised_extranonce_prefixes s;
     group_channels := group_channels s; share_sequence_counters := share_sequence_counters s;
     negotiated_extensions := negotiated_extensions s;
     aggregated_extranonce_allocator := aggregated_extranonce_allocator s;
     aggregated_channel_state := aggregated_channel_state s;
     expected_payout_distribution := expected_payout_distribution s |}.
Definition put_pending (m : gmap N (string * Hashrate * N)) (s : ChannelManager) : ChannelManager :=
  {| channel_manager_io := channel_manager_io s; pending_downstream_channels := m;
     extended_channels := extended_channels s;
     sv1_advertised_extranonce_prefixes := sv1_advertised_extranonce_prefixes s;
     group_channels := group_channels s; share_sequence_counters := share_sequence_counters s;
     negotiated_extensions := negotiated_extensions s;
     aggregated_extranonce_allocator := aggregated_extranonce_allocator s;
     aggregated_channel_state := aggregated_channel_state s;
     expected_payout_distribution := expected_payout_distribution s |}.
Definition put_channels (m : gmap N ExtendedChannel) (s : ChannelManager) : ChannelManager :=
  {| channel_manager_io := channel_manager_io s;
     pending_downstream_channels := pending_downstream_channels s;
     extended_channels := m;
     sv1_advertised_extranonce_prefixes := sv1_advertised_extranonce_prefixes s;
     group_channels := group_channels s; share_sequence_counters := share_sequence_counters s;
     negotiated_extensions := negotiated_extensions s;
     aggregated_extranonce_allocator := aggregated_extranonce_allocator s;
     aggregated_channel_state := aggregated_channel_state s;
     expected_payout_distribution := expected_payout_distribution s |}.
Definition put_advertised (m : gmap N (list byte)) (s : ChannelManager) : ChannelManager :=
  {| channel_manager_io := channel_manager_io s;
     pending_downstream_channels := pending_downstream_channels s;
     extended_channels := extended_channels s;
     sv1_advertised_extranonce_prefixes := m;
     group_channels := group_channels s; share_sequence_counters := share_sequence_counters s;
     negotiated_extensions := negotiated_extensions s;
     aggregated_extranonce_allocator := aggregated_extranonce_allocator s;
     aggregated_channel_state := aggregated_channel_state s;
     expected_payout_distribution := expected_payout_distribution s |}.
Definition put_groups (m : gmap N GroupChannel) (s : ChannelManager) : ChannelManager :=
  {| channel_manager_io := channel_manager_io s;
     pending_downstream_channels := pending_downstream_channels s;
     extended_channels := extended_channels s;
     sv1_advertised_extranonce_prefixes := sv1_advertised_extranonce_prefixes s;
     group_channels := m; share_sequence_counters := share_sequence_counters s;
     negotiated_extensions := negotiated_extensions s;
     aggregated_extranonce_allocator := aggregated_extranonce_allocator s;
     aggregated_channel_state := aggregated_channel_state s;
     expected_payout_distribution := expected_payout_distribution s |}.
Definition put_counters (m : gmap N N) (s : ChannelManager) : ChannelManager :=
  {| channel_manager_io := channel_manager_io s;
     pending_downstream_channels := pending_downstream_channels s;
     extended_channels := extended_channels s;
     sv1_advertised_extranonce_prefixes := sv1_advertised_extranonce_prefixes s;
     group_channels := group_channels s; share_sequence_counters := m;
     negotiated_extensions := negotiated_extensions s;
     aggregated_extranonce_allocator := aggregated_extranonce_allocator s;
     aggregated_channel_state := aggregated_channel_state s;
     expected_payout_distribution := expected_payout_distribution s |}.
Definition put_negotiated (l : list N) (s : ChannelManager) : ChannelManager :=
  {| channel_manager_io := channel_manager_io s;
     pending_downstream_channels := pending_downstream_channels s;
     extended_channels := extended_channels s;
     sv1_advertised_extranonce_prefixes := sv1_advertised_extranonce_prefixes s;
     group_channels := group_channels s; share_sequence_counters := share_sequence_counters s;
     negotiated_extensions := l;
     aggregated_extranonce_allocator := aggregated_extranonce_allocator s;
     aggregated_channel_state := aggregated_channel_state s;
     expected_payout_distribution := expected_payout_distribution s |}.
Definition put_aggregate (a : option ExtranonceAllocator) (st : AggregatedState)
    (s : ChannelManager) : ChannelManager :=
  {| channel_manager_io := channel_manager_io s;
     pending_downstream_channels := pending_downstream_channels s;
     extended_channels := extended_channels s;
     sv1_advertised_extranonce_prefixes := sv1_advertised_extranonce_prefixes s;
     group_channels := group_channels s; share_sequence_counters := share_sequence_counters s;
     negotiated_extensions := negotiated_extensions s;
     aggregated_extranonce_allocator := a; aggregated_channel_state := st;
     expected_payout_distribution := expected_payout_distribution s |}.
Definition put_payout (p : option (option PayoutMode)) (s : ChannelManager) : ChannelManager :=
  {| channel_manager_io := channel_manager_io s;
     pending_downstream_channels := pending_downstream_channels s;
     extended_channels := extended_channels s;
     sv1_advertised_extranonce_prefixes := sv1_advertised_extranonce_prefixes s;
     group_channels := group_channels s; share_sequence_counters := share_sequence_counters s;
     negotiated_extensions := negotiated_extensions s;
     aggregated_extranonce_allocator := aggregated_extranonce_allocator s;
     aggregated_channel_state := aggregated_channel_state s;
     expected_payout_distribution := p |}.

Definition put_allocator (a : option ExtranonceAllocator) (s : ChannelManager) : ChannelManager :=
  put_aggregate a (aggregated_channel_state s) s.

(** [ChannelManager::new]. *)
Definition new_manager : ChannelManager :=
  {| channel_manager_io :=
       {| upstream_open := true; sv1_open := true; to_upstream := []; to_sv1 := [] |};
     pending_downstream_channels := ∅; extended_channels := ∅;
     sv1_advertised_extranonce_prefixes := ∅; group_channels := ∅; share_sequence_counters := ∅;
     negotiated_extensions := []; aggregated_extranonce_allocator := None;
     aggregated_channel_state := NoChannel; expected_payout_distribution := None |}.

Definition handler (A : Type) : Type := prog ChannelManager TproxyError A.

(** [extended_channels.with_mut]. *)
Definition with_channel {A} (k : N) (absent : handler A) (p : prog ExtendedChannel TproxyError A)
    : handler A :=
  focus extended_channels put_channels k absent p.

(** ** Configuration *)
Context (mode : TproxyMode) (max_past_jobs : option N).
Context (supported_extensions required_extensions : list N).

(** ** Sending *)
Definition send_sv1 (m : Sv1Message) : handler unit :=
  io ← ask channel_manager_io;
  if sv1_open io then
    update (put_io {| upstream_open := upstream_open io; sv1_open := sv1_open io;
                      to_upstream := to_upstream io; to_sv1 := to_sv1 io ++ [m] |})
  else raise (shutdown ChannelErrorSender).

Definition send_upstream (m : UpstreamMessage) : handler unit :=
  io ← ask channel_manager_io;
  if upstream_open io then
    update (put_io {| upstream_open := upstream_open io; sv1_open := sv1_open io;
                      to_upstream := to_upstream io ++ [m]; to_sv1 := to_sv1 io |})
  else raise (fallback ChannelErrorSender).

(** [set_expected_payout_distribution], and the getter. *)
Definition set_expected_payout_distribution (p : option PayoutMode) : handler unit :=
  old ← ask expected_payout_distribution;
  match old with Some _ => crash | None => update (put_payout (Some p)) end.

(** Dropping a prefix. *)
Definition drop_prefix (p : ExtranoncePrefix) : handler unit :=
  update (λ s, put_allocator ((λ a, release_prefix a p) <$> aggregated_extranonce_allocator s) s).

(** ** Jobs on their way to the SV1 server *)

(** What one channel contributes to [active_job_extranonce_prefixes]. *)
Definition active_prefix (m : NewExtendedMiningJob) (c : N) (ch : ExtendedChannel)
    : option (N * list byte) :=
  match get_active_job ch with
  | Some j => if decide (nj_job_id (job_message j) = nj_job_id m)
              then Some (c, job_extranonce_prefix j) else None
  | None => None
  end.

(** [active_job_extranonce_prefixes]. *)
Definition active_job_extranonce_prefixes (ord : gset N → list N) (m : NewExtendedMiningJob)
    (s : ChannelManager) : option (list (N * list byte)) :=
  let one c := extended_channels s !! c ≫= active_prefix m c in
  if decide (nj_channel_id m = AGGREGATED_CHANNEL_ID) then
    mapM one (filter (λ c, c ≠ AGGREGATED_CHANNEL_ID) (ord (dom (extended_channels s))))
  else (λ p, [p]) <$> one (nj_channel_id m).

(** A message that tells a miner its prefix, and the note of it. *)
Definition advertise (m : Sv1Message) (c : N) (prefix : list byte) : handler unit :=
  send_sv1 m;;
  update (λ s, put_advertised (<[c := prefix]> (sv1_advertised_extranonce_prefixes s)) s).

(** The body of its loop: announce the prefix where it changed. *)
Definition announce_prefix (cp : N * list byte) : handler unit :=
  let '(c, prefix) := cp in
  advertised ← ask (λ s, sv1_advertised_extranonce_prefixes s !! c);
  advertised ← some_or advertised (shutdown ChannelNotFound);
  if decide (advertised = prefix) then mret tt
  else
    ensure (fits_b032 prefix) (shutdown BinarySv2);;
    advertise (DownSetExtranoncePrefix c prefix) c prefix.

(** [forward_job_to_sv1_server]. *)
Definition forward_job_to_sv1_server (ord : gset N → list N) (m : NewExtendedMiningJob)
    : handler unit :=
  prefixes ← ask (active_job_extranonce_prefixes ord m);
  prefixes ← some_or prefixes (fallback FailedToProcessNewExtendedMiningJob);
  for_each prefixes announce_prefix;;
  send_sv1 (DownNewExtendedMiningJob m).

(** [reject_downstream_channel_request]. *)
Definition reject_downstream_channel_request (request_id : N) (code : string) : handler unit :=
  send_sv1 (DownOpenError request_id code).

(** ** Channel ids in aggregated mode *)

(** [(1..AGGREGATED_CHANNEL_ID).find(..)], from [k] on; the search meets a
    free id before it has passed all ids in use. *)
Fixpoint find_gap (fuel : nat) (k : N) (used : gset N) : option N :=
  match fuel with
  | O => None
  | S fuel' =>
      if (k <? AGGREGATED_CHANNEL_ID)%N then
        if decide (k ∈ used) then find_gap fuel' (k + 1) used else Some k
      else None
  end.

Definition highest_id (ids : list N) : N :=
  foldl (λ m c, if decide (c ≠ AGGREGATED_CHANNEL_ID) then N.max m c else m) 0 ids.

Definition next_channel_id (ord : gset N → list N) (used : gset N) : option N :=
  let next := highest_id (ord used) + 1 in
  if decide (next < 4294967296 ∧ next ≠ AGGREGATED_CHANNEL_ID) then Some next
  else find_gap (S (size used)) 1 used.

(** ** A miner's channel in aggregated mode *)

(** [(n as u16)]. *)
Definition as_u16 (n : N) : N := n mod 65536.

(** A child channel is given the jobs of the aggregated channel, each under
    the prefix and target it had captured; what it returns is the prefix the
    miner is told. *)
Definition replay_job (id : N) (j : ExtendedJob) : prog ExtendedChannel TproxyError unit :=
  r ← transact (λ c, set_upstream_extranonce_prefix c (job_extranonce_prefix j));
  ok_or_raise r (λ e, shutdown (UpstreamExtranoncePrefixUpdateFailed id e));;
  r ← transact (λ c, set_target c (job_target j));
  ok_or_raise r (λ _, shutdown FailedToProcessNewExtendedMiningJob);;
  r ← transact (λ c, on_new_extended_mining_job c (job_for id (job_message j)));
  ok_or_raise r (λ _, shutdown FailedToProcessNewExtendedMiningJob).

Definition initialize_channel (id target : N) (current : list byte) (active : option ExtendedJob)
    (futures : list ExtendedJob) (tip : option ChainTip)
    : prog ExtendedChannel TproxyError (list byte) :=
  let initial := match active with Some j => job_extranonce_prefix j | None => current end in
  r ← transact (λ c, set_upstream_extranonce_prefix c initial);
  ok_or_raise r (λ e, shutdown (UpstreamExtranoncePrefixUpdateFailed id e));;
  success ← ask get_extranonce_prefix;
  update (λ c, match tip with Some t => set_chain_tip c t | None => c end);;
  for_each (option_list active ++ futures) (replay_job id);;
  r ← transact (λ c, set_upstream_extranonce_prefix c current);
  ok_or_raise r (λ e, shutdown (UpstreamExtranoncePrefixUpdateFailed id e));;
  r ← transact (λ c, set_target c target);
  ok_or_raise r (λ _, shutdown FailedToProcessNewExtendedMiningJob);;
  mret success.

(** From the id on. *)
Definition open_child (ord : gset N → list N) (request_id id : N) (user_identity : string)
    (hashrate : Hashrate) (min_extranonce_size : N) (aggregate : ExtendedChannel)
    (prefix : ExtranoncePrefix) : handler unit :=
  let target := get_target aggregate in
  let active := get_active_job aggregate in
  match ext_new id user_identity prefix target hashrate true (as_u16 min_extranonce_size)
          max_past_jobs with
  | Err _ => drop_prefix prefix;; raise (shutdown OpenMiningChannelError)
  | Ok c =>
      '(r, c) ← on_value (initialize_channel id target (get_extranonce_prefix aggregate) active
                            (get_future_jobs aggregate).*2 (get_chain_tip aggregate)) c;
      match r with
      | Err e => drop_prefix (ext_prefix c);; raise e
      | Ok success =>
          update (λ s, put_channels (<[id := c]> (extended_channels s)) s);;
          ensure (fits_b032 success) (shutdown BinarySv2);;
          advertise (DownOpenSuccess
            {| oes_request_id := request_id; oes_channel_id := id; oes_target := target;
               oes_extranonce_size := as_u16 min_extranonce_size;
               oes_extranonce_prefix := success; oes_group_channel_id := 0 |}) id success;;
          match active with
          | Some j => forward_job_to_sv1_server ord (job_for id (job_message j))
          | None => mret tt
          end
      end
  end.

(** [handle_downstream_channel_request_in_aggregated_mode]. *)
Definition handle_downstream_channel_request_in_aggregated_mode (ord : gset N → list N)
    (request_id : N) (user_identity : string) (hashrate : Hashrate) (min_extranonce_size : N)
    : handler unit :=
  aggregate ← ask (λ s, extended_channels s !! AGGREGATED_CHANNEL_ID);
  aggregate ← some_or aggregate (shutdown ChannelNotFound);
  allocation ← transact (λ s,
    match aggregated_extranonce_allocator s with
    | Some a => let '(r, a') := allocate_extended a min_extranonce_size in
                (Some (r, rollable_extranonce_size a), put_allocator (Some a') s)
    | None => (None, s)
    end);
  '(allocated, rollable) ← some_or allocation (shutdown OpenMiningChannelError);
  let unsupported := reject_downstream_channel_request request_id
    ERROR_CODE_OPEN_MINING_CHANNEL_UNSUPPORTED_MIN_EXTRANONCE_SIZE in
  let exhausted := reject_downstream_channel_request request_id
    ERROR_CODE_OPEN_MINING_CHANNEL_CHANNEL_CAPACITY_EXHAUSTED in
  match allocated with
  | Err _ => if decide (rollable = min_extranonce_size) then exhausted else unsupported
  | Ok prefix =>
      if decide (rollable = min_extranonce_size) then
        id ← ask (λ s, next_channel_id ord (dom (extended_channels s)));
        match id with
        | None => drop_prefix prefix;; exhausted
        | Some id => open_child ord request_id id user_identity hashrate min_extranonce_size
                       aggregate prefix
        end
      else drop_prefix prefix;; unsupported
  end.

(** [open_pending_aggregated_downstream_channels]. *)
Definition open_pending_aggregated_downstream_channels (ord : gset N → list N) : handler unit :=
  st ← ask aggregated_channel_state;
  if decide (st = Connected) then
    requests ← transact (λ s, let m := pending_downstream_channels s in
      (omap (λ r, (λ q, (r, q)) <$> m !! r) (ord (dom m)), put_pending ∅ s));
    for_each requests (λ '(request_id, (user_identity, hashrate, size)),
      handle_downstream_channel_request_in_aggregated_mode ord request_id user_identity hashrate
        size)
  else mret tt.

(** ** Requests of the SV1 server *)

(** The upstream request of [OpenExtendedMiningChannel]. *)
Definition upstream_request (m : OpenExtendedMiningChannel) (user_identity : string)
    : OpenExtendedMiningChannel :=
  let size := oec_min_extranonce_size m in
  {| oec_request_id := oec_request_id m; oec_user_identity := user_identity;
     oec_nominal_hash_rate := oec_nominal_hash_rate m; oec_max_target := oec_max_target m;
     oec_min_extranonce_size :=
       as_u16 (if is_aggregated mode then size + bytes_needed AGGREGATED_TPROXY_MAX_CHANNELS
               else size) |}.

Definition add_pending (m : OpenExtendedMiningChannel) : handler unit :=
  update (λ s, put_pending (<[oec_request_id m :=
    (oec_user_identity m, oec_nominal_hash_rate m, oec_min_extranonce_size m)]>
    (pending_downstream_channels s)) s).

Definition handle_open_extended_mining_channel (ord : gset N → list N)
    (m : OpenExtendedMiningChannel) : handler unit :=
  if is_aggregated mode then
    st ← ask aggregated_channel_state;
    match st with
    | Connected =>
        handle_downstream_channel_request_in_aggregated_mode ord (oec_request_id m)
          (oec_user_identity m) (oec_nominal_hash_rate m) (oec_min_extranonce_size m)
    | Pending => add_pending m
    | NoChannel =>
        update (λ s, put_aggregate (aggregated_extranonce_allocator s) Pending s);;
        add_pending m;;
        let identity := aggregated_upstream_user_identity (oec_user_identity m) in
        some_or_crash (guard (fits_str0255 identity = true));;
        send_upstream (UpOpenExtendedMiningChannel (upstream_request m identity))
    end
  else
    add_pending m;;
    send_upstream (UpOpenExtendedMiningChannel (upstream_request m (oec_user_identity m))).

(** [next_share_sequence_number]. *)
Definition next_share_sequence_number (key : N) : handler N :=
  transact (λ s, let '(n, m) := SharedMap.with_mut_or_default (share_sequence_counters s) key 0
                                  (λ counter, (u32_wrap (counter + 1), u32_wrap (counter + 1))) in
                 (n, put_counters m s)).

Definition share_with (c seq : N) (e : list byte) (m : SubmitSharesExtended)
    : SubmitSharesExtended :=
  {| sse_channel_id := c; sequence_number := seq; sse_job_id := sse_job_id m; nonce := nonce m;
     ntime := ntime m; sse_version := sse_version m; extranonce := e |}.

(** The share of a miner as a share of the channel all miners share. *)
Definition rewrite_aggregated_share (aggregate : ExtendedChannel) (m : SubmitSharesExtended)
    : handler SubmitSharesExtended :=
  prefix ← ask (λ s, get_extranonce_prefix <$> extended_channels s !! sse_channel_id m);
  len ← ask (λ s, upstream_prefix_len <$> aggregated_extranonce_allocator s);
  match prefix, len with
  | Some prefix, Some len =>
      some_or_crash (guard (len ≤ N.of_nat (length prefix)));;
      let e := drop (N.to_nat len) prefix ++ extranonce m in
      ensure (fits_b032 e) (shutdown BinarySv2);;
      mret (share_with (get_channel_id aggregate) (sequence_number m) e m)
  | _, _ => mret (share_with (get_channel_id aggregate) (sequence_number m) (extranonce m) m)
  end.

(** [local_prefix_and_index] of a channel of its own, and the share with it. *)
Definition rewrite_own_share (m : SubmitSharesExtended) : handler SubmitSharesExtended :=
  ch ← ask (λ s, extended_channels s !! sse_channel_id m);
  match ch with
  | Some ch =>
      let prefix := get_extranonce_prefix ch in
      some_or_crash (guard (ext_upstream_prefix_len ch ≤ N.of_nat (length prefix)));;
      let local := drop (N.to_nat (ext_upstream_prefix_len ch)) prefix in
      match local with
      | [] => mret m
      | _ => ensure (fits_b032 (local ++ extranonce m)) (shutdown BinarySv2);;
             mret (share_with (sse_channel_id m) (sequence_number m) (local ++ extranonce m) m)
      end
  | None => mret m
  end.

(** The verdict of the channel stored under [key]; [None]: no such channel. *)
Definition validate_on (key : N) (m : SubmitSharesExtended)
    : handler (option (result unit ShareValidationError)) :=
  with_channel key (mret None) (v ← transact (λ c, validate_share c m); mret (Some v)).

(** [tlv_user_identity_from_sv1_worker_name]. *)
Definition tlv_user_identity_from_sv1_worker_name (name : string)
    : result UserIdentity TproxyErrorKind :=
  let name := if (String.length name <=? MAX_USER_IDENTITY_LENGTH)%nat then name
              else String.substring 0 (floor_char_boundary name MAX_USER_IDENTITY_LENGTH) name in
  match user_identity_new name with Some u => Ok u | None => Err (InvalidUserIdentity name) end.

Definition send_share (worker_name : option string) (m : SubmitSharesExtended) : handler unit :=
  negotiated ← ask negotiated_extensions;
  match worker_name with
  | Some name =>
      if bool_decide (EXTENSION_TYPE_WORKER_HASHRATE_TRACKING ∈ negotiated) &&
         negb (String.eqb name "") then
        u ← ok_or_raise (tlv_user_identity_from_sv1_worker_name name) shutdown;
        send_upstream (UpSubmitSharesExtended m (Some u))
      else send_upstream (UpSubmitSharesExtended m None)
  | None => send_upstream (UpSubmitSharesExtended m None)
  end.

(** A share the upstream channel does not accept is dropped.  First the share
    of a channel of its own. *)
Definition submit_own (m : SubmitSharesExtended) (worker_name : option string) : handler unit :=
  verdict ← validate_on (sse_channel_id m) m;
  match verdict with
  | Some (Ok _) =>
      seq ← next_share_sequence_number (sse_channel_id m);
      m ← rewrite_own_share (share_with (sse_channel_id m) seq (extranonce m) m);
      send_share worker_name m
  | _ => mret tt
  end.

Definition handle_submit_shares_extended (m : SubmitSharesExtended) (worker_name : option string)
    : handler unit :=
  aggregate ← ask (λ s, extended_channels s !! AGGREGATED_CHANNEL_ID);
  match aggregate with
  | Some aggregate =>
      if is_aggregated mode then
        m ← rewrite_aggregated_share aggregate m;
        verdict ← validate_on AGGREGATED_CHANNEL_ID m;
        match verdict with
        | Some (Ok _) =>
            seq ← next_share_sequence_number (sse_channel_id m);
            send_share worker_name (share_with (sse_channel_id m) seq (extranonce m) m)
        | _ => mret tt
        end
      else submit_own m worker_name
  | None => submit_own m worker_name
  end.

(** [UpdateChannel]. *)
Definition update_for (c : N) (m : UpdateChannel) : UpdateChannel :=
  {| uc_channel_id := c; uc_nominal_hash_rate := uc_nominal_hash_rate m;
     uc_maximum_target := uc_maximum_target m |}.

Definition handle_update_channel (m : UpdateChannel) : handler unit :=
  let set_hashrate := update (λ c, set_nominal_hashrate c (uc_nominal_hash_rate m)) in
  if is_aggregated mode then
    id ← with_channel AGGREGATED_CHANNEL_ID (mret None)
           (set_hashrate;; id ← ask get_channel_id; mret (Some id));
    match id with
    | Some id => send_upstream (UpUpdateChannel (update_for id m))
    | None => mret tt
    end
  else
    with_channel (uc_channel_id m) (mret tt) set_hashrate;;
    send_upstream (UpUpdateChannel m).

(** [extended_channels.remove], dropping the channel. *)
Definition remove_channel (c : N) : handler (option ExtendedChannel) :=
  old ← transact (λ s, let '(o, m) := SharedMap.remove (extended_channels s) c in
                       (o, put_channels m s));
  match old with
  | Some (_, ch) => drop_prefix (ext_prefix ch);; mret (Some ch)
  | None => mret None
  end.

Definition remove_advertised (c : N) : handler unit :=
  update (λ s, put_advertised (delete c (sv1_advertised_extranonce_prefixes s)) s).

(** The loop over [group_channels] that removes a channel from its groups. *)
Definition leave_groups (c : N) : handler unit :=
  update (λ s, put_groups ((λ g, if grp_has_channel_id g c then grp_remove_channel_id g c else g)
                             <$> group_channels s) s).

(** [CloseChannel] of the SV1 server. *)
Definition handle_close_downstream (channel_id : N) (reason_code : string) : handler unit :=
  if is_aggregated mode && bool_decide (channel_id = AGGREGATED_CHANNEL_ID) then mret tt
  else
    remove_channel channel_id;;
    remove_advertised channel_id;;
    leave_groups channel_id;;
    if is_aggregated mode then mret tt else send_upstream (UpCloseChannel channel_id reason_code).

Inductive Sv1Request : Type :=
| ReqOpenExtendedMiningChannel (m : OpenExtendedMiningChannel)
| ReqSubmitSharesExtended (m : SubmitSharesExtended)
| ReqUpdateChannel (m : UpdateChannel)
| ReqCloseChannel (channel_id : N) (reason_code : string)
| ReqOther.

(** [handle_downstream_message]; [None]: the SV1 server is gone. *)
Definition handle_downstream_message (ord : gset N → list N)
    (received : option (Sv1Request * option string)) : handler unit :=
  '(m, worker_name) ← some_or received (shutdown ChannelErrorReceiver);
  match m with
  | ReqOpenExtendedMiningChannel m => handle_open_extended_mining_channel ord m
  | ReqSubmitSharesExtended m => handle_submit_shares_extended m worker_name
  | ReqUpdateChannel m => handle_update_channel m
  | ReqCloseChannel c reason => handle_close_downstream c reason
  | ReqOther => mret tt
  end.

(** ** Messages of the upstream *)

(** [colliding_channel_id]. *)
Definition colliding_channel_id (channel_id group_channel_id : N) (s : ChannelManager) : option N :=
  let own := negb (is_aggregated mode) in
  if bool_decide (channel_id = AGGREGATED_CHANNEL_ID) ||
     bool_decide (group_channel_id = AGGREGATED_CHANNEL_ID) then Some AGGREGATED_CHANNEL_ID
  else if own && SharedMap.contains_key (extended_channels s) group_channel_id then
    Some group_channel_id
  else if bool_decide (channel_id = group_channel_id) ||
          (own && (SharedMap.contains_key (extended_channels s) channel_id ||
                   SharedMap.contains_key (group_channels s) channel_id)) then Some channel_id
  else None.

(** [verify_payout_distribution]. *)
Definition verify_payout_distribution (m : NewExtendedMiningJob) (full_extranonce_size : N)
    : handler unit :=
  expected ← ask expected_payout_distribution;
  expected ← some_or_crash expected;
  match expected with
  | None => mret tt
  | Some mode =>
      r ← run_rust (validate_coinbase_tx_parts mode (nj_coinbase_tx_prefix m)
                      (nj_coinbase_tx_suffix m) (N.to_nat full_extranonce_size));
      ok_or_raise r (λ e, fallback (PayoutVerificationFailed e))
  end.

(** [group_channels.with_mut_or_insert_with(.., add_channel_id)]. *)
Definition add_to_group (channel_id group_channel_id size : N) : handler unit :=
  r ← transact (λ s,
    let '(r, m) := SharedMap.with_mut_or_insert_with (group_channels s) group_channel_id
                     (grp_new group_channel_id) (λ g, grp_add_channel_id g channel_id size) in
    (r, put_groups m s));
  ok_or_raise r (λ e, fallback (FailedToAddChannelIdToGroupChannel e)).

(** [(prefix.len() as u8) + (size as u8)]. *)
Definition full_size_u8 (prefix : list byte) (size : N) : N :=
  (N.of_nat (length prefix) mod 256 + size mod 256) mod 256.

Definition open_fallback {A} : handler A := raise (fallback OpenMiningChannelError).

(** An allocator for the prefix the upstream granted, the slack filled with
    zeros, and a first prefix. *)
Definition allocate_under (m : OpenExtendedMiningChannelSuccess) (max_channels len : N)
    : handler (ExtranoncePrefix * ExtranonceAllocator) :=
  let padding := oes_extranonce_size m - bytes_needed max_channels - len in
  a ← ok_or_raise (from_upstream_prefix (oes_extranonce_prefix m)
                     (replicate (N.to_nat padding) x00)
                     (full_size_u8 (oes_extranonce_prefix m) (oes_extranonce_size m)) max_channels)
        (λ _, fallback OpenMiningChannelError);
  let '(r, a) := allocate_extended a len in
  p ← ok_or_raise r (λ _, fallback OpenMiningChannelError);
  mret (p, a).

(** The channel all miners share, and the first miner's. *)
Definition open_aggregated (m : OpenExtendedMiningChannelSuccess) (user_identity : string)
    (hashrate : Hashrate) (len : N) : handler OpenExtendedMiningChannelSuccess :=
  if decide (oes_extranonce_size m < bytes_needed AGGREGATED_TPROXY_MAX_CHANNELS + len) then
    open_fallback
  else
    '(prefix, a) ← allocate_under m AGGREGATED_TPROXY_MAX_CHANNELS len;
    upstream ← match from_wire (upstream_prefix a) with Ok p => mret p | Err _ => crash end;
    c ← ok_or_raise (ext_new (oes_channel_id m) (aggregated_upstream_user_identity user_identity)
                       upstream (oes_target m) hashrate true (oes_extranonce_size m) max_past_jobs)
          (λ _, fallback OpenMiningChannelError);
    update (λ s, put_channels (<[AGGREGATED_CHANNEL_ID := c]> (extended_channels s)) s);;
    c ← ok_or_raise (ext_new 1 user_identity prefix (oes_target m) hashrate true (as_u16 len)
                       max_past_jobs) (λ _, fallback OpenMiningChannelError);
    update (λ s, put_channels (<[1 := c]> (extended_channels s)) s);;
    update (put_aggregate (Some a) Connected);;
    ensure (fits_b032 (prefix_bytes prefix)) (shutdown BinarySv2);;
    mret {| oes_request_id := oes_request_id m; oes_channel_id := 1; oes_target := oes_target m;
            oes_extranonce_size := as_u16 len; oes_extranonce_prefix := prefix_bytes prefix;
            oes_group_channel_id := oes_group_channel_id m |}.

(** A miner's own channel; the prefix is the upstream's, or, when the
    upstream granted more than was asked for, one padded with zeros. *)
Definition own_prefix (m : OpenExtendedMiningChannelSuccess) (len : N)
    : handler ExtranoncePrefix :=
  if decide (oes_extranonce_size m = len) then
    ok_or_raise (from_wire (oes_extranonce_prefix m)) (λ _, shutdown OpenMiningChannelError)
  else if decide (oes_extranonce_size m < bytes_needed NON_AGGREGATED_TPROXY_MAX_CHANNELS + len)
  then open_fallback
  else '(p, _) ← allocate_under m NON_AGGREGATED_TPROXY_MAX_CHANNELS len; mret p.

Definition open_own (m : OpenExtendedMiningChannelSuccess) (user_identity : string)
    (hashrate : Hashrate) (len : N) : handler OpenExtendedMiningChannelSuccess :=
  if decide (oes_extranonce_size m < len) then open_fallback
  else
    prefix ← own_prefix m len;
    c ← ok_or_raise (ext_new (oes_channel_id m) user_identity prefix (oes_target m) hashrate true
                       (as_u16 len) max_past_jobs) (λ _, fallback OpenMiningChannelError);
    update (λ s, put_channels (<[oes_channel_id m := c]> (extended_channels s)) s);;
    ensure (fits_b032 (prefix_bytes prefix)) (shutdown BinarySv2);;
    mret {| oes_request_id := oes_request_id m; oes_channel_id := oes_channel_id m;
            oes_target := oes_target m; oes_extranonce_size := as_u16 len;
            oes_extranonce_prefix := prefix_bytes prefix;
            oes_group_channel_id := oes_group_channel_id m |}.

(** [handle_open_extended_mining_channel_success]. *)
Definition handle_open_extended_mining_channel_success (ord : gset N → list N)
    (m : OpenExtendedMiningChannelSuccess) : handler unit :=
  pending ← transact (λ s, let '(o, p) := SharedMap.remove (pending_downstream_channels s)
                                            (oes_request_id m) in (o, put_pending p s));
  '(_, (user_identity, hashrate, len)) ←
    some_or pending (log (PendingChannelNotFound (oes_request_id m)));
  conflict ← ask (colliding_channel_id (oes_channel_id m) (oes_group_channel_id m));
  match conflict with
  | Some id => raise (fallback (ChannelIdAlreadyInUse id))
  | None =>
      add_to_group (oes_channel_id m) (oes_group_channel_id m)
        (oes_extranonce_size m + N.of_nat (length (oes_extranonce_prefix m)));;
      success ← (if is_aggregated mode then open_aggregated else open_own)
                  m user_identity hashrate len;
      advertise (DownOpenSuccess success) (oes_channel_id success) (oes_extranonce_prefix success);;
      if is_aggregated mode then open_pending_aggregated_downstream_channels ord else mret tt
  end.

(** [handle_open_mining_channel_error]. *)
Definition handle_open_mining_channel_error : handler unit := open_fallback.

(** [handle_close_channel]: a group closes with all its channels. *)
Definition closed_channels (channel_id : N) : handler (list N) :=
  group ← transact (λ s, let '(o, m) := SharedMap.remove (group_channels s) channel_id in
                         (o, put_groups m s));
  match group with
  | Some (_, g) =>
      for_each (grp_get_channel_ids g) (λ c, remove_channel c;; mret tt);;
      mret (grp_get_channel_ids g)
  | None =>
      removed ← remove_channel channel_id;
      match removed with
      | Some _ => leave_groups channel_id;; mret [channel_id]
      | None => raise (log ChannelNotFound)
      end
  end.

Definition handle_close_channel (channel_id : N) (reason_code : string) : handler unit :=
  if is_aggregated mode then raise (fallback AggregatedChannelClosed)
  else
    ids ← closed_channels channel_id;
    for_each ids (λ c, remove_advertised c;; send_sv1 (DownCloseChannel c reason_code)).

(** [handle_set_extranonce_prefix]. *)
Definition change_prefix (reported : N) (action : TproxyErrorKind → TproxyError)
    (prefix : list byte) : prog ExtendedChannel TproxyError unit :=
  r ← transact (λ c, set_upstream_extranonce_prefix c prefix);
  ok_or_raise r (λ e, action (UpstreamExtranoncePrefixUpdateFailed reported e)).

Definition change_allocator_prefix (prefix : list byte) : handler unit :=
  r ← transact (λ s,
    match aggregated_extranonce_allocator s with
    | Some a => let '(r, a') := set_upstream_prefix a prefix in (Some r, put_allocator (Some a') s)
    | None => (None, s)
    end);
  r ← some_or r (shutdown MissingAggregatedExtranonceAllocator);
  ok_or_raise r (λ e, fallback (AggregatedExtranonceAllocatorUpdateFailed e)).

Definition handle_set_extranonce_prefix (ord : gset N → list N) (channel_id : N)
    (prefix : list byte) : handler unit :=
  if is_aggregated mode then
    aggregate ← ask (λ s, extended_channels s !! AGGREGATED_CHANNEL_ID);
    aggregate ← some_or aggregate (shutdown ChannelNotFound);
    if decide (channel_id = get_channel_id aggregate) then
      let size := get_rollable_extranonce_size aggregate in
      let prefix_len := N.of_nat (length prefix) in
      if decide (MAX_EXTRANONCE_LEN < prefix_len + size) then
        raise (fallback (InvalidExtranonceSize prefix_len size))
      else
        change_allocator_prefix prefix;;
        with_channel AGGREGATED_CHANNEL_ID (raise (shutdown ChannelNotFound))
          (change_prefix channel_id fallback prefix);;
        ids ← ask (λ s, filter (λ c, c ≠ AGGREGATED_CHANNEL_ID) (ord (dom (extended_channels s))));
        for_each ids (λ c, with_channel c (mret tt) (change_prefix c shutdown prefix))
    else raise (log ChannelNotFound)
  else
    with_channel channel_id (raise (log ChannelNotFound))
      (change_prefix channel_id fallback prefix).

(** [handle_submit_shares_success], [handle_submit_shares_error]. *)
Definition upstream_key (channel_id : N) : N :=
  if is_aggregated mode then AGGREGATED_CHANNEL_ID else channel_id.

Definition handle_submit_shares_success (channel_id accepted shares_sum : N) : handler unit :=
  with_channel (upstream_key channel_id) (mret tt)
    (update (λ c, on_share_acknowledgement c accepted shares_sum)).

Definition handle_submit_shares_error (channel_id : N) (error_code : string) : handler unit :=
  with_channel (upstream_key channel_id) (mret tt) (update (λ c, on_share_rejection c error_code)).

(** In aggregated mode there should be one group; it is the first visited. *)
Definition first_group (ord : gset N → list N) (s : ChannelManager) : option N :=
  head (ord (dom (group_channels s))).

(** The aggregated channel, if [channel_id] names it or its group. *)
Definition addressed_aggregate (ord : gset N → list N) (channel_id : N)
    : handler ExtendedChannel :=
  aggregate ← ask (λ s, extended_channels s !! AGGREGATED_CHANNEL_ID);
  aggregate ← some_or aggregate (fallback ChannelNotFound);
  group ← ask (first_group ord);
  group ← some_or group (fallback ChannelNotFound);
  if bool_decide (get_channel_id aggregate = channel_id) || bool_decide (group = channel_id)
  then mret aggregate else raise (log ChannelNotFound).

(** [handle_new_extended_mining_job]. *)
Definition process_job (m : NewExtendedMiningJob)
    : prog ExtendedChannel TproxyError (list NewExtendedMiningJob) :=
  r ← transact (λ c, on_new_extended_mining_job c m);
  ok_or_raise r (λ _, fallback FailedToProcessNewExtendedMiningJob);;
  mret (if is_future m then [] else [m]).

Definition job_for_aggregate (ord : gset N → list N) (m : NewExtendedMiningJob)
    : handler (list NewExtendedMiningJob) :=
  aggregate ← addressed_aggregate ord (nj_channel_id m);
  verify_payout_distribution m (get_full_extranonce_size aggregate);;
  channels ← ask (λ s, ord (dom (extended_channels s)));
  for_each channels (λ c, with_channel c (mret tt) (process_job m;; mret tt));;
  mret (if is_future m then [] else [job_for AGGREGATED_CHANNEL_ID m]).

Definition job_for_group (g : GroupChannel) (m : NewExtendedMiningJob)
    : handler (list NewExtendedMiningJob) :=
  size ← some_or (grp_get_full_extranonce_size g) (fallback ChannelNotFound);
  verify_payout_distribution m size;;
  let g' := grp_on_new_extended_mining_job g m in
  update (λ s, put_groups (<[nj_channel_id m := g']> (group_channels s)) s);;
  collect (grp_get_channel_ids g') (λ c,
    with_channel c (raise (fallback ChannelNotFound)) (process_job (job_for c m))).

Definition job_for_channel (m : NewExtendedMiningJob) : handler (list NewExtendedMiningJob) :=
  ch ← ask (λ s, extended_channels s !! nj_channel_id m);
  ch ← some_or ch (log ChannelNotFound);
  verify_payout_distribution m (get_full_extranonce_size ch);;
  with_channel (nj_channel_id m) (raise (log ChannelNotFound)) (process_job m).

Definition handle_new_extended_mining_job (ord : gset N → list N) (m : NewExtendedMiningJob)
    : handler unit :=
  ensure (version_rolling_allowed m) (fallback VersionRollingNotAllowed);;
  jobs ← (if is_aggregated mode then job_for_aggregate ord m
          else g ← ask (λ s, group_channels s !! nj_channel_id m);
               match g with Some g => job_for_group g m | None => job_for_channel m end);
  for_each jobs (forward_job_to_sv1_server ord).

(** [handle_set_new_prev_hash]. *)
Definition process_prev_hash (m : SetNewPrevHash) : prog ExtendedChannel TproxyError unit :=
  r ← transact (λ c, on_set_new_prev_hash c m);
  ok_or_raise r (λ _, fallback FailedToProcessSetNewPrevHash).

Definition active_message : prog ExtendedChannel TproxyError NewExtendedMiningJob :=
  j ← ask get_active_job;
  j ← some_or_crash j;
  mret (job_message j).

Definition prev_hash_for_aggregate (ord : gset N → list N) (m : SetNewPrevHash)
    : handler (list (SetNewPrevHash * NewExtendedMiningJob)) :=
  addressed_aggregate ord (snp_channel_id m);;
  channels ← ask (λ s, ord (dom (extended_channels s)));
  for_each channels (λ c, with_channel c (mret tt) (process_prev_hash m));;
  j ← with_channel AGGREGATED_CHANNEL_ID crash active_message;
  mret [(prev_hash_for AGGREGATED_CHANNEL_ID m, job_for AGGREGATED_CHANNEL_ID j)].

Definition prev_hash_for_channel (c : N) (absent : TproxyError) (m : SetNewPrevHash)
    : handler (list (SetNewPrevHash * NewExtendedMiningJob)) :=
  j ← with_channel c (raise absent) (process_prev_hash m;; active_message);
  mret [(prev_hash_for c m, j)].

Definition prev_hash_for_group (g : GroupChannel) (m : SetNewPrevHash)
    : handler (list (SetNewPrevHash * NewExtendedMiningJob)) :=
  let '(r, g') := grp_on_set_new_prev_hash g m in
  update (λ s, put_groups (<[snp_channel_id m := g']> (group_channels s)) s);;
  ok_or_raise r (λ _, fallback FailedToProcessSetNewPrevHash);;
  collect (grp_get_channel_ids g') (λ c, prev_hash_for_channel c (fallback ChannelNotFound) m).

Definition handle_set_new_prev_hash (ord : gset N → list N) (m : SetNewPrevHash) : handler unit :=
  messages ← (if is_aggregated mode then prev_hash_for_aggregate ord m
              else g ← ask (λ s, group_channels s !! snp_channel_id m);
                   match g with
                   | Some g => prev_hash_for_group g m
                   | None => prev_hash_for_channel (snp_channel_id m) (log ChannelNotFound) m
                   end);
  for_each messages.*1 (λ p, send_sv1 (DownSetNewPrevHash p));;
  for_each messages.*2 (forward_job_to_sv1_server ord).

(** [handle_set_target]. *)
Definition process_target (target : N) : prog ExtendedChannel TproxyError unit :=
  r ← transact (λ c, set_target c target);
  ok_or_raise r (λ _, fallback FailedToProcessSetTarget).

Definition target_for_aggregate (ord : gset N → list N) (channel_id target : N)
    : handler (list N) :=
  addressed_aggregate ord channel_id;;
  channels ← ask (λ s, ord (dom (extended_channels s)));
  for_each channels (λ c, with_channel c (mret tt) (process_target target));;
  mret [AGGREGATED_CHANNEL_ID].

Definition target_for_channel (c target : N) (absent : TproxyError) : handler (list N) :=
  with_channel c (raise absent) (process_target target);; mret [c].

Definition handle_set_target (ord : gset N → list N) (channel_id target : N) : handler unit :=
  ids ← (if is_aggregated mode then target_for_aggregate ord channel_id target
         else g ← ask (λ s, group_channels s !! channel_id);
              match g with
              | Some g => collect (grp_get_channel_ids g)
                            (λ c, target_for_channel c target (fallback ChannelNotFound))
              | None => target_for_channel channel_id target (log ChannelNotFound)
              end);
  for_each ids (λ c, send_sv1 (DownSetTarget c target)).

(** [handle_set_group_channel]: the replacement is built first. *)
Definition member_size (aggregate : option ExtendedChannel) (c : N) : handler N :=
  if decide (c = AGGREGATED_CHANNEL_ID) then
    raise (fallback (ChannelIdAlreadyInUse AGGREGATED_CHANNEL_ID))
  else
    match aggregate with
    | Some a => if decide (c = get_channel_id a) then mret (get_full_extranonce_size a)
                else raise (fallback ChannelNotFound)
    | None =>
        ch ← ask (λ s, extended_channels s !! c);
        ch ← some_or ch (fallback ChannelNotFound);
        mret (get_full_extranonce_size ch)
    end.

Fixpoint build_group (aggregate : option ExtendedChannel) (ids : list N) (g : GroupChannel)
    : handler GroupChannel :=
  match ids with
  | [] => mret g
  | c :: rest =>
      size ← member_size aggregate c;
      let '(r, g') := grp_add_channel_id g c size in
      ok_or_raise r (λ e, fallback (FailedToAddChannelIdToGroupChannel e));;
      build_group aggregate rest g'
  end.

Definition group_id_in_use (aggregate : option ExtendedChannel) (group_channel_id : N)
    (s : ChannelManager) : bool :=
  match aggregate with
  | Some a => bool_decide (group_channel_id = get_channel_id a)
  | None => SharedMap.contains_key (extended_channels s) group_channel_id
  end.

Definition without_members (ids : list N) (g : GroupChannel) : GroupChannel :=
  foldl grp_remove_channel_id g ids.

Definition replace_group (group_channel_id : N) (ids : list N) (g : GroupChannel)
    (groups : gmap N GroupChannel) : gmap N GroupChannel :=
  let kept := delete group_channel_id
    (filter (λ kg, grp_is_empty kg.2 = false) (without_members ids <$> groups)) in
  match ids with [] => kept | _ => <[group_channel_id := g]> kept end.

Definition handle_set_group_channel (group_channel_id : N) (ids : list N) : handler unit :=
  if decide (group_channel_id = AGGREGATED_CHANNEL_ID) then
    raise (fallback (ChannelIdAlreadyInUse group_channel_id))
  else
    aggregate ← (if is_aggregated mode then
                   a ← ask (λ s, extended_channels s !! AGGREGATED_CHANNEL_ID);
                   a ← some_or a (fallback ChannelNotFound);
                   mret (Some a)
                 else mret None);
    in_use ← ask (group_id_in_use aggregate group_channel_id);
    if in_use : bool then raise (fallback (ChannelIdAlreadyInUse group_channel_id))
    else
      g ← build_group aggregate ids (grp_new group_channel_id);
      update (λ s, put_groups (replace_group group_channel_id ids g (group_channels s)) s).

(** [handle_request_extensions_success], [handle_request_extensions_error]. *)
Definition handle_request_extensions_success (supported : list N) : handler unit :=
  match filter (λ e, e ∉ supported) required_extensions with
  | [] => update (put_negotiated supported)
  | missing => raise (fallback (RequiredExtensionsMissing missing))
  end.

Definition handle_request_extensions_error (request_id : N) (unsupported required_by_server : list N)
    : handler unit :=
  match filter (λ e, e ∈ unsupported) required_extensions with
  | [] =>
      match required_by_server with
      | [] => mret tt
      | _ =>
          match filter (λ e, e ∉ supported_extensions) required_by_server with
          | [] => send_upstream (UpRequestExtensions (as_u16 (request_id + 1))
                    (filter (λ e, e ∈ supported_extensions) required_by_server))
          | cannot_support => raise (fallback (ServerRequiresUnsupportedExtensions cannot_support))
          end
      end
  | missing => raise (fallback (RequiredExtensionsNotSupported missing))
  end.

(** A message of the upstream, by the handler the parser calls for it. *)
Inductive UpstreamFrame : Type :=
| FrOpenStandardMiningChannelSuccess
| FrOpenExtendedMiningChannelSuccess (m : OpenExtendedMiningChannelSuccess)
| FrOpenMiningChannelError
| FrUpdateChannelError
| FrCloseChannel (channel_id : N) (reason_code : string)
| FrSetExtranoncePrefix (channel_id : N) (extranonce_prefix : list byte)
| FrSubmitSharesSuccess (channel_id accepted shares_sum : N)
| FrSubmitSharesError (channel_id : N) (error_code : string)
| FrNewMiningJob
| FrNewExtendedMiningJob (m : NewExtendedMiningJob)
| FrSetNewPrevHash (m : SetNewPrevHash)
| FrSetCustomMiningJobSuccess
| FrSetCustomMiningJobError
| FrSetTarget (channel_id target : N)
| FrSetGroupChannel (group_channel_id : N) (channel_ids : list N)
| FrRequestExtensionsSuccess (supported : list N)
| FrRequestExtensionsError (request_id : N) (unsupported required_by_server : list N)
| FrOther (extension_type message_type : N).

(** [handle_upstream_frame]; [None]: the upstream is gone. *)
Definition handle_upstream_frame (ord : gset N → list N) (received : option UpstreamFrame)
    : handler unit :=
  frame ← some_or received (fallback ChannelErrorReceiver);
  match frame with
  | FrOpenStandardMiningChannelSuccess =>
      raise (log (UnexpectedMessage 0 MESSAGE_TYPE_OPEN_STANDARD_MINING_CHANNEL_SUCCESS))
  | FrOpenExtendedMiningChannelSuccess m => handle_open_extended_mining_channel_success ord m
  | FrOpenMiningChannelError => handle_open_mining_channel_error
  | FrUpdateChannelError => mret tt
  | FrCloseChannel c reason => handle_close_channel c reason
  | FrSetExtranoncePrefix c prefix => handle_set_extranonce_prefix ord c prefix
  | FrSubmitSharesSuccess c n sum => handle_submit_shares_success c n sum
  | FrSubmitSharesError c code => handle_submit_shares_error c code
  | FrNewMiningJob => mret tt
  | FrNewExtendedMiningJob m => handle_new_extended_mining_job ord m
  | FrSetNewPrevHash m => handle_set_new_prev_hash ord m
  | FrSetCustomMiningJobSuccess =>
      raise (log (UnexpectedMessage 0 MESSAGE_TYPE_SET_CUSTOM_MINING_JOB_SUCCESS))
  | FrSetCustomMiningJobError =>
      raise (log (UnexpectedMessage 0 MESSAGE_TYPE_SET_CUSTOM_MINING_JOB_ERROR))
  | FrSetTarget c target => handle_set_target ord c target
  | FrSetGroupChannel g ids => handle_set_group_channel g ids
  | FrRequestExtensionsSuccess l => handle_request_extensions_success l
  | FrRequestExtensionsError r u l => handle_request_extensions_error r u l
  | FrOther ext ty => raise (fallback (UnexpectedMessage ext ty))
  end.

(** ** The message loop *)

(** The tokens: application shutdown and fallback. *)
Record Tokens : Type := { cancelled : bool; fallback_cancelled : bool }.

(** [handle_error_action]. *)
Definition handle_error_action (e : TproxyError) (t : Tokens) : LoopControl * Tokens :=
  if cancelled t || fallback_cancelled t then (Continue, t)
  else match action e with
  | Log | Disconnect _ => (Continue, t)
  | Fallback => (Break, {| cancelled := cancelled t; fallback_cancelled := true |})
  | Shutdown => (Break, {| cancelled := true; fallback_cancelled := fallback_cancelled t |})
  end.

(** The task of [run_channel_manager_tasks]: a panic ends it like a break
    does, but without [close]. *)
Record Task : Type := { manager : ChannelManager; tokens : Tokens; running : bool }.

Definition close_io (s : ChannelManager) : ChannelManager :=
  let io := channel_manager_io s in
  put_io {| upstream_open := false; sv1_open := false; to_upstream := to_upstream io;
            to_sv1 := to_sv1 io |} s.

(** One round of the loop whose handler ended with [outcome]. *)
Definition after_handler (t : Task) (outcome : rust (result unit TproxyError * ChannelManager))
    : Task :=
  match outcome with
  | Panic => {| manager := manager t; tokens := tokens t; running := false |}
  | Done (Ok _, s) => {| manager := s; tokens := tokens t; running := true |}
  | Done (Err e, s) =>
      match handle_error_action e (tokens t) with
      | (Continue, toks) => {| manager := s; tokens := toks; running := true |}
      | (Break, toks) => {| manager := close_io s; tokens := toks; running := false |}
      end
  end.

(** An order of iteration lists the keys. *)
Definition iteration (ord : gset N → list N) : Prop := ∀ X, ord X ≡ₚ elements X.

(** [select!] is biased: it takes a message only while no token is cancelled. *)
Definition calm (t : Task) : Prop :=
  cancelled (tokens t) = false ∧ fallback_cancelled (tokens t) = false.

(** The other tasks cancel the tokens, also while a handler runs, and close
    their ends of the queues. *)
Definition later (toks toks' : Tokens) : Prop :=
  (cancelled toks = true → cancelled toks' = true) ∧
  (fallback_cancelled toks = true → fallback_cancelled toks' = true).

Definition with_tokens (t : Task) (toks : Tokens) : Task :=
  {| manager := manager t; tokens := toks; running := running t |}.

Inductive task_step : Task → Task → Prop :=
| step_upstream t toks ord received :
    running t = true → calm t → later (tokens t) toks → iteration ord →
    task_step t (after_handler (with_tokens t toks)
                   (handle_upstream_frame ord received (manager t)))
| step_downstream t toks ord received :
    running t = true → calm t → later (tokens t) toks → iteration ord →
    task_step t (after_handler (with_tokens t toks)
                   (handle_downstream_message ord received (manager t)))
| step_tokens t toks : later (tokens t) toks → task_step t (with_tokens t toks)
| step_exit t :
    running t = true → ¬ calm t →
    task_step t {| manager := close_io (manager t); tokens := tokens t; running := false |}
| step_queue_closed t up sv1 :
    let io := channel_manager_io (manager t) in
    (upstream_open io = false → up = false) → (sv1_open io = false → sv1 = false) →
    task_step t
      {| manager := put_io {| upstream_open := up; sv1_open := sv1; to_upstream := to_upstream io;
                              to_sv1 := to_sv1 io |} (manager t);
         tokens := tokens t; running := running t |}.

(** The runtime sets the expected payout once, before the loop runs. *)
Definition start_task (payout : option PayoutMode) : Task :=
  {| manager := put_payout (Some payout) new_manager;
     tokens := {| cancelled := false; fallback_cancelled := false |}; running := true |}.

Definition task_reachable (payout : option PayoutMode) (t : Task) : Prop :=
  rtc task_step (start_task payout) t.
End manager.
