(* ===== verification/TproxyIds.v ===== *)
(** * Translator: ids and names

    The pure helpers of the channel manager: the id of a miner's channel in
    aggregated mode, the name a share carries upstream, the identity of the
    shared channel. *)
From Stdlib Require Import Ascii.
From S2P Require Import Prelude Handler SharedMap Bitcoin Payout ShareCache ClientChannels TproxyManager.

Lemma iteration_nodup ord (X : gset N) : iteration ord → NoDup (ord X).
Proof. intros Ho. rewrite (Ho X). apply NoDup_elements. Qed.
Lemma iteration_elem ord (X : gset N) c : iteration ord → c ∈ ord X ↔ c ∈ X.
Proof. intros Ho. rewrite (Ho X). apply elem_of_elements. Qed.

(** ** Channel ids *)

Lemma find_gap_some fuel k used id :
  find_gap fuel k used = Some id →
  k ≤ id < AGGREGATED_CHANNEL_ID ∧ id ∉ used ∧ ∀ c, k ≤ c < id → c ∈ used.
Proof.
  revert k. induction fuel as [|fuel IH]; intros k; [done|]. cbn [find_gap].
  destruct (N.ltb_spec k AGGREGATED_CHANNEL_ID) as [Hk|]; [|done]. case_decide as Hu.
  - intros (Hid & Hfree & Hall)%IH. split_and!; [lia|lia|done|]. intros c Hc.
    destruct (decide (c = k)) as [->|]; [done|]. apply Hall. lia.
  - intros [= <-]. split_and!; [lia|lia|done|]. lia.
Qed.

Lemma find_gap_none fuel k used c :
  find_gap fuel k used = None → k ≤ c < k + N.of_nat fuel → c < AGGREGATED_CHANNEL_ID → c ∈ used.
Proof.
  revert k. induction fuel as [|fuel IH]; intros k; cbn [find_gap]; [lia|].
  destruct (N.ltb_spec k AGGREGATED_CHANNEL_ID) as [Hk|]; [|lia]. case_decide as Hu; [|done].
  intros Hn Hc Ha. destruct (decide (c = k)) as [->|]; [done|]. apply (IH (k + 1)); [done|lia|done].
Qed.

(** As many candidates as there are ids in use, and one more, contain a free
    one: the scan is never cut short. *)
Lemma find_gap_enough k used :
  find_gap (S (size used)) k used = None → ∀ c, k ≤ c < AGGREGATED_CHANNEL_ID → c ∈ used.
Proof.
  intros Hn c Hc.
  destruct (decide (AGGREGATED_CHANNEL_ID ≤ k + N.of_nat (S (size used)))) as [|Hsmall].
  { eapply find_gap_none; [done|lia|lia]. }
  exfalso. set (l := (λ i, k + N.of_nat i) <$> seq 0 (S (size used))).
  assert (NoDup l) as Hl by (apply NoDup_fmap_2; [intros ?? ?; lia|apply NoDup_ListNoDup, seq_NoDup]).
  assert (size (list_to_set l : gset N) ≤ size used)%nat as Hs.
  { apply subseteq_size. intros x Hx%elem_of_list_to_set.
    apply list_elem_of_fmap in Hx as (i & -> & Hi%elem_of_seq).
    eapply find_gap_none; [done|lia|lia]. }
  rewrite size_list_to_set in Hs by done. unfold l in Hs. rewrite length_fmap, length_seq in Hs. lia.
Qed.

Definition raise_id (m c : N) : N := if decide (c ≠ AGGREGATED_CHANNEL_ID) then N.max m c else m.

Lemma raise_id_ge ids m : m ≤ foldl raise_id m ids.
Proof.
  revert m. induction ids as [|x ids IH]; intros m; simpl; [lia|]. etrans; [|apply IH].
  unfold raise_id. case_decide; lia.
Qed.

Lemma highest_id_ge (ids : list N) c :
  c ∈ ids → c ≠ AGGREGATED_CHANNEL_ID → c ≤ highest_id ids.
Proof.
  change (highest_id ids) with (foldl raise_id 0 ids). generalize 0 as m.
  induction ids as [|x ids IH]; intros m; [by intros []%elem_of_nil|].
  intros [->|Hc]%elem_of_cons Ha; simpl; [|by apply IH].
  etrans; [|apply raise_id_ge]. unfold raise_id. rewrite decide_True by done. lia.
Qed.

Lemma highest_id_attained (ids : list N) :
  highest_id ids = 0 ∨ highest_id ids ∈ ids ∧ highest_id ids ≠ AGGREGATED_CHANNEL_ID.
Proof.
  change (highest_id ids) with (foldl raise_id 0 ids).
  assert (∀ m, foldl raise_id m ids = m ∨
    foldl raise_id m ids ∈ ids ∧ foldl raise_id m ids ≠ AGGREGATED_CHANNEL_ID) as Hm; [|apply Hm].
  induction ids as [|x ids IH]; intros m; simpl; [by left|].
  destruct (IH (raise_id m x)) as [->|[Hin Hne]]; [|right; split; [by right|done]].
  unfold raise_id. case_decide; [|by left]. destruct (N.max_spec m x) as [[_ ->]|[_ ->]]; [|by left].
  right. split; [by left|done].
Qed.

(** The id given to a miner's channel in aggregated mode is free and never
    the reserved one; it is above all others, or, when the highest id is in
    use, the least free one; a request is refused only when every id is in
    use.  The scan for a free id is bounded by the number of channels. *)
Theorem next_channel_id_spec (ord : gset N → list N) (used : gset N) :
  iteration ord →
  match next_channel_id ord used with
  | Some id =>
      id ∉ used ∧ 1 ≤ id < AGGREGATED_CHANNEL_ID ∧
      ((∀ c, c ∈ used → c ≠ AGGREGATED_CHANNEL_ID → c < id) ∨
       (∃ c, c ∈ used ∧ AGGREGATED_CHANNEL_ID - 1 ≤ c) ∧ ∀ c, 1 ≤ c < id → c ∈ used)
  | None => ∀ c, 1 ≤ c < AGGREGATED_CHANNEL_ID → c ∈ used
  end.
Proof.
  intros Ho. unfold next_channel_id. cbv zeta.
  assert (∀ c, c ∈ used → c ≠ AGGREGATED_CHANNEL_ID → c ≤ highest_id (ord used)) as Hge.
  { intros c Hc. apply highest_id_ge. by apply iteration_elem. }
  case_decide as Hd.
  - split_and!; [|unfold AGGREGATED_CHANNEL_ID in *; lia..|].
    + intros Hin. destruct Hd as [_ Hne]. specialize (Hge _ Hin Hne). lia.
    + left. intros c Hc Hne. specialize (Hge c Hc Hne). lia.
  - destruct (find_gap _ 1 used) as [id|] eqn:Eg; [|by apply find_gap_enough].
    apply find_gap_some in Eg as (Hid & Hfree & Hall). split_and!; [done|lia|lia|].
    right. split; [|done]. destruct (highest_id_attained (ord used)) as [E|[Hin Hne]].
    + rewrite E in Hd. unfold AGGREGATED_CHANNEL_ID in Hd. lia.
    + exists (highest_id (ord used)). split; [by apply (iteration_elem ord)|].
      unfold AGGREGATED_CHANNEL_ID in *. lia.
Qed.

Lemma next_channel_id_fresh ord used id :
  iteration ord → next_channel_id ord used = Some id →
  id ∉ used ∧ id ≠ AGGREGATED_CHANNEL_ID ∧ 1 ≤ id.
Proof.
  intros Ho E. unfold next_channel_id in E. cbv zeta in E. case_decide as Hd; simplify_eq.
  - split_and!; [|lia|lia]. intros Hin. destruct Hd as [_ Hne].
    assert (highest_id (ord used) + 1 ≤ highest_id (ord used)); [|lia].
    apply highest_id_ge; [by apply iteration_elem|done].
  - apply find_gap_some in E as (Hid & Hfree & _). split_and!; [done|lia|lia].
Qed.

(** ** Names *)

Lemma floor_char_boundary_spec s e :
  (e ≤ String.length s)%nat →
  (floor_char_boundary s e ≤ e)%nat ∧ is_char_boundary s (floor_char_boundary s e) = true ∧
  ∀ i, (floor_char_boundary s e < i ≤ e)%nat → is_char_boundary s i = false.
Proof.
  induction e as [|e IH]; intros He; cbn [floor_char_boundary].
  - split_and!; [lia|done|lia].
  - destruct (is_char_boundary s (S e)) eqn:Eb; [split_and!; [lia|done|lia]|].
    destruct IH as (Hle & Hb & Hmax); [lia|]. split_and!; [lia|done|].
    intros i Hi. destruct (decide (i = S e)) as [->|]; [done|]. apply Hmax. lia.
Qed.

Lemma substring_length s n : (n ≤ String.length s)%nat → String.length (String.substring 0 n s) = n.
Proof.
  revert n. induction s as [|c s IH]; intros [|n]; simpl; [done|lia|done|].
  intros Hn. f_equal. apply IH. lia.
Qed.

Lemma substring_prefix s n : String.prefix (String.substring 0 n s) s = true.
Proof.
  revert n. induction s as [|c s IH]; intros [|n]; simpl; [done..|].
  destruct (Ascii.ascii_dec c c); [apply IH|done].
Qed.

Section names.
Context `{CC : ClientChannels}.

(** The worker name a share carries upstream is the miner's name when it
    fits, and otherwise its longest prefix that fits and does not cut a
    character in two. *)
Theorem tlv_name_is_longest_prefix (name : string) :
  ∃ sent, tlv_user_identity_from_sv1_worker_name name =
            match user_identity_new sent with
            | Some u => Ok u
            | None => Err (InvalidUserIdentity sent)
            end ∧
    String.prefix sent name = true ∧ (String.length sent ≤ MAX_USER_IDENTITY_LENGTH)%nat ∧
    is_char_boundary name (String.length sent) = true ∧
    ∀ i, (String.length sent < i ≤ MAX_USER_IDENTITY_LENGTH)%nat → (i ≤ String.length name)%nat →
      is_char_boundary name i = false.
Proof.
  unfold tlv_user_identity_from_sv1_worker_name.
  destruct (Nat.leb_spec (String.length name) MAX_USER_IDENTITY_LENGTH) as [Hl|Hl].
  - exists name. split_and!; [done| |done| |intros; lia].
    + pose proof (substring_prefix name (String.length name)) as Hp.
      assert (String.substring 0 (String.length name) name = name) as E; [|by rewrite E in Hp].
      clear. induction name as [|c s IH]; simpl; congruence.
    + unfold is_char_boundary. case_match; [done|].
      assert (String.get (String.length name) name = None) as ->; [|by apply Nat.eqb_eq].
      clear. induction name as [|c s IH]; simpl; congruence.
  - destruct (floor_char_boundary_spec name MAX_USER_IDENTITY_LENGTH) as (Hle & Hb & Hmax); [lia|].
    eexists. split; [reflexivity|]. rewrite substring_length by lia.
    split_and!; [apply substring_prefix|done|done|]. intros i Hi _. by apply Hmax.
Qed.
End names.

(** ** The message loop *)
Section loop.
Context `{BitcoinApi} `{AddressApi} {CC : ClientChannels}.
Context (mode : TproxyMode) (max_past_jobs : option N).
Context (supported_extensions required_extensions : list N).
Implicit Types (t : Task) (R : ChannelManager → ChannelManager → Prop).

Lemma after_handler_rel R (p : handler unit) t toks :
  wp p (λ _ s', R (manager t) s') (manager t) → (∀ s, R s s) →
  (∀ s s', R s s' → R s (close_io s')) →
  R (manager t) (manager (after_handler (with_tokens t toks) (p (manager t)))).
Proof.
  intros Hp Hrefl Hclose. unfold after_handler. destruct (p (manager t)) as [[[[]|e] s]|] eqn:Ep.
  - apply (wp_sound _ _ _ _ _ Hp Ep).
  - assert (R (manager t) s) as Hs by apply (wp_sound _ _ _ _ _ Hp Ep).
    destruct (handle_error_action e _) as [[] ?]; simpl; auto.
  - apply Hrefl.
Qed.

(** A step, with what the handler of the upstream's message does in it. *)
Lemma task_step_at R t t' :
  (∀ toks ord received, running t = true → calm t → later (tokens t) toks → iteration ord →
     t' = after_handler (with_tokens t toks) (handle_upstream_frame mode max_past_jobs
            supported_extensions required_extensions ord received (manager t)) →
     wp (handle_upstream_frame mode max_past_jobs supported_extensions required_extensions ord
           received) (λ _ s', R (manager t) s') (manager t)) →
  (∀ ord received, iteration ord →
     evolves R (handle_downstream_message mode max_past_jobs ord received)) →
  (∀ s, R s s) → (∀ s s', R s s' → R s (close_io s')) →
  (∀ s up sv1, let io := channel_manager_io s in
     R s (put_io {| upstream_open := up; sv1_open := sv1; to_upstream := to_upstream io;
                    to_sv1 := to_sv1 io |} s)) →
  task_step mode max_past_jobs supported_extensions required_extensions t t' →
  R (manager t) (manager t').
Proof.
  intros Hup Hdown Hrefl Hclose Hio Hstep. destruct Hstep; simpl.
  - apply (after_handler_rel _ (handle_upstream_frame _ _ _ _ _ _)); [by eapply Hup|done|done].
  - by apply (after_handler_rel _ (handle_downstream_message _ _ _ _)); [apply Hdown|..].
  - apply Hrefl.
  - apply Hclose, Hrefl.
  - apply Hio.
Qed.

(** What every handler does to the manager, the loop does. *)
Lemma task_step_rel R t t' :
  (∀ ord received, iteration ord → evolves R (handle_upstream_frame mode max_past_jobs
     supported_extensions required_extensions ord received)) →
  (∀ ord received, iteration ord →
     evolves R (handle_downstream_message mode max_past_jobs ord received)) →
  (∀ s, R s s) → (∀ s s', R s s' → R s (close_io s')) →
  (∀ s up sv1, let io := channel_manager_io s in
     R s (put_io {| upstream_open := up; sv1_open := sv1; to_upstream := to_upstream io;
                    to_sv1 := to_sv1 io |} s)) →
  task_step mode max_past_jobs supported_extensions required_extensions t t' →
  R (manager t) (manager t').
Proof. intros Hup. apply task_step_at. intros toks ord received _ _ _ Hord _. by apply Hup. Qed.

(** An error after which the loop goes on. *)
Definition settled (r : result unit TproxyError) : Prop :=
  match r with
  | Ok _ => True
  | Err e => match action e with Log | Disconnect _ => True | Fallback | Shutdown => False end
  end.

(** [I] holds whenever a handler may start, [J] always. *)
Definition maintains (I J : ChannelManager → Prop) (p : handler unit) : Prop :=
  ∀ s, I s → J s → wp p (λ r s', J s' ∧ (settled r → I s')) s.

Lemma maintains_evolves I J R (p : handler unit) :
  evolves R p → (∀ s s', R s s' → I s → I s') → (∀ s s', R s s' → J s → J s') → maintains I J p.
Proof.
  intros Hp HI HJ s Is Js. eapply wp_mono; [|apply Hp]. intros r s' HR.
  split; [exact (HJ _ _ HR Js)|]. intros _. exact (HI _ _ HR Is).
Qed.

Definition task_ok (I J : ChannelManager → Prop) t : Prop :=
  J (manager t) ∧ (running t = true → calm t → I (manager t)).

Lemma after_handler_ok I J (p : handler unit) t toks :
  maintains I J p → (∀ s, J s → J (close_io s)) →
  I (manager t) → J (manager t) →
  task_ok I J (after_handler (with_tokens t toks) (p (manager t))).
Proof.
  intros Hp Hclose Is Js. unfold after_handler, task_ok, calm.
  destruct (p (manager t)) as [[[[]|e] s]|] eqn:Ep; [| |by split].
  - destruct (wp_sound _ _ _ _ _ (Hp _ Is Js) Ep) as [Js' Is']. simpl. split; [done|].
    intros _ _. by apply Is'.
  - destruct (wp_sound _ _ _ _ _ (Hp _ Is Js) Ep) as [Js' Is']. unfold handle_error_action. simpl.
    destruct (cancelled toks) eqn:Ec; simpl.
    { split; [done|]. intros _ [? _]. congruence. }
    destruct (fallback_cancelled toks) eqn:Ef; simpl.
    { split; [done|]. intros _ [_ ?]. congruence. }
    simpl in Is'. destruct (action e); simpl; (split; [by auto|]); try done; intros _ _; by apply Is'.
Qed.

Lemma reachable_ok (I J : ChannelManager → Prop) payout t :
  (∀ ord received, iteration ord → maintains I J (handle_upstream_frame mode max_past_jobs
     supported_extensions required_extensions ord received)) →
  (∀ ord received, iteration ord →
     maintains I J (handle_downstream_message mode max_past_jobs ord received)) →
  (∀ s up sv1, let io := channel_manager_io s in
     let s' := put_io {| upstream_open := up; sv1_open := sv1; to_upstream := to_upstream io;
                         to_sv1 := to_sv1 io |} s in (J s → J s') ∧ (I s → I s')) →
  I (manager (start_task payout)) → J (manager (start_task payout)) →
  task_reachable mode max_past_jobs supported_extensions required_extensions payout t →
  task_ok I J t.
Proof.
  intros Hup Hdown Hio I0 J0. revert t. apply (rtc_ind_r (task_ok I J)); [by split|].
  intros t1 t2 _ Hstep [Js Is]. destruct Hstep as
    [t toks ord received Hrun Hcalm Hl Ho|t toks ord received Hrun Hcalm Hl Ho|t toks Hl|t Hrun Hcalm|
     t up sv1 io Hu Hs].
  - apply (after_handler_ok I J (handle_upstream_frame _ _ _ _ _ _)); [by apply Hup|intros s; apply (Hio s false false)|auto|done].
  - apply (after_handler_ok I J (handle_downstream_message _ _ _ _)); [by apply Hdown|intros s; apply (Hio s false false)|auto|done].
  - split; [done|]. simpl. intros Hrun [Hc Hf]. apply Is; [done|]. destruct Hl as [Hl1 Hl2].
    split; [destruct (cancelled (tokens t))|destruct (fallback_cancelled (tokens t))];
      try done; simpl in *; naive_solver.
  - split; [by apply (Hio _ false false)|done].
  - split; [by apply (Hio _ up sv1)|]. simpl. intros Hrun Hcalm. by apply (Hio _ up sv1), Is.
Qed.
End loop.
