(* ===== verification/TproxyHistory.v ===== *)
(** * Translator: what the channel manager sends

    Two properties of everything [TproxyManager] ever sends.  Towards the SV1
    server: a job follows the announcement of the extranonce prefix its shares
    are checked with.  Towards the upstream: the shares of a channel are
    numbered 1, 2, 3, ... *)
From S2P Require Import Prelude Handler SharedMap Bitcoin Payout ShareCache ClientChannels TproxyManager TproxyIds.

Section history.
Context `{BitcoinApi} `{AddressApi} {CC : ClientChannels} {CL : ClientLaws CC}.
Context (mode : TproxyMode) (max_past_jobs : option N).
Context (supported_extensions required_extensions : list N).
Implicit Types (s : ChannelManager) (h : list Sv1Message).

Definition sv1_history s : list Sv1Message := to_sv1 (channel_manager_io s).
Definition upstream_history s : list UpstreamMessage := to_upstream (channel_manager_io s).

(** ** Announcements *)

(** The prefix a message announces to a miner. *)
Definition announces (m : Sv1Message) : option (N * list byte) :=
  match m with
  | DownOpenSuccess m => Some (oes_channel_id m, oes_extranonce_prefix m)
  | DownSetExtranoncePrefix c p => Some (c, p)
  | _ => None
  end.

(** The prefix each channel was told last. *)
Definition hear (told : gmap N (list byte)) (m : Sv1Message) : gmap N (list byte) :=
  match announces m with Some (c, p) => <[c := p]> told | None => told end.
Definition announced h : gmap N (list byte) := foldl hear ∅ h.

Definition is_job (m : Sv1Message) : bool :=
  match m with DownNewExtendedMiningJob _ => true | _ => false end.

(** The channels of miners a job is for. *)
Definition addressed (m : NewExtendedMiningJob) (c : N) s : Prop :=
  c ≠ AGGREGATED_CHANNEL_ID ∧
  (nj_channel_id m = c ∨
   nj_channel_id m = AGGREGATED_CHANNEL_ID ∧ is_Some (extended_channels s !! c)).

(** The job [m] is the active job of channel [c], whose miner was told the
    prefix it captured. *)
Definition ready h (m : NewExtendedMiningJob) (c : N) s : Prop :=
  ∃ ch j, extended_channels s !! c = Some ch ∧ get_active_job ch = Some j ∧
    nj_job_id (job_message j) = nj_job_id m ∧ announced h !! c = Some (job_extranonce_prefix j).

Definition jobs_ready h new s : Prop :=
  ∀ pre m post c, new = pre ++ DownNewExtendedMiningJob m :: post → addressed m c s →
    ready (h ++ pre) m c s.

Definition noted s : Prop := sv1_advertised_extranonce_prefixes s ⊆ announced (sv1_history s).

(** What a handler may do: nothing about jobs; hand out jobs while only
    channels are added ([unicast]) or none; and anything that ends well. *)
Definition quiet s s' : Prop :=
  (noted s → noted s') ∧
  ∃ new, sv1_history s' = sv1_history s ++ new ∧ Forall (λ m, is_job m = false) new.

Record delivers (unicast : bool) s s' : Prop := {
  del_channels : extended_channels s ⊆ extended_channels s';
  del_same : unicast = false → extended_channels s' = extended_channels s;
  del_noted : noted s → noted s';
  del_jobs : noted s → ∃ new, sv1_history s' = sv1_history s ++ new ∧
    jobs_ready (sv1_history s) new s' ∧
    (unicast = true → ∀ m, DownNewExtendedMiningJob m ∈ new →
       nj_channel_id m ≠ AGGREGATED_CHANNEL_ID);
}.

Definition hands_out s s' : Prop :=
  noted s → noted s' ∧
  ∃ new, sv1_history s' = sv1_history s ++ new ∧ jobs_ready (sv1_history s) new s'.

Lemma announced_app h h' : announced (h ++ h') = foldl hear (announced h) h'.
Proof. apply foldl_app. Qed.

Lemma no_jobs_ready h new s : Forall (λ m, is_job m = false) new → jobs_ready h new s.
Proof.
  intros Hn pre m post c -> _. rewrite Forall_app, Forall_cons in Hn. naive_solver.
Qed.

#[export] Instance quiet_preorder : PreOrder quiet.
Proof.
  split.
  - intros s. split; [done|]. exists []. by rewrite app_nil_r.
  - intros s1 s2 s3 [N1 (n1 & E1 & F1)] [N2 (n2 & E2 & F2)]. split; [auto|].
    exists (n1 ++ n2). rewrite E2, E1, app_assoc. split; [done|]. by apply Forall_app.
Qed.

(** Splitting at a job in a concatenation. *)
Lemma split_app {A} (l1 l2 pre post : list A) x :
  l1 ++ l2 = pre ++ x :: post →
  (∃ post1, l1 = pre ++ x :: post1) ∨ (∃ pre2, pre = l1 ++ pre2 ∧ l2 = pre2 ++ x :: post).
Proof.
  intros E. apply app_eq_app in E as (l & [[-> E]|[-> E]]).
  - destruct l as [|y l]; simplify_eq/=.
    + right. exists []. by rewrite !app_nil_r.
    + left. by exists l.
  - right. by exists l.
Qed.

Lemma jobs_ready_app h n1 n2 s : jobs_ready h n1 s → jobs_ready (h ++ n1) n2 s →
  jobs_ready h (n1 ++ n2) s.
Proof.
  intros H1 H2 pre m post c E Ha.
  apply split_app in E as [[post1 ->]|(pre2 & -> & ->)]; [by eapply H1|].
  rewrite app_assoc. by eapply H2.
Qed.

Lemma jobs_ready_mono h new s s' :
  extended_channels s ⊆ extended_channels s' →
  (∀ m, DownNewExtendedMiningJob m ∈ new → nj_channel_id m = AGGREGATED_CHANNEL_ID →
     extended_channels s' = extended_channels s) →
  jobs_ready h new s → jobs_ready h new s'.
Proof.
  intros Hsub Hb Hr pre m post c E [Hc Ha].
  assert (DownNewExtendedMiningJob m ∈ new) as Hm by (rewrite E; set_solver).
  destruct (Hr pre m post c E) as (ch & j & Hch & Hj); [|exists ch, j; split; [|done]; by eapply lookup_weaken].
  split; [done|]. destruct Ha as [->|[Ha Hs]]; [by left|right].
  split; [done|]. by rewrite <-(Hb m).
Qed.

#[export] Instance delivers_preorder unicast : PreOrder (delivers unicast).
Proof.
  split.
  - intros s. split; [done..|]. intros _. exists []. rewrite app_nil_r. split_and!; [done| |].
    + intros pre m post c E. by destruct pre.
    + intros _ m Hm. by apply not_elem_of_nil in Hm.
  - intros s1 s2 s3 [C1 S1 N1 J1] [C2 S2 N2 J2]. split; [by etrans|intros Hu| auto|].
    { rewrite S2, S1; done. }
    intros Hn. destruct (J1 Hn) as (n1 & E1 & R1 & U1), (J2 (N1 Hn)) as (n2 & E2 & R2 & U2).
    exists (n1 ++ n2). rewrite E2, E1, app_assoc in *. split_and!; [done| |].
    + apply jobs_ready_app; [|done]. eapply jobs_ready_mono; [exact C2| |exact R1].
      intros m Hm Hb. destruct unicast; [by destruct (U1 eq_refl m Hm)|by apply S2].
    + intros Hu m [Hm|Hm]%elem_of_app; [by apply U1|by apply U2].
Qed.

Lemma delivers_hands_out unicast s s' : delivers unicast s s' → hands_out s s'.
Proof.
  intros [_ _ N J] Hn. split; [auto|]. destruct (J Hn) as (new & E & R & _). by exists new.
Qed.

Lemma quiet_hands_out s s' : quiet s s' → hands_out s s'.
Proof.
  intros [N (new & E & F)] Hn. split; [auto|]. exists new. split; [done|]. by apply no_jobs_ready.
Qed.

Lemma quiet_then s1 s2 s3 : quiet s1 s2 → hands_out s2 s3 → hands_out s1 s3.
Proof.
  intros [N1 (n1 & E1 & F1)] H2 Hn. destruct (H2 (N1 Hn)) as [N3 (n2 & E2 & R2)].
  split; [done|]. exists (n1 ++ n2). rewrite E2, E1, app_assoc in *. split; [done|].
  apply jobs_ready_app; [by apply no_jobs_ready|done].
Qed.

Lemma hands_out_bind {A B} (m : handler A) (k : A → handler B) :
  evolves quiet m → (∀ a, evolves hands_out (k a)) → evolves hands_out (m ≫= k).
Proof. apply evolves_bind_after; [apply quiet_hands_out|apply quiet_then]. Qed.

Lemma hands_out_deliver_bind {A B} unicast (m : handler A) (k : A → handler B) :
  evolves quiet m → (∀ a, evolves (delivers unicast) (k a)) → evolves hands_out (m ≫= k).
Proof.
  intros Hm Hk. apply hands_out_bind; [done|]. intros a.
  eapply evolves_mono; [apply delivers_hands_out|apply Hk].
Qed.

(** ** Quiet handlers *)

(** State that does not matter here. *)
Lemma quiet_same s s' :
  sv1_history s' = sv1_history s →
  sv1_advertised_extranonce_prefixes s' ⊆ sv1_advertised_extranonce_prefixes s → quiet s s'.
Proof.
  intros E Hs. split.
  - unfold noted. intros Hn. rewrite E. by etrans.
  - exists []. rewrite E, app_nil_r. done.
Qed.

Lemma noted_quiet_send s m :
  announces m = None → is_job m = false → ∀ io, to_sv1 io = sv1_history s ++ [m] →
  quiet s (put_io io s).
Proof.
  intros Ha Hj io Eio. split.
  - unfold noted, sv1_history at 2. simpl. rewrite Eio, announced_app. simpl. unfold hear.
    by rewrite Ha.
  - exists [m]. split; [done|by constructor].
Qed.

Lemma quiet_send_sv1 m : announces m = None → is_job m = false → evolves quiet (send_sv1 m).
Proof.
  intros Ha Hj. unfold send_sv1. intros s. repeat wp_rule; [|done].
  by eapply noted_quiet_send.
Qed.

Lemma quiet_send_upstream m : evolves quiet (send_upstream m).
Proof. unfold send_upstream. intros s. repeat wp_rule; [|done]. by apply quiet_same. Qed.

Lemma advertise_wp m c p s :
  announces m = Some (c, p) → is_job m = false →
  wp (advertise m c p) (λ r s', quiet s s' ∧ extended_channels s' = extended_channels s ∧
    (r = Ok tt → sv1_history s' = sv1_history s ++ [m] ∧
       sv1_advertised_extranonce_prefixes s' = <[c := p]> (sv1_advertised_extranonce_prefixes s))) s.
Proof.
  intros Ha Hj. unfold advertise, send_sv1. repeat wp_rule; simpl; [|done].
  split_and!; [|done|done]. split.
  - unfold noted, sv1_history at 2. simpl. intros Hn. unfold sv1_history in *.
    rewrite announced_app. simpl. unfold hear. rewrite Ha. by apply insert_mono.
  - exists [m]. split; [done|by constructor].
Qed.

Lemma quiet_update f :
  (∀ s, sv1_history (f s) = sv1_history s ∧
        sv1_advertised_extranonce_prefixes (f s) ⊆ sv1_advertised_extranonce_prefixes s) →
  evolves quiet (update (E := TproxyError) f).
Proof. intros Hf. apply evolves_update. intros s. by apply quiet_same; apply Hf. Qed.

Lemma quiet_transact {A} (f : ChannelManager → A * ChannelManager) :
  (∀ s, sv1_history (f s).2 = sv1_history s ∧
        sv1_advertised_extranonce_prefixes (f s).2 ⊆ sv1_advertised_extranonce_prefixes s) →
  evolves quiet (transact (E := TproxyError) f).
Proof. intros Hf. apply evolves_transact. intros s. by apply quiet_same; apply Hf. Qed.

Lemma quiet_channel {A} k (absent : handler A) p :
  evolves quiet absent → evolves quiet (with_channel k absent p).
Proof.
  intros Ha. apply (evolves_focus _ _ _ _ _ _ (λ _ _, True)); [done| |].
  - intros s. unfold wp. by destruct (p s) as [[]|].
  - intros s v v' _ _. by apply quiet_same.
Qed.
End history.

(** The parts of a handler that send no job. *)
Ltac quiet_step :=
  first
    [ evolve_rule
    | apply quiet_send_upstream
    | apply quiet_send_sv1; reflexivity
    | apply quiet_channel
    | apply quiet_update; intros ?; split; [reflexivity|first [reflexivity|apply gmap_delete_subseteq]]
    | apply quiet_transact; intros ?; simpl; repeat case_match; simplify_eq/=; done
    ].
Ltac quiet := repeat quiet_step.

Section forwarding.
Context `{BitcoinApi} `{AddressApi} {CC : ClientChannels} {CL : ClientLaws CC}.
Context (mode : TproxyMode) (max_past_jobs : option N).
Context (supported_extensions required_extensions : list N).
Implicit Types (s : ChannelManager).

Lemma quiet_advertise m c p :
  announces m = Some (c, p) → is_job m = false → evolves quiet (advertise m c p).
Proof.
  intros Ha Hj s. eapply wp_mono; [|by apply advertise_wp]. by intros r s' [Hq _].
Qed.

(** ** A job is forwarded *)

(** Announcing the prefixes: they are noted, and what was noted for other
    channels stays. *)
Definition notes (l : list (N * list byte)) s s' : Prop :=
  (∀ c p, (c, p) ∈ l → sv1_advertised_extranonce_prefixes s' !! c = Some p) ∧
  ∀ c, c ∉ l.*1 → sv1_advertised_extranonce_prefixes s' !! c =
                  sv1_advertised_extranonce_prefixes s !! c.

Definition announces_all l (r : result unit TproxyError) s s' : Prop :=
  quiet s s' ∧ extended_channels s' = extended_channels s ∧ (r = Ok tt → notes l s s').

Lemma announce_prefix_wp c p s :
  wp (announce_prefix (c, p)) (λ r s', announces_all [(c, p)] r s s') s.
Proof.
  unfold announce_prefix, announces_all, notes. repeat wp_rule; try done; simpl.
  - split_and!; [done|done|]. intros _. split; [|done]. set_solver.
  - eapply wp_mono; [|by apply advertise_wp]. intros r s' (Q & C & A). split_and!; [done|done|].
    intros Hr. destruct (A Hr) as [_ ->]. split.
    + intros c' p' [[= -> ->]|Hin]%elem_of_cons; [apply lookup_insert_eq|set_solver].
    + intros c' Hne. apply lookup_insert_ne. set_solver.
Qed.

Lemma announce_prefixes_wp (l : list (N * list byte)) s :
  NoDup l.*1 → wp (for_each l announce_prefix) (λ r s', announces_all l r s s') s.
Proof.
  revert s. induction l as [|[c p] l IH]; intros s Hnd.
  { apply wp_ret. split_and!; try done. intros _. split; [set_solver|done]. }
  apply NoDup_cons in Hnd as [Hc Hnd]. cbn [for_each]. apply wp_bind.
  eapply wp_mono; [|apply announce_prefix_wp].
  intros [[]|e] s1 (Q1 & C1 & A1); cbn [andthen]; [|done].
  destruct (A1 eq_refl) as [A1' O1]. eapply wp_mono; [|by apply IH].
  intros r s2 (Q2 & C2 & A2). split_and!; [by etrans|congruence|]. intros Hr.
  destruct (A2 Hr) as [A2' O2]. split.
  - intros c' p' [[= -> ->]|Hin]%elem_of_cons; [|by apply A2'].
    rewrite O2 by done. apply A1'. by left.
  - intros c' [Hne Hc']%not_elem_of_cons. rewrite O2, O1; [done|set_solver|done].
Qed.

(** The prefixes of a job are those its channels captured. *)
Lemma job_prefixes_spec ord m s l :
  iteration ord → active_job_extranonce_prefixes ord m s = Some l →
  NoDup l.*1 ∧
  (∀ c, addressed m c s → ∃ p, (c, p) ∈ l) ∧
  ∀ c p, (c, p) ∈ l → ∃ ch j, extended_channels s !! c = Some ch ∧ get_active_job ch = Some j ∧
    nj_job_id (job_message j) = nj_job_id m ∧ job_extranonce_prefix j = p.
Proof.
  intros Ho. unfold active_job_extranonce_prefixes.
  set (one := λ c, extended_channels s !! c ≫= active_prefix m c).
  assert (∀ c q, one c = Some q → q.1 = c ∧ ∃ ch j, extended_channels s !! c = Some ch ∧
    get_active_job ch = Some j ∧ nj_job_id (job_message j) = nj_job_id m ∧
    job_extranonce_prefix j = q.2) as Hone.
  { intros c q. unfold one, active_prefix. destruct (extended_channels s !! c) as [ch|] eqn:Ech; [|done].
    simpl. destruct (get_active_job ch) as [j|] eqn:Ej; [|done]. case_decide; [|done].
    intros [= <-]. split; [done|]. by exists ch, j. }
  fold one. case_decide as Hm.
  - intros Hl%mapM_Some. set (cs := filter _ _) in Hl.
    assert (l.*1 = cs) as Ecs.
    { clear -Hl Hone. induction Hl as [|c q cs l Hq _ IH]; [done|]. rewrite fmap_cons, IH.
      by destruct (Hone _ _ Hq) as [-> _]. }
    split_and!.
    + rewrite Ecs. apply NoDup_filter. by apply iteration_nodup.
    + intros c [Hc [Ha|[_ Hs]]]; [congruence|].
      assert (c ∈ l.*1) as ([c' p] & -> & Hin)%list_elem_of_fmap; [|by exists p].
      rewrite Ecs. apply list_elem_of_filter. split; [done|]. apply iteration_elem; [done|].
      by apply elem_of_dom.
    + intros c p Hin. apply list_elem_of_lookup in Hin as [i Hi].
      destruct (Forall2_lookup_r _ _ _ _ _ Hl Hi) as (c' & _ & Hq).
      destruct (Hone _ _ Hq) as [E Hx]. simpl in *. by subst.
  - intros ([c p] & Hq & ->)%fmap_Some. destruct (Hone _ _ Hq) as [E Hx]. simpl in *. subst c.
    split_and!.
    + apply NoDup_singleton.
    + intros c [Hc [<-|[Ha _]]]; [|done]. exists p. by left.
    + intros c p' Hin. apply list_elem_of_singleton in Hin. by simplify_eq.
Qed.

Lemma forward_delivers ord m unicast :
  iteration ord → (unicast = true → nj_channel_id m ≠ AGGREGATED_CHANNEL_ID) →
  evolves (delivers unicast) (forward_job_to_sv1_server ord m).
Proof.
  intros Ho Hu s. unfold forward_job_to_sv1_server. wp_rule. wp_rule. wp_rule. wp_rule.
  wp_rule; [|wp_rule; reflexivity]. wp_rule. rename a into l.
  destruct (job_prefixes_spec ord m s l Ho H1) as (Hnd & Hall & Hl). simpl.
  apply wp_bind. eapply wp_mono; [|by apply announce_prefixes_wp].
  intros r s1 ([N1 (n1 & E1 & F1)] & C1 & A1).
  assert (∀ s2 new, extended_channels s2 = extended_channels s → (noted s → noted s2) →
    (noted s → sv1_history s2 = sv1_history s ++ new ∧ jobs_ready (sv1_history s) new s2 ∧
       ∀ m', DownNewExtendedMiningJob m' ∈ new → m' = m) → delivers unicast s s2) as Hd.
  { intros s2 new C2 N2 J2. split; [by rewrite C2|done|done|].
    intros Hn. destruct (J2 Hn) as (E2 & R2 & U2). exists new. split_and!; [done|done|].
    intros Hun m' Hm'. rewrite (U2 _ Hm'). by apply Hu. }
  assert (∀ new, Forall (λ m, is_job m = false) new → ∀ m', DownNewExtendedMiningJob m' ∈ new → m' = m) as Hnojob.
  { intros new Hf m' Hm'. rewrite Forall_forall in Hf. by specialize (Hf _ Hm'). }
  assert (delivers unicast s s1) as Hd1.
  { apply (Hd s1 n1 C1 N1). intros _. split_and!; [done|by apply no_jobs_ready|by apply Hnojob]. }
  destruct r as [[]|e]; cbn [andthen]; [|done].
  unfold send_sv1. repeat wp_rule; [|done].
  apply (Hd _ (n1 ++ [DownNewExtendedMiningJob m])).
  - done.
  - intros Hn. unfold noted, sv1_history at 1. simpl. fold (sv1_history s1).
    rewrite announced_app. by apply N1.
  - intros Hn. unfold sv1_history at 1. simpl. fold (sv1_history s1). rewrite E1, app_assoc.
    split_and!; [done| |].
    2: { intros m' [Hm'|Hm']%elem_of_app; [by apply (Hnojob n1)|].
         apply list_elem_of_singleton in Hm'. congruence. }
    intros pre m' post c E Ha.
    apply split_app in E as [[post1 ->]|(pre2 & -> & E)].
    { exfalso. rewrite Forall_app, Forall_cons in F1. naive_solver. }
    destruct pre2 as [|x [|]]; simplify_eq/=. rewrite app_nil_r, <-E1.
    destruct (Hall c) as [p Hp]; [destruct Ha as [? Ha]; split; [done|]; simpl in Ha; by rewrite C1 in Ha|].
    destruct (Hl c p Hp) as (ch & j & Hch & Hj & Hid & <-).
    exists ch, j. simpl. rewrite C1. split_and!; [done..|].
    eapply lookup_weaken; [|by apply N1]. by apply A1.
Qed.
End forwarding.

(** ** The handlers *)
Section handlers.
Context `{BitcoinApi} `{AddressApi} {CC : ClientChannels} {CL : ClientLaws CC}.
Context (mode : TproxyMode) (max_past_jobs : option N).
Context (supported_extensions required_extensions : list N).
Implicit Types (s : ChannelManager).

Lemma quiet_delivers s s' :
  quiet s s' → extended_channels s ⊆ extended_channels s' → delivers true s s'.
Proof.
  intros [N1 (new & E1 & F1)] Hc. split; [done|done|done|].
  intros _. exists new. split_and!; [done|by apply no_jobs_ready|].
  intros _ m Hm. rewrite Forall_forall in F1. by specialize (F1 _ Hm).
Qed.

Lemma quiet_drop_prefix p : evolves quiet (drop_prefix p).
Proof. unfold drop_prefix. quiet. Qed.
Lemma quiet_reject r code : evolves quiet (reject_downstream_channel_request r code).
Proof. by apply quiet_send_sv1. Qed.

(** Handlers that keep the channels. *)
Definition mute s s' : Prop := quiet s s' ∧ extended_channels s' = extended_channels s.

#[export] Instance mute_preorder : PreOrder mute.
Proof.
  split; [by split|]. intros ??? [Q1 C1] [Q2 C2]. split; [by etrans|congruence].
Qed.

Lemma mute_delivers s s' : mute s s' → delivers true s s'.
Proof. intros [Q C]. apply quiet_delivers; [done|by rewrite C]. Qed.

Lemma mute_send_sv1 m : announces m = None → is_job m = false → evolves mute (send_sv1 m).
Proof.
  intros Ha Hj. unfold send_sv1. intros s. repeat wp_rule; [|done].
  split; [|done]. by eapply noted_quiet_send.
Qed.
Lemma mute_drop_prefix p : evolves mute (drop_prefix p).
Proof. unfold drop_prefix. apply evolves_update. intros s. split; [by apply quiet_same|done]. Qed.

Lemma open_child_delivers ord request_id id user_identity hashrate size aggregate prefix s :
  iteration ord → id ≠ AGGREGATED_CHANNEL_ID → extended_channels s !! id = None →
  wp (open_child max_past_jobs ord request_id id user_identity hashrate size aggregate prefix)
    (λ _ s', delivers true s s') s.
Proof.
  intros Ho Hid Hfree. unfold open_child. case_match.
  2: { eapply wp_mono; [|apply (evolves_bind mute); [apply mute_drop_prefix|intros _; apply evolves_raise, _]].
       intros r s' Hm. by apply mute_delivers. }
  apply wp_bind, wp_on_value. eapply wp_mono; [|apply (wp_intro _ (λ _ _, True)); done].
  intros r c _. cbn [andthen]. destruct r as [success|e].
  2: { eapply wp_mono; [|apply (evolves_bind mute); [apply mute_drop_prefix|intros _; apply evolves_raise, _]].
       intros r s' Hm. by apply mute_delivers. }
  apply wp_bind, wp_update. cbn [andthen].
  set (s1 := put_channels _ s).
  assert (delivers true s s1) as Hs1.
  { apply quiet_delivers; [by apply quiet_same|]. by apply insert_subseteq. }
  apply (wp_mono _ (λ _ s', delivers true s1 s')); [intros r s2 Hs2; by etrans|].
  clearbody s1. clear Hs1. revert s1.
  change (evolves (delivers true) (ensure (fits_b032 success) (shutdown BinarySv2) ;; 
    advertise (DownOpenSuccess {| oes_request_id := request_id; oes_channel_id := id;
       oes_target := get_target aggregate; oes_extranonce_size := as_u16 size;
       oes_extranonce_prefix := success; oes_group_channel_id := 0 |}) id success ;;
    match get_active_job aggregate with
    | Some j => forward_job_to_sv1_server ord (job_for id (job_message j))
    | None => mret tt
    end)).
  apply evolves_bind; [apply _|apply evolves_ensure, _|intros _].
  apply evolves_bind; [apply _| |intros _].
  - intros s2. eapply wp_mono; [|by apply advertise_wp]. intros r s' (Q & C & _).
    apply quiet_delivers; [done|by rewrite C].
  - case_match; [by apply forward_delivers|apply evolves_ret, _].
Qed.

Lemma request_delivers ord request_id user_identity hashrate size :
  iteration ord →
  evolves (delivers true) (handle_downstream_channel_request_in_aggregated_mode max_past_jobs ord
    request_id user_identity hashrate size).
Proof.
  intros Ho. unfold handle_downstream_channel_request_in_aggregated_mode.
  apply evolves_bind; [apply _|apply evolves_ask, _|intros ?].
  apply evolves_bind; [apply _|apply evolves_some_or, _|intros aggregate].
  apply evolves_bind; [apply _| |intros ?].
  { apply evolves_transact. intros s. apply mute_delivers.
    destruct (aggregated_extranonce_allocator s); [destruct (allocate_extended _ _)|]; simpl;
      split; by try apply quiet_same. }
  apply evolves_bind; [apply _|apply evolves_some_or, _|intros [allocated rollable]].
  assert (∀ code, evolves (delivers true) (reject_downstream_channel_request request_id code)) as Hr.
  { intros code. eapply evolves_mono; [apply mute_delivers|by apply mute_send_sv1]. }
  assert (∀ p code, evolves (delivers true)
    (drop_prefix p;; reject_downstream_channel_request request_id code)) as Hd.
  { intros p code. apply evolves_bind; [apply _| |intros _; apply Hr].
    eapply evolves_mono; [apply mute_delivers|apply mute_drop_prefix]. }
  destruct allocated as [prefix|e]; case_decide; try done.
  intros s. apply wp_bind, wp_ask. cbn [andthen].
  destruct (next_channel_id ord _) as [id|] eqn:Eid; [|apply Hd].
  apply next_channel_id_fresh in Eid as (Hfree & Hne & _); [|done].
  apply open_child_delivers; [done|done|]. by apply not_elem_of_dom.
Qed.

Lemma open_pending_delivers ord :
  iteration ord →
  evolves (delivers true) (open_pending_aggregated_downstream_channels max_past_jobs ord).
Proof.
  intros Ho. unfold open_pending_aggregated_downstream_channels.
  apply evolves_bind; [apply _|apply evolves_ask, _|intros st]. case_decide; [|apply evolves_ret, _].
  apply evolves_bind; [apply _| |intros requests].
  - apply evolves_transact. intros s. apply mute_delivers. split; by try apply quiet_same.
  - apply evolves_for_each; [apply _|]. intros [r [[u h] n]]. by apply request_delivers.
Qed.

(** The job handlers: first the channels, then the miners. *)
Lemma quiet_verify m n : evolves quiet (verify_payout_distribution m n).
Proof. unfold verify_payout_distribution. quiet. Qed.
Lemma quiet_addressed ord c : evolves quiet (addressed_aggregate ord c).
Proof. unfold addressed_aggregate. quiet. Qed.

Lemma new_job_hands_out ord m :
  iteration ord → evolves hands_out (handle_new_extended_mining_job mode ord m).
Proof.
  intros Ho. unfold handle_new_extended_mining_job.
  apply hands_out_bind; [quiet|intros _].
  apply (hands_out_deliver_bind false); [|intros jobs].
  - destruct (is_aggregated mode).
    + unfold job_for_aggregate. quiet; [apply quiet_addressed|apply quiet_verify].
    + quiet; [unfold job_for_group|unfold job_for_channel]; quiet; apply quiet_verify.
  - apply evolves_for_each; [apply _|]. intros j. by apply forward_delivers.
Qed.

Lemma prev_hash_hands_out ord m :
  iteration ord → evolves hands_out (handle_set_new_prev_hash mode ord m).
Proof.
  intros Ho. unfold handle_set_new_prev_hash.
  apply hands_out_bind; [|intros messages].
  - destruct (is_aggregated mode).
    + unfold prev_hash_for_aggregate. quiet; apply quiet_addressed.
    + quiet; [unfold prev_hash_for_group|]; unfold prev_hash_for_channel; quiet.
  - apply (hands_out_deliver_bind false); [quiet|intros _].
    apply evolves_for_each; [apply _|]. intros j. by apply forward_delivers.
Qed.

Lemma quiet_allocate_under m k n : evolves quiet (allocate_under m k n).
Proof. unfold allocate_under. quiet. Qed.

Lemma open_success_hands_out ord m :
  iteration ord →
  evolves hands_out (handle_open_extended_mining_channel_success mode max_past_jobs ord m).
Proof.
  intros Ho. unfold handle_open_extended_mining_channel_success.
  apply hands_out_bind; [quiet|intros pending].
  apply hands_out_bind; [quiet|intros [r [[user_identity hashrate] len]]].
  apply hands_out_bind; [quiet|intros conflict].
  destruct conflict; [apply evolves_raise; intros s; apply quiet_hands_out; reflexivity|].
  apply hands_out_bind; [unfold add_to_group; quiet|intros _].
  apply hands_out_bind; [|intros success].
  - destruct (is_aggregated mode).
    + unfold open_aggregated, open_fallback. quiet; apply quiet_allocate_under.
    + unfold open_own, own_prefix, open_fallback. quiet; apply quiet_allocate_under.
  - apply (hands_out_deliver_bind true); [by eapply quiet_advertise|intros _].
    destruct (is_aggregated mode); [by apply open_pending_delivers|apply evolves_ret, _].
Qed.

(** The other handlers send no job. *)
Lemma quiet_remove_channel c : evolves quiet (remove_channel c).
Proof. unfold remove_channel. quiet; apply quiet_drop_prefix. Qed.
Lemma quiet_build_group aggregate ids g : evolves quiet (build_group aggregate ids g).
Proof. revert g. induction ids as [|c ids IH]; intros g; cbn [build_group]; unfold member_size; quiet; apply IH. Qed.

Lemma upstream_frame_hands_out ord received :
  iteration ord →
  evolves hands_out (handle_upstream_frame mode max_past_jobs supported_extensions
    required_extensions ord received).
Proof.
  intros Ho. unfold handle_upstream_frame. apply hands_out_bind; [quiet|intros frame].
  assert (∀ p : handler unit, evolves quiet p → evolves hands_out p) as Hq.
  { intros p. apply evolves_mono, quiet_hands_out. }
  destruct frame;
    [apply Hq|by apply open_success_hands_out|apply Hq|apply Hq|apply Hq|apply Hq|apply Hq|apply Hq
    |apply Hq|by apply new_job_hands_out|by apply prev_hash_hands_out|apply Hq..];
    unfold handle_open_mining_channel_error, open_fallback, handle_close_channel, closed_channels,
      handle_set_extranonce_prefix, change_allocator_prefix, handle_submit_shares_success,
      handle_submit_shares_error, handle_set_target, target_for_aggregate, target_for_channel,
      handle_set_group_channel, handle_request_extensions_success, handle_request_extensions_error,
      remove_advertised, leave_groups;
    quiet; first [apply quiet_remove_channel|apply quiet_addressed|apply quiet_build_group].
Qed.

Lemma downstream_message_hands_out ord received :
  iteration ord →
  evolves hands_out (handle_downstream_message mode max_past_jobs ord received).
Proof.
  intros Ho. unfold handle_downstream_message.
  apply hands_out_bind; [quiet|intros [m worker]].
  assert (∀ p : handler unit, evolves quiet p → evolves hands_out p) as Hq.
  { intros p. apply evolves_mono, quiet_hands_out. }
  destruct m; [|apply Hq..].
  - unfold handle_open_extended_mining_channel, add_pending. destruct (is_aggregated mode); [|apply Hq; quiet].
    apply hands_out_bind; [quiet|intros st]. destruct st; [apply Hq; quiet..|].
    eapply evolves_mono; [apply delivers_hands_out|by apply request_delivers].
  - unfold handle_submit_shares_extended, submit_own, rewrite_aggregated_share, rewrite_own_share,
      validate_on, next_share_sequence_number, send_share. quiet.
  - unfold handle_update_channel. quiet.
  - unfold handle_close_downstream, remove_advertised, leave_groups. quiet; apply quiet_remove_channel.
  - quiet.
Qed.

(** ** Every run *)
Lemma hands_out_refl s : hands_out s s.
Proof. by apply quiet_hands_out. Qed.

Lemma hands_out_same s s' s'' :
  sv1_history s'' = sv1_history s' →
  sv1_advertised_extranonce_prefixes s'' = sv1_advertised_extranonce_prefixes s' →
  extended_channels s'' = extended_channels s' → hands_out s s' → hands_out s s''.
Proof.
  unfold hands_out, noted, jobs_ready, addressed, ready. intros -> -> ->. auto.
Qed.

Lemma step_hands_out t t' :
  task_step mode max_past_jobs supported_extensions required_extensions t t' →
  hands_out (manager t) (manager t').
Proof.
  apply task_step_rel.
  - intros. by apply upstream_frame_hands_out.
  - intros. by apply downstream_message_hands_out.
  - apply hands_out_refl.
  - intros s s'. by apply hands_out_same.
  - intros s up sv1. by eapply hands_out_same; [..|apply hands_out_refl].
Qed.

Lemma reachable_noted payout t :
  task_reachable mode max_past_jobs supported_extensions required_extensions payout t →
  noted (manager t).
Proof.
  apply (rtc_ind_r (λ t, noted (manager t))).
  - apply map_empty_subseteq.
  - intros t1 t2 _ Hs Hn. by apply (step_hands_out _ _ Hs).
Qed.

(** C35: whenever the translator hands a job to the SV1 server, every miner the
    job is for has that job as its channel's active one and was told before,
    as the last announcement to it, exactly the extranonce prefix with which
    the shares of this job are checked. *)
Theorem jobs_follow_their_prefix payout t t' pre m post c :
  task_reachable mode max_past_jobs supported_extensions required_extensions payout t →
  task_step mode max_past_jobs supported_extensions required_extensions t t' →
  sv1_history (manager t') = pre ++ DownNewExtendedMiningJob m :: post →
  (length (sv1_history (manager t)) ≤ length pre)%nat →
  addressed m c (manager t') → ready pre m c (manager t').
Proof.
  intros Hr Hs E Hlen Ha. destruct (step_hands_out _ _ Hs (reachable_noted _ _ Hr)) as [_ (new & E' & R)].
  rewrite E' in E. apply split_app in E as [[post1 E]|(pre2 & -> & ->)].
  - exfalso. apply (f_equal length) in E. rewrite length_app in E. simpl in E. lia.
  - by eapply R.
Qed.

(** ** Shares on their way upstream *)

(** The numbers the shares of a channel carried. *)
Definition share_numbers (c : N) (h : list UpstreamMessage) : list N :=
  omap (λ m, match m with
             | UpSubmitSharesExtended m _ =>
                 if decide (sse_channel_id m = c) then Some (sequence_number m) else None
             | _ => None
             end) h.

(** The first [n] numbers of an [AtomicU32]-like counter. *)
Definition numbers (n : nat) : list N := (λ i, u32_wrap (N.of_nat i)) <$> seq 1 n.

Definition numbered s : Prop := ∀ c, ∃ n, share_numbers c (upstream_history s) = numbers n.
Definition counted s : Prop := ∀ c, ∃ n, share_numbers c (upstream_history s) = numbers n ∧
  default 0 (share_sequence_counters s !! c) = u32_wrap (N.of_nat n).

(** Handlers that send no share. *)
Definition shareless s s' : Prop :=
  share_sequence_counters s' = share_sequence_counters s ∧
  ∀ c, share_numbers c (upstream_history s') = share_numbers c (upstream_history s).

#[export] Instance shareless_preorder : PreOrder shareless.
Proof.
  split; [by split|]. intros ??? [C1 H1] [C2 H2]. split; [congruence|]. intros c. by rewrite H2.
Qed.

Lemma shareless_maintains p : evolves shareless p → maintains counted numbered p.
Proof.
  intros Hp. apply (maintains_evolves _ _ shareless); [done| |].
  - intros s s' [C E] Hs c. rewrite E, C. apply Hs.
  - intros s s' [C E] Hs c. rewrite E. apply Hs.
Qed.

Lemma shareless_update f :
  (∀ s, shareless s (f s)) → evolves shareless (update (E := TproxyError) f).
Proof. apply evolves_update. Qed.

Lemma shareless_send_sv1 m : evolves shareless (send_sv1 m).
Proof. unfold send_sv1. intros s. repeat wp_rule; [|done]. by split. Qed.
Lemma shareless_send_upstream m :
  (∀ c, share_numbers c [m] = []) → evolves shareless (send_upstream m).
Proof.
  intros Hm. unfold send_upstream. intros s. repeat wp_rule; [|done]. split; [done|]. intros c.
  unfold upstream_history. simpl. unfold share_numbers at 1. rewrite omap_app.
  fold (share_numbers c [m]). by rewrite Hm, app_nil_r.
Qed.
Lemma shareless_channel {A} k (absent : handler A) p :
  evolves shareless absent → evolves shareless (with_channel k absent p).
Proof.
  intros Ha. apply (evolves_focus _ _ _ _ _ _ (λ _ _, True)); [done| |by split].
  intros s. unfold wp. by destruct (p s) as [[]|].
Qed.

(** A share is sent under the next number. *)
Lemma send_share_wp worker m s n :
  (∀ c, c ≠ sse_channel_id m → ∃ n, share_numbers c (upstream_history s) = numbers n ∧
     default 0 (share_sequence_counters s !! c) = u32_wrap (N.of_nat n)) →
  share_numbers (sse_channel_id m) (upstream_history s) = numbers n →
  default 0 (share_sequence_counters s !! sse_channel_id m) = u32_wrap (N.of_nat (S n)) →
  sequence_number m = u32_wrap (N.of_nat (S n)) →
  wp (send_share worker m) (λ r s', numbered s' ∧ (settled r → counted s')) s.
Proof.
  intros Ho Hn Hc Hm.
  assert (numbered s) as Hs.
  { intros c. destruct (decide (c = sse_channel_id m)) as [->|Hne]; [by exists n|].
    destruct (Ho c Hne) as (k & Hk & _). by exists k. }
  assert (∀ u, wp (send_upstream (UpSubmitSharesExtended m u))
    (λ r s', numbered s' ∧ (settled r → counted s')) s) as Hsend.
  { intros u. unfold send_upstream. repeat wp_rule; [|by split].
    assert (counted (put_io {| upstream_open := upstream_open (channel_manager_io s);
      sv1_open := sv1_open (channel_manager_io s);
      to_upstream := to_upstream (channel_manager_io s) ++ [UpSubmitSharesExtended m u];
      to_sv1 := to_sv1 (channel_manager_io s) |} s)) as Hk.
    { intros c. unfold upstream_history, share_numbers. simpl. rewrite omap_app.
      fold (share_numbers c (to_upstream (channel_manager_io s))). fold (upstream_history s). simpl.
      case_decide as Hcm; simpl.
      - subst c. exists (S n). split; [|done]. rewrite Hn, Hm. unfold numbers.
        by rewrite seq_S, fmap_app.
      - rewrite app_nil_r. by apply Ho. }
    split; [|done]. intros c. destruct (Hk c) as (k & E & _). by exists k. }
  unfold send_share. wp_rule. wp_rule. wp_rule. destruct worker as [name|]; [|apply Hsend].
  destruct (_ && _); [|apply Hsend]. apply wp_bind, wp_ok_or_raise; [|by split].
  intros u _. apply Hsend.
Qed.

Lemma next_number_wp key s n (Q : result N TproxyError → ChannelManager → Prop) :
  counted s → share_numbers key (upstream_history s) = numbers n →
  default 0 (share_sequence_counters s !! key) = u32_wrap (N.of_nat n) →
  (∀ s', upstream_history s' = upstream_history s →
     extended_channels s' = extended_channels s → 
     aggregated_extranonce_allocator s' = aggregated_extranonce_allocator s →
     (∀ c, c ≠ key → share_sequence_counters s' !! c = share_sequence_counters s !! c) →
     default 0 (share_sequence_counters s' !! key) = u32_wrap (N.of_nat (S n)) →
     Q (Ok (u32_wrap (N.of_nat (S n)))) s') →
  wp (next_share_sequence_number key) Q s.
Proof.
  intros Hs Hn Hk HQ. unfold next_share_sequence_number. apply wp_transact. intros a s'.
  unfold SharedMap.with_mut_or_default, SharedMap.with_mut_or_insert_with.
  assert (match share_sequence_counters s !! key with Some v => v | None => 0 end =
    default 0 (share_sequence_counters s !! key)) as -> by done.
  rewrite Hk. intros [= <- <-].
  assert (u32_wrap (u32_wrap (N.of_nat n) + 1) = u32_wrap (N.of_nat (S n))) as ->.
  { unfold u32_wrap. rewrite N.Div0.add_mod_idemp_l. f_equal. lia. }
  apply HQ; try done; simpl.
  - intros c Hc. by rewrite lookup_insert_ne.
  - by rewrite lookup_insert_eq.
Qed.

(** Numbering and sending a share, whatever is computed in between without
    touching the state. *)
Definition prepares key n (prepare : handler SubmitSharesExtended) : Prop :=
  ∀ s, wp prepare (λ r s', s' = s ∧
    match r with
    | Ok m => sse_channel_id m = key ∧ sequence_number m = n
    | Err e => ¬ settled (Err e)
    end) s.

Lemma number_and_send_wp worker key (prepare : N → handler SubmitSharesExtended) s :
  counted s → (∀ n, prepares key n (prepare n)) →
  wp (seq ← next_share_sequence_number key; m ← prepare seq; send_share worker m)
    (λ r s', numbered s' ∧ (settled r → counted s')) s.
Proof.
  intros Hs Hp. destruct (Hs key) as (n & Hn & Hk). apply wp_bind.
  eapply next_number_wp; [done..|]. intros s1 Eh _ _ Ho Hk1. cbn [andthen].
  apply wp_bind. eapply wp_mono; [|apply Hp]. intros [m|e] s2 [-> Hm]; cbn [andthen].
  - destruct Hm as [<- Hseq]. apply (send_share_wp _ _ _ n); rewrite ?Eh; try done.
    intros c Hc. rewrite Ho by done. apply Hs.
  - split; [|done]. intros c. rewrite Eh. destruct (Hs c) as (k & E & _). by exists k.
Qed.

Lemma rewrite_own_prepares c n e m : prepares c n (rewrite_own_share (share_with c n e m)).
Proof.
  intros s. unfold rewrite_own_share. repeat wp_rule; simpl; try done; auto.
Qed.

Lemma shareless_validate k m : evolves shareless (validate_on k m).
Proof. apply shareless_channel, evolves_ret, _. Qed.

Lemma shareless_rewrite aggregate m : evolves shareless (rewrite_aggregated_share aggregate m).
Proof. unfold rewrite_aggregated_share. repeat evolve_rule. Qed.

Lemma counted_shareless s s' : shareless s s' → counted s → counted s'.
Proof. intros [C E] Hs c. rewrite E, C. apply Hs. Qed.

Lemma counted_numbered s : counted s → numbered s.
Proof. intros Hs c. destruct (Hs c) as (n & E & _). by exists n. Qed.

Lemma submit_maintains m worker : maintains counted numbered (handle_submit_shares_extended mode m worker).
Proof.
  intros s Hs _.
  assert (∀ s', shareless s s' → numbered s' ∧ ∀ r : result unit TproxyError, settled r → counted s') as Hkeep.
  { intros s' Hk. pose proof (counted_shareless _ _ Hk Hs) as Hc. split; [by apply counted_numbered|done]. }
  assert (wp (submit_own m worker) (λ r s', numbered s' ∧ (settled r → counted s')) s) as Hown.
  { unfold submit_own. apply wp_bind. eapply wp_mono; [|apply shareless_validate].
    intros [v|e] s1 Hk; cbn [andthen]; [|destruct (Hkeep _ Hk); by eauto].
    destruct v as [[?|?]|]; try (apply wp_ret; destruct (Hkeep _ Hk); by eauto).
    apply (number_and_send_wp worker _ (λ seq, rewrite_own_share (share_with (sse_channel_id m) seq (extranonce m) m)));
      [by eapply counted_shareless|]. intros n. apply rewrite_own_prepares. }
  unfold handle_submit_shares_extended. wp_rule. wp_rule. wp_rule.
  destruct (extended_channels s !! AGGREGATED_CHANNEL_ID) as [aggregate|]; [|done].
  destruct (is_aggregated mode); [|done].
  apply wp_bind. eapply wp_mono; [|apply shareless_rewrite].
  intros [m'|e] s1 Hk1; cbn [andthen]; [|destruct (Hkeep _ Hk1); by eauto].
  apply wp_bind. eapply wp_mono; [|apply shareless_validate].
  intros [v|e] s2 Hk2; cbn [andthen]; assert (shareless s s2) as Hk by (by etrans);
    [|destruct (Hkeep _ Hk); by eauto].
  destruct v as [[?|?]|]; try (apply wp_ret; destruct (Hkeep _ Hk); by eauto).
  refine (number_and_send_wp worker (sse_channel_id m')
    (λ seq, mret (share_with (sse_channel_id m') seq (extranonce m') m')) s2 _ _);
    [by eapply counted_shareless|]. intros n s3. by apply wp_ret.
Qed.
End handlers.

(** The parts of a handler that send no share. *)
Ltac shareless :=
  repeat first
    [ evolve_rule
    | apply shareless_send_sv1
    | apply shareless_send_upstream; intros ?; reflexivity
    | apply shareless_channel
    | apply evolves_update; intros ?; split; intros; reflexivity
    | apply evolves_transact; intros ?; simpl; repeat case_match; simplify_eq/=; by split
    ].

Section shares.
Context `{BitcoinApi} `{AddressApi} {CC : ClientChannels} {CL : ClientLaws CC}.
Context (mode : TproxyMode) (max_past_jobs : option N).
Context (supported_extensions required_extensions : list N).
Implicit Types (s : ChannelManager).

Lemma shareless_forward ord m : evolves shareless (forward_job_to_sv1_server ord m).
Proof. unfold forward_job_to_sv1_server, announce_prefix, advertise. shareless. Qed.

Lemma shareless_request ord r u h n :
  evolves shareless (handle_downstream_channel_request_in_aggregated_mode max_past_jobs ord r u h n).
Proof.
  unfold handle_downstream_channel_request_in_aggregated_mode, open_child, drop_prefix,
    reject_downstream_channel_request, advertise.
  shareless; apply shareless_forward.
Qed.

Lemma shareless_build_group aggregate ids g : evolves shareless (build_group aggregate ids g).
Proof. revert g. induction ids as [|c ids IH]; intros g; cbn [build_group]; unfold member_size; shareless; apply IH. Qed.

Lemma shareless_open_success ord m :
  evolves shareless (handle_open_extended_mining_channel_success mode max_past_jobs ord m).
Proof.
  unfold handle_open_extended_mining_channel_success, add_to_group, open_aggregated, open_own,
    own_prefix, allocate_under, open_fallback, advertise, open_pending_aggregated_downstream_channels.
  destruct (is_aggregated mode); shareless; apply shareless_request.
Qed.

Lemma shareless_frame ord received :
  evolves shareless (handle_upstream_frame mode max_past_jobs supported_extensions
    required_extensions ord received).
Proof.
  unfold handle_upstream_frame. apply evolves_bind; [apply _|shareless|intros frame].
  destruct frame; [shareless|apply shareless_open_success|..];
    unfold handle_open_mining_channel_error, open_fallback, handle_close_channel, closed_channels,
      handle_set_extranonce_prefix, change_allocator_prefix, handle_submit_shares_success,
      handle_submit_shares_error, handle_set_target, target_for_aggregate, target_for_channel,
      handle_set_group_channel, handle_request_extensions_success, handle_request_extensions_error,
      handle_new_extended_mining_job, job_for_aggregate, job_for_group, job_for_channel,
      handle_set_new_prev_hash, prev_hash_for_aggregate, prev_hash_for_group, prev_hash_for_channel,
      addressed_aggregate, verify_payout_distribution, remove_channel, remove_advertised,
      leave_groups, drop_prefix;
    shareless; first [apply shareless_forward|apply shareless_build_group].
Qed.

Lemma message_counts ord received :
  maintains counted numbered (handle_downstream_message mode max_past_jobs ord received).
Proof.
  intros s Hs Hn. unfold handle_downstream_message. apply wp_bind, wp_some_or; [|by split].
  intros [m worker] _. cbn [andthen].
  destruct m; [|by apply submit_maintains|..]; apply shareless_maintains; try done;
    unfold handle_open_extended_mining_channel, add_pending, handle_update_channel,
      handle_close_downstream, remove_channel, remove_advertised, leave_groups, drop_prefix;
    shareless; apply shareless_request.
Qed.

(** The shares of a channel that are forwarded upstream carry the sequence
    numbers 1, 2, 3, ... without gap or repetition (modulo 2^32), in the
    order they are sent, whichever miners they come from. *)
Theorem shares_numbered_in_order payout t c :
  task_reachable mode max_past_jobs supported_extensions required_extensions payout t →
  ∃ n, share_numbers c (upstream_history (manager t)) = numbers n.
Proof.
  intros Hr.
  assert (task_ok counted numbered t) as [Hn _]; [|apply Hn].
  eapply reachable_ok; [| | | | |exact Hr].
  - intros ord received _. by apply shareless_maintains, shareless_frame.
  - intros ord received _. apply message_counts.
  - intros s up sv1. done.
  - intros c'. by exists O.
  - intros c'. by exists O.
Qed.
End shares.
