(* ===== verification/TproxyInv.v ===== *)
(** * Translator: the channels and their extranonce prefixes

    What holds whenever a handler of the channel manager starts: in aggregated
    mode the shared channel and the allocator exist exactly when the state is
    [Connected], every miner's prefix is the upstream's followed by a local
    part of its own, and the allocator's slots in use are the local parts of
    the open channels; otherwise there is no shared channel. *)
From S2P Require Import Prelude Handler SharedMap Bitcoin Payout ShareCache ClientChannels TproxyManager TproxyIds.

Section inv.
Context `{BitcoinApi} `{AddressApi} {CC : ClientChannels} {CL : ClientLaws CC}.
Implicit Types (s : ChannelManager) (m : gmap N ExtendedChannel) (a : ExtranonceAllocator).

Notation local ch := (local_bytes (ext_prefix ch)).

(** ** The shared channel and the miners' *)
Record tree_ok a m : Prop := {
  tree_root : ∃ agg, m !! AGGREGATED_CHANNEL_ID = Some agg ∧
    get_extranonce_prefix agg = upstream_prefix a ∧ local agg = [];
  tree_child : ∀ c ch, c ≠ AGGREGATED_CHANNEL_ID → m !! c = Some ch →
    get_extranonce_prefix ch = upstream_prefix a ++ local ch ∧
    ext_upstream_prefix_len ch = N.of_nat (length (upstream_prefix a));
  tree_live : ∀ l, live a l ↔
    ∃ c ch, c ≠ AGGREGATED_CHANNEL_ID ∧ m !! c = Some ch ∧ local ch = l;
  tree_inj : ∀ c1 c2 ch1 ch2, c1 ≠ AGGREGATED_CHANNEL_ID → c2 ≠ AGGREGATED_CHANNEL_ID →
    m !! c1 = Some ch1 → m !! c2 = Some ch2 → local ch1 = local ch2 → c1 = c2;
}.

Lemma tree_identity a m m' :
  map_Forall2 (λ _, same_identity) m m' → tree_ok a m → tree_ok a m'.
Proof.
  intros Hs [Hr Hc Hl Hi].
  assert (∀ c ch', m' !! c = Some ch' → ∃ ch, m !! c = Some ch ∧ ext_prefix ch' = ext_prefix ch) as Hb.
  { intros c ch' Hch. specialize (Hs c). rewrite Hch in Hs. inversion Hs as [ch x Hid E|]. subst.
    exists ch. split; [done|]. apply Hid. }
  assert (∀ c ch, m !! c = Some ch → ∃ ch', m' !! c = Some ch' ∧ ext_prefix ch' = ext_prefix ch) as Hf.
  { intros c ch Hch. specialize (Hs c). rewrite Hch in Hs. inversion Hs as [x ch' Hid E|]. subst.
    exists ch'. split; [done|]. apply Hid. }
  split.
  - destruct Hr as (agg & Ha & Ep & El). destruct (Hf _ _ Ha) as (agg' & Ha' & Eq).
    exists agg'. unfold get_extranonce_prefix in *. by rewrite Eq.
  - intros c ch' Hne Hch. destruct (Hb _ _ Hch) as (ch & Hch0 & Eq).
    unfold get_extranonce_prefix, ext_upstream_prefix_len. rewrite Eq. by eapply Hc.
  - intros l. rewrite Hl. split.
    + intros (c & ch & Hne & Hch & El). destruct (Hf _ _ Hch) as (ch' & Hch' & Eq).
      exists c, ch'. by rewrite Eq.
    + intros (c & ch' & Hne & Hch & El). destruct (Hb _ _ Hch) as (ch & Hch0 & Eq).
      exists c, ch. by rewrite <-Eq.
  - intros c1 c2 ch1 ch2 H1 H2 Hch1 Hch2 El.
    destruct (Hb _ _ Hch1) as (d1 & Hd1 & E1), (Hb _ _ Hch2) as (d2 & Hd2 & E2).
    rewrite E1, E2 in El. by eapply Hi.
Qed.

(** The allocator may change as long as it counts the same slots. *)
Lemma tree_allocator a a' m :
  upstream_prefix a' = upstream_prefix a → (∀ l, live a' l ↔ live a l) → tree_ok a m → tree_ok a' m.
Proof.
  intros Eu El [Hr Hc Hl Hi]. split.
  - destruct Hr as (agg & Ha & Ep & Elo). exists agg. by rewrite Eu.
  - intros c ch. rewrite Eu. apply Hc.
  - intros l. rewrite El. apply Hl.
  - apply Hi.
Qed.

(** A prefix is allocated, and a channel that owns it added. *)
Lemma tree_insert a a' m c ch p :
  tree_ok a m → m !! c = None → c ≠ AGGREGATED_CHANNEL_ID →
  upstream_prefix a' = upstream_prefix a → ¬ live a (local_bytes p) →
  (∀ l, live a' l ↔ l = local_bytes p ∨ live a l) → local ch = local_bytes p →
  get_extranonce_prefix ch = upstream_prefix a ++ local ch →
  ext_upstream_prefix_len ch = N.of_nat (length (upstream_prefix a)) →
  tree_ok a' (<[c := ch]> m).
Proof.
  intros [Hr Hc Hl Hi] Hfree Hne Eu Hnew Hlive Elo Eb En.
  assert (∀ d dh, <[c := ch]> m !! d = Some dh → d = c ∧ dh = ch ∨ d ≠ c ∧ m !! d = Some dh) as Hins.
  { intros d dh. destruct (decide (d = c)) as [->|]; [rewrite lookup_insert_eq|rewrite lookup_insert_ne by done];
      naive_solver. }
  split.
  - destruct Hr as (agg & Ha & Ep & Elr). exists agg. rewrite lookup_insert_ne by done. by rewrite Eu.
  - intros d dh Hd Hdh. rewrite Eu. destruct (Hins _ _ Hdh) as [[-> ->]|[_ Hm]]; [done|by eapply Hc].
  - intros l. rewrite Hlive, Hl. split.
    + intros [->|(d & dh & Hd & Hdh & <-)].
      * exists c, ch. by rewrite lookup_insert_eq.
      * exists d, dh. rewrite lookup_insert_ne; [done|]. congruence.
    + intros (d & dh & Hd & Hdh & <-). destruct (Hins _ _ Hdh) as [[-> ->]|[_ Hm]]; [by left|].
      right. by exists d, dh.
  - intros c1 c2 ch1 ch2 H1 H2 Hch1 Hch2 El.
    destruct (Hins _ _ Hch1) as [[-> ->]|[? Hm1]], (Hins _ _ Hch2) as [[-> ->]|[? Hm2]]; [done| | |by eapply Hi].
    + destruct Hnew. apply Hl. exists c2, ch2. split_and!; [done|done|congruence].
    + destruct Hnew. apply Hl. exists c1, ch1. split_and!; [done|done|congruence].
Qed.

(** A channel is dropped, and its prefix released. *)
Lemma tree_delete a m c ch :
  tree_ok a m → c ≠ AGGREGATED_CHANNEL_ID → m !! c = Some ch →
  tree_ok (release_prefix a (ext_prefix ch)) (delete c m).
Proof.
  intros [Hr Hc Hl Hi] Hne Hch. destruct (release_spec a (ext_prefix ch)) as [[Eu _] Hlive].
  assert (∀ d dh, delete c m !! d = Some dh ↔ d ≠ c ∧ m !! d = Some dh) as Hdel.
  { intros d dh. rewrite lookup_delete_Some. naive_solver. }
  split.
  - destruct Hr as (agg & Ha & Ep & Elr). exists agg. rewrite Eu.
    split; [apply Hdel; split; [congruence|done]|done].
  - intros d dh Hd [_ Hdh]%Hdel. rewrite Eu. by eapply Hc.
  - intros l. rewrite Hlive, Hl. split.
    + intros [(d & dh & Hd & Hdh & <-) Hn]. exists d, dh. split_and!; [done| |done].
      apply Hdel. split; [|done]. intros ->. congruence.
    + intros (d & dh & Hd & [Hdc Hdh]%Hdel & <-). split; [by exists d, dh|].
      intros El. by apply Hdc, (Hi d c dh ch).
  - intros c1 c2 ch1 ch2 H1 H2 [_ Hm1]%Hdel [_ Hm2]%Hdel. by apply Hi.
Qed.

(** The upstream's part of every prefix is replaced. *)
Lemma tree_new_upstream a a' m m' up :
  tree_ok a m → upstream_prefix a' = up → (∀ l, live a' l ↔ live a l) →
  (∀ c, is_Some (m !! c) ↔ is_Some (m' !! c)) →
  (∀ c ch, m !! c = Some ch → ∃ ch', m' !! c = Some ch' ∧
     get_extranonce_prefix ch' = up ++ local ch ∧ local ch' = local ch ∧
     ext_upstream_prefix_len ch' = N.of_nat (length up)) →
  tree_ok a' m'.
Proof.
  intros [Hr Hc Hl Hi] Eu Elive Hdom Hstep.
  assert (∀ c ch', m' !! c = Some ch' → ∃ ch, m !! c = Some ch ∧
     get_extranonce_prefix ch' = up ++ local ch' ∧ local ch' = local ch ∧
     ext_upstream_prefix_len ch' = N.of_nat (length up)) as Hb.
  { intros c ch' Hch'. destruct (proj2 (Hdom c)) as [ch Hch]; [by eexists|].
    destruct (Hstep _ _ Hch) as (x & Hx & Eb & El & En). simplify_eq.
    exists ch. by rewrite El. }
  split.
  - destruct Hr as (agg & Ha & Ep & Elr). destruct (Hstep _ _ Ha) as (agg' & Ha' & Eb & El & _).
    exists agg'. rewrite Elr, app_nil_r in Eb. by rewrite Eu, Eb, El.
  - intros c ch' Hne Hch'. destruct (Hb _ _ Hch') as (ch & Hch & Eb & El & En). by rewrite Eu.
  - intros l. rewrite Elive, Hl. split.
    + intros (c & ch & Hne & Hch & <-). destruct (Hstep _ _ Hch) as (ch' & Hch' & _ & El & _).
      by exists c, ch'.
    + intros (c & ch' & Hne & Hch' & <-). destruct (Hb _ _ Hch') as (ch & Hch & _ & El & _).
      by exists c, ch.
  - intros c1 c2 ch1 ch2 H1 H2 Hch1 Hch2 El.
    destruct (Hb _ _ Hch1) as (d1 & Hd1 & _ & E1 & _), (Hb _ _ Hch2) as (d2 & Hd2 & _ & E2 & _).
    eapply (Hi c1 c2 d1 d2); [done..|congruence].
Qed.
End inv.

(** ** The manager *)
Section manager.
Context `{BitcoinApi} `{AddressApi} {CC : ClientChannels} {CL : ClientLaws CC}.
Context (mode : TproxyMode) (max_past_jobs : option N).
Context (supported_extensions required_extensions : list N).
Implicit Types (s : ChannelManager).

Definition connected_ok s : Prop :=
  aggregated_channel_state s = Connected ∧
  ∃ a, aggregated_extranonce_allocator s = Some a ∧ tree_ok a (extended_channels s).

Definition unconnected_ok s : Prop :=
  aggregated_channel_state s ≠ Connected ∧
  aggregated_extranonce_allocator s = None ∧ extended_channels s = ∅.

Definition aggregated_ok s : Prop :=
  unconnected_ok s ∨ connected_ok s ∧ pending_downstream_channels s = ∅.

Definition own_ok s : Prop :=
  aggregated_extranonce_allocator s = None ∧
  extended_channels s !! AGGREGATED_CHANNEL_ID = None.

Definition channels_ok s : Prop := if is_aggregated mode then aggregated_ok s else own_ok s.

(** *** Handlers that only let channels evolve *)
Record sim s s' : Prop := {
  sim_channels : map_Forall2 (λ _, same_identity) (extended_channels s) (extended_channels s');
  sim_allocator : aggregated_extranonce_allocator s' = aggregated_extranonce_allocator s;
  sim_state : aggregated_channel_state s' = aggregated_channel_state s;
  sim_pending : pending_downstream_channels s' = pending_downstream_channels s;
}.

#[export] Instance sim_preorder : PreOrder sim.
Proof.
  split.
  - intros s. split; [apply map_Forall2_refl, _|done..].
  - intros s1 s2 s3 [C1 A1 S1 P1] [C2 A2 S2 P2].
    split; [by eapply map_Forall2_trans; [apply _|..]|congruence..].
Qed.

Lemma sim_same s s' :
  extended_channels s' = extended_channels s →
  aggregated_extranonce_allocator s' = aggregated_extranonce_allocator s →
  aggregated_channel_state s' = aggregated_channel_state s →
  pending_downstream_channels s' = pending_downstream_channels s → sim s s'.
Proof. intros Ec Ea Es Ep. split; [rewrite Ec; apply map_Forall2_refl, _|done..]. Qed.

Lemma same_channels_none (m m' : gmap N ExtendedChannel) k :
  map_Forall2 (λ _, same_identity) m m' → m !! k = None → m' !! k = None.
Proof. intros Hs Hk. specialize (Hs k). rewrite Hk in Hs. by inversion Hs. Qed.

Lemma sim_connected s s' : sim s s' → connected_ok s → connected_ok s'.
Proof.
  intros [Cs As Ss _] [Hc (a & Ea & Ht)]. split; [congruence|]. exists a.
  split; [congruence|]. by eapply tree_identity.
Qed.

Lemma sim_ok s s' : sim s s' → channels_ok s → channels_ok s'.
Proof.
  intros Hs. unfold channels_ok. destruct (is_aggregated mode).
  - intros [(Hn & Ea & Ec)|[Hc Hp]].
    + left. destruct Hs as [Cs As Ss _]. split_and!; [congruence..|].
      apply map_eq. intros k. rewrite lookup_empty. apply (same_channels_none (extended_channels s));
        [done|by rewrite Ec].
    + right. split; [by eapply sim_connected|]. by rewrite (sim_pending _ _ Hs).
  - intros [Ea En]. destruct Hs as [Cs As _ _]. split; [congruence|by eapply same_channels_none].
Qed.

Lemma sim_maintains p : evolves sim p → maintains channels_ok (λ _, True) p.
Proof. intros Hp. apply (maintains_evolves _ _ sim); [done|apply sim_ok|done]. Qed.

Lemma sim_send_sv1 m : evolves sim (send_sv1 m).
Proof. unfold send_sv1. intros s. repeat wp_rule; [|done]. by apply sim_same. Qed.
Lemma sim_send_upstream m : evolves sim (send_upstream m).
Proof. unfold send_upstream. intros s. repeat wp_rule; [|done]. by apply sim_same. Qed.

Lemma sim_channel {A} k (absent : handler A) p :
  evolves sim absent → evolves same_identity p → evolves sim (with_channel k absent p).
Proof.
  intros Ha Hp. apply (evolves_focus _ _ _ _ _ _ same_identity); [done|done|].
  intros s ch ch' Hch Hid. split; [|done..]. by eapply map_Forall2_insert_one; [apply _|..].
Qed.

Lemma identity_job m : evolves same_identity (process_job m).
Proof. unfold process_job. repeat evolve_rule. apply evolves_transact. intros c. apply new_job_identity. Qed.
Lemma identity_prev_hash m : evolves same_identity (process_prev_hash m).
Proof. unfold process_prev_hash. repeat evolve_rule. apply evolves_transact. intros c. apply prev_hash_identity. Qed.
Lemma identity_target t : evolves same_identity (process_target t).
Proof. unfold process_target. repeat evolve_rule. apply evolves_transact. intros c. apply set_target_keeps. Qed.
Lemma identity_active : evolves same_identity active_message.
Proof. unfold active_message. repeat evolve_rule. Qed.
End manager.

(** The parts of a handler that only let channels evolve. *)
Ltac sim_tac :=
  repeat first
    [ evolve_rule
    | apply sim_send_sv1 | apply sim_send_upstream | apply sim_channel
    | apply identity_job | apply identity_prev_hash | apply identity_target | apply identity_active
    | apply evolves_update; intros ?; apply sim_same; reflexivity
    | apply evolves_transact; intros ?; apply sim_same; simpl; repeat case_match; simplify_eq/=; reflexivity
    ].

Section handlers.
Context `{BitcoinApi} `{AddressApi} {CC : ClientChannels} {CL : ClientLaws CC}.
Context (mode : TproxyMode) (max_past_jobs : option N).
Context (supported_extensions required_extensions : list N).
Implicit Types (s : ChannelManager).

Lemma sim_forward ord m : evolves sim (forward_job_to_sv1_server ord m).
Proof. unfold forward_job_to_sv1_server, announce_prefix, advertise. sim_tac. Qed.
Lemma sim_addressed ord c : evolves sim (addressed_aggregate ord c).
Proof. unfold addressed_aggregate. sim_tac. Qed.
Lemma sim_verify m n : evolves sim (verify_payout_distribution m n).
Proof. unfold verify_payout_distribution. sim_tac. Qed.

Lemma sim_new_job ord m : evolves sim (handle_new_extended_mining_job mode ord m).
Proof.
  unfold handle_new_extended_mining_job, job_for_aggregate, job_for_group, job_for_channel.
  sim_tac; first [apply sim_addressed|apply sim_verify|apply sim_forward].
Qed.

Lemma sim_prev_hash ord m : evolves sim (handle_set_new_prev_hash mode ord m).
Proof.
  unfold handle_set_new_prev_hash, prev_hash_for_aggregate, prev_hash_for_group, prev_hash_for_channel.
  sim_tac; first [apply sim_addressed|apply sim_forward].
Qed.

Lemma sim_set_target ord c t : evolves sim (handle_set_target mode ord c t).
Proof.
  unfold handle_set_target, target_for_aggregate, target_for_channel.
  sim_tac; apply sim_addressed.
Qed.

Lemma sim_build_group aggregate ids g : evolves sim (build_group aggregate ids g).
Proof. revert g. induction ids as [|c ids IH]; intros g; cbn [build_group]; unfold member_size; sim_tac; apply IH. Qed.

Lemma sim_set_group g ids : evolves sim (handle_set_group_channel mode g ids).
Proof. unfold handle_set_group_channel. sim_tac; apply sim_build_group. Qed.

Lemma sim_submit m worker : evolves sim (handle_submit_shares_extended mode m worker).
Proof.
  unfold handle_submit_shares_extended, submit_own, rewrite_aggregated_share, rewrite_own_share,
    next_share_sequence_number, send_share, validate_on.
  sim_tac; apply evolves_transact; intros c; apply validate_share_keeps.
Qed.

Lemma sim_update_channel m : evolves sim (handle_update_channel mode m).
Proof.
  unfold handle_update_channel. sim_tac; apply evolves_update; intros c; apply set_hashrate_keeps.
Qed.

Lemma sim_shares_success c n w : evolves sim (handle_submit_shares_success mode c n w).
Proof.
  unfold handle_submit_shares_success. sim_tac. apply evolves_update. intros ch.
  apply acknowledgement_keeps.
Qed.
Lemma sim_shares_error c code : evolves sim (handle_submit_shares_error mode c code).
Proof.
  unfold handle_submit_shares_error. sim_tac. apply evolves_update. intros ch. apply rejection_keeps.
Qed.

Lemma sim_extensions_success l : evolves sim (handle_request_extensions_success required_extensions l).
Proof. unfold handle_request_extensions_success. sim_tac. Qed.
Lemma sim_extensions_error r u l :
  evolves sim (handle_request_extensions_error supported_extensions required_extensions r u l).
Proof. unfold handle_request_extensions_error. sim_tac. Qed.
End handlers.

(** ** Opening a miner's channel in aggregated mode *)
Section opening.
Context `{BitcoinApi} `{AddressApi} {CC : ClientChannels} {CL : ClientLaws CC}.
Context (mode : TproxyMode) (max_past_jobs : option N).
Implicit Types (s : ChannelManager).

(** The requests that were answered, in order. *)
Definition answer (m : Sv1Message) : option N :=
  match m with
  | DownOpenSuccess m => Some (oes_request_id m)
  | DownOpenError r _ => Some r
  | _ => None
  end.
Definition answered s : list N := omap answer (to_sv1 (channel_manager_io s)).

Definition unanswering s s' : Prop := sim s s' ∧ answered s' = answered s.

#[export] Instance unanswering_preorder : PreOrder unanswering.
Proof. split; [by split|]. intros ??? [S1 E1] [S2 E2]. split; [by etrans|congruence]. Qed.

Lemma send_sv1_wp m s :
  wp (send_sv1 m) (λ r s', sim s s' ∧
    (settled r → answered s' = answered s ++ omap answer [m])) s.
Proof.
  unfold send_sv1. repeat wp_rule; [|done]. split; [by apply sim_same|]. intros _.
  unfold answered. simpl. by rewrite omap_app.
Qed.

Lemma unanswering_send m : answer m = None → evolves unanswering (send_sv1 m).
Proof.
  intros Hm. unfold send_sv1. intros s. repeat wp_rule; [|done]. split; [by apply sim_same|].
  unfold answered. simpl. rewrite omap_app. simpl. by rewrite Hm, app_nil_r.
Qed.

Lemma unanswering_update f :
  (∀ s, sim s (f s) ∧ channel_manager_io (f s) = channel_manager_io s) →
  evolves unanswering (update (E := TproxyError) f).
Proof. intros Hf. apply evolves_update. intros s. destruct (Hf s) as [Hs Hio]. split; [done|]. unfold answered. by rewrite Hio. Qed.

Lemma unanswering_forward ord m : evolves unanswering (forward_job_to_sv1_server ord m).
Proof.
  unfold forward_job_to_sv1_server, announce_prefix, advertise.
  repeat first [evolve_rule|by apply unanswering_send|
                apply unanswering_update; intros ?; split; [by apply sim_same|done]].
Qed.

(** Replaying the jobs keeps the local part of the prefix. *)
Definition same_local (c c' : ExtendedChannel) : Prop :=
  local_bytes (ext_prefix c') = local_bytes (ext_prefix c).

#[export] Instance same_local_preorder : PreOrder same_local.
Proof. split; [done|]. intros ??? E1 E2. unfold same_local in *. congruence. Qed.

Lemma identity_local c c' : same_identity c c' → same_local c c'.
Proof. intros [_ E _]. unfold same_local. by rewrite E. Qed.

Lemma local_set_prefix up :
  evolves same_local (transact (E := TproxyError) (λ c, set_upstream_extranonce_prefix c up)).
Proof. apply evolves_transact. intros c. apply set_prefix_keeps. Qed.

Lemma local_replay id j : evolves same_local (replay_job id j).
Proof.
  unfold replay_job. repeat first [evolve_rule|apply local_set_prefix]; apply evolves_transact; intros c.
  - apply identity_local, set_target_keeps.
  - apply identity_local, new_job_identity.
Qed.

Lemma initialize_channel_wp id target current active futures tip c :
  wp (initialize_channel id target current active futures tip)
    (λ r c', ∀ p, r = Ok p → same_local c c' ∧
       get_extranonce_prefix c' = current ++ local_bytes (ext_prefix c) ∧
       ext_upstream_prefix_len c' = N.of_nat (length current)) c.
Proof.
  unfold initialize_channel.
  set (last := λ (success : list byte) , r ← transact (λ c, set_upstream_extranonce_prefix c current);
    ok_or_raise r (λ e, shutdown (UpstreamExtranoncePrefixUpdateFailed id e));;
    r ← transact (λ c, set_target c target);
    ok_or_raise r (λ _, shutdown FailedToProcessNewExtendedMiningJob);; mret success
    : prog ExtendedChannel TproxyError (list byte)).
  assert (∀ success c1, same_local c c1 → wp (last success)
    (λ r c', ∀ p, r = Ok p → same_local c c' ∧
       get_extranonce_prefix c' = current ++ local_bytes (ext_prefix c) ∧
       ext_upstream_prefix_len c' = N.of_nat (length current)) c1) as Hlast.
  { intros success c1 Hc1. unfold last. apply wp_bind, wp_transact. intros r c2 E2. cbn [andthen].
    apply wp_bind, wp_ok_or_raise; [|done]. intros [] ->. cbn [andthen].
    apply set_prefix_spec in E2 as [Eb En]. apply wp_bind, wp_transact. intros r c3 E3. cbn [andthen].
    apply wp_bind, wp_ok_or_raise; [|done]. intros [] ->. cbn [andthen]. apply wp_ret.
    intros p _. destruct (set_target_keeps c2 target) as [[_ Ep _] _]. rewrite E3 in Ep. simpl in Ep.
    unfold same_local in *. unfold get_extranonce_prefix, ext_upstream_prefix_len in *. rewrite Ep.
    split_and!; [|congruence|done]. unfold local_bytes at 1. rewrite Eb, En, Nat2N.id, drop_app_length.
    done. }
  assert (∀ A (m : prog ExtendedChannel TproxyError A) (k : A → prog ExtendedChannel TproxyError (list byte)) c1,
    evolves same_local m → same_local c c1 →
    (∀ a c2, same_local c c2 → wp (k a) (λ r c', ∀ p, r = Ok p → same_local c c' ∧
       get_extranonce_prefix c' = current ++ local_bytes (ext_prefix c) ∧
       ext_upstream_prefix_len c' = N.of_nat (length current)) c2) →
    wp (m ≫= k) (λ r c', ∀ p, r = Ok p → same_local c c' ∧
       get_extranonce_prefix c' = current ++ local_bytes (ext_prefix c) ∧
       ext_upstream_prefix_len c' = N.of_nat (length current)) c1) as Hstep.
  { intros A m k c1 Hm Hc1 Hk. apply wp_bind. eapply wp_mono; [|apply Hm].
    intros [a|e] c2 Hc2; cbn [andthen]; [|done]. apply Hk. by etrans. }
  apply Hstep; [apply local_set_prefix|done|intros r c1 Hc1].
  apply Hstep; [repeat evolve_rule|done|intros _ c2 Hc2].
  apply Hstep; [repeat evolve_rule|done|intros success c3 Hc3].
  apply Hstep; [|done|intros _ c4 Hc4].
  { apply evolves_update. intros x. destruct tip; [apply identity_local, set_chain_tip_keeps|done]. }
  apply Hstep; [|done|intros _ c5 Hc5; by apply Hlast].
  repeat evolve_rule. apply local_replay.
Qed.
End opening.

(** ** Errors that end the loop *)
Section fatal.
Context `{BitcoinApi} `{AddressApi} {CC : ClientChannels}.
Context {S : Type}.

Definition is_fatal (e : TproxyError) : Prop :=
  match action e with Log | Disconnect _ => False | Fallback | Shutdown => True end.

Definition fatal_only {A} (p : prog S TproxyError A) : Prop :=
  ∀ s, wp p (λ r _, ∀ e, r = Err e → is_fatal e) s.

Lemma fatal_bind {A B} (m : prog S TproxyError A) (k : A → prog S TproxyError B) :
  fatal_only m → (∀ a, fatal_only (k a)) → fatal_only (m ≫= k).
Proof.
  intros Hm Hk s. apply wp_bind. eapply wp_mono; [|apply Hm]. intros [a|e] s' Hr; cbn [andthen].
  - apply Hk.
  - intros e' [= ->]. by apply Hr.
Qed.
Lemma fatal_read {A} (m : prog S TproxyError A) :
  (∀ s, m s = Panic ∨ ∃ a s', m s = Done (Ok a, s')) → fatal_only m.
Proof. intros Hm s. unfold wp. by destruct (Hm s) as [->|(a & s' & ->)]. Qed.
Lemma fatal_ret {A} (a : A) : fatal_only (mret (M := prog S TproxyError) a).
Proof. apply fatal_read. intros s. right. by do 2 eexists. Qed.
Lemma fatal_ask {A} (f : S → A) : fatal_only (ask f).
Proof. apply fatal_read. intros s. right. by do 2 eexists. Qed.
Lemma fatal_update (f : S → S) : fatal_only (update f).
Proof. apply fatal_read. intros s. right. by do 2 eexists. Qed.
Lemma fatal_transact {A} (f : S → A * S) : fatal_only (transact f).
Proof. apply fatal_read. intros s. right. unfold transact. destruct (f s). by do 2 eexists. Qed.
Lemma fatal_raise {A} e : is_fatal e → fatal_only (raise (A := A) e).
Proof. intros He s. by intros e' [= <-]. Qed.
Lemma fatal_some_or {A} (o : option A) e : is_fatal e → fatal_only (some_or o e).
Proof. intros He. destruct o; [apply fatal_ret|by apply fatal_raise]. Qed.
Lemma fatal_crash {A} : fatal_only (crash (A := A)).
Proof. by intros s. Qed.
Lemma fatal_some_or_crash {A} (o : option A) : fatal_only (some_or_crash o).
Proof. destruct o; [apply fatal_ret|apply fatal_crash]. Qed.
Lemma fatal_ok_or_raise {A F} (r : result A F) f : (∀ e, is_fatal (f e)) → fatal_only (ok_or_raise r f).
Proof. intros Hf. destruct r; [apply fatal_ret|by apply fatal_raise]. Qed.
Lemma fatal_ensure ok e : is_fatal e → fatal_only (ensure ok e).
Proof. intros He. destruct ok; [apply fatal_ret|by apply fatal_raise]. Qed.
Lemma fatal_run_rust {A} (c : rust A) : fatal_only (run_rust c).
Proof. destruct c; [apply fatal_ret|apply fatal_crash]. Qed.
Lemma fatal_for_each {A} (l : list A) f : (∀ x, fatal_only (f x)) → fatal_only (for_each l f).
Proof.
  intros Hf. induction l as [|x l IH]; simpl; [apply fatal_ret|]. apply fatal_bind; [done|auto].
Qed.
End fatal.

Lemma fatal_channel `{BitcoinApi} `{AddressApi} {CC : ClientChannels} {A} k (absent : handler A) p :
  fatal_only absent → fatal_only p → fatal_only (with_channel k absent p).
Proof.
  intros Ha Hp s. apply wp_focus; [intros _; apply Ha|]. intros ch _. apply Hp.
Qed.
Lemma fatal_send_sv1 `{BitcoinApi} `{AddressApi} {CC : ClientChannels} m : fatal_only (send_sv1 m).
Proof. unfold send_sv1. apply fatal_bind; [apply fatal_ask|]. intros io. destruct (sv1_open io); [apply fatal_update|by apply fatal_raise]. Qed.

Ltac fatal :=
  repeat first
    [ apply fatal_send_sv1 | apply fatal_channel
    | lazymatch goal with
      | |- fatal_only (_ ≫= _) => apply fatal_bind; [|intros ?]
      | |- fatal_only (mret _) => apply fatal_ret
      | |- fatal_only (ask _) => apply fatal_ask
      | |- fatal_only (update _) => apply fatal_update
      | |- fatal_only (transact _) => apply fatal_transact
      | |- fatal_only (raise _) => apply fatal_raise; exact I
      | |- fatal_only crash => apply fatal_crash
      | |- fatal_only (some_or _ _) => apply fatal_some_or; exact I
      | |- fatal_only (some_or_crash _) => apply fatal_some_or_crash
      | |- fatal_only (ok_or_raise _ _) => apply fatal_ok_or_raise; intros ?; exact I
      | |- fatal_only (ensure _ _) => apply fatal_ensure; exact I
      | |- fatal_only (run_rust _) => apply fatal_run_rust
      | |- fatal_only (for_each _ _) => apply fatal_for_each; intros ?
      | |- fatal_only (if ?b then _ else _) => destruct b
      | |- fatal_only (match ?x with _ => _ end) => destruct x
      | |- fatal_only (let '(_, _) := ?x in _) => destruct x
      end ].

Section opening2.
Context `{BitcoinApi} `{AddressApi} {CC : ClientChannels} {CL : ClientLaws CC}.
Context (mode : TproxyMode) (max_past_jobs : option N).
Implicit Types (s : ChannelManager).

Lemma fatal_forward ord m : fatal_only (forward_job_to_sv1_server ord m).
Proof. unfold forward_job_to_sv1_server, announce_prefix, advertise. fatal. Qed.
Lemma fatal_initialize id target current active futures tip :
  fatal_only (initialize_channel id target current active futures tip).
Proof. unfold initialize_channel, replay_job. fatal. Qed.

(** Only a successful outcome matters. *)
Lemma wp_fatal {A} (p : handler A) (Q : A → ChannelManager → Prop) s :
  fatal_only p → wp p (λ r s', ∀ a, r = Ok a → Q a s') s →
  wp p (λ r s', match r with Ok a => Q a s' | Err e => is_fatal e end) s.
Proof.
  intros Hf Hp. specialize (Hf s). unfold wp in *. destruct (p s) as [[[a|e] s']|]; auto.
Qed.

(** A prefix was allocated, and nothing else changed. *)
Record allocated a a' p : Prop := {
  al_bytes : prefix_bytes p = upstream_prefix a ++ local_bytes p;
  al_new : ¬ live a (local_bytes p);
  al_live : ∀ l, live a' l ↔ l = local_bytes p ∨ live a l;
  al_upstream : upstream_prefix a' = upstream_prefix a;
}.

(** The request was answered and the channels are in order again. *)
Definition served request_id s (r : result unit TproxyError) s' : Prop :=
  match r with
  | Ok _ => connected_ok s' ∧ pending_downstream_channels s' = pending_downstream_channels s ∧
            answered s' = answered s ++ [request_id]
  | Err e => is_fatal e
  end.

Lemma unanswering_served s s1 s2 :
  connected_ok s1 → pending_downstream_channels s1 = pending_downstream_channels s →
  unanswering s1 s2 →
  connected_ok s2 ∧ pending_downstream_channels s2 = pending_downstream_channels s ∧
  answered s2 = answered s1.
Proof.
  intros Hc Hp [Hs Ha]. split_and!; [by eapply sim_connected| |done].
  rewrite <-Hp. apply Hs.
Qed.

Lemma advertise_success_wp m c prefix s :
  wp (advertise (DownOpenSuccess m) c prefix) (λ r s', match r with
     | Ok _ => sim s s' ∧ answered s' = answered s ++ [oes_request_id m]
     | Err e => is_fatal e end) s.
Proof.
  unfold advertise, send_sv1. repeat wp_rule; [|done]. simpl. split; [by apply sim_same|].
  unfold answered. simpl. by rewrite omap_app.
Qed.

Lemma open_child_served ord request_id id u h n aggregate p a a' s :
  tree_ok a (extended_channels s) → allocated a a' p →
  aggregated_extranonce_allocator s = Some a' → aggregated_channel_state s = Connected →
  get_extranonce_prefix aggregate = upstream_prefix a →
  extended_channels s !! id = None → id ≠ AGGREGATED_CHANNEL_ID →
  wp (open_child max_past_jobs ord request_id id u h n aggregate p)
    (λ r s', served request_id s r s') s.
Proof.
  intros Ht [Eb Hnew Hlive Eu] Ea Hst Eagg Hfree Hid. unfold open_child.
  destruct (ext_new _ _ _ _ _ _ _ _) as [c|e] eqn:Enew; [|by repeat wp_rule].
  apply ext_new_spec in Enew as (_ & Ep & _).
  set (active := get_active_job aggregate).
  apply wp_bind, wp_on_value.
  eapply wp_mono; [|apply (wp_intro _ (λ r c', (∀ e, r = Err e → is_fatal e) ∧
     ∀ q, r = Ok q → same_local c c' ∧
       get_extranonce_prefix c' = get_extranonce_prefix aggregate ++ local_bytes (ext_prefix c) ∧
       ext_upstream_prefix_len c' = N.of_nat (length (get_extranonce_prefix aggregate))))].
  2: { intros r c' E. split.
       - apply (wp_sound _ _ _ _ _ (fatal_initialize _ _ _ _ _ _ c) E).
       - apply (wp_sound _ _ _ _ _ (initialize_channel_wp _ _ _ _ _ _ c) E). }
  intros r c' [Hf Hok]. cbn [andthen]. destruct r as [success|e].
  2: { repeat wp_rule. by apply Hf. }
  destruct (Hok success eq_refl) as (Hl & Eb' & En'). apply wp_bind, wp_update. cbn [andthen].
  set (s1 := put_channels _ s).
  assert (connected_ok s1) as Hc1.
  { split; [done|]. exists a'. split; [done|]. unfold same_local in Hl. rewrite Ep in Hl, Eb'.
    rewrite Eagg in Eb', En'.
    eapply (tree_insert a a' _ id c' p); try done. by rewrite Hl. }
  apply wp_bind, wp_ensure; [|done]. intros _. cbn [andthen].
  apply wp_bind. eapply wp_mono; [|apply advertise_success_wp].
  intros [[]|e] s2; [|done]. intros [Hs2 Ha2]. cbn [andthen].
  assert (connected_ok s2 ∧ pending_downstream_channels s2 = pending_downstream_channels s ∧
    answered s2 = answered s ++ [request_id]) as (Hc2 & Hp2 & Han2).
  { split_and!; [by eapply sim_connected| |done]. by rewrite (sim_pending _ _ Hs2). }
  destruct active as [j|]; [|by apply wp_ret].
  apply (wp_mono _ (λ r s', unanswering s2 s' ∧ ∀ e, r = Err e → is_fatal e)).
  - intros [[]|e] s3 [Hu Hf3]; [|by apply Hf3]. 
    destruct (unanswering_served s s2 s3 Hc2 Hp2 Hu) as (Hc3 & Hp3 & Ha3).
    unfold served. by rewrite Ha3.
  - apply wp_intro. intros r3 s3 E3. split.
    + apply (wp_sound _ _ _ _ _ (unanswering_forward _ _ s2) E3).
    + apply (wp_sound _ _ _ _ _ (fatal_forward _ _ s2) E3).
Qed.

Lemma reject_served request_id code s :
  connected_ok s →
  wp (reject_downstream_channel_request request_id code) (λ r s', served request_id s r s') s.
Proof.
  intros Hc. unfold reject_downstream_channel_request, send_sv1. repeat wp_rule; [|done].
  split_and!; [by eapply sim_connected; [apply sim_same|]|done|].
  unfold answered. simpl. by rewrite omap_app.
Qed.

Lemma drop_reject_served request_id code s a a' p :
  tree_ok a (extended_channels s) → allocated a a' p →
  aggregated_extranonce_allocator s = Some a' → aggregated_channel_state s = Connected →
  wp (drop_prefix p;; reject_downstream_channel_request request_id code)
    (λ r s', served request_id s r s') s.
Proof.
  intros Ht [Eb Hnew Hlive Eu] Ea Hst. unfold drop_prefix. apply wp_bind, wp_update. cbn [andthen].
  set (s1 := put_allocator _ s).
  assert (connected_ok s1) as Hc1.
  { split; [done|]. unfold s1. simpl. rewrite Ea. simpl. eexists. split; [done|].
    destruct (release_spec a' p) as [[Eu' _] Hl'].
    apply (tree_allocator a); [congruence| |done]. intros l. rewrite Hl', Hlive.
    split; [naive_solver|]. intros Hl. split; [by right|]. by intros ->. }
  eapply wp_mono; [|by apply reject_served]. intros [[]|e] s2; [|done]. done.
Qed.

Lemma request_served ord request_id u h n s :
  iteration ord → connected_ok s →
  wp (handle_downstream_channel_request_in_aggregated_mode max_past_jobs ord request_id u h n)
    (λ r s', served request_id s r s') s.
Proof.
  intros Ho [Hst (a & Ea & Ht)]. unfold handle_downstream_channel_request_in_aggregated_mode.
  wp_rule. wp_rule. wp_rule. wp_rule. wp_rule; [|done]. wp_rule. rename a0 into aggregate, H1 into Eagg.
  apply wp_bind, wp_transact. intros r s1. rewrite Ea.
  destruct (allocate_extended a n) as [al a'] eqn:Eal. intros [= <- <-]. cbn [andthen].
  apply wp_bind, wp_some_or; [|done]. intros [al0 rollable] [= <- <-]. cbn [andthen].
  set (s1 := put_allocator _ s).
  assert (∀ r s', served request_id s1 r s' → served request_id s r s') as Hs by (by intros [[]|e]).
  destruct al as [p|e].
  - apply allocate_spec in Eal as (Eb & En & Hnew & Hlive & [Eu _]).
    assert (allocated a a' p) as Hal by done.
    case_decide.
    + wp_rule. wp_rule. wp_rule.
      destruct (next_channel_id ord _) as [id|] eqn:Eid.
      * apply next_channel_id_fresh in Eid as (Hfree & Hne & _); [|done].
        destruct (tree_root _ _ Ht) as (agg & Eroot & Eup & Elo). rewrite Eroot in Eagg. simplify_eq.
        eapply wp_mono; [apply Hs|]. eapply (open_child_served _ _ _ _ _ _ _ _ a a'); try done.
        by apply not_elem_of_dom.
      * eapply wp_mono; [apply Hs|]. by eapply (drop_reject_served _ _ s1 a a' p).
    + eapply wp_mono; [apply Hs|]. by eapply (drop_reject_served _ _ s1 a a' p).
  - apply allocate_failed in Eal as [Hlive [Eu _]].
    assert (connected_ok s1) as Hc1.
    { split; [done|]. exists a'. split; [done|]. by eapply tree_allocator. }
    case_decide; (eapply wp_mono; [apply Hs|]; by apply reject_served).
Qed.
End opening2.

(** ** The upstream channel is open *)
Section success.
Context `{BitcoinApi} `{AddressApi} {CC : ClientChannels} {CL : ClientLaws CC}.
Context (mode : TproxyMode) (max_past_jobs : option N).
Implicit Types (s : ChannelManager).

(** The buffered requests are answered, in the order they are visited. *)
Definition flushed (requests : list N) s (r : result unit TproxyError) s' : Prop :=
  match r with
  | Ok _ => connected_ok s' ∧ pending_downstream_channels s' = ∅ ∧
            answered s' = answered s ++ requests
  | Err e => is_fatal e
  end.

Lemma serve_all_wp ord (l : list (N * (string * Hashrate * N))) s :
  iteration ord → connected_ok s → pending_downstream_channels s = ∅ →
  wp (for_each l (λ '(request_id, (user_identity, hashrate, size)),
        handle_downstream_channel_request_in_aggregated_mode max_past_jobs ord request_id
          user_identity hashrate size))
    (λ r s', flushed l.*1 s r s') s.
Proof.
  intros Ho. revert s. induction l as [|[q [[u h] n]] l IH]; intros s Hc Hp; cbn [for_each].
  { apply wp_ret. simpl. by rewrite app_nil_r. }
  apply wp_bind. eapply wp_mono; [|by apply request_served].
  intros [[]|e] s1; cbn [andthen]; [|done]. intros (Hc1 & Hp1 & Ha1).
  eapply wp_mono; [|apply IH; [done|by rewrite Hp1]]. intros [[]|e] s2; [|done].
  intros (Hc2 & Hp2 & Ha2). split_and!; [done|done|]. by rewrite Ha2, Ha1, <-app_assoc.
Qed.

Lemma omap_lookup_all {V} (m : gmap N V) (l : list N) :
  (∀ k, k ∈ l → k ∈ dom m) → (omap (λ r, (λ q, (r, q)) <$> m !! r) l).*1 = l.
Proof.
  induction l as [|k l IH]; intros Hl; [done|]. simpl.
  assert (k ∈ dom m) as [v Hv]%elem_of_dom by (apply Hl; by left).
  rewrite Hv. simpl. f_equal. apply IH. intros k' Hk'. apply Hl. by right.
Qed.

Lemma open_pending_wp ord s :
  iteration ord → connected_ok s →
  wp (open_pending_aggregated_downstream_channels max_past_jobs ord)
    (λ r s', flushed (ord (dom (pending_downstream_channels s))) s r s') s.
Proof.
  intros Ho Hc. unfold open_pending_aggregated_downstream_channels. wp_rule. wp_rule. wp_rule.
  rewrite decide_True by apply Hc. apply wp_bind, wp_transact. intros l s1 [= <- <-]. cbn [andthen].
  set (m := pending_downstream_channels s). set (s1 := put_pending ∅ s).
  eapply wp_mono; [|apply (serve_all_wp ord _ s1); [done|exact Hc|done]].
  intros r s2. rewrite omap_lookup_all by (intros k; by apply iteration_elem).
  destruct r as [[]|e]; exact id.
Qed.

Lemma fatal_allocate_under m k n : fatal_only (allocate_under m k n).
Proof. unfold allocate_under. fatal. Qed.

Lemma allocate_under_wp m k n s :
  wp (allocate_under m k n) (λ r s', ∀ p a, r = Ok (p, a) → s' = s ∧
    prefix_bytes p = oes_extranonce_prefix m ++ local_bytes p ∧
    prefix_upstream_len p = N.of_nat (length (oes_extranonce_prefix m)) ∧
    upstream_prefix a = oes_extranonce_prefix m ∧ ∀ l, live a l ↔ l = local_bytes p) s.
Proof.
  unfold allocate_under. apply wp_bind, wp_ok_or_raise; [|done]. intros a0 Enew. cbn [andthen].
  apply allocator_new in Enew as (Eu & Hnone & _).
  destruct (allocate_extended a0 n) as [r a1] eqn:Eal. apply wp_bind, wp_ok_or_raise; [|done].
  intros p ->. cbn [andthen]. apply wp_ret. intros p' a' [= <- <-].
  apply allocate_spec in Eal as (Eb & En & _ & Hlive & [Eu1 _]). rewrite Eu in Eb, En.
  split_and!; [done|done|done|congruence|]. intros l. rewrite Hlive.
  split; [intros [|[]%Hnone]; done|by left].
Qed.

Lemma fatal_open_aggregated m u h n : fatal_only (open_aggregated max_past_jobs m u h n).
Proof.
  unfold open_aggregated, open_fallback. case_decide; [by apply fatal_raise|].
  apply fatal_bind; [apply fatal_allocate_under|]. intros [p a]. fatal.
Qed.

Lemma open_aggregated_wp m u h n s :
  extended_channels s = ∅ →
  wp (open_aggregated max_past_jobs m u h n) (λ r s', ∀ x, r = Ok x →
    connected_ok s' ∧ pending_downstream_channels s' = pending_downstream_channels s ∧
    answered s' = answered s ∧ oes_request_id x = oes_request_id m) s.
Proof.
  intros Hempty. unfold open_aggregated, open_fallback. case_decide; [by apply wp_raise|].
  apply wp_bind. eapply wp_mono; [|apply allocate_under_wp].
  intros [[p a]|e] s1 Hal; cbn [andthen]; [|done].
  destruct (Hal p a eq_refl) as (-> & Eb & En & Eu & Hlive).
  apply wp_bind. destruct (from_wire (upstream_prefix a)) as [up|] eqn:Ew; [|done].
  apply wp_ret. cbn [andthen]. apply from_wire_spec in Ew as [Ewb Ewn].
  apply wp_bind, wp_ok_or_raise; [|done]. intros root Eroot. cbn [andthen].
  apply wp_bind, wp_update. cbn [andthen]. apply wp_bind, wp_ok_or_raise; [|done].
  intros c Ec. cbn [andthen]. repeat (apply wp_bind, wp_update; cbn [andthen]).
  apply wp_bind, wp_ensure; [|done]. intros _. cbn [andthen]. apply wp_ret.
  intros x [= <-]. simpl. split_and!; [|done..]. split; [done|]. exists a. split; [done|].
  simpl. rewrite Hempty.
  apply ext_new_spec in Eroot as (_ & Ep & _), Ec as (_ & Epc & _).
  assert (∀ d dh, d ≠ AGGREGATED_CHANNEL_ID →
    (<[1:=c]> (<[AGGREGATED_CHANNEL_ID:=root]> ∅) : gmap N ExtendedChannel) !! d = Some dh →
    d = 1 ∧ dh = c) as Hins.
  { intros d dh Hd. destruct (decide (d = 1)) as [->|]; [rewrite lookup_insert_eq; naive_solver|].
    rewrite !lookup_insert_ne by done. by rewrite lookup_empty. }
  split.
  - exists root. rewrite lookup_insert_ne, lookup_insert_eq by done.
    unfold get_extranonce_prefix. rewrite Ep. split_and!; [done|done|].
    unfold local_bytes. rewrite Ewb, Ewn, Nat2N.id. apply drop_ge. done.
  - intros d dh Hd Hdh. destruct (Hins _ _ Hd Hdh) as [-> ->].
    unfold get_extranonce_prefix, ext_upstream_prefix_len. by rewrite Epc, Eu.
  - intros l. rewrite Hlive. split.
    + intros ->. exists 1, c. rewrite lookup_insert_eq, Epc. done.
    + intros (d & dh & Hd & Hdh & <-). destruct (Hins _ _ Hd Hdh) as [-> ->]. by rewrite Epc.
  - intros c1 c2 ch1 ch2 Hn1 Hn2 [-> _]%Hins [-> _]%Hins _; done.
Qed.
End success.
