(* ===== verification/TproxyChannels.v ===== *)
(** * Translator: opening, closing and re-prefixing channels

    Every handler of the channel manager keeps the channels in order, and what
    follows for every run: no two miners of a shared channel search the same
    extranonces, no slot leaks, buffered requests are served, and a share that
    is forwarded is the miner's own work. *)
From S2P Require Import Prelude Handler SharedMap Bitcoin Payout ShareCache ClientChannels TproxyManager TproxyIds TproxyHistory TproxyInv.

Section handlers.
Context `{BitcoinApi} `{AddressApi} {CC : ClientChannels} {CL : ClientLaws CC}.
Context (mode : TproxyMode) (max_past_jobs : option N).
Context (supported_extensions required_extensions : list N).
Implicit Types (s : ChannelManager).

(** ** The upstream answers an open request *)

Lemma add_to_group_wp c g n s :
  wp (add_to_group c g n) (λ r s', (∀ e, r = Err e → is_fatal e) ∧ unanswering s s') s.
Proof.
  unfold add_to_group. apply wp_bind, wp_transact. intros r s1.
  unfold SharedMap.with_mut_or_insert_with. destruct (grp_add_channel_id _ _ _) as [r0 g0].
  intros [= <- <-]. cbn [andthen].
  assert (unanswering s (put_groups (<[g:=g0]> (group_channels s)) s)) as Hu
    by (split; [by apply sim_same|done]).
  apply wp_ok_or_raise; [done|]. intros e _. split; [by intros e' [= <-]|done].
Qed.

(** In aggregated mode the answer opens the shared channel, and the request it
    answers and all buffered ones are answered. *)
Lemma open_success_aggregated ord m s :
  iteration ord → is_aggregated mode = true → aggregated_ok s →
  wp (handle_open_extended_mining_channel_success mode max_past_jobs ord m)
    (λ r s', match r with
       | Ok _ => connected_ok s' ∧ pending_downstream_channels s' = ∅ ∧
           answered s' = answered s ++ oes_request_id m ::
             ord (dom (delete (oes_request_id m) (pending_downstream_channels s)))
       | Err e => (pending_downstream_channels s !! oes_request_id m = None ∧ aggregated_ok s') ∨
                  is_fatal e
       end) s.
Proof.
  intros Ho Hmode Hok. unfold handle_open_extended_mining_channel_success.
  apply wp_bind, wp_transact. intros o s1. unfold SharedMap.remove. intros [= <- <-]. cbn [andthen].
  set (s1 := put_pending _ s). apply wp_bind, wp_some_or.
  2: { intros Hnone. rewrite fmap_None in Hnone. left. split; [done|].
       unfold s1. rewrite delete_id by done.
       destruct Hok as [Hu|[Hc Hp]]; [left; exact Hu|right; split; [exact Hc|exact Hp]]. }
  intros [q [[u h] n]] Hq. cbn [andthen].
  assert (unconnected_ok s) as (_ & _ & Hempty).
  { destruct Hok as [Hu|[_ Hp]]; [done|]. rewrite Hp, lookup_empty in Hq. done. }
  wp_rule. wp_rule. wp_rule. case_match; [by right|].
  apply wp_bind. eapply wp_mono; [|apply add_to_group_wp].
  intros [[]|e] s2 [Hf [Hs2 Ha2]]; cbn [andthen]; [clear Hf|right; by apply Hf].
  rewrite Hmode.
  assert (extended_channels s2 = ∅) as Hempty2.
  { apply map_eq. intros k. rewrite lookup_empty.
    eapply same_channels_none; [apply Hs2|]. simpl. by rewrite Hempty. }
  apply wp_bind. apply (wp_mono _ (λ r s', match r with
    | Ok x => connected_ok s' ∧ pending_downstream_channels s' = pending_downstream_channels s2 ∧
              answered s' = answered s2 ∧ oes_request_id x = oes_request_id m
    | Err e => is_fatal e end)).
  2: { apply wp_fatal; [apply fatal_open_aggregated|by apply open_aggregated_wp]. }
  intros [x|e] s3; cbn [andthen]; [|by right]. intros (Hc3 & Hp3 & Ha3 & Ex).
  apply wp_bind. eapply wp_mono; [|apply advertise_success_wp].
  intros [[]|e] s4; cbn [andthen]; [|by right]. intros [Hs4 Ha4].
  assert (pending_downstream_channels s4 = delete (oes_request_id m) (pending_downstream_channels s)) as Hp4.
  { rewrite (sim_pending _ _ Hs4), Hp3, (sim_pending _ _ Hs2). done. }
  eapply wp_mono; [|apply open_pending_wp; [done|by eapply sim_connected]].
  intros [[]|e] s5; [|by right]. intros (Hc5 & Hp5 & Ha5). split_and!; [done|done|].
  rewrite Ha5, Ha4, Ha3, Ha2, Ex, Hp4, <-app_assoc. done.
Qed.

Lemma colliding_none c g s :
  colliding_channel_id mode c g s = None →
  c ≠ AGGREGATED_CHANNEL_ID ∧ g ≠ AGGREGATED_CHANNEL_ID ∧ c ≠ g ∧
  (is_aggregated mode = false → extended_channels s !! g = None ∧ extended_channels s !! c = None ∧
     group_channels s !! c = None).
Proof.
  unfold colliding_channel_id, SharedMap.contains_key. intros Hc.
  destruct (bool_decide (c = AGGREGATED_CHANNEL_ID)) eqn:E1, (bool_decide (g = AGGREGATED_CHANNEL_ID)) eqn:E2;
    simpl in Hc; try done.
  apply bool_decide_eq_false in E1, E2. destruct (is_aggregated mode) eqn:Em; simpl in Hc.
  - rewrite orb_false_r in Hc. case_bool_decide; done.
  - repeat case_bool_decide; simpl in Hc; try done.
    rewrite <-!eq_None_not_Some in *. naive_solver.
Qed.

Lemma fatal_open_own m u h n : fatal_only (open_own max_past_jobs m u h n).
Proof.
  unfold open_own, own_prefix, open_fallback. case_decide; [by apply fatal_raise|].
  apply fatal_bind; [|intros p; fatal].
  repeat case_decide; [fatal|by apply fatal_raise|].
  apply fatal_bind; [apply fatal_allocate_under|]. intros [p a]. fatal.
Qed.

Lemma own_prefix_wp m n s : wp (own_prefix m n) (λ r s', ∀ p, r = Ok p → s' = s) s.
Proof.
  unfold own_prefix, open_fallback. case_decide; [by apply wp_ok_or_raise|].
  case_decide; [by apply wp_raise|]. apply wp_bind. eapply wp_mono; [|apply allocate_under_wp].
  intros [[p a]|e] s' Hal; cbn [andthen]; [|done]. apply wp_ret. intros _ _. by eapply Hal.
Qed.

Lemma open_own_wp m u h n s :
  oes_channel_id m ≠ AGGREGATED_CHANNEL_ID →
  wp (open_own max_past_jobs m u h n) (λ r s', ∀ x, r = Ok x → (own_ok s → own_ok s') ∧
    dom (extended_channels s') = {[oes_channel_id m]} ∪ dom (extended_channels s) ∧
    oes_channel_id x = oes_channel_id m ∧ group_channels s' = group_channels s) s.
Proof.
  intros Hne. unfold open_own, open_fallback. case_decide; [by apply wp_raise|].
  apply wp_bind. eapply wp_mono; [|apply own_prefix_wp].
  intros [p|e] s1 Hs1; cbn [andthen]; [|done]. rewrite (Hs1 p eq_refl). clear Hs1.
  apply wp_bind, wp_ok_or_raise; [|done]. intros c _. cbn [andthen].
  apply wp_bind, wp_update. cbn [andthen]. apply wp_bind, wp_ensure; [|done]. intros _.
  cbn [andthen]. apply wp_ret. intros x [= <-]. simpl. split_and!; [|set_solver|done|done].
  intros [Ha Hn]. split; [done|]. simpl. by rewrite lookup_insert_ne.
Qed.

Lemma sim_own s s' : sim s s' → own_ok s → own_ok s'.
Proof. intros [Cs As _ _] [Ea En]. split; [congruence|by eapply same_channels_none]. Qed.

Lemma open_success_maintains ord m :
  iteration ord →
  maintains (channels_ok mode) (λ _, True)
    (handle_open_extended_mining_channel_success mode max_past_jobs ord m).
Proof.
  intros Ho s Hok _. unfold channels_ok in *. destruct (is_aggregated mode) eqn:Hmode.
  - eapply wp_mono; [|by apply open_success_aggregated].
    intros [[]|e] s' Hs'; (split; [done|]); intros Hs.
    + right. by destruct Hs' as (? & ? & _).
    + destruct Hs' as [[_ Hok']|Hf]; [done|]. unfold settled, is_fatal in *. by destruct (action e).
  - unfold handle_open_extended_mining_channel_success. rewrite Hmode.
    apply wp_bind, wp_transact. intros o s1 E1.
    assert (own_ok s1) as Hok1 by (injection E1 as _ <-; exact Hok).
    clear s E1 Hok. rename s1 into s, Hok1 into Hok. cbn [andthen].
    apply wp_bind, wp_some_or; [|by split]. intros [q [[u h] n]] _. cbn [andthen].
    wp_rule. wp_rule. wp_rule. destruct (colliding_channel_id mode _ _ s) eqn:Ecol; [by split|].
    destruct (colliding_none _ _ _ Ecol) as (Hne & _).
    apply wp_bind. eapply wp_mono; [|apply add_to_group_wp].
    intros [[]|e] s2 [Hf [Hs2 _]]; cbn [andthen].
    2: { split; [done|]. intros Hset. specialize (Hf e eq_refl). unfold settled, is_fatal in *. by destruct (action e). }
    apply wp_bind. apply (wp_mono _ (λ r s', match r with Ok x => own_ok s' | Err e => is_fatal e end)).
    2: { apply wp_fatal; [apply fatal_open_own|]. eapply wp_mono; [|by apply open_own_wp].
         intros r s' Hr x Hx. apply (Hr x Hx). by eapply sim_own. }
    intros [x|e] s3; cbn [andthen]; intros H3.
    2: { split; [done|]. intros Hset. unfold settled, is_fatal in *. by destruct (action e). }
    apply wp_bind. eapply wp_mono; [|apply advertise_success_wp].
    intros [[]|e] s4 H4; cbn [andthen].
    + apply wp_ret. split; [done|]. intros _. destruct H4 as [Hs4 _]. by eapply sim_own.
    + split; [done|]. intros Hset. unfold settled, is_fatal in *. by destruct (action e).
Qed.

(** ** Closing *)
Definition keeps_ok s s' : Prop := channels_ok mode s → channels_ok mode s'.

#[export] Instance keeps_ok_preorder : PreOrder keeps_ok.
Proof. split; [intros s Hs; exact Hs|]. intros ??? K1 K2 Hs. exact (K2 (K1 Hs)). Qed.

Lemma keeps_ok_sim {A} (p : handler A) : evolves sim p → evolves keeps_ok p.
Proof. apply evolves_mono. intros s s' Hs Hk. exact (sim_ok mode _ _ Hs Hk). Qed.

Lemma keeps_ok_maintains p : evolves keeps_ok p → maintains (channels_ok mode) (λ _, True) p.
Proof. intros Hp. apply (maintains_evolves _ _ keeps_ok); [done|intros s s' Hs Hk; exact (Hs Hk)|done]. Qed.

Lemma keeps_ok_remove c :
  (is_aggregated mode = true → c ≠ AGGREGATED_CHANNEL_ID) → evolves keeps_ok (remove_channel c).
Proof.
  intros Hc s. unfold remove_channel, drop_prefix, SharedMap.remove.
  apply wp_bind, wp_transact. intros o s1 [= <- <-]. cbn [andthen].
  destruct (extended_channels s !! c) as [ch|] eqn:Ech; simpl.
  - apply wp_bind, wp_update. cbn [andthen]. apply wp_ret. unfold keeps_ok, channels_ok.
    destruct (is_aggregated mode).
    + intros [(_ & _ & Hempty)|[[Hst (a & Ea & Ht)] Hp]]; [by rewrite Hempty, lookup_empty in Ech|].
      right. split; [|done]. split; [done|]. simpl. rewrite Ea. eexists. split; [done|].
      apply tree_delete; [done|by apply Hc|done].
    + intros [Ea En]. split; simpl; [by rewrite Ea|]. by apply lookup_delete_None; right.
  - apply wp_ret. intros Hk. refine (sim_ok mode s _ _ Hk). apply sim_same; try done. simpl. by apply delete_id.
Qed.

Ltac keeps_ok_tac :=
  repeat first
    [ evolve_rule
    | apply keeps_ok_remove
    | solve [apply keeps_ok_sim; sim_tac] ].

Lemma close_downstream_keeps c reason : evolves keeps_ok (handle_close_downstream mode c reason).
Proof.
  unfold handle_close_downstream.
  destruct (is_aggregated mode && bool_decide (c = AGGREGATED_CHANNEL_ID)) eqn:Ec;
    [apply evolves_ret, _|].
  assert (is_aggregated mode = true → c ≠ AGGREGATED_CHANNEL_ID) as Hc.
  { intros Hm. rewrite Hm in Ec. simpl in Ec. by apply bool_decide_eq_false in Ec. }
  unfold remove_advertised, leave_groups. keeps_ok_tac. done.
Qed.

Lemma close_channel_keeps c reason : evolves keeps_ok (handle_close_channel mode c reason).
Proof.
  unfold handle_close_channel. destruct (is_aggregated mode) eqn:Hm; [apply evolves_raise, _|].
  unfold closed_channels, remove_advertised, leave_groups. keeps_ok_tac; congruence.
Qed.

(** ** A new prefix from the upstream *)
Lemma change_prefix_ok_run reported act up ch ch' :
  change_prefix reported act up ch = Done (Ok tt, ch') →
  get_extranonce_prefix ch' = up ++ local_bytes (ext_prefix ch) ∧
  local_bytes (ext_prefix ch') = local_bytes (ext_prefix ch) ∧
  ext_upstream_prefix_len ch' = N.of_nat (length up).
Proof.
  unfold change_prefix. intros Hrun. invert_run. unfold transact in *.
  destruct (set_upstream_extranonce_prefix ch up) as [r c] eqn:Es. simplify_eq.
  pose proof (set_prefix_keeps ch up) as (_ & _ & _ & El). rewrite Es in El.
  apply set_prefix_spec in Es as [Eb En]. done.
Qed.

Lemma set_prefix_maintains ord c up :
  iteration ord →
  maintains (channels_ok mode) (λ _, True) (handle_set_extranonce_prefix mode ord c up).
Proof.
  intros Ho s Hok _. unfold handle_set_extranonce_prefix.
  unfold channels_ok in *. destruct (is_aggregated mode).
  2: { apply wp_focus; [intros _; by split|]. intros ch Hch. apply wp_intro. intros r ch' _.
       split; [done|]. intros _. destruct Hok as [Ea En]. split; [done|]. simpl.
       rewrite lookup_insert_ne; [done|]. congruence. }
  wp_rule. wp_rule. wp_rule. wp_rule. wp_rule; [|by split]. wp_rule. rename a into aggregate, H1 into Eagg.
  case_decide as Hc; [|by split]. case_decide; [by split|].
  destruct Hok as [(_ & _ & Hempty)|[[Hst (a & Ea & Ht)] Hp]]; [by rewrite Hempty, lookup_empty in Eagg|].
  apply (wp_mono _ (λ r s', match r with Ok x => connected_ok s' ∧ pending_downstream_channels s' = ∅
                                   | Err e => is_fatal e end)).
  { intros [[]|e] s'.
    - intros Hs. split; [done|]. intros _. by right.
    - intros Hs. split; [done|]. intros Hset. unfold settled, is_fatal in *. by destruct (action e). }
  apply wp_fatal; [unfold change_allocator_prefix, change_prefix; fatal|].
  apply wp_intro. intros r s' Hrun [] ->. unfold change_allocator_prefix in Hrun. invert_run.
  unfold transact in *. rewrite Ea in *.
  destruct (set_upstream_prefix a up) as [r a'] eqn:Eup. simplify_eq.
  repeat match goal with u : unit |- _ => destruct u end.
  apply set_upstream_spec in Eup as (Eu' & _ & Hlive).
  match goal with E0 : with_channel AGGREGATED_CHANNEL_ID _ _ _ = _ |- _ => rename E0 into Eroot end.
  unfold with_channel, focus in Eroot. simpl in Eroot. rewrite Eagg in Eroot.
  destruct (change_prefix _ _ _ _) as [[[[]|e] agg']|] eqn:Eagg'; [|done..].
  injection Eroot as <-. apply change_prefix_ok_run in Eagg'.
  apply for_each_focus in Hrun as (Es' & Hout & Hnone & Hin); [|done|done|by intros []|by apply NoDup_filter, iteration_nodup].
  simpl in Hout, Hnone, Hin. rewrite Es'. split; [|done]. split; [done|]. exists a'. split; [done|]. simpl.
  assert (∀ c ch, extended_channels s !! c = Some ch → ∃ ch', extended_channels s' !! c = Some ch' ∧
     get_extranonce_prefix ch' = up ++ local_bytes (ext_prefix ch) ∧
     local_bytes (ext_prefix ch') = local_bytes (ext_prefix ch) ∧
     ext_upstream_prefix_len ch' = N.of_nat (length up)) as Hstep.
  { intros d dh Hdh. destruct (decide (d = AGGREGATED_CHANNEL_ID)) as [->|Hd].
    - simplify_eq. exists agg'. rewrite Hout; [by rewrite lookup_insert_eq|].
      rewrite list_elem_of_filter. by intros [? _].
    - destruct (Hin d dh) as (dh' & Hrun' & Hdh').
      + apply list_elem_of_filter. split; [done|]. apply iteration_elem; [done|].
        apply elem_of_dom. rewrite lookup_insert_ne by done. by eexists.
      + by rewrite lookup_insert_ne.
      + exists dh'. split; [done|]. by eapply change_prefix_ok_run. }
  eapply (tree_new_upstream a a' _ _ up); try done.
  intros d. split.
  - intros [dh Hdh]. destruct (Hstep _ _ Hdh) as (dh' & Hdh' & _). by eexists.
  - destruct (extended_channels s !! d) as [dh|] eqn:Ed; [by eexists|].
    intros [dh' Hdh']. rewrite Hnone in Hdh'; [done|]. rewrite lookup_insert_ne; [done|]. congruence.
Qed.

(** ** Every handler *)
Lemma open_request_maintains ord m :
  iteration ord →
  maintains (channels_ok mode) (λ _, True) (handle_open_extended_mining_channel mode max_past_jobs ord m).
Proof.
  intros Ho s Hok _. unfold handle_open_extended_mining_channel. unfold channels_ok in *.
  destruct (is_aggregated mode).
  - wp_rule. wp_rule. wp_rule. destruct (aggregated_channel_state s) eqn:Est.
    + (* the shared channel is requested *)
      destruct Hok as [(_ & Ea & Hempty)|[[Hst _] _]]; [|congruence].
      assert (∀ s', aggregated_channel_state s' = Pending → aggregated_extranonce_allocator s' = None →
        extended_channels s' = ∅ → aggregated_ok s') as Hun.
      { intros s' E1 E2 E3. left. split_and!; [by rewrite E1|done|done]. }
      unfold add_pending, send_upstream. repeat (apply wp_bind, wp_update; cbn [andthen]).
      apply wp_bind, wp_some_or_crash. intros [] _. cbn [andthen]. apply wp_bind, wp_ask. cbn [andthen].
      case_match; [apply wp_update|apply wp_raise]; split; try done; intros _; by apply Hun.
    + apply wp_update. split; [done|]. intros _. destruct Hok as [Hu|[[Hst _] _]]; [by left|congruence].
    + destruct Hok as [[Hn _]|[Hc Hp]]; [congruence|]. eapply wp_mono; [|by apply request_served].
      intros [[]|e] s' Hs'; (split; [done|]); intros Hset.
      * destruct Hs' as (Hc' & Hp' & _). right. by rewrite Hp'.
      * unfold served, is_fatal, settled in *. by destruct (action e).
  - unfold add_pending, send_upstream. apply wp_bind, wp_update. cbn [andthen]. apply wp_bind, wp_ask.
    cbn [andthen]. case_match; [apply wp_update|apply wp_raise]; (split; [done|]); intros _; exact Hok.
Qed.

Lemma frame_maintains ord received :
  iteration ord →
  maintains (channels_ok mode) (λ _, True) (handle_upstream_frame mode max_past_jobs
    supported_extensions required_extensions ord received).
Proof.
  intros Ho s Hok _. unfold handle_upstream_frame. apply wp_bind, wp_some_or; [|by split].
  intros frame _. cbn [andthen].
  assert (∀ p, evolves sim p → wp p (λ r s', True ∧ (settled r → channels_ok mode s')) s) as Hsim.
  { intros p Hp. by apply (sim_maintains mode p). }
  unfold handle_open_mining_channel_error, open_fallback.
  destruct frame; try (apply Hsim; repeat evolve_rule; fail).
  - by apply open_success_maintains.
  - apply keeps_ok_maintains; [apply close_channel_keeps|done..].
  - by apply set_prefix_maintains.
  - apply Hsim, sim_shares_success.
  - apply Hsim, sim_shares_error.
  - apply Hsim, sim_new_job.
  - apply Hsim, sim_prev_hash.
  - apply Hsim, sim_set_target.
  - apply Hsim, sim_set_group.
  - apply Hsim, sim_extensions_success.
  - apply Hsim, sim_extensions_error.
Qed.

Lemma message_maintains ord received :
  iteration ord →
  maintains (channels_ok mode) (λ _, True) (handle_downstream_message mode max_past_jobs ord received).
Proof.
  intros Ho s Hok _. unfold handle_downstream_message. apply wp_bind, wp_some_or; [|by split].
  intros [m worker] _. cbn [andthen]. destruct m.
  - by apply open_request_maintains.
  - apply (sim_maintains mode); [apply sim_submit|done..].
  - apply (sim_maintains mode); [apply sim_update_channel|done..].
  - apply keeps_ok_maintains; [apply close_downstream_keeps|done..].
  - by apply wp_ret.
Qed.

Lemma reachable_channels_ok payout t :
  task_reachable mode max_past_jobs supported_extensions required_extensions payout t →
  running t = true → calm t → channels_ok mode (manager t).
Proof.
  intros Hr. assert (task_ok (channels_ok mode) (λ _, True) t) as [_ Hok]; [|done].
  eapply reachable_ok; [| | | | |exact Hr].
  - intros. by apply frame_maintains.
  - intros. by apply message_maintains.
  - intros s up sv1. split; [done|]. unfold channels_ok. destruct (is_aggregated mode); done.
  - unfold channels_ok. destruct (is_aggregated mode); [by left|done].
  - done.
Qed.

(** ** Every run *)

(** C34: miners that share an upstream channel never search the same
    extranonces: whatever two miners append to their prefixes, the results
    differ, and both start with the upstream's prefix; and the allocator's
    slots in use are exactly those of the open channels, so none leaks. *)
Theorem miners_search_apart payout t :
  is_aggregated mode = true →
  task_reachable mode max_past_jobs supported_extensions required_extensions payout t →
  running t = true → calm t → aggregated_channel_state (manager t) = Connected →
  ∃ a, aggregated_extranonce_allocator (manager t) = Some a ∧
    (∀ l, live a l ↔ ∃ c ch, c ≠ AGGREGATED_CHANNEL_ID ∧
       extended_channels (manager t) !! c = Some ch ∧ local_bytes (ext_prefix ch) = l) ∧
    ∀ c1 c2 ch1 ch2 e1 e2, c1 ≠ c2 → c1 ≠ AGGREGATED_CHANNEL_ID → c2 ≠ AGGREGATED_CHANNEL_ID →
      extended_channels (manager t) !! c1 = Some ch1 →
      extended_channels (manager t) !! c2 = Some ch2 →
      upstream_prefix a `prefix_of` get_extranonce_prefix ch1 ∧
      get_extranonce_prefix ch1 ++ e1 ≠ get_extranonce_prefix ch2 ++ e2.
Proof.
  intros Hm Hr Hrun Hcalm Hst. pose proof (reachable_channels_ok _ _ Hr Hrun Hcalm) as Hok.
  unfold channels_ok in Hok. rewrite Hm in Hok.
  destruct Hok as [[? _]|[[_ (a & Ea & Ht)] _]]; [done|]. exists a.
  split_and!; [done|apply Ht|]. intros c1 c2 ch1 ch2 e1 e2 Hne H1 H2 Hch1 Hch2.
  destruct (tree_child _ _ Ht _ _ H1 Hch1) as [E1 _], (tree_child _ _ Ht _ _ H2 Hch2) as [E2 _].
  split; [rewrite E1; by apply prefix_app_r|]. rewrite E1, E2, <-!app_assoc.
  intros Heq%app_inv_head. apply app_inj_1 in Heq as [El _].
  - by eapply Hne, (tree_inj _ _ Ht).
  - apply (live_length a); apply (tree_live _ _ Ht); [by exists c1, ch1|by exists c2, ch2].
Qed.

(** When the upstream opens the shared channel, the request it answers and
    every request buffered meanwhile is answered, each exactly once, nothing
    stays buffered, and the state is [Connected]. *)
Theorem buffered_requests_served payout t ord m s' :
  is_aggregated mode = true →
  task_reachable mode max_past_jobs supported_extensions required_extensions payout t →
  running t = true → calm t → iteration ord →
  handle_open_extended_mining_channel_success mode max_past_jobs ord m (manager t) = Done (Ok tt, s') →
  aggregated_channel_state s' = Connected ∧ pending_downstream_channels s' = ∅ ∧
  ∃ served, answered s' = answered (manager t) ++ oes_request_id m :: served ∧
    served ≡ₚ elements (dom (delete (oes_request_id m) (pending_downstream_channels (manager t)))).
Proof.
  intros Hm Hr Hrun Hcalm Ho E. pose proof (reachable_channels_ok _ _ Hr Hrun Hcalm) as Hok.
  unfold channels_ok in Hok. rewrite Hm in Hok.
  destruct (wp_sound _ _ _ _ _ (open_success_aggregated ord m (manager t) Ho Hm Hok) E)
    as ([Hc _] & Hp & Ha).
  split_and!; [done|done|]. eexists. split; [done|]. apply Ho.
Qed.

(** ** Shares *)
Lemma send_share_run worker m s s' :
  send_share worker m s = Done (Ok tt, s') →
  ∃ u, upstream_history s' = upstream_history s ++ [UpSubmitSharesExtended m u].
Proof.
  assert (∀ u, send_upstream (UpSubmitSharesExtended m u) s = Done (Ok tt, s') →
    upstream_history s' = upstream_history s ++ [UpSubmitSharesExtended m u]) as Hs.
  { intros u Hrun. unfold send_upstream in Hrun. invert_run.
    destruct (upstream_open _); [|done]. by invert_run. }
  unfold send_share. intros Hrun. invert_run. destruct worker as [name|]; [|by eexists; apply Hs].
  destruct (_ && _); [|by eexists; apply Hs]. invert_run. by eexists; apply Hs.
Qed.

Lemma validate_on_run k m s v s' :
  validate_on k m s = Done (Ok v, s') →
  v = (λ ch, (validate_share ch m).1) <$> extended_channels s !! k ∧
  (∀ c ch, extended_channels s !! c = Some ch →
     ∃ ch', extended_channels s' !! c = Some ch' ∧ ext_prefix ch' = ext_prefix ch) ∧
  upstream_history s' = upstream_history s.
Proof.
  unfold validate_on, with_channel, focus. destruct (extended_channels s !! k) as [ch|] eqn:Ech.
  - unfold mbind, prog_bind, transact, mret, prog_ret. destruct (validate_share ch m) as [r ch'] eqn:Ev.
    intros [= <- <-]. split_and!; [simpl; by rewrite Ev| |done]. intros c dh Hd. simpl.
    destruct (decide (c = k)) as [->|].
    + rewrite lookup_insert_eq. simplify_eq. exists ch'. split; [done|].
      destruct (validate_share_keeps ch m) as [[_ Ep _] _]. by rewrite Ev in Ep.
    + rewrite lookup_insert_ne by done. by exists dh.
  - intros [= <- <-]. split_and!; [done|intros c dh Hd; by exists dh|done].
Qed.

(** The same work: job, nonce, time and version. *)
Definition same_share (m m' : SubmitSharesExtended) : Prop :=
  sse_job_id m' = sse_job_id m ∧ nonce m' = nonce m ∧ ntime m' = ntime m ∧
  sse_version m' = sse_version m.

Lemma rewrite_aggregated_run aggregate m s m' s' ch a :
  tree_ok a (extended_channels s) → aggregated_extranonce_allocator s = Some a →
  sse_channel_id m ≠ AGGREGATED_CHANNEL_ID →
  extended_channels s !! AGGREGATED_CHANNEL_ID = Some aggregate →
  extended_channels s !! sse_channel_id m = Some ch →
  rewrite_aggregated_share aggregate m s = Done (Ok m', s') →
  s' = s ∧ same_share m m' ∧ sse_channel_id m' = get_channel_id aggregate ∧
  get_extranonce_prefix aggregate ++ extranonce m' = get_extranonce_prefix ch ++ extranonce m.
Proof.
  intros Ht Ea Hne Eagg Ech Hrun. unfold rewrite_aggregated_share in Hrun. invert_run.
  rewrite Ech, Ea in Hrun. simpl in Hrun. invert_run.
  unfold ensure in *. case_match; [|done]. invert_run. split_and!; [done|done|done|]. simpl.
  destruct (tree_root _ _ Ht) as (agg & Eroot & Eup & _). simplify_eq. rewrite Eup.
  destruct (tree_child _ _ Ht _ _ Hne Ech) as [Eb _].
  rewrite Eb at 1. rewrite upstream_prefix_len_spec, Nat2N.id, drop_app_length, app_assoc.
  by rewrite <-Eb.
Qed.

Lemma rewrite_own_run m s m' s' ch :
  extended_channels s !! sse_channel_id m = Some ch →
  rewrite_own_share m s = Done (Ok m', s') →
  s' = s ∧ same_share m m' ∧ sse_channel_id m' = sse_channel_id m ∧
  take (N.to_nat (ext_upstream_prefix_len ch)) (get_extranonce_prefix ch) ++ extranonce m' =
    get_extranonce_prefix ch ++ extranonce m.
Proof.
  intros Ech Hrun. unfold rewrite_own_share in Hrun. invert_run. rewrite Ech in Hrun. invert_run.
  set (n := N.to_nat _) in *. set (p := get_extranonce_prefix ch) in *.
  destruct (drop n p) as [|b l] eqn:Ed; invert_run.
  - split_and!; try done. f_equal. rewrite <-(take_drop n p) at 2. by rewrite Ed, app_nil_r.
  - unfold ensure in *. case_match; [|done]. invert_run. split_and!; try done. simpl.
    rewrite <-(take_drop n p) at 2. by rewrite Ed, <-app_assoc.
Qed.

Lemma next_number_run key s n s' :
  next_share_sequence_number key s = Done (Ok n, s') →
  extended_channels s' = extended_channels s ∧ upstream_history s' = upstream_history s.
Proof.
  unfold next_share_sequence_number, transact. destruct (SharedMap.with_mut_or_default _ _ _ _).
  by intros [= <- <-].
Qed.

(** What a forwarded share has to be: accepted by the channel it is forwarded
    on, the miner's work, and at the extranonce the miner used. *)
Record relayed (ch upstream : ExtendedChannel) (judged m m' : SubmitSharesExtended) : Prop := {
  rel_valid : (validate_share upstream judged).1 = Ok tt;
  rel_judged : same_share m judged;
  rel_work : same_share m m';
  rel_extranonce : ∃ granted,
    granted `prefix_of` get_extranonce_prefix ch ∧
    granted ++ extranonce m' = get_extranonce_prefix ch ++ extranonce m;
}.

Lemma same_share_trans m1 m2 m3 : same_share m1 m2 → same_share m2 m3 → same_share m1 m3.
Proof. unfold same_share. intuition congruence. Qed.

(** A share of an open channel that is forwarded is the miner's work: the
    upstream channel accepts it, job, nonce, time and version are the
    miner's, it is addressed to the upstream channel, and the upstream's
    prefix followed by its extranonce is the miner's prefix followed by the
    miner's extranonce; in aggregated mode that prefix is the shared
    channel's. *)
Theorem forwarded_share_is_miners_work payout t m worker s' new ch :
  task_reachable mode max_past_jobs supported_extensions required_extensions payout t →
  running t = true → calm t →
  handle_submit_shares_extended mode m worker (manager t) = Done (Ok tt, s') →
  upstream_history s' = upstream_history (manager t) ++ [new] →
  sse_channel_id m ≠ AGGREGATED_CHANNEL_ID →
  extended_channels (manager t) !! sse_channel_id m = Some ch →
  ∃ upstream judged m' u, new = UpSubmitSharesExtended m' u ∧ relayed ch upstream judged m m' ∧
    if is_aggregated mode then
      extended_channels (manager t) !! AGGREGATED_CHANNEL_ID = Some upstream ∧
      sse_channel_id m' = get_channel_id upstream ∧ extranonce judged = extranonce m' ∧
      get_extranonce_prefix upstream ++ extranonce m' = get_extranonce_prefix ch ++ extranonce m
    else upstream = ch ∧ judged = m ∧ sse_channel_id m' = sse_channel_id m.
Proof.
  intros Hr Hrun Hcalm E Hnew Hne Hch. pose proof (reachable_channels_ok _ _ Hr Hrun Hcalm) as Hok.
  revert Hok E Hnew Hch. generalize (manager t). clear t Hr Hrun Hcalm. intros s Hok E Hnew Hch.
  unfold handle_submit_shares_extended, channels_ok in *. invert_run.
  destruct (is_aggregated mode) eqn:Hm.
  - destruct Hok as [(_ & _ & Hempty)|[[_ (a & Ea & Ht)] _]]; [by rewrite Hempty, lookup_empty in Hch|].
    destruct (tree_root _ _ Ht) as (agg & Eroot & Eup & _). rewrite Eroot in E. invert_run.
    rename x into m1. match goal with E0 : rewrite_aggregated_share _ _ _ = _ |- _ =>
      apply (rewrite_aggregated_run _ _ _ _ _ ch a) in E0 as (-> & Hw & Hid & Hen); [|done..] end.
    match goal with E0 : validate_on _ _ _ = _ |- _ => apply validate_on_run in E0 as (-> & _ & Eh) end.
    rewrite Eroot in E. simpl in E.
    destruct (validate_share agg m1).1 as [[]|e] eqn:Ev.
    2: { invert_run. rewrite Eh in Hnew. by apply (f_equal length) in Hnew; rewrite length_app in Hnew; simpl in Hnew; lia. }
    invert_run. match goal with E0 : next_share_sequence_number _ _ = _ |- _ => apply next_number_run in E0 as [_ Eh2] end.
    apply send_share_run in E as [u Eh3]. rewrite Eh3, Eh2, Eh in Hnew. apply app_inv_head in Hnew as [= <-].
    exists agg, m1. do 2 eexists. split_and!; [done| |done|done|done|done].
    split; [done|done|done|]. exists (upstream_prefix a). split; [|by rewrite <-Eup].
    destruct (tree_child _ _ Ht _ _ Hne Hch) as [-> _]. by apply prefix_app_r.
  - assert (submit_own m worker s = Done (Ok tt, s')) as E'.
    { by destruct (extended_channels s !! AGGREGATED_CHANNEL_ID). }
    clear E. rename E' into E. unfold submit_own in E. invert_run.
    match goal with E0 : validate_on _ _ _ = _ |- _ => apply validate_on_run in E0 as (-> & Hkeep & Eh) end.
    rewrite Hch in E. simpl in E. destruct (validate_share ch m).1 as [[]|e] eqn:Ev.
    2: { invert_run. rewrite Eh in Hnew. by apply (f_equal length) in Hnew; rewrite length_app in Hnew; simpl in Hnew; lia. }
    invert_run. match goal with E0 : next_share_sequence_number _ _ = _ |- _ => apply next_number_run in E0 as [Ec Eh2] end.
    destruct (Hkeep _ _ Hch) as (ch' & Hch' & Ep). rewrite <-Ec in Hch'.
    match goal with E0 : rewrite_own_share _ _ = _ |- _ =>
      apply (rewrite_own_run _ _ _ _ ch') in E0 as (-> & Hw & Hid & Hen); [|done] end.
    apply send_share_run in E as [u Eh3]. rewrite Eh3, Eh2, Eh in Hnew. apply app_inv_head in Hnew as [= <-].
    exists ch, m. do 2 eexists. split_and!; [done| |done|done|done].
    unfold get_extranonce_prefix, ext_upstream_prefix_len in Hen. rewrite Ep in Hen.
    split; [done|done|done|]. eexists. split; [|exact Hen]. apply prefix_take.
Qed.
End handlers.
