(* ===== verification/TproxyJobs.v ===== *)
(** * Translator: the jobs it accepts, the channels it asks for

    Every job that reaches the SV1 server lets miners roll the version and
    pays whom the configured identity says; in aggregated mode a single
    upstream channel is ever requested. *)
From S2P Require Import Prelude Handler SharedMap Bitcoin Payout ShareCache ClientChannels TproxyManager TproxyIds TproxyHistory TproxyInv.

Section jobs.
Context `{BitcoinApi} `{AddressApi} {CC : ClientChannels} {CL : ClientLaws CC}.
Context (mode : TproxyMode) (max_past_jobs : option N).
Context (supported_extensions required_extensions : list N).
Context (payout : option PayoutMode).
Implicit Types (s : ChannelManager).

(** The jobs the upstream sent, each with the full size of the extranonces of
    the channel or group it was sent to. *)
Context (offered : NewExtendedMiningJob → N → Prop).

Definition full_size s (c : N) : option N :=
  if is_aggregated mode
  then get_full_extranonce_size <$> extended_channels s !! AGGREGATED_CHANNEL_ID
  else match group_channels s !! c with
       | Some g => grp_get_full_extranonce_size g
       | None => get_full_extranonce_size <$> extended_channels s !! c
       end.

(** A job with the id and the coinbase of another one. *)
Definition same_coinbase (m m' : NewExtendedMiningJob) : Prop :=
  nj_job_id m' = nj_job_id m ∧ nj_coinbase_tx_prefix m' = nj_coinbase_tx_prefix m ∧
  nj_coinbase_tx_suffix m' = nj_coinbase_tx_suffix m.

(** The coinbase pays the expected amounts, with extranonces of the size. *)
Definition pays_expected (m : NewExtendedMiningJob) (n : N) : Prop :=
  ∀ p, payout = Some p →
    validate_coinbase_tx_parts p (nj_coinbase_tx_prefix m) (nj_coinbase_tx_suffix m) (N.to_nat n)
      = Done (Ok tt).

(** The message of a job the translator may work on. *)
Definition acceptable (m : NewExtendedMiningJob) : Prop :=
  version_rolling_allowed m = true ∧
  ∃ m0 n, offered m0 n ∧ same_coinbase m0 m ∧ pays_expected m n.

Lemma acceptable_for c m : acceptable (job_for c m) ↔ acceptable m.
Proof. done. Qed.

Lemma acceptable_same m m' : same_work m m' → acceptable m → acceptable m'.
Proof.
  unfold acceptable, same_coinbase, pays_expected. by intros (_ & -> & -> & -> & ->).
Qed.

Record jobs_ok s : Prop := {
  jk_payout : expected_payout_distribution s = Some payout;
  jk_channels : ∀ c ch j, extended_channels s !! c = Some ch → has_job ch j →
    acceptable (job_message j);
  jk_history : ∀ m, DownNewExtendedMiningJob m ∈ sv1_history s → acceptable m;
}.

Definition keeps_jobs s s' : Prop := jobs_ok s → jobs_ok s'.

#[export] Instance keeps_jobs_preorder : PreOrder keeps_jobs.
Proof. split; [intros s Hs; exact Hs|]. intros ??? K1 K2 Hs. exact (K2 (K1 Hs)). Qed.

(** The state of a channel: no job but those it had, and acceptable ones. *)
Definition gains c c' : Prop := ∀ j, has_job c' j → has_job c j ∨ acceptable (job_message j).

#[export] Instance gains_preorder : PreOrder gains.
Proof.
  split; [intros c j Hj; by left|]. intros c1 c2 c3 G1 G2 j Hj.
  destruct (G2 j Hj) as [Hj2|]; [by apply G1|by right].
Qed.

Lemma same_jobs_gains c c' : same_jobs c c' → gains c c'.
Proof. intros [E1 E2] j. unfold has_job. rewrite E1, E2. by left. Qed.

Lemma gains_new_job c m : acceptable m → gains c (on_new_extended_mining_job c m).2.
Proof.
  intros Hm j [Hj|[Hw _]]%new_job_jobs; [by left|]. right. by eapply acceptable_same.
Qed.

(** Promoting a job keeps it acceptable, so this needs those the channel has. *)
Definition fine c : Prop := ∀ j, has_job c j → acceptable (job_message j).

Lemma fine_gains c c' : gains c c' → fine c → fine c'.
Proof. intros Hg Hf j Hj. destruct (Hg j Hj); auto. Qed.
Lemma fine_prev_hash c m : fine c → fine (on_set_new_prev_hash c m).2.
Proof. intros Hf j (j0 & Hj0 & Hw & _)%prev_hash_jobs. eapply acceptable_same; [done|]. by apply Hf. Qed.

Definition stays_fine c c' : Prop := fine c → fine c'.
#[export] Instance stays_fine_preorder : PreOrder stays_fine.
Proof. split; [intros c Hc; exact Hc|]. intros ??? K1 K2 Hs. exact (K2 (K1 Hs)). Qed.

(** ** Handlers that hand out no job *)
Lemma keeps_same s s' :
  expected_payout_distribution s' = expected_payout_distribution s →
  extended_channels s' = extended_channels s → sv1_history s' = sv1_history s → keeps_jobs s s'.
Proof. intros E1 E2 E3 [P C Hh]. split; [congruence|by rewrite E2|by rewrite E3]. Qed.

Lemma keeps_send_sv1 m :
  (∀ j, m = DownNewExtendedMiningJob j → acceptable j) → evolves keeps_jobs (send_sv1 m).
Proof.
  intros Hm. unfold send_sv1. intros s. repeat wp_rule; [|done]. intros [P C Hh]. split; [done|done|].
  intros j. unfold sv1_history. simpl. intros [Hj|Hj]%elem_of_app; [by apply Hh|].
  apply list_elem_of_singleton in Hj. by apply Hm.
Qed.
Lemma keeps_send_upstream m : evolves keeps_jobs (send_upstream m).
Proof. unfold send_upstream. intros s. repeat wp_rule; [|done]. by apply keeps_same. Qed.

Lemma keeps_put_channels s m :
  (∀ c ch, m !! c = Some ch → fine ch ∨ extended_channels s !! c = Some ch) →
  keeps_jobs s (put_channels m s).
Proof.
  intros Hm [P C Hh]. split; [done| |done]. simpl. intros c ch j Hch Hj.
  destruct (Hm c ch Hch) as [Hf|Hold]; [by apply Hf|by eapply C].
Qed.

Lemma keeps_channel {A} k (absent : handler A) p :
  evolves keeps_jobs absent → evolves stays_fine p → evolves keeps_jobs (with_channel k absent p).
Proof.
  intros Ha Hp s. apply wp_focus; [intros _; apply Ha|]. intros ch Hch.
  eapply wp_mono; [|apply Hp]. intros r ch' Hf Hs. refine (keeps_put_channels s _ _ Hs).
  intros c dh. destruct (decide (c = k)) as [->|].
  - rewrite lookup_insert_eq. intros [= <-]. left. apply Hf. intros j Hj. by eapply Hs.
  - rewrite lookup_insert_ne by done. by right.
Qed.

Lemma keeps_remove_channel c : evolves keeps_jobs (remove_channel c).
Proof.
  unfold remove_channel, drop_prefix, SharedMap.remove.
  apply evolves_bind; [apply _| |intros o].
  - apply evolves_transact. intros s. simpl. apply keeps_put_channels. intros d dh.
    rewrite lookup_delete_Some. intros [_ Hd]. by right.
  - repeat evolve_rule. apply evolves_update. intros s. by apply keeps_same.
Qed.

Lemma fine_same p :
  (∀ c, same_jobs c (p c).2) → evolves stays_fine (transact (E := TproxyError) (A := result unit ExtendedChannelError) p).
Proof. intros Hp. apply evolves_transact. intros c Hf. eapply fine_gains; [|done]. by apply same_jobs_gains. Qed.

Lemma fine_process_job m : acceptable m → evolves stays_fine (process_job m).
Proof.
  intros Hm. unfold process_job. repeat evolve_rule. apply evolves_transact. intros c Hf.
  eapply fine_gains; [|done]. by apply gains_new_job.
Qed.
Lemma fine_process_prev_hash m : evolves stays_fine (process_prev_hash m).
Proof. unfold process_prev_hash. repeat evolve_rule. apply evolves_transact. intros c Hf. by apply fine_prev_hash. Qed.
Lemma fine_process_target t : evolves stays_fine (process_target t).
Proof.
  unfold process_target. repeat evolve_rule. apply fine_same. intros c. apply set_target_keeps.
Qed.
Lemma fine_change_prefix c act up : evolves stays_fine (change_prefix c act up).
Proof.
  unfold change_prefix. repeat evolve_rule. apply evolves_transact. intros ch Hf.
  eapply fine_gains; [|done]. apply same_jobs_gains, set_prefix_keeps.
Qed.
Lemma fine_update f : (∀ c, same_jobs c (f c)) → evolves stays_fine (update (E := TproxyError) f).
Proof. intros Hp. apply evolves_update. intros c Hf. eapply fine_gains; [|done]. by apply same_jobs_gains. Qed.

(** ** Handing out jobs *)
Lemma keeps_forward ord m : acceptable m → evolves keeps_jobs (forward_job_to_sv1_server ord m).
Proof.
  intros Hm. unfold forward_job_to_sv1_server, announce_prefix, advertise.
  repeat first [evolve_rule|apply keeps_send_sv1; by intros j [= <-]|
                apply evolves_update; intros ?; by apply keeps_same].
Qed.

Lemma gains_replay id j :
  acceptable (job_message j) → evolves gains (replay_job id j).
Proof.
  intros Hj. unfold replay_job. repeat evolve_rule; apply evolves_transact; intros c.
  - apply same_jobs_gains, set_prefix_keeps.
  - apply same_jobs_gains, set_target_keeps.
  - by apply gains_new_job.
Qed.

Lemma gains_initialize id target current active futures tip :
  (∀ j, active = Some j ∨ j ∈ futures → acceptable (job_message j)) →
  evolves gains (initialize_channel id target current active futures tip).
Proof.
  intros Hj. unfold initialize_channel.
  assert (∀ up, evolves gains (transact (E := TproxyError) (λ c, set_upstream_extranonce_prefix c up))) as Hp.
  { intros up. apply evolves_transact. intros c. apply same_jobs_gains, set_prefix_keeps. }
  apply evolves_bind; [apply _|apply Hp|intros r]. 
  apply evolves_bind; [apply _|apply evolves_ok_or_raise, _|intros _].
  apply evolves_bind; [apply _|apply evolves_ask, _|intros success].
  apply evolves_bind; [apply _| |intros _].
  { apply evolves_update. intros c. destruct tip; [apply same_jobs_gains, set_chain_tip_keeps|done]. }
  apply evolves_bind; [apply _| |intros _].
  - intros c. apply (wp_for_each _ _ (gains c)); [done| |done].
    intros j c1 Hin Hc1. eapply wp_mono; [|apply gains_replay, Hj].
    + intros r' c2 Hc2. split; [by etrans|]. intros e _. by etrans.
    + apply elem_of_app in Hin as [Hin|Hin]; [left|by right]. destruct active; simpl in Hin; set_solver.
  - repeat first [evolve_rule|apply Hp]. apply evolves_transact. intros c.
    apply same_jobs_gains, set_target_keeps.
Qed.

Lemma keeps_open_child ord request_id id u h n aggregate p s :
  extended_channels s !! AGGREGATED_CHANNEL_ID = Some aggregate → jobs_ok s →
  wp (open_child max_past_jobs ord request_id id u h n aggregate p) (λ _ s', jobs_ok s') s.
Proof.
  intros Hagg Hs. unfold open_child.
  assert (∀ p', evolves keeps_jobs (drop_prefix p')) as Hdrop.
  { intros p'. apply evolves_update. intros s'. by apply keeps_same. }
  assert (∀ A (q : handler A) s1, evolves keeps_jobs q → jobs_ok s1 → wp q (λ _ s', jobs_ok s') s1) as Hgo.
  { intros A q s1 Hq Hs1. eapply wp_mono; [|apply Hq]. intros r s' Hk. exact (Hk Hs1). }
  destruct (ext_new _ _ _ _ _ _ _ _) as [c|e] eqn:Enew.
  2: { apply Hgo; [|done]. apply evolves_bind; [apply _|apply Hdrop|intros _; apply evolves_raise, _]. }
  apply ext_new_spec in Enew as (_ & _ & _ & Eact & Efut).
  assert (∀ j, get_active_job aggregate = Some j ∨ j ∈ (get_future_jobs aggregate).*2 →
    acceptable (job_message j)) as Hjobs.
  { intros j Hj. apply (jk_channels _ Hs AGGREGATED_CHANNEL_ID aggregate j Hagg). exact Hj. }
  apply wp_bind, wp_on_value.
  eapply wp_mono; [|by apply gains_initialize].
  intros r c' Hg. cbn [andthen]. destruct r as [success|e].
  2: { apply Hgo; [|done]. apply evolves_bind; [apply _|apply Hdrop|intros _; apply evolves_raise, _]. }
  apply wp_bind, wp_update. cbn [andthen]. apply Hgo.
  - apply evolves_bind; [apply _|apply evolves_ensure, _|intros _].
    apply evolves_bind; [apply _| |intros _].
    + unfold advertise. apply evolves_bind; [apply _|by apply keeps_send_sv1|intros _].
      apply evolves_update. intros s'. by apply keeps_same.
    + destruct (get_active_job aggregate) as [j|]; [|apply evolves_ret, _].
      apply keeps_forward, acceptable_for, Hjobs. by left.
  - refine (keeps_put_channels s _ _ Hs). intros d dh. destruct (decide (d = id)) as [->|].
    + rewrite lookup_insert_eq. intros [= <-]. left. eapply fine_gains; [done|].
      intros j [Hj|Hj]; [congruence|]. rewrite Efut in Hj. set_solver.
    + rewrite lookup_insert_ne by done. by right.
Qed.

Lemma keeps_request ord request_id u h n :
  evolves keeps_jobs (handle_downstream_channel_request_in_aggregated_mode max_past_jobs ord
    request_id u h n).
Proof.
  intros s. apply wp_intro. intros r s' Hrun Hs. revert Hrun.
  assert (∀ (q : handler unit) s1, evolves keeps_jobs q → jobs_ok s1 → wp q (λ _ s', jobs_ok s') s1) as Hgo.
  { intros q s1 Hq Hs1. eapply wp_mono; [|apply Hq]. intros r1 s2 Hk. exact (Hk Hs1). }
  assert (∀ code, evolves keeps_jobs (reject_downstream_channel_request request_id code)) as Hrej.
  { intros code. by apply keeps_send_sv1. }
  assert (∀ p code, evolves keeps_jobs (drop_prefix p;; reject_downstream_channel_request request_id code)) as Hdrop.
  { intros p code. apply evolves_bind; [apply _| |intros _; apply Hrej]. apply evolves_update.
    intros s1. by apply keeps_same. }
  apply (wp_sound _ (λ _ s', jobs_ok s')).
  unfold handle_downstream_channel_request_in_aggregated_mode.
  wp_rule. wp_rule. wp_rule. wp_rule. wp_rule; [|done]. wp_rule. rename a into aggregate, H1 into Eagg.
  apply wp_bind, wp_transact. intros o s1 E1. cbn [andthen].
  assert (jobs_ok s1 ∧ extended_channels s1 = extended_channels s) as [Hs1 Ec1].
  { destruct (aggregated_extranonce_allocator s); [destruct (allocate_extended _ _)|]; simplify_eq; try done.
    split; [|done]. exact (keeps_same s (put_allocator _ s) eq_refl eq_refl eq_refl Hs). }
  apply wp_bind, wp_some_or; [|done]. intros [al rollable] _. cbn [andthen].
  destruct al as [p|e]; case_decide; try (by apply Hgo).
  wp_rule. wp_rule. wp_rule. destruct (next_channel_id _ _); [|apply Hgo; [apply Hdrop|done]].
  apply keeps_open_child; [by rewrite Ec1|done].
Qed.

Lemma verify_wp m n s (Q : result unit TproxyError → ChannelManager → Prop) :
  jobs_ok s → version_rolling_allowed m = true → offered m n →
  (∀ r, (r = Ok tt → acceptable m) → Q r s) → wp (verify_payout_distribution m n) Q s.
Proof.
  intros Hs Hv Hn HQ. unfold verify_payout_distribution. wp_rule. wp_rule. wp_rule.
  rewrite (jk_payout _ Hs). wp_rule. wp_rule. simplify_eq. wp_rule.
  assert (pays_expected m n → acceptable m) as Hok by (intros Hp; split; [done|by exists m, n]).
  unfold pays_expected in Hok. destruct payout as [p|] eqn:Ep.
  - apply wp_bind, wp_run_rust. intros r Er. cbn [andthen]. apply wp_ok_or_raise.
    + intros [] ->. apply HQ. intros _. apply Hok. by intros p' [= <-].
    + intros e _. by apply HQ.
  - apply wp_ret, HQ. intros _. by apply Hok.
Qed.

(** Programs that end with acceptable jobs. *)
Definition hands_at {A} (job : A → NewExtendedMiningJob) (p : handler (list A)) s : Prop :=
  jobs_ok s → wp p (λ r s', jobs_ok s' ∧
    match r with Ok l => Forall (λ x, acceptable (job x)) l | Err _ => True end) s.
Definition hands {A} (job : A → NewExtendedMiningJob) (p : handler (list A)) : Prop :=
  ∀ s, hands_at job p s.

Lemma hands_read {A B} (job : A → NewExtendedMiningJob) (m : handler B) k :
  evolves keeps_jobs m → (∀ a, hands job (k a)) → hands job (m ≫= k).
Proof.
  intros Hm Hk s Hs. apply wp_bind. eapply wp_mono; [|apply Hm].
  intros [a|e] s' K; cbn [andthen]; specialize (K Hs); [by apply Hk|done].
Qed.

Lemma hands_verify m n k s :
  version_rolling_allowed m = true → offered m n → (acceptable m → hands id k) →
  hands_at id (verify_payout_distribution m n;; k) s.
Proof.
  intros Hv Hn Hk Hs. apply wp_bind, verify_wp; [done..|].
  intros [[]|e] Hm; cbn [andthen]; [|done]. by apply Hk; [apply Hm|].
Qed.

Lemma hands_then_at {A} (job : A → NewExtendedMiningJob) (p : handler (list A))
    (k : list A → handler unit) s :
  hands_at job p s → (∀ l, Forall (λ x, acceptable (job x)) l → evolves keeps_jobs (k l)) →
  wp (p ≫= k) (λ _ s', keeps_jobs s s') s.
Proof.
  intros Hp Hk. apply wp_intro. intros r s' Hrun Hs. revert Hrun.
  apply (wp_sound _ (λ _ s', jobs_ok s')). apply wp_bind. eapply wp_mono; [|by apply Hp].
  intros [l|e] s1 [Hs1 Hl]; cbn [andthen]; [|done].
  eapply wp_mono; [|by apply Hk]. intros r1 s2 K. exact (K Hs1).
Qed.

Lemma hands_then {A} (job : A → NewExtendedMiningJob) (p : handler (list A)) (k : list A → handler unit) :
  hands job p → (∀ l, Forall (λ x, acceptable (job x)) l → evolves keeps_jobs (k l)) →
  evolves keeps_jobs (p ≫= k).
Proof. intros Hp Hk s. by eapply hands_then_at. Qed.

Lemma hands_raise {A} (job : A → NewExtendedMiningJob) e : hands job (raise e).
Proof. done. Qed.
Lemma hands_ret {A} (job : A → NewExtendedMiningJob) l :
  Forall (λ x, acceptable (job x)) l → hands job (mret l).
Proof. done. Qed.

Lemma hands_collect {A B} (job : A → NewExtendedMiningJob) (l : list B) f :
  (∀ x, hands job (f x)) → hands job (collect l f).
Proof.
  intros Hf s Hs. apply (wp_collect l f jobs_ok (λ x, acceptable (job x))); [done| |done].
  intros x s1 _ Hs1. eapply wp_mono; [|by apply Hf]. intros [out|e] s2 [? ?]; by split.
Qed.

Lemma hands_channel {A} (job : A → NewExtendedMiningJob) k absent p :
  hands job absent →
  (∀ ch, fine ch → wp p (λ r ch', fine ch' ∧
     match r with Ok l => Forall (λ x, acceptable (job x)) l | Err _ => True end) ch) →
  hands job (with_channel k absent p).
Proof.
  intros Ha Hp s Hs. apply wp_focus; [intros _; by apply Ha|]. intros ch Hch.
  eapply wp_mono; [|apply Hp; intros j Hj; by eapply jk_channels].
  intros r ch' [Hf Hr]. split; [|done]. refine (keeps_put_channels s _ _ Hs).
  intros c dh. destruct (decide (c = k)) as [->|].
  - rewrite lookup_insert_eq. intros [= <-]. by left.
  - rewrite lookup_insert_ne by done. by right.
Qed.

(** *** A new job *)
Lemma keeps_addressed ord c : evolves keeps_jobs (addressed_aggregate ord c).
Proof. unfold addressed_aggregate. repeat evolve_rule. Qed.

Lemma process_job_hands m : acceptable m → ∀ ch, fine ch → wp (process_job m) (λ r ch', fine ch' ∧
     match r with Ok l => Forall acceptable l | Err _ => True end) ch.
Proof.
  intros Hm ch Hf. unfold process_job. apply wp_bind, wp_transact. intros r ch' E. cbn [andthen].
  assert (fine ch') as Hf'.
  { eapply fine_gains; [|exact Hf]. replace ch' with (on_new_extended_mining_job ch m).2 by by rewrite E.
    by apply gains_new_job. }
  apply wp_bind, wp_ok_or_raise; [|done]. intros [] _. cbn [andthen]. apply wp_ret. split; [done|].
  destruct (is_future m); [done|by apply Forall_singleton].
Qed.

Lemma group_job_hands g m s :
  version_rolling_allowed m = true →
  (∀ n, grp_get_full_extranonce_size g = Some n → offered m n) →
  hands_at id (job_for_group g m) s.
Proof.
  intros Hv Hn Hs. unfold job_for_group. apply wp_bind, wp_some_or; [|done].
  intros size Esize. cbn [andthen]. revert Hs. apply hands_verify; [done|by apply Hn|].
  intros Hm. apply hands_read; [|intros _].
  { apply evolves_update. intros s'. by apply keeps_same. }
  apply hands_collect. intros c. apply hands_channel; [apply hands_raise|].
  by apply process_job_hands, acceptable_for.
Qed.

Lemma channel_job_hands m s :
  version_rolling_allowed m = true →
  (∀ ch, extended_channels s !! nj_channel_id m = Some ch →
     offered m (get_full_extranonce_size ch)) →
  hands_at id (job_for_channel m) s.
Proof.
  intros Hv Hn Hs. unfold job_for_channel. apply wp_bind, wp_ask. cbn [andthen].
  apply wp_bind, wp_some_or; [|done]. intros ch Ech. cbn [andthen].
  revert Hs. apply hands_verify; [done|by apply Hn|].
  intros Hm. apply hands_channel; [apply hands_raise|]. by apply process_job_hands.
Qed.

Lemma aggregate_job_hands ord m s :
  version_rolling_allowed m = true →
  (∀ ch, extended_channels s !! AGGREGATED_CHANNEL_ID = Some ch →
     offered m (get_full_extranonce_size ch)) →
  hands_at id (job_for_aggregate ord m) s.
Proof.
  intros Hv Hn Hs. unfold job_for_aggregate, addressed_aggregate.
  apply wp_bind, wp_bind, wp_ask. cbn [andthen]. apply wp_bind, wp_some_or; [|done].
  intros ch Ech. cbn [andthen]. apply wp_bind, wp_ask. cbn [andthen].
  apply wp_bind, wp_some_or; [|done]. intros group _. cbn [andthen].
  destruct (_ || _); [|by apply wp_raise]. apply wp_ret. cbn [andthen].
  revert Hs. apply hands_verify; [done|by apply Hn|].
  intros Hm. apply hands_read; [apply evolves_ask, _|intros channels]. apply hands_read.
  - repeat evolve_rule. apply keeps_channel; [apply evolves_ret, _|].
    apply evolves_bind; [apply _|by apply fine_process_job|intros ?; apply evolves_ret, _].
  - intros _. apply hands_ret. destruct (is_future m); [done|by apply Forall_singleton].
Qed.

Lemma keeps_new_job ord m s :
  (∀ n, full_size s (nj_channel_id m) = Some n → offered m n) →
  wp (handle_new_extended_mining_job mode ord m) (λ _ s', keeps_jobs s s') s.
Proof.
  intros Hn. unfold handle_new_extended_mining_job, full_size in *.
  destruct (version_rolling_allowed m) eqn:Hv;
    [|apply wp_bind, wp_raise; cbn [andthen]; reflexivity].
  apply wp_bind, wp_ret. cbn [andthen]. apply (hands_then_at id).
  2: { intros l Hl. induction Hl as [|x l Hx Hl IH]; cbn [for_each]; [apply evolves_ret, _|].
       apply evolves_bind; [apply _|by apply keeps_forward|done]. }
  destruct (is_aggregated mode).
  - apply aggregate_job_hands; [done|]. intros ch Hch. apply Hn. by rewrite Hch.
  - intros Hs. apply wp_bind, wp_ask. cbn [andthen]. revert Hs.
    destruct (group_channels s !! nj_channel_id m) as [g|].
    + by apply group_job_hands.
    + apply channel_job_hands; [done|]. intros ch Hch. apply Hn. by rewrite Hch.
Qed.

(** *** A new chain tip *)
Lemma active_message_wp ch : fine ch →
  wp active_message (λ r ch', ch' = ch ∧ match r with Ok j => acceptable j | Err _ => True end) ch.
Proof.
  intros Hf. unfold active_message. repeat wp_rule. split; [done|]. apply Hf. by left.
Qed.

Lemma prev_hash_channel_hands c absent m : hands snd (prev_hash_for_channel c absent m).
Proof.
  intros s Hs. unfold prev_hash_for_channel. apply wp_bind, wp_focus; [intros _; done|].
  intros ch Hch. assert (fine ch) as Hf by (intros j Hj; by eapply jk_channels).
  assert (∀ ch', fine ch' → jobs_ok (put_channels (<[c:=ch']> (extended_channels s)) s)) as Hput.
  { intros ch' Hf'. refine (keeps_put_channels s _ _ Hs). intros d dh. destruct (decide (d = c)) as [->|].
    - rewrite lookup_insert_eq. intros [= <-]. by left.
    - rewrite lookup_insert_ne by done. by right. }
  apply wp_bind. eapply wp_mono; [|apply fine_process_prev_hash]. intros [[]|e] ch1 Hf1; cbn [andthen].
  - eapply wp_mono; [|by apply active_message_wp, Hf1]. intros [j|e] ch2 [-> Hj]; cbn [andthen].
    + apply wp_ret. split; [by apply Hput, Hf1|]. by apply Forall_singleton.
    + split; [by apply Hput, Hf1|done].
  - split; [by apply Hput, Hf1|done].
Qed.

Lemma keeps_prev_hash ord m : evolves keeps_jobs (handle_set_new_prev_hash mode ord m).
Proof.
  unfold handle_set_new_prev_hash. apply (hands_then snd).
  2: { intros l Hl. apply evolves_bind; [apply _| |intros _].
       - apply evolves_for_each; [apply _|]. intros p. by apply keeps_send_sv1.
       - induction Hl as [|x l Hx Hl IH]; simpl; [apply evolves_ret, _|].
         apply evolves_bind; [apply _|by apply keeps_forward|done]. }
  destruct (is_aggregated mode).
  - unfold prev_hash_for_aggregate. apply hands_read; [apply keeps_addressed|intros _].
    apply hands_read; [apply evolves_ask, _|intros channels]. apply hands_read; [|intros _].
    { apply evolves_for_each; [apply _|]. intros c. apply keeps_channel; [apply evolves_ret, _|].
      apply fine_process_prev_hash. }
    intros s Hs. apply wp_bind, wp_focus; [intros _; apply wp_crash|]. intros ch Hch.
    assert (fine ch) as Hf by (intros j Hj; by eapply jk_channels).
    eapply wp_mono; [|by apply active_message_wp]. intros [j|e] ch' [-> Hj]; cbn [andthen].
    + rewrite insert_id by done. apply wp_ret. split; [by destruct s|].
      apply Forall_singleton. by apply acceptable_for.
    + rewrite insert_id by done. split; [by destruct s|done].
  - apply hands_read; [apply evolves_ask, _|intros [g|]]; [|apply prev_hash_channel_hands].
    unfold prev_hash_for_group. destruct (grp_on_set_new_prev_hash g m) as [r g'].
    apply hands_read; [|intros _]. { apply evolves_update. intros s. by apply keeps_same. }
    apply hands_read; [apply evolves_ok_or_raise, _|intros _]. apply hands_collect.
    intros c. apply prev_hash_channel_hands.
Qed.

(** *** The other handlers *)
Ltac jobs_rule :=
  first
    [ evolve_rule
    | apply keeps_addressed
    | apply keeps_send_upstream
    | apply keeps_send_sv1; intros ?; discriminate
    | apply keeps_remove_channel
    | apply keeps_request
    | apply keeps_channel
    | apply fine_process_target
    | apply fine_change_prefix
    | apply fine_update; intros ?; first
        [apply set_hashrate_keeps|apply acknowledgement_keeps|apply rejection_keeps]
    | apply evolves_update; intros ?; apply keeps_same; reflexivity
    | apply evolves_transact; intros ?; simpl; repeat case_match; simplify_eq/=;
      apply keeps_same; reflexivity ].

Lemma fine_new i u p t h v n k c : ext_new i u p t h v n k = Ok c → fine c.
Proof.
  intros (_ & _ & _ & Ea & Ef)%ext_new_spec j [Hj|Hj]; [congruence|]. rewrite Ef in Hj. set_solver.
Qed.

(** A channel that was just made. *)
Lemma keeps_insert_new {A F} k (r : result ExtendedChannel F) f (cont : ExtendedChannel → handler A) :
  (∀ c, r = Ok c → fine c) → (∀ c, evolves keeps_jobs (cont c)) →
  evolves keeps_jobs
    (c ← ok_or_raise r f; update (λ s, put_channels (<[k := c]> (extended_channels s)) s);; cont c).
Proof.
  intros Hr Hc. destruct r as [c|e]; [|intros s; apply wp_bind, wp_raise; cbn [andthen]; reflexivity].
  intros s. apply wp_bind, wp_ret. cbn [andthen]. apply wp_bind, wp_update. cbn [andthen].
  eapply wp_mono; [|apply Hc]. intros r s' K Hs. apply K. refine (keeps_put_channels s _ _ Hs).
  intros d dh. destruct (decide (d = k)) as [->|].
  - rewrite lookup_insert_eq. intros [= <-]. left. by apply Hr.
  - rewrite lookup_insert_ne by done. by right.
Qed.

Lemma keeps_open_aggregated m u h n : evolves keeps_jobs (open_aggregated max_past_jobs m u h n).
Proof.
  unfold open_aggregated, allocate_under, open_fallback. case_decide; [repeat jobs_rule|].
  apply evolves_bind; [apply _|repeat jobs_rule|intros [p a]].
  apply evolves_bind; [apply _|repeat jobs_rule|intros up].
  apply keeps_insert_new; [intros c; apply fine_new|intros _].
  apply keeps_insert_new; [intros c; apply fine_new|intros _]. repeat jobs_rule.
Qed.

Lemma keeps_open_own m u h n : evolves keeps_jobs (open_own max_past_jobs m u h n).
Proof.
  unfold open_own, own_prefix, allocate_under, open_fallback. case_decide; [repeat jobs_rule|].
  apply evolves_bind; [apply _|repeat jobs_rule|intros p].
  apply keeps_insert_new; [intros c; apply fine_new|intros _]. repeat jobs_rule.
Qed.

Lemma keeps_open_success ord m :
  evolves keeps_jobs (handle_open_extended_mining_channel_success mode max_past_jobs ord m).
Proof.
  unfold handle_open_extended_mining_channel_success, add_to_group, advertise,
    open_pending_aggregated_downstream_channels.
  destruct (is_aggregated mode);
    repeat first [jobs_rule|apply keeps_open_aggregated|apply keeps_open_own].
Qed.

Lemma keeps_build_group aggregate ids g : evolves keeps_jobs (build_group aggregate ids g).
Proof.
  revert g. induction ids as [|c ids IH]; intros g; cbn [build_group]; unfold member_size;
    repeat first [jobs_rule|apply IH].
Qed.

Lemma keeps_other_frame ord received :
  (∀ m, received ≠ Some (FrNewExtendedMiningJob m)) →
  evolves keeps_jobs (handle_upstream_frame mode max_past_jobs supported_extensions
    required_extensions ord received).
Proof.
  intros Hm. unfold handle_upstream_frame. destruct received as [frame|]; cbn [some_or];
    [|by intros s; apply wp_bind, wp_raise; cbn [andthen]; reflexivity].
  intros s. apply wp_bind, wp_ret. cbn [andthen]. revert s.
  destruct frame as [| | | | | | | | |m| | | | | | | |]; try (by destruct (Hm m));
    refine (_ : evolves keeps_jobs _); first [apply keeps_open_success|apply keeps_prev_hash|idtac];
    unfold handle_open_mining_channel_error, open_fallback, handle_close_channel, closed_channels,
      handle_set_extranonce_prefix, change_allocator_prefix, handle_submit_shares_success,
      handle_submit_shares_error, handle_set_target, target_for_aggregate, target_for_channel,
      handle_set_group_channel, handle_request_extensions_success, handle_request_extensions_error,
      remove_advertised, leave_groups;
    repeat first [jobs_rule|apply keeps_build_group].
Qed.

Lemma keeps_frame ord received s :
  (∀ m n, received = Some (FrNewExtendedMiningJob m) → full_size s (nj_channel_id m) = Some n →
     offered m n) →
  wp (handle_upstream_frame mode max_past_jobs supported_extensions required_extensions ord
        received) (λ _ s', keeps_jobs s s') s.
Proof.
  intros Hn. destruct received as [frame|]; [|by apply keeps_other_frame].
  destruct frame; try (by apply keeps_other_frame).
  unfold handle_upstream_frame. apply wp_bind, wp_ret. cbn [andthen].
  apply keeps_new_job. intros n. by apply Hn.
Qed.

Lemma keeps_validate k m : evolves keeps_jobs (validate_on k m).
Proof.
  unfold validate_on. apply keeps_channel; [repeat jobs_rule|]. repeat evolve_rule.
  apply evolves_transact. intros c Hf. eapply fine_gains; [|exact Hf].
  apply same_jobs_gains, validate_share_keeps.
Qed.

Lemma keeps_message ord received :
  evolves keeps_jobs (handle_downstream_message mode max_past_jobs ord received).
Proof.
  unfold handle_downstream_message, handle_open_extended_mining_channel, add_pending,
    handle_submit_shares_extended, submit_own, rewrite_aggregated_share, rewrite_own_share,
    next_share_sequence_number, send_share, handle_update_channel, handle_close_downstream,
    remove_advertised, leave_groups.
  repeat first [apply keeps_validate|jobs_rule].
Qed.

End jobs.

Section paid.
Context `{BitcoinApi} `{AddressApi} {CC : ClientChannels} {CL : ClientLaws CC}.
Context (mode : TproxyMode) (max_past_jobs : option N).
Context (supported_extensions required_extensions : list N).
Context (payout : option PayoutMode).
Local Notation reachable :=
  (task_reachable mode max_past_jobs supported_extensions required_extensions payout).

(** In the run to [t], the upstream sent the job [m] when the full extranonce
    size of the channel or group it named was [n]. *)
Definition sent_earlier (t : Task) (m : NewExtendedMiningJob) (n : N) : Prop :=
  ∃ t0 toks ord, reachable t0 ∧ running t0 = true ∧ calm t0 ∧
    full_size mode (manager t0) (nj_channel_id m) = Some n ∧
    rtc (task_step mode max_past_jobs supported_extensions required_extensions)
      (after_handler (with_tokens t0 toks) (handle_upstream_frame mode max_past_jobs
         supported_extensions required_extensions ord (Some (FrNewExtendedMiningJob m)) (manager t0)))
      t.

(** C36: every job the translator ever hands to the SV1 server lets miners roll
    the version and carries the id and the coinbase of a job the upstream sent
    earlier in the run; and when the configured identity asks for a payout,
    that coinbase, with extranonces of just the size that the addressed channel
    (or the group; in aggregated mode the shared upstream channel) had when the
    job came, was found to pay what the payout mode demands. *)
Theorem paid_jobs_only t m :
  reachable t → DownNewExtendedMiningJob m ∈ sv1_history (manager t) →
  version_rolling_allowed m = true ∧
  ∃ m0 n, sent_earlier t m0 n ∧ same_coinbase m0 m ∧
    ∀ p, payout = Some p →
      validate_coinbase_tx_parts p (nj_coinbase_tx_prefix m) (nj_coinbase_tx_suffix m) (N.to_nat n)
        = Done (Ok tt).
Proof.
  intros Hr. apply (jk_history payout (sent_earlier t)).
  assert (∀ t', reachable t' → rtc (task_step mode max_past_jobs supported_extensions
    required_extensions) t' t → jobs_ok payout (sent_earlier t) (manager t')) as Hall; [|by apply Hall].
  apply (rtc_ind_r (λ t', rtc _ t' t → jobs_ok payout (sent_earlier t) (manager t'))).
  - split; [done|intros c ch j []%(lookup_empty_Some c ch)|intros m' []%elem_of_nil].
  - intros t1 t2 Hr1 Hstep Hs Hrest. assert (jobs_ok payout (sent_earlier t) (manager t1)) as Hs1.
    { apply Hs. by eapply rtc_l. }
    revert Hs1. apply (task_step_at mode max_past_jobs supported_extensions required_extensions
      (keeps_jobs payout (sent_earlier t))); [| |reflexivity| | |exact Hstep].
    + intros toks ord received Hrun Hcalm _ _ ->. apply keeps_frame. intros m' n -> Hn.
      by exists t1, toks, ord.
    + intros ord received _. apply keeps_message.
    + intros s s' K Hs1. exact (keeps_same _ _ s' (close_io s') eq_refl eq_refl eq_refl (K Hs1)).
    + intros s up sv1. by apply keeps_same.
Qed.
End paid.

(** ** The shared channel is requested once *)
Section requests.
Context `{BitcoinApi} `{AddressApi} {CC : ClientChannels} {CL : ClientLaws CC}.
Context (max_past_jobs : option N) (supported_extensions required_extensions : list N).
Implicit Types (s : ChannelManager).

Definition is_open_request (m : UpstreamMessage) : bool :=
  match m with UpOpenExtendedMiningChannel _ => true | _ => false end.
Definition open_requests s : nat := length (filter is_open_request (upstream_history s)).

(** A request is only sent while the state is [NoChannel], and the state never
    returns to it. *)
Definition requested_once s : Prop :=
  (open_requests s ≤ 1)%nat ∧ (aggregated_channel_state s = NoChannel → open_requests s = 0%nat).
Definition asks_once s s' : Prop := requested_once s → requested_once s'.

#[export] Instance asks_once_preorder : PreOrder asks_once.
Proof. split; [intros s Hs; exact Hs|]. intros ??? K1 K2 Hs. exact (K2 (K1 Hs)). Qed.

Lemma asks_same s s' :
  upstream_history s' = upstream_history s →
  (aggregated_channel_state s' = NoChannel → aggregated_channel_state s = NoChannel) →
  asks_once s s'.
Proof. unfold asks_once, requested_once, open_requests. intros -> Hst [? ?]. split; auto. Qed.

Lemma asks_send_sv1 m : evolves asks_once (send_sv1 m).
Proof. unfold send_sv1. intros s. repeat wp_rule; [|done]. by apply asks_same. Qed.
Lemma asks_send_upstream m : is_open_request m = false → evolves asks_once (send_upstream m).
Proof.
  intros Hm. unfold send_upstream. intros s. repeat wp_rule; [|done].
  unfold asks_once, requested_once, open_requests, upstream_history. simpl.
  rewrite filter_app, length_app, (filter_cons_False _ m) by (rewrite Hm; auto).
  simpl. by rewrite Nat.add_0_r.
Qed.
Lemma asks_channel {A} k (absent : handler A) p :
  evolves asks_once absent → evolves asks_once (with_channel k absent p).
Proof.
  intros Ha s. apply wp_focus; [intros _; apply Ha|]. intros ch _. apply wp_intro.
  intros r ch' _. by apply asks_same.
Qed.

Ltac asks :=
  repeat first
    [ evolve_rule
    | apply asks_send_sv1
    | apply asks_send_upstream; reflexivity
    | apply asks_channel
    | apply evolves_update; intros ?; apply asks_same; [reflexivity|intros ?; simpl in *; congruence]
    | apply evolves_transact; intros ?; simpl; repeat case_match; simplify_eq/=;
      (apply asks_same; [reflexivity|intros ?; simpl in *; congruence]) ].

Lemma asks_forward ord m : evolves asks_once (forward_job_to_sv1_server ord m).
Proof. unfold forward_job_to_sv1_server, announce_prefix, advertise. asks. Qed.

Lemma asks_request ord r u h n :
  evolves asks_once (handle_downstream_channel_request_in_aggregated_mode max_past_jobs ord r u h n).
Proof.
  unfold handle_downstream_channel_request_in_aggregated_mode, open_child, drop_prefix,
    reject_downstream_channel_request, advertise.
  asks; apply asks_forward.
Qed.

Lemma asks_build_group aggregate ids g : evolves asks_once (build_group aggregate ids g).
Proof. revert g. induction ids as [|c ids IH]; intros g; cbn [build_group]; unfold member_size; asks; apply IH. Qed.

Lemma asks_frame mode ord received :
  evolves asks_once (handle_upstream_frame mode max_past_jobs supported_extensions
    required_extensions ord received).
Proof.
  unfold handle_upstream_frame. apply evolves_bind; [apply _|asks|intros frame].
  destruct frame;
    unfold handle_open_extended_mining_channel_success, add_to_group, open_aggregated, open_own,
      own_prefix, allocate_under, open_fallback, advertise, open_pending_aggregated_downstream_channels,
      handle_open_mining_channel_error, open_fallback, handle_close_channel, closed_channels,
      handle_set_extranonce_prefix, change_allocator_prefix, handle_submit_shares_success,
      handle_submit_shares_error, handle_set_target, target_for_aggregate, target_for_channel,
      handle_set_group_channel, handle_request_extensions_success, handle_request_extensions_error,
      handle_new_extended_mining_job, job_for_aggregate, job_for_group, job_for_channel,
      handle_set_new_prev_hash, prev_hash_for_aggregate, prev_hash_for_group, prev_hash_for_channel,
      addressed_aggregate, verify_payout_distribution, remove_channel, remove_advertised,
      leave_groups, drop_prefix;
    destruct (is_aggregated mode);
    asks; first [apply asks_forward|apply asks_build_group|apply asks_request].
Qed.

Lemma asks_open_request ord m :
  evolves asks_once (handle_open_extended_mining_channel Aggregated max_past_jobs ord m).
Proof.
  unfold handle_open_extended_mining_channel, add_pending. intros s.
  change (is_aggregated Aggregated) with true. cbn match. apply wp_bind, wp_ask. cbn [andthen].
  destruct (aggregated_channel_state s) eqn:Est.
  - apply wp_bind, wp_update. cbn [andthen]. apply wp_bind, wp_update. cbn [andthen].
    apply wp_bind, wp_some_or_crash. intros [] _. cbn [andthen]. unfold send_upstream.
    repeat wp_rule; unfold asks_once, requested_once, open_requests, upstream_history; simpl.
    + rewrite filter_app, length_app. intros [_ Hz]. rewrite (Hz Est). simpl. split; [lia|done].
    + by intros [Hle _].
  - apply evolves_update. intros s1. by apply asks_same.
  - apply asks_request.
Qed.

Lemma asks_message ord received :
  evolves asks_once (handle_downstream_message Aggregated max_past_jobs ord received).
Proof.
  unfold handle_downstream_message. apply evolves_bind; [apply _|asks|intros [m worker]].
  destruct m; [apply asks_open_request|..];
    unfold handle_submit_shares_extended, submit_own, rewrite_aggregated_share, rewrite_own_share,
      validate_on, next_share_sequence_number, send_share, handle_update_channel,
      handle_close_downstream, remove_channel, remove_advertised, leave_groups, drop_prefix;
    asks.
Qed.

(** In aggregated mode the translator asks its upstream for a channel at
    most once, however many miners connect, leave and ask. *)
Theorem one_upstream_channel payout t :
  task_reachable Aggregated max_past_jobs supported_extensions required_extensions payout t →
  (open_requests (manager t) ≤ 1)%nat.
Proof.
  intros Hr. assert (requested_once (manager t)) as [Hle _]; [|done].
  revert t Hr. apply (rtc_ind_r (λ t, requested_once (manager t))); [split; [apply Nat.le_0_l|done]|].
  intros t1 t2 _ Hstep Hs. revert Hs. apply (task_step_rel Aggregated max_past_jobs
    supported_extensions required_extensions asks_once); [| |reflexivity| | |exact Hstep].
  - intros ord received _. apply asks_frame.
  - intros ord received _. apply asks_message.
  - intros s s' K Hs. exact (asks_same s' (close_io s') eq_refl (λ E, E) (K Hs)).
  - intros s up sv1. by apply asks_same.
Qed.
End requests.
