(* ===== verification/TproxyGroups.v ===== *)
(** * Translator: groups of channels

    Where every miner has its own upstream channel, the group channels of the
    upstream partition the open channels: a group id is no channel, a member is
    an open channel and in no other group.  A replacement of a group is made
    completely or not at all, and a group closes with all its members. *)
From S2P Require Import Prelude Handler SharedMap Bitcoin Payout ShareCache ClientChannels TproxyManager TproxyIds TproxyHistory TproxyInv TproxyChannels.

Section groups.
Context `{BitcoinApi} `{AddressApi} {CC : ClientChannels} {CL : ClientLaws CC}.
Context (max_past_jobs : option N) (supported_extensions required_extensions : list N).
Implicit Types (s : ChannelManager).

Record groups_ok s : Prop := {
  gk_key : ∀ g G, group_channels s !! g = Some G → extended_channels s !! g = None;
  gk_member : ∀ g G c, group_channels s !! g = Some G → c ∈ grp_get_channel_ids G →
    is_Some (extended_channels s !! c);
  gk_one : ∀ g1 G1 g2 G2 c,
    group_channels s !! g1 = Some G1 → group_channels s !! g2 = Some G2 →
    c ∈ grp_get_channel_ids G1 → c ∈ grp_get_channel_ids G2 → g1 = g2;
}.

Definition keeps_groups s s' : Prop := groups_ok s → groups_ok s'.

#[export] Instance keeps_groups_preorder : PreOrder keeps_groups.
Proof. split; [intros s Hs; exact Hs|]. intros ??? K1 K2 Hs. exact (K2 (K1 Hs)). Qed.

(** Groups may lose members, the open channels stay. *)
Lemma keeps_shrink s s' :
  dom (extended_channels s') = dom (extended_channels s) →
  (∀ g G', group_channels s' !! g = Some G' → ∃ G, group_channels s !! g = Some G ∧
     ∀ c, c ∈ grp_get_channel_ids G' → c ∈ grp_get_channel_ids G) →
  keeps_groups s s'.
Proof.
  intros Ed Hg [K M O]. split.
  - intros g G' (G & E & _)%Hg. apply not_elem_of_dom. rewrite Ed. by eapply not_elem_of_dom, K.
  - intros g G' c (G & E & Hm)%Hg Hc. apply elem_of_dom. rewrite Ed. by eapply elem_of_dom, M, Hm.
  - intros g1 G1 g2 G2 c (G1' & E1 & Hm1)%Hg (G2' & E2 & Hm2)%Hg Hc1 Hc2.
    by eapply O; [exact E1|exact E2|apply Hm1|apply Hm2].
Qed.

Lemma keeps_groups_same s s' :
  dom (extended_channels s') = dom (extended_channels s) → group_channels s' = group_channels s →
  keeps_groups s s'.
Proof. intros Ed Eg. apply keeps_shrink; [done|]. rewrite Eg. intros g G ?. by exists G. Qed.

Lemma keeps_groups_send_sv1 m : evolves keeps_groups (send_sv1 m).
Proof. unfold send_sv1. intros s. repeat wp_rule; [|done]. by apply keeps_groups_same. Qed.
Lemma keeps_groups_send_upstream m : evolves keeps_groups (send_upstream m).
Proof. unfold send_upstream. intros s. repeat wp_rule; [|done]. by apply keeps_groups_same. Qed.

Lemma keeps_groups_channel {A} k (absent : handler A) p :
  evolves keeps_groups absent → evolves keeps_groups (with_channel k absent p).
Proof.
  intros Ha s. apply wp_focus; [intros _; apply Ha|]. intros ch Hch. apply wp_intro.
  intros r ch' _. apply keeps_groups_same; [|done]. simpl. rewrite dom_insert_L.
  apply elem_of_dom_2 in Hch. set_solver.
Qed.

(** A group that only processes a message. *)
Lemma keeps_groups_process g G G' s :
  group_channels s !! g = Some G → same_members G G' →
  keeps_groups s (put_groups (<[g := G']> (group_channels s)) s).
Proof.
  intros Hg Hsame. apply keeps_shrink; [done|]. intros g0 G0. simpl.
  destruct (decide (g0 = g)) as [->|].
  - rewrite lookup_insert_eq. intros [= <-]. exists G. split; [done|]. intros c. apply Hsame.
  - rewrite lookup_insert_ne by done. intros ?. by exists G0.
Qed.

Ltac groups_rule :=
  first
    [ evolve_rule
    | apply keeps_groups_send_sv1
    | apply keeps_groups_send_upstream
    | apply keeps_groups_channel
    | apply evolves_update; intros ?; by apply keeps_groups_same
    | apply evolves_transact; intros ?; simpl; repeat case_match; simplify_eq/=;
      by apply keeps_groups_same ].

(** ** Removing channels *)
Lemma remove_channel_wp c s :
  wp (remove_channel c) (λ r s', (∃ o, r = Ok o ∧ (o = None ↔ extended_channels s !! c = None)) ∧
    extended_channels s' = delete c (extended_channels s) ∧ group_channels s' = group_channels s ∧
    channel_manager_io s' = channel_manager_io s) s.
Proof.
  unfold remove_channel, drop_prefix, SharedMap.remove. apply wp_bind, wp_transact.
  intros o s1 [= <- <-]. cbn [andthen]. destruct (extended_channels s !! c) as [ch|] eqn:Ech; simpl.
  - apply wp_bind, wp_update. cbn [andthen]. apply wp_ret. split_and!; [by exists (Some ch)|done..].
  - apply wp_ret. split_and!; [by exists None|done..].
Qed.

Lemma remove_each_wp (l : list N) s :
  wp (for_each l (λ c, remove_channel c;; mret tt)) (λ r s', r = Ok tt ∧
    (∀ c, extended_channels s' !! c = if decide (c ∈ l) then None else extended_channels s !! c) ∧
    group_channels s' = group_channels s ∧ channel_manager_io s' = channel_manager_io s) s.
Proof.
  revert s. induction l as [|c l IH]; intros s; cbn [for_each].
  { apply wp_ret. by split_and!. }
  apply wp_bind, wp_bind. eapply wp_mono; [|apply remove_channel_wp].
  intros r s1 ((o & -> & _) & Ec & Eg & Ei). cbn [andthen]. apply wp_ret. cbn [andthen].
  eapply wp_mono; [|apply IH]. intros r s2 (-> & Hc & Eg2 & Ei2). split_and!; [done| |congruence..].
  intros d. rewrite Hc, Ec. destruct (decide (d = c)) as [->|].
  - rewrite lookup_delete_eq. repeat case_decide; [done|set_solver|done|set_solver].
  - rewrite lookup_delete_ne by done. repeat case_decide; set_solver.
Qed.

(** A channel that leaves its groups may be closed. *)
Lemma keeps_leave c s s' :
  extended_channels s' = delete c (extended_channels s) →
  group_channels s' = (λ g, if grp_has_channel_id g c then grp_remove_channel_id g c else g)
                        <$> group_channels s →
  keeps_groups s s'.
Proof.
  intros Ec Eg [K M O].
  assert (∀ g G', group_channels s' !! g = Some G' → ∃ G, group_channels s !! g = Some G ∧
     ∀ d, d ∈ grp_get_channel_ids G' → d ∈ grp_get_channel_ids G ∧ d ≠ c) as Hg.
  { intros g G'. rewrite Eg, lookup_fmap, fmap_Some. intros (G & HG & ->). exists G. split; [done|].
    intros d. destruct (grp_has_channel_id G c) eqn:Eh; [apply grp_remove_spec|].
    intros Hd. split; [done|]. intros ->. apply grp_has_spec in Hd. congruence. }
  split.
  - intros g G' (G & HG & _)%Hg. rewrite Ec. apply lookup_delete_None. right. by eapply K.
  - intros g G' d (G & HG & Hm)%Hg [Hd Hne]%Hm. rewrite Ec, lookup_delete_ne by done. by eapply M.
  - intros g1 G1 g2 G2 d (G1' & E1 & Hm1)%Hg (G2' & E2 & Hm2)%Hg [Hd1 _]%Hm1 [Hd2 _]%Hm2.
    by eapply O.
Qed.

Lemma keeps_groups_close_downstream c reason :
  evolves keeps_groups (handle_close_downstream NonAggregated c reason).
Proof.
  unfold handle_close_downstream. change (is_aggregated NonAggregated) with false. cbn match.
  intros s. apply wp_bind. eapply wp_mono; [|apply remove_channel_wp].
  intros r s1 ((o & -> & _) & Ec & Eg & _). cbn [andthen andb]. apply wp_bind, wp_update. cbn [andthen].
  apply wp_bind, wp_update. cbn [andthen]. eapply wp_mono; [|apply keeps_groups_send_upstream].
  intros r' s2 K Hs. apply K. revert Hs. apply (keeps_leave c); simpl; [done|by rewrite Eg].
Qed.

Lemma closed_channels_keeps c : evolves keeps_groups (closed_channels c).
Proof.
  intros s. unfold closed_channels, SharedMap.remove. apply wp_bind, wp_transact.
  intros o s1 [= <- <-]. cbn [andthen].
  destruct (group_channels s !! c) as [G|] eqn:EG; cbn [fmap option_fmap option_map].
  - apply wp_bind. eapply wp_mono; [|apply remove_each_wp].
    intros r s2 (-> & Hc & Eg & _). cbn [andthen]. apply wp_ret. intros [K M O]. simpl in *.
    assert (∀ g G', group_channels s2 !! g = Some G' → g ≠ c ∧ group_channels s !! g = Some G') as Hg.
    { intros g G'. rewrite Eg, lookup_delete_Some. naive_solver. }
    split.
    + intros g G' [_ HG]%Hg. rewrite Hc. case_decide; [done|]. by eapply K.
    + intros g G' d [Hne HG]%Hg Hd. rewrite Hc. case_decide as Hin; [|by eapply M].
      destruct Hne. by eapply O.
    + intros g1 G1 g2 G2 d [_ E1]%Hg [_ E2]%Hg. by eapply O.
  - apply wp_bind. eapply wp_mono; [|apply remove_channel_wp].
    intros r s2 ((o & -> & Ho) & Ec & Eg & _). cbn [andthen]. simpl in Ec, Eg, Ho.
    rewrite delete_id in Eg by done. destruct o as [ch|].
    + unfold leave_groups. apply wp_bind, wp_update. cbn [andthen]. apply wp_ret.
      apply (keeps_leave c); simpl; [done|by rewrite Eg].
    + apply wp_raise. apply keeps_groups_same; [|done]. rewrite Ec, delete_id; [done|]. by apply Ho.
Qed.

Lemma keeps_groups_close_channel c reason :
  evolves keeps_groups (handle_close_channel NonAggregated c reason).
Proof.
  unfold handle_close_channel. change (is_aggregated NonAggregated) with false. cbn match.
  apply evolves_bind; [apply _|apply closed_channels_keeps|intros ids]. unfold remove_advertised.
  repeat groups_rule.
Qed.

(** ** Replacing a group *)

(** Building the replacement only looks at the state. *)
Lemma build_group_wp aggregate (ids : list N) g s :
  wp (build_group aggregate ids g) (λ r s', s' = s ∧ ∀ g', r = Ok g' →
    (∀ c, c ∈ grp_get_channel_ids g' ↔ c ∈ ids ∨ c ∈ grp_get_channel_ids g) ∧
    ∀ c, c ∈ ids → c ≠ AGGREGATED_CHANNEL_ID ∧
      match aggregate with
      | Some a => c = get_channel_id a
      | None => is_Some (extended_channels s !! c)
      end) s.
Proof.
  revert g. induction ids as [|c ids IH]; intros g; cbn [build_group].
  { apply wp_ret. split; [done|]. intros g' [= <-]. split; [set_solver|]. by intros c []%elem_of_nil. }
  apply wp_bind. apply (wp_mono _ (λ r s', s' = s ∧ ∀ n, r = Ok n → c ≠ AGGREGATED_CHANNEL_ID ∧
    match aggregate with Some a => c = get_channel_id a | None => is_Some (extended_channels s !! c) end)).
  2: { unfold member_size. case_decide; [by apply wp_raise|]. destruct aggregate as [a|].
       - case_decide; [apply wp_ret|apply wp_raise]; by split.
       - apply wp_bind, wp_ask. cbn [andthen]. apply wp_bind, wp_some_or; [|done].
         intros ch Hch. cbn [andthen]. apply wp_ret. split; [done|]. intros _ _. split; [done|by eexists]. }
  intros [n|e] s1 [-> Hc]; cbn [andthen]; [|done]. destruct (Hc n eq_refl) as [Hne Hopen].
  destruct (grp_add_channel_id g c n) as [r g1] eqn:Eadd.
  apply wp_bind, wp_ok_or_raise; [|done]. intros [] ->. cbn [andthen].
  pose proof (grp_add_spec _ _ _ _ Eadd) as Hadd. eapply wp_mono; [|apply IH].
  intros r s1 [-> Hr]. split; [done|]. intros g' Eg'. destruct (Hr g' Eg') as [Hids Hall]. split.
  - intros d. rewrite Hids, Hadd. set_solver.
  - intros d [->|Hd]%elem_of_cons; [done|by apply Hall].
Qed.

Lemma without_members_ids (ids : list N) g c :
  c ∈ grp_get_channel_ids (without_members ids g) ↔ c ∈ grp_get_channel_ids g ∧ c ∉ ids.
Proof.
  unfold without_members. revert g. induction ids as [|d ids IH]; intros g; simpl; [set_solver|].
  rewrite IH, grp_remove_spec. set_solver.
Qed.

(** The groups after the replacement. *)
Lemma replace_group_lookup k (ids : list N) G (m : gmap N GroupChannel) g G' :
  replace_group k ids G m !! g = Some G' ↔
  (g = k ∧ ids ≠ [] ∧ G' = G) ∨
  (g ≠ k ∧ ∃ G0, m !! g = Some G0 ∧ G' = without_members ids G0 ∧ grp_is_empty G' = false).
Proof.
  unfold replace_group. set (kept := delete k _).
  assert (kept !! g = Some G' ↔ g ≠ k ∧ ∃ G0, m !! g = Some G0 ∧ G' = without_members ids G0 ∧
     grp_is_empty G' = false) as Hk.
  { unfold kept. rewrite lookup_delete_Some, map_lookup_filter_Some, lookup_fmap, fmap_Some. naive_solver. }
  destruct ids as [|c rest]; [rewrite Hk; naive_solver|].
  rewrite lookup_insert_Some, Hk. naive_solver.
Qed.

Lemma keeps_groups_set_group k (ids : list N) :
  evolves keeps_groups (handle_set_group_channel NonAggregated k ids).
Proof.
  unfold handle_set_group_channel. change (is_aggregated NonAggregated) with false. cbn match.
  case_decide; [apply evolves_raise, _|]. intros s. apply wp_bind, wp_ret. cbn [andthen].
  apply wp_bind, wp_ask. cbn [andthen group_id_in_use]. unfold SharedMap.contains_key.
  case_bool_decide as Huse; [by apply wp_raise|].
  apply wp_bind. eapply wp_mono; [|apply build_group_wp].
  intros [G|e] s1 [-> HG]; cbn [andthen]; [|done]. apply wp_update. simpl.
  destruct (HG G eq_refl) as [Hids Hopen]. intros [K M O].
  assert (∀ c, c ∈ grp_get_channel_ids G ↔ c ∈ ids) as Hids'.
  { intros c. rewrite Hids, grp_new_spec. set_solver. }
  split; simpl.
  - intros g G' [(-> & _ & ->)|(Hne & G0 & E & _)]%replace_group_lookup; [|by eapply K].
    by apply eq_None_not_Some.
  - intros g G' c [(-> & _ & ->)|(Hne & G0 & E & -> & _)]%replace_group_lookup.
    + intros Hc%Hids'. by apply Hopen.
    + intros [Hc _]%without_members_ids. by eapply M.
  - intros g1 G1 g2 G2 c [(-> & _ & ->)|(Hne1 & G1' & E1 & -> & _)]%replace_group_lookup
      [(-> & _ & ->)|(Hne2 & G2' & E2 & -> & _)]%replace_group_lookup; rewrite ?Hids', ?without_members_ids;
      try tauto. intros [Hc1 _] [Hc2 _]. by eapply O.
Qed.

(** A channel of the upstream that is open. *)
Definition open_member (mode : TproxyMode) s c : Prop :=
  if is_aggregated mode
  then ∃ a, extended_channels s !! AGGREGATED_CHANNEL_ID = Some a ∧ c = get_channel_id a
  else is_Some (extended_channels s !! c).

(** What a group is left with when [ids] move elsewhere. *)
Definition without (ids : list N) (old new : option GroupChannel) : Prop :=
  match old, new with
  | None, None => True
  | None, Some _ => False
  | Some G, None => ∀ c, c ∈ grp_get_channel_ids G → c ∈ ids
  | Some G, Some G' =>
      grp_get_channel_ids G' ≠ [] ∧
      ∀ c, c ∈ grp_get_channel_ids G' ↔ c ∈ grp_get_channel_ids G ∧ c ∉ ids
  end.

Record group_replaced (mode : TproxyMode) k (ids : list N) s s' : Prop := {
  gr_open : Forall (open_member mode s) ids;
  gr_members : match group_channels s' !! k with
               | Some G => ids ≠ [] ∧ ∀ c, c ∈ grp_get_channel_ids G ↔ c ∈ ids
               | None => ids = []
               end;
  gr_others : ∀ g, g ≠ k → without ids (group_channels s !! g) (group_channels s' !! g);
  gr_rest : s' = put_groups (group_channels s') s;
}.

Lemma replace_group_without k (ids : list N) G (m : gmap N GroupChannel) g :
  g ≠ k → without ids (m !! g) (replace_group k ids G m !! g).
Proof.
  intros Hne. destruct (replace_group k ids G m !! g) as [G'|] eqn:E.
  - apply replace_group_lookup in E as [(? & _)|(_ & G0 & -> & -> & He)]; [done|]. simpl. split.
    + intros E. apply grp_empty_spec in E. congruence.
    + apply without_members_ids.
  - destruct (m !! g) as [G0|] eqn:Eg; [|done]. intros c Hc. destruct (decide (c ∈ ids)) as [|Hn]; [done|].
    exfalso. assert (replace_group k ids G m !! g = Some (without_members ids G0)) as E'; [|congruence].
    apply replace_group_lookup. right. split; [done|]. exists G0. split_and!; [done..|].
    apply not_true_iff_false. rewrite grp_empty_spec. intros Ei.
    assert (c ∈ grp_get_channel_ids (without_members ids G0)) as Hin by by apply without_members_ids.
    rewrite Ei in Hin. by apply elem_of_nil in Hin.
Qed.

(** A replacement of a group is made completely or not at all: when it
    succeeds, the listed channels are open and are the members, no other group
    keeps one of them, a group left without members is gone, and nothing else
    changes; otherwise nothing changes. *)
Theorem set_group_channel_atomic (mode : TproxyMode) k (ids : list N) s r s' :
  handle_set_group_channel mode k ids s = Done (r, s') →
  match r with Ok _ => group_replaced mode k ids s s' | Err _ => s' = s end.
Proof.
  apply (wp_sound _ (λ r s', match r with Ok _ => group_replaced mode k ids s s' | Err _ => s' = s end)).
  unfold handle_set_group_channel. case_decide; [by apply wp_raise|].
  apply wp_bind. apply (wp_mono _ (λ r s', s' = s ∧ ∀ a, r = Ok a →
    if is_aggregated mode then is_Some a ∧ a = extended_channels s !! AGGREGATED_CHANNEL_ID else a = None)).
  2: { destruct (is_aggregated mode); [|by apply wp_ret; split; [|intros ? [= <-]]].
       apply wp_bind, wp_ask. cbn [andthen]. apply wp_bind, wp_some_or; [|done].
       intros a Ea. cbn [andthen]. apply wp_ret. split; [done|]. by intros ? [= <-]. }
  intros [a|e] s1 [-> Ha]; cbn [andthen]; [|done]. specialize (Ha a eq_refl).
  apply wp_bind, wp_ask. cbn [andthen]. destruct (group_id_in_use a k s); [by apply wp_raise|].
  apply wp_bind. eapply wp_mono; [|apply build_group_wp].
  intros [G|e] s1 [-> HG]; cbn [andthen]; [|done]. apply wp_update.
  destruct (HG G eq_refl) as [Hids Hopen]. split; simpl.
  - apply Forall_forall. intros c Hc. destruct (Hopen c Hc) as [_ Ho]. unfold open_member.
    destruct (is_aggregated mode); [|by subst a]. destruct Ha as [[a' ->] Ea]. by exists a'.
  - destruct (replace_group k ids G (group_channels s) !! k) as [G'|] eqn:E.
    + apply replace_group_lookup in E as [(_ & Hne & ->)|(? & _)]; [|done]. split; [done|].
      intros c. rewrite Hids, grp_new_spec. set_solver.
    + destruct ids as [|c rest]; [done|]. unfold replace_group in E. by rewrite lookup_insert_eq in E.
  - intros g Hne. by apply replace_group_without.
  - done.
Qed.

Lemma tell_closed_wp reason (l : list N) s :
  wp (for_each l (λ c, remove_advertised c;; send_sv1 (DownCloseChannel c reason)))
    (λ r s', extended_channels s' = extended_channels s ∧ group_channels s' = group_channels s ∧
       (r = Ok tt → sv1_history s' = sv1_history s ++ ((λ c, DownCloseChannel c reason) <$> l))) s.
Proof.
  revert s. induction l as [|c l IH]; intros s; cbn [for_each].
  { apply wp_ret. split_and!; [done..|]. intros _. by rewrite app_nil_r. }
  apply wp_bind, wp_bind, wp_update. cbn [andthen]. unfold send_sv1.
  apply wp_bind, wp_ask. cbn [andthen]. case_match; [|by apply wp_raise].
  apply wp_update. cbn [andthen]. eapply wp_mono; [|apply IH].
  intros r s' (Ec & Eg & Eh). split_and!; [done..|]. intros Hr. rewrite (Eh Hr). unfold sv1_history.
  simpl. by rewrite <-app_assoc.
Qed.

Lemma closed_group_wp g G s :
  group_channels s !! g = Some G →
  wp (closed_channels g) (λ r s', r = Ok (grp_get_channel_ids G) ∧
    group_channels s' = delete g (group_channels s) ∧ channel_manager_io s' = channel_manager_io s ∧
    ∀ c, extended_channels s' !! c =
         if decide (c ∈ grp_get_channel_ids G) then None else extended_channels s !! c) s.
Proof.
  intros HG. unfold closed_channels, SharedMap.remove. apply wp_bind, wp_transact.
  intros o s1 [= <- <-]. rewrite HG. cbn [andthen fmap option_fmap option_map]. apply wp_bind.
  eapply wp_mono; [|apply remove_each_wp].
  intros r s2 (-> & Hc & Eg & Ei). cbn [andthen]. apply wp_ret. by split_and!.
Qed.

(** When the upstream closes a group, the group and every one of its
    channels is gone, and the SV1 server is told of each of them, once and
    nothing else. *)
Theorem closed_group_is_gone g reason s s' G :
  handle_close_channel NonAggregated g reason s = Done (Ok tt, s') →
  group_channels s !! g = Some G →
  group_channels s' = delete g (group_channels s) ∧
  (∀ c, extended_channels s' !! c =
        if decide (c ∈ grp_get_channel_ids G) then None else extended_channels s !! c) ∧
  NoDup (grp_get_channel_ids G) ∧
  sv1_history s' = sv1_history s ++ ((λ c, DownCloseChannel c reason) <$> grp_get_channel_ids G).
Proof.
  intros Hrun HG. unfold handle_close_channel in Hrun.
  change (is_aggregated NonAggregated) with false in Hrun. cbn match in Hrun.
  apply bind_inv in Hrun as (ids & s1 & E1 & E2).
  destruct (wp_sound _ _ _ _ _ (closed_group_wp g G s HG) E1) as ([= ->] & Eg & Ei & Ec).
  destruct (wp_sound _ _ _ _ _ (tell_closed_wp reason _ s1) E2) as (Ec2 & Eg2 & Eh).
  split_and!; [congruence|intros c; by rewrite Ec2, Ec|apply grp_ids_nodup|].
  rewrite (Eh eq_refl). unfold sv1_history. by rewrite Ei.
Qed.

(** ** A new channel *)
Lemma groups_after_open c g n G' s s' :
  c ≠ g → extended_channels s !! g = None → extended_channels s !! c = None →
  group_channels s !! c = None →
  grp_add_channel_id (default (grp_new g) (group_channels s !! g)) c n = (Ok tt, G') →
  dom (extended_channels s') = {[c]} ∪ dom (extended_channels s) →
  group_channels s' = <[g := G']> (group_channels s) → groups_ok s → groups_ok s'.
Proof.
  intros Hcg Hg Hc Hcgroup Eadd Ed Eg [K M O]. pose proof (grp_add_spec _ _ _ _ Eadd) as Hids.
  set (old := default (grp_new g) (group_channels s !! g)) in *.
  assert (∀ d, d ∈ grp_get_channel_ids old → ∃ G, group_channels s !! g = Some G ∧
     d ∈ grp_get_channel_ids G) as Hold.
  { intros d. unfold old. destruct (group_channels s !! g) as [G|]; simpl; [by exists G|].
    rewrite grp_new_spec. by intros []%elem_of_nil. }
  assert (∀ g0 G d, group_channels s !! g0 = Some G → d ∈ grp_get_channel_ids G → d ≠ c) as Hnew.
  { intros g0 G d HG Hd ->. destruct (M _ _ _ HG Hd) as [? ?]. congruence. }
  assert (∀ d, is_Some (extended_channels s' !! d) ↔ d = c ∨ is_Some (extended_channels s !! d)) as Hopen.
  { intros d. rewrite <-!elem_of_dom, Ed. set_solver. }
  split; rewrite Eg.
  - intros g0 G0 HG0. apply eq_None_not_Some. rewrite Hopen. intros [->|[ch Hch]].
    + rewrite lookup_insert_ne in HG0 by done. congruence.
    + destruct (decide (g0 = g)) as [->|]; [congruence|]. rewrite lookup_insert_ne in HG0 by done.
      apply K in HG0. congruence.
  - intros g0 G0 d HG0 Hd. apply Hopen. destruct (decide (g0 = g)) as [->|].
    + rewrite lookup_insert_eq in HG0. injection HG0 as <-.
      apply Hids in Hd as [->|(G & HG & Hd)%Hold]; [by left|right; by eapply M].
    + rewrite lookup_insert_ne in HG0 by done. right. by eapply M.
  - assert (∀ g0 G0 d, g0 ≠ g → <[g:=G']> (group_channels s) !! g0 = Some G0 →
      d ∈ grp_get_channel_ids G0 → d ∈ grp_get_channel_ids G' → False) as Hsep.
    { intros g0 G0 d Hne. rewrite lookup_insert_ne by done. intros HG0 Hd0.
      intros [->|(G & HG & Hd)%Hold]%Hids; [by eapply Hnew|]. destruct Hne. by eapply O. }
    intros g1 G1 g2 G2 d HG1 HG2 Hd1 Hd2.
    destruct (decide (g1 = g)) as [->|Hne1], (decide (g2 = g)) as [->|Hne2]; [done|..].
    + rewrite lookup_insert_eq in HG1. injection HG1 as <-. exfalso. by eapply (Hsep g2).
    + rewrite lookup_insert_eq in HG2. injection HG2 as <-. exfalso. by eapply (Hsep g1).
    + rewrite lookup_insert_ne in HG1, HG2 by done. by eapply O.
Qed.

Lemma groups_open_success ord m :
  maintains groups_ok (λ _, True)
    (handle_open_extended_mining_channel_success NonAggregated max_past_jobs ord m).
Proof.
  intros s Hok _. unfold handle_open_extended_mining_channel_success.
  change (is_aggregated NonAggregated) with false. cbn match.
  apply wp_bind, wp_transact. intros o s1 E1.
  assert (groups_ok s1) as Hok1 by (injection E1 as _ <-; by apply (keeps_groups_same s)).
  clear s E1 Hok. rename s1 into s, Hok1 into Hok. cbn [andthen].
  apply wp_bind, wp_some_or; [|by split]. intros [q [[u h] n]] _. cbn [andthen].
  wp_rule. wp_rule. wp_rule. destruct (colliding_channel_id _ _ _ s) eqn:Ecol; [by split|].
  destruct (colliding_none _ _ _ _ Ecol) as (Hne & _ & Hcg & Hfree).
  destruct (Hfree eq_refl) as (Hg & Hc & Hcgroup). clear Hfree Ecol.
  set (c := oes_channel_id m) in *. set (g := oes_group_channel_id m) in *.
  apply (wp_mono _ (λ r s', match r with Ok _ => groups_ok s' | Err e => is_fatal e end)).
  { intros [[]|e] s' Hr; split; try done. intros Hset. unfold settled, is_fatal in *. by destruct (action e). }
  unfold add_to_group. apply wp_bind, wp_bind, wp_transact. intros r s1.
  unfold SharedMap.with_mut_or_insert_with.
  destruct (grp_add_channel_id _ _ _) as [r0 G'] eqn:Eadd. intros [= <- <-]. cbn [andthen].
  apply wp_ok_or_raise; [|done]. intros [] ->. cbn [andthen].
  apply wp_bind. set (s1 := put_groups _ s).
  apply (wp_mono _ (λ r s', match r with Ok x => groups_ok s' | Err e => is_fatal e end)).
  2: { apply wp_fatal; [apply fatal_open_own|]. eapply wp_mono; [|by apply open_own_wp].
       intros r s2 Hr x Hx. destruct (Hr x Hx) as (_ & Ed & _ & Eg). clear Hr Hx.
       by eapply (groups_after_open c g). }
  intros [x|e] s2; cbn [andthen]; intros H2; [|done].
  set (tell := advertise _ _ _).
  assert (fatal_only tell) as Hf by (unfold tell, advertise; fatal).
  assert (evolves keeps_groups tell) as Hk by (unfold tell, advertise; repeat groups_rule).
  apply wp_bind. eapply wp_mono; [|apply (wp_fatal _ (λ _ s', groups_ok s') _ Hf)].
  - intros [[]|e] s3 H3; cbn [andthen]; [by apply wp_ret|done].
  - eapply wp_mono; [|apply Hk]. intros r s3 Hr y _. exact (Hr H2).
Qed.

(** ** Every handler *)
Lemma reads_verify m n : evolves eq (verify_payout_distribution m n).
Proof. unfold verify_payout_distribution. repeat evolve_rule. Qed.

Lemma groups_forward ord m : evolves keeps_groups (forward_job_to_sv1_server ord m).
Proof. unfold forward_job_to_sv1_server, announce_prefix, advertise. repeat groups_rule. Qed.

Lemma groups_job_for_group m G s :
  group_channels s !! nj_channel_id m = Some G →
  wp (job_for_group G m) (λ _ s', keeps_groups s s') s.
Proof.
  intros HG. unfold job_for_group.
  apply wp_bind, wp_some_or; [intros size _|intros _ Hs; exact Hs]. cbn [andthen].
  apply wp_bind. eapply wp_mono; [|apply reads_verify].
  intros [[]|e] s1 <-; cbn [andthen]; [|intros Hs; exact Hs].
  apply wp_bind, wp_update. cbn [andthen].
  eapply wp_mono; [|apply (evolves_collect keeps_groups)].
  - intros r s1 Hs1. etrans; [|exact Hs1]. eapply keeps_groups_process; [done|apply grp_job_keeps].
  - intros c. repeat groups_rule.
Qed.

Lemma groups_job_for_channel m : evolves keeps_groups (job_for_channel m).
Proof.
  unfold job_for_channel.
  repeat first [groups_rule|apply (evolves_mono eq); [intros ?? ->; reflexivity|apply reads_verify]].
Qed.

Lemma groups_new_job ord m : evolves keeps_groups (handle_new_extended_mining_job NonAggregated ord m).
Proof.
  unfold handle_new_extended_mining_job. change (is_aggregated NonAggregated) with false. cbn match.
  apply evolves_bind; [apply _|apply evolves_ensure, _|intros _].
  apply evolves_bind; [apply _| |intros jobs; repeat first [groups_rule|apply groups_forward]].
  intros s. apply wp_bind, wp_ask. cbn [andthen].
  destruct (group_channels s !! nj_channel_id m) as [G|] eqn:EG;
    [by apply groups_job_for_group|apply groups_job_for_channel].
Qed.

Lemma groups_prev_hash_channel c absent m : evolves keeps_groups (prev_hash_for_channel c absent m).
Proof. unfold prev_hash_for_channel. repeat groups_rule. Qed.

Lemma groups_prev_hash ord m : evolves keeps_groups (handle_set_new_prev_hash NonAggregated ord m).
Proof.
  unfold handle_set_new_prev_hash. change (is_aggregated NonAggregated) with false. cbn match.
  apply evolves_bind; [apply _| |intros jobs; repeat first [groups_rule|apply groups_forward]].
  intros s. apply wp_bind, wp_ask. cbn [andthen].
  destruct (group_channels s !! snp_channel_id m) as [G|] eqn:EG; [|apply groups_prev_hash_channel].
  unfold prev_hash_for_group. pose proof (grp_prev_hash_keeps G m) as Hsame.
  destruct (grp_on_set_new_prev_hash G m) as [r G']. apply wp_bind, wp_update. cbn [andthen].
  eapply wp_mono; [|apply (evolves_bind keeps_groups)].
  - intros r' s1 Hs1. etrans; [|exact Hs1]. by eapply keeps_groups_process.
  - apply evolves_ok_or_raise, _.
  - intros _. apply evolves_collect; [apply _|]. intros c. apply groups_prev_hash_channel.
Qed.

Lemma groups_frame ord received :
  maintains groups_ok (λ _, True) (handle_upstream_frame NonAggregated max_past_jobs
    supported_extensions required_extensions ord received).
Proof.
  intros s Hok _. unfold handle_upstream_frame. apply wp_bind, wp_some_or; [|by split].
  intros frame _. cbn [andthen].
  assert (∀ p : handler unit, evolves keeps_groups p →
    wp p (λ r s', True ∧ (settled r → groups_ok s')) s) as Hk.
  { intros p Hp. eapply wp_mono; [|apply Hp]. intros r s' K. split; [done|]. intros _. exact (K Hok). }
  destruct frame; [apply Hk|by apply groups_open_success|apply Hk..];
    first [apply groups_new_job|apply groups_prev_hash|apply keeps_groups_close_channel
          |apply keeps_groups_set_group|idtac];
    unfold handle_open_mining_channel_error, open_fallback, handle_set_extranonce_prefix,
      handle_submit_shares_success, handle_submit_shares_error, handle_set_target,
      target_for_channel, handle_request_extensions_success, handle_request_extensions_error;
    change (is_aggregated NonAggregated) with false; cbn match;
    repeat groups_rule.
Qed.

Lemma groups_message ord received :
  maintains groups_ok (λ _, True)
    (handle_downstream_message NonAggregated max_past_jobs ord received).
Proof.
  eapply (maintains_evolves _ _ keeps_groups); [|intros s1 s2 K; exact K|done].
  unfold handle_downstream_message. apply evolves_bind; [apply _|repeat groups_rule|intros [m worker]].
  destruct m; try apply keeps_groups_close_downstream;
    unfold handle_open_extended_mining_channel, add_pending, handle_submit_shares_extended,
      submit_own, rewrite_own_share, validate_on, next_share_sequence_number, send_share,
      handle_update_channel, rewrite_aggregated_share;
    change (is_aggregated NonAggregated) with false; cbn match;
    repeat groups_rule.
Qed.

(** Where every miner has its own upstream channel, whenever the manager
    may handle a message, its groups partition open channels: no group id is a
    channel's id, every member of a group is an open channel, and no channel
    is in two groups. *)
Theorem groups_partition_channels payout t :
  task_reachable NonAggregated max_past_jobs supported_extensions required_extensions payout t →
  running t = true → calm t → groups_ok (manager t).
Proof.
  intros Hr Hrun Hcalm.
  assert (task_ok groups_ok (λ _, True) t) as [_ Hok]; [|by apply Hok].
  eapply reachable_ok; [| | | |done|exact Hr].
  - intros ord received _. apply groups_frame.
  - intros ord received _. apply groups_message.
  - intros s up sv1. split; [done|]. by apply keeps_groups_same.
  - by split.
Qed.
End groups.
