(* ===== verification/TproxyExamples.v ===== *)
(** * Translator: two runs

    A small channel library that satisfies [ClientLaws], a run of the channel
    manager in each mode on it, and the theorems about the translator at the
    states of these runs. *)
From S2P Require Import Prelude Handler SharedMap Bitcoin Payout ShareCache ClientChannels TproxyManager TproxyIds TproxyHistory TproxyInv TproxyChannels TproxyJobs TproxyGroups.

Module TproxyExamples.
#[local] Existing Instance PayoutExamples.outputs_api.
#[local] Existing Instance PayoutExamples.demo_addresses.

(** An allocator hands out one byte, after the padding; a channel keeps one
    active job and its future jobs, and accepts any share while it has a job. *)
Record Prefix : Type := { p_bytes : list byte; p_len : N }.
Record Alloc : Type := { a_up : list byte; a_pad : list byte; a_roll : N; a_used : list byte }.
Record Job : Type := { j_msg : NewExtendedMiningJob; j_prefix : list byte; j_target : N }.
Record Chan : Type := {
  ch_id : N; ch_prefix : Prefix; ch_target : N; ch_roll : N; ch_active : option Job;
  ch_futures : list (N * Job);
}.
Record Grp : Type := { g_members : gset N; g_size : option N }.

Definition all_bytes : list byte := omap Byte.of_N (N.of_nat <$> seq 0 256).
Definition free_byte (used : list byte) : option byte := head (filter (λ b, b ∉ used) all_bytes).
Definition alloc_local (a : Alloc) (b : byte) : list byte := a_pad a ++ [b].
Definition alloc_bytes (a : Alloc) (b : byte) : Prefix :=
  {| p_bytes := a_up a ++ alloc_local a b; p_len := N.of_nat (length (a_up a)) |}.
Definition take_byte (b : byte) (a : Alloc) : Alloc :=
  {| a_up := a_up a; a_pad := a_pad a; a_roll := a_roll a; a_used := b :: a_used a |}.
Definition local_of (p : Prefix) : list byte := drop (N.to_nat (p_len p)) (p_bytes p).

Definition put_prefix (p : Prefix) (c : Chan) : Chan :=
  {| ch_id := ch_id c; ch_prefix := p; ch_target := ch_target c; ch_roll := ch_roll c;
     ch_active := ch_active c; ch_futures := ch_futures c |}.
Definition put_target (t : N) (c : Chan) : Chan :=
  {| ch_id := ch_id c; ch_prefix := ch_prefix c; ch_target := t; ch_roll := ch_roll c;
     ch_active := ch_active c; ch_futures := ch_futures c |}.
Definition put_jobs (a : option Job) (f : list (N * Job)) (c : Chan) : Chan :=
  {| ch_id := ch_id c; ch_prefix := ch_prefix c; ch_target := ch_target c; ch_roll := ch_roll c;
     ch_active := a; ch_futures := f |}.

Definition future (m : NewExtendedMiningJob) : bool := bool_decide (nj_min_ntime m = None).
Definition job_of (c : Chan) (m : NewExtendedMiningJob) : Job :=
  {| j_msg := m; j_prefix := p_bytes (ch_prefix c); j_target := ch_target c |}.
Definition take_job (c : Chan) (m : NewExtendedMiningJob) : Chan :=
  if future m then put_jobs (ch_active c) ((nj_job_id m, job_of c m) :: ch_futures c) c
  else put_jobs (Some (job_of c m)) (ch_futures c) c.
Definition promote (c : Chan) (m : SetNewPrevHash) : result unit unit * Chan :=
  match filter (λ j, j.1 = snp_job_id m) (ch_futures c) with
  | (_, j) :: _ => (Ok tt, put_jobs (Some j) [] c)
  | [] => (Err tt, c)
  end.

#[local] Instance toy : ClientChannels := {|
  Hashrate := N; ExtranonceAllocatorError := unit; ExtendedChannelError := unit;
  GroupChannelError := unit; is_future := future;
  ExtranoncePrefix := Prefix; prefix_bytes := p_bytes; prefix_upstream_len := p_len;
  from_wire bs := Ok {| p_bytes := bs; p_len := N.of_nat (length bs) |};
  ExtranonceAllocator := Alloc; bytes_needed _ := 1; MAX_EXTRANONCE_LEN := 32;
  from_upstream_prefix up pad total _ :=
    if decide (N.of_nat (length up) + N.of_nat (length pad) + 1 ≤ total) then
      Ok {| a_up := up; a_pad := pad; a_used := [];
            a_roll := total - N.of_nat (length up) - N.of_nat (length pad) - 1 |}
    else Err tt;
  allocate_extended a n :=
    if (a_roll a <? n)%N then (Err tt, a)
    else match free_byte (a_used a) with
         | Some b => (Ok (alloc_bytes a b), take_byte b a)
         | None => (Err tt, a)
         end;
  upstream_prefix := a_up; upstream_prefix_len a := N.of_nat (length (a_up a));
  rollable_extranonce_size := a_roll;
  set_upstream_prefix a up :=
    (Ok tt, {| a_up := up; a_pad := a_pad a; a_roll := a_roll a; a_used := a_used a |});
  release_prefix a p :=
    {| a_up := a_up a; a_pad := a_pad a; a_roll := a_roll a;
       a_used := filter (λ b, alloc_local a b ≠ local_of p) (a_used a) |};
  ExtendedJob := Job; job_message := j_msg; job_extranonce_prefix := j_prefix;
  job_target := j_target;
  ChainTip := unit; ExtendedChannel := Chan;
  ext_new i _ p t _ _ n _ := Ok {| ch_id := i; ch_prefix := p; ch_target := t; ch_roll := n;
                                   ch_active := None; ch_futures := [] |};
  get_channel_id := ch_id; ext_prefix := ch_prefix; get_target := ch_target;
  get_rollable_extranonce_size := ch_roll;
  get_full_extranonce_size c := N.of_nat (length (p_bytes (ch_prefix c))) + ch_roll c;
  get_active_job := ch_active; get_future_jobs := ch_futures; get_chain_tip _ := None;
  set_chain_tip c _ := c; set_target c t := (Ok tt, put_target t c); set_nominal_hashrate c _ := c;
  set_upstream_extranonce_prefix c up :=
    (Ok tt, put_prefix {| p_bytes := up ++ local_of (ch_prefix c); p_len := N.of_nat (length up) |} c);
  on_new_extended_mining_job c m := (Ok tt, take_job c m);
  on_set_new_prev_hash := promote;
  validate_share c _ :=
    (match ch_active c with Some _ => Ok tt | None => Err (Stale "stale-share") end, c);
  on_share_acknowledgement c _ _ := c; on_share_rejection c _ := c;
  GroupChannel := Grp; grp_new _ := {| g_members := ∅; g_size := None |};
  grp_add_channel_id g c n := (Ok tt, {| g_members := {[c]} ∪ g_members g; g_size := Some n |});
  grp_remove_channel_id g c := {| g_members := g_members g ∖ {[c]}; g_size := g_size g |};
  grp_has_channel_id g c := bool_decide (c ∈ g_members g);
  grp_get_channel_ids g := elements (g_members g);
  grp_is_empty g := bool_decide (g_members g = ∅);
  grp_get_full_extranonce_size := g_size;
  grp_on_new_extended_mining_job g _ := g; grp_on_set_new_prev_hash g _ := (Ok tt, g);
  UserIdentity := string; user_identity_new s := Some s; MAX_USER_IDENTITY_LENGTH := 32;
  EXTENSION_TYPE_WORKER_HASHRATE_TRACKING := 2;
  MESSAGE_TYPE_OPEN_STANDARD_MINING_CHANNEL_SUCCESS := 17;
  MESSAGE_TYPE_SET_CUSTOM_MINING_JOB_SUCCESS := 35;
  MESSAGE_TYPE_SET_CUSTOM_MINING_JOB_ERROR := 36;
  ERROR_CODE_OPEN_MINING_CHANNEL_CHANNEL_CAPACITY_EXHAUSTED := "channel-capacity-exhausted";
  ERROR_CODE_OPEN_MINING_CHANNEL_UNSUPPORTED_MIN_EXTRANONCE_SIZE := "unsupported-min-extranonce-size";
|}.

Lemma free_byte_spec used b : free_byte used = Some b → b ∉ used.
Proof.
  unfold free_byte. destruct (filter _ all_bytes) as [|b' l] eqn:E; [done|]. intros [= ->].
  assert (b ∈ filter (λ b, b ∉ used) all_bytes) as Hb by (rewrite E; by left).
  by apply list_elem_of_filter in Hb as [? _].
Qed.
Lemma alloc_local_inj a b b' : alloc_local a b = alloc_local a b' → b = b'.
Proof. unfold alloc_local. intros [= ->]%app_inv_head. done. Qed.
Lemma local_alloc a b : local_of (alloc_bytes a b) = alloc_local a b.
Proof. unfold local_of, alloc_bytes. simpl. by rewrite Nat2N.id, drop_app_length. Qed.

Lemma local_bytes_toy (p : ExtranoncePrefix) : local_bytes p = local_of p.
Proof. done. Qed.

#[local] Instance toy_laws : ClientLaws toy.
Proof.
  unshelve refine {| live := λ a l, ∃ b, b ∈ a_used a ∧ l = alloc_local (a : Alloc) b |}; simpl.
  all: try (by intros; simplify_eq/=).
  - intros a l l' (b & _ & ->) (b' & _ & ->). unfold alloc_local. by rewrite !length_app.
  - intros up pad total _ a. case_decide; [|done]. intros [= <-]. simpl. split_and!; [done| |lia].
    by intros l (b & []%elem_of_nil & _).
  - intros a n p a'. case_match; [done|]. destruct (free_byte (a_used a)) as [b|] eqn:Eb; [|done].
    intros [= <- <-]. rewrite (local_bytes_toy (alloc_bytes a b)), local_alloc. split_and!; [done..| | |done].
    + intros (b' & Hb & <-%alloc_local_inj). by apply (free_byte_spec _ _ Eb).
    + intros l. unfold take_byte, alloc_local. simpl. split.
      * intros (b' & [->|Hb]%elem_of_cons & ->); [by left|right; by exists b'].
      * intros [->|(b' & Hb & ->)]; [exists b|exists b']; (split; [|done]); [by left|by right].
  - intros a n e a'. case_match; [by intros [= _ <-]|]. case_match; [done|]. by intros [= _ <-].
  - intros a p. split; [done|]. intros l. rewrite (local_bytes_toy p). split.
    + intros (b & [Hne Hb]%list_elem_of_filter & ->). split; [by exists b|exact Hne].
    + intros [(b & Hb & ->) Hne]. exists b. split; [|done]. by apply list_elem_of_filter.
  - intros c up. split_and!; [done..|]. unfold local_bytes. simpl.
    by rewrite Nat2N.id, drop_app_length.
  - intros c m. unfold take_job. by case_match.
  - intros c m j. unfold take_job, has_job. case_match; simpl.
    + intros [Ha|[->|Hj]%elem_of_cons]; [by left; left|by right|by left; right].
    + intros [[= <-]|Hj]; [by right|by left; right].
  - intros c m c'. intros [= <-] Hf. unfold take_job. rewrite Hf. by eexists.
  - intros c m. unfold promote. by destruct (filter _ _) as [|[i j] l].
  - intros c m j. unfold promote, has_job. destruct (filter _ _) as [|[i j'] l] eqn:E; simpl.
    { intros Hj. by exists j. }
    intros [[= <-]|Hj%elem_of_nil]; [|done]. exists j'. split; [|done]. right.
    assert ((i, j') ∈ filter (λ j, j.1 = snp_job_id m) (ch_futures c)) as [_ Hin]%list_elem_of_filter
      by (rewrite E; by left).
    apply list_elem_of_fmap. by exists (i, j').
  - intros c m c'. unfold promote. destruct (filter _ _) as [|[i j'] l]; [done|]. intros [= <-]. by eexists.
  - intros g. apply NoDup_elements.
  - intros g c. by rewrite bool_decide_eq_true, elem_of_elements.
  - intros g. rewrite bool_decide_eq_true. by rewrite elements_empty_iff, leibniz_equiv_iff.
  - intros g c n g' [= <-] c'. simpl. rewrite !elem_of_elements. set_solver.
  - intros g c c'. rewrite !elem_of_elements. set_solver.
Defined.

(** ** The runs *)
Definition payout : option PayoutMode := Some PayoutExamples.demo_mode.
Definition keys (X : gset N) : list N := elements X.
Lemma keys_iteration : iteration keys.
Proof. by intros X. Qed.

Definition up_round (mode : TproxyMode) (frame : UpstreamFrame) (t : Task) : Task :=
  after_handler (with_tokens t (tokens t))
    (handle_upstream_frame mode None [2] [] keys (Some frame) (manager t)).
Definition down_round (mode : TproxyMode) (m : Sv1Request) (worker : option string) (t : Task) : Task :=
  after_handler (with_tokens t (tokens t))
    (handle_downstream_message mode None keys (Some (m, worker)) (manager t)).

Definition ready_b (t : Task) : bool :=
  running t && negb (cancelled (tokens t)) && negb (fallback_cancelled (tokens t)).
Lemma ready_of_b t : ready_b t = true → running t = true ∧ calm t.
Proof.
  unfold ready_b, calm. destruct (running t), (cancelled (tokens t)), (fallback_cancelled (tokens t)); done.
Qed.

Notation reachable mode := (task_reachable mode None [2] [] payout).

Lemma up_reachable mode frame t :
  ready_b t = true → reachable mode t → reachable mode (up_round mode frame t).
Proof.
  intros [Hr Hc]%ready_of_b Ht. eapply rtc_r; [exact Ht|].
  by apply step_upstream; [done|done|split|apply keys_iteration].
Qed.
Lemma down_reachable mode m worker t :
  ready_b t = true → reachable mode t → reachable mode (down_round mode m worker t).
Proof.
  intros [Hr Hc]%ready_of_b Ht. eapply rtc_r; [exact Ht|].
  by apply step_downstream; [done|done|split|apply keys_iteration].
Qed.

Definition open_request (id : N) (user : string) : Sv1Request :=
  ReqOpenExtendedMiningChannel {| oec_request_id := id; oec_user_identity := user;
    oec_nominal_hash_rate := 1 : N; oec_max_target := 1000; oec_min_extranonce_size := 4 |}.
Definition opened (request channel size : N) : OpenExtendedMiningChannelSuccess :=
  {| oes_request_id := request; oes_channel_id := channel; oes_target := 500;
     oes_extranonce_size := size; oes_extranonce_prefix := [xaa; xbb]; oes_group_channel_id := 5 |}.
Definition job (channel : N) : NewExtendedMiningJob :=
  {| nj_channel_id := channel; nj_job_id := 3; nj_min_ntime := Some 1; nj_version := 2;
     version_rolling_allowed := true; nj_merkle_path := []; nj_coinbase_tx_prefix := [x01];
     nj_coinbase_tx_suffix := [x02] |}.
Definition share (channel : N) : SubmitSharesExtended :=
  {| sse_channel_id := channel; sequence_number := 0; sse_job_id := 3; nonce := 8; ntime := 9;
     sse_version := 2; extranonce := [x11; x12; x13; x14] |}.

(** Aggregated: two miners ask, the upstream opens channel 77, a job arrives,
    the second miner submits a share. *)
Definition t0 : Task := start_task payout.
Definition t1 : Task := down_round Aggregated (open_request 10 "alice") None t0.
Definition t2 : Task := down_round Aggregated (open_request 11 "bob") None t1.
Definition t3 : Task := up_round Aggregated (FrOpenExtendedMiningChannelSuccess (opened 10 77 8)) t2.
Definition t4 : Task := up_round Aggregated (FrNewExtendedMiningJob (job 77)) t3.
Definition t5 : Task := down_round Aggregated (ReqSubmitSharesExtended (share 2)) None t4.

Lemma run_0 mode : reachable mode t0.
Proof. apply rtc_refl. Qed.
Lemma run_2 : reachable Aggregated t2.
Proof. apply down_reachable; [vm_eq|]. apply down_reachable; [vm_eq|]. apply run_0. Qed.
Lemma run_3 : reachable Aggregated t3.
Proof. apply up_reachable; [vm_eq|]. apply run_2. Qed.
Lemma run_4 : reachable Aggregated t4.
Proof. apply up_reachable; [vm_eq|]. apply run_3. Qed.
Lemma run_5 : reachable Aggregated t5.
Proof. apply down_reachable; [vm_eq|]. apply run_4. Qed.

(** Every miner on its own: two channels, 7 and 8, in group 5. *)
Definition u1 : Task := down_round NonAggregated (open_request 10 "alice") None t0.
Definition u2 : Task := up_round NonAggregated (FrOpenExtendedMiningChannelSuccess (opened 10 7 4)) u1.
Definition u3 : Task := down_round NonAggregated (open_request 11 "bob") None u2.
Definition u4 : Task := up_round NonAggregated (FrOpenExtendedMiningChannelSuccess (opened 11 8 4)) u3.

Lemma run_u4 : reachable NonAggregated u4.
Proof.
  apply up_reachable; [vm_eq|]. apply down_reachable; [vm_eq|]. apply up_reachable; [vm_eq|].
  apply down_reachable; [vm_eq|]. apply run_0.
Qed.


(** What a handler left. *)
Definition left_by (h : handler unit) (t : Task) : ChannelManager :=
  (done_or (Ok tt, manager t) (h (manager t))).2.
Definition ok_b (h : handler unit) (t : Task) : bool :=
  match h (manager t) with Done (Ok _, _) => true | _ => false end.
Lemma left_ok h t : ok_b h t = true → h (manager t) = Done (Ok tt, left_by h t).
Proof. unfold ok_b, left_by. by destruct (h (manager t)) as [[[[]|] ?]|]. Qed.

Definition no_chan : Chan :=
  {| ch_id := 0; ch_prefix := {| p_bytes := []; p_len := 0 |}; ch_target := 0; ch_roll := 0;
     ch_active := None; ch_futures := [] |}.
Definition chan (t : Task) (c : N) : ExtendedChannel := default no_chan (extended_channels (manager t) !! c).
Lemma chan_eq t c :
  bool_decide (is_Some (extended_channels (manager t) !! c)) = true →
  extended_channels (manager t) !! c = Some (chan t c).
Proof. apply default_of_b. Qed.

Lemma connected_4 : aggregated_channel_state (manager t4) = Connected.
Proof. vm_eq. Qed.

Definition ids_in_use : gset N := {[1; 4294967295]}.
Lemma next_channel_id_witness :
  next_channel_id keys ids_in_use = Some 2 ∧
  match next_channel_id keys ids_in_use with
  | Some id =>
      id ∉ ids_in_use ∧ 1 ≤ id < AGGREGATED_CHANNEL_ID ∧
      ((∀ c, c ∈ ids_in_use → c ≠ AGGREGATED_CHANNEL_ID → c < id) ∨
       (∃ c, c ∈ ids_in_use ∧ AGGREGATED_CHANNEL_ID - 1 ≤ c) ∧ ∀ c, 1 ≤ c < id → c ∈ ids_in_use)
  | None => ∀ c, 1 ≤ c < AGGREGATED_CHANNEL_ID → c ∈ ids_in_use
  end.
Proof. split; [vm_eq|]. exact (next_channel_id_spec keys ids_in_use keys_iteration). Defined.

Lemma jobs_follow_their_prefix_witness :
  sv1_history (manager t4) = take 2 (sv1_history (manager t4)) ++
    [DownNewExtendedMiningJob (job_for AGGREGATED_CHANNEL_ID (job 77))] ∧
  ready (take 2 (sv1_history (manager t4))) (job_for AGGREGATED_CHANNEL_ID (job 77)) 2 (manager t4).
Proof.
  assert (sv1_history (manager t4) = take 2 (sv1_history (manager t4)) ++
    [DownNewExtendedMiningJob (job_for AGGREGATED_CHANNEL_ID (job 77))]) as E by vm_eq.
  split; [exact E|].
  apply (jobs_follow_their_prefix Aggregated None [2] [] payout t3 t4 _ _ [] 2 run_3).
  - destruct (ready_of_b t3) as [Hr Hc]; [vm_eq|].
    by apply step_upstream; [exact Hr|exact Hc|split|apply keys_iteration].
  - exact E.
  - assert (length (sv1_history (manager t3)) = length (take 2 (sv1_history (manager t4)))) as -> by vm_eq.
    done.
  - split; [done|]. right. split; [done|].
    apply (bool_decide_eq_true_1 (is_Some (extended_channels (manager t4) !! 2))). vm_eq.
Defined.

Lemma shares_numbered_in_order_witness :
  share_numbers 77 (upstream_history (manager t5)) = [1] ∧
  ∃ n, share_numbers 77 (upstream_history (manager t5)) = numbers n.
Proof.
  split; [vm_eq|].
  apply (shares_numbered_in_order Aggregated None [2] [] payout t5 77 run_5).
Defined.

Lemma miners_search_apart_witness :
  get_extranonce_prefix (chan t4 1) ++ [x11] ≠ get_extranonce_prefix (chan t4 2) ++ [x11].
Proof.
  destruct (ready_of_b t4) as [Hr Hc]; [vm_eq|].
  destruct (miners_search_apart Aggregated None [2] [] payout t4 eq_refl run_4 Hr Hc connected_4)
    as (a & _ & _ & Hapart).
  apply (Hapart 1 2); [done..| |]; apply chan_eq; vm_eq.
Defined.

Definition success : handler unit :=
  handle_open_extended_mining_channel_success Aggregated None keys (opened 10 77 8).
Lemma buffered_requests_served_witness :
  ∃ served, answered (left_by success t2) = answered (manager t2) ++ 10 :: served ∧ served ≡ₚ [11].
Proof.
  destruct (ready_of_b t2) as [Hr Hc]; [vm_eq|].
  destruct (buffered_requests_served Aggregated None [2] [] payout t2 keys (opened 10 77 8)
    (left_by success t2) eq_refl run_2 Hr Hc keys_iteration) as (_ & _ & served & Es & Hp).
  - apply (left_ok success). vm_eq.
  - exists served. split; [exact Es|]. etrans; [exact Hp|].
    assert (elements (dom (delete (oes_request_id (opened 10 77 8))
      (pending_downstream_channels (manager t2)))) = [11]) as -> by vm_eq. done.
Defined.

Definition forwarded : UpstreamMessage :=
  UpSubmitSharesExtended {| sse_channel_id := 77; sequence_number := 1; sse_job_id := 3; nonce := 8;
    ntime := 9; sse_version := 2; extranonce := [x00; x00; x00; x01; x11; x12; x13; x14] |} None.
Definition submit : handler unit := handle_submit_shares_extended Aggregated (share 2) None.
Lemma forwarded_share_witness :
  ∃ upstream judged m' u, forwarded = UpSubmitSharesExtended m' u ∧
    relayed (chan t4 2) upstream judged (share 2) m'.
Proof.
  destruct (ready_of_b t4) as [Hr Hc]; [vm_eq|].
  destruct (forwarded_share_is_miners_work Aggregated None [2] [] payout t4 (share 2) None
    (left_by submit t4) forwarded (chan t4 2) run_4 Hr Hc) as (upstream & judged & m' & u & E & Hrel & _).
  - apply (left_ok submit). vm_eq.
  - vm_eq.
  - done.
  - apply chan_eq. vm_eq.
  - exists upstream, judged, m', u. split; [exact E|exact Hrel].
Defined.

Lemma paid_jobs_only_witness :
  ∃ m0 n, sent_earlier Aggregated None [2] [] payout t4 m0 n ∧
    same_coinbase m0 (job_for AGGREGATED_CHANNEL_ID (job 77)) ∧
    ∀ p, payout = Some p →
      validate_coinbase_tx_parts p [x01] [x02] (N.to_nat n) = Done (Ok tt).
Proof.
  apply (paid_jobs_only Aggregated None [2] [] payout t4 (job_for AGGREGATED_CHANNEL_ID (job 77)) run_4).
  assert (sv1_history (manager t4) = take 2 (sv1_history (manager t4)) ++
    [DownNewExtendedMiningJob (job_for AGGREGATED_CHANNEL_ID (job 77))]) as -> by vm_eq.
  apply elem_of_app. right. by left.
Defined.

Lemma one_upstream_channel_witness :
  open_requests (manager t5) = 1%nat ∧ (open_requests (manager t5) ≤ 1)%nat.
Proof.
  split; [vm_eq|]. exact (one_upstream_channel None [2] [] payout t5 run_5).
Defined.

(** Channel 8 moves to a group of its own; group 5 closes. *)
Definition regroup : handler unit := handle_set_group_channel NonAggregated 6 [8].
Lemma set_group_channel_atomic_witness :
  group_replaced NonAggregated 6 [8] (manager u4) (left_by regroup u4).
Proof.
  apply (set_group_channel_atomic NonAggregated 6 [8] (manager u4) (Ok tt)).
  apply (left_ok regroup). vm_eq.
Defined.

Definition close5 : handler unit := handle_close_channel NonAggregated 5 "bye".
Definition group5 : GroupChannel :=
  default {| g_members := ∅; g_size := None |} (group_channels (manager u4) !! 5).
Lemma group5_eq : group_channels (manager u4) !! 5 = Some group5.
Proof. apply default_of_b. vm_eq. Qed.
Lemma closed_group_is_gone_witness :
  sv1_history (left_by close5 u4) = sv1_history (manager u4) ++
    ((λ c, DownCloseChannel c "bye") <$> grp_get_channel_ids group5).
Proof.
  destruct (closed_group_is_gone 5 "bye" (manager u4) (left_by close5 u4) group5)
    as (_ & _ & _ & E); [|exact group5_eq|exact E].
  apply (left_ok close5). vm_eq.
Defined.

Lemma groups_partition_witness : groups_ok (manager u4) ∧ grp_get_channel_ids group5 = [8; 7].
Proof.
  split; [|vm_eq]. destruct (ready_of_b u4) as [Hr Hc]; [vm_eq|].
  apply (groups_partition_channels None [2] [] payout u4 run_u4 Hr Hc).
Defined.
End TproxyExamples.
