(* ===== verification/Sv1Api.v ===== *)
(** * SV1 messages and what the translator takes from other crates

    The messages of [sv1_api], the conversions of [stratum_translation] and
    the difficulty control of [channels_sv2] live outside the repository.
    [Sv1Types] and [Sv1Api] are what the SV1 side of the translator uses of
    them, [Sv1Laws] the documented behaviour some theorems rely on.
    [sv1_api] decides what a request means and calls back the server through
    the trait [IsServer]: a record of programs over any state. *)
From S2P Require Import Prelude Handler Bitcoin ShareCache ClientChannels.

(** [server_to_client::Notify] and [SetExtranonce], [client_to_server::Submit]. *)
Record Notify : Type := {
  ntf_job_id : string; ntf_prev_hash : N; coin_base1 : list byte; coin_base2 : list byte;
  merkle_branch : list N; ntf_version : N; ntf_bits : N; ntf_time : N; clean_jobs : bool;
}.

Record SetExtranonce : Type := { extra_nonce1 : list byte; extra_nonce2_size : N }.

Record Submit : Type := {
  user_name : string; sub_job_id : string; extra_nonce2 : list byte; sub_time : N;
  sub_nonce : N; version_bits : option N; sub_id : N;
}.

(** The errors of [SubmitError] the translator answers with. *)
Inductive SubmitError : Type :=
| NotSubscribed | JobNotFound | LowDifficultyShare | DuplicateShare | OtherSubmitError.
Inductive SubmitOutcome : Type := Accepted | Rejected (e : SubmitError).

#[export] Instance Notify_eq_dec : EqDecision Notify.
Proof. solve_decision. Defined.
#[export] Instance SetExtranonce_eq_dec : EqDecision SetExtranonce.
Proof. solve_decision. Defined.
#[export] Instance Submit_eq_dec : EqDecision Submit.
Proof. solve_decision. Defined.
#[export] Instance SubmitError_eq_dec : EqDecision SubmitError.
Proof. solve_decision. Defined.
#[export] Instance SubmitOutcome_eq_dec : EqDecision SubmitOutcome.
Proof. solve_decision. Defined.

(** [bitcoin::block::Header]. *)
Record Header : Type := {
  h_version : Z; h_prev_blockhash : N; h_merkle_root : N; h_time : N; h_bits : N; h_nonce : N;
}.

Class Sv1Types : Type := {
  (** A message as it arrives; the content of the requests the translator
      does not look into; responses; [mining.set_difficulty]. *)
  json_message : Type;
  Subscribe : Type;
  Authorize : Type;
  Configure : Type;
  OtherRequest : Type;
  Response : Type;
  SetDifficulty : Type;
  (** [sv1_api::error::Error] and the errors of [stratum_translation]. *)
  Sv1Error : Type;
  TranslationError : Type;
  (** [Configure::version_rolling_mask] and [version_rolling_min_bit_count]. *)
  requested_mask : Configure → option N;
  requested_min_bit_count : Configure → option N;
  (** [VERSION_ROLLING_MASK] and [MAX_SEEN_SHARES]. *)
  VERSION_ROLLING_MASK : N;
  MAX_SEEN_SHARES : nat;
  MAX_PAST_JOBS : nat;
}.

(** [methods::Client2Server]. *)
Inductive Client2Server `{Sv1Types} : Type :=
| ReqConfigure (m : Configure)
| ReqSubscribe (m : Subscribe)
| ReqAuthorize (m : Authorize)
| ReqExtranonceSubscribe
| ReqSubmit (m : Submit)
| ReqUnknown (m : OtherRequest).

(** The trait [IsServer], for a server with state [S] and errors [E]. *)
Record IsServer `{Sv1Types} (S E : Type) : Type := {
  handle_configure : option N → Configure → prog S E (option (N * N) * option bool);
  handle_subscribe : option N → Subscribe → prog S E (list (string * string));
  handle_authorize : option N → Authorize → prog S E bool;
  handle_submit : option N → Submit → prog S E SubmitOutcome;
  handle_extranonce_subscribe : option N → prog S E unit;
  is_authorized : option N → string → prog S E bool;
  authorize : option N → string → prog S E unit;
  set_extranonce1 : option N → option (list byte) → prog S E (list byte);
  get_extranonce1 : option N → prog S E (list byte);
  set_extranonce2_size : option N → option N → prog S E N;
  get_extranonce2_size : option N → prog S E N;
  get_version_rolling_mask : option N → prog S E (option N);
  set_version_rolling_mask : option N → option N → prog S E unit;
  set_version_rolling_min_bit : option N → option N → prog S E unit;
  is_notify : option N → prog S E json_message;
  from_sv1_error : Sv1Error → E;
}.
Arguments handle_configure {_ _ _}.
Arguments handle_subscribe {_ _ _}.
Arguments handle_authorize {_ _ _}.
Arguments handle_submit {_ _ _}.
Arguments handle_extranonce_subscribe {_ _ _}.
Arguments is_authorized {_ _ _}.
Arguments authorize {_ _ _}.
Arguments set_extranonce1 {_ _ _}.
Arguments get_extranonce1 {_ _ _}.
Arguments set_extranonce2_size {_ _ _}.
Arguments get_extranonce2_size {_ _ _}.
Arguments get_version_rolling_mask {_ _ _}.
Arguments set_version_rolling_mask {_ _ _}.
Arguments set_version_rolling_min_bit {_ _ _}.
Arguments is_notify {_ _ _}.
Arguments from_sv1_error {_ _ _}.

Class Sv1Api (CC : ClientChannels) (ST : Sv1Types) : Type := {
  (** [Client2Server::try_from], [Submit::respond], the dispatch of a request,
      a provided method of [IsServer], and the prefix with the number of
      rollable bytes that a response to [mining.subscribe] carries. *)
  parse_request : json_message → result Client2Server Sv1Error;
  respond : Submit → SubmitOutcome → Response;
  handle_parsed_request : ∀ {S E : Type}, IsServer S E → option N → Client2Server →
    prog S E (option Response);
  told_by : Response → option SetExtranonce;
  unexpected_notify : Sv1Error;
  (** [stratum_translation]: jobs, difficulties (with the minimum difficulty
      1.0 for rounding to a power of two), the target a miner is told for an
      exact one, shares and channel requests. *)
  build_sv1_notify_from_sv2 : SetNewPrevHash → NewExtendedMiningJob → bool →
    result Notify TranslationError;
  build_sv1_set_difficulty : N → result SetDifficulty TranslationError;
  sv1_advertised_target : N → option N;
  build_sv2_submit_shares_extended : Submit → N → N → N → option N →
    result SubmitSharesExtended TranslationError;
  build_sv2_open_extended_mining_channel : N → string → Hashrate → N → N →
    result OpenExtendedMiningChannel TranslationError;
  (** [channels_sv2]: hash rates, shares per minute and targets (with the casts
      between [f32] and [f64]), and [VardiffState]. *)
  hash_rate_to_target : Hashrate → Hashrate → option N;
  hash_rate_from_target : N → Hashrate → option Hashrate;
  hashrate_zero : Hashrate;
  hashrate_add : Hashrate → Hashrate → Hashrate;
  VardiffState : Type;
  vardiff_new : VardiffState;
  increment_shares_since_last_update : VardiffState → VardiffState;
  try_vardiff : VardiffState → Hashrate → N → Hashrate →
    result (option Hashrate) unit * VardiffState;
  merkle_root_from_path : list byte → list byte → list byte → list N → option N;
  block_hash : Header → N;
}.

(** ** Laws *)
Section laws.
Context `{ST : Sv1Types}.

(** The callbacks of a server that let its state evolve by [R], all but
    [handle_submit]; and those a [mining.submit] may use before it is judged. *)
Record setup_evolves {S E} (ops : IsServer S E) (id : option N) (R : S → S → Prop) : Prop := {
  ev_configure m : evolves R (handle_configure ops id m);
  ev_subscribe m : evolves R (handle_subscribe ops id m);
  ev_authorize m : evolves R (handle_authorize ops id m);
  ev_extranonce_subscribe : evolves R (handle_extranonce_subscribe ops id);
  ev_authorize_name n : evolves R (authorize ops id n);
  ev_set_extranonce1 e : evolves R (set_extranonce1 ops id e);
  ev_set_extranonce2_size n : evolves R (set_extranonce2_size ops id n);
  ev_set_mask m : evolves R (set_version_rolling_mask ops id m);
  ev_set_min_bit m : evolves R (set_version_rolling_min_bit ops id m);
}.

Record reads_evolve {S E} (ops : IsServer S E) (id : option N) (R : S → S → Prop) : Prop := {
  ev_is_authorized n : evolves R (is_authorized ops id n);
  ev_extranonce1 : evolves R (get_extranonce1 ops id);
  ev_extranonce2_size : evolves R (get_extranonce2_size ops id);
  ev_mask : evolves R (get_version_rolling_mask ops id);
  ev_notify : evolves R (is_notify ops id);
}.
End laws.

(** A provided method changes its server only through the trait: a submission
    through [handle_submit] and the readers, any other request through the
    rest.  The response to a subscription carries what [set_extranonce1] and
    [set_extranonce2_size] gave (here [x], wherever [I] holds), no other
    response carries a prefix.  A translated job carries the number of its job as its id, and a
    [u32] as its time. *)
Class Sv1Laws {CC : ClientChannels} {ST : Sv1Types} (API : Sv1Api CC ST) : Prop := {
  submit_evolves {S E} (ops : IsServer S E) id m (R : S → S → Prop) :
    PreOrder R → reads_evolve ops id R → (∀ m, evolves R (handle_submit ops id m)) →
    evolves R (handle_parsed_request ops id (ReqSubmit m));
  request_evolves {S E} (ops : IsServer S E) id req (R : S → S → Prop) :
    PreOrder R → reads_evolve ops id R → setup_evolves ops id R →
    (∀ m, req ≠ ReqSubmit m) → evolves R (handle_parsed_request ops id req);
  subscribe_tells {S E} (ops : IsServer S E) id m (I : S → Prop) (x : SetExtranonce) s :
    (∀ m s, I s → wp (handle_subscribe ops id m) (λ _ s', I s') s) →
    (∀ e s, I s → wp (set_extranonce1 ops id e)
       (λ r s', I s' ∧ ∀ v, r = Ok v → v = extra_nonce1 x) s) →
    (∀ n s, I s → wp (set_extranonce2_size ops id n)
       (λ r s', I s' ∧ ∀ v, r = Ok v → v = extra_nonce2_size x) s) →
    I s → wp (handle_parsed_request ops id (ReqSubscribe m))
      (λ r s', I s' ∧ ∀ response, r = Ok (Some response) → told_by response = Some x) s;
  request_tells {S E} (ops : IsServer S E) id req s :
    (∀ m, req ≠ ReqSubscribe m) →
    wp (handle_parsed_request ops id req)
      (λ r _, ∀ response, r = Ok (Some response) → told_by response = None) s;
  respond_tells m o : told_by (respond m o) = None;
  notify_spec p m clean n : build_sv1_notify_from_sv2 p m clean = Ok n →
    ntf_job_id n = pretty (nj_job_id m) ∧ clean_jobs n = clean ∧ ntf_time n < u32_modulus;
}.
