(* ===== verification/Sv1Downstream.v ===== *)
(** * Translator: one SV1 miner
    ([miner-apps/translator/src/lib/sv1/downstream.rs])

    What the translator keeps of a miner, and the part of the miner's task
    that delivers the server's events: jobs wait until both setup responses
    are out, a difficulty or a prefix waits for the next job.  The data is
    behind a lock the server takes too; a handler of the task is one step. *)
From S2P Require Import Prelude Handler Bitcoin ShareCache ClientChannels TproxyManager JobStore Sv1Api.

(** ** Session state *)
Inductive Sv1SessionState : Type := Starting (subscribed authorized : bool) | Ready.
Inductive Sv1SetupRequest : Type := SetupSubscribe | SetupAuthorize.

#[export] Instance Sv1SessionState_eq_dec : EqDecision Sv1SessionState.
Proof. solve_decision. Defined.

Definition default_session : Sv1SessionState := Starting false false.

(** [record_response]: whether this response completed the set-up. *)
Definition record_response (st : Sv1SessionState) (request : Sv1SetupRequest)
    : bool * Sv1SessionState :=
  match st with
  | Ready => (false, Ready)
  | Starting subscribed authorized =>
      let was_complete := subscribed && authorized in
      let subscribed' := match request with SetupSubscribe => true | SetupAuthorize => subscribed end in
      let authorized' := match request with SetupSubscribe => authorized | SetupAuthorize => true end in
      (negb was_complete && subscribed' && authorized', Starting subscribed' authorized')
  end.

Definition is_ready (st : Sv1SessionState) : bool := bool_decide (st = Ready).
Definition is_subscribed (st : Sv1SessionState) : bool :=
  match st with Starting subscribed _ => subscribed | Ready => true end.
Definition setup_complete (st : Sv1SessionState) : bool :=
  match st with Starting subscribed authorized => subscribed && authorized | Ready => true end.

Record Sv1JobValidationContext : Type := {
  ctx_extranonce : list byte; ctx_extranonce2_len : N; ctx_target : N;
}.

Section downstream.
Context `{CC : ClientChannels} `{ST : Sv1Types}.

(** ** Errors of the SV1 side ([error.rs]) *)
Inductive Sv1ErrorKind : Type :=
| SV1Error (e : Sv1Error) | Translation (e : TranslationError) | BinarySv2Error
| ReceiverClosed | SenderClosed
| DownstreamNotPresent (downstream_id : N)
| Sv1RequestBeforeSetup | Sv1HandshakeMessageQueueFull
| RequestIdNotFound (request_id : N) | OpenChannelRejected
| DownstreamNotFoundWithChannelId (channel_id : N).

Record Sv1TproxyError : Type := { err_kind : Sv1ErrorKind; err_action : Action }.
Definition err_log (k : Sv1ErrorKind) : Sv1TproxyError := {| err_kind := k; err_action := Log |}.
Definition err_disconnect (k : Sv1ErrorKind) (downstream_id : N) : Sv1TproxyError :=
  {| err_kind := k; err_action := Disconnect downstream_id |}.
Definition err_fallback (k : Sv1ErrorKind) : Sv1TproxyError :=
  {| err_kind := k; err_action := Fallback |}.
Definition err_shutdown (k : Sv1ErrorKind) : Sv1TproxyError :=
  {| err_kind := k; err_action := Shutdown |}.

(** ** Shares already accepted *)

(** [Sv1AcceptedShareCache::insert_if_new]; [false]: it was there. *)
Definition insert_if_new (hashes : list N) (hash : N) : bool * list N :=
  if decide (hash ∈ hashes) then (false, hashes)
  else (true, (if decide (length hashes = MAX_SEEN_SHARES) then tail hashes else hashes) ++ [hash]).

(** ** The data of a miner *)
Record SubmitShareWithChannelId : Type := {
  ssw_channel_id : N; ssw_downstream_id : N; ssw_share : Submit; ssw_extranonce : list byte;
  ssw_extranonce2_len : N; ssw_version_rolling_mask : option N; ssw_job_version : option N;
}.

Record DownstreamData : Type := {
  channel_id : option N;
  extranonce1 : list byte;
  extranonce2_len : N;
  target : N;
  hashrate : option Hashrate;
  version_rolling_mask : option N;
  version_rolling_min_bit : option N;
  sv1_username : string;
  sv1_worker_name : string;
  cached_set_difficulty : option SetDifficulty;
  cached_notify : option Notify;
  cached_set_extranonce : option SetExtranonce;
  session_state : Sv1SessionState;
  job_validation_contexts : Sv1JobStore (T := Sv1JobValidationContext);
  accepted_share_hashes : list N;
  pending_set_extranonce_notifications : N;
  pending_target : option N;
  pending_hashrate : option Hashrate;
  stable_hashrate : bool;
  queued_sv1_handshake_messages : list Client2Server;
  pending_share : option SubmitShareWithChannelId;
  upstream_target : option N;
  keepalive_timer_anchor : option N;
  supports_set_extranonce : bool;
}.

Definition eta_data (d : DownstreamData) : DownstreamData :=
  {| channel_id := channel_id d; extranonce1 := extranonce1 d;
     extranonce2_len := extranonce2_len d; target := target d; hashrate := hashrate d;
     version_rolling_mask := version_rolling_mask d;
     version_rolling_min_bit := version_rolling_min_bit d; sv1_username := sv1_username d;
     sv1_worker_name := sv1_worker_name d; cached_set_difficulty := cached_set_difficulty d;
     cached_notify := cached_notify d; cached_set_extranonce := cached_set_extranonce d;
     session_state := session_state d; job_validation_contexts := job_validation_contexts d;
     accepted_share_hashes := accepted_share_hashes d;
     pending_set_extranonce_notifications := pending_set_extranonce_notifications d;
     pending_target := pending_target d; pending_hashrate := pending_hashrate d;
     stable_hashrate := stable_hashrate d;
     queued_sv1_handshake_messages := queued_sv1_handshake_messages d;
     pending_share := pending_share d; upstream_target := upstream_target d;
     keepalive_timer_anchor := keepalive_timer_anchor d;
     supports_set_extranonce := supports_set_extranonce d |}.

Implicit Types (d : DownstreamData).
Definition put_channel_id v d : DownstreamData := ltac:(update_field eta_data channel_id v d).
Definition put_extranonce1 v d : DownstreamData := ltac:(update_field eta_data extranonce1 v d).
Definition put_extranonce2_len v d : DownstreamData :=
  ltac:(update_field eta_data extranonce2_len v d).
Definition put_target v d : DownstreamData := ltac:(update_field eta_data target v d).
Definition put_hashrate v d : DownstreamData := ltac:(update_field eta_data hashrate v d).
Definition put_mask v d : DownstreamData := ltac:(update_field eta_data version_rolling_mask v d).
Definition put_min_bit v d : DownstreamData :=
  ltac:(update_field eta_data version_rolling_min_bit v d).
Definition put_username v d : DownstreamData := ltac:(update_field eta_data sv1_username v d).
Definition put_worker_name v d : DownstreamData :=
  ltac:(update_field eta_data sv1_worker_name v d).
Definition put_cached_difficulty v d : DownstreamData :=
  ltac:(update_field eta_data cached_set_difficulty v d).
Definition put_cached_notify v d : DownstreamData := ltac:(update_field eta_data cached_notify v d).
Definition put_cached_extranonce v d : DownstreamData :=
  ltac:(update_field eta_data cached_set_extranonce v d).
Definition put_session v d : DownstreamData := ltac:(update_field eta_data session_state v d).
Definition put_contexts v d : DownstreamData :=
  ltac:(update_field eta_data job_validation_contexts v d).
Definition put_hashes v d : DownstreamData :=
  ltac:(update_field eta_data accepted_share_hashes v d).
Definition put_pending_extranonces v d : DownstreamData :=
  ltac:(update_field eta_data pending_set_extranonce_notifications v d).
Definition put_pending_target v d : DownstreamData :=
  ltac:(update_field eta_data pending_target v d).
Definition put_pending_hashrate v d : DownstreamData :=
  ltac:(update_field eta_data pending_hashrate v d).
Definition put_stable v d : DownstreamData := ltac:(update_field eta_data stable_hashrate v d).
Definition put_queued v d : DownstreamData :=
  ltac:(update_field eta_data queued_sv1_handshake_messages v d).
Definition put_pending_share v d : DownstreamData := ltac:(update_field eta_data pending_share v d).
Definition put_upstream_target v d : DownstreamData :=
  ltac:(update_field eta_data upstream_target v d).
Definition put_timer v d : DownstreamData :=
  ltac:(update_field eta_data keepalive_timer_anchor v d).
Definition put_supports v d : DownstreamData :=
  ltac:(update_field eta_data supports_set_extranonce v d).

(** [DownstreamData::new]. *)
Definition new_data (rate : option Hashrate) (initial : N) (max_past_jobs : option nat)
    : DownstreamData :=
  {| channel_id := None; extranonce1 := replicate 8 x00; extranonce2_len := 4; target := initial;
     hashrate := rate; version_rolling_mask := None; version_rolling_min_bit := None;
     sv1_username := ""; sv1_worker_name := ""; cached_set_difficulty := None;
     cached_notify := None; cached_set_extranonce := None; session_state := default_session;
     job_validation_contexts := new_store MAX_PAST_JOBS max_past_jobs;
     accepted_share_hashes := []; pending_set_extranonce_notifications := 0;
     pending_target := None; pending_hashrate := None; stable_hashrate := false;
     queued_sv1_handshake_messages := []; pending_share := None; upstream_target := None;
     keepalive_timer_anchor := None; supports_set_extranonce := false |}.

(** [record_job_validation_context]; [None] would be an eviction loop of the
    store that does not end. *)
Definition record_job_validation_context (now : N) (notify : Notify) (d : DownstreamData)
    : option DownstreamData :=
  let d := if clean_jobs notify then put_hashes [] d else d in
  contexts ← activate (job_validation_contexts d) (ntf_job_id notify)
    {| ctx_extranonce := extranonce1 d; ctx_extranonce2_len := extranonce2_len d;
       ctx_target := target d |} (clean_jobs notify);
  let d := put_contexts contexts d in
  Some (if decide (pending_set_extranonce_notifications d = 0) then put_timer (Some now) d else d).

(** [job_validation_context]. *)
Definition job_validation_context (d : DownstreamData) (job : string)
    : option Sv1JobValidationContext :=
  JobStore.get (job_validation_contexts d) job.

(** ** The connection *)

(** [Sv1ServerEvent], and the messages the translator sends to a miner. *)
Inductive Sv1ServerEvent : Type :=
| EvNotify (m : Notify)
| EvSetDifficulty (m : SetDifficulty)
| EvSetExtranonce (m : SetExtranonce) (notify_miner : bool)
| EvSetupComplete.

Inductive Message : Type :=
| MsgSetDifficulty (m : SetDifficulty)
| MsgSetExtranonce (m : SetExtranonce)
| MsgNotify (m : Notify)
| MsgResponse (r : Response).

(** [Downstream] with its queues: the events of the server, what was sent to
    the miner; whether the task still takes events and the connection still
    takes messages; the connection's own token. *)
Record Downstream : Type := {
  downstream_id : N;
  downstream_data : DownstreamData;
  events : list Sv1ServerEvent;
  events_open : bool;
  to_miner : list Message;
  miner_open : bool;
  downstream_cancelled : bool;
}.

Definition eta_downstream (w : Downstream) : Downstream :=
  {| downstream_id := downstream_id w; downstream_data := downstream_data w; events := events w;
     events_open := events_open w; to_miner := to_miner w; miner_open := miner_open w;
     downstream_cancelled := downstream_cancelled w |}.

Implicit Types (w : Downstream).
Definition put_data v w : Downstream := ltac:(update_field eta_downstream downstream_data v w).
Definition put_events v w : Downstream := ltac:(update_field eta_downstream events v w).
Definition put_events_open v w : Downstream := ltac:(update_field eta_downstream events_open v w).
Definition put_to_miner v w : Downstream := ltac:(update_field eta_downstream to_miner v w).
Definition put_miner_open v w : Downstream := ltac:(update_field eta_downstream miner_open v w).
Definition put_cancelled v w : Downstream :=
  ltac:(update_field eta_downstream downstream_cancelled v w).

(** [Downstream::new]. *)
Definition new_downstream (id initial : N) (rate : option Hashrate) (max_past_jobs : option nat)
    : Downstream :=
  {| downstream_id := id; downstream_data := new_data rate initial max_past_jobs; events := [];
     events_open := true; to_miner := []; miner_open := true; downstream_cancelled := false |}.

Definition downstream_handler (A : Type) : Type := prog Downstream Sv1TproxyError A.

(** [downstream_data.with]. *)
Definition with_data {A} (f : DownstreamData → A * DownstreamData) : downstream_handler A :=
  transact (λ w, let '(a, d) := f (downstream_data w) in (a, put_data d w)).
Definition update_data (f : DownstreamData → DownstreamData) : downstream_handler unit :=
  update (λ w, put_data (f (downstream_data w)) w).

(** [disconnect]. *)
Definition disconnect : downstream_handler unit := update (put_cancelled true).

(** [downstream_sv1_sender.send]. *)
Definition send_to_miner (m : Message) : downstream_handler unit :=
  w ← ask id;
  if miner_open w then update (λ w, put_to_miner (to_miner w ++ [m]) w)
  else raise (err_disconnect SenderClosed (downstream_id w)).

(** The lock section of [send_job]: what goes out before the job, or [None]
    when the miner cannot be told its new prefix. *)
Definition take_difficulty (d : DownstreamData) : DownstreamData :=
  match cached_set_difficulty d with
  | None => d
  | Some _ =>
      let d := put_cached_difficulty None d in
      let d := match pending_target d with
               | Some t => put_target t (put_pending_target None d) | None => d end in
      match pending_hashrate d with
      | Some h => put_hashrate (Some h) (put_pending_hashrate None d) | None => d end
  end.

Definition take_job_messages (now : N) (notify : Notify) (d : DownstreamData)
    : option (option (option SetDifficulty * option SetExtranonce) * DownstreamData) :=
  if bool_decide (is_Some (cached_set_extranonce d)) && negb (supports_set_extranonce d) then
    Some (None, d)
  else
    d' ← record_job_validation_context now notify (put_cached_extranonce None (take_difficulty d));
    Some (Some (cached_set_difficulty d, cached_set_extranonce d), d').

(** [send_job]. *)
Definition job_messages (difficulty : option SetDifficulty) (prefix : option SetExtranonce)
    (notify : Notify) : list Message :=
  option_list (MsgSetDifficulty <$> difficulty) ++ option_list (MsgSetExtranonce <$> prefix) ++
  [MsgNotify notify].

Definition send_job (now : N) (notify : Notify) : downstream_handler unit :=
  taken ← ask (λ w, take_job_messages now notify (downstream_data w));
  '(messages, d) ← some_or_crash taken;
  update (put_data d);;
  match messages with
  | None => disconnect
  | Some (difficulty, prefix) => for_each (job_messages difficulty prefix notify) send_to_miner
  end.

(** [enable_notification_forwarding]. *)
Definition enable_notification_forwarding (now : N) : downstream_handler unit :=
  '(enable, notify) ← with_data (λ d,
    if is_ready (session_state d) || negb (setup_complete (session_state d)) then ((false, None), d)
    else ((true, cached_notify d), put_cached_notify None d));
  if enable : bool then
    match notify with Some m => send_job now m | None => mret tt end;;
    update_data (put_session Ready)
  else mret tt.

(** The arms of [handle_sv1_server_message]. *)
Definition apply_set_extranonce (m : SetExtranonce) (notify_miner : bool) (d : DownstreamData)
    : DownstreamData :=
  let d := put_pending_extranonces (pending_set_extranonce_notifications d - 1) d in
  let d := if notify_miner then
             put_cached_extranonce (Some m)
               (put_extranonce2_len (extra_nonce2_size m) (put_extranonce1 (extra_nonce1 m) d))
           else d in
  put_cached_notify None d.

Definition handle_event (now : N) (event : Sv1ServerEvent) : downstream_handler unit :=
  match event with
  | EvSetupComplete => enable_notification_forwarding now
  | EvSetDifficulty m => update_data (put_cached_difficulty (Some m))
  | EvNotify m =>
      ready ← with_data (λ d, if is_ready (session_state d) then (true, d)
                              else (false, put_cached_notify (Some m) d));
      if ready : bool then send_job now m else mret tt
  | EvSetExtranonce m notify_miner => update_data (apply_set_extranonce m notify_miner)
  end.

(** [handle_sv1_server_message]: [recv] gives the oldest event; it fails on an
    empty queue, which it does not wait for when the server has dropped its
    sender. *)
Definition handle_sv1_server_message (now : N) : downstream_handler unit :=
  event ← transact (λ w, (head (events w), put_events (tail (events w)) w));
  w ← ask id;
  event ← some_or event (err_disconnect ReceiverClosed (downstream_id w));
  handle_event now event.

(** [Downstream::handle_error_action]. *)
Definition downstream_error_action (e : Sv1TproxyError) (t : Tokens) (w : Downstream)
    : LoopControl * Tokens * Downstream :=
  if cancelled t || fallback_cancelled t then (Continue, t, w)
  else match err_action e with
  | Log | Fallback => (Continue, t, w)
  | Disconnect _ => (Break, t, put_cancelled true w)
  | Shutdown => (Break, {| cancelled := true; fallback_cancelled := fallback_cancelled t |}, w)
  end.

(** [DownstreamIo::close], and what the task does when its loop has ended
    before it tells the server. *)
Definition close_downstream (w : Downstream) : Downstream :=
  put_events [] (put_events_open false (put_miner_open false (put_cancelled true w))).
End downstream.
