(* ===== verification/Sv1Server.v ===== *)
(** * Translator: SV1 server, state and requests
    ([miner-apps/translator/src/lib/sv1/sv1_server/mod.rs],
    [downstream_message_handler.rs], [utils.rs])

    The server keeps the connections of all miners and the tables between
    requests, channels and miners.  This file holds the state, sending, the
    implementation of [IsServer], the validation of shares and the handling
    of what miners send.  The data of a miner is shared between the server
    and the miner's task: [connections] holds it for every connection ever
    accepted, [downstreams] the ids still registered.  Locks are never
    poisoned; telemetry is left out. *)
From Stdlib Require Import Ascii.
From S2P Require Import Prelude Handler SharedMap Bitcoin Payout ShareCache ClientChannels TproxyManager JobStore Sv1Api Sv1Downstream.

Definition MAX_QUEUED_SV1_HANDSHAKE_MESSAGES : nat := 8.
Definition KEEPALIVE_JOB_ID_DELIMITER : ascii := "#"%char.

(** [StoredSv1Job]. *)
Record StoredSv1Job : Type := { stored_notify : Notify; keepalive_base_time : N }.

Definition upstream_job (n : Notify) : StoredSv1Job :=
  {| stored_notify := n; keepalive_base_time := ntf_time n |}.

(** ** Strings *)

(** [str::split_once]. *)
Fixpoint split_once (sep : ascii) (s : string) : option (string * string) :=
  match s with
  | EmptyString => None
  | String c rest =>
      if Ascii.eqb c sep then Some (EmptyString, rest)
      else '(a, b) ← split_once sep rest; Some (String c a, b)
  end.

(** [sv1_worker_name_from_sv1_username]. *)
Definition sv1_worker_name_from_sv1_username (username : string) : string :=
  match split_once "."%char username with
  | Some (_, worker) => if decide (worker = "") then username else worker
  | None => username
  end.

(** [extract_original_job_id], [is_keepalive_job_id]. *)
Definition extract_original_job_id (job : string) : option string :=
  fst <$> split_once KEEPALIVE_JOB_ID_DELIMITER job.
Definition is_keepalive_job_id (job : string) : bool :=
  bool_decide (KEEPALIVE_JOB_ID_DELIMITER ∈ String.list_ascii_of_string job).
Definition keepalive_job_id (original : string) (counter : N) : string :=
  (original +:+ String KEEPALIVE_JOB_ID_DELIMITER (pretty counter))%string.

Section server.
Context `{CC : ClientChannels} `{ST : Sv1Types} `{API : !Sv1Api CC ST}.

(** ** Validation of shares *)
Inductive Sv1ShareValidationOutcome : Type := MeetsTarget (hash : N) | DoesNotMeetTarget.

(** The header a share stands for; [None]: no merkle root. *)
Definition share_header (share : Submit) (extranonce1 : list byte) (mask : option N) (job : Notify)
    : option Header :=
  let share_version := default (ntf_version job) (version_bits share) in
  let mask := default VERSION_ROLLING_MASK mask in
  let version := N.lor (N.ldiff (ntf_version job) mask) (N.land share_version mask) in
  root ← merkle_root_from_path (coin_base1 job) (coin_base2 job) (extranonce1 ++ extra_nonce2 share)
           (merkle_branch job);
  Some {| h_version := u32_as_i32 version; h_prev_blockhash := ntf_prev_hash job;
          h_merkle_root := root; h_time := sub_time share; h_bits := ntf_bits job;
          h_nonce := sub_nonce share |}.

(** [validate_sv1_share]. *)
Definition validate_sv1_share (share : Submit) (target : N) (extranonce1 : list byte)
    (mask : option N) (job : Notify) : result Sv1ShareValidationOutcome unit :=
  match share_header share extranonce1 mask job with
  | None => Err tt
  | Some header =>
      let hash := block_hash header in
      Ok (if (hash <? target)%N then MeetsTarget hash else DoesNotMeetTarget)
  end.

(** ** State *)
Record Sv1Server : Type := {
  connections : gmap N Downstream;
  downstreams : gset N;
  sv1_server_to_downstream_sender : gset N;
  from_downstreams : list (N * json_message);
  server_open : bool;
  to_manager : list (Sv1Request * option string);
  manager_open : bool;
  miner_counter : N;
  sequence_counter : N;
  keepalive_job_id_counter : N;
  aggregated_job_mutation_time : option N;
  downstream_id_factory : N;
  request_id_factory : N;
  request_id_to_downstream_id : gmap N N;
  channel_id_to_downstream_id : gmap N N;
  vardiff : gmap N VardiffState;
  prevhashes : gmap N SetNewPrevHash;
  pending_target_updates : gmap N N;
  valid_sv1_jobs : gmap N (Sv1JobStore (T := StoredSv1Job));
}.

Definition eta_server (s : Sv1Server) : Sv1Server :=
  {| connections := connections s; downstreams := downstreams s;
     sv1_server_to_downstream_sender := sv1_server_to_downstream_sender s;
     from_downstreams := from_downstreams s; server_open := server_open s;
     to_manager := to_manager s; manager_open := manager_open s;
     miner_counter := miner_counter s; sequence_counter := sequence_counter s;
     keepalive_job_id_counter := keepalive_job_id_counter s;
     aggregated_job_mutation_time := aggregated_job_mutation_time s;
     downstream_id_factory := downstream_id_factory s;
     request_id_factory := request_id_factory s;
     request_id_to_downstream_id := request_id_to_downstream_id s;
     channel_id_to_downstream_id := channel_id_to_downstream_id s; vardiff := vardiff s;
     prevhashes := prevhashes s; pending_target_updates := pending_target_updates s;
     valid_sv1_jobs := valid_sv1_jobs s |}.

Implicit Types (s : Sv1Server).
Definition put_connections v s : Sv1Server := ltac:(update_field eta_server connections v s).
Definition put_downstreams v s : Sv1Server := ltac:(update_field eta_server downstreams v s).
Definition put_senders v s : Sv1Server :=
  ltac:(update_field eta_server sv1_server_to_downstream_sender v s).
Definition put_from_downstreams v s : Sv1Server :=
  ltac:(update_field eta_server from_downstreams v s).
Definition put_server_open v s : Sv1Server := ltac:(update_field eta_server server_open v s).
Definition put_to_manager v s : Sv1Server := ltac:(update_field eta_server to_manager v s).
Definition put_manager_open v s : Sv1Server := ltac:(update_field eta_server manager_open v s).
Definition put_miner_counter v s : Sv1Server := ltac:(update_field eta_server miner_counter v s).
Definition put_sequence_counter v s : Sv1Server :=
  ltac:(update_field eta_server sequence_counter v s).
Definition put_keepalive_counter v s : Sv1Server :=
  ltac:(update_field eta_server keepalive_job_id_counter v s).
Definition put_mutation_time v s : Sv1Server :=
  ltac:(update_field eta_server aggregated_job_mutation_time v s).
Definition put_downstream_factory v s : Sv1Server :=
  ltac:(update_field eta_server downstream_id_factory v s).
Definition put_request_factory v s : Sv1Server :=
  ltac:(update_field eta_server request_id_factory v s).
Definition put_requests v s : Sv1Server :=
  ltac:(update_field eta_server request_id_to_downstream_id v s).
Definition put_channels v s : Sv1Server :=
  ltac:(update_field eta_server channel_id_to_downstream_id v s).
Definition put_vardiff v s : Sv1Server := ltac:(update_field eta_server vardiff v s).
Definition put_prevhashes v s : Sv1Server := ltac:(update_field eta_server prevhashes v s).
Definition put_target_updates v s : Sv1Server :=
  ltac:(update_field eta_server pending_target_updates v s).
Definition put_jobs v s : Sv1Server := ltac:(update_field eta_server valid_sv1_jobs v s).

(** [Sv1Server::new]. *)
Definition new_server : Sv1Server :=
  {| connections := ∅; downstreams := ∅; sv1_server_to_downstream_sender := ∅;
     from_downstreams := []; server_open := true; to_manager := []; manager_open := true;
     miner_counter := 0; sequence_counter := 1; keepalive_job_id_counter := 0;
     aggregated_job_mutation_time := None; downstream_id_factory := 1; request_id_factory := 1;
     request_id_to_downstream_id := ∅; channel_id_to_downstream_id := ∅; vardiff := ∅;
     prevhashes := ∅; pending_target_updates := ∅; valid_sv1_jobs := ∅ |}.

Definition server_handler (A : Type) : Type := prog Sv1Server Sv1TproxyError A.

(** ** Access to connections *)

(** The lock of a connection whose handle the caller holds. *)
Definition with_connection {A} (d : N) (absent : server_handler A) (p : downstream_handler A)
    : server_handler A :=
  focus connections put_connections d absent p.

Definition not_present {A} (d : N) : server_handler A :=
  raise (err_disconnect (DownstreamNotPresent d) d).

(** [with_registered_downstream]. *)
Definition with_registered_downstream {A} (d : N) (p : downstream_handler A) : server_handler A :=
  registered ← ask (λ s, bool_decide (d ∈ downstreams s));
  if registered : bool then with_connection d (not_present d) p else not_present d.

(** [match .. { Ok(a) => k(a), Err(e) if matches!(e.kind,
    DownstreamNotPresent(_)) => absent, Err(e) => return Err(e) }]. *)
Definition if_present {A B} (p : server_handler A) (absent : server_handler B)
    (k : A → server_handler B) : server_handler B :=
  r ← attempt p;
  match r with
  | Ok a => k a
  | Err e => match err_kind e with DownstreamNotPresent _ => absent | _ => raise e end
  end.

(** ** Sending *)

(** [channel_manager_sender.send]. *)
Definition send_to_manager (m : Sv1Request) (worker : option string) : server_handler unit :=
  open ← ask manager_open;
  if open : bool then update (λ s, put_to_manager (to_manager s ++ [(m, worker)]) s)
  else raise (err_shutdown SenderClosed).

(** [sv1_server_to_downstream_sender.get_cloned]: whether there is a sender;
    [send] on it: whether the task still takes events. *)
Definition has_sender (d : N) : server_handler bool :=
  ask (λ s, bool_decide (d ∈ sv1_server_to_downstream_sender s)).
Definition send_event (d : N) (ev : Sv1ServerEvent) : server_handler bool :=
  with_connection d (mret false)
    (w ← ask id;
     if events_open w then update (λ w, put_events (events w ++ [ev]) w);; mret true
     else mret false).

(** The senders that are looked up, used and forgotten. *)
Definition notify_downstream (d : N) (m : Notify) : server_handler unit :=
  sender ← has_sender d;
  if sender : bool then send_event d (EvNotify m);; mret tt else mret tt.

(** [send_to_channel]. *)
Definition send_to_channel (ord : gset N → list N) (channel : N) (m : Notify)
    : server_handler unit :=
  if decide (channel = AGGREGATED_CHANNEL_ID) then
    ids ← ask (λ s, ord (sv1_server_to_downstream_sender s));
    for_each ids (λ d, send_event d (EvNotify m);; mret tt)
  else
    d ← ask (λ s, channel_id_to_downstream_id s !! channel);
    match d with Some d => notify_downstream d m | None => mret tt end.

(** [fetch_add(1)] of a [u32] counter. *)
Definition fetch_add (get : Sv1Server → N) (put : N → Sv1Server → Sv1Server) : server_handler N :=
  transact (λ s, (get s, put (u32_wrap (get s + 1)) s)).

(** ** The callbacks: [impl IsServer for Sv1Server] *)
Section callbacks.
Context (mode : TproxyMode).

Definition sv1_handle_configure (client_id : option N) (request : Configure)
    : server_handler (option (N * N) * option bool) :=
  d ← some_or_crash client_id;
  with_registered_downstream d (with_data (λ data,
    let mask := (λ m, N.land m VERSION_ROLLING_MASK) <$> requested_mask request in
    let min_bit := requested_min_bit_count request in
    ((Some (default 0 mask, default 0 min_bit), Some false),
     put_min_bit min_bit (put_mask mask data)))).

Definition sv1_handle_subscribe (client_id : option N) (request : Subscribe)
    : server_handler (list (string * string)) :=
  d ← some_or_crash client_id;
  mret [("mining.set_difficulty"%string, pretty d);
        ("mining.notify"%string, "ae6812eb4cd7735a302a8a9dd95cf71f"%string)].

Definition sv1_handle_authorize (client_id : option N) (request : Authorize) : server_handler bool :=
  some_or_crash client_id;;
  mret true.

(** The job of a submission, from the history its channel uses. *)
Definition submitted_job (s : Sv1Server) (channel : N) (job : string) : option Notify :=
  let key := if is_aggregated mode then AGGREGATED_CHANNEL_ID else channel in
  jobs ← valid_sv1_jobs s !! key;
  stored_notify <$> JobStore.get jobs job.

(** The second lock section of [handle_submit]. *)
Definition judge_share (d : N) (request : Submit) (job : Notify) (data : DownstreamData)
    : SubmitOutcome * DownstreamData :=
  match channel_id data with
  | None => (Rejected OtherSubmitError, data)
  | Some channel =>
      match job_validation_context data (sub_job_id request) with
      | None => (Rejected JobNotFound, data)
      | Some ctx =>
          match validate_sv1_share request (ctx_target ctx) (ctx_extranonce ctx)
                  (version_rolling_mask data) job with
          | Err _ => (Rejected OtherSubmitError, data)
          | Ok DoesNotMeetTarget => (Rejected LowDifficultyShare, data)
          | Ok (MeetsTarget hash) =>
              match insert_if_new (accepted_share_hashes data) hash with
              | (false, _) => (Rejected DuplicateShare, data)
              | (true, hashes) =>
                  (Accepted, put_pending_share
                     (Some {| ssw_channel_id := channel; ssw_downstream_id := d;
                              ssw_share := request; ssw_extranonce := ctx_extranonce ctx;
                              ssw_extranonce2_len := ctx_extranonce2_len ctx;
                              ssw_version_rolling_mask := version_rolling_mask data;
                              ssw_job_version := Some (ntf_version job) |})
                     (put_hashes hashes data))
              end
          end
      end
  end.

Definition sv1_handle_submit (client_id : option N) (request : Submit)
    : server_handler SubmitOutcome :=
  d ← some_or_crash client_id;
  channel ← with_registered_downstream d (ask (λ w, channel_id (downstream_data w)));
  match channel with
  | None => mret (Rejected OtherSubmitError)
  | Some channel =>
      job ← ask (λ s, submitted_job s channel (sub_job_id request));
      match job with
      | None => mret (Rejected JobNotFound)
      | Some job => with_registered_downstream d (with_data (judge_share d request job))
      end
  end.

Definition sv1_handle_extranonce_subscribe (client_id : option N) : server_handler unit :=
  d ← some_or_crash client_id;
  with_registered_downstream d (update_data (put_supports true)).

Definition sv1_is_authorized (client_id : option N) (name : string) : server_handler bool :=
  d ← some_or_crash client_id;
  with_registered_downstream d
    (ask (λ w, bool_decide (sv1_username (downstream_data w) = name))).

Definition sv1_authorize (client_id : option N) (name : string) : server_handler unit :=
  d ← some_or_crash client_id;
  authorized ← sv1_is_authorized client_id name;
  with_registered_downstream d (update_data (λ data,
    let data := if authorized : bool then data else put_username name data in
    put_worker_name (sv1_worker_name_from_sv1_username name) data)).

Definition read_data {A} (f : DownstreamData → A) (client_id : option N) : server_handler A :=
  d ← some_or_crash client_id;
  with_registered_downstream d (ask (λ w, f (downstream_data w))).

Definition sv1_set_version_rolling_mask (client_id : option N) (mask : option N)
    : server_handler unit :=
  d ← some_or_crash client_id;
  with_registered_downstream d (update_data (put_mask mask)).
Definition sv1_set_version_rolling_min_bit (client_id : option N) (mask : option N)
    : server_handler unit :=
  d ← some_or_crash client_id;
  with_registered_downstream d (update_data (put_min_bit mask)).

(** [notify] is not implemented; [From<sv1_api::error::Error>] is log-only. *)
Definition sv1_notify (client_id : option N) : server_handler json_message :=
  raise (err_log (SV1Error unexpected_notify)).

Definition sv1_ops : IsServer Sv1Server Sv1TproxyError :=
  {| handle_configure := sv1_handle_configure; handle_subscribe := sv1_handle_subscribe;
     handle_authorize := sv1_handle_authorize; handle_submit := sv1_handle_submit;
     handle_extranonce_subscribe := sv1_handle_extranonce_subscribe;
     is_authorized := sv1_is_authorized; authorize := sv1_authorize;
     set_extranonce1 := λ client_id _, read_data extranonce1 client_id;
     get_extranonce1 := read_data extranonce1;
     set_extranonce2_size := λ client_id _, read_data extranonce2_len client_id;
     get_extranonce2_size := read_data extranonce2_len;
     get_version_rolling_mask := read_data version_rolling_mask;
     set_version_rolling_mask := sv1_set_version_rolling_mask;
     set_version_rolling_min_bit := sv1_set_version_rolling_min_bit;
     is_notify := sv1_notify; from_sv1_error := λ e, err_log (SV1Error e) |}.
End callbacks.

(** ** Requests of miners *)
Context (mode : TproxyMode) (enable_vardiff : bool).
Context (shares_per_minute min_individual_miner_hashrate : Hashrate).
Context (downstream_extranonce2_size : N) (user_identity : option string).

(** [with_sv1_downstream_context]. *)
Definition with_sv1_downstream_context (d : N) (e : Sv1TproxyError) : Sv1TproxyError :=
  match err_kind e, err_action e with
  | SV1Error _, Log => {| err_kind := err_kind e; err_action := Disconnect d |}
  | _, _ => e
  end.

(** The upstream's job id of a share; [None]: it is not forwarded. *)
Definition upstream_share (share : Submit) : option Submit :=
  if is_keepalive_job_id (sub_job_id share) then
    job ← extract_original_job_id (sub_job_id share);
    Some {| user_name := user_name share; sub_job_id := job; extra_nonce2 := extra_nonce2 share;
            sub_time := sub_time share; sub_nonce := sub_nonce share;
            version_bits := version_bits share; sub_id := sub_id share |}
  else Some share.

(** [handle_submit_shares]. *)
Definition handle_submit_shares (m : SubmitShareWithChannelId) : server_handler unit :=
  (if enable_vardiff then
     update (λ s, put_vardiff
       (alter increment_shares_since_last_update (ssw_downstream_id m) (vardiff s)) s)
   else mret tt);;
  match ssw_job_version m with
  | None => mret tt
  | Some job_version =>
      match upstream_share (ssw_share m) with
      | None => mret tt
      | Some share =>
          sequence_number ← fetch_add sequence_counter put_sequence_counter;
          submit ← ok_or_raise
            (build_sv2_submit_shares_extended share (ssw_channel_id m) sequence_number job_version
               (ssw_version_rolling_mask m)) (λ e, err_shutdown (Translation e));
          if_present
            (with_registered_downstream (ssw_downstream_id m)
               (ask (λ w, sv1_worker_name (downstream_data w))))
            (mret tt)
            (λ worker, send_to_manager (ReqSubmitSharesExtended submit)
                         (if decide (worker = "") then None else Some worker))
      end
  end.

(** [process_sv1_message]. *)
Definition setup_request (request : Client2Server) : option Sv1SetupRequest :=
  match request with
  | ReqSubscribe _ => Some SetupSubscribe
  | ReqAuthorize _ => Some SetupAuthorize
  | _ => None
  end.

Definition record_setup (d : N) (request : Sv1SetupRequest) : server_handler unit :=
  just_completed ← with_registered_downstream d (with_data (λ data,
    let '(just_completed, st) := record_response (session_state data) request in
    (just_completed, put_session st data)));
  if just_completed : bool then
    sender ← has_sender d;
    ensure sender (err_disconnect (DownstreamNotPresent d) d);;
    sent ← send_event d EvSetupComplete;
    ensure sent (err_disconnect SenderClosed d)
  else mret tt.

Definition process_sv1_message (d : N) (request : Client2Server) : server_handler unit :=
  response ← map_err (with_sv1_downstream_context d)
               (handle_parsed_request (sv1_ops mode) (Some d) request);
  match response with
  | Some response =>
      with_registered_downstream d (send_to_miner (MsgResponse response));;
      match setup_request request with
      | Some setup => record_setup d setup
      | None => mret tt
      end
  | None => mret tt
  end;;
  share ← with_registered_downstream d
            (with_data (λ data, (pending_share data, put_pending_share None data)));
  match share with Some share => handle_submit_shares share | None => mret tt end.

(** [open_extended_mining_channel]. *)
Definition max_target_bytes : N := 2 ^ 256 - 1.

Definition open_extended_mining_channel (request_id d : N) : server_handler unit :=
  registered ← ask (λ s, bool_decide (d ∈ downstreams s));
  ensure registered (err_disconnect (DownstreamNotPresent d) d);;
  max_target ← (if enable_vardiff then
                  some_or_crash (hash_rate_to_target min_individual_miner_hashrate shares_per_minute)
                else mret max_target_bytes);
  count ← fetch_add miner_counter put_miner_counter;
  identity ← some_or_crash user_identity;
  let identity := if String.prefix "sri/" identity then identity
                  else (identity +:+ ".miner" +:+ pretty (u32_wrap (count + 1)))%string in
  m ← ok_or_raise
    (build_sv2_open_extended_mining_channel request_id identity min_individual_miner_hashrate
       max_target downstream_extranonce2_size) (λ e, err_shutdown (Translation e));
  send_to_manager (ReqOpenExtendedMiningChannel m) None.

(** [forward_pending_open_channel_request]. *)
Definition forward_pending_open_channel_request (request_id d : N) : server_handler unit :=
  r ← attempt (open_extended_mining_channel request_id d);
  match r with
  | Ok _ => mret tt
  | Err e =>
      update (λ s, put_requests (delete request_id (request_id_to_downstream_id s)) s);;
      raise e
  end.

(** [handle_open_channel_request]. *)
Definition handle_open_channel_request (d : N) : server_handler unit :=
  registered ← ask (λ s, bool_decide (d ∈ downstreams s));
  ensure registered (err_disconnect (DownstreamNotPresent d) d);;
  request_id ← fetch_add request_id_factory put_request_factory;
  update (λ s, put_requests (<[request_id := d]> (request_id_to_downstream_id s)) s);;
  forward_pending_open_channel_request request_id d.

Definition can_start (request : Client2Server) : bool :=
  match request with
  | ReqConfigure _ | ReqSubscribe _ | ReqAuthorize _ => true
  | _ => false
  end.

(** A request before the channel is open: queued, the first one opens it. *)
Definition queue_request (d : N) (request : Client2Server) : downstream_handler unit :=
  data ← ask downstream_data;
  ensure (length (queued_sv1_handshake_messages data) <? MAX_QUEUED_SV1_HANDSHAKE_MESSAGES)%nat
    (err_disconnect Sv1HandshakeMessageQueueFull d);;
  update_data (λ data, put_queued (queued_sv1_handshake_messages data ++ [request]) data).

(** [handle_downstream_message], from the decoded request on. *)
Definition dispatch_request (d : N) (channel : option N) (subscribed opening : bool)
    (request : Client2Server) : server_handler unit :=
  match subscribed, request with
  | false, ReqSubmit submit =>
      with_registered_downstream d
        (send_to_miner (MsgResponse (respond submit (Rejected NotSubscribed))))
  | _, _ =>
      match channel with
      | Some _ => process_sv1_message d request
      | None =>
          if negb opening && negb (can_start request) then
            raise (err_disconnect Sv1RequestBeforeSetup d)
          else
            with_registered_downstream d (queue_request d request);;
            if opening then mret tt else handle_open_channel_request d
      end
  end.

(** [handle_downstream_message]. *)
Definition handle_miner_message : server_handler unit :=
  received ← transact (λ s, (head (from_downstreams s),
                             put_from_downstreams (tail (from_downstreams s)) s));
  '(d, raw) ← some_or received (err_shutdown ReceiverClosed);
  if_present
    (with_registered_downstream d (ask (λ w, let data := downstream_data w in
       (channel_id data, is_subscribed (session_state data),
        negb (bool_decide (queued_sv1_handshake_messages data = []))))))
    (mret tt)
    (λ '(channel, subscribed, opening),
       request ← ok_or_raise (parse_request raw) (λ e, err_disconnect (SV1Error e) d);
       dispatch_request d channel subscribed opening request).
End server.
