(* ===== verification/Sv1Difficulty.v ===== *)
(** * Translator: difficulty manager
    ([miner-apps/translator/src/lib/sv1/sv1_server/difficulty_manager.rs] and
    the handlers without variable difficulty in [sv1_server/mod.rs])

    Every minute the server asks the difficulty control of each miner for a
    new hash rate.  The upstream hears of every change; a miner hears at once
    of a target that is easier than the upstream's, and of a harder one only
    when a [SetTarget] of the upstream has caught up with it. *)
From S2P Require Import Prelude Handler SharedMap Bitcoin ShareCache ClientChannels TproxyManager JobStore Sv1Api Sv1Downstream Sv1Server.

Section difficulty.
Context `{CC : ClientChannels} `{ST : Sv1Types} `{API : !Sv1Api CC ST}.
Context (mode : TproxyMode) (shares_per_minute : Hashrate).

(** [sv1_advertised_target_from_sv2_target(..).unwrap_or(target)]. *)
Definition advertised (t : N) : N := default t (sv1_advertised_target t).

(** [set_upstream_target], [set_pending_target], [set_pending_hashrate]. *)
Definition set_upstream_target (t : N) (d : DownstreamData) : DownstreamData :=
  put_upstream_target (Some t) d.
Definition set_pending_target (t : N) (d : DownstreamData) : DownstreamData :=
  put_pending_target (Some t) d.
Definition set_pending_hashrate (h : option Hashrate) (d : DownstreamData) : DownstreamData :=
  put_pending_hashrate h d.

(** Build [mining.set_difficulty] and queue it; a failure is only logged. *)
Definition offer_difficulty (d t : N) : server_handler unit :=
  match build_sv1_set_difficulty t with
  | Err _ => mret tt
  | Ok m =>
      sender ← has_sender d;
      if sender : bool then send_event d (EvSetDifficulty m);; mret tt else mret tt
  end.

(** ** The aggregate of all miners with an open channel *)
Inductive AggregatedSnapshot : Type :=
| Active (total_hashrate : Hashrate) (min_target : N) | NoOpenChannels | NoValidTargets.

(** The hash rate an open connection counts with. *)
Definition open_hashrate (data : DownstreamData) : rust (list Hashrate) :=
  match channel_id data with
  | None => Done []
  | Some _ =>
      h ← match pending_hashrate data with Some h => Done h | None => expect (hashrate data) end;
      Done [h]
  end.

Definition min_of (t : N) (ts : list N) : N := foldl N.min t ts.

Definition snapshot_of (rates : list Hashrate) : AggregatedSnapshot :=
  match rates with
  | [] => NoOpenChannels
  | _ =>
      match omap (λ h, (λ t, (h, t)) <$> hash_rate_to_target h shares_per_minute) rates with
      | [] => NoValidTargets
      | (h, t) :: rest =>
          Active (foldl hashrate_add (hashrate_add hashrate_zero h) rest.*1) (min_of t rest.*2)
      end
  end.

(** [aggregated_downstream_snapshot]. *)
Definition aggregated_downstream_snapshot (ord : gset N → list N)
    : server_handler AggregatedSnapshot :=
  ids ← ask (λ s, ord (downstreams s));
  rates ← collect ids (λ d, with_connection d (mret [])
    (data ← ask downstream_data; run_rust (open_hashrate data)));
  mret (snapshot_of rates).

Definition update_channel (channel : N) (rate : Hashrate) (t : N) : Sv1Request :=
  ReqUpdateChannel {| uc_channel_id := channel; uc_nominal_hash_rate := rate;
                      uc_maximum_target := t |}.

(** A change of target: the miner, its channel, its new target and hash rate. *)
Record TargetUpdate : Type := {
  tu_downstream : N; tu_channel : N; tu_target : N; tu_hashrate : Hashrate;
}.

(** [send_aggregated_update_channel]. *)
Definition send_aggregated_update_channel (ord : gset N → list N) (all_updates : list TargetUpdate)
    : server_handler unit :=
  match all_updates with
  | [] => mret tt
  | u :: _ =>
      snapshot ← aggregated_downstream_snapshot ord;
      match snapshot with
      | Active total min_target =>
          send_to_manager (update_channel (tu_channel u) total min_target) None
      | NoOpenChannels | NoValidTargets => mret tt
      end
  end.

(** [send_non_aggregated_update_channels]. *)
Definition send_non_aggregated_update_channels (all_updates : list TargetUpdate)
    : server_handler unit :=
  for_each all_updates (λ u,
    send_to_manager (update_channel (tu_channel u) (tu_hashrate u) (tu_target u)) None).

(** [send_update_channel_messages]. *)
Definition send_update_channel_messages (ord : gset N → list N) (all_updates : list TargetUpdate)
    : server_handler unit :=
  if is_aggregated mode then send_aggregated_update_channel ord all_updates
  else send_non_aggregated_update_channels all_updates.

(** [send_update_channel_on_downstream_state_change]. *)
Definition send_update_channel_on_downstream_state_change (ord : gset N → list N)
    : server_handler unit :=
  if negb (is_aggregated mode) then mret tt
  else
    snapshot ← aggregated_downstream_snapshot ord;
    match snapshot with
    | Active total min_target => send_to_manager (update_channel 0 total min_target) None
    | NoOpenChannels => send_to_manager (update_channel 0 hashrate_zero max_target_bytes) None
    | NoValidTargets => mret tt
    end.

(** ** Variable difficulty *)

(** The miner's data after a new hash rate, and after none. *)
Definition adopt_hashrate (rate : Hashrate) (t : N) (data : DownstreamData) : DownstreamData :=
  put_stable false (set_pending_hashrate (Some rate) (set_pending_target (advertised t) data)).

(** Whether a new target is announced at once. *)
Definition announce_now (t : N) (upstream : option N) : bool :=
  match upstream with Some u => (u <=? t)%N | None => true end.

(** A new hash rate of the control: what [handle_vardiff_updates] makes of it;
    [true]: announced at once. *)
Definition apply_new_hashrate (d channel : N) (upstream : option N) (rate : Hashrate)
    : server_handler (list (TargetUpdate * bool)) :=
  match hash_rate_to_target rate shares_per_minute with
  | None => mret []
  | Some t =>
      if_present (with_registered_downstream d (update_data (adopt_hashrate rate t))) (mret [])
        (λ _,
           let now := announce_now t upstream in
           update (λ s, put_target_updates
             (if now then delete d (pending_target_updates s)
              else <[d := t]> (pending_target_updates s)) s);;
           mret [({| tu_downstream := d; tu_channel := channel; tu_target := t;
                     tu_hashrate := rate |}, now)])
  end.

(** The closure over one entry of [vardiff]. *)
Definition vardiff_entry (d : N) : server_handler (list (TargetUpdate * bool)) :=
  state ← ask (λ s, vardiff s !! d);
  match state with
  | None => mret []
  | Some state =>
      if_present
        (with_registered_downstream d
           (data ← ask downstream_data;
            rate ← some_or_crash (hashrate data);
            mret (channel_id data, rate, target data, upstream_target data)))
        (mret [])
        (λ '(channel, rate, t, upstream),
           match channel with
           | None => mret []
           | Some channel =>
               let '(r, state') := try_vardiff state rate t shares_per_minute in
               update (λ s, put_vardiff (<[d := state']> (vardiff s)) s);;
               match r with
               | Ok (Some new_rate) => apply_new_hashrate d channel upstream new_rate
               | Ok None =>
                   if_present (with_registered_downstream d (update_data (put_stable true)))
                     (mret []) (λ _, mret [])
               | Err _ => mret []
               end
           end)
  end.

(** [handle_vardiff_updates]. *)
Definition handle_vardiff_updates (ord : gset N → list N) : server_handler unit :=
  ids ← ask (λ s, ord (dom (vardiff s)));
  updates ← collect ids vardiff_entry;
  match updates with
  | [] => mret tt
  | _ => send_update_channel_messages ord updates.*1
  end;;
  for_each (filter (λ u, u.2 = true) updates) (λ u,
    offer_difficulty (tu_downstream u.1) (tu_target u.1)).

(** ** [SetTarget] with variable difficulty *)

(** [get_pending_difficulty_updates]: the updates to announce, removed. *)
Definition applicable (t : N) (d : option N) (dt : N * N) : bool :=
  match d with Some d => bool_decide (dt.1 = d) | None => true end && (t <=? dt.2)%N.

Definition get_pending_difficulty_updates (ord : gset N → list N) (t : N) (d : option N)
    : server_handler (list (N * N)) :=
  transact (λ s,
    let entries := omap (λ k, (λ v, (k, v)) <$> pending_target_updates s !! k)
                     (ord (dom (pending_target_updates s))) in
    (filter (λ dt, applicable t d dt = true) entries,
     put_target_updates
       (SharedMap.retain (λ k v, negb (applicable t d (k, v))) (pending_target_updates s)) s)).

(** [send_pending_set_difficulty_messages_to_downstream]. *)
Definition send_pending_set_difficulty_messages_to_downstream (updates : list (N * N))
    : server_handler unit :=
  for_each updates (λ dt, offer_difficulty dt.1 dt.2).

(** [handle_aggregated_set_target], [handle_non_aggregated_set_target],
    [handle_set_target_message]. *)
Definition handle_aggregated_set_target (ord : gset N → list N) (t : N) : server_handler unit :=
  ids ← ask (λ s, ord (downstreams s));
  for_each ids (λ d, with_connection d (mret tt) (update_data (set_upstream_target t)));;
  updates ← get_pending_difficulty_updates ord t None;
  send_pending_set_difficulty_messages_to_downstream updates.

Definition handle_non_aggregated_set_target (ord : gset N → list N) (channel t : N)
    : server_handler unit :=
  d ← ask (λ s, channel_id_to_downstream_id s !! channel);
  match d with
  | None => mret tt
  | Some d =>
      if_present (with_registered_downstream d (update_data (set_upstream_target t))) (mret tt)
        (λ _, updates ← get_pending_difficulty_updates ord t (Some d);
              send_pending_set_difficulty_messages_to_downstream updates)
  end.

Definition handle_set_target_message (ord : gset N → list N) (channel t : N)
    : server_handler unit :=
  if is_aggregated mode then handle_aggregated_set_target ord t
  else handle_non_aggregated_set_target ord channel t.

(** ** [SetTarget] without it: the upstream's target is the miners' *)
Definition adopt_target (t : N) (derived : option Hashrate) (data : DownstreamData)
    : DownstreamData :=
  let data := set_pending_target (advertised t) (set_upstream_target t data) in
  match derived with Some h => set_pending_hashrate (Some h) data | None => data end.

(** One entry of [send_set_difficulty_to_all_downstreams]: the miners to tell. *)
Definition adopt_target_entry (t : N) (derived : option Hashrate) (d : N)
    : server_handler (list N) :=
  open ← with_connection d (mret false) (with_data (λ data,
    match channel_id data with
    | Some _ => (true, adopt_target t derived data)
    | None => (false, data)
    end));
  sender ← has_sender d;
  mret (if (open : bool) && sender then [d] else []).

Definition send_set_difficulty_to_all_downstreams (ord : gset N → list N) (t : N)
    (derived : option Hashrate) : server_handler unit :=
  ids ← ask (λ s, ord (downstreams s));
  tasks ← collect ids (adopt_target_entry t derived);
  closed ← collect tasks (λ d,
    m ← ok_or_raise (build_sv1_set_difficulty t) (λ e, err_shutdown (Translation e));
    sent ← send_event d (EvSetDifficulty m);
    mret (if sent : bool then [] else [d]));
  match closed with
  | d :: _ => raise (err_disconnect SenderClosed d)
  | [] => mret tt
  end.

(** [send_set_difficulty_to_specific_downstream]. *)
Definition downstream_disconnected : string := "downstream disconnected".

Definition send_set_difficulty_to_specific_downstream (channel t : N) (derived : option Hashrate)
    : server_handler unit :=
  d ← ask (λ s, channel_id_to_downstream_id s !! channel);
  match d with
  | None =>
      send_to_manager (ReqCloseChannel channel downstream_disconnected) None;;
      raise (err_log (DownstreamNotFoundWithChannelId channel))
  | Some d =>
      if_present (with_registered_downstream d (update_data (adopt_target t derived))) (mret tt)
        (λ _,
           m ← ok_or_raise (build_sv1_set_difficulty t) (λ e, err_shutdown (Translation e));
           sender ← has_sender d;
           if sender : bool then
             sent ← send_event d (EvSetDifficulty m);
             ensure sent (err_disconnect SenderClosed d)
           else mret tt)
  end.

(** [handle_set_target_without_vardiff]. *)
Definition handle_set_target_without_vardiff (ord : gset N → list N) (channel t : N)
    : server_handler unit :=
  let derived := hash_rate_from_target t shares_per_minute in
  if is_aggregated mode then send_set_difficulty_to_all_downstreams ord t derived
  else send_set_difficulty_to_specific_downstream channel t derived.
End difficulty.
