(* ===== verification/Sv1System.v ===== *)
(** * Translator: SV1 server, the upstream side and the running system
    ([miner-apps/translator/src/lib/sv1/sv1_server/mod.rs],
    [sv1/downstream.rs])

    The handlers of the channel manager's messages, of disconnections and of
    the keepalive loop, and the steps of the server and its miners' tasks.
    [now] is the clock at the step, in nanoseconds; the queues are unbounded,
    so a handler never waits once it has its message. *)
From Stdlib Require Import Ascii.
From S2P Require Import Prelude Handler SharedMap Bitcoin ShareCache ClientChannels TproxyManager JobStore Sv1Api Sv1Downstream Sv1Server Sv1Difficulty.

Definition MAX_FUTURE_BLOCK_TIME : N := 2 * 60 * 60.
Definition u32_max : N := 4294967295.

(** [u32::saturating_add], [Duration::from_secs], [Instant::elapsed]. *)
Definition saturating_add (a b : N) : N := N.min (a + b) u32_max.
Definition from_secs (s : N) : N := s * 1000000000.
Definition elapsed (now since : N) : N := now - since.

Section system.
Context `{CC : ClientChannels} `{ST : Sv1Types} `{API : !Sv1Api CC ST}.
Context (mode : TproxyMode) (enable_vardiff : bool).
Context (shares_per_minute min_individual_miner_hashrate : Hashrate).
Context (downstream_extranonce2_size : N) (user_identity : option string).
Context (max_past_jobs : option nat) (job_keepalive_interval_secs : N).

#[local] Notation process := (process_sv1_message mode enable_vardiff).
#[local] Notation state_change := (send_update_channel_on_downstream_state_change mode shares_per_minute).

(** [resolve_channel_id], [get_last_job]. *)
Definition resolve_channel_id (channel : N) : N :=
  if is_aggregated mode then AGGREGATED_CHANNEL_ID else channel.
Definition get_last_job (channel : N) (s : Sv1Server) : option StoredSv1Job :=
  jobs ← valid_sv1_jobs s !! resolve_channel_id channel;
  JobStore.active jobs.

(** ** Messages of the channel manager *)

Definition close_channel (channel : N) : server_handler unit :=
  send_to_manager (ReqCloseChannel channel downstream_disconnected) None.

(** A channel for the miner: the part under the miner's entry guard. *)
Definition open_data (m : OpenExtendedMiningChannelSuccess) (data : DownstreamData)
    : DownstreamData :=
  set_upstream_target (oes_target m)
    (put_channel_id (Some (oes_channel_id m))
       (put_extranonce2_len (oes_extranonce_size m)
          (put_extranonce1 (oes_extranonce_prefix m) data))).

Definition set_up_channel (m : OpenExtendedMiningChannelSuccess) (d : N)
    : server_handler (list Client2Server) :=
  queued ← with_registered_downstream d (with_data (λ data,
    (queued_sv1_handshake_messages data, put_queued [] (open_data m data))));
  update (λ s, put_channels (<[oes_channel_id m := d]> (channel_id_to_downstream_id s)) s);;
  mret queued.

(** What follows for a miner that is still there. *)
Definition start_session (ord : gset N → list N) (first_target d : N)
    (queued : list Client2Server) : server_handler unit :=
  (if enable_vardiff then update (λ s, put_vardiff (<[d := vardiff_new]> (vardiff s)) s)
   else mret tt);;
  for_each queued (process d);;
  m ← ok_or_raise (build_sv1_set_difficulty first_target) (λ e, err_shutdown (Translation e));
  sender ← has_sender d;
  (if sender : bool then
     sent ← send_event d (EvSetDifficulty m);
     ensure sent (err_disconnect SenderClosed d)
   else mret tt);;
  if is_aggregated mode && enable_vardiff then state_change ord else mret tt.

Definition handle_open_success (ord : gset N → list N) (first_target : N)
    (m : OpenExtendedMiningChannelSuccess) : server_handler unit :=
  claimed ← transact (λ s, (request_id_to_downstream_id s !! oes_request_id m,
                            put_requests (delete (oes_request_id m)
                                            (request_id_to_downstream_id s)) s));
  match claimed with
  | None =>
      routed ← ask (λ s, SharedMap.contains_key (channel_id_to_downstream_id s) (oes_channel_id m));
      (if routed : bool then mret tt else close_channel (oes_channel_id m));;
      raise (err_log (RequestIdNotFound (oes_request_id m)))
  | Some d =>
      ensure (fits_b032 (oes_extranonce_prefix m)) (err_fallback BinarySv2Error);;
      if_present (set_up_channel m d) (close_channel (oes_channel_id m))
        (start_session ord first_target d)
  end.

(** [OpenMiningChannelError]. *)
Definition handle_open_error (request_id : N) : server_handler unit :=
  claimed ← transact (λ s, (request_id_to_downstream_id s !! request_id,
                            put_requests (delete request_id (request_id_to_downstream_id s)) s));
  d ← some_or claimed (err_log (RequestIdNotFound request_id));
  raise (err_disconnect OpenChannelRejected d).

(** [store_notify]: the job becomes the active one of its history; [None]: the
    eviction loop of the store would not end. *)
Definition store_job (key : N) (job : StoredSv1Job) (resets : bool)
    (jobs : gmap N (Sv1JobStore (T := StoredSv1Job)))
    : option (gmap N (Sv1JobStore (T := StoredSv1Job))) :=
  let old := match jobs !! key with
             | Some store => store
             | None => new_store MAX_PAST_JOBS max_past_jobs
             end in
  store ← activate old (ntf_job_id (stored_notify job)) job resets;
  Some (<[key := store]> jobs).

Definition store_notify (now key : N) (m : NewExtendedMiningJob) (notify : Notify)
    : server_handler unit :=
  let broadcast := bool_decide (nj_channel_id m = AGGREGATED_CHANNEL_ID) in
  let resets := clean_jobs notify && (negb (is_aggregated mode) || broadcast) in
  jobs ← ask (λ s, store_job key (upstream_job notify) resets (valid_sv1_jobs s));
  jobs ← some_or_crash jobs;
  update (put_jobs jobs);;
  if is_aggregated mode && broadcast then update (put_mutation_time (Some now)) else mret tt.

(** A late joiner of the shared channel starts from the shared job. *)
Definition with_clean_jobs (clean : bool) (n : Notify) : Notify :=
  {| ntf_job_id := ntf_job_id n; ntf_prev_hash := ntf_prev_hash n; coin_base1 := coin_base1 n;
     coin_base2 := coin_base2 n; merkle_branch := merkle_branch n; ntf_version := ntf_version n;
     ntf_bits := ntf_bits n; ntf_time := ntf_time n; clean_jobs := clean |}.

Definition original_job_id (job : string) : string := default job (extract_original_job_id job).

Definition bootstrap (ord : gset N → list N) (m : NewExtendedMiningJob) (current : Notify)
    : server_handler unit :=
  if decide (original_job_id (ntf_job_id current) = pretty (nj_job_id m)) then
    send_to_channel ord (nj_channel_id m) (with_clean_jobs true current)
  else mret tt.

Definition handle_new_job (ord : gset N → list N) (now : N) (m : NewExtendedMiningJob)
    : server_handler unit :=
  let key := resolve_channel_id (nj_channel_id m) in
  prevhash ← ask (λ s, prevhashes s !! key);
  match prevhash with
  | None => mret tt
  | Some prevhash =>
      notify ← ok_or_raise
        (build_sv1_notify_from_sv2 prevhash m (bool_decide (nj_job_id m = snp_job_id prevhash)))
        (λ e, err_shutdown (Translation e));
      current ← ask (get_last_job AGGREGATED_CHANNEL_ID);
      let late := is_aggregated mode && negb (bool_decide (nj_channel_id m = AGGREGATED_CHANNEL_ID)) in
      match late, current with
      | true, Some current => bootstrap ord m (stored_notify current)
      | _, _ =>
          store_notify now key m notify;;
          send_to_channel ord (nj_channel_id m) notify
      end
  end.

(** [disconnect_downstream_for_upstream_close]. *)
Definition disconnect_downstream_for_upstream_close (channel : N) : server_handler unit :=
  removed ← transact (λ s, (channel_id_to_downstream_id s !! channel,
                            put_channels (delete channel (channel_id_to_downstream_id s)) s));
  match removed with
  | None => mret tt
  | Some d =>
      registered ← ask (λ s, bool_decide (d ∈ downstreams s));
      if registered : bool then
        with_connection d (mret tt)
          (update_data (λ data, if decide (channel_id data = Some channel)
                                then put_channel_id None data else data);;
           disconnect)
      else mret tt
  end.

(** [handle_upstream_extranonce_change]. *)
Definition pend_extranonce (prefix : list byte) (len : N) (data : DownstreamData)
    : bool * DownstreamData :=
  let data := put_timer None
    (put_pending_extranonces (N.min (pending_set_extranonce_notifications data + 1) u64_max) data) in
  if is_subscribed (session_state data) then (true, data)
  else (false, put_extranonce2_len len (put_extranonce1 prefix data)).

Definition handle_upstream_extranonce_change (channel : N) (prefix : list byte)
    : server_handler unit :=
  d ← ask (λ s, channel_id_to_downstream_id s !! channel);
  match d with
  | None => mret tt
  | Some d =>
      registered ← ask (λ s, bool_decide (d ∈ downstreams s));
      if negb registered then mret tt
      else
        len ← with_connection d crash (ask (λ w, extranonce2_len (downstream_data w)));
        ensure (fits_b032 prefix) (err_fallback BinarySv2Error);;
        notify_miner ← with_connection d crash (with_data (pend_extranonce prefix len));
        sender ← has_sender d;
        ensure sender (err_disconnect (DownstreamNotPresent d) d);;
        sent ← send_event d
          (EvSetExtranonce {| extra_nonce1 := prefix; extra_nonce2_size := len |} notify_miner);
        ensure sent (err_disconnect SenderClosed d)
  end.

(** [handle_upstream_message]. *)
Definition handle_upstream_message (ord : gset N → list N) (now first_target : N)
    (received : option Sv1Message) : server_handler unit :=
  m ← some_or received (err_shutdown ReceiverClosed);
  match m with
  | DownOpenSuccess m => handle_open_success ord first_target m
  | DownOpenError request_id _ => handle_open_error request_id
  | DownNewExtendedMiningJob m => handle_new_job ord now m
  | DownSetNewPrevHash m =>
      update (λ s, put_prevhashes (<[snp_channel_id m := m]> (prevhashes s)) s)
  | DownSetTarget channel t =>
      if enable_vardiff then handle_set_target_message mode ord channel t
      else handle_set_target_without_vardiff mode shares_per_minute ord channel t
  | DownCloseChannel channel _ => disconnect_downstream_for_upstream_close channel
  | DownSetExtranoncePrefix channel prefix => handle_upstream_extranonce_change channel prefix
  end.

(** ** Disconnection: [handle_downstream_disconnect] *)
Definition forget_vardiff (d : N) : server_handler unit :=
  if enable_vardiff then
    update (λ s, put_target_updates (delete d (pending_target_updates s))
                   (put_vardiff (delete d (vardiff s)) s))
  else mret tt.

(** [request_id_to_downstream_id.retain]. *)
Definition forget_requests (d : N) (requests : gmap N N) : gmap N N :=
  SharedMap.retain (λ _ id, negb (bool_decide (id = d))) requests.

Definition unregister (d : N) : server_handler bool :=
  update (λ s, put_senders (sv1_server_to_downstream_sender s ∖ {[d]}) s);;
  transact (λ s, (bool_decide (d ∈ downstreams s),
    put_requests (forget_requests d (request_id_to_downstream_id s))
      (put_downstreams (downstreams s ∖ {[d]}) s))).

Definition handle_downstream_disconnect (ord : gset N → list N) (d : N) : server_handler unit :=
  forget_vardiff d;;
  was_registered ← unregister d;
  if was_registered : bool then
    (if enable_vardiff then attempt (state_change ord);; mret tt else mret tt);;
    channel ← with_connection d (mret None) (ask (λ w, channel_id (downstream_data w)));
    match channel with
    | Some channel =>
        update (λ s, put_channels (delete channel (channel_id_to_downstream_id s)) s);;
        attempt (close_channel channel);;
        mret tt
    | None => mret tt
    end
  else mret tt.

(** ** The keepalive loop *)

(** [next_keepalive_job_id]. *)
Definition next_keepalive_job_id (original : string) : server_handler string :=
  counter ← fetch_add keepalive_job_id_counter put_keepalive_counter;
  mret (keepalive_job_id original counter).

(** The time of the next keepalive of a job. *)
Definition keepalive_time (interval : N) (job : StoredSv1Job) : N :=
  N.min (saturating_add (ntf_time (stored_notify job)) interval)
    (saturating_add (keepalive_base_time job) MAX_FUTURE_BLOCK_TIME).

Definition keepalive_notify (n : Notify) (id : string) (time : N) : Notify :=
  {| ntf_job_id := id; ntf_prev_hash := ntf_prev_hash n; coin_base1 := coin_base1 n;
     coin_base2 := coin_base2 n; merkle_branch := merkle_branch n; ntf_version := ntf_version n;
     ntf_bits := ntf_bits n; ntf_time := time; clean_jobs := false |}.

(** [create_keepalive_job]. *)
Definition create_keepalive_job (channel : N) : server_handler (option Notify) :=
  last ← ask (get_last_job channel);
  match last with
  | None => mret None
  | Some last =>
      let time := keepalive_time job_keepalive_interval_secs last in
      if decide (time = ntf_time (stored_notify last)) then mret None
      else
        id ← next_keepalive_job_id (original_job_id (ntf_job_id (stored_notify last)));
        let notify := keepalive_notify (stored_notify last) id time in
        let key := resolve_channel_id channel in
        store ← ask (λ s, valid_sv1_jobs s !! key);
        match store with
        | None => mret None
        | Some store =>
            store ← some_or_crash (activate store id
              {| stored_notify := notify; keepalive_base_time := keepalive_base_time last |} false);
            update (λ s, put_jobs (<[key := store]> (valid_sv1_jobs s)) s);;
            mret (Some notify)
        end
  end.

(** [send_keepalive_to_downstream]. *)
Definition send_keepalive_to_downstream (now d : N) (notify : Notify) : server_handler unit :=
  sender ← has_sender d;
  if negb sender then mret tt
  else
    sent ← send_event d (EvNotify notify);
    if negb sent then mret tt
    else if_present (with_registered_downstream d (update_data (put_timer (Some now)))) (mret tt)
           (λ _, mret tt).

(** The miners whose interval has elapsed, with their channels. *)
Definition keepalive_due (now interval : N) (data : DownstreamData) : option N :=
  if is_ready (session_state data) then
    last ← keepalive_timer_anchor data;
    if decide (elapsed now last < interval) then None else channel_id data
  else None.

Definition keepalive_targets (ord : gset N → list N) (now interval : N)
    : server_handler (list (N * N)) :=
  ids ← ask (λ s, ord (downstreams s));
  collect ids (λ d, with_connection d (mret []) (data ← ask downstream_data;
    mret (match keepalive_due now interval data with Some c => [(d, c)] | None => [] end))).

(** The shared job of aggregated mode: a new one at most once per interval. *)
Definition shared_keepalive (now interval : N) : server_handler (option Notify) :=
  last ← ask aggregated_job_mutation_time;
  if match last with Some t => bool_decide (elapsed now t < interval) | None => false end then
    current ← ask (get_last_job AGGREGATED_CHANNEL_ID);
    mret (job ← current;
          if is_keepalive_job_id (ntf_job_id (stored_notify job)) then Some (stored_notify job)
          else None)
  else
    notify ← create_keepalive_job AGGREGATED_CHANNEL_ID;
    match notify with
    | None => mret None
    | Some notify => update (put_mutation_time (Some now));; mret (Some notify)
    end.

(** [send_keepalive_jobs]. *)
Definition send_keepalive_jobs (ord : gset N → list N) (now : N) : server_handler unit :=
  let interval := from_secs job_keepalive_interval_secs in
  targets ← keepalive_targets ord now interval;
  match targets with
  | [] => mret tt
  | _ =>
      if is_aggregated mode then
        notify ← shared_keepalive now interval;
        match notify with
        | None => mret tt
        | Some notify => for_each targets (λ dc, send_keepalive_to_downstream now dc.1 notify)
        end
      else
        for_each targets (λ dc,
          notify ← create_keepalive_job dc.2;
          match notify with
          | Some notify => send_keepalive_to_downstream now dc.1 notify
          | None => mret tt
          end)
  end.

(** ** The server's loop *)

(** [cleanup]: the tables are emptied and the queues closed. *)
Definition cleanup (s : Sv1Server) : Sv1Server :=
  let s := put_mutation_time None (put_jobs ∅ (put_prevhashes ∅ s)) in
  let s := if enable_vardiff then put_vardiff ∅ s else s in
  let s := put_target_updates ∅ (put_requests ∅ (put_channels ∅ (put_downstreams ∅ s))) in
  put_senders ∅ (put_from_downstreams [] (put_server_open false (put_manager_open false s))).

(** [handle_error_action]; a failing clean-up cannot happen here. *)
Definition server_error_action (ord : gset N → list N) (e : Sv1TproxyError) (t : Tokens)
    (s : Sv1Server) : rust (LoopControl * Tokens * Sv1Server) :=
  if cancelled t || fallback_cancelled t then Done (Continue, t, s)
  else match err_action e with
  | Log => Done (Continue, t, s)
  | Disconnect d =>
      match handle_downstream_disconnect ord d s with
      | Done (Ok _, s) => Done (Continue, t, s)
      | Done (Err _, s) =>
          Done (Break, {| cancelled := true; fallback_cancelled := fallback_cancelled t |}, s)
      | Panic => Panic
      end
  | Fallback => Done (Break, {| cancelled := cancelled t; fallback_cancelled := true |}, s)
  | Shutdown => Done (Break, {| cancelled := true; fallback_cancelled := fallback_cancelled t |}, s)
  end.

(** A new connection: [accept] in [start]. *)
Definition accept (first_target : N) (s : Sv1Server) : Sv1Server :=
  let d := downstream_id_factory s in
  put_downstreams ({[d]} ∪ downstreams s)
    (put_connections (<[d := new_downstream d first_target (Some min_individual_miner_hashrate)
                               max_past_jobs]> (connections s))
       (put_senders ({[d]} ∪ sv1_server_to_downstream_sender s)
          (put_downstream_factory (u64_wrap (d + 1)) s))).

(** ** The system: the server's task and the tasks of its miners *)
Record Sv1System : Type := {
  sys_server : Sv1Server;
  sys_tokens : Tokens;
  sys_running : bool;
  (** The miners' tasks in their loops, and those that have left it but not
      yet told the server. *)
  sys_looping : gset N;
  sys_leaving : gset N;
}.

Definition eta_system (y : Sv1System) : Sv1System :=
  {| sys_server := sys_server y; sys_tokens := sys_tokens y; sys_running := sys_running y;
     sys_looping := sys_looping y; sys_leaving := sys_leaving y |}.
Implicit Types (y : Sv1System).
Definition put_server v y : Sv1System := ltac:(update_field eta_system sys_server v y).
Definition put_tokens v y : Sv1System := ltac:(update_field eta_system sys_tokens v y).
Definition put_running v y : Sv1System := ltac:(update_field eta_system sys_running v y).
Definition put_looping v y : Sv1System := ltac:(update_field eta_system sys_looping v y).
Definition put_leaving v y : Sv1System := ltac:(update_field eta_system sys_leaving v y).

(** The server's task after a handler: a panic ends the task where it is. *)
Definition after_server_handler (ord : gset N → list N) (y : Sv1System)
    (outcome : rust (result unit Sv1TproxyError * Sv1Server)) : Sv1System :=
  match outcome with
  | Panic => put_running false y
  | Done (Ok _, s) => put_server s y
  | Done (Err e, s) =>
      match server_error_action ord e (sys_tokens y) s with
      | Panic => put_running false (put_server s y)
      | Done (Continue, t, s) => put_tokens t (put_server s y)
      | Done (Break, t, s) => put_running false (put_tokens t (put_server (cleanup s) y))
      end
  end.

(** A miner's task after a handler; [Break] leaves the loop, which closes the
    queues of the connection. *)
Definition put_connection (d : N) (w : Downstream) (y : Sv1System) : Sv1System :=
  put_server (put_connections (<[d := w]> (connections (sys_server y))) (sys_server y)) y.

Definition leave_loop (d : N) (w : Downstream) (y : Sv1System) : Sv1System :=
  put_looping (sys_looping y ∖ {[d]}) (put_leaving ({[d]} ∪ sys_leaving y)
    (put_connection d (close_downstream w) y)).

Definition after_downstream_handler (d : N) (y : Sv1System)
    (outcome : rust (result unit Sv1TproxyError * Downstream)) : Sv1System :=
  match outcome with
  | Panic => put_looping (sys_looping y ∖ {[d]}) y
  | Done (Ok _, w) => put_connection d w y
  | Done (Err e, w) =>
      match downstream_error_action e (sys_tokens y) w with
      | (Continue, t, w) => put_tokens t (put_connection d w y)
      | (Break, t, w) => put_tokens t (leave_loop d w y)
      end
  end.

(** [Downstream::handle_downstream_message]: a message of the miner goes to the
    server's queue. *)
Definition forward_miner_message (d : N) (received : option json_message)
    : server_handler unit :=
  m ← some_or received (err_disconnect ReceiverClosed d);
  open ← ask server_open;
  if open : bool then update (λ s, put_from_downstreams (from_downstreams s ++ [(d, m)]) s)
  else raise (err_shutdown SenderClosed).

Definition after_forward (d : N) (y : Sv1System)
    (outcome : rust (result unit Sv1TproxyError * Sv1Server)) : Sv1System :=
  match outcome with
  | Panic => y
  | Done (Ok _, s) => put_server s y
  | Done (Err e, s) =>
      match connections s !! d with
      | Some w => after_downstream_handler d (put_server s y) (Done (Err e, w))
      | None => y
      end
  end.

(** [select!] is biased: the loops run while no token is cancelled; other
    tasks may cancel them at any time. *)
Definition calm_tokens (t : Tokens) : Prop := cancelled t = false ∧ fallback_cancelled t = false.

Definition clean_up_after (ord : gset N → list N) (d : N) (y : Sv1System) : Sv1System :=
  let y := put_leaving (sys_leaving y ∖ {[d]}) y in
  match handle_downstream_disconnect ord d (sys_server y) with
  | Done (Ok _, s) => put_server s y
  | Done (Err _, s) => put_tokens {| cancelled := true;
                                     fallback_cancelled := fallback_cancelled (sys_tokens y) |}
                         (put_server s y)
  | Panic => y
  end.

(** A step, with the message of the channel manager it handles.  The ids of
    connections do not wrap: fewer than 2^64 connections. *)
Inductive sv1_step (first_target : N) : option Sv1Message → Sv1System → Sv1System → Prop :=
| step_accept y :
    sys_running y = true → calm_tokens (sys_tokens y) →
    downstream_id_factory (sys_server y) + 1 < u64_modulus →
    sv1_step first_target None y
      (put_looping ({[downstream_id_factory (sys_server y)]} ∪ sys_looping y)
         (put_server (accept first_target (sys_server y)) y))
| step_miner_message y ord :
    sys_running y = true → calm_tokens (sys_tokens y) → iteration ord →
    from_downstreams (sys_server y) ≠ [] →
    sv1_step first_target None y (after_server_handler ord y
      (handle_miner_message mode enable_vardiff shares_per_minute min_individual_miner_hashrate
         downstream_extranonce2_size user_identity (sys_server y)))
| step_manager_message y ord now received :
    sys_running y = true → calm_tokens (sys_tokens y) → iteration ord →
    sv1_step first_target received y (after_server_handler ord y
      (handle_upstream_message ord now first_target received (sys_server y)))
| step_vardiff y ord :
    sys_running y = true → calm_tokens (sys_tokens y) → iteration ord → enable_vardiff = true →
    sv1_step first_target None y (after_server_handler ord y
      (handle_vardiff_updates mode shares_per_minute ord (sys_server y)))
| step_keepalive y ord now :
    sys_running y = true → calm_tokens (sys_tokens y) → iteration ord →
    0 < job_keepalive_interval_secs →
    sv1_step first_target None y (after_server_handler ord y
      (send_keepalive_jobs ord now (sys_server y)))
| step_server_exit y :
    sys_running y = true → ¬ calm_tokens (sys_tokens y) →
    sv1_step first_target None y (put_running false (put_server (cleanup (sys_server y)) y))
| step_event y d w now :
    d ∈ sys_looping y → calm_tokens (sys_tokens y) → connections (sys_server y) !! d = Some w →
    (events w ≠ [] ∨ d ∉ sv1_server_to_downstream_sender (sys_server y)) →
    sv1_step first_target None y (after_downstream_handler d y (handle_sv1_server_message now w))
| step_forward y d received :
    d ∈ sys_looping y → calm_tokens (sys_tokens y) →
    sv1_step first_target None y (after_forward d y (forward_miner_message d received (sys_server y)))
| step_downstream_exit y d w :
    d ∈ sys_looping y → ¬ calm_tokens (sys_tokens y) → connections (sys_server y) !! d = Some w →
    sv1_step first_target None y (leave_loop d w y)
| step_leave y ord d :
    d ∈ sys_leaving y → iteration ord → sv1_step first_target None y (clean_up_after ord d y)
| step_connection_closed y d w :
    connections (sys_server y) !! d = Some w →
    sv1_step first_target None y (put_connection d (put_miner_open false w) y)
| step_manager_closed y :
    sv1_step first_target None y (put_server (put_manager_open false (sys_server y)) y)
| step_sys_tokens y t :
    later (sys_tokens y) t → sv1_step first_target None y (put_tokens t y).

Definition start_system : Sv1System :=
  {| sys_server := new_server; sys_tokens := {| cancelled := false; fallback_cancelled := false |};
     sys_running := true; sys_looping := ∅; sys_leaving := ∅ |}.

(** A run with the messages it has handled, in order. *)
Definition logged_step (first_target : N) (a b : list Sv1Message * Sv1System) : Prop :=
  ∃ m, sv1_step first_target m a.2 b.2 ∧ b.1 = a.1 ++ option_list m.
Definition sv1_run (first_target : N) (h : list Sv1Message) (y : Sv1System) : Prop :=
  rtc (logged_step first_target) ([], start_system) (h, y).

Definition sv1_reachable (first_target : N) (y : Sv1System) : Prop :=
  ∃ h, sv1_run first_target h y.

(** What the run was at an earlier moment. *)
Definition earlier_in_run (first_target : N) (h0 : list Sv1Message) (y0 : Sv1System)
    (h : list Sv1Message) (y : Sv1System) : Prop :=
  sv1_run first_target h0 y0 ∧ rtc (logged_step first_target) (h0, y0) (h, y).

(** The previous hash a channel was sent last. *)
Definition prevhash_for (key : N) (m : Sv1Message) : option SetNewPrevHash :=
  match m with
  | DownSetNewPrevHash p => if decide (snp_channel_id p = key) then Some p else None
  | _ => None
  end.
Definition last_prevhash (key : N) (h : list Sv1Message) : option SetNewPrevHash :=
  last (omap (prevhash_for key) h).
End system.
