(* ===== verification/Sv1Inv.v ===== *)
(** * Translator: what holds of a miner's connection

    The invariant of one connection: responses come before jobs, a new prefix
    directly before the job that uses it, and the contexts in which shares
    are judged are those of the jobs the miner was told, with the prefix it
    was told before them. *)
From Stdlib Require Import Ascii.
From S2P Require Import Prelude Handler SharedMap Bitcoin ShareCache ClientChannels TproxyManager JobStore Sv1Api Sv1Downstream Sv1Server Sv1Difficulty Sv1System.

(** The target of new connections. *)
Class FirstTarget : Type := first_target_of : N.

(** What a run has heard of, as far as the work of a miner depends on it: the
    jobs of the upstream, each with the previous hash its channel had when it
    came, and the targets that were chosen for a miner. *)
Class Sources : Type := {
  came : NewExtendedMiningJob → SetNewPrevHash → Prop;
  chosen : N → N → Prop;
}.

Section inv.
Context `{CC : ClientChannels} `{ST : Sv1Types} `{API : !Sv1Api CC ST} `{First : FirstTarget} `{Src : Sources}.
Context (mode : TproxyMode).

(** A target the translator uses for a miner: that of new connections, or one
    it chose for this miner. *)
Definition offered (d t : N) : Prop := t = first_target_of ∨ chosen d t.

(** ** Words on what a miner was sent *)
Definition is_response (m : Message) : bool :=
  match m with MsgResponse _ => true | _ => false end.
Definition responses (l : list Message) : nat := length (filter (λ m, is_response m = true) l).

Definition prefix_of_message (m : Message) : option SetExtranonce :=
  match m with MsgSetExtranonce x => Some x | MsgResponse r => told_by r | _ => None end.
(** The prefix a miner was told last, in the response to its subscription or
    by [mining.set_extranonce]. *)
Definition last_prefix (l : list Message) : option SetExtranonce := last (omap prefix_of_message l).

(** Every new prefix is followed by a job. *)
Fixpoint paired (l : list Message) : Prop :=
  match l with
  | [] => True
  | MsgSetExtranonce _ :: rest =>
      match rest with MsgNotify _ :: _ => paired rest | _ => False end
  | _ :: rest => paired rest
  end.

(** The last job of this name in [l] came when the prefix the miner had been
    told last was [e], with [len] bytes to roll. *)
Definition told (l : list Message) (job : string) (e : list byte) (len : N) : Prop :=
  ∃ pre n post, l = pre ++ MsgNotify n :: post ∧ ntf_job_id n = job ∧
    (∀ n', MsgNotify n' ∈ post → ntf_job_id n' ≠ job) ∧
    ∃ x, last_prefix pre = Some x ∧ e = extra_nonce1 x ∧ len = extra_nonce2_size x.

(** ** Jobs made of an upstream job *)

(** [n] is the upstream's job [m] with its time rolled by at most two hours;
    [base] is the upstream's time. *)
Definition rolled_job (m : NewExtendedMiningJob) (base : N) (n : Notify) : Prop :=
  ∃ p n0, came m p ∧
    build_sv1_notify_from_sv2 p m (bool_decide (nj_job_id m = snp_job_id p)) = Ok n0 ∧
    original_job_id (ntf_job_id n) = pretty (nj_job_id m) ∧
    ntf_prev_hash n = ntf_prev_hash n0 ∧ coin_base1 n = coin_base1 n0 ∧
    coin_base2 n = coin_base2 n0 ∧ merkle_branch n = merkle_branch n0 ∧
    ntf_version n = ntf_version n0 ∧ ntf_bits n = ntf_bits n0 ∧
    base = ntf_time n0 ∧ base ≤ ntf_time n ≤ base + MAX_FUTURE_BLOCK_TIME.

Definition upstream_work (n : Notify) : Prop := ∃ m base, rolled_job m base n.

(** An entry of the job history under [key]. *)
Definition stored_ok (key : N) (p : string * StoredSv1Job) : Prop :=
  p.1 = ntf_job_id (stored_notify p.2) ∧ ntf_time (stored_notify p.2) ≤ u32_max ∧
  ∃ m, resolve_channel_id mode (nj_channel_id m) = key ∧
    rolled_job m (keepalive_base_time p.2) (stored_notify p.2).

(** A share that was judged good: by a job of its channel's history, in a
    context of the miner. *)
Record judged (x : SubmitShareWithChannelId) : Prop := {
  jd_work : ∃ job m base t hash,
    resolve_channel_id mode (nj_channel_id m) = resolve_channel_id mode (ssw_channel_id x) ∧
    rolled_job m base job ∧ ntf_job_id job = sub_job_id (ssw_share x) ∧ offered (ssw_downstream_id x) t ∧
    validate_sv1_share (ssw_share x) t (ssw_extranonce x) (ssw_version_rolling_mask x) job =
      Ok (MeetsTarget hash) ∧
    ssw_job_version x = Some (ntf_version job);
}.

(** ** The invariant *)

(** The targets of a miner: the one in force, the announced one, those in
    which its shares are judged. *)
Definition offered_pending (id : N) (d : DownstreamData) : Prop :=
  ∀ t, pending_target d = Some t → offered id t.
Definition offered_data (id : N) (d : DownstreamData) : Prop :=
  offered id (target d) ∧ offered_pending id d ∧
  ∀ job ctx, job_validation_context d job = Some ctx → offered id (ctx_target ctx).

(** The prefix the next job of a miner is checked with. *)
Definition prefix_in_use (d : DownstreamData) : SetExtranonce :=
  {| extra_nonce1 := extranonce1 d; extra_nonce2_size := extranonce2_len d |}.

Definition subscribed_n (st : Sv1SessionState) : nat :=
  match st with
  | Starting subscribed authorized => (if subscribed then 1 else 0) + (if authorized then 1 else 0)
  | Ready => 2
  end.

Record conn_ok (d : N) (w : Downstream) : Prop := {
  ok_id : downstream_id w = d;
  ok_responses : (subscribed_n (session_state (downstream_data w)) ≤ responses (to_miner w))%nat;
  ok_order : ∀ pre n post, to_miner w = pre ++ MsgNotify n :: post → (2 ≤ responses pre)%nat;
  ok_paired : paired (to_miner w);
  ok_setup : ∀ n, MsgNotify n ∈ to_miner w → setup_complete (session_state (downstream_data w)) = true;
  ok_store : ∃ h, refines (job_validation_contexts (downstream_data w)) h;
  ok_context : ∀ job ctx, job_validation_context (downstream_data w) job = Some ctx →
    miner_open w = true →
    (∃ n, MsgNotify n ∈ to_miner w ∧ ntf_job_id n = job) ∧
    (downstream_cancelled w = false →
       told (to_miner w) job (ctx_extranonce ctx) (ctx_extranonce2_len ctx));
  ok_told : miner_open w = true → downstream_cancelled w = false →
    cached_set_extranonce (downstream_data w) = None →
    is_subscribed (session_state (downstream_data w)) = true →
    last_prefix (to_miner w) = Some (prefix_in_use (downstream_data w));
  ok_untold : is_subscribed (session_state (downstream_data w)) = false →
    last_prefix (to_miner w) = None;
  ok_cached : ∀ x, cached_set_extranonce (downstream_data w) = Some x →
    is_subscribed (session_state (downstream_data w)) = true ∧
    (downstream_cancelled w = false → prefix_in_use (downstream_data w) = x);
  ok_events : ∀ x, EvSetExtranonce x true ∈ events w →
    is_subscribed (session_state (downstream_data w)) = true;
  ok_fresh : channel_id (downstream_data w) = None → downstream_cancelled w = false →
    session_state (downstream_data w) = default_session;
  ok_hashes : NoDup (accepted_share_hashes (downstream_data w)) ∧
    (0 < MAX_SEEN_SHARES → length (accepted_share_hashes (downstream_data w)) ≤ MAX_SEEN_SHARES)%nat;
  ok_queue : (length (queued_sv1_handshake_messages (downstream_data w)) ≤
              MAX_QUEUED_SV1_HANDSHAKE_MESSAGES)%nat;
  ok_notifies : ∀ n, EvNotify n ∈ events w ∨ cached_notify (downstream_data w) = Some n ∨
    MsgNotify n ∈ to_miner w → upstream_work n;
  ok_targets : offered_data d (downstream_data w);
  ok_share : ∀ x, pending_share (downstream_data w) = Some x →
    ssw_downstream_id x = d ∧ judged x ∧
    (miner_open w = true →
       ∃ n, MsgNotify n ∈ to_miner w ∧ ntf_job_id n = sub_job_id (ssw_share x));
}.

(** ** Lists of messages *)
Lemma responses_app l1 l2 : responses (l1 ++ l2) = (responses l1 + responses l2)%nat.
Proof. unfold responses. by rewrite filter_app, length_app. Qed.

Lemma last_prefix_app l1 l2 :
  last_prefix (l1 ++ l2) = match last_prefix l2 with Some x => Some x | None => last_prefix l1 end.
Proof.
  unfold last_prefix. rewrite omap_app, last_app. by destruct (last (omap _ l2)).
Qed.

Lemma paired_app l1 l2 : paired l1 → paired l2 → paired (l1 ++ l2).
Proof.
  intros H1 H2. revert H1. induction l1 as [|m l1 IH]; [done|].
  destruct m; simpl; try done. destruct l1 as [|[] l1]; simpl; try done.
Qed.

Lemma notify_split l l' pre n post :
  l ++ l' = pre ++ MsgNotify n :: post →
  (∃ post', l = pre ++ MsgNotify n :: post') ∨
  ∃ pre', pre = l ++ pre' ∧ l' = pre' ++ MsgNotify n :: post.
Proof.
  intros E. destruct (app_eq_inv _ _ _ _ E) as [(k & -> & E')|(k & -> & E')].
  - destruct k as [|m k].
    + right. exists []. rewrite !app_nil_r. by simpl in E'; subst.
    + left. exists k. simpl in E'. by simplify_eq.
  - right. by exists k.
Qed.

Lemma told_app l l' job e len :
  (∀ n, MsgNotify n ∈ l' → ntf_job_id n ≠ job) → told l job e len → told (l ++ l') job e len.
Proof.
  intros Hl' (pre & n & post & -> & Hn & Hpost & Hx). exists pre, n, (post ++ l').
  split_and!; [by rewrite <-app_assoc|done| |done].
  intros n' [?|?]%elem_of_app; [by apply Hpost|by apply Hl'].
Qed.

(** ** Updates of a connection *)

(** The parts of the data the invariant speaks of. *)
Record same_most (d d' : DownstreamData) : Prop := {
  same_session : session_state d' = session_state d;
  same_channel : channel_id d' = channel_id d;
  same_extranonce1 : extranonce1 d' = extranonce1 d;
  same_extranonce2 : extranonce2_len d' = extranonce2_len d;
  same_cached_notify : cached_notify d' = cached_notify d;
  same_cached_extranonce : cached_set_extranonce d' = cached_set_extranonce d;
  same_contexts : job_validation_contexts d' = job_validation_contexts d;
  same_hashes : accepted_share_hashes d' = accepted_share_hashes d;
  same_queue : queued_sv1_handshake_messages d' = queued_sv1_handshake_messages d;
  same_share : pending_share d' = pending_share d;
}.
Record same_core (id : N) (d d' : DownstreamData) : Prop := {
  same_all : same_most d d';
  same_target : target d' = target d;
  same_pending : offered_pending id d → offered_pending id d';
}.

Lemma conn_same d w v : conn_ok d w → same_core d (downstream_data w) v → conn_ok d (put_data v w).
Proof.
  intros [] [[] Ht Hp]. split; simpl; unfold offered_data, job_validation_context, prefix_in_use in *;
    [..|rewrite Ht, same_contexts0; naive_solver|]; by rewrite ?same_session0, ?same_channel0, ?same_extranonce3,
    ?same_extranonce4, ?same_cached_notify0, ?same_cached_extranonce0, ?same_contexts0,
    ?same_hashes0, ?same_queue0, ?same_share0.
Qed.

(** A new event. *)
Definition event_ok (w : Downstream) (ev : Sv1ServerEvent) : Prop :=
  match ev with
  | EvNotify n => upstream_work n
  | EvSetExtranonce _ true => is_subscribed (session_state (downstream_data w)) = true
  | _ => True
  end.

Lemma conn_event d w ev :
  conn_ok d w → event_ok w ev → conn_ok d (put_events (events w ++ [ev]) w).
Proof.
  intros [] Hev. split; simpl; try done.
  - intros x [?|E%list_elem_of_singleton]%elem_of_app; [by eapply ok_events0|].
    subst ev. exact Hev.
  - intros n [[Hn|E%list_elem_of_singleton]%elem_of_app|Hn];
      [apply ok_notifies0; by left|subst ev; exact Hev|apply ok_notifies0; by right].
Qed.

Lemma conn_pop d w : conn_ok d w → conn_ok d (put_events (tail (events w)) w).
Proof.
  intros []. assert (∀ ev, ev ∈ tail (events w) → ev ∈ events w) as Htl.
  { intros ev. destruct (events w); [done|]. by right. }
  split; simpl; try done.
  - intros x Hx. by eapply ok_events0, Htl.
  - intros n [Hn|Hn]; apply ok_notifies0; [left; by apply Htl|by right].
Qed.

Lemma conn_cancelled d w : conn_ok d w → conn_ok d (put_cancelled true w).
Proof.
  intros []. split; simpl; try done.
  - intros job ctx Hc Ho. split; [by apply (ok_context0 job ctx)|done].
  - intros x Hx. split; [by apply (ok_cached0 x)|done].
Qed.

Lemma conn_closed d w : conn_ok d w → conn_ok d (put_miner_open false w).
Proof.
  intros []. split; simpl; try done. intros x Hx. by destruct (ok_share0 x Hx) as (? & ? & _).
Qed.

Lemma conn_close d w : conn_ok d w → conn_ok d (close_downstream w).
Proof.
  intros Hw%conn_cancelled%conn_closed. destruct Hw. split; simpl; try done.
  - by intros x ?%not_elem_of_nil.
  - intros n [Hn%not_elem_of_nil|Hn]; [done|]. apply ok_notifies0. by right.
Qed.

Lemma last_prefix_response l r :
  last_prefix (l ++ [MsgResponse r]) = match told_by r with Some x => Some x | None => last_prefix l end.
Proof. rewrite last_prefix_app. unfold last_prefix. simpl. by destruct (told_by r). Qed.

(** An answer to the miner, with the state of the session after it. *)
Lemma conn_answered d w r st :
  conn_ok d w →
  let old := session_state (downstream_data w) in
  (subscribed_n st ≤ S (subscribed_n old))%nat →
  (is_subscribed old = true → is_subscribed st = true) →
  (setup_complete old = true → setup_complete st = true) →
  st = old ∨ channel_id (downstream_data w) ≠ None ∨ downstream_cancelled w = true →
  told_by r = None ∧ is_subscribed st = is_subscribed old ∨
  told_by r = Some (prefix_in_use (downstream_data w)) ∧ is_subscribed st = true →
  conn_ok d (put_data (put_session st (downstream_data w))
               (put_to_miner (to_miner w ++ [MsgResponse r]) w)).
Proof.
  intros [] old Hn Hs Hc Hopen Hr.
  assert (∀ n, MsgNotify n ∈ to_miner w ++ [MsgResponse r] → MsgNotify n ∈ to_miner w) as Hin.
  { intros n [?|?%list_elem_of_singleton]%elem_of_app; done. }
  assert (∀ n, MsgNotify n ∈ to_miner w → MsgNotify n ∈ to_miner w ++ [MsgResponse r]) as Hin'.
  { intros n Hnw. apply elem_of_app. by left. }
  split; simpl; try done.
  - rewrite responses_app. change (responses [MsgResponse r]) with 1%nat. unfold old in *. lia.
  - intros pre n post [(post' & E)|(pre' & -> & E)]%notify_split; [by eapply ok_order0|].
    destruct pre' as [|? []]; by simplify_eq/=.
  - by apply paired_app.
  - intros n Hnw. by eapply Hc, ok_setup0, Hin.
  - intros job ctx Hctx Ho. destruct (ok_context0 job ctx Hctx Ho) as [(n & Hnw & ?) Ht]. split.
    + exists n. auto.
    + intros Hd. apply told_app; [|by apply Ht]. intros n' E%list_elem_of_singleton. done.
  - intros Ho Hd Hcached Hsub. rewrite last_prefix_response. destruct Hr as [[-> Hsame]|[-> _]]; [|done].
    apply ok_told0; try done. unfold old in Hsame. congruence.
  - intros Hsub. rewrite last_prefix_response. destruct Hr as [[-> Hsame]|[_ Hsub']]; [|congruence].
    apply ok_untold0. unfold old in Hsame. congruence.
  - intros x Hx. destruct (ok_cached0 x Hx) as [??]. split; [by apply Hs|done].
  - intros x Hx. by eapply Hs, ok_events0.
  - intros Hnone Hlive. destruct Hopen as [->|[?|?]]; [by apply ok_fresh0|congruence..].
  - intros n [?|[?|?]]; apply ok_notifies0; auto.
  - intros x Hx. destruct (ok_share0 x Hx) as (? & ? & Ho). split_and!; [done..|].
    intros Hop. destruct (Ho Hop) as (n & ? & ?). exists n. auto.
Qed.

Lemma conn_response d w r :
  conn_ok d w → told_by r = None →
  conn_ok d (put_to_miner (to_miner w ++ [MsgResponse r]) w).
Proof.
  intros Hok Hr. pose proof (conn_answered d w r (session_state (downstream_data w)) Hok) as Hc.
  replace (put_to_miner (to_miner w ++ [MsgResponse r]) w) with
    (put_data (put_session (session_state (downstream_data w)) (downstream_data w))
       (put_to_miner (to_miner w ++ [MsgResponse r]) w)); [apply Hc; auto|].
  destruct w as [? [] ]. done.
Qed.

Lemma record_response_subscribed st req b st' :
  record_response st req = (b, st') →
  (subscribed_n st' ≤ S (subscribed_n st))%nat ∧
  (is_subscribed st = true → is_subscribed st' = true) ∧
  (setup_complete st = true → setup_complete st' = true) ∧
  is_subscribed st' = match req with SetupSubscribe => true | SetupAuthorize => is_subscribed st end.
Proof.
  destruct st as [[] []|], req; simpl; intros [= <- <-]; simpl; split_and!; (done || lia).
Qed.

(** What the answer to a set-up request tells. *)
Definition setup_tells (w : Downstream) (req : Sv1SetupRequest) (r : Response) : Prop :=
  told_by r = match req with
              | SetupSubscribe => Some (prefix_in_use (downstream_data w))
              | SetupAuthorize => None
              end.

Lemma conn_recorded d w r req b st :
  conn_ok d w → (channel_id (downstream_data w) ≠ None ∨ downstream_cancelled w = true) →
  setup_tells w req r →
  record_response (session_state (downstream_data w)) req = (b, st) →
  conn_ok d (put_data (put_session st (downstream_data w))
               (put_to_miner (to_miner w ++ [MsgResponse r]) w)).
Proof.
  intros Hok Hopen Hr (Hn & Hs & Hc & Hsub)%record_response_subscribed.
  apply conn_answered; auto. unfold setup_tells in Hr. destruct req; auto.
Qed.

(** A channel for a miner that had none. *)
Lemma conn_opened d w m :
  conn_ok d w → channel_id (downstream_data w) = None →
  conn_ok d (put_data (put_queued [] (open_data m (downstream_data w))) w).
Proof.
  intros Hok Hnone. pose proof (ok_fresh d w Hok Hnone) as Hfresh. destruct Hok.
  split; simpl; try done.
  - intros Hopen Hlive Hc Hsub. by rewrite (Hfresh Hlive) in Hsub.
  - intros x Hx. destruct (ok_cached0 x Hx) as [Hs _]. split; [done|].
    intros Hlive. by rewrite (Hfresh Hlive) in Hs.
  - lia.
Qed.

Lemma conn_upstream_closed d w c :
  conn_ok d w →
  conn_ok d (put_cancelled true (put_data (if decide (channel_id (downstream_data w) = Some c)
    then put_channel_id None (downstream_data w) else downstream_data w) w)).
Proof.
  intros Hok. case_decide.
  - apply conn_cancelled in Hok. by destruct Hok; split.
  - apply conn_cancelled. by apply conn_same.
Qed.

(** A new prefix from the upstream. *)
Lemma conn_pend d w prefix len b v :
  conn_ok d w → pend_extranonce prefix len (downstream_data w) = (b, v) →
  conn_ok d (put_data v w) ∧ (b = true → is_subscribed (session_state v) = true) ∧
  session_state v = session_state (downstream_data w).
Proof.
  intros Hok. unfold pend_extranonce. destruct (is_subscribed _) eqn:Es; simpl in Es; intros [= <- <-].
  - split_and!; [|done..]. by apply conn_same.
  - split_and!; [|done..]. destruct Hok. split; simpl; try done.
    + intros Hopen Hlive Hc Hsub. congruence.
    + intros x Hx. destruct (ok_cached0 x Hx) as [Hs _]. congruence.
Qed.

(** ** Programs over a connection *)

(** What the server's tables rely on when a connection changes. *)
Record moves (w w' : Downstream) : Prop := {
  mv_sent : to_miner w `prefix_of` to_miner w';
  mv_channel : channel_id (downstream_data w') = channel_id (downstream_data w);
  mv_queue : queued_sv1_handshake_messages (downstream_data w) ≠ [] →
    queued_sv1_handshake_messages (downstream_data w') ≠ [];
  mv_cancelled : downstream_cancelled w = true → downstream_cancelled w' = true;
  mv_closed : miner_open w = false → miner_open w' = false;
}.

#[export] Instance moves_preorder : PreOrder moves.
Proof.
  split; [by split|]. intros w1 w2 w3 [] []. split; [by etrans|congruence|by auto..].
Qed.

Definition keeps_conn (d : N) (w w' : Downstream) : Prop :=
  moves w w' ∧ (conn_ok d w → conn_ok d w').

#[export] Instance keeps_conn_preorder d : PreOrder (keeps_conn d).
Proof. split; [by split|]. intros ??? [] []. split; [by etrans|auto]. Qed.

Lemma sv1_keeps_same d w v : same_core d (downstream_data w) v → keeps_conn d w (put_data v w).
Proof.
  intros Hs. split; [|intros; by apply conn_same]. destruct Hs as [[] _ _]. split; simpl; try done.
  by rewrite same_queue0.
Qed.

Lemma evolves_with_data {A} d (f : DownstreamData → A * DownstreamData) :
  (∀ v, same_core d v (f v).2) → evolves (keeps_conn d) (with_data f).
Proof.
  intros Hf. apply evolves_transact. intros w. specialize (Hf (downstream_data w)).
  destruct (f _) as [a v]. by apply sv1_keeps_same.
Qed.

Lemma evolves_update_data d (f : DownstreamData → DownstreamData) :
  (∀ v, same_core d v (f v)) → evolves (keeps_conn d) (update_data f).
Proof. intros Hf. apply evolves_update. intros w. by apply sv1_keeps_same. Qed.

Lemma evolves_response d r :
  told_by r = None → evolves (keeps_conn d) (send_to_miner (MsgResponse r)).
Proof.
  intros Hr. unfold send_to_miner. repeat evolve_rule. apply evolves_update. intros w.
  split; [|intros; by apply conn_response]. split; simpl; try done. by apply prefix_app_r.
Qed.

Lemma wp_queue_request d w r :
  conn_ok d w →
  wp (queue_request d r) (λ res w', conn_ok d w' ∧ moves w w' ∧
    downstream_cancelled w' = downstream_cancelled w ∧
    (res = Ok tt → queued_sv1_handshake_messages (downstream_data w') ≠ [])) w.
Proof.
  intros Hok. unfold queue_request. repeat wp_rule; [|done].
  apply Nat.ltb_lt in H. split_and!; simpl.
  - destruct Hok. split; simpl; try done. rewrite length_app. simpl. lia.
  - split; simpl; try done. intros _ ?%app_nil. naive_solver.
  - done.
  - intros _ ?%app_nil. naive_solver.
Qed.

(** ** The task of the miner *)

(** The jobs of a store after an activation are the new one and old ones. *)
Lemma spec_get_sublist {T} (l h : list (string * T)) job x :
  NoDup h.*1 → l `sublist_of` h → spec_get l job = Some x → spec_get h job = Some x.
Proof.
  intros Hnd Hsub. rewrite !spec_get_map. intros Hl.
  apply elem_of_list_to_map_2 in Hl. apply elem_of_list_to_map_1; [done|].
  by eapply elem_of_sublist.
Qed.

Lemma activate_get {T} (st : Sv1JobStore (T := T)) id j clean :
  (∃ h, refines st h) →
  ∃ st', activate st id j clean = Some st' ∧ (∃ h, refines st' h) ∧
    ∀ job x, JobStore.get st' job = Some x →
      if decide (job = id) then x = j else JobStore.get st job = Some x.
Proof.
  intros [h Hh]. destruct (activate_refines st h id j clean Hh) as (st' & Est & Hst' & _).
  exists st'. split_and!; [done|by eexists|]. intros job x.
  rewrite (refines_get _ _ _ Hst'), (refines_get _ _ _ Hh). unfold spec_activate.
  destruct Hh as (pl & _ & _ & Hnd & _). destruct clean; rewrite spec_get_cons; simpl.
  - case_decide; [subst; rewrite decide_True by done; by intros [= ->]|done].
  - case_decide; [subst; rewrite decide_True by done; by intros [= ->]|].
    rewrite decide_False by done. apply spec_get_sublist; [done|].
    etrans; [apply sublist_take|apply sublist_filter].
Qed.

(** What the lock section of [send_job] leaves, before anything is sent. *)
Lemma take_difficulty_most d : same_most d (take_difficulty d).
Proof.
  unfold take_difficulty. destruct (cached_set_difficulty d); [|by split].
  simpl. destruct (pending_target d); simpl; destruct (pending_hashrate d); by split.
Qed.

Lemma take_difficulty_targets id d : offered_data id d → offered_data id (take_difficulty d).
Proof.
  unfold offered_data, offered_pending, take_difficulty, job_validation_context.
  destruct (cached_set_difficulty d); [|done]. simpl. intros (Ht & Hp & Hc).
  destruct (pending_target d) as [t|] eqn:Et; simpl; destruct (pending_hashrate d); simpl; rewrite ?Et;
    split_and!; auto; done.
Qed.

Lemma record_context now n d :
  (∃ h, refines (job_validation_contexts d) h) →
  ∃ d' contexts, record_job_validation_context now n d = Some d' ∧
    (∀ id, same_core id (put_contexts contexts (put_hashes (accepted_share_hashes d') d)) d') ∧
    (accepted_share_hashes d' = [] ∨ accepted_share_hashes d' = accepted_share_hashes d) ∧
    (∃ h, refines contexts h) ∧
    ∀ job ctx, JobStore.get contexts job = Some ctx →
      if decide (job = ntf_job_id n)
      then ctx_extranonce ctx = extranonce1 d ∧ ctx_extranonce2_len ctx = extranonce2_len d ∧
           ctx_target ctx = target d
      else job_validation_context d job = Some ctx.
Proof.
  intros Hst. unfold record_job_validation_context.
  set (ctx0 := {| ctx_extranonce := extranonce1 d; ctx_extranonce2_len := extranonce2_len d;
                  ctx_target := target d |}).
  destruct (activate_get _ (ntf_job_id n) ctx0 (clean_jobs n) Hst) as (st' & Est & Hst' & Hget).
  unfold ctx0 in *. destruct (clean_jobs n); cbv zeta;
    cbn [put_hashes job_validation_contexts extranonce1 extranonce2_len target];
    rewrite Est; simpl;
    (eexists _, st'; split; [done|]; split; [intros; case_decide; by split|]; split;
     [case_decide; auto|]; split; [done|]).
  all: intros job ctx Hc; apply Hget in Hc; case_decide; by simplify_eq/=.
Qed.

(** Sending a job that may be sent. *)
Lemma job_messages_split diff px n :
  ∃ pre, job_messages diff px n = pre ++ [MsgNotify n] ∧ responses pre = 0%nat ∧
    (∀ n', MsgNotify n' ∉ pre) ∧ last_prefix pre = px.
Proof.
  exists (option_list (MsgSetDifficulty <$> diff) ++ option_list (MsgSetExtranonce <$> px)).
  split; [unfold job_messages; by rewrite app_assoc|]. destruct diff, px; simpl.
  all: split_and!; [done|set_solver|done].
Qed.

Lemma wp_send_all d ms w (Q : result unit Sv1TproxyError → Downstream → Prop) :
  downstream_id w = d →
  (miner_open w = true → Q (Ok tt) (put_to_miner (to_miner w ++ ms) w)) →
  (miner_open w = false → ∀ e, Q (Err e) w) →
  ms ≠ [] → wp (for_each ms send_to_miner) Q w.
Proof.
  intros _ Hok Herr Hne. destruct (miner_open w) eqn:Eo.
  - specialize (Hok eq_refl). clear Herr Hne. revert w Eo Hok.
    induction ms as [|m ms IH]; intros w Eo Hok; simpl.
    + apply wp_ret. rewrite app_nil_r in Hok. by destruct w.
    + apply wp_bind. unfold send_to_miner at 1. apply wp_bind, wp_ask. simpl. rewrite Eo.
      apply wp_update. simpl. apply IH; [done|]. simpl. by rewrite <-app_assoc.
  - destruct ms as [|m ms]; [done|]. simpl. apply wp_bind. unfold send_to_miner at 1.
    apply wp_bind, wp_ask. simpl. rewrite Eo. apply wp_raise. simpl. by apply Herr.
Qed.

(** The data after a job was recorded: all but the contexts, the accepted
    hashes and the cached prefix is as before. *)
Record recorded (d d' : DownstreamData) (n : Notify) : Prop := {
  rec_session : session_state d' = session_state d;
  rec_channel : channel_id d' = channel_id d;
  rec_extranonce1 : extranonce1 d' = extranonce1 d;
  rec_extranonce2 : extranonce2_len d' = extranonce2_len d;
  rec_notify : cached_notify d' = cached_notify d;
  rec_prefix : cached_set_extranonce d' = None;
  rec_queue : queued_sv1_handshake_messages d' = queued_sv1_handshake_messages d;
  rec_share : pending_share d' = pending_share d;
  rec_targets : ∀ id, offered_data id d → offered_data id d';
  rec_hashes : accepted_share_hashes d' = [] ∨ accepted_share_hashes d' = accepted_share_hashes d;
  rec_store : ∃ h, refines (job_validation_contexts d') h;
  rec_contexts : ∀ job ctx, job_validation_context d' job = Some ctx →
    if decide (job = ntf_job_id n)
    then ctx_extranonce ctx = extranonce1 d ∧ ctx_extranonce2_len ctx = extranonce2_len d
    else job_validation_context d job = Some ctx;
}.

Lemma take_job_cases now n d :
  (∃ h, refines (job_validation_contexts d) h) →
  take_job_messages now n d = Some (None, d) ∨
  ∃ d', take_job_messages now n d = Some (Some (cached_set_difficulty d, cached_set_extranonce d), d')
    ∧ recorded d d' n.
Proof.
  intros Hst. unfold take_job_messages. destruct (bool_decide _ && _); [by left|right].
  destruct (take_difficulty_most d). set (t := put_cached_extranonce None (take_difficulty d)).
  destruct (record_context now n t) as (d' & contexts & -> & Hcore & Hh & Hst' & Hget).
  { simpl. by rewrite same_contexts0. }
  exists d'. split; [done|]. destruct (Hcore 0) as [[] Ht _]. simpl in *.
  split; try congruence.
  - intros id (Ht0 & Hp0 & Hc0)%take_difficulty_targets. pose proof (same_pending _ _ _ (Hcore id)) as Hp. unfold offered_data, job_validation_context in *.
    rewrite Ht, same_contexts1. split_and!; [done|by apply Hp|]. intros job ctx Hc.
    specialize (Hget job ctx Hc). case_decide; [by destruct Hget as (_ & _ & ->)|by eapply Hc0].
  - by rewrite same_contexts1.
  - intros job ctx. unfold job_validation_context in *. rewrite same_contexts1.
    intros Hc. specialize (Hget job ctx Hc). simpl in Hget. case_decide; [|congruence].
    rewrite <-same_extranonce3, <-same_extranonce4. by destruct Hget as (? & ? & _).
Qed.

Lemma conn_sent d w d' n diff :
  conn_ok d w → upstream_work n → setup_complete (session_state (downstream_data w)) = true →
  recorded (downstream_data w) d' n →
  let ms := job_messages diff (cached_set_extranonce (downstream_data w)) n in
  conn_ok d (put_to_miner (to_miner w ++ ms) (put_data d' w)).
Proof.
  intros [] Hn Hset [] ms.
  destruct (job_messages_split diff (cached_set_extranonce (downstream_data w)) n)
    as (pre0 & Ems & Hpre0 & Hnon & Hlp). fold ms in Ems.
  assert (2 ≤ responses (to_miner w))%nat as Htwo.
  { destruct (session_state _) as [[] []|]; simpl in *; try done; lia. }
  assert (∀ n', MsgNotify n' ∈ ms → n' = n) as Hms.
  { intros n'. rewrite Ems. intros [?|E%list_elem_of_singleton]%elem_of_app; [by edestruct Hnon|].
    by injection E. }
  assert (MsgNotify n ∈ ms) as Hin. { rewrite Ems. apply elem_of_app. right. by left. }
  assert (last_prefix (to_miner w ++ ms) = match cached_set_extranonce (downstream_data w) with
    | Some x => Some x | None => last_prefix (to_miner w) end) as Hlast.
  { rewrite last_prefix_app. rewrite Ems, last_prefix_app, Hlp. done. }
  assert (is_subscribed (session_state (downstream_data w)) = true) as Hsub.
  { by destruct (session_state _) as [[] []|]. }
  assert (miner_open w = true → downstream_cancelled w = false →
    last_prefix (to_miner w ++ pre0) = Some (prefix_in_use (downstream_data w))) as Hnew.
  { intros Ho Hlive. rewrite last_prefix_app, Hlp.
    destruct (cached_set_extranonce _) as [y|] eqn:Ec; [|by apply ok_told0].
    f_equal. symmetry. by apply (ok_cached0 y). }
  split; simpl; unfold prefix_in_use in *; simpl in *; rewrite ?rec_session0, ?rec_channel0, ?rec_extranonce3, ?rec_extranonce4,
    ?rec_notify0, ?rec_prefix0, ?rec_queue0, ?rec_share0; try done.
  - rewrite responses_app. lia.
  - intros pre n' post [(post' & E)|(pre' & -> & E)]%notify_split; [by eapply ok_order0|].
    rewrite responses_app. lia.
  - apply paired_app; [done|]. unfold ms, job_messages. destruct diff, (cached_set_extranonce _); done.
  - intros job ctx Hc Ho. specialize (rec_contexts0 job ctx Hc). case_decide as Hj.
    + destruct rec_contexts0 as [-> ->]. split; [exists n; split; [apply elem_of_app; by right|done]|].
      intros Hlive. exists (to_miner w ++ pre0), n, []. split_and!.
      * by rewrite Ems, app_assoc.
      * done.
      * by intros n' ?%not_elem_of_nil.
      * eexists. by split; [apply Hnew|].
    + destruct (ok_context0 job ctx rec_contexts0 Ho) as [(n' & ? & ?) Ht]. split.
      * exists n'. split; [apply elem_of_app; by left|done].
      * intros Hlive. apply told_app; [|by apply Ht]. intros n'' ->%Hms. done.
  - intros Ho Hlive _ _. rewrite Hlast, <-(Hnew Ho Hlive), last_prefix_app, Hlp. done.
  - congruence.
  - destruct ok_hashes0. destruct rec_hashes0 as [->| ->]; [|done].
    split; [apply NoDup_nil_2|simpl; lia].
  - intros n' [?|[?|[?| ->%Hms]%elem_of_app]]; [auto..|done].
  - by apply rec_targets0.
  - intros x Hx. destruct (ok_share0 x Hx) as (? & ? & Ho). split_and!; [done..|].
    intros Hopen. destruct (Ho Hopen) as (n' & ? & ?). exists n'. split; [|done].
    apply elem_of_app. by left.
Qed.

(** Nothing is sent on a closed connection. *)
Lemma conn_unsent d w d' n :
  conn_ok d w → miner_open w = false → recorded (downstream_data w) d' n →
  conn_ok d (put_data d' w).
Proof.
  intros [] Ho [].
  split; simpl; unfold prefix_in_use in *; simpl in *; rewrite ?rec_session0, ?rec_channel0, ?rec_extranonce3, ?rec_extranonce4,
    ?rec_notify0, ?rec_prefix0, ?rec_queue0, ?rec_share0; try done; try congruence; [|by auto].
  destruct ok_hashes0. destruct rec_hashes0 as [->| ->]; [|done].
  split; [apply NoDup_nil_2|simpl; lia].
Qed.

Lemma put_data_same w : put_data (downstream_data w) w = w.
Proof. by destruct w. Qed.

Definition job_done (d : N) (w w' : Downstream) : Prop :=
  conn_ok d w' ∧ moves w w' ∧ session_state (downstream_data w') = session_state (downstream_data w).

Lemma wp_send_job d now n w :
  conn_ok d w → upstream_work n → setup_complete (session_state (downstream_data w)) = true →
  wp (send_job now n) (λ _, job_done d w) w.
Proof.
  intros Hok Hn Hset. unfold send_job. apply wp_bind, wp_ask. cbn [andthen].
  destruct (take_job_cases now n _ (ok_store d w Hok)) as [E|(d' & E & Hrec)];
    rewrite E; apply wp_bind, wp_some_or_crash; intros a [= <-]; repeat wp_rule.
  - rewrite put_data_same. split_and!; [by apply conn_cancelled|by split|done].
  - assert (moves w (put_data d' w)) as Hmv. { destruct Hrec. split; simpl; congruence || done. }
    apply (wp_send_all d); simpl.
    + apply (ok_id d w Hok).
    + intros Ho. split_and!; [by apply conn_sent| |apply (rec_session _ _ _ Hrec)].
      etrans; [exact Hmv|]. split; simpl; try done. by apply prefix_app_r.
    + intros Ho e. split_and!; [by eapply conn_unsent|done|apply (rec_session _ _ _ Hrec)].
    + unfold job_messages. intros [_ [_ ?]%app_nil]%app_nil. done.
Qed.

Lemma conn_uncached d w : conn_ok d w → conn_ok d (put_data (put_cached_notify None (downstream_data w)) w).
Proof.
  intros []. split; simpl; try done. intros n [?|[?|?]]; [auto|done|auto].
Qed.

Lemma conn_ready d w :
  conn_ok d w → setup_complete (session_state (downstream_data w)) = true →
  (channel_id (downstream_data w) ≠ None ∨ downstream_cancelled w = true) →
  conn_ok d (put_data (put_session Ready (downstream_data w)) w).
Proof.
  intros [] Hset Hopen. split; simpl; try done.
  - destruct (session_state _) as [[] []|]; simpl in *; try done; lia.
  - intros Ho Hlive Hc _. apply ok_told0; [done..|]. by destruct (session_state _) as [[] []|].
  - intros x Hx. split; [done|]. by apply (ok_cached0 x).
  - intros Hnone Hlive. destruct Hopen; congruence.
Qed.

(** Set-up is complete only on a connection that has, or had, a channel. *)
Lemma complete_opened d w :
  conn_ok d w → setup_complete (session_state (downstream_data w)) = true →
  channel_id (downstream_data w) ≠ None ∨ downstream_cancelled w = true.
Proof.
  intros Hok Hset. destruct (channel_id (downstream_data w)) eqn:Ec; [by left|].
  destruct (downstream_cancelled w) eqn:Ed; [by right|].
  by rewrite (ok_fresh d w Hok Ec Ed) in Hset.
Qed.

Lemma wp_enable d now w :
  conn_ok d w → wp (enable_notification_forwarding now) (λ _ w', conn_ok d w' ∧ moves w w') w.
Proof.
  intros Hok. unfold enable_notification_forwarding. apply wp_bind. unfold with_data.
  apply wp_transact. intros [enable notify] w1 E. cbn [andthen].
  destruct (is_ready _ || _) eqn:Ew; simplify_eq/=.
  { apply wp_ret. by rewrite put_data_same. }
  apply orb_false_iff in Ew as [_ Hset%negb_false_iff].
  assert (conn_ok d (put_data (put_cached_notify None (downstream_data w)) w)) as Hok1
    by by apply conn_uncached.
  apply wp_bind. eapply (wp_mono _ (λ _, job_done d (put_data
    (put_cached_notify None (downstream_data w)) w))).
  2: { destruct (cached_notify (downstream_data w)) as [n|] eqn:En; [|apply wp_ret; by split].
       apply wp_send_job; [done| |done]. apply (ok_notifies d w Hok). auto. }
  intros [[]|e] w2 (Hok2 & Hmv & Hs); simpl.
  - apply wp_update. split.
    + apply conn_ready; [done|by rewrite Hs|]. eapply complete_opened; [done|by rewrite Hs].
    + etrans; [|etrans; [exact Hmv|by split]]. by split.
  - split; [done|]. etrans; [|exact Hmv]. by split.
Qed.

Lemma conn_new_prefix d w m notify_miner :
  conn_ok d w → (notify_miner = true → is_subscribed (session_state (downstream_data w)) = true) →
  conn_ok d (put_data (apply_set_extranonce m notify_miner (downstream_data w)) w).
Proof.
  intros [] Hs. destruct notify_miner; split; simpl; try done.
  - intros x [= <-]. split; [by apply Hs|]. by destruct m.
  - intros n [?|[?|?]]; [auto|done|auto].
  - intros n [?|[?|?]]; [auto|done|auto].
Qed.

(** A round of the miner's task keeps the invariant. *)
Lemma wp_handle_event d now ev w :
  conn_ok d w → event_ok w ev → wp (handle_event now ev) (λ _ w', conn_ok d w' ∧ moves w w') w.
Proof.
  intros Hok Hev. destruct ev as [n|m|m notify_miner|]; simpl.
  - apply wp_bind. unfold with_data. apply wp_transact. intros ready w1 E.
    destruct (is_ready _) eqn:Er; simplify_eq/=.
    + rewrite put_data_same. eapply wp_mono; [|apply wp_send_job; [done..|]].
      * by intros r w' (? & ? & _).
      * apply bool_decide_eq_true in Er. by rewrite Er.
    + apply wp_ret. split; [|by split]. destruct Hok. split; simpl; try done.
      intros n' [?|[[= <-]|?]]; auto.
  - apply wp_update. apply conn_same with (v := put_cached_difficulty (Some m) (downstream_data w)) in Hok;
      [|by split]. split; [done|by split].
  - apply wp_update. split.
    + apply conn_new_prefix; [done|]. intros ->. exact Hev.
    + destruct notify_miner; by split.
  - by apply wp_enable.
Qed.

Lemma wp_round d now w :
  conn_ok d w → wp (handle_sv1_server_message now) (λ _ w', conn_ok d w' ∧ moves w w') w.
Proof.
  intros Hok. unfold handle_sv1_server_message. repeat wp_rule; simplify_eq/=.
  - eapply wp_mono; [|apply wp_handle_event; [by apply conn_pop|]].
    + intros r w' [? Hmv]. split; [done|]. etrans; [|exact Hmv]. by split.
    + destruct (events w) as [|ev evs] eqn:Ee; simplify_eq/=.
      match goal with |- event_ok _ ?ev => destruct ev as [n|m|m []|]; try done end.
      * apply (ok_notifies d w Hok). left. rewrite Ee. by left.
      * apply (ok_events d w Hok m). rewrite Ee. by left.
  - split; [by apply conn_pop|by split].
Qed.
End inv.
