(* ===== verification/Sv1Keeps.v ===== *)
(** * Translator: the SV1 server keeps its invariant

    The invariant of the server: its miners' connections, its tables, its
    histories of jobs and the shares it has forwarded; and that the handlers
    for miners' requests keep it. *)
From Stdlib Require Import Ascii.
From S2P Require Import Prelude Handler SharedMap Bitcoin ShareCache ClientChannels TproxyManager JobStore Sv1Api Sv1Downstream Sv1Server Sv1Difficulty Sv1System Sv1Inv.

Section keeps.
Context `{CC : ClientChannels} `{ST : Sv1Types} `{API : !Sv1Api CC ST} `{First : FirstTarget} `{Src : Sources}.
Context (mode : TproxyMode) (enable_vardiff : bool).

(** ** The invariant *)
Definition conns_ok (cs : gmap N Downstream) : Prop := map_Forall (conn_ok mode) cs.

Record tables_ok (cs : gmap N Downstream) (ds senders : gset N) (reqs chans : gmap N N)
    (vd : gmap N VardiffState) (upd : gmap N N) : Prop := {
  tb_registered : ds ⊆ dom cs;
  tb_senders : senders = ds;
  tb_requests : ∀ r d, reqs !! r = Some d → d ∈ ds ∧ ∃ w, cs !! d = Some w ∧
    channel_id (downstream_data w) = None ∧
    queued_sv1_handshake_messages (downstream_data w) ≠ [];
  tb_unique : ∀ r r' d, reqs !! r = Some d → reqs !! r' = Some d → r = r';
  tb_channels : ∀ c d, chans !! c = Some d → d ∈ ds ∧ ∃ w, cs !! d = Some w ∧
    channel_id (downstream_data w) = Some c;
  tb_vardiff : dom vd ⊆ ds;
  tb_updates : dom upd ⊆ dom vd;
  tb_disabled : enable_vardiff = false → vd = ∅;
}.

Definition jobs_ok (jobs : gmap N (Sv1JobStore (T := StoredSv1Job))) : Prop :=
  ∀ key store, jobs !! key = Some store → ∃ h, refines store h ∧ Forall (stored_ok mode key) h.

(** A share the server may forward: judged good, by a job its miner was told
    (unless the connection was closed). *)
Definition good_share (cs : gmap N Downstream) (x : SubmitShareWithChannelId) : Prop :=
  judged mode x ∧ ∃ w, cs !! ssw_downstream_id x = Some w ∧
    (miner_open w = true →
       ∃ n, MsgNotify n ∈ to_miner w ∧ ntf_job_id n = sub_job_id (ssw_share x)).

Definition forwarded (cs : gmap N Downstream) (m : SubmitSharesExtended) : Prop :=
  ∃ x share seq version, good_share cs x ∧ upstream_share (ssw_share x) = Some share ∧
    ssw_job_version x = Some version ∧
    build_sv2_submit_shares_extended share (ssw_channel_id x) seq version
      (ssw_version_rolling_mask x) = Ok m.

Definition log_ok (cs : gmap N Downstream) (log : list (Sv1Request * option string)) : Prop :=
  ∀ m worker, (ReqSubmitSharesExtended m, worker) ∈ log → forwarded cs m.

Record server_ok (s : Sv1Server) : Prop := {
  sv_conns : conns_ok (connections s);
  sv_tables : tables_ok (connections s) (downstreams s) (sv1_server_to_downstream_sender s)
    (request_id_to_downstream_id s) (channel_id_to_downstream_id s) (vardiff s)
    (pending_target_updates s);
  sv_jobs : jobs_ok (valid_sv1_jobs s);
  sv_log : log_ok (connections s) (to_manager s);
  sv_ids : ∀ d, is_Some (connections s !! d) → d < downstream_id_factory s;
}.

(** A connection that has, or had, a channel. *)
Definition opened (w : Downstream) : Prop :=
  channel_id (downstream_data w) ≠ None ∨ downstream_cancelled w = true.

Definition moved (cs cs' : gmap N Downstream) : Prop :=
  ∀ d w, cs !! d = Some w → ∃ w', cs' !! d = Some w' ∧ (opened w → opened w') ∧
    to_miner w `prefix_of` to_miner w' ∧ (miner_open w = false → miner_open w' = false).

(** What a handler does that neither registers nor unregisters a miner, nor
    takes a previous hash. *)
Definition moved_server (s s' : Sv1Server) : Prop :=
  moved (connections s) (connections s') ∧ downstreams s' = downstreams s ∧
  prevhashes s' = prevhashes s.
Definition evo (s s' : Sv1Server) : Prop := server_ok s → server_ok s' ∧ moved_server s s'.

#[export] Instance moved_preorder : PreOrder moved.
Proof.
  split; [intros cs d w Hw; by exists w|]. intros cs1 cs2 cs3 H12 H23 d w Hw.
  destruct (H12 d w Hw) as (w2 & Hw2 & ? & ? & ?).
  destruct (H23 d w2 Hw2) as (w3 & ? & ? & ? & ?). exists w3. split_and!; [done|auto|by etrans|auto].
Qed.
#[export] Instance moved_server_preorder : PreOrder moved_server.
Proof.
  split; [intros s; by split|]. intros s1 s2 s3 (? & ? & ?) (? & ? & ?).
  split_and!; [by etrans|congruence..].
Qed.
#[export] Instance evo_preorder : PreOrder evo.
Proof.
  split; [by intros s Hs; split|]. intros s1 s2 s3 H12 H23 [Hs2 ?]%H12.
  destruct (H23 Hs2). split; [done|by etrans].
Qed.

(** What a handler does, given that the invariant held. *)
Definition evo_post {A} (s : Sv1Server) (_ : A) (s' : Sv1Server) : Prop :=
  server_ok s' ∧ moved_server s s'.

Lemma evo_intro {A} (p : server_handler A) :
  (∀ s, server_ok s → wp p (evo_post s) s) → evolves evo p.
Proof.
  intros Hp s. unfold wp. specialize (Hp s). unfold wp in Hp.
  destruct (p s) as [[r s']|]; [|done]. intros Hs. by apply Hp.
Qed.

Lemma evo_elim {A} (p : server_handler A) s :
  evolves evo p → server_ok s → wp p (evo_post s) s.
Proof. intros Hp Hs. eapply wp_mono; [|apply Hp]. intros r s' He. by apply He. Qed.

Lemma good_share_moved cs cs' x : moved cs cs' → good_share cs x → good_share cs' x.
Proof.
  intros Hm [Hj (w & Hw & Ht)]. split; [done|]. destruct (Hm _ _ Hw) as (w' & Hw' & _ & Hp & Ho).
  exists w'. split; [done|]. intros Hopen. destruct Ht as (n & Hn & ?).
  { destruct (miner_open w); [done|]. by rewrite Ho in Hopen. }
  exists n. split; [|done]. destruct Hp as [l ->]. apply elem_of_app. by left.
Qed.

Lemma log_moved cs cs' log : moved cs cs' → log_ok cs log → log_ok cs' log.
Proof.
  intros Hm Hl m worker Hin. destruct (Hl m worker Hin) as (x & share & seq & v & Hx & ? & ? & ?).
  exists x, share, seq, v. split_and!; [by eapply good_share_moved|done..].
Qed.

(** ** Updates of one connection *)
Lemma moves_moved cs d w w' :
  cs !! d = Some w → to_miner w `prefix_of` to_miner w' → (opened w → opened w') →
  (miner_open w = false → miner_open w' = false) → moved cs (<[d := w']> cs).
Proof.
  intros Hw ??? d' v Hv. destruct (decide (d' = d)) as [->|].
  - simplify_eq. exists w'. by rewrite lookup_insert_eq.
  - exists v. by rewrite lookup_insert_ne.
Qed.

Lemma moves_opened w w' : moves w w' → opened w → opened w'.
Proof. intros [] [?|?]; [left; congruence|right; auto]. Qed.

Lemma tables_conn cs ds senders reqs chans vd upd d w w' :
  tables_ok cs ds senders reqs chans vd upd → cs !! d = Some w → moves w w' →
  tables_ok (<[d := w']> cs) ds senders reqs chans vd upd.
Proof.
  intros [] Hw []. split; try done.
  - rewrite dom_insert_L. set_solver.
  - intros r d' (? & v & Hv & ? & ?)%tb_requests0. split; [done|].
    destruct (decide (d' = d)) as [->|]; [|exists v; by rewrite lookup_insert_ne].
    simplify_eq. exists w'. rewrite lookup_insert_eq. split_and!; [done|congruence|auto].
  - intros c d' (? & v & Hv & ?)%tb_channels0. split; [done|].
    destruct (decide (d' = d)) as [->|]; [|exists v; by rewrite lookup_insert_ne].
    simplify_eq. exists w'. rewrite lookup_insert_eq. split; [done|congruence].
Qed.

Lemma ids_conn (cs : gmap N Downstream) d w w' (P : N → Prop) :
  cs !! d = Some w → (∀ k, is_Some (cs !! k) → P k) → ∀ k, is_Some (<[d := w']> cs !! k) → P k.
Proof.
  intros Hw HP k. destruct (decide (k = d)) as [->|]; [by eauto|].
  rewrite lookup_insert_ne by done. apply HP.
Qed.

Lemma evo_conn s d w w' :
  connections s !! d = Some w → keeps_conn mode d w w' →
  evo s (put_connections (<[d := w']> (connections s)) s).
Proof.
  intros Hw [Hmv Hok] []. assert (moved (connections s) (<[d := w']> (connections s))) as Hm.
  { destruct (Hmv). eapply moves_moved; try done. by apply moves_opened. }
  split; [|done]. split; simpl; [|by eapply tables_conn|done|by eapply log_moved|].
  - apply map_Forall_insert_2; [|done]. by apply Hok, sv_conns0.
  - by eapply ids_conn.
Qed.

Lemma evo_with_connection {A} d (absent : server_handler A) p :
  evolves evo absent → evolves (keeps_conn mode d) p → evolves evo (with_connection d absent p).
Proof. intros ??. eapply evolves_focus; [done..|]. intros s v v' ??. by eapply evo_conn. Qed.

Lemma evo_registered {A} d (p : downstream_handler A) :
  evolves (keeps_conn mode d) p → evolves evo (with_registered_downstream d p).
Proof.
  intros Hp. unfold with_registered_downstream, not_present.
  evolve_rule; [evolve_rule|]. evolve_rule; [|evolve_rule].
  apply evo_with_connection; [evolve_rule|done].
Qed.

Lemma evo_if_present {A B} (p : server_handler A) (absent : server_handler B) k :
  evolves evo p → evolves evo absent → (∀ a, evolves evo (k a)) → evolves evo (if_present p absent k).
Proof.
  intros. unfold if_present. evolve_rule; [by evolve_rule|]. evolve_rule; [done|].
  evolve_rule; first [done|evolve_rule].
Qed.

(** ** Updates of the rest *)
Lemma evo_send m worker : (∀ x, m ≠ ReqSubmitSharesExtended x) → evolves evo (send_to_manager m worker).
Proof.
  intros Hm. unfold send_to_manager. repeat evolve_rule. apply evolves_update.
  intros s []. split; [|done]. split; try done. simpl.
  intros x v [Hx|E%list_elem_of_singleton]%elem_of_app; [by eapply sv_log0|].
  simplify_eq. by edestruct Hm.
Qed.

Lemma evo_send_event d ev :
  (∀ w, event_ok w ev) → evolves evo (send_event d ev).
Proof.
  intros Hev. apply evo_with_connection; [evolve_rule|].
  evolve_rule; [evolve_rule|]. evolve_rule; [|evolve_rule].
  evolve_rule; [|evolve_rule]. apply evolves_update. intros w. split; [by split|].
  intros. by apply conn_event.
Qed.

Lemma evo_fetch_add get put :
  (∀ n s, server_ok s → server_ok (put n s) ∧ connections (put n s) = connections s ∧
     downstreams (put n s) = downstreams s ∧ prevhashes (put n s) = prevhashes s) →
  evolves evo (fetch_add get put).
Proof.
  intros Hput. apply evolves_transact. intros s Hs. simpl.
  destruct (Hput (u32_wrap (get s + 1)) s Hs) as (? & E & ? & ?). split; [done|].
  unfold moved_server. by rewrite E.
Qed.

Lemma evo_notify d n : upstream_work n → evolves evo (notify_downstream d n).
Proof.
  intros Hn. unfold notify_downstream, has_sender.
  evolve_rule; [evolve_rule|]. evolve_rule; [|evolve_rule].
  evolve_rule; [by apply evo_send_event|evolve_rule].
Qed.

Lemma evo_send_to_channel ord c n : upstream_work n → evolves evo (send_to_channel ord c n).
Proof.
  intros Hn. unfold send_to_channel. evolve_rule.
  - evolve_rule; [evolve_rule|]. evolve_rule. evolve_rule; [by apply evo_send_event|evolve_rule].
  - evolve_rule; [evolve_rule|]. evolve_rule; [by apply evo_notify|evolve_rule].
Qed.

(** ** The callbacks *)

(** Readers and updates of other parts of the data. *)
#[local] Ltac registered :=
  apply evo_registered;
  first [ evolve_rule
        | apply evolves_with_data; intros ?; simpl; by split
        | apply evolves_update_data; intros ?; repeat case_match; by split ].

Lemma evo_read_data {A} (f : DownstreamData → A) id : evolves evo (read_data f id).
Proof. unfold read_data. evolve_rule; [evolve_rule|]. registered. Qed.

Lemma callbacks_read id : reads_evolve (sv1_ops mode) id evo.
Proof.
  split; simpl; intros; try apply evo_read_data.
  - unfold sv1_is_authorized. evolve_rule; [evolve_rule|]. registered.
  - unfold sv1_notify. evolve_rule.
Qed.

Lemma callbacks_setup id : setup_evolves (sv1_ops mode) id evo.
Proof.
  split; simpl; intros; try apply evo_read_data.
  - unfold sv1_handle_configure. evolve_rule; [evolve_rule|]. registered.
  - unfold sv1_handle_subscribe. repeat evolve_rule.
  - unfold sv1_handle_authorize. repeat evolve_rule.
  - unfold sv1_handle_extranonce_subscribe. evolve_rule; [evolve_rule|]. registered.
  - unfold sv1_authorize. evolve_rule; [evolve_rule|]. evolve_rule.
    + apply (ev_is_authorized _ _ _ (callbacks_read id)).
    + registered.
  - unfold sv1_set_version_rolling_mask. evolve_rule; [evolve_rule|]. registered.
  - unfold sv1_set_version_rolling_min_bit. evolve_rule; [evolve_rule|]. registered.
Qed.

(** A share is accepted only in a context of the miner, for a job of its
    channel's history. *)
Lemma insert_if_new_ok hashes hash hashes' :
  NoDup hashes ∧ (0 < MAX_SEEN_SHARES → length hashes ≤ MAX_SEEN_SHARES)%nat →
  insert_if_new hashes hash = (true, hashes') →
  NoDup hashes' ∧ (0 < MAX_SEEN_SHARES → length hashes' ≤ MAX_SEEN_SHARES)%nat.
Proof.
  intros [Hnd Hlen]. unfold insert_if_new. case_decide as Hin; [done|]. intros [= <-]. split.
  - apply NoDup_app. split_and!; [|intros x Hx ->%list_elem_of_singleton|apply NoDup_singleton].
    + case_decide; [|done]. destruct hashes; [done|]. by apply NoDup_cons in Hnd as [_ ?].
    + apply Hin. case_decide; [|done]. destruct hashes; [done|]. by right.
  - intros Hm. specialize (Hlen Hm). rewrite length_app. simpl.
    case_decide; [destruct hashes; simpl in *; lia|lia].
Qed.

Lemma judge_share_keeps d request job channel m base w :
  resolve_channel_id mode (nj_channel_id m) = resolve_channel_id mode channel →
  rolled_job m base job → ntf_job_id job = sub_job_id request →
  channel_id (downstream_data w) = Some channel →
  keeps_conn mode d w (put_data (judge_share d request job (downstream_data w)).2 w).
Proof.
  intros Hkey Hroll Hid Hc. unfold judge_share. rewrite Hc.
  destruct (job_validation_context _ _) as [ctx|] eqn:Ectx; [|simpl; by rewrite put_data_same].
  destruct (validate_sv1_share _ _ _ _ _) as [[hash|]|] eqn:Ev; [|simpl; by rewrite put_data_same..].
  destruct (insert_if_new _ _) as [[] hashes] eqn:Ei; [|simpl; by rewrite put_data_same].
  split; [by split|]. intros [].
  split; simpl; try done.
  - by eapply insert_if_new_ok.
  - intros x [= <-]. simpl. split_and!; [done| |].
    + split. simpl. exists job, m, base, (ctx_target ctx), hash. split_and!; try done.
      destruct ok_targets as (_ & _ & Hctx). by eapply Hctx.
    + intros Ho. by destruct (ok_context _ _ Ectx Ho) as [? _].
Qed.

Lemma submitted_job_ok s channel job n :
  jobs_ok (valid_sv1_jobs s) → submitted_job mode s channel job = Some n →
  ntf_job_id n = job ∧ ∃ m base,
    resolve_channel_id mode (nj_channel_id m) = resolve_channel_id mode channel ∧ rolled_job m base n.
Proof.
  intros Hj. unfold submitted_job. intros (store & Hst & E)%bind_Some.
  apply fmap_Some in E as (j & Hget & ->).
  destruct (Hj _ _ Hst) as (h & Href & Hall). rewrite (refines_get _ _ _ Href) in Hget.
  unfold spec_get in Hget. apply fmap_Some in Hget as ([i [id j']] & Hfind & ->).
  apply list_find_Some in Hfind as (Hi & Hid & _). simpl in Hid.
  apply list_elem_of_lookup_2 in Hi. rewrite Forall_forall in Hall.
  destruct (Hall _ Hi) as (Hid' & _ & m & Hkey & Hroll). simpl in *.
  split; [congruence|]. by exists m, (keepalive_base_time j').
Qed.

(** A reading of a registered miner's data. *)
Lemma wp_sv1_read {A} d (f : Downstream → A) (Q : result A Sv1TproxyError → Sv1Server → Prop) s :
  (∀ w, d ∈ downstreams s → connections s !! d = Some w → Q (Ok (f w)) s) →
  (d ∉ downstreams s ∨ connections s !! d = None →
     Q (Err (err_disconnect (DownstreamNotPresent d) d)) s) →
  wp (with_registered_downstream d (ask f)) Q s.
Proof.
  intros Hok Herr. unfold with_registered_downstream. apply wp_bind, wp_ask. cbn [andthen].
  case_bool_decide as Hd; [|by apply wp_raise, Herr; left].
  apply wp_focus; [intros; apply wp_raise, Herr; by right|].
  intros w Hw. apply wp_ask. assert (put_connections (<[d := w]> (connections s)) s = s) as ->.
  { rewrite insert_id by done. by destruct s. }
  by apply Hok.
Qed.

Lemma evo_handle_submit id request : evolves evo (sv1_handle_submit mode id request).
Proof.
  apply evo_intro. intros s Hs. unfold sv1_handle_submit.
  apply wp_bind, wp_some_or_crash. intros d ->. cbn [andthen].
  apply wp_bind, wp_sv1_read; [|done]. intros w Hd Hw. cbn [andthen].
  destruct (channel_id (downstream_data w)) as [channel|] eqn:Ec; [|done].
  apply wp_bind, wp_ask. cbn [andthen].
  destruct (submitted_job _ _ _ _) as [job|] eqn:Ej; [|done].
  destruct (submitted_job_ok _ _ _ _ (sv_jobs s Hs) Ej) as (Hid & m & base & Hkey & Hroll).
  unfold with_registered_downstream. apply wp_bind, wp_ask. cbn [andthen].
  rewrite bool_decide_eq_true_2 by done. apply wp_focus; [congruence|].
  intros ? ?. simplify_eq. apply wp_transact. intros a w1 E.
  eapply evo_conn; [done| |done].
  pose proof (judge_share_keeps d request job channel m base w Hkey Hroll Hid Ec) as Hk.
  destruct (judge_share _ _ _ _). by simplify_eq/=.
Qed.

Context `{!Sv1Laws API}.

Lemma evo_parsed_request id req : evolves evo (handle_parsed_request (sv1_ops mode) id req).
Proof.
  destruct req as [m|m|m| |m|m];
    [..|apply submit_evolves; [apply _|apply callbacks_read|apply evo_handle_submit]|].
  all: apply request_evolves; [apply _|apply callbacks_read|apply callbacks_setup|done].
Qed.

(** ** Responses and forwarded shares *)
Context (shares_per_minute min_individual_miner_hashrate : Hashrate).
Context (downstream_extranonce2_size : N) (user_identity : option string).

(** A step of one registered connection, with what is known of it. *)
Lemma wp_sv1_registered {A} d (p : downstream_handler A) (Q : result A Sv1TproxyError → Sv1Server → Prop) s :
  (∀ w, d ∈ downstreams s → connections s !! d = Some w →
     wp p (λ r w', Q r (put_connections (<[d := w']> (connections s)) s)) w) →
  (d ∉ downstreams s ∨ connections s !! d = None →
     Q (Err (err_disconnect (DownstreamNotPresent d) d)) s) →
  wp (with_registered_downstream d p) Q s.
Proof.
  intros Hok Herr. unfold with_registered_downstream. apply wp_bind, wp_ask. cbn [andthen].
  case_bool_decide as Hd; [|by apply wp_raise, Herr; left].
  apply wp_focus; [intros; apply wp_raise, Herr; by right|]. auto.
Qed.

(** Go on with a handler that keeps the invariant. *)
Lemma evo_then {A} (p : server_handler A) s s1 :
  evolves evo p → evo_post s tt s1 → wp p (evo_post s) s1.
Proof.
  intros Hp [Hs1 Hm]. eapply wp_mono; [|by apply evo_elim].
  intros r s' [??]. split; [done|by etrans].
Qed.

Lemma evo_post_conn {A} (a : A) s d w w' :
  server_ok s → connections s !! d = Some w → keeps_conn mode d w w' →
  evo_post s a (put_connections (<[d := w']> (connections s)) s).
Proof. intros ???. by eapply evo_conn. Qed.

Definition announce_setup (d : N) (just_completed : bool) : server_handler unit :=
  if just_completed then
    sender ← has_sender d;
    ensure sender (err_disconnect (DownstreamNotPresent d) d);;
    sent ← send_event d EvSetupComplete;
    ensure sent (err_disconnect SenderClosed d)
  else mret tt.

Lemma evo_announce d b : evolves evo (announce_setup d b).
Proof.
  unfold announce_setup, has_sender. evolve_rule; [|evolve_rule].
  evolve_rule; [evolve_rule|]. evolve_rule; [evolve_rule|].
  evolve_rule; [by apply evo_send_event|evolve_rule].
Qed.

Lemma wp_respond d r req s w :
  setup_tells w req r → server_ok s → connections s !! d = Some w → opened w → d ∈ downstreams s →
  wp (with_registered_downstream d (send_to_miner (MsgResponse r));; record_setup d req)
    (evo_post s) s.
Proof.
  intros Hr Hs Hw Hop Hd. apply wp_bind, wp_sv1_registered; [|done].
  intros ? _ ?. simplify_eq. unfold send_to_miner. apply wp_bind, wp_ask. cbn [andthen id].
  destruct (miner_open w) eqn:Eo; [|apply wp_raise; cbn [andthen]; by eapply evo_post_conn].
  apply wp_update. cbn [andthen]. set (w1 := put_to_miner (to_miner w ++ [MsgResponse r]) w).
  unfold record_setup. apply wp_bind, wp_sv1_registered; simpl; rewrite ?lookup_insert_eq; [|naive_solver].
  intros ? _ [= <-]. unfold with_data. apply wp_transact. intros b w2 E. cbn [andthen].
  apply (evo_then (announce_setup d b)); [apply evo_announce|]. unfold put_connections at 1; simpl.
  rewrite insert_insert_eq. apply (evo_post_conn _ s d w w2 Hs Hw). revert E. unfold w1. simpl.
  destruct (record_response _ req) as [b' st] eqn:Er. intros [= -> <-].
  split; [split; simpl; try done; by apply prefix_app_r|]. intros Hok. by eapply conn_recorded.
Qed.

Lemma evo_respond d r :
  told_by r = None → evolves evo (with_registered_downstream d (send_to_miner (MsgResponse r))).
Proof. intros Hr. by apply evo_registered, evolves_response. Qed.

Lemma evo_bind {A B} (m : server_handler A) (k : A → server_handler B) s0 s :
  evolves evo m → evo_post s0 tt s →
  (∀ a s1, evo_post s0 tt s1 → moved_server s s1 → wp (k a) (evo_post s0) s1) →
  wp (m ≫= k) (evo_post s0) s.
Proof.
  intros Hm [Hs Hmv] Hk. apply wp_bind. eapply wp_mono; [|by apply evo_elim].
  intros [a|e] s1 [Hs1 Hmv1]; simpl; [|by split; [|etrans]].
  apply Hk; [split; [done|by etrans]|done].
Qed.

Lemma evo_refl {A} (a : A) s : server_ok s → evo_post s a s.
Proof. by split. Qed.

(** Counters and the state of the difficulty control are not part of the
    invariant, as long as no miner is added to them. *)
Lemma ok_counters s n :
  server_ok s → server_ok (put_sequence_counter n s) ∧ server_ok (put_miner_counter n s) ∧
  server_ok (put_request_factory n s) ∧ server_ok (put_keepalive_counter n s).
Proof. intros []. split_and!; by split. Qed.

Lemma ok_vardiff s m :
  server_ok s → dom m ⊆ downstreams s → dom (vardiff s) ⊆ dom m →
  (enable_vardiff = false → m = ∅) → server_ok (put_vardiff m s).
Proof.
  intros [? [] ???] Hm Hold Hdis. split; try done. split; try done. by etrans.
Qed.

Lemma evo_count_share d :
  evolves (E := Sv1TproxyError) evo
    (update (λ s, put_vardiff (alter increment_shares_since_last_update d (vardiff s)) s)).
Proof.
  apply evolves_update. intros s Hs. split; [|done]. destruct (sv_tables s Hs).
  apply ok_vardiff; rewrite ?dom_alter_L; [done..|]. intros Hdis.
  rewrite tb_disabled0 by done. apply alter_empty.
Qed.

(** A share that is known to be good may be forwarded. *)
Lemma wp_submit_shares x s0 s :
  evo_post s0 tt s → good_share (connections s) x →
  wp (handle_submit_shares enable_vardiff x) (evo_post s0) s.
Proof.
  intros Hs Hx. unfold handle_submit_shares. eapply evo_bind; [|done|].
  { destruct enable_vardiff; [apply evo_count_share|evolve_rule]. }
  intros _ s1 Hs1 Hm1. apply (good_share_moved _ _ _ (proj1 Hm1)) in Hx. clear s Hs Hm1.
  destruct (ssw_job_version x) as [version|] eqn:Ev; [|done].
  destruct (upstream_share (ssw_share x)) as [share|] eqn:Esh; [|done].
  eapply evo_bind; [|done|].
  { apply evo_fetch_add. intros n s Hs. split; [by apply ok_counters|done]. }
  intros seq s2 Hs2 Hm2. apply (good_share_moved _ _ _ (proj1 Hm2)) in Hx. clear s1 Hs1 Hm2.
  apply wp_bind, wp_ok_or_raise; [|done]. intros m Em. cbn [andthen]. unfold if_present.
  eapply evo_bind; [evolve_rule; apply evo_registered; evolve_rule|done|].
  intros r s3 [Hs3 Hm3] Hm. apply (good_share_moved _ _ _ (proj1 Hm)) in Hx.
  destruct r as [worker|e]; [|by destruct (err_kind e)].
  unfold send_to_manager. apply wp_bind, wp_ask. cbn [andthen].
  destruct (manager_open s3); [|done]. apply wp_update. split; [|done].
  destruct Hs3. split; try done. simpl.
  intros m' worker' [?|E%list_elem_of_singleton]%elem_of_app; [by eapply sv_log0|].
  injection E as -> _. by exists x, share, seq, version.
Qed.

(** ** [process_sv1_message] *)
Lemma moved_opened cs cs' d :
  moved cs cs' → (∃ w, cs !! d = Some w ∧ opened w) → ∃ w, cs' !! d = Some w ∧ opened w.
Proof.
  intros Hm (w & Hw & Ho). destruct (Hm d w Hw) as (w' & ? & ? & _). exists w'. auto.
Qed.

(** What the answer to a request tells the miner: a subscription the prefix its
    next job is checked with, anything else no prefix. *)
Definition answer_tells (d : N) (req : Client2Server) {E} (r : result (option Response) E)
    (s : Sv1Server) : Prop :=
  ∀ response w, r = Ok (Some response) → connections s !! d = Some w →
    told_by response = match req with
                       | ReqSubscribe _ => Some (prefix_in_use (downstream_data w))
                       | _ => None
                       end.

Lemma wp_answer_tells d req s :
  wp (handle_parsed_request (sv1_ops mode) (Some d) req) (answer_tells d req) s.
Proof.
  destruct req as [m|m|m| |m|m].
  2: { set (x := match connections s !! d with
                 | Some w => prefix_in_use (downstream_data w)
                 | None => {| extra_nonce1 := []; extra_nonce2_size := 0 |} end).
       eapply wp_mono; [|apply (subscribe_tells (sv1_ops mode) (Some d) m
         (λ s, ∀ w, connections s !! d = Some w → prefix_in_use (downstream_data w) = x) x)].
       - intros r s' [HI Hr] response w -> Hw. rewrite (HI w Hw). by apply Hr.
       - intros m' s' HI. by apply wp_bind, wp_some_or_crash.
       - intros e s' HI. apply wp_bind, wp_some_or_crash. intros ? [= <-]. cbn [andthen].
         apply wp_sv1_read; [|done]. intros w _ Hw. split; [done|].
         intros v [= <-]. by rewrite <-(HI w Hw).
       - intros n s' HI. apply wp_bind, wp_some_or_crash. intros ? [= <-]. cbn [andthen].
         apply wp_sv1_read; [|done]. intros w _ Hw. split; [done|].
         intros v [= <-]. by rewrite <-(HI w Hw).
       - intros w Hw. unfold x. by rewrite Hw. }
  all: eapply wp_mono; [|apply request_tells; by intros ?]; intros r s' Hr response w E _; by apply Hr.
Qed.

Lemma wp_answered d req s0 s :
  evo_post s0 tt s →
  wp (map_err (with_sv1_downstream_context d) (handle_parsed_request (sv1_ops mode) (Some d) req))
    (λ r s', (evo_post s0 tt s' ∧ moved_server s s') ∧ answer_tells d req r s') s.
Proof.
  intros [Hs Hm]. apply wp_map_err. pose proof (wp_answer_tells d req s) as Ha.
  pose proof (evo_elim _ s (evo_parsed_request (Some d) req) Hs) as He. unfold wp in *.
  destruct (handle_parsed_request _ _ _ s) as [[r s']|]; [|done]. destruct He as [? Hm'].
  split; [split; [split; [done|by etrans]|done]|]. intros response w E. apply Ha. by destruct r; simplify_eq/=.
Qed.

Lemma wp_process d req s0 s :
  evo_post s0 tt s → (∃ w, connections s !! d = Some w ∧ opened w) →
  wp (process_sv1_message mode enable_vardiff d req) (evo_post s0) s.
Proof.
  intros Hs Hop. unfold process_sv1_message.
  apply wp_bind. eapply wp_mono; [|by apply wp_answered].
  intros [response|e] s1 [[Hs1 Hm1] Htells]; cbn [andthen]; [|exact Hs1].
  apply (moved_opened _ _ _ (proj1 Hm1)) in Hop. clear s Hs Hm1.
  apply wp_bind. eapply (wp_mono _ (λ r s', evo_post s0 r s')).
  { intros [[]|e] s2 Hs2; [|exact Hs2]. simpl. apply wp_bind, wp_sv1_registered; [|intros; exact Hs2].
    intros w Hd Hw. unfold with_data. apply wp_transact. intros share w1 [= <- <-]. cbn [andthen].
    assert (evo_post s0 tt (put_connections
      (<[d := put_data (put_pending_share None (downstream_data w)) w]> (connections s2)) s2)) as Hs3.
    { destruct Hs2 as [Hok Hm]. destruct (evo_conn s2 d w
        (put_data (put_pending_share None (downstream_data w)) w) Hw) as [? Hm']; [|done|].
      - split; [by split|]. intros []. split; simpl; try done.
      - split; [done|by etrans]. }
    destruct (pending_share (downstream_data w)) as [x|] eqn:Ex; [|done].
    apply wp_submit_shares; [done|]. destruct (sv_conns s2 (proj1 Hs2) d w Hw).
    destruct (ok_share x Ex) as (<- & Hj & Ht). split; [done|].
    eexists. split; [simpl; by rewrite lookup_insert_eq|]. exact Ht. }
  destruct response as [response|]; [|by apply wp_ret].
  destruct (setup_request req) as [setup|] eqn:Ereq.
  - destruct Hop as (w & Hw & Hop). destruct (decide (d ∈ downstreams s1)).
    + eapply wp_mono; [|eapply wp_respond; [|apply Hs1|done..]].
      { intros r s2 [??]. split; [done|]. etrans; [apply Hs1|done]. }
      specialize (Htells response w eq_refl Hw). unfold setup_tells. by destruct req; simplify_eq/=.
    + unfold with_registered_downstream. repeat wp_rule; try done.
      by apply bool_decide_eq_true in Heqb.
  - apply (evo_then _ s0 s1); [|done]. evolve_rule; [apply evo_respond|evolve_rule].
    destruct Hop as (w & Hw & _). rewrite (Htells response w eq_refl Hw). by destruct req.
Qed.

(** ** Opening a channel *)
Lemma evo_open_extended request_id d :
  evolves evo (open_extended_mining_channel enable_vardiff shares_per_minute
    min_individual_miner_hashrate downstream_extranonce2_size user_identity request_id d).
Proof.
  unfold open_extended_mining_channel. repeat evolve_rule.
  all: try (apply evo_fetch_add; intros n s Hs; split; [by apply ok_counters|done]).
  all: by apply evo_send.
Qed.

Lemma ok_requests s m :
  server_ok s →
  (∀ r d, m !! r = Some d → d ∈ downstreams s ∧ ∃ w, connections s !! d = Some w ∧
     channel_id (downstream_data w) = None ∧
     queued_sv1_handshake_messages (downstream_data w) ≠ []) →
  (∀ r r' d, m !! r = Some d → m !! r' = Some d → r = r') → server_ok (put_requests m s).
Proof. intros [? [] ???] ??. by split. Qed.

Lemma ok_delete_request s r :
  server_ok s → server_ok (put_requests (delete r (request_id_to_downstream_id s)) s).
Proof.
  intros Hs. destruct (sv_tables s Hs). apply ok_requests; [done| |].
  - intros r' d [_ ?]%lookup_delete_Some. by apply (tb_requests0 r').
  - intros r1 r2 d [_ ?]%lookup_delete_Some [_ ?]%lookup_delete_Some. by apply (tb_unique0 r1 r2 d).
Qed.

Lemma evo_forward_request request_id d :
  evolves evo (forward_pending_open_channel_request enable_vardiff shares_per_minute
    min_individual_miner_hashrate downstream_extranonce2_size user_identity request_id d).
Proof.
  unfold forward_pending_open_channel_request. evolve_rule.
  - evolve_rule. apply evo_open_extended.
  - evolve_rule; [evolve_rule|]. evolve_rule; [|evolve_rule].
    apply evolves_update. intros s Hs. split; [by apply ok_delete_request|done].
Qed.

(** A request is registered for a miner that waits and has none. *)
Lemma wp_open_request d s0 s w :
  evo_post s0 tt s → d ∈ downstreams s → connections s !! d = Some w →
  channel_id (downstream_data w) = None →
  queued_sv1_handshake_messages (downstream_data w) ≠ [] →
  (∀ r, request_id_to_downstream_id s !! r ≠ Some d) →
  wp (handle_open_channel_request enable_vardiff shares_per_minute min_individual_miner_hashrate
        downstream_extranonce2_size user_identity d) (evo_post s0) s.
Proof.
  intros [Hs Hm] Hd Hw Hc Hq Hnone. unfold handle_open_channel_request.
  apply wp_bind, wp_ask. cbn [andthen]. apply wp_bind, wp_ensure; [|done]. intros _. cbn [andthen].
  apply wp_bind, wp_transact. intros request_id s1 [= <- <-]. cbn [andthen].
  apply wp_bind, wp_update. cbn [andthen]. apply evo_then; [apply evo_forward_request|].
  split; [|done]. apply ok_requests; [by apply ok_counters| |]; simpl.
  - destruct (sv_tables s Hs). intros r d' [[<- <-]|[_ ?]]%lookup_insert_Some; [eauto|].
    by apply (tb_requests0 r).
  - destruct (sv_tables s Hs).
    intros r r' d' [[? E]|[? Hr]]%lookup_insert_Some [[? E']|[? Hr']]%lookup_insert_Some.
    + congruence.
    + subst d'. by destruct (Hnone r').
    + subst d'. by destruct (Hnone r).
    + by eapply tb_unique0.
Qed.

Lemma wp_dispatch d req s w :
  server_ok s → d ∈ downstreams s → connections s !! d = Some w →
  let data := downstream_data w in
  wp (dispatch_request mode enable_vardiff shares_per_minute min_individual_miner_hashrate
        downstream_extranonce2_size user_identity d (channel_id data)
        (is_subscribed (session_state data))
        (negb (bool_decide (queued_sv1_handshake_messages data = []))) req) (evo_post s) s.
Proof.
  intros Hs Hd Hw data. unfold dispatch_request.
  assert (wp (match channel_id data with
      | Some _ => process_sv1_message mode enable_vardiff d req
      | None =>
          if negb (negb (bool_decide (queued_sv1_handshake_messages data = []))) && negb (can_start req)
          then raise (err_disconnect Sv1RequestBeforeSetup d)
          else with_registered_downstream d (queue_request d req);;
               if negb (bool_decide (queued_sv1_handshake_messages data = [])) then mret tt
               else handle_open_channel_request enable_vardiff shares_per_minute
                      min_individual_miner_hashrate downstream_extranonce2_size user_identity d
      end) (evo_post s) s) as Hmain.
  { destruct (channel_id data) as [c|] eqn:Ec.
    { apply wp_process; [done|]. exists w. split; [done|]. left. fold data. congruence. }
    destruct (_ && negb (can_start req)); [done|].
    apply wp_bind, wp_sv1_registered; [|done]. intros w' _ Hw'.
    assert (w' = w) as -> by congruence. clear Hw'.
    eapply wp_mono; [|apply (wp_queue_request mode d w req), (sv_conns s Hs d w Hw)].
    intros r w1 (Hok1 & Hmv & _ & Hq).
    assert (evo_post s tt (put_connections (<[d := w1]> (connections s)) s)) as Hs1.
    { by eapply evo_post_conn. }
    destruct r as [[]|e]; [|exact Hs1]. cbn [andthen].
    case_bool_decide as Hqueue; [|by apply wp_ret]. simpl.
    eapply wp_open_request; [done|done|simpl; apply lookup_insert_eq| |by apply Hq|].
    - rewrite (mv_channel _ _ Hmv). done.
    - simpl. intros r Hr. destruct (tb_requests _ _ _ _ _ _ _ (sv_tables s Hs) r d Hr)
        as (_ & v & Hv & _ & Hvq). by simplify_eq. }
  destruct (is_subscribed _); [done|]. destruct req; try done.
  apply evo_elim; [apply evo_respond, respond_tells|done].
Qed.

Lemma evo_handle_miner_message :
  evolves evo (handle_miner_message mode enable_vardiff shares_per_minute
    min_individual_miner_hashrate downstream_extranonce2_size user_identity).
Proof.
  apply evo_intro. intros s Hs. unfold handle_miner_message.
  apply wp_bind, wp_transact. intros received s1 [= <- <-]. cbn [andthen].
  set (s1 := put_from_downstreams _ s).
  assert (server_ok s1) as Hs1. { destruct Hs. by split. }
  assert (∀ A (r : A) s', evo_post s1 r s' → evo_post s r s') as Hsame. { by intros A r s'. }
  apply wp_bind, wp_some_or; [|by intros _; apply Hsame].
  intros [d raw] _. cbn [andthen]. unfold if_present. apply wp_bind, wp_attempt.
  apply wp_sv1_read; [|intros _; by apply Hsame]. intros w Hd Hw. cbn [andthen].
  apply wp_bind, wp_ok_or_raise; [|intros; by apply Hsame]. intros req _. cbn [andthen].
  eapply wp_mono; [|by apply wp_dispatch]. intros r s'. apply Hsame.
Qed.
End keeps.
