(* ===== verification/Sv1Upstream.v ===== *)
(** * Translator: the rest of the SV1 server keeps its invariant

    The difficulty manager, the handlers of the channel manager's messages,
    the keepalive loop, disconnections, and so every step of the system. *)
From Stdlib Require Import Ascii.
From S2P Require Import Prelude Handler SharedMap Bitcoin ShareCache ClientChannels TproxyManager JobStore Sv1Api Sv1Downstream Sv1Server Sv1Difficulty Sv1System Sv1Inv Sv1Keeps.

(** ** Job ids *)

(** Decimal numbers have no delimiter. *)
Lemma split_once_none sep s : sep ∉ String.list_ascii_of_string s → split_once sep s = None.
Proof.
  induction s as [|c s IH]; simpl; [done|]. intros [Hc Hs]%not_elem_of_cons.
  destruct (Ascii.eqb_spec c sep); [congruence|]. by rewrite IH.
Qed.

Lemma split_once_app sep a b :
  sep ∉ String.list_ascii_of_string a → split_once sep (a +:+ String sep b) = Some (a, b).
Proof.
  induction a as [|c a IH]; simpl.
  - by rewrite Ascii.eqb_refl.
  - intros [Hc Hs]%not_elem_of_cons. destruct (Ascii.eqb_spec c sep); [congruence|].
    by rewrite IH.
Qed.

Lemma pretty_N_digits (sep : ascii) (n : N) :
  (∀ x, pretty_N_char x ≠ sep) → sep ∉ String.list_ascii_of_string (pretty n).
Proof.
  intros Hd. assert (∀ x s, sep ∉ String.list_ascii_of_string s →
    sep ∉ String.list_ascii_of_string (pretty_N_go x s)) as Hgo.
  { intros x. induction (N.lt_wf_0 x) as [x _ IH]. intros s Hs.
    destruct (decide (0 < x)).
    - rewrite pretty_N_go_step by done. apply IH; [by apply N.div_lt|].
      simpl. apply not_elem_of_cons. split; [|done]. intros E. by apply (Hd (x mod 10)).
    - replace x with 0 by lia. done. }
  unfold pretty, pretty_N. case_decide; [|by apply Hgo, not_elem_of_nil].
  simpl. apply not_elem_of_cons. split; [|by apply not_elem_of_nil].
  intros E. by apply (Hd 0).
Qed.

Lemma pretty_no_delimiter (n : N) : KEEPALIVE_JOB_ID_DELIMITER ∉ String.list_ascii_of_string (pretty n).
Proof.
  apply pretty_N_digits. intros x. unfold pretty_N_char, KEEPALIVE_JOB_ID_DELIMITER.
  by repeat case_match.
Qed.

Lemma original_pretty (n : N) : original_job_id (pretty n) = pretty n.
Proof.
  unfold original_job_id, extract_original_job_id.
  by rewrite split_once_none by apply pretty_no_delimiter.
Qed.

Lemma extract_keepalive (n counter : N) :
  extract_original_job_id (keepalive_job_id (pretty n) counter) = Some (pretty n).
Proof.
  unfold extract_original_job_id, keepalive_job_id.
  by rewrite split_once_app by apply pretty_no_delimiter.
Qed.

Section upstream.
Context `{CC : ClientChannels} `{ST : Sv1Types} `{API : !Sv1Api CC ST} `{First : FirstTarget} `{Src : Sources} `{!Sv1Laws API}.
Context (mode : TproxyMode) (enable_vardiff : bool).
Context (shares_per_minute min_individual_miner_hashrate : Hashrate).
Context (downstream_extranonce2_size : N) (user_identity : option string).
Context (max_past_jobs : option nat) (job_keepalive_interval_secs : N).

#[local] Notation evo := (evo mode enable_vardiff).
#[local] Notation evo_post := (evo_post mode enable_vardiff).
#[local] Notation server_ok := (server_ok mode enable_vardiff).

(** ** The difficulty manager *)
Lemma evo_same_data d (f : DownstreamData → DownstreamData) :
  (∀ v, same_core d v (f v)) → evolves evo (with_registered_downstream d (update_data f)).
Proof. intros Hf. apply evo_registered, evolves_update_data, Hf. Qed.

Lemma evo_offer d t : evolves evo (offer_difficulty d t).
Proof.
  unfold offer_difficulty, has_sender. evolve_rule; [|evolve_rule].
  evolve_rule; [evolve_rule|]. evolve_rule; [|evolve_rule].
  evolve_rule; [by apply evo_send_event|evolve_rule].
Qed.

Lemma evo_snapshot ord : evolves evo (aggregated_downstream_snapshot shares_per_minute ord).
Proof.
  unfold aggregated_downstream_snapshot. repeat evolve_rule.
  apply evo_with_connection; [evolve_rule|]. repeat evolve_rule.
Qed.

Lemma evo_state_change ord :
  evolves evo (send_update_channel_on_downstream_state_change mode shares_per_minute ord).
Proof.
  unfold send_update_channel_on_downstream_state_change. evolve_rule; [evolve_rule|].
  evolve_rule; [apply evo_snapshot|]. evolve_rule; first [by apply evo_send|evolve_rule].
Qed.

Lemma evo_update_messages ord us :
  evolves evo (send_update_channel_messages mode shares_per_minute ord us).
Proof.
  unfold send_update_channel_messages, send_aggregated_update_channel,
    send_non_aggregated_update_channels. evolve_rule.
  - evolve_rule; [evolve_rule|]. evolve_rule; [apply evo_snapshot|].
    evolve_rule; first [by apply evo_send|evolve_rule].
  - evolve_rule. by apply evo_send.
Qed.

Lemma ok_updates s m :
  server_ok s → dom m ⊆ dom (vardiff s) → server_ok (put_target_updates m s).
Proof. intros [? [] ???] Hm. by split. Qed.

Lemma adopt_hashrate_core d h t v : chosen d (advertised t) → same_core d v (adopt_hashrate h t v).
Proof. intros Hc. split; [by split|done|]. intros _ t' [= <-]. by right. Qed.
Lemma adopt_target_core d t h v : chosen d (advertised t) → same_core d v (adopt_target t h v).
Proof.
  intros Hc. unfold adopt_target. destruct h; (split; [by split|done|]); intros _ t' [= <-]; by right.
Qed.

(** The target of a hash rate that the difficulty control of a miner asks for,
    from the shares it has counted and the miner's present rate and target. *)
Definition proposed (s : Sv1Server) (d t : N) : Prop :=
  ∃ w st rate new_rate st' t',
    connections s !! d = Some w ∧ vardiff s !! d = Some st ∧ hashrate (downstream_data w) = Some rate ∧
    try_vardiff st rate (target (downstream_data w)) shares_per_minute = (Ok (Some new_rate), st') ∧
    hash_rate_to_target new_rate shares_per_minute = Some t' ∧ t = advertised t'.

Lemma wp_apply_new_hashrate d c u h s0 s :
  evo_post s0 tt s → d ∈ dom (vardiff s) →
  (∀ t, hash_rate_to_target h shares_per_minute = Some t → chosen d (advertised t)) →
  wp (apply_new_hashrate shares_per_minute d c u h) (evo_post s0) s.
Proof.
  intros Hs Hin Hch. unfold apply_new_hashrate. destruct (hash_rate_to_target _ _) as [t|] eqn:Et; [|done].
  unfold if_present. apply wp_bind, wp_attempt, wp_sv1_registered.
  2: { intros _. cbn [andthen]. by apply wp_ret. }
  intros w Hd Hw. apply wp_update. cbn [andthen].
  set (s1 := put_connections _ s).
  assert (evo_post s tt s1) as [Hs1 Hm1].
  { eapply evo_post_conn; [apply Hs|done|]. apply sv1_keeps_same, adopt_hashrate_core. by apply Hch. }
  apply wp_bind, wp_update. cbn [andthen]. apply wp_ret.
  split; [|etrans; [apply Hs|apply Hm1]]. destruct (sv_tables _ _ _ Hs1).
  apply ok_updates; [done|]. destruct (announce_now _ u).
  - rewrite dom_delete_L. set_solver.
  - rewrite dom_insert_L. simpl in *. set_solver.
Qed.

(** A round over the entry of one miner. *)
Lemma wp_vardiff_entry d s0 s :
  evo_post s0 tt s → (∀ t, proposed s d t → chosen d t) →
  wp (vardiff_entry shares_per_minute d) (evo_post s0) s.
Proof.
  intros [Hs Hms] Hprop. unfold vardiff_entry. apply wp_bind, wp_ask. cbn [andthen].
  destruct (vardiff s !! d) as [vs|] eqn:Ev; [|by apply wp_ret].
  unfold if_present. apply wp_bind, wp_attempt, wp_sv1_registered; [|intros _; by apply wp_ret].
  intros w Hd Hw. apply wp_bind, wp_ask. cbn [andthen].
  apply wp_bind, wp_some_or_crash. intros rate Erate. cbn [andthen]. apply wp_ret. cbn [andthen].
  rewrite (insert_id (connections s)) by done.
  replace (put_connections (connections s) s) with s by by destruct s.
  destruct (channel_id (downstream_data w)) as [c|]; [|done].
  destruct (try_vardiff _ _ _ _) as [r vs'] eqn:Etry. apply wp_bind, wp_update. cbn [andthen].
  assert (evo_post s0 tt (put_vardiff (<[d := vs']> (vardiff s)) s)) as Hs2.
  { split; [|done]. destruct (sv_tables _ _ _ Hs).
    assert (d ∈ dom (vardiff s)) by by apply elem_of_dom_2 in Ev.
    apply ok_vardiff; rewrite ?dom_insert_L; [done|set_solver|set_solver|].
    intros Hdis. by rewrite tb_disabled, lookup_empty in Ev. }
  destruct r as [[h'|]|]; [apply wp_apply_new_hashrate; [done|..]| |done].
  - simpl. rewrite dom_insert_L. set_solver.
  - intros t Et. apply Hprop. by exists w, vs, rate, h', vs', t.
  - apply evo_then; [|done]. apply evo_if_present; [|evolve_rule|intros; evolve_rule].
    apply evo_same_data. by split.
Qed.

(** It leaves the other miners alone. *)
Definition only_at (d : N) (s s' : Sv1Server) : Prop :=
  ∀ k, k ≠ d → vardiff s' !! k = vardiff s !! k ∧ connections s' !! k = connections s !! k.
#[local] Instance only_at_preorder d : PreOrder (only_at d).
Proof.
  split; [by intros s k|]. intros s1 s2 s3 H12 H23 k Hk.
  destruct (H12 k Hk) as [-> ->] || destruct (H12 k Hk), (H23 k Hk). split; congruence.
Qed.

Lemma registered_only_at {A} d (p : downstream_handler A) :
  evolves (only_at d) (with_registered_downstream d p).
Proof.
  unfold with_registered_downstream, not_present.
  evolve_rule; [evolve_rule|]. evolve_rule; [|evolve_rule].
  apply (evolves_focus _ _ _ _ _ _ (λ _ _, True)); [evolve_rule| |].
  - intros w. by apply wp_intro.
  - intros s w w' _ _ k Hk. simpl. by rewrite lookup_insert_ne.
Qed.

Lemma if_present_only_at {A B} d (p : server_handler A) (absent : server_handler B) k :
  evolves (only_at d) p → evolves (only_at d) absent → (∀ a, evolves (only_at d) (k a)) →
  evolves (only_at d) (if_present p absent k).
Proof.
  intros. unfold if_present. evolve_rule; [by evolve_rule|]. evolve_rule; [done|].
  evolve_rule; first [done|evolve_rule].
Qed.

Lemma vardiff_entry_only_at d : evolves (only_at d) (vardiff_entry shares_per_minute d).
Proof.
  unfold vardiff_entry, apply_new_hashrate. evolve_rule; [evolve_rule|]. evolve_rule; [|evolve_rule].
  apply if_present_only_at; [apply registered_only_at|evolve_rule|].
  intros [[[[c|] h] t] u]; [|evolve_rule]. destruct (try_vardiff _ _ _ _) as [r vs'].
  evolve_rule.
  { apply evolves_update. intros s k Hk. simpl. by rewrite lookup_insert_ne. }
  evolve_rule; [|evolve_rule]. evolve_rule.
  - evolve_rule; [|evolve_rule]. apply if_present_only_at; [apply registered_only_at|evolve_rule|].
    intros _. evolve_rule; [|evolve_rule]. by apply evolves_update.
  - apply if_present_only_at; [apply registered_only_at|evolve_rule|]. intros; evolve_rule.
Qed.

Lemma wp_vardiff_entries ids s0 s1 s :
  NoDup ids → evo_post s0 tt s → (∀ d t, proposed s1 d t → chosen d t) →
  (∀ k, k ∈ ids → vardiff s !! k = vardiff s1 !! k ∧ connections s !! k = connections s1 !! k) →
  wp (collect ids (vardiff_entry shares_per_minute)) (evo_post s0) s.
Proof.
  intros Hnd Hs Hprop. revert s Hs. induction Hnd as [|d ids Hd Hnd IH]; intros s Hs Hsame; simpl.
  { by apply wp_ret. }
  assert (wp (vardiff_entry shares_per_minute d) (evo_post s0) s) as Hone.
  { apply wp_vardiff_entry; [done|]. intros t (w & st & ?). apply Hprop. exists w, st.
    destruct (Hsame d) as [<- <-]; [by left|done]. }
  pose proof (vardiff_entry_only_at d s) as Honly. apply wp_bind. unfold wp in Hone, Honly |- *.
  destruct (vardiff_entry _ d s) as [[[out|e] s2]|]; [|done..]. cbn [andthen].
  apply wp_bind. eapply wp_mono; [|apply IH; [done|]].
  - intros [outs|e] s3 Hs3; cbn [andthen]; [by apply wp_ret|done].
  - intros k Hk. destruct (Honly k) as [-> ->]; [by intros ->|]. apply Hsame. by right.
Qed.

Lemma wp_vardiff_updates ord s :
  iteration ord → server_ok s → (∀ d t, proposed s d t → chosen d t) →
  wp (handle_vardiff_updates mode shares_per_minute ord) (evo_post s) s.
Proof.
  intros Hord Hs Hprop. unfold handle_vardiff_updates. apply wp_bind, wp_ask. cbn [andthen].
  apply wp_bind. eapply wp_mono; [|apply (wp_vardiff_entries _ s s s); [|by apply evo_refl|done..]].
  2: { unfold iteration in Hord. rewrite Hord. apply NoDup_elements. }
  intros [updates|e] s1 Hs1; cbn [andthen]; [|done]. apply evo_then; [|exact Hs1].
  evolve_rule; [evolve_rule; [evolve_rule|apply evo_update_messages]|].
  evolve_rule. apply evo_offer.
Qed.

Lemma evo_pending_updates ord t d : evolves evo (get_pending_difficulty_updates ord t d).
Proof.
  apply evolves_transact. intros s Hs. split; [|done]. apply ok_updates; [done|].
  destruct (sv_tables _ _ _ Hs). simpl. etrans; [|exact tb_updates].
  apply subseteq_dom, map_filter_subseteq.
Qed.

Lemma evo_set_target ord c t : evolves evo (handle_set_target_message mode ord c t).
Proof.
  unfold handle_set_target_message, handle_aggregated_set_target,
    handle_non_aggregated_set_target, send_pending_set_difficulty_messages_to_downstream.
  evolve_rule.
  - evolve_rule; [evolve_rule|]. evolve_rule.
    + evolve_rule. apply evo_with_connection; [evolve_rule|].
      apply evolves_update_data. by split.
    + evolve_rule; [apply evo_pending_updates|]. evolve_rule. apply evo_offer.
  - evolve_rule; [evolve_rule|]. evolve_rule; [|evolve_rule].
    apply evo_if_present; [by apply evo_same_data; split|evolve_rule|intros _].
    evolve_rule; [apply evo_pending_updates|]. evolve_rule. apply evo_offer.
Qed.

Lemma evo_to_all ord t h :
  (∀ d, chosen d (advertised t)) → evolves evo (send_set_difficulty_to_all_downstreams ord t h).
Proof.
  intros Hch.
  unfold send_set_difficulty_to_all_downstreams, adopt_target_entry, has_sender.
  evolve_rule; [evolve_rule|]. evolve_rule.
  - evolve_rule. evolve_rule; [|repeat evolve_rule].
    apply evo_with_connection; [evolve_rule|]. apply evolves_with_data. intros v.
    destruct (channel_id v); [by apply adopt_target_core|by split].
  - evolve_rule; [|evolve_rule; evolve_rule]. evolve_rule.
    evolve_rule; [evolve_rule|]. evolve_rule; [by apply evo_send_event|evolve_rule].
Qed.

Lemma evo_close_channel c : evolves evo (close_channel c).
Proof. by apply evo_send. Qed.

Lemma wp_to_one c t h s :
  server_ok s → (∀ d, channel_id_to_downstream_id s !! c = Some d → chosen d (advertised t)) →
  wp (send_set_difficulty_to_specific_downstream c t h) (evo_post s) s.
Proof.
  intros Hs Hch. unfold send_set_difficulty_to_specific_downstream, has_sender.
  apply wp_bind, wp_ask. cbn [andthen]. destruct (channel_id_to_downstream_id s !! c) as [d|].
  - apply evo_elim; [|done].
    apply evo_if_present; [apply evo_same_data; intros v; by apply adopt_target_core, Hch|evolve_rule|intros _].
    evolve_rule; [evolve_rule|]. evolve_rule; [evolve_rule|].
    evolve_rule; [|evolve_rule]. evolve_rule; [by apply evo_send_event|evolve_rule].
  - apply evo_elim; [|done]. evolve_rule; [by apply evo_send|evolve_rule].
Qed.

(** The miners a [SetTarget] is for. *)
Definition addressed (s : Sv1Server) (c d : N) : Prop :=
  is_aggregated mode = true ∨ channel_id_to_downstream_id s !! c = Some d.

Lemma wp_set_target_plain ord c t s :
  server_ok s → (∀ d, addressed s c d → chosen d (advertised t)) →
  wp (handle_set_target_without_vardiff mode shares_per_minute ord c t) (evo_post s) s.
Proof.
  intros Hs Hch. unfold handle_set_target_without_vardiff. destruct (is_aggregated mode) eqn:Em.
  - apply evo_elim; [|done]. apply evo_to_all. intros d. apply Hch. by left.
  - apply wp_to_one; [done|]. intros d Hd. apply Hch. by right.
Qed.

(** ** Jobs *)
#[local] Notation stored_ok := (stored_ok mode).

Lemma built_job p m clean n :
  came m p → clean = bool_decide (nj_job_id m = snp_job_id p) →
  build_sv1_notify_from_sv2 p m clean = Ok n → rolled_job m (ntf_time n) n ∧ ntf_time n ≤ u32_max.
Proof.
  intros Hc -> E. destruct (notify_spec _ _ _ _ E) as (Hid & _ & Ht).
  split; [|unfold u32_max, u32_modulus in *; lia].
  exists p, n. rewrite Hid, original_pretty. split_and!; try done; lia.
Qed.

Lemma rolled_clean m base n b : rolled_job m base n → rolled_job m base (with_clean_jobs b n).
Proof. done. Qed.

Lemma spec_activate_forall {T} (P : string * T → Prop) cap h id j clean :
  Forall P h → P (id, j) → Forall P (spec_activate cap h id j clean).
Proof.
  rewrite !Forall_forall. intros Hh Hj x. unfold spec_activate.
  destruct clean; [by intros ->%list_elem_of_singleton|].
  intros [->|Hx]%elem_of_cons; [done|]. apply Hh. eapply elem_of_sublist; [exact Hx|].
  etrans; [apply sublist_take|apply sublist_filter].
Qed.

Lemma store_job_ok key j resets jobs jobs' :
  jobs_ok mode jobs → stored_ok key (ntf_job_id (stored_notify j), j) →
  store_job max_past_jobs key j resets jobs = Some jobs' → jobs_ok mode jobs'.
Proof.
  intros Hjobs Hj. unfold store_job.
  set (old := match jobs !! key with Some store => store | None => new_store MAX_PAST_JOBS max_past_jobs end).
  assert (∃ h, refines old h ∧ Forall (stored_ok key) h) as (h & Hold & Hall).
  { unfold old. destruct (jobs !! key) as [store|] eqn:E; [by apply Hjobs|].
    exists []. split; [|by constructor]. exists []. split_and!; try done; [|apply NoDup_nil_2|simpl; lia].
    split_and!; [done|done|apply NoDup_nil_2]. }
  destruct (activate_refines old h (ntf_job_id (stored_notify j)) j resets Hold)
    as (st & -> & Hst & _). intros [= <-] key' store [[<- <-]|[_ ?]]%lookup_insert_Some; [|by eapply Hjobs].
  eexists. split; [exact Hst|]. by apply spec_activate_forall.
Qed.

Lemma last_job_ok s channel j :
  jobs_ok mode (valid_sv1_jobs s) → get_last_job mode channel s = Some j →
  stored_ok (resolve_channel_id mode channel) (ntf_job_id (stored_notify j), j).
Proof.
  intros Hjobs. unfold get_last_job. intros (st & Est & Ha)%bind_Some.
  destruct (Hjobs _ _ Est) as (h & (pl & _ & -> & _) & Hall).
  unfold active, active_part in *. destruct (active_job st) as [[id a]|]; [|done].
  simpl in *. injection Ha as ->. apply Forall_cons in Hall as [(E & ? & ?) _]. simpl in *. by subst id.
Qed.

Lemma ok_jobs s jobs : server_ok s → jobs_ok mode jobs → server_ok (put_jobs jobs s).
Proof. intros [] ?. by split. Qed.

Lemma resolve_idem c : resolve_channel_id mode (resolve_channel_id mode c) = resolve_channel_id mode c.
Proof. unfold resolve_channel_id. by destruct (is_aggregated mode). Qed.

Lemma wp_new_job ord now m s :
  server_ok s →
  (∀ p, prevhashes s !! resolve_channel_id mode (nj_channel_id m) = Some p → came m p) →
  wp (handle_new_job mode max_past_jobs ord now m) (evo_post s) s.
Proof.
  intros Hs Hcame. unfold handle_new_job. apply wp_bind, wp_ask. cbn [andthen].
  destruct (prevhashes s !! _) as [p|] eqn:Ep; [|by apply wp_ret].
  apply wp_bind, wp_ok_or_raise; [|done]. intros n En. cbn [andthen].
  destruct (built_job _ _ _ _ (Hcame p eq_refl) eq_refl En) as [Hroll Hmax].
  assert (upstream_work n) as Hwork by (by eexists _, _).
  apply wp_bind, wp_ask. cbn [andthen].
  destruct (get_last_job _ _ _) as [current|] eqn:Ec, (_ && _).
  1: { unfold bootstrap. destruct (decide (_ = _)); [|by apply wp_ret].
       apply (last_job_ok _ _ _ (sv_jobs _ _ _ Hs)) in Ec as (_ & _ & m' & _ & Hroll').
       apply evo_elim; [|done]. apply evo_send_to_channel. by eexists _, _. }
  all: apply wp_bind; unfold store_notify; apply wp_bind, wp_ask; cbn [andthen];
    apply wp_bind, wp_some_or_crash; intros jobs Ejobs; cbn [andthen];
    apply wp_bind, wp_update; cbn [andthen].
  all: assert (server_ok (put_jobs jobs s)) as Hs1 by
    (apply ok_jobs; [done|]; eapply store_job_ok; [apply Hs| |exact Ejobs];
     split; [done|]; split; [done|]; by exists m).
  all: eapply (wp_mono _ (evo_post s)); [|destruct (is_aggregated mode && _); apply wp_update || apply wp_ret].
  all: try (split; [by destruct Hs1; split|done]); try by split.
  all: intros [[]|e] s2 Hs2; [|exact Hs2]; simpl; apply evo_then; [|done];
    by apply evo_send_to_channel.
Qed.

(** ** The keepalive loop *)
Lemma saturating_small a b : a ≤ u32_max → a ≤ saturating_add a b ≤ a + b.
Proof. unfold saturating_add. lia. Qed.

Lemma keepalive_rolled m j id counter :
  rolled_job m (keepalive_base_time j) (stored_notify j) →
  ntf_time (stored_notify j) ≤ u32_max →
  let time := keepalive_time job_keepalive_interval_secs j in
  id = keepalive_job_id (original_job_id (ntf_job_id (stored_notify j))) counter →
  rolled_job m (keepalive_base_time j) (keepalive_notify (stored_notify j) id time) ∧
  time ≤ u32_max ∧ ntf_time (stored_notify j) ≤ time.
Proof.
  intros (p & n0 & Hcame & En & Hid & ? & ? & ? & ? & ? & ? & Hb & Hlo & Hhi) Hmax time ->.
  pose proof (saturating_small (ntf_time (stored_notify j)) job_keepalive_interval_secs Hmax).
  pose proof (saturating_small (keepalive_base_time j) MAX_FUTURE_BLOCK_TIME).
  assert (ntf_time (stored_notify j) ≤ saturating_add (keepalive_base_time j) MAX_FUTURE_BLOCK_TIME)
    by (unfold saturating_add in *; lia).
  assert (time ≤ u32_max) by (unfold time, keepalive_time, saturating_add; lia).
  assert (ntf_time (stored_notify j) ≤ time) by (unfold time, keepalive_time; lia).
  split; [|done]. exists p, n0. simpl. rewrite Hid.
  assert (original_job_id (keepalive_job_id (pretty (nj_job_id m)) counter) = pretty (nj_job_id m)) as ->.
  { unfold original_job_id. by rewrite extract_keepalive. }
  split_and!; try done; [lia|]. unfold time, keepalive_time. lia.
Qed.

#[local] Notation create_keepalive := (create_keepalive_job mode job_keepalive_interval_secs).

Lemma wp_create_keepalive channel s :
  server_ok s →
  wp (create_keepalive channel) (λ r s', evo_post s r s' ∧
    ∀ n, r = Ok (Some n) → upstream_work n) s.
Proof.
  intros Hs. unfold create_keepalive_job. apply wp_bind, wp_ask. cbn [andthen].
  destruct (get_last_job _ _ _) as [j|] eqn:Ej; [|by apply wp_ret].
  apply (last_job_ok _ _ _ (sv_jobs _ _ _ Hs)) in Ej as (_ & Hmax & m & Hkey & Hroll). simpl in *.
  case_decide as Ht; [by apply wp_ret|].
  apply wp_bind. unfold next_keepalive_job_id. apply wp_bind, wp_transact.
  intros counter s1 [= <- <-]. cbn [andthen]. apply wp_ret. cbn [andthen].
  apply wp_bind, wp_ask. cbn [andthen].
  set (s1 := put_keepalive_counter _ s). assert (server_ok s1) as Hs1 by by apply ok_counters.
  destruct (valid_sv1_jobs s1 !! _) as [st|] eqn:Est; [|by apply wp_ret].
  destruct (keepalive_rolled m j _ (keepalive_job_id_counter s) Hroll Hmax eq_refl)
    as (Hroll' & Hmax' & _).
  apply wp_bind, wp_some_or_crash. intros st' Est'. cbn [andthen].
  apply wp_bind, wp_update. cbn [andthen]. apply wp_ret.
  set (n := keepalive_notify _ _ _) in *.
  split; [|intros ? [= <-]; by eexists _, _]. split; [|done]. apply ok_jobs; [done|].
  destruct (sv_jobs _ _ _ Hs1 _ _ Est) as (h & Href & Hall).
  destruct (activate_refines st h (ntf_job_id n)
    {| stored_notify := n; keepalive_base_time := keepalive_base_time j |} false Href)
    as (st2 & E2 & Href2 & _). simpl in *. rewrite E2 in Est'. injection Est' as <-.
  intros key store [[<- <-]|[_ ?]]%lookup_insert_Some; [|by eapply (sv_jobs _ _ _ Hs1)].
  eexists. split; [exact Href2|]. apply (spec_activate_forall _ _ _ _ _ false); [done|].
  split; [done|]. split; [done|]. by exists m.
Qed.

Lemma evo_send_keepalive now d n : upstream_work n → evolves evo (send_keepalive_to_downstream now d n).
Proof.
  intros Hn. unfold send_keepalive_to_downstream, has_sender.
  evolve_rule; [evolve_rule|]. evolve_rule; [evolve_rule|].
  evolve_rule; [by apply evo_send_event|]. evolve_rule; [evolve_rule|].
  apply evo_if_present; [|evolve_rule|intros; evolve_rule]. apply evo_same_data. by split.
Qed.

Lemma wp_shared_keepalive now interval s :
  server_ok s →
  wp (shared_keepalive mode job_keepalive_interval_secs now interval) (λ r s', evo_post s r s' ∧
    ∀ n, r = Ok (Some n) → upstream_work n) s.
Proof.
  intros Hs. unfold shared_keepalive. apply wp_bind, wp_ask. cbn [andthen].
  match goal with |- wp (if ?b then _ else _) _ _ => destruct b end.
  - apply wp_bind, wp_ask. cbn [andthen]. apply wp_ret. split; [done|]. intros n [= E].
    apply bind_Some in E as (j & Ej & E). destruct (is_keepalive_job_id _); [|done].
    injection E as <-. apply (last_job_ok _ _ _ (sv_jobs _ _ _ Hs)) in Ej as (_ & _ & m & _ & ?).
    by eexists _, _.
  - apply wp_bind. eapply wp_mono; [|by apply wp_create_keepalive].
    intros [[n|]|e] s1 [[Hs1 Hm] Hn]; cbn [andthen]; [|by apply wp_ret|done].
    apply wp_bind, wp_update. cbn [andthen]. apply wp_ret. split.
    + split; [by destruct Hs1; split|done].
    + intros ? [= <-]. by apply Hn.
Qed.

Lemma evo_keepalive_jobs ord now :
  evolves evo (send_keepalive_jobs mode job_keepalive_interval_secs ord now).
Proof.
  unfold send_keepalive_jobs, keepalive_targets. evolve_rule.
  { repeat evolve_rule. apply evo_with_connection; [evolve_rule|]. repeat evolve_rule. }
  evolve_rule; [evolve_rule|]. evolve_rule.
  - apply evo_intro. intros s Hs. apply wp_bind. eapply wp_mono; [|by apply wp_shared_keepalive].
    intros [[n|]|e] s1 [Hs1 Hn]; cbn [andthen]; [|by apply wp_ret|done].
    apply evo_then; [|done]. evolve_rule. apply evo_send_keepalive. by apply Hn.
  - evolve_rule. apply evo_intro. intros s Hs. apply wp_bind.
    eapply wp_mono; [|by apply wp_create_keepalive].
    intros [[n|]|e] s1 [Hs1 Hn]; cbn [andthen]; [|by apply wp_ret|done].
    apply evo_then; [|done]. apply evo_send_keepalive. by apply Hn.
Qed.

(** ** Channels *)

(** The claimed miner gets the channel. *)
Lemma ok_channel_opened s m d w :
  server_ok s → request_id_to_downstream_id s !! oes_request_id m = Some d →
  connections s !! d = Some w →
  let w' := put_data (put_queued [] (open_data m (downstream_data w))) w in
  let s1 := put_requests (delete (oes_request_id m) (request_id_to_downstream_id s)) s in
  let s2 := put_connections (<[d := w']> (connections s1)) s1 in
  evo_post s tt (put_channels (<[oes_channel_id m := d]> (channel_id_to_downstream_id s2)) s2).
Proof.
  intros Hs Hr Hw w' s1 s2. destruct (sv_tables _ _ _ Hs).
  destruct (tb_requests _ _ Hr) as (Hd & v & Hv & Hc & Hq). assert (v = w) as -> by congruence.
  assert (conn_ok mode d w') as Hok' by (by apply conn_opened; [apply (sv_conns _ _ _ Hs)|]).
  assert (moved (connections s) (<[d := w']> (connections s))) as Hm.
  { eapply moves_moved; [done|done| |done]. intros _. by left. }
  split; [|by split]. destruct Hs. split; simpl; [| |done|by eapply log_moved|by eapply ids_conn].
  - by apply map_Forall_insert_2.
  - split; simpl; try done.
    + rewrite dom_insert_L. set_solver.
    + intros r d' [Hne Hr']%lookup_delete_Some. destruct (tb_requests r d' Hr') as (? & x & ? & ?).
      split; [done|]. exists x. rewrite lookup_insert_ne; [done|]. intros <-.
      by apply Hne, (tb_unique _ _ d).
    + intros r r' d' [_ ?]%lookup_delete_Some [_ ?]%lookup_delete_Some. by eapply tb_unique.
    + intros c d' [[<- <-]|[_ Hc']]%lookup_insert_Some.
      * split; [done|]. exists w'. by rewrite lookup_insert_eq.
      * destruct (tb_channels c d' Hc') as (? & x & Hx & Ex). split; [done|]. exists x.
        rewrite lookup_insert_ne; [done|]. intros <-. congruence.
Qed.

Lemma wp_start_session ord first_target d queued s0 s :
  evo_post s0 tt s → d ∈ downstreams s → (∃ w, connections s !! d = Some w ∧ opened w) →
  wp (start_session mode enable_vardiff shares_per_minute ord first_target d queued)
    (evo_post s0) s.
Proof.
  intros Hs Hd Hop. unfold start_session. eapply (wp_mono _ (evo_post s0)); [done|].
  apply wp_bind. eapply (wp_mono _ (λ r s', r = Ok tt ∧ evo_post s0 tt s' ∧
    ∃ w, connections s' !! d = Some w ∧ opened w)).
  2: { destruct enable_vardiff eqn:Een; [|by apply wp_ret]. apply wp_update.
       split_and!; [done| |done]. split; [|apply Hs]. destruct (sv_tables _ _ _ (proj1 Hs)).
       apply ok_vardiff; rewrite ?dom_insert_L; [apply Hs|set_solver..|done]. }
  intros r s1 (-> & Hs1 & Hop1). cbn [andthen]. apply wp_bind.
  apply (wp_for_each _ _ (λ s', evo_post s0 tt s' ∧ ∃ w, connections s' !! d = Some w ∧ opened w)).
  - done.
  - intros req s2 _ [Hs2 Hop2]. eapply wp_mono; [|by apply (wp_process _ _ _ _ s2 s2); [apply evo_refl, Hs2|]].
    intros r s3 [Hs3 Hm3]. assert (evo_post s0 tt s3) as Hs0.
    { split; [done|]. etrans; [apply Hs2|done]. }
    split; [|by intros e ->]. split; [done|]. by eapply moved_opened; [apply Hm3|].
  - intros s2 [Hs2 _]. cbn [andthen]. apply evo_then; [|done]. unfold has_sender.
    evolve_rule; [evolve_rule|]. evolve_rule; [evolve_rule|]. evolve_rule.
    + evolve_rule; [|evolve_rule]. evolve_rule; [by apply evo_send_event|evolve_rule].
    + evolve_rule; [apply evo_state_change|evolve_rule].
Qed.

Lemma evo_open_success ord first_target m :
  evolves evo (handle_open_success mode enable_vardiff shares_per_minute ord first_target m).
Proof.
  apply evo_intro. intros s Hs. unfold handle_open_success.
  apply wp_bind, wp_transact. intros claimed s1 [= <- <-]. cbn [andthen].
  set (s1 := put_requests _ s). assert (server_ok s1) as Hs1 by by apply ok_delete_request.
  assert (evo_post s tt s1) as Hp1 by by split.
  destruct (request_id_to_downstream_id s !! _) as [d|] eqn:Er.
  - apply wp_bind, wp_ensure; [|by intros _]. intros _. cbn [andthen].
    unfold if_present. apply wp_bind, wp_attempt. unfold set_up_channel.
    apply wp_bind, wp_sv1_registered.
    2: { intros _. cbn [andthen]. simpl. apply evo_then; [apply evo_close_channel|done]. }
    intros w Hd Hw. unfold with_data. apply wp_transact. intros queued w' [= <- <-]. cbn [andthen].
    apply wp_bind, wp_update. cbn [andthen]. apply wp_ret. cbn [andthen].
    apply wp_start_session; [by apply (ok_channel_opened s m d w)|done|].
    eexists. split; [simpl; by rewrite lookup_insert_eq|]. by left.
  - apply evo_then; [|done]. evolve_rule; [evolve_rule|].
    evolve_rule; [|evolve_rule]. evolve_rule; [evolve_rule|apply evo_close_channel].
Qed.

Lemma evo_open_error r : evolves evo (handle_open_error r).
Proof.
  unfold handle_open_error. evolve_rule; [|repeat evolve_rule].
  apply evolves_transact. intros s Hs. split; [by apply ok_delete_request|done].
Qed.

Lemma ok_delete_channel s c :
  server_ok s → server_ok (put_channels (delete c (channel_id_to_downstream_id s)) s).
Proof.
  intros [? [] ???]. split; try done. split; simpl; try done.
  intros c' d [_ ?]%lookup_delete_Some. by apply tb_channels.
Qed.

Lemma evo_upstream_close c : evolves evo (disconnect_downstream_for_upstream_close c).
Proof.
  apply evo_intro. intros s Hs. unfold disconnect_downstream_for_upstream_close.
  apply wp_bind, wp_transact. intros removed s1 [= <- <-]. cbn [andthen].
  set (s1 := put_channels _ s). assert (server_ok s1) as Hs1 by by apply ok_delete_channel.
  destruct (channel_id_to_downstream_id s !! c) as [d|] eqn:Ec; [|by apply wp_ret].
  apply wp_bind, wp_ask. cbn [andthen]. destruct (bool_decide _); [|by apply wp_ret].
  apply wp_focus; [intros _; by apply wp_ret|]. intros w Hw. simpl in Hw.
  apply wp_bind, wp_update. cbn [andthen]. apply wp_update.
  set (w' := put_cancelled true _).
  assert (conn_ok mode d w') as Hok' by (apply conn_upstream_closed, (sv_conns _ _ _ Hs d w Hw)).
  assert (moved (connections s) (<[d := w']> (connections s))) as Hm.
  { eapply moves_moved; [done|done| |done]. intros _. by right. }
  destruct (tb_channels _ _ _ _ _ _ _ _ (sv_tables _ _ _ Hs) c d Ec) as (_ & v & Hv & Hvc).
  assert (v = w) as -> by congruence.
  split; [|by split]. destruct (sv_tables _ _ _ Hs). destruct Hs. simpl in *.
  split; simpl; [by apply map_Forall_insert_2| |done|by eapply log_moved|by eapply ids_conn].
  split; simpl; try done.
  - rewrite dom_insert_L. set_solver.
  - intros r d' Hr. destruct (tb_requests r d' Hr) as (? & x & Hx & Ex & ?). split; [done|].
    exists x. rewrite lookup_insert_ne; [done|]. intros <-. congruence.
  - intros c' d' [Hne Hc']%lookup_delete_Some. destruct (tb_channels c' d' Hc') as (? & x & Hx & Ex).
    split; [done|]. exists x. rewrite lookup_insert_ne; [done|]. intros <-. congruence.
Qed.

Lemma evo_extranonce_change c prefix : evolves evo (handle_upstream_extranonce_change c prefix).
Proof.
  apply evo_intro. intros s Hs. unfold handle_upstream_extranonce_change.
  apply wp_bind, wp_ask. cbn [andthen].
  destruct (channel_id_to_downstream_id s !! c) as [d|]; [|by apply wp_ret].
  apply wp_bind, wp_ask. cbn [andthen]. destruct (negb _); [by apply wp_ret|].
  eapply evo_bind; [|done|].
  { apply evo_with_connection; repeat evolve_rule. }
  intros len s1 Hs1 _. apply wp_bind, wp_ensure; [|done]. intros _. cbn [andthen].
  apply wp_bind, wp_focus; [done|]. intros w Hw. unfold with_data. apply wp_transact.
  intros b w1 E. cbn [andthen].
  destruct (pend_extranonce _ _ _) as [b' v] eqn:Ep. simplify_eq.
  pose proof (sv_conns _ _ _ (proj1 Hs1) d w Hw) as Hok.
  destruct (conn_pend mode d w prefix len b v Hok Ep) as (Hok1 & Hsub & _).
  assert (moves w (put_data v w)) as Hmv.
  { unfold pend_extranonce in Ep. destruct (is_subscribed _); simplify_eq/=; by split. }
  set (s2 := put_connections _ s1).
  assert (evo_post s tt s2) as Hs2.
  { destruct (evo_conn mode enable_vardiff s1 d w (put_data v w) Hw) as [? Hm]; [by split|apply Hs1|].
    split; [done|]. etrans; [apply Hs1|exact Hm]. }
  unfold has_sender. apply wp_bind, wp_ask. cbn [andthen].
  apply wp_bind, wp_ensure; [|done]. intros _. cbn [andthen].
  apply wp_bind. apply wp_focus; [intros _; by apply wp_ret|].
  intros w' Hw'. simpl in Hw'. rewrite lookup_insert_eq in Hw'. injection Hw' as <-.
  apply wp_bind, wp_ask. cbn [andthen]. simpl. destruct (events_open w).
  - apply wp_bind, wp_update. cbn [andthen]. apply wp_ret. cbn [andthen].
    eapply (wp_mono _ (evo_post s)); [done|]. apply evo_then; [evolve_rule|].
    destruct (evo_conn mode enable_vardiff s2 d (put_data v w) (put_events (events w ++ [EvSetExtranonce
      {| extra_nonce1 := prefix; extra_nonce2_size := len |} b]) (put_data v w))) as [? Hm].
    + simpl. by rewrite lookup_insert_eq.
    + split; [by split|]. intros ?. apply (conn_event mode d (put_data v w)); [done|].
      destruct b; [by apply Hsub|done].
    + apply Hs2.
    + split; [done|]. etrans; [apply Hs2|exact Hm].
  - apply wp_ret. cbn [andthen]. apply wp_ensure; [done|]. intros _.
    destruct (evo_conn mode enable_vardiff s2 d (put_data v w) (put_data v w)) as [? Hm].
    + simpl. by rewrite lookup_insert_eq.
    + done.
    + apply Hs2.
    + split; [done|]. etrans; [apply Hs2|exact Hm].
Qed.

(** ** All of the channel manager's messages *)

(** What a run has to have heard of when a message comes. *)
Definition heard (received : option Sv1Message) (s : Sv1Server) : Prop :=
  match received with
  | Some (DownNewExtendedMiningJob m) =>
      ∀ p, prevhashes s !! resolve_channel_id mode (nj_channel_id m) = Some p → came m p
  | Some (DownSetTarget c t) =>
      enable_vardiff = false → ∀ d, addressed s c d → chosen d (advertised t)
  | _ => True
  end.

(** The previous hashes after a message. *)
Definition prevhashes_after (received : option Sv1Message) (prev : gmap N SetNewPrevHash)
    : gmap N SetNewPrevHash :=
  match received with
  | Some (DownSetNewPrevHash p) => <[snp_channel_id p := p]> prev
  | _ => prev
  end.

Definition message_post (received : option Sv1Message) (s s' : Sv1Server) : Prop :=
  server_ok s' ∧ prevhashes s' = prevhashes_after received (prevhashes s).

Lemma evo_message {A} received s (r : A) s' :
  prevhashes_after received (prevhashes s) = prevhashes s →
  evo_post s r s' → message_post received s s'.
Proof. intros Hp (? & _ & _ & ?). split; [done|congruence]. Qed.

Lemma wp_upstream_message ord now first_target received s :
  server_ok s → heard received s →
  wp (handle_upstream_message mode enable_vardiff shares_per_minute max_past_jobs ord now
    first_target received) (λ _ s', message_post received s s') s.
Proof.
  intros Hs Hh. unfold handle_upstream_message.
  destruct received as [m|]; [|by apply wp_bind, wp_raise; cbn [andthen]; split].
  apply wp_bind, wp_ret. cbn [andthen].
  destruct m as [m|r e|m|m|c t|c prefix|c reason].
  4: { apply wp_update. split; [by destruct Hs; split|done]. }
  all: eapply wp_mono; [intros result s'; by apply (evo_message _ s result)|].
  - apply evo_elim; [apply evo_open_success|done].
  - apply evo_elim; [apply evo_open_error|done].
  - by apply wp_new_job.
  - pose proof (λ H, evo_elim _ _ _ s (evo_set_target ord c t) H).
    pose proof (wp_set_target_plain ord c t s Hs). simpl in Hh. destruct enable_vardiff; auto.
  - apply evo_elim; [apply evo_extranonce_change|done].
  - apply evo_elim; [apply evo_upstream_close|done].
Qed.
End upstream.
