(* ===== verification/Sv1Safety.v ===== *)
(** * Translator: the SV1 server keeps its invariant in every run

    Disconnections, new connections and the clean-up, and with them every
    step of the server and of its miners' tasks. *)
From Stdlib Require Import Ascii.
From S2P Require Import Prelude Handler SharedMap Bitcoin ShareCache ClientChannels TproxyManager JobStore Sv1Api Sv1Downstream Sv1Server Sv1Difficulty Sv1System Sv1Inv Sv1Keeps Sv1Upstream.

Section safety.
Context `{CC : ClientChannels} `{ST : Sv1Types} `{API : !Sv1Api CC ST} `{First : FirstTarget} `{Src : Sources}.
Context (mode : TproxyMode) (enable_vardiff : bool).
Context (shares_per_minute min_individual_miner_hashrate : Hashrate).
Context (downstream_extranonce2_size : N) (user_identity : option string).
Context (max_past_jobs : option nat) (job_keepalive_interval_secs : N).

#[local] Notation evo := (evo mode enable_vardiff).
#[local] Notation server_ok := (server_ok mode enable_vardiff).
#[local] Notation state_change := (send_update_channel_on_downstream_state_change mode shares_per_minute).
#[local] Notation handle_disconnect :=
  (handle_downstream_disconnect mode enable_vardiff shares_per_minute).

(** ** Programs that only send to the channel manager, and no share *)
Definition no_share (m : Sv1Request * option string) : Prop :=
  ∀ x, m.1 ≠ ReqSubmitSharesExtended x.
Definition reports (s s' : Sv1Server) : Prop :=
  ∃ l, s' = put_to_manager (to_manager s ++ l) s ∧ Forall no_share l.

#[export] Instance reports_preorder : PreOrder reports.
Proof.
  split.
  - intros s. exists []. rewrite app_nil_r. split; [by destruct s|constructor].
  - intros s1 s2 s3 (l1 & -> & H1) (l2 & -> & H2). exists (l1 ++ l2). simpl.
    split; [by rewrite app_assoc|by apply Forall_app].
Qed.

Lemma reports_send m worker :
  no_share (m, worker) → evolves reports (send_to_manager m worker).
Proof.
  intros Hm. unfold send_to_manager. repeat evolve_rule. apply evolves_update. intros s.
  eexists. split; [done|]. by constructor.
Qed.

Lemma reports_read {A} d (absent : server_handler A) (p : downstream_handler A) :
  evolves reports absent → evolves eq p → evolves reports (with_connection d absent p).
Proof.
  intros Ha Hp. eapply evolves_focus; [done..|]. intros s w w' Hw <-.
  rewrite insert_id by done. replace (put_connections (connections s) s) with s by by destruct s.
  reflexivity.
Qed.

Lemma reports_state_change ord : evolves reports (state_change ord).
Proof.
  unfold send_update_channel_on_downstream_state_change, aggregated_downstream_snapshot.
  evolve_rule; [evolve_rule|]. evolve_rule.
  - repeat evolve_rule. apply reports_read; repeat evolve_rule.
  - evolve_rule; first [by apply reports_send|evolve_rule].
Qed.

Lemma reports_log cs s s' : reports s s' → log_ok mode cs (to_manager s) → log_ok mode cs (to_manager s').
Proof.
  intros (l & -> & Hl) Hlog m worker [?|Hin]%elem_of_app; [by eapply Hlog|].
  rewrite Forall_forall in Hl. by destruct (Hl _ Hin m).
Qed.

(** ** Disconnections *)

(** What is left of a miner that has gone. *)
Record gone (d : N) (s : Sv1Server) : Prop := {
  gn_registered : d ∉ downstreams s;
  gn_sender : d ∉ sv1_server_to_downstream_sender s;
  gn_requests : ∀ r, request_id_to_downstream_id s !! r ≠ Some d;
  gn_channels : ∀ c, channel_id_to_downstream_id s !! c ≠ Some d;
  gn_vardiff : vardiff s !! d = None;
  gn_updates : pending_target_updates s !! d = None;
}.

(** The tables without a miner, and without its channel. *)
Lemma tables_without cs ds senders reqs chans vd upd d :
  tables_ok enable_vardiff cs ds senders reqs chans vd upd → d ∉ dom vd → d ∉ dom upd →
  let chans' := match cs !! d ≫= λ w, channel_id (downstream_data w) with
                | Some c => delete c chans | None => chans end in
  (∀ c, d ∈ ds → chans' !! c ≠ Some d) ∧
  tables_ok enable_vardiff cs (ds ∖ {[d]}) (senders ∖ {[d]}) (forget_requests d reqs)
    (if decide (d ∈ ds) then chans' else chans) vd upd.
Proof.
  intros [] Hvd Hupd chans'.
  assert (∀ c d', chans' !! c = Some d' → chans !! c = Some d' ∧ d' ≠ d) as Hchans.
  { unfold chans'. intros c d'. destruct (cs !! d) as [w|] eqn:Ew; simpl.
    - destruct (channel_id (downstream_data w)) as [c0|] eqn:Ec.
      + intros [Hne Hc]%lookup_delete_Some. split; [done|]. intros ->.
        destruct (tb_channels c d Hc) as (_ & v & Hv & Hvc). congruence.
      + intros Hc. split; [done|]. intros ->. destruct (tb_channels c d Hc) as (_ & v & Hv & ?).
        congruence.
    - intros Hc. split; [done|]. intros ->. destruct (tb_channels c d Hc) as (_ & v & ? & ?).
      congruence. }
  split; [intros c _ Hc; by apply Hchans in Hc as [_ ?]|].
  assert (∀ r d', forget_requests d reqs !! r = Some d' → reqs !! r = Some d' ∧ d' ≠ d) as Hreqs.
  { intros r d'. unfold forget_requests, SharedMap.retain. rewrite map_lookup_filter_Some. simpl.
    intros [? Hne%negb_true_iff%bool_decide_eq_false]. done. }
  split; [clear -tb_registered; set_solver|by rewrite tb_senders| | | |clear -tb_vardiff Hvd; set_solver|done|done].
  - intros r d' [Hr Hne]%Hreqs. destruct (tb_requests r d' Hr) as [? ?]. split; [|done].
    apply elem_of_difference. split; [done|]. by intros ->%elem_of_singleton.
  - intros r r' d' [? _]%Hreqs [? _]%Hreqs. by eapply tb_unique.
  - intros c d' Hc. destruct (decide (d ∈ ds)).
    + apply Hchans in Hc as [Hc ?]. destruct (tb_channels c d' Hc). split; [|done].
      apply elem_of_difference. split; [done|]. by intros ->%elem_of_singleton.
    + destruct (tb_channels c d' Hc). split; [|done]. apply elem_of_difference.
      split; [done|]. by intros ->%elem_of_singleton.
Qed.

(** The channel manager is told to close the miner's channel. *)
Definition close_told (d : N) (s s' : Sv1Server) : Prop :=
  ∀ w c, d ∈ downstreams s → connections s !! d = Some w →
    channel_id (downstream_data w) = Some c → manager_open s = true →
    (ReqCloseChannel c downstream_disconnected, None) ∈ to_manager s'.

Record disconnect_post (d : N) (s s' : Sv1Server) : Prop := {
  ds_ok : server_ok s';
  ds_moved : moved (connections s) (connections s');
  ds_gone : gone d s';
  ds_told : close_told d s s';
  ds_prevhashes : prevhashes s' = prevhashes s;
}.

(** The server without a miner: unregistered, its channel entry removed, and
    [l] sent to the channel manager. *)
Definition without (d : N) (l : list (Sv1Request * option string)) (s : Sv1Server) : Sv1Server :=
  put_to_manager (to_manager s ++ l)
    (put_channels
       (match connections s !! d ≫= λ w, channel_id (downstream_data w) with
        | Some c => delete c (channel_id_to_downstream_id s)
        | None => channel_id_to_downstream_id s end)
       (put_requests (forget_requests d (request_id_to_downstream_id s))
          (put_downstreams (downstreams s ∖ {[d]})
             (put_senders (sv1_server_to_downstream_sender s ∖ {[d]}) s)))).

Lemma ok_without d l s :
  server_ok s → d ∈ downstreams s → d ∉ dom (vardiff s) → d ∉ dom (pending_target_updates s) →
  Forall no_share l → close_told d s (without d l s) → disconnect_post d s (without d l s).
Proof.
  intros Hs Hd Hv Hu Hl Hclose.
  destruct (tables_without _ _ _ _ _ _ _ d (sv_tables _ _ _ Hs) Hv Hu) as [Hc Ht].
  rewrite decide_True in Ht by done. destruct Hs. split; [|done| |done|done].
  - split; simpl; try done. eapply (reports_log _ s (put_to_manager (to_manager s ++ l) s)); [|done].
    by exists l.
  - split; simpl; [set_solver| | |by auto|by apply not_elem_of_dom..].
    + destruct sv_tables. rewrite tb_senders. set_solver.
    + intros r. unfold forget_requests, SharedMap.retain. rewrite map_lookup_filter_Some. simpl.
      by intros [_ ?%negb_true_iff%bool_decide_eq_false].
Qed.

(** Unregistering a miner that is not there. *)
Lemma ok_unregistered d s :
  server_ok s → d ∉ downstreams s → d ∉ dom (vardiff s) → d ∉ dom (pending_target_updates s) →
  disconnect_post d s (put_requests (forget_requests d (request_id_to_downstream_id s))
    (put_downstreams (downstreams s ∖ {[d]})
       (put_senders (sv1_server_to_downstream_sender s ∖ {[d]}) s))).
Proof.
  intros Hs Hd Hv Hu.
  destruct (tables_without _ _ _ _ _ _ _ d (sv_tables _ _ _ Hs) Hv Hu) as [_ Ht].
  rewrite decide_False in Ht by done. destruct Hs, sv_tables. split; [by split|done| |by intros w c ?|done].
  split; simpl; [set_solver|rewrite tb_senders; set_solver| | |by apply not_elem_of_dom..].
  - intros r. unfold forget_requests, SharedMap.retain. rewrite map_lookup_filter_Some. simpl.
    by intros [_ ?%negb_true_iff%bool_decide_eq_false].
  - intros c Hc. by destruct (tb_channels c d Hc).
Qed.

(** The state of the difficulty control goes first. *)
Lemma wp_forget_vardiff d s :
  server_ok s →
  wp (forget_vardiff enable_vardiff d) (λ r s', r = Ok tt ∧ server_ok s' ∧
    connections s' = connections s ∧ downstreams s' = downstreams s ∧
    manager_open s' = manager_open s ∧ prevhashes s' = prevhashes s ∧ d ∉ dom (vardiff s') ∧ d ∉ dom (pending_target_updates s')) s.
Proof.
  intros Hs. unfold forget_vardiff. destruct enable_vardiff eqn:En.
  - apply wp_update. split_and!; try done; simpl; rewrite ?dom_delete_L; [|set_solver..].
    destruct Hs as [? [] ???]. split; try done. split; try done; simpl; rewrite ?dom_delete_L; set_solver.
  - apply wp_ret. destruct (sv_tables _ _ _ Hs).
    assert (vardiff s = ∅) as Hv by auto. rewrite Hv, dom_empty_L in *.
    split_and!; try done; set_solver.
Qed.

(** A miner that goes leaves nothing behind. *)
Lemma wp_disconnect ord d s :
  server_ok s → wp (handle_disconnect ord d) (λ _, disconnect_post d s) s.
Proof.
  intros Hs0. unfold handle_downstream_disconnect. apply wp_bind.
  eapply wp_mono; [|by apply wp_forget_vardiff].
  intros r s1 (-> & Hs & Ec & Ed & Eo & Ep & Hv & Hu).
  apply (wp_mono _ (λ _, disconnect_post d s1)).
  { intros _ s' [Hok Hmv Hg Ht Hp]. unfold close_told in Ht. rewrite Ec, Ed, Eo, ?Ep in *. by split. }
  cbn [andthen]. clear s Hs0 Ec Ed Eo Ep. rename s1 into s. unfold unregister.
  apply wp_bind, wp_bind, wp_update. cbn [andthen]. apply wp_transact.
  intros registered s2 [= <- <-]. cbn [andthen].
  set (s2 := put_requests _ _). case_bool_decide as Hd; simpl in Hd;
    [|apply wp_ret; by apply ok_unregistered].
  apply wp_bind. eapply (wp_mono _ (λ r s', r = Ok tt ∧ reports s2 s')).
  2: { destruct enable_vardiff; [|by apply wp_ret]. apply wp_bind, wp_attempt.
       eapply wp_mono; [|apply reports_state_change]. intros r s3 Hr. cbn [andthen]. by apply wp_ret. }
  intros r s3 (-> & l & -> & Hl). cbn [andthen]. destruct Hs as [Hcs Ht Hj Hlog Hids].
  destruct (proj1 (elem_of_dom (connections s) d)) as [w Hw]; [by apply Ht|].
  assert (server_ok s) as Hs by by split.
  apply wp_bind, wp_focus; [simpl; congruence|]. intros w' Hw'. simpl in Hw'. simplify_eq.
  apply wp_ask. cbn [andthen]. simpl. rewrite insert_id by done.
  pose proof (λ l, ok_without d l s Hs Hd Hv Hu) as Hwithout. unfold without in Hwithout.
  rewrite Hw in Hwithout. simpl in Hwithout.
  destruct (channel_id (downstream_data w)) as [c|] eqn:Ech.
  - apply wp_bind, wp_update. cbn [andthen]. apply wp_bind, wp_attempt.
    unfold close_channel, send_to_manager. apply wp_bind, wp_ask. simpl.
    destruct (manager_open s) eqn:Eo; [apply wp_update|apply wp_raise]; cbn [andthen]; apply wp_ret.
    + specialize (Hwithout (l ++ [(ReqCloseChannel c downstream_disconnected, None)])).
      rewrite app_assoc in Hwithout. apply Hwithout.
      * apply Forall_app. split; [done|]. by constructor.
      * intros w' c' _ ? ? _. simplify_eq. simpl. apply elem_of_app. right. by left.
    + apply Hwithout; [done|]. intros w' c' _ _ _ ?. congruence.
  - apply wp_ret. apply Hwithout; [done|]. intros w' c' _ ? ?. congruence.
Qed.

(** ** Other changes of the server *)
Lemma tables_empty cs vd upd :
  vd = ∅ → upd = ∅ → tables_ok enable_vardiff cs ∅ ∅ ∅ ∅ vd upd.
Proof. intros -> ->. by split. Qed.

Lemma ok_cleanup s : server_ok s → server_ok (cleanup enable_vardiff s).
Proof.
  intros []. assert (vardiff (cleanup enable_vardiff s) = ∅) as Hv.
  { unfold cleanup. destruct enable_vardiff; [done|]. by apply sv_tables. }
  split; [by destruct enable_vardiff| |by destruct enable_vardiff..].
  by apply tables_empty.
Qed.

Lemma new_conn_ok d rate :
  conn_ok mode d (new_downstream d first_target_of rate max_past_jobs).
Proof.
  split; simpl; try done; try lia; try naive_solver.
  - intros pre n post E. by destruct pre.
  - intros n ?%not_elem_of_nil. done.
  - exists []. exists []. split_and!; try done; [|apply NoDup_nil_2|simpl; lia].
    split_and!; [done|done|apply NoDup_nil_2].
  - by intros x ?%not_elem_of_nil.
  - split; [apply NoDup_nil_2|lia].
  - intros n [?%not_elem_of_nil|[?|?%not_elem_of_nil]]; done.
  - split_and!; [by left|done..].
Qed.

(** A new connection gets an id that no connection had before. *)
Lemma ok_accept s :
  server_ok s → downstream_id_factory s + 1 < u64_modulus →
  server_ok (accept min_individual_miner_hashrate max_past_jobs first_target_of s).
Proof.
  intros [] Hid. set (d := downstream_id_factory s) in *.
  assert (connections s !! d = None) as Hnew.
  { apply eq_None_not_Some. intros Hd%sv_ids. lia. }
  assert (moved (connections s) (<[d := new_downstream d first_target_of
    (Some min_individual_miner_hashrate) max_past_jobs]> (connections s))) as Hm.
  { intros d' w Hw. exists w. rewrite lookup_insert_ne by congruence. done. }
  unfold accept. fold d. split; simpl; [|destruct sv_tables; split; simpl; try done|done|by eapply log_moved|].
  - apply map_Forall_insert_2; [apply new_conn_ok|done].
  - rewrite dom_insert_L. set_solver.
  - by rewrite tb_senders.
  - intros r d' Hr. destruct (tb_requests r d' Hr) as (? & w & ? & ?). split; [set_solver|].
    exists w. rewrite lookup_insert_ne by congruence. done.
  - intros c d' Hc. destruct (tb_channels c d' Hc) as (? & w & ? & ?). split; [set_solver|].
    exists w. rewrite lookup_insert_ne by congruence. done.
  - set_solver.
  - rewrite u64_wrap_small by done. intros k [w [[<- _]|[_ Hk]]%lookup_insert_Some]; [lia|].
    assert (k < d); [by apply sv_ids|lia].
Qed.

Lemma ok_conn s d w w' :
  server_ok s → connections s !! d = Some w → moves w w' → conn_ok mode d w' →
  server_ok (put_connections (<[d := w']> (connections s)) s).
Proof. intros Hs Hw Hm Hok. by apply (evo_conn mode enable_vardiff s d w w'). Qed.

(** ** Steps *)

(** What a step leaves: the invariant, and of the previous hashes only those it
    found and the one it was sent. *)
Record kept (m : option Sv1Message) (s s' : Sv1Server) : Prop := {
  kp_ok : server_ok s';
  kp_prevhashes : ∀ key p, prevhashes s' !! key = Some p →
    prevhashes_after m (prevhashes s) !! key = Some p;
}.

Lemma kept_same_state s : server_ok s → kept None s s.
Proof. by split. Qed.

Lemma kept_same m s0 s s' :
  kept m s0 s → server_ok s' → prevhashes s' = prevhashes s → kept m s0 s'.
Proof. intros [_ Hp] Hs E. split; [done|]. by rewrite E. Qed.

Lemma kept_cleanup m s0 s : kept m s0 s → kept m s0 (cleanup enable_vardiff s).
Proof.
  intros [Hs _]. split; [by apply ok_cleanup|]. intros key p.
  replace (prevhashes (cleanup enable_vardiff s)) with (∅ : gmap N SetNewPrevHash)
    by by destruct enable_vardiff.
  by rewrite lookup_empty.
Qed.

Lemma kept_error_action m s0 ord e t s c t' s' :
  kept m s0 s →
  server_error_action mode enable_vardiff shares_per_minute ord e t s = Done (c, t', s') → kept m s0 s'.
Proof.
  intros Hs. unfold server_error_action. destruct (_ || _); [by intros [= <- <- <-]|].
  destruct (err_action e) as [|d| |]; try by intros [= <- <- <-].
  pose proof (wp_disconnect ord d s (kp_ok _ _ _ Hs)) as Hd. unfold wp in Hd.
  destruct (handle_disconnect ord d s) as [[[[]|e'] s1]|]; [| |done]; intros [= <- <- <-];
    destruct Hd; by eapply kept_same.
Qed.

Lemma kept_after_server m s0 ord y outcome :
  match outcome with Done (_, s) => kept m s0 s | Panic => kept m s0 (sys_server y) end →
  kept m s0 (sys_server (after_server_handler mode enable_vardiff shares_per_minute ord y outcome)).
Proof.
  destruct outcome as [[[[]|e] s]|]; simpl; [done| |done]. intros Hs.
  destruct (server_error_action _ _ _ _ _ _ _) as [[[c t] s']|] eqn:E; [|done].
  eapply kept_error_action in E; [|done]. destruct c; simpl; [done|by apply kept_cleanup].
Qed.

Lemma kept_wp {A} (p : server_handler A) s :
  wp p (evo_post mode enable_vardiff s) s → server_ok s →
  match p s with Done (_, s') => kept None s s' | Panic => kept None s s end.
Proof.
  unfold wp. destruct (p s) as [[r s']|]; [|intros; by apply kept_same_state].
  intros (? & _ & _ & E) _. split; [done|]. simpl. by rewrite E.
Qed.

Lemma kept_conn s d w w' :
  server_ok s → connections s !! d = Some w → moves w w' → conn_ok mode d w' →
  kept None s (put_connections (<[d := w']> (connections s)) s).
Proof. intros. split; [by eapply ok_conn|done]. Qed.

Lemma kept_leave d w y :
  server_ok (sys_server y) → connections (sys_server y) !! d = Some w →
  ∀ w', moves w w' → conn_ok mode d w' → kept None (sys_server y) (sys_server (leave_loop d w' y)).
Proof.
  intros Hy Hw w' Hm Hok. simpl. eapply kept_conn; [done|done| |by apply conn_close].
  etrans; [exact Hm|]. by split.
Qed.

Lemma kept_after_downstream d w y outcome :
  server_ok (sys_server y) → connections (sys_server y) !! d = Some w →
  match outcome with Done (_, w') => conn_ok mode d w' ∧ moves w w' | Panic => True end →
  kept None (sys_server y) (sys_server (after_downstream_handler d y outcome)).
Proof.
  intros Hy Hw. destruct outcome as [[[[]|e] w']|]; simpl; [| |by intros _; apply kept_same_state].
  - intros [??]. by eapply kept_conn.
  - intros [Hok Hm]. unfold downstream_error_action. destruct (_ || _); [by eapply kept_conn|].
    destruct (err_action e); simpl; try by eapply kept_conn.
    + eapply (kept_leave d w y Hy Hw (put_cancelled true w')); [|by apply conn_cancelled].
      etrans; [exact Hm|by split].
    + by eapply (kept_leave d w y Hy Hw w').
Qed.

Lemma evo_forward d received : evolves evo (forward_miner_message d received).
Proof.
  unfold forward_miner_message. repeat evolve_rule. apply evolves_update.
  intros s []. split; [by split|done].
Qed.

Context `{!Sv1Laws API}.
#[local] Notation step := (sv1_step mode enable_vardiff shares_per_minute
  min_individual_miner_hashrate downstream_extranonce2_size user_identity max_past_jobs
  job_keepalive_interval_secs first_target_of).
(** What a run has to have heard of before a step. *)
Definition step_heard (m : option Sv1Message) (s : Sv1Server) : Prop :=
  heard mode enable_vardiff m s ∧
  (enable_vardiff = true → ∀ d t, proposed shares_per_minute s d t → chosen d t).

Lemma kept_step m y y' :
  step m y y' → step_heard m (sys_server y) → server_ok (sys_server y) →
  kept m (sys_server y) (sys_server y').
Proof.
  intros [y0 _ _ Hid|y0 ord _ _ _ _|y0 ord now received _ _ _|y0 ord _ _ Hord Hvd|y0 ord now _ _ _ _|y0 _ _
    |y0 d w now _ _ Hw _|y0 d received _ _|y0 d w _ _ Hw|y0 ord d _ _|y0 d w Hw|y0|y0 t _] [Hh Hprop] Hy.
  - split; [by apply ok_accept|done].
  - apply kept_after_server. apply kept_wp; [|done]. apply evo_elim; [|done].
    by apply evo_handle_miner_message.
  - apply kept_after_server.
    pose proof (wp_upstream_message mode enable_vardiff shares_per_minute max_past_jobs ord now
      first_target_of received (sys_server y0) Hy Hh) as H. unfold wp in H.
    destruct (handle_upstream_message _ _ _ _ _ _ _ _ _) as [[r s']|] eqn:E.
    + destruct H as [Hs Hp]. split; [done|]. by rewrite Hp.
    + destruct received as [[]|]; done.
  - apply kept_after_server. apply kept_wp; [|done]. by apply wp_vardiff_updates; [..|apply Hprop].
  - apply kept_after_server. apply kept_wp; [|done]. apply evo_elim; [|done]. by apply evo_keepalive_jobs.
  - by apply kept_cleanup, kept_same_state.
  - eapply kept_after_downstream; [done..|].
    pose proof (wp_round mode d now w (sv_conns _ _ _ Hy d w Hw)) as H. unfold wp in H.
    by destruct (handle_sv1_server_message now w) as [[r w']|].
  - pose proof (kept_wp _ _ (evo_elim _ _ _ _ (evo_forward d received) Hy) Hy) as H. unfold after_forward.
    destruct (forward_miner_message _ _ _) as [[[[]|e] s]|] eqn:E; [done| |done].
    destruct (connections s !! d) as [w|] eqn:Ew; [|by apply kept_same_state].
    destruct (kept_after_downstream d w (put_server s y0) (Done (Err e, w))) as [Hs' Hp']; [apply H|done|..].
    { split; [by apply (sv_conns _ _ _ (kp_ok _ _ _ H))|done]. }
    split; [exact Hs'|]. intros key p Hkey. by apply (kp_prevhashes _ _ _ H), Hp'.
  - eapply kept_leave; [done..|]. by apply (sv_conns _ _ _ Hy).
  - unfold clean_up_after. pose proof (wp_disconnect ord d (sys_server y0) Hy) as H. unfold wp in H.
    simpl. destruct (handle_disconnect _ _ _) as [[[[]|e] s]|]; [| |by apply kept_same_state];
      destruct H; by eapply kept_same; [apply kept_same_state|..].
  - simpl. eapply kept_conn; [done|done|by split|]. by apply conn_closed, (sv_conns _ _ _ Hy).
  - split; [by destruct Hy; split|done].
  - by apply kept_same_state.
Qed.

Lemma ok_start : server_ok (sys_server start_system).
Proof.
  split; simpl; [apply map_Forall_empty|by apply tables_empty| | |].
  - intros key store E. by rewrite lookup_empty in E.
  - by intros m worker ?%not_elem_of_nil.
  - intros d. rewrite lookup_empty. by intros [].
Qed.

End safety.

(** ** Runs *)
Section runs.
Context `{CC : ClientChannels} `{ST : Sv1Types} `{API : !Sv1Api CC ST} `{First : FirstTarget} `{!Sv1Laws API}.
Context (mode : TproxyMode) (enable_vardiff : bool).
Context (shares_per_minute min_individual_miner_hashrate : Hashrate).
Context (downstream_extranonce2_size : N) (user_identity : option string).
Context (max_past_jobs : option nat) (job_keepalive_interval_secs : N).

#[local] Notation logged := (logged_step mode enable_vardiff shares_per_minute
  min_individual_miner_hashrate downstream_extranonce2_size user_identity max_past_jobs
  job_keepalive_interval_secs first_target_of).
#[local] Notation run := (sv1_run mode enable_vardiff shares_per_minute
  min_individual_miner_hashrate downstream_extranonce2_size user_identity max_past_jobs
  job_keepalive_interval_secs first_target_of).
#[local] Notation earlier := (earlier_in_run mode enable_vardiff shares_per_minute
  min_individual_miner_hashrate downstream_extranonce2_size user_identity max_past_jobs
  job_keepalive_interval_secs first_target_of).

(** A job that came in the history [h], with the previous hash its channel had
    been sent last. *)
Definition received_job (h : list Sv1Message) (m : NewExtendedMiningJob) (p : SetNewPrevHash) : Prop :=
  ∃ h1 h2, h = h1 ++ DownNewExtendedMiningJob m :: h2 ∧
    last_prevhash (resolve_channel_id mode (nj_channel_id m)) h1 = Some p.

(** A target that was chosen for the miner [d] in the run to [y]: with variable
    difficulty, that of a rate its difficulty control asked for; without, that
    of a [SetTarget] for its channel. *)
Definition chosen_target (h : list Sv1Message) (y : Sv1System) (d t : N) : Prop :=
  ∃ h0 y0, earlier h0 y0 h y ∧
    if enable_vardiff then proposed shares_per_minute (sys_server y0) d t
    else ∃ c u h2, h = h0 ++ DownSetTarget c u :: h2 ∧ addressed mode (sys_server y0) c d ∧
      t = advertised u.

Definition sources_of (h : list Sv1Message) (y : Sv1System) : Sources :=
  {| came := received_job h; chosen := chosen_target h y |}.

Lemma last_prevhash_app key h1 h2 :
  last_prevhash key (h1 ++ h2) =
    match last_prevhash key h2 with Some p => Some p | None => last_prevhash key h1 end.
Proof. unfold last_prevhash. rewrite omap_app, last_app. by destruct (last (omap _ h2)). Qed.

Lemma logged_prefix h0 y0 h y : rtc logged (h0, y0) (h, y) → ∃ h2, h = h0 ++ h2.
Proof.
  remember (h0, y0) as a eqn:Ea. remember (h, y) as b eqn:Eb. intros Hr. revert h0 y0 Ea.
  induction Hr as [a|a [h1 y1] c (m & _ & Eh) _ IH]; intros h0 y0 Ea.
  - exists []. rewrite app_nil_r. congruence.
  - subst a. simpl in Eh. subst h1. destruct (IH Eb _ _ eq_refl) as (h2 & ->).
    exists (option_list m ++ h2). by rewrite app_assoc.
Qed.

(** The previous hashes the server knows are those it was sent last. *)
Definition prevhashes_sent (h : list Sv1Message) (s : Sv1Server) : Prop :=
  ∀ key p, prevhashes s !! key = Some p → last_prevhash key h = Some p.

Lemma prevhashes_sent_after m h s s' :
  prevhashes_sent h s →
  (∀ key p, prevhashes s' !! key = Some p → prevhashes_after m (prevhashes s) !! key = Some p) →
  prevhashes_sent (h ++ option_list m) s'.
Proof.
  intros Hh Hs key p Hp%Hs. rewrite last_prevhash_app. destruct m as [m|]; simpl in *; [|by apply Hh].
  destruct m as [| | |q| | |]; simpl in *; try by apply Hh.
  unfold last_prevhash at 1. simpl. destruct (decide (snp_channel_id q = key)) as [<-|]; simpl.
  - by rewrite lookup_insert_eq in Hp.
  - rewrite lookup_insert_ne in Hp by done. by apply Hh.
Qed.

(** Before a step of the run to [y], all it relies on is among the sources. *)
Lemma step_heard_of h0 y0 m y1 h y :
  run h0 y0 → logged (h0, y0) (h0 ++ option_list m, y1) → rtc logged (h0 ++ option_list m, y1) (h, y) →
  prevhashes_sent h0 (sys_server y0) →
  step_heard (Src := sources_of h y) mode enable_vardiff shares_per_minute m (sys_server y0).
Proof.
  intros Hrun Hstep Hrest Hprev. destruct (logged_prefix _ _ _ _ Hrest) as (h2 & Eh).
  assert (earlier h0 y0 h y) as Hearly by (split; [done|by eapply rtc_l]).
  split.
  - destruct m as [[| |m| |c u| |]|]; try done; simpl in Eh; rewrite <-app_assoc in Eh.
    + intros p Hp. exists h0, h2. split; [done|]. by apply Hprev.
    + intros Hdis d Hd. exists h0, y0. split; [done|]. rewrite Hdis. by exists c, u, h2.
  - intros Hvd d t Ht. exists h0, y0. split; [done|]. by rewrite Hvd.
Qed.

Lemma sv1_run_upto h y a :
  rtc logged ([], start_system) a → rtc logged a (h, y) →
  server_ok (Src := sources_of h y) mode enable_vardiff (sys_server a.2) ∧
  prevhashes_sent a.1 (sys_server a.2).
Proof.
  intros Hr. revert a Hr. refine (rtc_ind_r _ _ _ _).
  - intros _. split; [apply ok_start|]. intros key p. simpl. by rewrite lookup_empty.
  - intros [h0 y0] [h1 y1] Hr Hstep IH Hrest.
    destruct (IH (rtc_l _ _ _ _ Hstep Hrest)) as [Hok Hprev]. simpl in *.
    pose proof Hstep as (m & Hm & E). simpl in *. subst h1.
    destruct (kept_step (Src := sources_of h y) mode enable_vardiff shares_per_minute
      min_individual_miner_hashrate downstream_extranonce2_size user_identity max_past_jobs
      job_keepalive_interval_secs m y0 y1 Hm) as [? Hp]; [by eapply step_heard_of|done|].
    split; [done|]. by eapply prevhashes_sent_after.
Qed.

Lemma sv1_run_ok h y :
  run h y → server_ok (Src := sources_of h y) mode enable_vardiff (sys_server y).
Proof. intros Hr. by apply (sv1_run_upto h y (h, y) Hr). Qed.

Lemma run_conn h y d w :
  run h y → connections (sys_server y) !! d = Some w → conn_ok (Src := sources_of h y) mode d w.
Proof. intros Hr Hw. by apply (sv_conns _ _ _ (sv1_run_ok h y Hr)). Qed.
End runs.
