(* ===== verification/Sv1Properties.v ===== *)
(** * Translator: what the SV1 server promises

    Of every run of the server and its miners' tasks: the order of what a
    miner is sent, the work behind it, the shares that leave for the pool, the
    tables and what a miner that goes leaves behind; and of single operations:
    judging a share, rolling versions and keeping jobs alive. *)
From Stdlib Require Import Ascii.
From S2P Require Import Prelude Handler SharedMap Bitcoin ShareCache ClientChannels TproxyManager JobStore Sv1Api Sv1Downstream Sv1Server Sv1Difficulty Sv1System Sv1Inv Sv1Keeps Sv1Upstream Sv1Safety.

(** An id without the delimiter is its own original. *)
Lemma split_once_some sep s : sep ∈ String.list_ascii_of_string s → is_Some (split_once sep s).
Proof.
  induction s as [|c s IH]; simpl; [by intros ?%not_elem_of_nil|].
  destruct (Ascii.eqb_spec c sep) as [|Hne]; [by eauto|].
  intros [->|[[a b] ->]%IH]%elem_of_cons; [done|]. by eexists.
Qed.


Lemma upstream_share_some share : is_Some (upstream_share share).
Proof.
  unfold upstream_share, is_keepalive_job_id, extract_original_job_id. case_bool_decide as Hin; [|done].
  apply split_once_some in Hin as [[a b] ->]. done.
Qed.

(** A [u32] as an [i32] has the same bits. *)
Lemma u32_as_i32_testbit n i :
  i < 32 → Z.testbit (u32_as_i32 n) (Z.of_N i) = N.testbit n i.
Proof.
  intros Hi. unfold u32_as_i32. change 4294967296%Z with (2 ^ 32)%Z.
  rewrite <-Z.testbit_of_N, <-(Z.mod_pow2_bits_low (Z.of_N n) 32 (Z.of_N i)) by lia.
  destruct (_ <? _)%Z; [done|].
  rewrite <-(Z.mod_pow2_bits_low (_ - _) 32 (Z.of_N i)) by lia. f_equal.
  replace (Z.of_N n mod 2 ^ 32 - 2 ^ 32)%Z with (Z.of_N n mod 2 ^ 32 + (-1) * 2 ^ 32)%Z by lia.
  rewrite Z.mod_add by lia. by apply Z.mod_mod.
Qed.

Lemma activate_active {T} (st : Sv1JobStore (T := T)) id j clean st' :
  activate st id j clean = Some st' → JobStore.active st' = Some j.
Proof.
  unfold activate. destruct clean; [by intros [= <-]|]. by intros (st2 & _ & [= <-])%bind_Some.
Qed.

Lemma activate_self {T} (st : Sv1JobStore (T := T)) id j clean st' :
  activate st id j clean = Some st' → JobStore.get st' id = Some j.
Proof.
  unfold activate. destruct clean.
  - intros [= <-]. unfold JobStore.get. simpl. by rewrite decide_True.
  - intros (st2 & _ & [= <-])%bind_Some. unfold JobStore.get. simpl. by rewrite decide_True.
Qed.

Lemma keepalive_is_keepalive id counter : is_keepalive_job_id (keepalive_job_id id counter) = true.
Proof.
  unfold is_keepalive_job_id, keepalive_job_id. apply bool_decide_eq_true.
  induction id as [|c id IH]; simpl; [by left|by right].
Qed.

Section properties.
Context `{CC : ClientChannels} `{ST : Sv1Types} `{API : !Sv1Api CC ST} `{First : FirstTarget} `{!Sv1Laws API}.
Context (mode : TproxyMode) (enable_vardiff : bool).
Context (shares_per_minute min_individual_miner_hashrate : Hashrate).
Context (downstream_extranonce2_size : N) (user_identity : option string).
Context (max_past_jobs : option nat) (job_keepalive_interval_secs : N).

#[local] Notation run := (sv1_run mode enable_vardiff shares_per_minute
  min_individual_miner_hashrate downstream_extranonce2_size user_identity max_past_jobs
  job_keepalive_interval_secs first_target_of).
#[local] Notation reachable := (sv1_reachable mode enable_vardiff shares_per_minute
  min_individual_miner_hashrate downstream_extranonce2_size user_identity max_past_jobs
  job_keepalive_interval_secs first_target_of).
#[local] Notation chosen_target := (chosen_target mode enable_vardiff shares_per_minute
  min_individual_miner_hashrate downstream_extranonce2_size user_identity max_past_jobs
  job_keepalive_interval_secs).
#[local] Notation run_conn := (run_conn mode enable_vardiff shares_per_minute
  min_individual_miner_hashrate downstream_extranonce2_size user_identity max_past_jobs
  job_keepalive_interval_secs).
#[local] Notation run_ok := (sv1_run_ok mode enable_vardiff shares_per_minute
  min_individual_miner_hashrate downstream_extranonce2_size user_identity max_past_jobs
  job_keepalive_interval_secs).
#[local] Notation handle_disconnect :=
  (handle_downstream_disconnect mode enable_vardiff shares_per_minute).
#[local] Notation create_keepalive := (create_keepalive_job mode job_keepalive_interval_secs).

Lemma put_connections_same (s : Sv1Server) : put_connections (connections s) s = s.
Proof. by destruct s. Qed.

(** ** What a miner is sent *)

(** Whatever the server and its tasks have done, every job a miner was
    sent came after at least two responses, so never before the responses to
    its set-up requests, and only to a miner whose set-up is complete. *)
Theorem jobs_wait_for_setup y d w pre n post :
  reachable y → connections (sys_server y) !! d = Some w →
  to_miner w = pre ++ MsgNotify n :: post →
  (2 ≤ responses pre)%nat ∧ setup_complete (session_state (downstream_data w)) = true.
Proof.
  intros [h Hr] Hw E. pose proof (run_conn h y d w Hr Hw) as Hok. split.
  - by eapply (ok_order _ _ _ Hok).
  - apply (ok_setup _ _ _ Hok n). rewrite E. apply elem_of_app. right. by left.
Qed.


(** C11: Every job a miner ever got, keepalive jobs and jobs for late joiners
    included, is the translation of a job that came from the upstream in this
    run with the previous hash its channel had been sent last when it came:
    the same header, coinbase and merkle path under an id that names the
    upstream's job, with the time advanced by at most two hours. *)
Theorem miners_do_upstream_work h y d w n :
  run h y → connections (sys_server y) !! d = Some w → MsgNotify n ∈ to_miner w →
  ∃ h1 m h2 p n0,
    h = h1 ++ DownNewExtendedMiningJob m :: h2 ∧
    last_prevhash (resolve_channel_id mode (nj_channel_id m)) h1 = Some p ∧
    build_sv1_notify_from_sv2 p m (bool_decide (nj_job_id m = snp_job_id p)) = Ok n0 ∧
    original_job_id (ntf_job_id n) = pretty (nj_job_id m) ∧
    n = {| ntf_job_id := ntf_job_id n; ntf_prev_hash := ntf_prev_hash n0;
           coin_base1 := coin_base1 n0; coin_base2 := coin_base2 n0;
           merkle_branch := merkle_branch n0; ntf_version := ntf_version n0;
           ntf_bits := ntf_bits n0; ntf_time := ntf_time n; clean_jobs := clean_jobs n |} ∧
    ntf_time n0 ≤ ntf_time n ≤ ntf_time n0 + MAX_FUTURE_BLOCK_TIME.
Proof.
  intros Hr Hw Hn.
  destruct (ok_notifies _ _ _ (run_conn h y d w Hr Hw) n) as (m & base & p & n0 &
    (h1 & h2 & -> & Hp) & ? & ? & ? & ? & ? & ? & ? & ? & -> & ?); [auto|].
  exists h1, m, h2, p, n0. split_and!; try done; [|lia..]. destruct n; simpl in *. by subst.
Qed.

(** ** Shares *)




(** The header of a share for a job with its prefix and version mask. *)
Definition header_of_share (request : Submit) (mask : option N) (job : Notify) (root : N) : Header :=
  let mask := default VERSION_ROLLING_MASK mask in
  {| h_version := u32_as_i32 (N.lor (N.ldiff (ntf_version job) mask)
       (N.land (default (ntf_version job) (version_bits request)) mask));
     h_prev_blockhash := ntf_prev_hash job; h_merkle_root := root; h_time := sub_time request;
     h_bits := ntf_bits job; h_nonce := sub_nonce request |}.

(** The second lock section accepts the share, and what it then stores. *)
Definition share_accepted (d : N) (request : Submit) (job : Notify) (data : DownstreamData)
    (channel : N) (ctx : Sv1JobValidationContext) (root : N) (data' : DownstreamData) : Prop :=
  let hashes := accepted_share_hashes data in
  let hash := block_hash (header_of_share request (version_rolling_mask data) job root) in
  channel_id data = Some channel ∧
  JobStore.get (job_validation_contexts data) (sub_job_id request) = Some ctx ∧
  merkle_root_from_path (coin_base1 job) (coin_base2 job)
    (ctx_extranonce ctx ++ extra_nonce2 request) (merkle_branch job) = Some root ∧
  hash < ctx_target ctx ∧ hash ∉ hashes ∧
  data' = put_pending_share
    (Some {| ssw_channel_id := channel; ssw_downstream_id := d; ssw_share := request;
             ssw_extranonce := ctx_extranonce ctx; ssw_extranonce2_len := ctx_extranonce2_len ctx;
             ssw_version_rolling_mask := version_rolling_mask data;
             ssw_job_version := Some (ntf_version job) |})
    (put_hashes ((if decide (length hashes = MAX_SEEN_SHARES) then tail hashes else hashes) ++ [hash])
       data).

Lemma judge_share_accepts d request job data data' :
  judge_share d request job data = (Accepted, data') ↔
  ∃ channel ctx root, share_accepted d request job data channel ctx root data'.
Proof.
  unfold judge_share, share_accepted, job_validation_context, validate_sv1_share, share_header. split.
  - destruct (channel_id data) as [c|]; [|done]. destruct (JobStore.get _ _) as [ctx|] eqn:Ectx; [|done].
    destruct (merkle_root_from_path _ _ _ _) as [root|] eqn:Er; [|done]. simpl.
    destruct (_ <? _) eqn:Et; [|done]. apply N.ltb_lt in Et. unfold insert_if_new.
    destruct (decide (_ ∈ _)) as [|Hin]; [done|]. intros [= <-]. by exists c, ctx, root.
  - intros (c & ctx & root & -> & -> & -> & Ht & Hin & ->). simpl.
    assert ((block_hash (header_of_share request (version_rolling_mask data) job root) <? ctx_target ctx) = true)
      as Hlt by by apply N.ltb_lt.
    unfold header_of_share in *. rewrite Hlt. unfold insert_if_new. by rewrite decide_False.
Qed.

Lemma judge_share_rejects d request job data e data' :
  judge_share d request job data = (Rejected e, data') → data' = data.
Proof. unfold judge_share. repeat case_match; congruence. Qed.

(** The handler up to its second lock section. *)
Lemma submit_run d request s w channel job :
  d ∈ downstreams s → connections s !! d = Some w → channel_id (downstream_data w) = Some channel →
  submitted_job mode s channel (sub_job_id request) = Some job →
  sv1_handle_submit mode (Some d) request s =
    Done (Ok (judge_share d request job (downstream_data w)).1,
          put_connections (<[d := put_data (judge_share d request job (downstream_data w)).2 w]>
                             (connections s)) s).
Proof.
  intros Hd Hw Hc Hj. unfold sv1_handle_submit, with_registered_downstream, with_connection, focus, mbind,
    prog_bind, ask, mret, prog_ret. simpl. rewrite bool_decide_eq_true_2, Hw by done.
  rewrite (insert_id (connections s)), put_connections_same by done. rewrite Hc. simpl. rewrite Hj. simpl.
  rewrite bool_decide_eq_true_2 by done. simpl. rewrite Hw. unfold with_data, transact.
  by destruct (judge_share _ _ _ _).
Qed.

Lemma submit_refused d request s r s' :
  sv1_handle_submit mode (Some d) request s = Done (r, s') →
  (∃ w channel job, d ∈ downstreams s ∧ connections s !! d = Some w ∧
     channel_id (downstream_data w) = Some channel ∧
     submitted_job mode s channel (sub_job_id request) = Some job) ∨ s' = s ∧ r ≠ Ok Accepted.
Proof.
  unfold sv1_handle_submit, with_registered_downstream, with_connection, focus, mbind,
    prog_bind, ask, mret, prog_ret. simpl.
  case_bool_decide as Hd; [|by intros [= <- <-]; right].
  destruct (connections s !! d) as [w|] eqn:Hw; [|by intros [= <- <-]; right].
  rewrite (insert_id (connections s)), put_connections_same by done.
  destruct (channel_id (downstream_data w)) as [c|] eqn:Ec; [|by intros [= <- <-]; right]. simpl.
  destruct (submitted_job _ _ _ _) as [job|] eqn:Ej; [|by intros [= <- <-]; right].
  intros _. left. by exists w, c, job.
Qed.

(** C18: A share is accepted exactly when its miner is registered and has a
    channel, the history of that channel has the job and the miner was given
    it, the coinbase with the prefix of the job's context has a merkle root,
    the hash of the header with that root and the miner's bits inside the
    rolling mask is below the target of the context, and it is not among the
    accepted hashes that are remembered; then the hash is remembered, the
    oldest forgotten if there are as many as may be, and the share waits to be
    forwarded.  Any other outcome changes nothing. *)
Theorem share_accepted_iff d request s :
  (∀ s', sv1_handle_submit mode (Some d) request s = Done (Ok Accepted, s') ↔
    ∃ w channel jobs stored ctx root,
      let data := downstream_data w in
      let job := stored_notify stored in
      let hashes := accepted_share_hashes data in
      let hash := block_hash (header_of_share request (version_rolling_mask data) job root) in
      d ∈ downstreams s ∧ connections s !! d = Some w ∧ channel_id data = Some channel ∧
      valid_sv1_jobs s !! resolve_channel_id mode channel = Some jobs ∧
      JobStore.get jobs (sub_job_id request) = Some stored ∧
      JobStore.get (job_validation_contexts data) (sub_job_id request) = Some ctx ∧
      merkle_root_from_path (coin_base1 job) (coin_base2 job)
        (ctx_extranonce ctx ++ extra_nonce2 request) (merkle_branch job) = Some root ∧
      hash < ctx_target ctx ∧ hash ∉ hashes ∧
      s' = put_connections (<[d := put_data (put_pending_share
        (Some {| ssw_channel_id := channel; ssw_downstream_id := d; ssw_share := request;
                 ssw_extranonce := ctx_extranonce ctx; ssw_extranonce2_len := ctx_extranonce2_len ctx;
                 ssw_version_rolling_mask := version_rolling_mask data;
                 ssw_job_version := Some (ntf_version job) |})
        (put_hashes ((if decide (length hashes = MAX_SEEN_SHARES) then tail hashes else hashes) ++ [hash])
           data)) w]> (connections s)) s) ∧
  ∀ r s', sv1_handle_submit mode (Some d) request s = Done (r, s') → r ≠ Ok Accepted → s' = s.
Proof.
  split.
  - intros s'. split.
    + intros E. destruct (submit_refused _ _ _ _ _ E) as [(w & c & job & Hd & Hw & Hc & Hj)|[_ ?]]; [|done].
      rewrite (submit_run _ _ _ _ _ _ Hd Hw Hc Hj) in E.
      destruct (judge_share d request job (downstream_data w)) as [o v] eqn:Ej. injection E as -> <-.
      apply judge_share_accepts in Ej as (c' & ctx & root & Hc' & ? & ? & ? & ? & ->).
      apply bind_Some in Hj as (jobs & ? & (stored & ? & ->)%fmap_Some).
      exists w, c, jobs, stored, ctx, root. by simplify_eq.
    + intros (w & c & jobs & stored & ctx & root & Hd & Hw & Hc & Hjobs & Hjob & Hacc).
      rewrite (submit_run _ _ _ w c (stored_notify stored)); [|done..|].
      * destruct Hacc as (? & ? & ? & ? & ->).
        eassert (judge_share d request (stored_notify stored) (downstream_data w) = (Accepted, _)) as ->;
          [|reflexivity].
        apply judge_share_accepts. exists c, ctx, root. unfold share_accepted. by split_and!.
      * unfold submitted_job. unfold resolve_channel_id in Hjobs. rewrite Hjobs. simpl. by rewrite Hjob.
  - intros r s' E Hr. destruct (submit_refused _ _ _ _ _ E) as [(w & c & job & Hd & Hw & Hc & Hj)|[? _]]; [|done].
    rewrite (submit_run _ _ _ _ _ _ Hd Hw Hc Hj) in E.
    destruct (judge_share d request job (downstream_data w)) as [[|e] v] eqn:Ej; injection E as <- <-; [done|].
    apply judge_share_rejects in Ej as ->. by rewrite put_data_same, insert_id, put_connections_same.
Qed.

(** The version of a share's header has the bits of the miner's inside its
    rolling mask and the job's outside, whatever the miner sent. *)
Theorem version_rolls_in_mask share prefix mask job header i :
  share_header share prefix mask job = Some header → i < 32 →
  Z.testbit (h_version header) (Z.of_N i) =
    N.testbit (if N.testbit (default VERSION_ROLLING_MASK mask) i
               then default (ntf_version job) (version_bits share) else ntf_version job) i.
Proof.
  unfold share_header. intros (root & _ & [= <-])%bind_Some Hi. simpl.
  rewrite u32_as_i32_testbit, N.lor_spec, N.ldiff_spec, N.land_spec by done.
  destruct (N.testbit (default _ mask) i); by rewrite ?andb_false_r, ?andb_true_r, ?orb_false_r.
Qed.

(** ** Keeping jobs alive *)

(** What [create_keepalive_job] makes of a channel's last job. *)
Definition keepalive_spec (last last' : option StoredSv1Job) (r : option Notify) : Prop :=
  match last with
  | None => r = None
  | Some job =>
      let n := stored_notify job in
      (r = None ↔ keepalive_time job_keepalive_interval_secs job = ntf_time n) ∧
      ∀ n', r = Some n' →
        last' = Some {| stored_notify := n'; keepalive_base_time := keepalive_base_time job |} ∧
        n' = keepalive_notify n (ntf_job_id n') (ntf_time n') ∧
        ntf_time n < ntf_time n' ≤ ntf_time n + job_keepalive_interval_secs ∧
        ntf_time n' ≤ keepalive_base_time job + MAX_FUTURE_BLOCK_TIME ∧
        is_keepalive_job_id (ntf_job_id n') = true ∧
        original_job_id (ntf_job_id n') = original_job_id (ntf_job_id n)
  end.

(** A keepalive job for a channel exists as long as its last job's time can
    still advance; it is the last job again under a new id from which the
    upstream's is recovered, strictly later but by no more than the interval
    nor two hours past the upstream's time, and becomes the channel's last job. *)
Theorem keepalive_advances y channel r s' :
  reachable y → create_keepalive channel (sys_server y) = Done (Ok r, s') →
  keepalive_spec (get_last_job mode channel (sys_server y)) (get_last_job mode channel s') r.
Proof.
  intros [h Hr]. pose proof (run_ok h y Hr) as Hs. set (s := sys_server y) in *.
  intros E. revert r s' E. enough (wp (create_keepalive channel) (λ res s', ∀ r, res = Ok r →
    keepalive_spec (get_last_job mode channel s) (get_last_job mode channel s') r) s) as Hwp.
  { intros r s' E. by apply (wp_sound _ _ _ _ _ Hwp E). }
  unfold create_keepalive_job. apply wp_bind, wp_ask. cbn [andthen].
  destruct (get_last_job mode channel s) as [job|] eqn:El; [|apply wp_ret; by intros ? [= <-]].
  destruct (last_job_ok _ _ _ _ (sv_jobs _ _ _ Hs) El) as (_ & Hmax & m & _ & Hroll).
  cbn [fst snd] in Hmax, Hroll. case_decide as Ht; [apply wp_ret; by intros ? [= <-]|].
  apply wp_bind. unfold next_keepalive_job_id. apply wp_bind, wp_transact.
  intros counter s1 [= <- <-]. cbn [andthen]. apply wp_ret. cbn [andthen].
  apply wp_bind, wp_ask. cbn [andthen]. unfold get_last_job in El.
  apply bind_Some in El as (st & Est & Ha).
  cbn [put_keepalive_counter valid_sv1_jobs]. rewrite Est.
  apply wp_bind, wp_some_or_crash. intros st' Est'%activate_active. cbn [andthen].
  apply wp_bind, wp_update. cbn [andthen]. apply wp_ret. intros r [= <-].
  destruct (keepalive_rolled job_keepalive_interval_secs m job _ (keepalive_job_id_counter s)
    Hroll Hmax eq_refl) as ((_ & _ & _ & _ & Hid & _ & _ & _ & _ & _ & _ & _ & _ & Hhi) & _ & Hlo).
  destruct Hroll as (_ & _ & _ & _ & Hid' & _). simpl in *.
  split; [by split|]. intros n' [= <-]. simpl. split_and!; try done.
  - unfold get_last_job. simpl. rewrite lookup_insert_eq. by apply Est'.
  - lia.
  - unfold keepalive_time, saturating_add. lia.
  - apply keepalive_is_keepalive.
  - congruence.
Qed.

(** ** The tables *)

(** The past jobs a store holds are bounded by its cap. *)
Definition within_cap {T} (st : Sv1JobStore (T := T)) : Prop :=
  (size (past_jobs st) ≤ JobStore.max_past_jobs st)%nat.

Lemma refines_within_cap {T} (st : Sv1JobStore (T := T)) h : refines st h → within_cap st.
Proof. intros (pl & Hpl & _ & _ & Hlen & _). unfold within_cap. by rewrite (past_size _ _ Hpl). Qed.

(** C27: In every reachable state the tables of the server agree: channels and
    requests name registered miners with this channel, or that wait with
    requests queued and one channel request; the difficulty control knows
    registered miners only; the shared and the miners' job stores hold no more
    past jobs than their caps; and a miner's queue holds at most eight
    requests, its cache at most [MAX_SEEN_SHARES] accepted hashes, no hash
    twice. *)
Theorem sv1_tables_agree y :
  reachable y →
  let s := sys_server y in
  sv1_server_to_downstream_sender s = downstreams s ∧
  (∀ c d, channel_id_to_downstream_id s !! c = Some d → d ∈ downstreams s ∧
     ∃ w, connections s !! d = Some w ∧ channel_id (downstream_data w) = Some c) ∧
  (∀ r d, request_id_to_downstream_id s !! r = Some d → d ∈ downstreams s ∧
     (∀ r', request_id_to_downstream_id s !! r' = Some d → r' = r) ∧
     ∃ w, connections s !! d = Some w ∧ channel_id (downstream_data w) = None ∧
       queued_sv1_handshake_messages (downstream_data w) ≠ []) ∧
  dom (pending_target_updates s) ⊆ dom (vardiff s) ⊆ downstreams s ∧
  (∀ key jobs, valid_sv1_jobs s !! key = Some jobs → within_cap jobs) ∧
  ∀ d w, connections s !! d = Some w →
    let data := downstream_data w in
    downstream_id w = d ∧ within_cap (job_validation_contexts data) ∧
    (length (queued_sv1_handshake_messages data) ≤ MAX_QUEUED_SV1_HANDSHAKE_MESSAGES)%nat ∧
    (0 < MAX_SEEN_SHARES → length (accepted_share_hashes data) ≤ MAX_SEEN_SHARES)%nat ∧
    NoDup (accepted_share_hashes data).
Proof.
  intros [h Hr] s. destruct (run_ok h y Hr) as [Hc [] Hjobs _ _]. split_and!; try done.
  - intros r d Hd. destruct (tb_requests r d Hd) as (? & w & ?). split_and!; [done| |by exists w].
    intros r' Hd'. by eapply tb_unique.
  - intros key jobs Hj. destruct (Hjobs key jobs Hj) as (l & Hl & _). by eapply refines_within_cap.
  - intros d w Hw. destruct (Hc d w Hw), ok_hashes, ok_store as [l Hl]. split_and!; try done.
    by eapply refines_within_cap.
Qed.

(** A miner that goes leaves nothing behind: it is not registered, no
    request, channel or entry of the difficulty control names it, and if it
    had a channel the channel manager is told to close it. *)
Theorem disconnect_leaves_nothing y ord d r s' :
  reachable y → handle_disconnect ord d (sys_server y) = Done (r, s') →
  gone d s' ∧ close_told d (sys_server y) s'.
Proof.
  intros [h Hr] E. by destruct (wp_sound _ _ _ _ _ (wp_disconnect mode _ _ ord d _ (run_ok h y Hr)) E).
Qed.

(** ** Who gets a job *)

(** A connection after an event was queued for it: one whose task has ended
    takes none. *)
Definition push (ev : Sv1ServerEvent) (w : Downstream) : Downstream :=
  if events_open w then put_events (events w ++ [ev]) w else w.

(** The miners a job of the channel [c] is for. *)
Definition recipient (c : N) (s : Sv1Server) (d : N) : Prop :=
  d ∈ sv1_server_to_downstream_sender s ∧
  (c = AGGREGATED_CHANNEL_ID ∨ channel_id_to_downstream_id s !! c = Some d).
#[local] Instance recipient_decision c s d : Decision (recipient c s d).
Proof. unfold recipient. apply _. Defined.

(** Exactly the recipients got the event; nothing else changed. *)
Definition delivered (c : N) (ev : Sv1ServerEvent) (s s' : Sv1Server) : Prop :=
  s' = put_connections (connections s') s ∧
  ∀ d, connections s' !! d =
    (λ w, if decide (recipient c s d) then push ev w else w) <$> connections s !! d.

Lemma send_event_run d ev s :
  ∃ b, send_event d ev s = Done (Ok b, put_connections (alter (push ev) d (connections s)) s).
Proof.
  unfold send_event, with_connection, focus. destruct (connections s !! d) as [w|] eqn:Hw.
  - unfold push, mbind, prog_bind, ask, update, mret, prog_ret. simpl.
    destruct (events_open w) eqn:Eo; eexists; do 3 f_equal; apply map_eq; intros k;
      destruct (decide (k = d)) as [->|];
      rewrite ?lookup_insert_eq, ?lookup_alter_eq, ?lookup_insert_ne, ?lookup_alter_ne by done;
      try done; rewrite Hw; simpl; by rewrite Eo.
  - exists false. unfold mret, prog_ret. rewrite alter_id'; [by rewrite put_connections_same|congruence].
Qed.

Lemma send_to_all_run ids ev s :
  NoDup ids →
  ∃ cs, for_each ids (λ d, send_event d ev;; mret tt) s = Done (Ok tt, put_connections cs s) ∧
    ∀ d, cs !! d = (λ w, if decide (d ∈ ids) then push ev w else w) <$> connections s !! d.
Proof.
  intros Hnd. revert s. induction Hnd as [|k ids Hk Hnd IH]; intros s; simpl.
  - exists (connections s). split; [by rewrite put_connections_same|]. intros d.
    by destruct (connections s !! d).
  - destruct (send_event_run k ev s) as [b E].
    destruct (IH (put_connections (alter (push ev) k (connections s)) s)) as (cs & E' & Hcs).
    exists cs. split.
    { unfold mbind at 1, prog_bind at 1, mbind at 1, prog_bind at 1. rewrite E. exact E'. }
    intros d. rewrite Hcs. simpl. destruct (decide (d = k)) as [->|Hne].
    + rewrite lookup_alter_eq. destruct (connections s !! k); simpl; [|done].
      rewrite decide_False by done. by rewrite decide_True by by left.
    + rewrite lookup_alter_ne by done. destruct (connections s !! d); simpl; [|done].
      f_equal. do 2 case_decide; set_solver.
Qed.

Lemma send_to_channel_run ord c n s :
  iteration ord →
  ∃ s', send_to_channel ord c n s = Done (Ok tt, s') ∧ delivered c (EvNotify n) s s'.
Proof.
  unfold iteration. intros Hord. unfold send_to_channel. case_decide as Hc.
  - set (ids := ord (sv1_server_to_downstream_sender s)).
    assert (∀ d, d ∈ ids ↔ d ∈ sv1_server_to_downstream_sender s) as Hin.
    { intros d. unfold ids. by rewrite Hord, elem_of_elements. }
    assert (NoDup ids) as Hnd by (unfold ids; rewrite Hord; apply NoDup_elements).
    destruct (send_to_all_run ids (EvNotify n) s Hnd) as (cs & E & Hcs).
    exists (put_connections cs s). split; [exact E|]. split; [done|]. intros d. simpl.
    rewrite Hcs. destruct (connections s !! d); simpl; [|done]. f_equal.
    unfold recipient. repeat case_decide; naive_solver.
  - assert (∀ s', s' = s → (∀ d, ¬ recipient c s d) → delivered c (EvNotify n) s s') as Hnone.
    { intros ? -> Hno. split; [by rewrite put_connections_same|]. intros d.
      destruct (connections s !! d); simpl; [|done]. by rewrite decide_False. }
    unfold mbind, prog_bind, ask. destruct (channel_id_to_downstream_id s !! c) as [d|] eqn:Ed.
    + unfold notify_downstream, has_sender, mbind, prog_bind, ask.
      case_bool_decide as Hd.
      * destruct (send_event_run d (EvNotify n) s) as [b ->]. eexists. split; [done|].
        split; [done|]. intros k. simpl. destruct (decide (k = d)) as [->|Hne].
        -- rewrite lookup_alter_eq. destruct (connections s !! d); simpl; [|done].
           by rewrite decide_True by (split; [done|by right]).
        -- rewrite lookup_alter_ne by done. destruct (connections s !! k); simpl; [|done].
           rewrite decide_False; [done|]. intros [_ [?|?]]; congruence.
      * eexists. split; [done|]. apply Hnone; [done|]. intros k [Hk [?|?]]; [done|].
        by simplify_eq.
    + eexists. split; [done|]. apply Hnone; [done|]. intros k [_ [?|?]]; congruence.
Qed.

(** The job is stored, a clean one for its whole channel empties the history
    first, and delivered. *)
Definition stored_and_delivered (now : N) (m : NewExtendedMiningJob) (n : Notify) (s s' : Sv1Server) : Prop :=
  let broadcast := bool_decide (nj_channel_id m = AGGREGATED_CHANNEL_ID) in
  ∃ jobs, store_job max_past_jobs (resolve_channel_id mode (nj_channel_id m)) (upstream_job n)
            (clean_jobs n && (negb (is_aggregated mode) || broadcast)) (valid_sv1_jobs s) = Some jobs ∧
    delivered (nj_channel_id m) (EvNotify n)
      (put_mutation_time (if is_aggregated mode && broadcast then Some now
                          else aggregated_job_mutation_time s) (put_jobs jobs s)) s'.

Lemma store_job_last key j resets jobs jobs' :
  store_job max_past_jobs key j resets jobs = Some jobs' →
  jobs' !! key ≫= JobStore.active = Some j.
Proof.
  unfold store_job. intros (st & Est%activate_active & [= <-])%bind_Some. by rewrite lookup_insert_eq.
Qed.

Lemma store_and_send ord now m n s r s' :
  iteration ord →
  (store_notify mode max_past_jobs now (resolve_channel_id mode (nj_channel_id m)) m n;;
   send_to_channel ord (nj_channel_id m) n) s = Done (r, s') →
  r = Ok tt ∧ get_last_job mode (nj_channel_id m) s' = Some (upstream_job n) ∧
  stored_and_delivered now m n s s'.
Proof.
  intros Hord. unfold store_notify, stored_and_delivered, mbind at 1, prog_bind at 1,
    mbind at 1, prog_bind at 1, ask at 1.
  destruct (store_job _ _ _ _ _) as [jobs|] eqn:Ej; [|done].
  pose proof (store_job_last _ _ _ _ _ Ej) as Hlast. cbn.
  set (s1 := put_mutation_time
    (if is_aggregated mode && bool_decide (nj_channel_id m = AGGREGATED_CHANNEL_ID) then Some now
     else aggregated_job_mutation_time s) (put_jobs jobs s)).
  match goal with |- match ?p s with _ => _ end = _ → _ =>
    assert (p s = Done (Ok tt, s1)) as -> end.
  { unfold s1, mret, prog_ret, mbind, prog_bind, update.
    destruct (is_aggregated mode && _); [done|]. by destruct s. }
  destruct (send_to_channel_run ord (nj_channel_id m) n s1 Hord) as (s2 & -> & Hs2).
  intros [= <- <-]. split_and!; [done| |by exists jobs].
  destruct Hs2 as [-> _]. unfold get_last_job. exact Hlast.
Qed.

(** A job of the upstream whose previous hash is known becomes the last job
    of its channel and goes to exactly the registered miners it is for: all of
    them for the shared channel, otherwise the miner of the channel.  A miner
    that joins the shared channel late gets the shared job, clean, if that is
    still the upstream's; without a previous hash nothing happens. *)
Theorem new_job_reaches_its_miners ord now m s r s' :
  iteration ord → handle_new_job mode max_past_jobs ord now m s = Done (r, s') →
  let c := nj_channel_id m in
  match prevhashes s !! resolve_channel_id mode c with
  | None => r = Ok tt ∧ s' = s
  | Some p =>
      match build_sv1_notify_from_sv2 p m (bool_decide (nj_job_id m = snp_job_id p)) with
      | Err e => r = Err (err_shutdown (Translation e)) ∧ s' = s
      | Ok n =>
          r = Ok tt ∧
          match is_aggregated mode && negb (bool_decide (c = AGGREGATED_CHANNEL_ID)),
                get_last_job mode AGGREGATED_CHANNEL_ID s with
          | true, Some current =>
              if decide (original_job_id (ntf_job_id (stored_notify current)) = pretty (nj_job_id m))
              then delivered c (EvNotify (with_clean_jobs true (stored_notify current))) s s'
              else s' = s
          | _, _ =>
              get_last_job mode c s' = Some (upstream_job n) ∧
              stored_and_delivered now m n s s'
          end
      end
  end.
Proof.
  intros Hord. unfold handle_new_job, mbind at 1, prog_bind at 1, ask at 1. cbv zeta.
  destruct (prevhashes s !! _) as [p|]; [|by intros [= <- <-]].
  unfold mbind at 1, prog_bind at 1, ok_or_raise.
  destruct (build_sv1_notify_from_sv2 _ _ _) as [n|e]; [|by intros [= <- <-]].
  unfold mret at 1, prog_ret at 1, mbind at 1, prog_bind at 1, ask at 1.
  destruct (get_last_job _ _ s) as [current|], (_ && negb _); try by apply store_and_send.
  unfold bootstrap. destruct (decide _); [|by intros [= <- <-]].
  destruct (send_to_channel_run ord (nj_channel_id m) (with_clean_jobs true (stored_notify current)) s Hord)
    as (s2 & -> & Hs2). by intros [= <- <-].
Qed.

(** ** A target the miner has not been told *)

(** A harder target is held back until the upstream agrees, but when an
    easier difficulty still waits for the next job, that job brings the miner
    the easier difficulty while its shares are judged by the harder target
    nobody told it. *)
Theorem held_back_target_judges_shares y d w c u rate t m1 now n :
  let s := sys_server y in
  reachable y → d ∈ downstreams s → connections s !! d = Some w →
  miner_open w = true → cached_set_difficulty (downstream_data w) = Some m1 →
  cached_set_extranonce (downstream_data w) = None →
  hash_rate_to_target rate shares_per_minute = Some t → t < u →
  ∃ out s1 w1 w2 ctx,
    apply_new_hashrate shares_per_minute d c (Some u) rate s = Done (Ok [(out, false)], s1) ∧
    pending_target_updates s1 !! d = Some t ∧
    connections s1 !! d = Some w1 ∧ events w1 = events w ∧
    send_job now n w1 = Done (Ok tt, w2) ∧
    to_miner w2 = to_miner w ++ [MsgSetDifficulty m1; MsgNotify n] ∧
    job_validation_context (downstream_data w2) (ntf_job_id n) = Some ctx ∧
    ctx_target ctx = advertised t.
Proof.
  intros s [h0 Hr] Hd Hw Ho Hm1 Hx Ht Hu. pose proof (run_ok h0 y Hr) as Hs. fold s in Hs.
  set (w1 := put_data (adopt_hashrate rate t (downstream_data w)) w).
  destruct (ok_store _ _ _ (sv_conns _ _ _ Hs d w Hw)) as [h Hh].
  set (d1 := if clean_jobs n then put_hashes [] (put_cached_extranonce None (take_difficulty (downstream_data w1)))
             else put_cached_extranonce None (take_difficulty (downstream_data w1))).
  set (ctx := {| ctx_extranonce := extranonce1 d1; ctx_extranonce2_len := extranonce2_len d1;
                 ctx_target := target d1 |}).
  destruct (activate_refines (job_validation_contexts (downstream_data w)) h (ntf_job_id n) ctx (clean_jobs n) Hh)
    as (st & Est & _ & _).
  set (d2 := if decide (pending_set_extranonce_notifications d1 = 0) then put_timer (Some now) (put_contexts st d1)
             else put_contexts st d1).
  set (w2 := put_to_miner ((to_miner w ++ [MsgSetDifficulty m1]) ++ [MsgNotify n]) (put_data d2 w1)).
  exists {| tu_downstream := d; tu_channel := c; tu_target := t; tu_hashrate := rate |},
    (put_target_updates (<[d := t]> (pending_target_updates s))
       (put_connections (<[d := w1]> (connections s)) s)), w1, w2, ctx.
  assert (target d1 = advertised t) as Htarget.
  { unfold d1, take_difficulty. simpl. rewrite Hm1. by destruct (clean_jobs n). }
  split_and!; try done.
  - unfold apply_new_hashrate, if_present, attempt, with_registered_downstream, with_connection, focus,
      mbind, prog_bind, ask, update_data, update. rewrite Ht, bool_decide_eq_true_2, Hw by done. simpl.
    assert ((u <=? t) = false) as -> by (by apply N.leb_gt). done.
  - simpl. by rewrite lookup_insert_eq.
  - simpl. by rewrite lookup_insert_eq.
  - assert (take_job_messages now n (downstream_data w1) = Some (Some (Some m1, None), d2)) as Etake.
    { assert (job_validation_contexts d1 = job_validation_contexts (downstream_data w)) as Hc.
      { unfold d1, take_difficulty. simpl. rewrite Hm1. by destruct (clean_jobs n). }
      rewrite <-Hc in Est. unfold take_job_messages, record_job_validation_context.
      change (cached_set_extranonce (downstream_data w1)) with (cached_set_extranonce (downstream_data w)).
      change (cached_set_difficulty (downstream_data w1)) with (cached_set_difficulty (downstream_data w)).
      rewrite Hx, Hm1, bool_decide_eq_false_2 by (by intros []). cbn [andb]. fold d1. cbv zeta.
      fold ctx. by rewrite Est. }
    unfold send_job, mbind, prog_bind, ask. rewrite Etake. simpl. unfold send_to_miner, mbind, prog_bind, ask.
    simpl. rewrite Ho. simpl. by rewrite Ho.
  - simpl. by rewrite <-app_assoc.
  - unfold job_validation_context, w2, d2. simpl. apply activate_self in Est. by destruct (decide _).
Qed.
End properties.
