(* ===== verification/Sv1Examples.v ===== *)
(** * Translator: a run of the SV1 server

    A small SV1 library that satisfies [Sv1Laws], a run of the server with one
    miner on it, and the theorems at the states of this run. *)
From Stdlib Require Import Ascii.
From S2P Require Import Prelude Handler SharedMap Bitcoin ShareCache ClientChannels TproxyManager TproxyExamples JobStore Sv1Api Sv1Downstream Sv1Server Sv1Difficulty Sv1System Sv1Inv Sv1Keeps Sv1Upstream Sv1Safety Sv1Properties.

Module Sv1Examples.
#[local] Existing Instance TproxyExamples.toy.

Inductive Json : Type :=
| JSubscribe | JAuthorize (name : string) | JExtranonceSubscribe | JSubmit (m : Submit) | JGarbage.

#[local] Instance toy_types : Sv1Types := {|
  json_message := Json; Subscribe := unit; Authorize := string; Configure := unit;
  OtherRequest := unit; Response := N + SetExtranonce; SetDifficulty := N; Sv1Error := unit;
  TranslationError := unit; requested_mask _ := None; requested_min_bit_count _ := None;
  VERSION_ROLLING_MASK := 536862720; MAX_SEEN_SHARES := 10; MAX_PAST_JOBS := 4;
|}.

Definition toy_parse (m : Json) : result Client2Server unit :=
  match m with
  | JSubscribe => Ok (ReqSubscribe (tt : Subscribe))
  | JAuthorize name => Ok (ReqAuthorize (name : Authorize))
  | JExtranonceSubscribe => Ok ReqExtranonceSubscribe
  | JSubmit m => Ok (ReqSubmit m)
  | JGarbage => Err tt
  end.

Definition toy_respond (m : Submit) (o : SubmitOutcome) : N + SetExtranonce :=
  match o with Accepted => inl 100 | Rejected _ => inl 101 end.
Definition toy_told (r : N + SetExtranonce) : option SetExtranonce :=
  match r with inl _ => None | inr x => Some x end.

(** The dispatch of a request, the way [sv1_api] does it. *)
Definition toy_handle {S E} (ops : IsServer S E) (id : option N) (req : Client2Server)
    : prog S E (option (N + SetExtranonce)) :=
  match req with
  | ReqConfigure m => handle_configure ops id m;; mret (Some (inl 1))
  | ReqSubscribe m =>
      handle_subscribe ops id m;; e ← set_extranonce1 ops id None;
      n ← set_extranonce2_size ops id None;
      mret (Some (inr {| extra_nonce1 := e; extra_nonce2_size := n |}))
  | ReqAuthorize m =>
      ok ← handle_authorize ops id m;
      (if ok : bool then authorize ops id m else mret tt);;
      mret (Some (inl 3))
  | ReqExtranonceSubscribe => handle_extranonce_subscribe ops id;; mret None
  | ReqSubmit m =>
      ok ← is_authorized ops id (user_name m);
      if ok : bool then outcome ← handle_submit ops id m; mret (Some (toy_respond m outcome))
      else mret (Some (inl 4))
  | ReqUnknown _ => mret None
  end.

Definition toy_notify (p : SetNewPrevHash) (m : NewExtendedMiningJob) (clean : bool) : Notify :=
  {| ntf_job_id := pretty (nj_job_id m); ntf_prev_hash := snp_prev_hash p;
     coin_base1 := nj_coinbase_tx_prefix m; coin_base2 := nj_coinbase_tx_suffix m;
     merkle_branch := nj_merkle_path m; ntf_version := nj_version m; ntf_bits := snp_nbits p;
     ntf_time := u32_wrap (snp_min_ntime p); clean_jobs := clean |}.

#[local] Instance toy_api : Sv1Api TproxyExamples.toy toy_types := {|
  parse_request := toy_parse; respond := toy_respond; handle_parsed_request := @toy_handle; told_by := toy_told;
  unexpected_notify := tt;
  build_sv1_notify_from_sv2 p m clean := Ok (toy_notify p m clean);
  build_sv1_set_difficulty t := Ok t; sv1_advertised_target t := Some t;
  build_sv2_submit_shares_extended s c seq version mask :=
    Ok {| sse_channel_id := c; sequence_number := seq; sse_job_id := 3; nonce := sub_nonce s;
          ntime := sub_time s; sse_version := version; extranonce := extra_nonce2 s |};
  build_sv2_open_extended_mining_channel r user h t size :=
    Ok {| oec_request_id := r; oec_user_identity := user; oec_nominal_hash_rate := h;
          oec_max_target := t; oec_min_extranonce_size := size |};
  hash_rate_to_target h _ := Some (1000 / (h : N)); hash_rate_from_target _ _ := None;
  hashrate_zero := 0 : N; hashrate_add := N.add; VardiffState := N; vardiff_new := 0;
  increment_shares_since_last_update := N.succ; try_vardiff s _ _ _ := (Ok None, s);
  merkle_root_from_path _ _ _ _ := Some 0; block_hash := h_nonce;
|}.

#[local] Instance toy_sv1_laws : Sv1Laws toy_api.
Proof.
  split; simpl.
  - intros S E ops id m R HR [] Hs. unfold toy_handle. repeat evolve_rule; auto.
  - intros S E ops id req R HR [] [] Hreq. unfold toy_handle.
    repeat evolve_rule; auto; by edestruct Hreq.
  - intros S E ops id m I x s Hsub H1 H2 HI. apply wp_bind.
    eapply wp_mono; [|by apply Hsub]. intros [l|e] s1 HI1; cbn [andthen]; [|by split].
    apply wp_bind. eapply wp_mono; [|by apply H1]. intros [v|e] s2 [HI2 Hv]; cbn [andthen]; [|by split].
    apply wp_bind. eapply wp_mono; [|by apply H2]. intros [n|e] s3 [HI3 Hn]; cbn [andthen]; [|by split].
    apply wp_ret. split; [done|]. intros response [= <-]. simpl. rewrite (Hv v), (Hn n) by done. by destruct x.
  - intros S E ops id req s Hreq.
    assert (keeps (λ _ _ : S, True) (λ o, ∀ response, o = Some response → toy_told response = None)
      (toy_handle ops id req)) as Hk.
    { assert (∀ A (p : prog S E A), keeps (λ _ _, True) (λ _, True) p) as Hany.
      { intros A p s'. by apply wp_intro. }
      unfold toy_handle. destruct req as [m|m|m| |m|m]; [|by destruct (Hreq m)|..].
      all: repeat (first [case_match|apply keeps_ret|eapply keeps_bind; [apply _|apply Hany|intros]]).
      all: first [by split|intros response; first [by intros [= <-]|intros [= <-]; unfold toy_respond; by repeat case_match]]. }
    eapply wp_mono; [|apply Hk]. intros r s' [_ Hr] response Er. by eapply Hr.
  - by intros m [].
  - intros p m clean n [= <-]. split_and!; [done..|]. apply N.mod_lt. done.
Defined.

#[local] Instance toy_first : FirstTarget := 500.
(** ** Runs *)
Inductive Op : Type :=
| OpAccept
| OpForward (d : N) (m : Json)
| OpServe
| OpManager (now : N) (m : Sv1Message)
| OpEvent (d now : N)
| OpKeepalive (now : N).

Definition rate : Hashrate := 2 : N.

Definition keys (X : gset N) : list N := elements X.
Lemma sv1_keys_iteration : iteration keys.
Proof. by intros X. Qed.

Definition apply_op (op : Op) (y : Sv1System) : Sv1System :=
  match op with
  | OpAccept => put_looping ({[downstream_id_factory (sys_server y)]} ∪ sys_looping y)
      (put_server (accept rate None first_target_of (sys_server y)) y)
  | OpForward d m => after_forward d y (forward_miner_message d (Some m) (sys_server y))
  | OpServe => after_server_handler NonAggregated true rate keys y
      (handle_miner_message NonAggregated true rate rate 4 (Some "pool"%string) (sys_server y))
  | OpManager now m => after_server_handler NonAggregated true rate keys y
      (handle_upstream_message NonAggregated true rate None keys now first_target_of (Some m) (sys_server y))
  | OpEvent d now =>
      match connections (sys_server y) !! d with
      | Some w => after_downstream_handler d y (handle_sv1_server_message now w)
      | None => y
      end
  | OpKeepalive now => after_server_handler NonAggregated true rate keys y
      (send_keepalive_jobs NonAggregated 60 keys now (sys_server y))
  end.

Definition calm_b (y : Sv1System) : bool :=
  negb (cancelled (sys_tokens y)) && negb (fallback_cancelled (sys_tokens y)).
Definition enabled (op : Op) (y : Sv1System) : bool :=
  calm_b y &&
  match op with
  | OpAccept => sys_running y && (downstream_id_factory (sys_server y) + 1 <? u64_modulus)%N
  | OpForward d _ => bool_decide (d ∈ sys_looping y)
  | OpServe => sys_running y && negb (Nat.eqb (length (from_downstreams (sys_server y))) 0)
  | OpManager _ _ | OpKeepalive _ => sys_running y
  | OpEvent d _ => bool_decide (d ∈ sys_looping y) &&
      match connections (sys_server y) !! d with
      | Some w => negb (Nat.eqb (length (events w)) 0) | None => false end
  end.

Fixpoint run (ops : list Op) (y : Sv1System) : Sv1System :=
  match ops with [] => y | op :: ops => run ops (apply_op op y) end.
(** The message of the channel manager an operation handles. *)
Definition op_message (op : Op) : option Sv1Message :=
  match op with OpManager _ m => Some m | _ => None end.
Fixpoint all_enabled (ops : list Op) (y : Sv1System) : bool :=
  match ops with [] => true | op :: ops => enabled op y && all_enabled ops (apply_op op y) end.

Notation run_to :=
  (sv1_run NonAggregated true rate rate 4 (Some "pool"%string) None 60 first_target_of).
Notation reachable :=
  (sv1_reachable NonAggregated true rate rate 4 (Some "pool"%string) None 60 first_target_of).

Lemma calm_of_b y : calm_b y = true → calm_tokens (sys_tokens y).
Proof.
  unfold calm_b, calm_tokens. by destruct (cancelled _), (fallback_cancelled _).
Qed.

Lemma op_run op h y :
  enabled op y = true → run_to h y → run_to (h ++ option_list (op_message op)) (apply_op op y).
Proof.
  unfold enabled. intros [Hc%calm_of_b Hop]%andb_true_iff Hy. eapply rtc_r; [exact Hy|].
  exists (op_message op). split; [|done]. simpl.
  destruct op as [|d m| |now m|d now|now]; simpl.
  - apply andb_true_iff in Hop as [? ?%N.ltb_lt]. by apply step_accept.
  - apply bool_decide_eq_true in Hop. by apply step_forward.
  - apply andb_true_iff in Hop as [? Hl]. apply step_miner_message; [done|done|apply sv1_keys_iteration|].
    by destruct (from_downstreams (sys_server y)).
  - apply step_manager_message; [done|done|apply sv1_keys_iteration].
  - apply andb_true_iff in Hop as [Hd%bool_decide_eq_true Hl].
    destruct (connections (sys_server y) !! d) as [w|] eqn:Hw; [|done].
    eapply step_event; [done|done|done|]. left. by destruct (events w).
  - apply step_keepalive; [done|done|apply sv1_keys_iteration|done].
Qed.

Lemma ops_run ops h y :
  all_enabled ops y = true → run_to h y → run_to (h ++ omap op_message ops) (run ops y).
Proof.
  revert h y. induction ops as [|op ops IH]; intros h y; simpl; [by rewrite app_nil_r|].
  intros [Hop Hops]%andb_true_iff Hy. apply op_run with (op := op) in Hy; [|done].
  apply IH in Hy; [|done]. rewrite <-app_assoc in Hy. by destruct (op_message op).
Qed.

(** A miner connects, subscribes and authorizes, gets a job, a new prefix and a
    second job, and submits a share. *)
Definition channel_opened : OpenExtendedMiningChannelSuccess :=
  {| oes_request_id := 1; oes_channel_id := 7; oes_target := 300; oes_extranonce_size := 4;
     oes_extranonce_prefix := [xaa; xbb]; oes_group_channel_id := 0 |}.
Definition tip : SetNewPrevHash :=
  {| snp_channel_id := 7; snp_job_id := 3; snp_prev_hash := 77; snp_min_ntime := 1000; snp_nbits := 5 |}.
Definition job (id : N) : NewExtendedMiningJob :=
  {| nj_channel_id := 7; nj_job_id := id; nj_min_ntime := Some 1000; nj_version := 2;
     version_rolling_allowed := true; nj_merkle_path := []; nj_coinbase_tx_prefix := [x01];
     nj_coinbase_tx_suffix := [x02] |}.
Definition submission : Submit :=
  {| user_name := "alice.rig"; sub_job_id := "4"; extra_nonce2 := [x11; x12; x13; x14];
     sub_time := 1001; sub_nonce := 8; version_bits := Some 8192; sub_id := 9 |}.

Definition set_up : list Op :=
  [ OpAccept; OpForward 1 JSubscribe; OpServe; OpManager 0 (DownOpenSuccess channel_opened);
    OpForward 1 (JAuthorize "alice.rig"); OpServe; OpForward 1 JExtranonceSubscribe; OpServe;
    OpManager 0 (DownSetNewPrevHash tip) ].
Definition work : list Op :=
  [ OpManager 5 (DownNewExtendedMiningJob (job 3)); OpManager 6 (DownSetExtranoncePrefix 7 [xcc; xdd]);
    OpManager 7 (DownNewExtendedMiningJob (job 4)); OpEvent 1 8; OpEvent 1 8; OpEvent 1 8; OpEvent 1 8;
    OpEvent 1 8; OpForward 1 (JSubmit submission) ].

Definition y1 : Sv1System := run set_up start_system.
Definition y2 : Sv1System := run work y1.
Definition y3 : Sv1System := run [OpServe] y2.

(** The messages handled up to the states. *)
Definition h1 : list Sv1Message := [DownOpenSuccess channel_opened; DownSetNewPrevHash tip].
Definition h2 : list Sv1Message :=
  h1 ++ [DownNewExtendedMiningJob (job 3); DownSetExtranoncePrefix 7 [xcc; xdd];
         DownNewExtendedMiningJob (job 4)].
Lemma run_1 : run_to h1 y1.
Proof. apply (ops_run set_up [] start_system); [vm_eq|]. apply rtc_refl. Qed.
Lemma history_2 : run_to h2 y2.
Proof. apply (ops_run work h1 y1); [vm_eq|]. apply run_1. Qed.
Lemma history_3 : run_to h2 y3.
Proof. apply (ops_run [OpServe] h2 y2); [vm_eq|]. apply history_2. Qed.
Lemma reachable_3 : reachable y3.
Proof. exists h2. apply history_3. Qed.
Definition miner (y : Sv1System) : Downstream :=
  default (new_downstream 0 0 None None) (connections (sys_server y) !! 1).
Lemma miner_at y :
  bool_decide (is_Some (connections (sys_server y) !! 1)) = true →
  connections (sys_server y) !! 1 = Some (miner y).
Proof. apply default_of_b. Qed.

(** What the miner was sent. *)
Definition first_job : Notify := toy_notify tip (job 3) true.
Definition second_job : Notify := toy_notify tip (job 4) false.
Definition told_prefix : SetExtranonce := {| extra_nonce1 := [xcc; xdd]; extra_nonce2_size := 4 |}.
Definition subscribed_prefix : SetExtranonce := {| extra_nonce1 := [xaa; xbb]; extra_nonce2_size := 4 |}.
Definition before_jobs : list Message := [MsgResponse (inr subscribed_prefix : Response); MsgResponse (inl 3 : Response); MsgSetDifficulty (500 : SetDifficulty)].
Definition after_first : list Message :=
  [MsgSetExtranonce told_prefix; MsgNotify second_job; MsgResponse (inl 100 : Response)].
Definition sent : list Message := before_jobs ++ MsgNotify first_job :: after_first.
Lemma sent_3 : to_miner (miner y3) = sent.
Proof. vm_eq. Qed.
Lemma miner_3 : connections (sys_server y3) !! 1 = Some (miner y3).
Proof. apply miner_at. vm_eq. Qed.

Lemma jobs_wait_for_setup_witness :
  (2 ≤ responses before_jobs)%nat ∧ setup_complete (session_state (downstream_data (miner y3))) = true.
Proof.
  apply (jobs_wait_for_setup NonAggregated true rate rate 4 (Some "pool"%string) None 60 y3 1 (miner y3)
    before_jobs first_job after_first).
  - apply reachable_3.
  - apply miner_3.
  - apply sent_3.
Defined.


Lemma miners_do_upstream_work_witness :
  ∃ before m after p n0, h2 = before ++ DownNewExtendedMiningJob m :: after ∧
    build_sv1_notify_from_sv2 p m (bool_decide (nj_job_id m = snp_job_id p)) = Ok n0 ∧
    original_job_id "4" = pretty (nj_job_id m) ∧ ntf_time n0 ≤ 1000.
Proof.
  destruct (miners_do_upstream_work NonAggregated true rate rate 4 (Some "pool"%string) None 60
    h2 y3 1 (miner y3) second_job history_3 miner_3) as (before & m & after & p & n0 & E & _ & ? & Hid & _ & ? & _).
  - rewrite sent_3. do 5 right. left.
  - by exists before, m, after, p, n0.
Defined.


Lemma version_rolls_in_mask_witness :
  Z.testbit (u32_as_i32 8194) 13 = true.
Proof.
  etransitivity; [apply (version_rolls_in_mask submission [xcc; xdd] None second_job
    {| h_version := u32_as_i32 8194; h_prev_blockhash := 77; h_merkle_root := 0; h_time := 1001;
       h_bits := 5; h_nonce := 8 |} 13); [vm_eq|done]|vm_eq].
Defined.

Definition kept_alive : result (option Notify) Sv1TproxyError * Sv1Server :=
  done_or (Ok None, sys_server y3) (create_keepalive_job NonAggregated 60 7 (sys_server y3)).
Lemma keepalive_advances_witness :
  kept_alive.1 = Ok (Some (keepalive_notify second_job "4#0" 1060)) ∧
  keepalive_spec 60 (get_last_job NonAggregated 7 (sys_server y3))
    (get_last_job NonAggregated 7 kept_alive.2) (Some (keepalive_notify second_job "4#0" 1060)).
Proof.
  assert (kept_alive.1 = Ok (Some (keepalive_notify second_job "4#0" 1060))) as E by vm_eq.
  split; [exact E|].
  apply (keepalive_advances NonAggregated true rate rate 4 (Some "pool"%string) None 60 y3 7 _ _ reachable_3).
  rewrite <-E. unfold kept_alive.
  assert (match create_keepalive_job NonAggregated 60 7 (sys_server y3) with
          | Done _ => true | Panic => false end = true) as Hd by vm_eq.
  destruct (create_keepalive_job NonAggregated 60 7 (sys_server y3)) as [[r s]|]; [done|discriminate Hd].
Defined.

Lemma sv1_tables_agree_witness :
  1 ∈ downstreams (sys_server y3) ∧ NoDup (accepted_share_hashes (downstream_data (miner y3))).
Proof.
  destruct (sv1_tables_agree NonAggregated true rate rate 4 (Some "pool"%string) None 60 y3 reachable_3)
    as (_ & Hch & _ & _ & _ & Hc). split.
  - apply (Hch 7). vm_eq.
  - apply (Hc 1 (miner y3) miner_3).
Defined.

Definition left_server : result unit Sv1TproxyError * Sv1Server :=
  done_or (Ok tt, sys_server y3)
    (handle_downstream_disconnect NonAggregated true rate keys 1 (sys_server y3)).
Lemma disconnect_leaves_nothing_witness :
  1 ∉ downstreams left_server.2 ∧
  (ReqCloseChannel 7 downstream_disconnected, None) ∈ to_manager left_server.2.
Proof.
  destruct (disconnect_leaves_nothing NonAggregated true rate rate 4 (Some "pool"%string) None 60
    y3 keys 1 left_server.1 left_server.2 reachable_3) as ([Hd _ _ _ _ _] & Hclose).
  - unfold left_server.
    assert (match handle_downstream_disconnect NonAggregated true rate keys 1 (sys_server y3) with
            | Done _ => true | Panic => false end = true) as E by vm_eq.
    destruct (handle_downstream_disconnect NonAggregated true rate keys 1 (sys_server y3))
      as [[r s]|]; [done|discriminate E].
  - split; [exact Hd|]. apply (Hclose (miner y3)).
    + apply (bool_decide_eq_true_1 (1 ∈ downstreams (sys_server y3))). vm_eq.
    + apply miner_3.
    + vm_eq.
    + vm_eq.
Defined.

Definition with_job : result unit Sv1TproxyError * Sv1Server :=
  done_or (Ok tt, sys_server y3)
    (handle_new_job NonAggregated None keys 9 (job 5) (sys_server y3)).
Lemma new_job_reaches_its_miners_witness :
  get_last_job NonAggregated 7 with_job.2 = Some (upstream_job (toy_notify tip (job 5) false)).
Proof.
  assert (handle_new_job NonAggregated None keys 9 (job 5) (sys_server y3) =
    Done (with_job.1, with_job.2)) as E.
  { unfold with_job.
    assert (match handle_new_job NonAggregated None keys 9 (job 5) (sys_server y3) with
            | Done _ => true | Panic => false end = true) as Hd by vm_eq.
    destruct (handle_new_job NonAggregated None keys 9 (job 5) (sys_server y3)) as [[r s]|];
      [done|discriminate Hd]. }
  pose proof (new_job_reaches_its_miners NonAggregated None keys 9 (job 5) (sys_server y3) _ _
    sv1_keys_iteration E) as H.
  assert (prevhashes (sys_server y3) !! resolve_channel_id NonAggregated (nj_channel_id (job 5)) = Some tip)
    as Htip by vm_eq.
  cbv zeta in H. rewrite Htip in H. apply H.
Defined.

Definition first_difficulty : SetDifficulty := 500 : N.
Definition faster : Hashrate := 4 : N.
Definition y4 : Sv1System := run [OpEvent 1 8] y1.
Lemma reachable_4 : reachable y4.
Proof. exists h1. apply (ops_run [OpEvent 1 8] h1 y1); [vm_eq|]. apply run_1. Qed.
Lemma held_back_target_judges_shares_witness :
  ∃ w1 w2 ctx, send_job 9 second_job w1 = Done (Ok tt, w2) ∧
    to_miner w2 = to_miner (miner y4) ++ [MsgSetDifficulty first_difficulty; MsgNotify second_job] ∧
    job_validation_context (downstream_data w2) "4" = Some ctx ∧ ctx_target ctx = 250.
Proof.
  destruct (held_back_target_judges_shares NonAggregated true rate rate 4 (Some "pool"%string) None 60
    y4 1 (miner y4) 7 300 faster 250 first_difficulty 9 second_job reachable_4)
    as (out & s1 & w1 & w2 & ctx & _ & _ & _ & _ & Hsend & Hto & Hctx & Ht).
  - apply (bool_decide_eq_true_1 (1 ∈ downstreams (sys_server y4))). vm_eq.
  - apply miner_at. vm_eq.
  - vm_eq.
  - vm_eq.
  - vm_eq.
  - vm_eq.
  - done.
  - exists w1, w2, ctx. split; [exact Hsend|]. split; [exact Hto|]. split; [exact Hctx|exact Ht].
Defined.
End Sv1Examples.
