(* ===== verification/Pool.v ===== *)
(** * Pool: channel manager
    ([pool-apps/pool/src/lib/channel_manager/mod.rs],
    [mining_message_handler.rs], [template_distribution_message_handler.rs],
    [downstream/mod.rs], [error.rs])

    The pool keeps the channels its miners open, hands them jobs made of the
    templates it receives, judges their shares and lets them set jobs of their
    own, which the embedded [JobDeclarator] checks.  The handlers are programs
    of [Handler] over the manager's state; the code under the guard of a
    connection is [with_registered_downstream].

    A channel owns its extranonce prefix: where the code drops a channel, the
    model releases the prefix.  Locks are never found poisoned: a panic while
    one is held ends the run.  [channel_id_factory] counts without wrapping;
    the [AtomicU32] holds it modulo 2^32. *)
From S2P Require Import Prelude Handler SharedMap Bitcoin JobValidation ValidationEngine JobDeclarator Payout Setup ShareCache ServerChannels.

(** ** Errors

    [Action] and [LoopControl] are declared in the JD server with the same
    constructors. *)
Inductive ChannelSv2Error : Type :=
| ExtendedChannelServerSide (e : ServerChannelError)
| StandardChannelServerSide (e : ServerChannelError)
| GroupChannelServerSide (e : ServerChannelError)
| ExtranonceError (e : ExtranonceAllocatorError)
| InShareValidation (e : ShareValidationError).

Inductive PoolErrorKind : Type :=
| ChannelSv2 (e : ChannelSv2Error) | ChannelSend | BinarySv2 | VardiffFailed
| ChannelErrorSender | DownstreamNotFound (downstream_id : N) | FutureTemplateNotPresent
| LastNewPrevhashNotFound | ClientDoesNotSupportRequiredExtensions (missing : list N)
| JobNotFound | Jds (e : JDSErrorKind).

Record PoolError : Type := { kind : PoolErrorKind; action : Action }.

Definition disconnect (k : PoolErrorKind) (d : N) : PoolError :=
  {| kind := k; action := Disconnect d |}.
Definition shutdown (k : PoolErrorKind) : PoolError := {| kind := k; action := Shutdown |}.

Definition ERROR_CODE_OPEN_MINING_CHANNEL_INCOMPATIBLE_PAYOUT_MODE : string :=
  "incompatible-payout-mode".
Definition CLIENT_SEARCH_SPACE_BYTES : N := 16.

Section pool.
Context `{BitcoinApi} `{VE : JobValidationEngine} `{AA : AddressApi} `{SC : ServerChannels}.

(** ** State *)

(** [Downstream]; [set_up] tells whether the connection's message loop runs. *)
Record Downstream : Type := {
  group_channel : GroupChannel;
  extended_channels : gmap N ExtChannel;
  standard_channels : gmap N StdChannel;
  channel_id_factory : N;
  negotiated_extensions : list N;
  payout_mode : option PayoutMode;
  requires_standard_jobs : bool;
  requires_custom_work : bool;
  set_up : bool;
}.

Inductive RouteMessageTo : Type :=
| TemplateProvider (m : TpMessage)
| ToDownstream (downstream_id : N) (m : MinerMessage).

(** [ChannelManagerIo]: the registered senders, those whose receiver is gone,
    and what was sent, in order. *)
Record ChannelManagerIo : Type := {
  tp_open : bool;
  downstream_sender : gset N;
  closed : gset N;
  sent : list RouteMessageTo;
}.

Record ChannelManager : Type := {
  downstreams : gmap N Downstream;
  extranonce_allocator : ExtranonceAllocator;
  downstream_id_factory : N;
  vardiff : gmap (N * N) Vardiff;
  last_new_prev_hash : option SetNewPrevHash;
  last_future_template : option NewTemplate;
  channel_manager_io : ChannelManagerIo;
  job_declarator : option JdSystem;
}.

Definition put_group (g : GroupChannel) (ds : Downstream) : Downstream :=
  {| group_channel := g; extended_channels := extended_channels ds;
     standard_channels := standard_channels ds; channel_id_factory := channel_id_factory ds;
     negotiated_extensions := negotiated_extensions ds; payout_mode := payout_mode ds;
     requires_standard_jobs := requires_standard_jobs ds;
     requires_custom_work := requires_custom_work ds; set_up := set_up ds |}.
Definition put_ext (m : gmap N ExtChannel) (ds : Downstream) : Downstream :=
  {| group_channel := group_channel ds; extended_channels := m;
     standard_channels := standard_channels ds; channel_id_factory := channel_id_factory ds;
     negotiated_extensions := negotiated_extensions ds; payout_mode := payout_mode ds;
     requires_standard_jobs := requires_standard_jobs ds;
     requires_custom_work := requires_custom_work ds; set_up := set_up ds |}.
Definition put_std (m : gmap N StdChannel) (ds : Downstream) : Downstream :=
  {| group_channel := group_channel ds; extended_channels := extended_channels ds;
     standard_channels := m; channel_id_factory := channel_id_factory ds;
     negotiated_extensions := negotiated_extensions ds; payout_mode := payout_mode ds;
     requires_standard_jobs := requires_standard_jobs ds;
     requires_custom_work := requires_custom_work ds; set_up := set_up ds |}.
Definition put_factory (n : N) (ds : Downstream) : Downstream :=
  {| group_channel := group_channel ds; extended_channels := extended_channels ds;
     standard_channels := standard_channels ds; channel_id_factory := n;
     negotiated_extensions := negotiated_extensions ds; payout_mode := payout_mode ds;
     requires_standard_jobs := requires_standard_jobs ds;
     requires_custom_work := requires_custom_work ds; set_up := set_up ds |}.
Definition put_payout (m : option PayoutMode) (ds : Downstream) : Downstream :=
  {| group_channel := group_channel ds; extended_channels := extended_channels ds;
     standard_channels := standard_channels ds; channel_id_factory := channel_id_factory ds;
     negotiated_extensions := negotiated_extensions ds; payout_mode := m;
     requires_standard_jobs := requires_standard_jobs ds;
     requires_custom_work := requires_custom_work ds; set_up := set_up ds |}.
Definition put_extensions (l : list N) (ds : Downstream) : Downstream :=
  {| group_channel := group_channel ds; extended_channels := extended_channels ds;
     standard_channels := standard_channels ds; channel_id_factory := channel_id_factory ds;
     negotiated_extensions := l; payout_mode := payout_mode ds;
     requires_standard_jobs := requires_standard_jobs ds;
     requires_custom_work := requires_custom_work ds; set_up := set_up ds |}.
Definition put_flags (custom std : bool) (ds : Downstream) : Downstream :=
  {| group_channel := group_channel ds; extended_channels := extended_channels ds;
     standard_channels := standard_channels ds; channel_id_factory := channel_id_factory ds;
     negotiated_extensions := negotiated_extensions ds; payout_mode := payout_mode ds;
     requires_standard_jobs := std; requires_custom_work := custom; set_up := true |}.

Definition put_downstreams (m : gmap N Downstream) (s : ChannelManager) : ChannelManager :=
  {| downstreams := m; extranonce_allocator := extranonce_allocator s;
     downstream_id_factory := downstream_id_factory s; vardiff := vardiff s;
     last_new_prev_hash := last_new_prev_hash s; last_future_template := last_future_template s;
     channel_manager_io := channel_manager_io s; job_declarator := job_declarator s |}.
Definition put_allocator (a : ExtranonceAllocator) (s : ChannelManager) : ChannelManager :=
  {| downstreams := downstreams s; extranonce_allocator := a;
     downstream_id_factory := downstream_id_factory s; vardiff := vardiff s;
     last_new_prev_hash := last_new_prev_hash s; last_future_template := last_future_template s;
     channel_manager_io := channel_manager_io s; job_declarator := job_declarator s |}.
Definition put_vardiff (m : gmap (N * N) Vardiff) (s : ChannelManager) : ChannelManager :=
  {| downstreams := downstreams s; extranonce_allocator := extranonce_allocator s;
     downstream_id_factory := downstream_id_factory s; vardiff := m;
     last_new_prev_hash := last_new_prev_hash s; last_future_template := last_future_template s;
     channel_manager_io := channel_manager_io s; job_declarator := job_declarator s |}.
Definition put_tip (ph : option SetNewPrevHash) (t : option NewTemplate) (s : ChannelManager)
    : ChannelManager :=
  {| downstreams := downstreams s; extranonce_allocator := extranonce_allocator s;
     downstream_id_factory := downstream_id_factory s; vardiff := vardiff s;
     last_new_prev_hash := ph; last_future_template := t;
     channel_manager_io := channel_manager_io s; job_declarator := job_declarator s |}.
Definition put_io (io : ChannelManagerIo) (s : ChannelManager) : ChannelManager :=
  {| downstreams := downstreams s; extranonce_allocator := extranonce_allocator s;
     downstream_id_factory := downstream_id_factory s; vardiff := vardiff s;
     last_new_prev_hash := last_new_prev_hash s; last_future_template := last_future_template s;
     channel_manager_io := io; job_declarator := job_declarator s |}.
Definition put_jd (jd : option JdSystem) (s : ChannelManager) : ChannelManager :=
  {| downstreams := downstreams s; extranonce_allocator := extranonce_allocator s;
     downstream_id_factory := downstream_id_factory s; vardiff := vardiff s;
     last_new_prev_hash := last_new_prev_hash s; last_future_template := last_future_template s;
     channel_manager_io := channel_manager_io s; job_declarator := jd |}.

Definition handler (A : Type) : Type := prog ChannelManager PoolError A.
Definition guarded (A : Type) : Type := prog Downstream PoolError A.

(** ** Configuration

    The pool's serialized coinbase outputs and its reward script. *)
Context (configured_outputs : list byte) (coinbase_reward_script : list byte).

(** [with_registered_downstream]. *)
Definition with_registered_downstream {A} (d : N) (f : guarded A) : handler A :=
  focus downstreams put_downstreams d (raise (disconnect (DownstreamNotFound d) d)) f.

Definition registered (d : N) : handler Downstream :=
  with_registered_downstream d (ask (λ ds, ds)).

(** ** Sending *)

(** [RouteMessageTo::forward]. *)
Definition forward (m : RouteMessageTo) (io : ChannelManagerIo)
    : result unit PoolErrorKind * ChannelManagerIo :=
  let send := {| tp_open := tp_open io; downstream_sender := downstream_sender io;
                 closed := closed io; sent := sent io ++ [m] |} in
  match m with
  | ToDownstream d _ =>
      if decide (d ∈ downstream_sender io) then
        if decide (d ∈ closed io) then (Err ChannelSend, io) else (Ok tt, send)
      else (Ok tt, io)
  | TemplateProvider _ => if tp_open io then (Ok tt, send) else (Err ChannelSend, io)
  end.

(** A failed send is logged. *)
Definition forward_all (messages : list RouteMessageTo) : handler unit :=
  for_each messages (λ m, update (λ s, put_io (forward m (channel_manager_io s)).2 s)).

(** A failed send ends the handler. *)
Definition forward_or_disconnect (d : N) (m : RouteMessageTo) : handler unit :=
  r ← transact (λ s, let '(r, io) := forward m (channel_manager_io s) in (r, put_io io s));
  ok_or_raise r (λ e, disconnect e d).

(** ** Extranonce prefixes *)
Definition extranonce_allocation_error_code (e : ExtranonceAllocatorError)
    : result string ExtranonceAllocatorError :=
  match e with
  | CapacityExhausted => Ok ERROR_CODE_OPEN_MINING_CHANNEL_CHANNEL_CAPACITY_EXHAUSTED
  | InvalidRollableSize => Ok ERROR_CODE_OPEN_MINING_CHANNEL_MIN_EXTRANONCE_SIZE_TOO_LARGE
  | e => Err e
  end.

Definition release_all (ps : list ExtranoncePrefix) (s : ChannelManager) : ChannelManager :=
  put_allocator (foldl release_prefix (extranonce_allocator s) ps) s.

Definition drop_prefix (p : ExtranoncePrefix) : handler unit := update (release_all [p]).

(** ** Closing a channel *)
Definition close_in_downstream (channel_id : N) : guarded (list ExtranoncePrefix) :=
  update (λ ds, if grp_has_channel_id (group_channel ds) channel_id
                then put_group (grp_remove_channel_id (group_channel ds) channel_id) ds else ds);;
  std ← transact (λ ds, let '(o, m) := SharedMap.remove (standard_channels ds) channel_id in
                        (o, put_std m ds));
  ext ← transact (λ ds, let '(o, m) := SharedMap.remove (extended_channels ds) channel_id in
                        (o, put_ext m ds));
  update (λ ds, if SharedMap.is_empty (standard_channels ds) &&
                   SharedMap.is_empty (extended_channels ds)
                then put_payout None ds else ds);;
  mret (match std with Some (_, c) => [std_prefix c] | None => [] end ++
        match ext with Some (_, c) => [ext_prefix c] | None => [] end).

(** [handle_close_channel]. *)
Definition handle_close_channel (d channel_id : N) : handler unit :=
  dropped ← with_registered_downstream d (close_in_downstream channel_id);
  update (release_all dropped);;
  update (λ s, put_vardiff (SharedMap.remove (vardiff s) (d, channel_id)).2 s).

(** ** Opening a channel *)
Definition open_error (d request_id : N) (code : string) : list RouteMessageTo :=
  [ToDownstream d (OpenMiningChannelError request_id code)].

(** The payout mode of an identity; [None] when it is rejected. *)
Definition identity_payout (user_identity : string) : option PayoutMode :=
  match Payout.try_from user_identity with
  | Ok mode => Some mode
  | Err (NoPayoutMode _) => Some FullDonation
  | Err _ => None
  end.

(** [channel_id_factory.fetch_add(1)]. *)
Definition next_channel_id : guarded N :=
  transact (λ ds, (u32_wrap (channel_id_factory ds), put_factory (channel_id_factory ds + 1) ds)).

Definition start_vardiff (d channel_id : N) : handler unit :=
  v ← some_or vardiff_new (shutdown VardiffFailed);
  update (λ s, put_vardiff (<[(d, channel_id) := v]> (vardiff s)) s).

Definition prev_hash_message (channel_id job_id : N) (ph : SetNewPrevHash) : MinerMessage :=
  MsgSetNewPrevHash channel_id job_id (ph_prev_hash ph) (ph_ntime_start ph) (ph_n_bits ph).

(** Adding the channel to the group. *)
Definition add_to_group (channel_id size : N) : guarded (result unit ServerChannelError) :=
  transact (λ ds, let '(r, g) := grp_add_channel_id (group_channel ds) channel_id size in
                  (r, put_group g ds)).

(** Storing the opened channel; a channel it replaces is returned. *)
Definition insert_standard (channel_id : N) (c : StdChannel) (mode : PayoutMode)
    : guarded (option StdChannel) :=
  old ← transact (λ ds, let '(o, m) := SharedMap.insert (standard_channels ds) channel_id c in
                        (o, put_std m ds));
  update (put_payout (Some mode));;
  mret old.

Definition insert_extended (channel_id : N) (c : ExtChannel) (mode : PayoutMode)
    : guarded (option ExtChannel) :=
  old ← transact (λ ds, let '(o, m) := SharedMap.insert (extended_channels ds) channel_id c in
                        (o, put_ext m ds));
  update (put_payout (Some mode));;
  mret old.

(** From the constructed channel on. *)
Definition finish_open_standard (d request_id channel_id : N) (c : StdChannel) (mode : PayoutMode)
    (template : NewTemplate) (ph : SetNewPrevHash) : handler (list RouteMessageTo) :=
  ds ← registered d;
  let fail {A} (c : StdChannel) (e : PoolError) : handler A := drop_prefix (std_prefix c);; raise e in
  let prefix := std_extranonce_prefix c in
  some_or_crash (guard (fits_b032 prefix = true));;
  let success := OpenStandardMiningChannelSuccess request_id channel_id (std_target c) prefix
                   (grp_id (group_channel ds)) in
  let outputs := coinbase_outputs mode (coinbase_tx_value_remaining template)
                   coinbase_reward_script in
  let '(r, c1) := std_on_new_template c template outputs in
  match r with
  | Err e => fail c1 (shutdown (ChannelSv2 (StandardChannelServerSide e)))
  | Ok _ =>
      job_id ← some_or_crash (std_get_future_job_id_from_template_id c1 (template_id template));
      job ← some_or_crash (std_get_future_job c1 job_id);
      let '(r, c2) := std_on_set_new_prev_hash c1 ph in
      match r with
      | Err e => fail c2 (shutdown (ChannelSv2 (StandardChannelServerSide e)))
      | Ok _ =>
          old ← with_registered_downstream d (insert_standard channel_id c2 mode);
          update (release_all (std_prefix <$> option_list old));;
          (if requires_standard_jobs ds then mret tt
           else r ← with_registered_downstream d
                      (add_to_group channel_id (N.of_nat (length prefix)));
                ok_or_raise r (λ e, shutdown (ChannelSv2 (GroupChannelServerSide e))));;
          start_vardiff d channel_id;;
          mret [ToDownstream d success; ToDownstream d (MsgNewMiningJob (std_job_message job));
                ToDownstream d (prev_hash_message channel_id job_id ph)]
      end
  end.

Definition open_standard (d : N) (msg : OpenStandardMiningChannel)
    : handler (list RouteMessageTo) :=
  let request_id := osc_request_id msg in
  ds ← registered d;
  if requires_custom_work ds then
    mret (open_error d request_id
            ERROR_CODE_OPEN_MINING_CHANNEL_STANDARD_CHANNELS_NOT_SUPPORTED_FOR_CUSTOM_WORK)
  else
    template ← ask last_future_template;
    template ← some_or template (disconnect FutureTemplateNotPresent d);
    ph ← ask last_new_prev_hash;
    ph ← some_or ph (disconnect LastNewPrevhashNotFound d);
    match identity_payout (osc_user_identity msg) with
    | None => mret (open_error d request_id ERROR_CODE_OPEN_MINING_CHANNEL_INVALID_USER_IDENTITY)
    | Some mode =>
        if negb (payout_is_compatible (payout_mode ds) mode coinbase_reward_script) then
          mret (open_error d request_id ERROR_CODE_OPEN_MINING_CHANNEL_INCOMPATIBLE_PAYOUT_MODE)
        else
          r ← transact (λ s, let '(r, a) := allocate_standard (extranonce_allocator s) in
                             (r, put_allocator a s));
          match r with
          | Err e =>
              code ← ok_or_raise (extranonce_allocation_error_code e)
                       (λ e, shutdown (ChannelSv2 (ExtranonceError e)));
              mret (open_error d request_id code)
          | Ok prefix =>
              channel_id ← with_registered_downstream d next_channel_id;
              match std_new_for_pool channel_id (osc_user_identity msg) prefix
                      (osc_max_target msg) (osc_nominal_hash_rate msg) with
              | Ok c => finish_open_standard d request_id channel_id c mode template ph
              | Err (OpenChannelInvalidNominalHashrate code)
              | Err (OpenChannelInvalidMaxTarget code) =>
                  drop_prefix prefix;; mret (open_error d request_id code)
              | Err _ => drop_prefix prefix;; raise (disconnect ChannelErrorSender d)
              end
          end
    end.

(** [handle_open_standard_mining_channel]. *)
Definition handle_open_standard_mining_channel (d : N) (msg : OpenStandardMiningChannel)
    : handler unit :=
  open_standard d msg ≫= forward_all.

(** Jobs for the new channel, unless the miner brings its own. *)
Definition first_extended_job (d channel_id : N) (c : ExtChannel) (mode : PayoutMode)
    (template : NewTemplate) (ph : SetNewPrevHash) : handler (list RouteMessageTo * ExtChannel) :=
  let fail {A} (c : ExtChannel) (e : ServerChannelError) : handler A :=
    drop_prefix (ext_prefix c);; raise (shutdown (ChannelSv2 (ExtendedChannelServerSide e))) in
  let outputs := coinbase_outputs mode (coinbase_tx_value_remaining template)
                   coinbase_reward_script in
  let '(r, c1) := ext_on_new_template c template outputs in
  match r with
  | Err e => fail c1 e
  | Ok _ =>
      job_id ← some_or_crash (ext_get_future_job_id_from_template_id c1 (template_id template));
      job ← some_or_crash (ext_get_future_job c1 job_id);
      let '(r, c2) := ext_on_set_new_prev_hash c1 ph in
      match r with
      | Err e => fail c2 e
      | Ok _ =>
          r ← with_registered_downstream d
                (add_to_group channel_id (ext_full_extranonce_size c2));
          match r with
          | Err e =>
              drop_prefix (ext_prefix c2);; raise (shutdown (ChannelSv2 (GroupChannelServerSide e)))
          | Ok _ =>
              mret ([ToDownstream d (MsgNewExtendedMiningJob (ext_job_message job));
                     ToDownstream d (prev_hash_message channel_id job_id ph)], c2)
          end
      end
  end.

(** From the constructed channel on. *)
Definition finish_open_extended (d request_id channel_id : N) (c : ExtChannel) (mode : PayoutMode)
    : handler (list RouteMessageTo) :=
  ds ← registered d;
  let fail {A} (c : ExtChannel) (e : PoolError) : handler A := drop_prefix (ext_prefix c);; raise e in
  let prefix := ext_extranonce_prefix c in
  if negb (fits_b032 prefix) then fail c (shutdown BinarySv2)
  else
    let success := OpenExtendedMiningChannelSuccess request_id channel_id (ext_target c) prefix
                     (ext_rollable_extranonce_size c) (grp_id (group_channel ds)) in
    ph ← ask last_new_prev_hash;
    template ← ask last_future_template;
    match ph, template with
    | None, _ => fail c (disconnect LastNewPrevhashNotFound d)
    | _, None => fail c (disconnect FutureTemplateNotPresent d)
    | Some ph, Some template =>
        jobs ← (if requires_custom_work ds then
                  let '(r, c1) := ext_on_set_new_prev_hash c ph in
                  match r with
                  | Err e => fail c1 (shutdown (ChannelSv2 (ExtendedChannelServerSide e)))
                  | Ok _ => mret ([], c1)
                  end
                else first_extended_job d channel_id c mode template ph);
        let '(messages, c') := jobs in
        old ← with_registered_downstream d (insert_extended channel_id c' mode);
        update (release_all (ext_prefix <$> option_list old));;
        start_vardiff d channel_id;;
        mret (ToDownstream d success :: messages)
    end.

Definition open_extended (d : N) (msg : OpenExtendedMiningChannel)
    : handler (list RouteMessageTo) :=
  let request_id := oec_request_id msg in
  ds ← registered d;
  if requires_standard_jobs ds then
    mret (open_error d request_id
            ERROR_CODE_OPEN_MINING_CHANNEL_EXTENDED_CHANNELS_NOT_SUPPORTED_FOR_STANDARD_JOBS)
  else
    match identity_payout (oec_user_identity msg) with
    | None => mret (open_error d request_id ERROR_CODE_OPEN_MINING_CHANNEL_INVALID_USER_IDENTITY)
    | Some mode =>
        if negb (payout_is_compatible (payout_mode ds) mode coinbase_reward_script) then
          mret (open_error d request_id ERROR_CODE_OPEN_MINING_CHANNEL_INCOMPATIBLE_PAYOUT_MODE)
        else
          r ← transact (λ s, let '(r, a) := allocate_extended (extranonce_allocator s)
                                              (oec_min_extranonce_size msg) in
                             (r, put_allocator a s));
          match r with
          | Err e =>
              code ← ok_or_raise (extranonce_allocation_error_code e)
                       (λ e, shutdown (ChannelSv2 (ExtranonceError e)));
              mret (open_error d request_id code)
          | Ok prefix =>
              channel_id ← with_registered_downstream d next_channel_id;
              match ext_new_for_pool channel_id (oec_user_identity msg) prefix
                      (oec_max_target msg) (oec_nominal_hash_rate msg)
                      CLIENT_SEARCH_SPACE_BYTES with
              | Ok c => finish_open_extended d request_id channel_id c mode
              | Err (OpenChannelInvalidNominalHashrate code)
              | Err (OpenChannelInvalidMaxTarget code)
              | Err (RequestedMinExtranonceSizeTooLarge code) =>
                  drop_prefix prefix;; mret (open_error d request_id code)
              | Err e =>
                  drop_prefix prefix;;
                  raise (disconnect (ChannelSv2 (ExtendedChannelServerSide e)) d)
              end
          end
    end.

(** [handle_open_extended_mining_channel]. *)
Definition handle_open_extended_mining_channel (d : N) (msg : OpenExtendedMiningChannel)
    : handler unit :=
  open_extended d msg ≫= forward_all.

(** ** Shares *)

(** The error codes a [SubmitSharesError] reports; the other errors close the
    connection.  Standard channels have no [BadExtranonceSize]. *)
Definition std_error_code (e : ShareValidationError) : option string :=
  match e with
  | Invalid code | Stale code | InvalidJobId code | DoesNotMeetTarget code
  | DuplicateShare code | VersionRollingNotAllowed code => Some code
  | BadExtranonceSize _ | SeenSharesBudgetExhausted | OtherShareError => None
  end.
Definition ext_error_code (e : ShareValidationError) : option string :=
  match e with
  | Invalid code | Stale code | InvalidJobId code | DoesNotMeetTarget code
  | DuplicateShare code | BadExtranonceSize code | VersionRollingNotAllowed code => Some code
  | SeenSharesBudgetExhausted | OtherShareError => None
  end.

Definition share_success (d channel_id : N) (a : ShareAccounting) : RouteMessageTo :=
  ToDownstream d (SubmitSharesSuccess channel_id (last_share_sequence_number a)
                    (last_batch_accepted a) (last_batch_work_sum a)).

(** What a verdict is answered with, given the channel's accounting after it. *)
Definition answer_share (error_code : ShareValidationError → option string)
    (d channel_id seq version ntime nonce : N) (verdict : DownVerdict) (a : ShareAccounting)
    : result (list RouteMessageTo) PoolError :=
  match verdict with
  | DownValid _ => Ok (if should_acknowledge a then [share_success d channel_id a] else [])
  | DownBlockFound _ None _ => Ok [share_success d channel_id a]
  | DownBlockFound _ (Some template) coinbase =>
      if fits_b064k coinbase
      then Ok [TemplateProvider (MsgSubmitSolution
                 {| sol_template_id := template; sol_version := version; sol_ntime := ntime;
                    sol_nonce := nonce; sol_coinbase_tx := coinbase |});
               share_success d channel_id a]
      else Err (shutdown BinarySv2)
  | DownErr e =>
      match error_code e with
      | Some code => Ok [ToDownstream d (SubmitSharesError channel_id seq code)]
      | None => Err (disconnect (ChannelSv2 (InShareValidation e)) d)
      end
  end.

(** The common frame of the two handlers: [judge] validates on the channel. *)
Definition submit_share (d channel_id seq : N) (present : Downstream → bool)
    (judge : guarded (option (result (list RouteMessageTo) PoolError))) : handler unit :=
  ds ← registered d;
  let unknown := [ToDownstream d (SubmitSharesError channel_id seq
                                    ERROR_CODE_SUBMIT_SHARES_INVALID_CHANNEL_ID)] in
  messages ←
    (if negb (present ds) then mret unknown
     else
       tracked ← ask (λ s, SharedMap.contains_key (vardiff s) (d, channel_id));
       if negb tracked then
         mret [ToDownstream d (CloseChannel channel_id ERROR_CODE_SUBMIT_SHARES_INVALID_CHANNEL_ID)]
       else
         validation ← with_registered_downstream d judge;
         match validation with
         | Some r =>
             update (λ s, put_vardiff (SharedMap.with_mut (vardiff s) (d, channel_id)
                            (λ v, (tt, increment_shares_since_last_update v))).2 s);;
             ok_or_raise r (λ e, e)
         | None => mret unknown
         end);
  forward_all messages.

Definition judge_standard (d : N) (msg : SubmitSharesStandard)
    : guarded (option (result (list RouteMessageTo) PoolError)) :=
  focus standard_channels put_std (sss_channel_id msg)
    (mret None)
    (verdict ← transact (λ c, std_validate_share c msg);
     a ← ask std_share_accounting;
     mret (Some (answer_share std_error_code d (sss_channel_id msg) (sss_sequence_number msg)
                   (sss_version msg) (sss_ntime msg) (sss_nonce msg) verdict a))).

Definition judge_extended (d : N) (msg : SubmitSharesExtended)
    : guarded (option (result (list RouteMessageTo) PoolError)) :=
  focus extended_channels put_ext (sse_channel_id msg)
    (mret None)
    (verdict ← transact (λ c, ext_validate_share c msg);
     a ← ask ext_share_accounting;
     mret (Some (answer_share ext_error_code d (sse_channel_id msg) (sequence_number msg)
                   (sse_version msg) (ntime msg) (nonce msg) verdict a))).

(** [handle_submit_shares_standard], [handle_submit_shares_extended]; the TLV
    fields the latter reads are not used. *)
Definition handle_submit_shares_standard (d : N) (msg : SubmitSharesStandard) : handler unit :=
  submit_share d (sss_channel_id msg) (sss_sequence_number msg)
    (λ ds, SharedMap.contains_key (standard_channels ds) (sss_channel_id msg))
    (judge_standard d msg).
Definition handle_submit_shares_extended (d : N) (msg : SubmitSharesExtended) : handler unit :=
  submit_share d (sse_channel_id msg) (sequence_number msg)
    (λ ds, SharedMap.contains_key (extended_channels ds) (sse_channel_id msg))
    (judge_extended d msg).

(** ** Changing a channel *)

(** The answer to [update_channel]'s result, in front of the new target; other
    errors are [unreachable!()]. *)
Definition update_error (d channel_id : N) (r : result unit ServerChannelError)
    : option (list RouteMessageTo) :=
  match r with
  | Ok _ => Some []
  | Err (UpdateChannelInvalidNominalHashrate code)
  | Err (UpdateChannelInvalidMaxTarget code) =>
      Some [ToDownstream d (UpdateChannelError channel_id code)]
  | Err _ => None
  end.

Definition update_standard (d : N) (msg : UpdateChannel) : prog StdChannel PoolError (list RouteMessageTo) :=
  r ← transact (λ c, std_update_channel c (uc_nominal_hash_rate msg) (Some (uc_maximum_target msg)));
  errors ← some_or_crash (update_error d (uc_channel_id msg) r);
  target ← ask std_target;
  mret (errors ++ [ToDownstream d (MsgSetTarget (uc_channel_id msg) target)]).

Definition update_extended (d : N) (msg : UpdateChannel) : prog ExtChannel PoolError (list RouteMessageTo) :=
  r ← transact (λ c, ext_update_channel c (uc_nominal_hash_rate msg) (Some (uc_maximum_target msg)));
  errors ← some_or_crash (update_error d (uc_channel_id msg) r);
  target ← ask ext_target;
  mret (errors ++ [ToDownstream d (MsgSetTarget (uc_channel_id msg) target)]).

(** [handle_update_channel]. *)
Definition handle_update_channel (d : N) (msg : UpdateChannel) : handler unit :=
  messages ← with_registered_downstream d
    (focus standard_channels put_std (uc_channel_id msg)
       (focus extended_channels put_ext (uc_channel_id msg)
          (mret [ToDownstream d (UpdateChannelError (uc_channel_id msg)
                                   ERROR_CODE_UPDATE_CHANNEL_INVALID_CHANNEL_ID)])
          (update_extended d msg))
       (update_standard d msg));
  forward_all messages.

(** ** Custom jobs *)
Context (custom_error_string : CustomErrorCode → string).

Definition custom_error (d : N) (msg : SetCustomMiningJob) (code : string) : RouteMessageTo :=
  ToDownstream d (SetCustomMiningJobError (scmj_request_id msg) (scmj_channel_id msg) code).

(** The job declarator's verdict: its state and what it answers. *)
Definition ask_job_declarator (msg : SetCustomMiningJob) (user_identity : string)
    : handler SetCustomMiningJobResponse := λ s,
  match job_declarator s with
  | None => Panic
  | Some j =>
      match JobDeclarator.handle_set_custom_mining_job msg user_identity (jd j) with
      | Panic => Panic
      | Done (r, jd') =>
          let s' := put_jd (Some {| jd := jd'; loop := loop j |}) s in
          match r with
          | Ok response => Done (Ok response, s')
          | Err e => Done (Err (shutdown (Jds (JobDeclarator.kind e))), s')
          end
      end
  end.

(** [handle_set_custom_mining_job] up to the job declarator's verdict; [true]
    when the job is to be committed. *)
Definition validate_custom_job (d : N) (msg : SetCustomMiningJob) : handler bool :=
  user_identity ← with_registered_downstream d
    (ask (λ ds, SharedMap.with_ (extended_channels ds) (scmj_channel_id msg) ext_user_identity));
  jds ← ask job_declarator;
  match jds, user_identity with
  | None, _ =>
      forward_or_disconnect d
        (custom_error d msg ERROR_CODE_SET_CUSTOM_MINING_JOB_JD_NOT_SUPPORTED);;
      mret false
  | Some _, None =>
      forward_or_disconnect d
        (custom_error d msg ERROR_CODE_SET_CUSTOM_MINING_JOB_INVALID_CHANNEL_ID);;
      mret false
  | Some _, Some user_identity =>
      response ← ask_job_declarator msg user_identity;
      match response with
      | ScmjError request_id channel_id code =>
          forward_or_disconnect d
            (ToDownstream d (SetCustomMiningJobError request_id channel_id (custom_error_string code)));;
          mret false
      | ScmjOk _ _ _ => mret true
      end
  end.

(** ... and from there on. *)
Definition commit_custom_job (d : N) (msg : SetCustomMiningJob) : handler unit :=
  message ← with_registered_downstream d
    (focus extended_channels put_ext (scmj_channel_id msg)
       (mret (custom_error d msg ERROR_CODE_SET_CUSTOM_MINING_JOB_INVALID_CHANNEL_ID))
       (r ← transact (λ c, ext_on_set_custom_mining_job c msg);
        job_id ← ok_or_raise r
                   (λ e, disconnect (ChannelSv2 (ExtendedChannelServerSide e)) d);
        mret (ToDownstream d (SetCustomMiningJobSuccess (scmj_channel_id msg)
                                (scmj_request_id msg) job_id))));
  forward_or_disconnect d message.

Definition handle_set_custom_mining_job (d : N) (msg : SetCustomMiningJob) : handler unit :=
  commit ← validate_custom_job d msg;
  if (commit : bool) then commit_custom_job d msg else mret tt.

(** ** Templates

    The iteration orders of the maps are arguments. *)
Context (downstream_order : list N) (channel_order : N → list N).

(** The group's job for the template, and its message. *)
Definition group_job (d : N) (msg : NewTemplate) (outputs : list TxOut)
    : guarded (ExtJob * list RouteMessageTo) :=
  r ← transact (λ ds, let '(r, g) := grp_on_new_template (group_channel ds) msg outputs in
                      (r, put_group g ds));
  ok_or_raise r (λ e, shutdown (ChannelSv2 (GroupChannelServerSide e)));;
  ds ← ask (λ ds, ds);
  let g := group_channel ds in
  job ← (if future_template msg then
           job_id ← some_or (grp_get_future_job_id_from_template_id g (template_id msg))
                      (shutdown JobNotFound);
           some_or (grp_get_future_job g job_id) (shutdown JobNotFound)
         else some_or (grp_get_active_job g) (shutdown JobNotFound));
  mret (job, if negb (requires_standard_jobs ds) && negb (grp_is_empty g)
             then [ToDownstream d (MsgNewExtendedMiningJob (ext_job_message job))] else []).

Definition standard_job (d : N) (msg : NewTemplate) (outputs : list TxOut) (own_jobs : bool)
    (group : ExtJob) : prog StdChannel PoolError (list RouteMessageTo) :=
  if negb own_jobs then
    r ← transact (λ c, std_on_group_channel_job c group);
    ok_or_raise r (λ e, shutdown (ChannelSv2 (StandardChannelServerSide e)));;
    mret []
  else
    r ← transact (λ c, std_on_new_template c msg outputs);
    ok_or_raise r (λ e, shutdown (ChannelSv2 (StandardChannelServerSide e)));;
    c ← ask (λ c, c);
    job ← (if future_template msg then
             job_id ← some_or_crash (std_get_future_job_id_from_template_id c (template_id msg));
             some_or_crash (std_get_future_job c job_id)
           else some_or_crash (std_get_active_job c));
    mret [ToDownstream d (MsgNewMiningJob (std_job_message job))].

Definition extended_job (group : ExtJob) : prog ExtChannel PoolError (list RouteMessageTo) :=
  r ← transact (λ c, ext_on_group_channel_job c group);
  ok_or_raise r (λ e, shutdown (ChannelSv2 (ExtendedChannelServerSide e)));;
  mret [].

(** What the connection's blocks pay. *)
Definition downstream_coinbase_outputs (total : N) (default_outputs : list TxOut) (ds : Downstream)
    : list TxOut :=
  match payout_mode ds with
  | Some mode => coinbase_outputs mode total coinbase_reward_script
  | None => default_outputs
  end.

(** One round of the loop over the connections. *)
Definition template_round (msg : NewTemplate) (default_outputs : list TxOut) (d : N)
    : guarded (list RouteMessageTo) :=
  ds ← ask (λ ds, ds);
  if requires_custom_work ds then mret []
  else
    let outputs := downstream_coinbase_outputs (coinbase_tx_value_remaining msg)
                     default_outputs ds in
    sent ← group_job d msg outputs;
    let '(job, messages) := sent in
    more ← collect (channel_order d) (λ c,
      focus standard_channels put_std c (mret [])
        (standard_job d msg outputs (requires_standard_jobs ds) job));
    collect (channel_order d) (λ c,
      focus extended_channels put_ext c (mret []) (extended_job job));;
    mret (messages ++ more).

(** [coinbase_output[0].value = ..] of the deserialized outputs. *)
Definition default_outputs (total : N) : option (list TxOut) :=
  match deserialize_outputs configured_outputs with
  | Some (o :: rest) => Some ({| value := total; script_pubkey := script_pubkey o |} :: rest)
  | _ => None
  end.

(** [handle_new_template]. *)
Definition handle_new_template (msg : NewTemplate) : handler unit :=
  (if future_template msg
   then update (λ s, put_tip (last_new_prev_hash s) (Some msg) s) else mret tt);;
  default ← some_or_crash (default_outputs (coinbase_tx_value_remaining msg));
  messages ← collect downstream_order (λ d,
    focus downstreams put_downstreams d (mret []) (template_round msg default d));
  forward_all messages.

Definition prev_hash_extended (ph : SetNewPrevHash) : prog ExtChannel PoolError (list RouteMessageTo) :=
  r ← transact (λ c, ext_on_set_new_prev_hash c ph);
  ok_or_raise r (λ e, shutdown (ChannelSv2 (ExtendedChannelServerSide e)));;
  mret [].

Definition prev_hash_standard (d channel_id : N) (ph : SetNewPrevHash) (own_jobs : bool)
    : prog StdChannel PoolError (list RouteMessageTo) :=
  r ← transact (λ c, std_on_set_new_prev_hash c ph);
  ok_or_raise r (λ e, shutdown (ChannelSv2 (StandardChannelServerSide e)));;
  if own_jobs then
    c ← ask (λ c, c);
    job ← some_or (std_get_active_job c) (shutdown JobNotFound);
    mret [ToDownstream d (prev_hash_message channel_id (std_job_id job) ph)]
  else mret [].

Definition prev_hash_round (ph : SetNewPrevHash) (d : N) : guarded (list RouteMessageTo) :=
  ds ← ask (λ ds, ds);
  if requires_custom_work ds then mret []
  else
    r ← transact (λ ds, let '(r, g) := grp_on_set_new_prev_hash (group_channel ds) ph in
                        (r, put_group g ds));
    ok_or_raise r (λ e, shutdown (ChannelSv2 (GroupChannelServerSide e)));;
    g ← ask group_channel;
    messages ←
      (if negb (requires_standard_jobs ds) && negb (grp_is_empty g) then
         job ← some_or_crash (grp_get_active_job g);
         mret [ToDownstream d (prev_hash_message (grp_id g) (ext_job_id job) ph)]
       else mret []);
    collect (channel_order d) (λ c,
      focus extended_channels put_ext c (mret []) (prev_hash_extended ph));;
    more ← collect (channel_order d) (λ c,
      focus standard_channels put_std c (mret [])
        (prev_hash_standard d c ph (requires_standard_jobs ds)));
    mret (messages ++ more).

(** [handle_set_new_prev_hash]. *)
Definition handle_set_new_prev_hash (ph : SetNewPrevHash) : handler unit :=
  update (λ s, put_tip (Some ph) (last_future_template s) s);;
  messages ← collect downstream_order (λ d,
    focus downstreams put_downstreams d (mret []) (prev_hash_round ph d));
  forward_all messages.

(** ** Variable difficulty *)

(** [run_vardiff_on_standard_channel], [run_vardiff_on_extended_channel]. *)
Definition run_vardiff_on_standard_channel (d channel_id : N) (v : Vardiff)
    : prog StdChannel PoolError (Vardiff * list RouteMessageTo) :=
  transact (λ c,
    let '(r, v') := try_vardiff v (std_nominal_hashrate c) (std_target c) in
    match r with
    | Err _ => (v', [], c)
    | Ok None => (v', [], std_set_stable_hashrate c true)
    | Ok (Some hashrate) =>
        let '(r, c') := std_update_channel (std_set_stable_hashrate c false) hashrate None in
        match r with
        | Ok _ => (v', [ToDownstream d (MsgSetTarget channel_id (std_target c'))], c')
        | Err _ => (v', [], c')
        end
    end).

Definition run_vardiff_on_extended_channel (d channel_id : N) (v : Vardiff)
    : prog ExtChannel PoolError (Vardiff * list RouteMessageTo) :=
  transact (λ c,
    let '(r, v') := try_vardiff v (ext_nominal_hashrate c) (ext_target c) in
    match r with
    | Err _ => (v', [], c)
    | Ok None => (v', [], ext_set_stable_hashrate c true)
    | Ok (Some hashrate) =>
        let '(r, c') := ext_update_channel (ext_set_stable_hashrate c false) hashrate None in
        match r with
        | Ok _ => (v', [ToDownstream d (MsgSetTarget channel_id (ext_target c'))], c')
        | Err _ => (v', [], c')
        end
    end).

(** One key of the vardiff map; a key of a removed connection is removed. *)
Definition vardiff_round (key : N * N) : handler (list RouteMessageTo) :=
  let '(d, channel_id) := key in
  controller ← ask (λ s, vardiff s !! key);
  connection ← ask (λ s, downstreams s !! d);
  match connection, controller with
  | None, _ => update (λ s, put_vardiff (SharedMap.remove (vardiff s) key).2 s);; mret []
  | Some _, None => mret []
  | Some _, Some v =>
      r ← with_registered_downstream d
            (focus standard_channels put_std channel_id (mret (v, []))
               (run_vardiff_on_standard_channel d channel_id v));
      let '(v1, updates1) := (r : Vardiff * list RouteMessageTo) in
      r ← with_registered_downstream d
            (focus extended_channels put_ext channel_id (mret (v1, []))
               (run_vardiff_on_extended_channel d channel_id v1));
      let '(v2, updates2) := (r : Vardiff * list RouteMessageTo) in
      update (λ s, put_vardiff (<[key := v2]> (vardiff s)) s);;
      mret (updates1 ++ updates2)
  end.

(** [run_vardiff]; [keys] is an enumeration of the vardiff map. *)
Definition run_vardiff (keys : list (N * N)) : handler unit :=
  messages ← collect keys vardiff_round;
  forward_all messages.

(** ** Connections *)

(** [bootstrap_group_channel]; [None] when the group channel refuses. *)
Definition bootstrap_group_channel (channel_id : N) : handler (option GroupChannel) :=
  template ← ask last_future_template;
  template ← some_or_crash template;
  ph ← ask last_new_prev_hash;
  ph ← some_or_crash ph;
  mret (match grp_new channel_id with
        | None => None
        | Some g =>
            let output := {| value := coinbase_tx_value_remaining template;
                             script_pubkey := coinbase_reward_script |} in
            match grp_on_new_template g template [output] with
            | (Err _, _) => None
            | (Ok _, g1) =>
                match grp_on_set_new_prev_hash g1 ph with
                | (Err _, _) => None
                | (Ok _, g2) => Some g2
                end
            end
        end).

(** [Downstream::new]: the group channel took the first channel id. *)
Definition new_downstream (g : GroupChannel) : Downstream :=
  {| group_channel := g; extended_channels := SharedMap.new; standard_channels := SharedMap.new;
     channel_id_factory := 2; negotiated_extensions := []; payout_mode := None;
     requires_standard_jobs := false; requires_custom_work := false; set_up := false |}.

(** The registration of an accepted connection in [start_downstream_server]:
    its id and a connection it replaces, or [None] when the group channel
    could not be set up. *)
Definition accept_downstream : handler (option (N * option Downstream)) :=
  d ← transact (λ s, (downstream_id_factory s,
        {| downstreams := downstreams s; extranonce_allocator := extranonce_allocator s;
           downstream_id_factory := u64_add (downstream_id_factory s) 1; vardiff := vardiff s;
           last_new_prev_hash := last_new_prev_hash s;
           last_future_template := last_future_template s;
           channel_manager_io := channel_manager_io s; job_declarator := job_declarator s |}));
  g ← bootstrap_group_channel 1;
  match g with
  | None => mret None
  | Some g =>
      update (λ s, let io := channel_manager_io s in
                   put_io {| tp_open := tp_open io; downstream_sender := {[d]} ∪ downstream_sender io;
                             closed := closed io ∖ {[d]}; sent := sent io |} s);;
      old ← transact (λ s, let '(o, m) := SharedMap.insert (downstreams s) d (new_downstream g) in
                           (o, put_downstreams m s));
      mret (Some (d, old))
  end.

(** [remove_downstream]; the connection's task may still hold a clone, which
    keeps the channels alive. *)
Definition remove_downstream (d : N) (s : ChannelManager) : option Downstream * ChannelManager :=
  let '(o, m) := SharedMap.remove (downstreams s) d in
  let io := channel_manager_io s in
  (snd <$> o,
   put_io {| tp_open := tp_open io; downstream_sender := downstream_sender io ∖ {[d]};
             closed := closed io; sent := sent io |}
     (put_vardiff (SharedMap.retain (λ k _, negb (k.1 =? d)%N) (vardiff s))
        (put_downstreams m s))).

(** [coinbase_output_constraints]. *)
Definition coinbase_output_constraints (txout_size : TxOut → N)
    (coinbase_sigop_cost : list TxOut → N) (outputs : list TxOut) : handler unit :=
  let '(size, sigops) :=
    coinbase_output_constraints_message_with_offset txout_size coinbase_sigop_cost outputs in
  r ← transact (λ s, let '(r, io) := forward (TemplateProvider
                           (MsgCoinbaseOutputConstraints size sigops)) (channel_manager_io s) in
                     (r, put_io io s));
  ok_or_raise r (λ _, shutdown ChannelErrorSender).

(** ** The running manager

    [detached] are the removed connections whose task still runs,
    [cancelled] the state of the global cancellation token. *)
Record PoolSystem : Type := {
  cm : ChannelManager;
  detached : list Downstream;
  cancelled : bool;
}.

(** [handle_error_action]. *)
Definition handle_error_action (e : PoolError) (s : PoolSystem) : LoopControl * PoolSystem :=
  if cancelled s then (Continue, s)
  else match action e with
       | Log => (Continue, s)
       | Disconnect d =>
           let '(old, m) := remove_downstream d (cm s) in
           (Continue, {| cm := m; detached := option_list old ++ detached s;
                         cancelled := cancelled s |})
       | Shutdown => (Break, {| cm := cm s; detached := detached s; cancelled := true |})
       end.

(** A handler's turn in the loop of [start]. *)
Definition turn (r : result unit PoolError) (m : ChannelManager) (s : PoolSystem) : PoolSystem :=
  let s' := {| cm := m; detached := detached s; cancelled := cancelled s |} in
  match r with Ok _ => s' | Err e => (handle_error_action e s').2 end.

(** Mining messages, except the two-step [SetCustomMiningJob]. *)
Inductive MiningRequest : Type :=
| ReqCloseChannel (channel_id : N)
| ReqOpenStandard (msg : OpenStandardMiningChannel)
| ReqOpenExtended (msg : OpenExtendedMiningChannel)
| ReqSubmitStandard (msg : SubmitSharesStandard)
| ReqSubmitExtended (msg : SubmitSharesExtended)
| ReqUpdateChannel (msg : UpdateChannel).

Definition handle_mining_message (d : N) (m : MiningRequest) : handler unit :=
  match m with
  | ReqCloseChannel c => handle_close_channel d c
  | ReqOpenStandard msg => handle_open_standard_mining_channel d msg
  | ReqOpenExtended msg => handle_open_extended_mining_channel d msg
  | ReqSubmitStandard msg => handle_submit_shares_standard d msg
  | ReqSubmitExtended msg => handle_submit_shares_extended d msg
  | ReqUpdateChannel msg => handle_update_channel d msg
  end.

Definition downstream_prefixes (ds : Downstream) : list ExtranoncePrefix :=
  (std_prefix <$> values (standard_channels ds)) ++ (ext_prefix <$> values (extended_channels ds)).
End pool.

(** ** The system

    A turn of the manager's loop is one step.  The tasks of the connections,
    the accept loop and the job declarator run beside it ([env_step]); they
    may also run while a custom job is being checked. *)
Section system.
Context `{BitcoinApi} `{VE : JobValidationEngine} `{AA : AddressApi} `{SC : ServerChannels}.
Context (configured_outputs coinbase_reward_script jds_reward_script : list byte)
  (custom_error_string : CustomErrorCode → string)
  (has_work_selection has_requires_std_job : N → bool).

Definition with_cm (m : ChannelManager) (s : PoolSystem) : PoolSystem :=
  {| cm := m; detached := detached s; cancelled := cancelled s |}.

Inductive env_step : PoolSystem → PoolSystem → Prop :=
| env_connect s d old m :
    accept_downstream coinbase_reward_script (cm s) = Done (Ok (Some (d, old)), m) →
    env_step s {| cm := m; detached := option_list old ++ detached s; cancelled := cancelled s |}
| env_connect_failed s m :
    accept_downstream coinbase_reward_script (cm s) = Done (Ok None, m) →
    env_step s {| cm := m; detached := detached s; cancelled := true |}
| env_set_up s d ds msg replies custom std :
    downstreams (cm s) !! d = Some ds → set_up ds = false →
    pool_setup_connection has_work_selection has_requires_std_job true msg
      (requires_custom_work ds, requires_standard_jobs ds) = ((replies, Ok tt), (custom, std)) →
    env_step s (with_cm (put_downstreams (<[d := put_flags custom std ds]> (downstreams (cm s)))
                           (cm s)) s)
| env_extensions s d ds l :
    downstreams (cm s) !! d = Some ds →
    env_step s (with_cm (put_downstreams (<[d := put_extensions l ds]> (downstreams (cm s)))
                           (cm s)) s)
| env_disconnect s d :
    env_step s {| cm := (remove_downstream d (cm s)).2;
                  detached := option_list (remove_downstream d (cm s)).1 ++ detached s;
                  cancelled := cancelled s |}
| env_release s l1 ds l2 :
    detached s = l1 ++ ds :: l2 →
    env_step s {| cm := release_all (downstream_prefixes ds) (cm s); detached := l1 ++ l2;
                  cancelled := cancelled s |}
| env_receivers s tp gone :
    env_step s (with_cm (put_io
      {| tp_open := tp; downstream_sender := downstream_sender (channel_manager_io (cm s));
         closed := gone; sent := sent (channel_manager_io (cm s)) |} (cm s)) s)
| env_job_declarator s j j' :
    job_declarator (cm s) = Some j → jd_step jds_reward_script j j' →
    env_step s (with_cm (put_jd (Some j') (cm s)) s)
| env_cancel s :
    env_step s {| cm := cm s; detached := detached s; cancelled := true |}.

(** Messages of a connection reach the manager once it is set up. *)
Definition may_send (s : PoolSystem) (d : N) : Prop :=
  ∀ ds, downstreams (cm s) !! d = Some ds → set_up ds = true.

Inductive pool_step : PoolSystem → PoolSystem → Prop :=
| step_env s s' : env_step s s' → pool_step s s'
| step_message s d m r cm' :
    cancelled s = false → may_send s d →
    handle_mining_message coinbase_reward_script d m (cm s) = Done (r, cm') →
    pool_step s (turn r cm' s)
| step_template s order channels msg r cm' :
    cancelled s = false →
    handle_new_template configured_outputs coinbase_reward_script order channels msg (cm s) =
      Done (r, cm') →
    pool_step s (turn r cm' s)
| step_prev_hash s order channels ph r cm' :
    cancelled s = false →
    handle_set_new_prev_hash order channels ph (cm s) = Done (r, cm') →
    pool_step s (turn r cm' s)
| step_vardiff s keys r cm' :
    cancelled s = false →
    run_vardiff keys (cm s) = Done (r, cm') →
    pool_step s (turn r cm' s)
| step_custom_refused s d msg r cm' :
    cancelled s = false →
    validate_custom_job custom_error_string d msg (cm s) = Done (r, cm') → r ≠ Ok true →
    pool_step s (turn (match r with Ok _ => Ok tt | Err e => Err e end) cm' s)
| step_custom s d msg cm1 s2 r cm' :
    cancelled s = false →
    validate_custom_job custom_error_string d msg (cm s) = Done (Ok true, cm1) →
    rtc env_step (with_cm cm1 s) s2 →
    commit_custom_job d msg (cm s2) = Done (r, cm') →
    pool_step s (turn r cm' s2).

(** A started pool, before its first connection. *)
Definition pool_init (a : ExtranonceAllocator) (jds : option JdSystem) : PoolSystem :=
  {| cm := {| downstreams := SharedMap.new; extranonce_allocator := a; downstream_id_factory := 1;
              vardiff := SharedMap.new; last_new_prev_hash := None; last_future_template := None;
              channel_manager_io := {| tp_open := true; downstream_sender := ∅; closed := ∅;
                                       sent := [] |};
              job_declarator := jds |};
     detached := []; cancelled := false |}.
End system.
