(* ===== verification/PoolInv.v ===== *)
(** * Pool: invariants

    What holds in every reachable state of the pool's channel manager: the
    extranonce slots in use are exactly the prefixes of its channels, the
    channels of a connection are all paid alike, and the tables agree with each
    other.

    Most handlers only let channels evolve; [manager_sim] says so once and for
    all, and the invariant is stable under it. *)
From S2P Require Import Prelude Handler SharedMap Bitcoin JobValidation ValidationEngine JobDeclarator Payout Setup ShareCache ServerChannels Pool.

(** ** Evolution *)
Section sim.
Context `{BitcoinApi} `{VE : JobValidationEngine} {AA : AddressApi} {SC : ServerChannels}
  {CL : ChannelLaws SC}.

(** The channels evolved, nothing else of the connection changed. *)
Record downstream_sim (ds ds' : Downstream) : Prop := {
  sim_group : grp_keeps (group_channel ds) (group_channel ds');
  sim_std : map_Forall2 (λ _, std_keeps) (standard_channels ds) (standard_channels ds');
  sim_ext : map_Forall2 (λ _, ext_keeps) (extended_channels ds) (extended_channels ds');
  sim_factory : channel_id_factory ds' = channel_id_factory ds;
  sim_payout : payout_mode ds' = payout_mode ds;
  sim_req_std : requires_standard_jobs ds' = requires_standard_jobs ds;
  sim_req_custom : requires_custom_work ds' = requires_custom_work ds;
  sim_set_up : set_up ds' = set_up ds;
}.

Record manager_sim (s s' : ChannelManager) : Prop := {
  sim_downstreams : map_Forall2 (λ _, downstream_sim) (downstreams s) (downstreams s');
  sim_allocator : extranonce_allocator s' = extranonce_allocator s;
  sim_vardiff : ∀ d c, is_Some (downstreams s !! d) → is_Some (vardiff s !! (d, c)) →
    is_Some (vardiff s' !! (d, c));
}.

#[export] Instance downstream_sim_preorder : PreOrder downstream_sim.
Proof.
  split.
  - intros ds. split; try done; by apply map_Forall2_refl, _.
  - intros ds1 ds2 ds3 H12 H23. split; try (by etrans; [eapply H23|apply H12]).
    + etrans; [apply H12|apply H23].
    + eapply map_Forall2_trans; [apply _|apply H12|apply H23].
    + eapply map_Forall2_trans; [apply _|apply H12|apply H23].
Qed.

#[export] Instance manager_sim_preorder : PreOrder manager_sim.
Proof.
  split.
  - intros s. split; [apply map_Forall2_refl, _|done|done].
  - intros s1 s2 s3 H12 H23. split.
    + eapply map_Forall2_trans; [apply _|apply H12|apply H23].
    + etrans; [apply H23|apply H12].
    + intros d c Hd Hv. apply H23; [|by apply H12].
      by apply (map_Forall2_is_Some _ _ _ d (sim_downstreams _ _ H12)).
Qed.

(** Handlers that only let channels evolve. *)
Lemma sim_put_io s io : manager_sim s (put_io io s).
Proof. split; [apply map_Forall2_refl, _|done|done]. Qed.
Lemma sim_put_tip s ph t : manager_sim s (put_tip ph t s).
Proof. split; [apply map_Forall2_refl, _|done|done]. Qed.
Lemma sim_put_jd s jd : manager_sim s (put_jd jd s).
Proof. split; [apply map_Forall2_refl, _|done|done]. Qed.

Lemma sim_put_vardiff s m :
  (∀ k, is_Some (downstreams s !! k.1) → is_Some (vardiff s !! k) → is_Some (m !! k)) →
  manager_sim s (put_vardiff m s).
Proof. intros Hm. split; [apply map_Forall2_refl, _|done|]. intros d c. apply (Hm (d, c)). Qed.

Lemma evolves_registered {A} d (f : guarded A) :
  evolves downstream_sim f → evolves manager_sim (with_registered_downstream d f).
Proof.
  intros Hf. eapply evolves_focus; [apply evolves_raise, _|exact Hf|].
  intros s ds ds' Hd Hsim. split; [|done|done].
  by eapply map_Forall2_insert_one; [apply _|..].
Qed.

Lemma evolves_downstream_round {A} d (absent : handler A) (f : guarded A) :
  evolves manager_sim absent → evolves downstream_sim f →
  evolves manager_sim (focus downstreams put_downstreams d absent f).
Proof.
  intros Ha Hf. eapply evolves_focus; [exact Ha|exact Hf|].
  intros s ds ds' Hd Hsim. split; [|done|done].
  by eapply map_Forall2_insert_one; [apply _|..].
Qed.

Lemma evolves_std {A} c (absent : guarded A) (f : prog StdChannel PoolError A) :
  evolves downstream_sim absent → evolves std_keeps f →
  evolves downstream_sim (focus standard_channels put_std c absent f).
Proof.
  intros Ha Hf. eapply evolves_focus; [exact Ha|exact Hf|].
  intros ds ch ch' Hc Hk. split; try done; [by eapply map_Forall2_insert_one; [apply _|..]|].
  apply map_Forall2_refl, _.
Qed.

Lemma evolves_ext {A} c (absent : guarded A) (f : prog ExtChannel PoolError A) :
  evolves downstream_sim absent → evolves ext_keeps f →
  evolves downstream_sim (focus extended_channels put_ext c absent f).
Proof.
  intros Ha Hf. eapply evolves_focus; [exact Ha|exact Hf|].
  intros ds ch ch' Hc Hk. split; try done; [apply map_Forall2_refl, _|].
  by eapply map_Forall2_insert_one; [apply _|..].
Qed.

Lemma evolves_group {A} (f : GroupChannel → A * GroupChannel) :
  (∀ g, grp_keeps g (f g).2) →
  evolves downstream_sim (transact (E := PoolError)
    (λ ds, let '(r, g) := f (group_channel ds) in (r, put_group g ds))).
Proof.
  intros Hf. apply evolves_transact. intros ds. specialize (Hf (group_channel ds)).
  destruct (f (group_channel ds)) as [r g]; simpl in *.
  split; try done; apply map_Forall2_refl, _.
Qed.

Lemma evolves_forward_all messages : evolves manager_sim (forward_all messages).
Proof.
  apply evolves_for_each; [apply _|]. intros m. apply evolves_update. intros s. apply sim_put_io.
Qed.

Lemma evolves_forward_or_disconnect d m : evolves manager_sim (forward_or_disconnect d m).
Proof.
  apply evolves_bind; [apply _| |intros; apply evolves_ok_or_raise, _].
  apply evolves_transact. intros s. destruct (forward m (channel_manager_io s)). apply sim_put_io.
Qed.

End sim.

(** One rule for [evolves]. *)
Ltac evolve :=
  lazymatch goal with
  | |- evolves _ (_ ≫= _) => apply evolves_bind; [apply _| |intros ?]
  | |- evolves _ (mret _) => apply evolves_ret, _
  | |- evolves _ (ask _) => apply evolves_ask, _
  | |- evolves _ (raise _) => apply evolves_raise, _
  | |- evolves _ (some_or _ _) => apply evolves_some_or, _
  | |- evolves _ (some_or_crash _) => apply evolves_some_or_crash, _
  | |- evolves _ (ok_or_raise _ _) => apply evolves_ok_or_raise, _
  | |- evolves _ (collect _ _) => apply evolves_collect; [apply _|intros ?]
  | |- evolves _ (forward_all _) => apply evolves_forward_all
  | |- evolves _ (forward_or_disconnect _ _) => apply evolves_forward_or_disconnect
  | |- evolves _ (with_registered_downstream _ _) => apply evolves_registered
  | |- evolves _ (registered _) => apply evolves_registered
  | |- evolves _ (focus downstreams _ _ _ _) => apply evolves_downstream_round
  | |- evolves _ (focus standard_channels _ _ _ _) => apply evolves_std
  | |- evolves _ (focus extended_channels _ _ _ _) => apply evolves_ext
  | |- evolves _ (if ?b then _ else _) => destruct b
  | |- evolves _ (let '(_, _) := ?x in _) => destruct x
  | |- evolves _ (match ?x with _ => _ end) => destruct x
  | |- evolves _ (let _ := _ in _) => cbv zeta
  end.

Section evolving.
Context `{BitcoinApi} `{VE : JobValidationEngine} {AA : AddressApi} {SC : ServerChannels}
  {CL : ChannelLaws SC}.

#[local] Ltac channel_op := solve [apply evolves_transact; intros ?; simpl; auto with sv2].

Lemma evolves_judge_standard d msg : evolves downstream_sim (judge_standard d msg).
Proof. unfold judge_standard. repeat evolve. channel_op. Qed.
Lemma evolves_judge_extended d msg : evolves downstream_sim (judge_extended d msg).
Proof. unfold judge_extended. repeat evolve. channel_op. Qed.

Lemma evolves_submit_share d c seq present judge :
  evolves downstream_sim judge → evolves manager_sim (submit_share d c seq present judge).
Proof.
  intros Hj. unfold submit_share. repeat evolve; [done|].
  apply evolves_update. intros s0. apply sim_put_vardiff. intros [d' c'] _ Hv.
  unfold SharedMap.with_mut. destruct (vardiff s0 !! (d, c)) as [v|] eqn:Ev; [|done]. simpl.
  destruct (decide ((d', c') = (d, c))) as [->|]; [by rewrite lookup_insert_eq|].
  by rewrite lookup_insert_ne.
Qed.

Lemma evolves_update_channel d msg : evolves manager_sim (handle_update_channel d msg).
Proof.
  unfold handle_update_channel, update_standard, update_extended. repeat evolve; channel_op.
Qed.

Lemma evolves_validate_custom f d msg : evolves manager_sim (validate_custom_job f d msg).
Proof.
  unfold validate_custom_job. repeat evolve. intros st. unfold wp, ask_job_declarator.
  destruct (job_declarator st) as [jds|]; [|done].
  destruct (JobDeclarator.handle_set_custom_mining_job _ _ _) as [[[r|er] jd']|]; [..|done];
    apply sim_put_jd.
Qed.

Lemma evolves_commit_custom d msg : evolves manager_sim (commit_custom_job d msg).
Proof. unfold commit_custom_job. repeat evolve. channel_op. Qed.

Lemma evolves_new_template conf script order channels msg :
  evolves manager_sim (handle_new_template conf script order channels msg).
Proof.
  unfold handle_new_template, template_round, group_job, standard_job, extended_job.
  repeat evolve; first [apply evolves_update; intros; apply sim_put_tip|channel_op|idtac].
  apply (evolves_group (λ g, grp_on_new_template g msg _)). intros g. apply grp_template_keeps.
Qed.

Lemma evolves_prev_hash order channels ph :
  evolves manager_sim (handle_set_new_prev_hash order channels ph).
Proof.
  unfold handle_set_new_prev_hash, prev_hash_round, prev_hash_extended, prev_hash_standard.
  repeat evolve; first [apply evolves_update; intros; apply sim_put_tip|channel_op|idtac].
  apply (evolves_group (λ g, grp_on_set_new_prev_hash g ph)). intros g. apply grp_prev_hash_keeps.
Qed.

Lemma evolves_vardiff_standard d c v : evolves std_keeps (run_vardiff_on_standard_channel d c v).
Proof.
  apply evolves_transact. intros ch. destruct (try_vardiff v _ _) as [[[h|]|] v']; simpl; try done.
  - pose proof (std_update_keeps (std_set_stable_hashrate ch false) h None) as Hu.
    destruct (std_update_channel _ _ _) as [[[]|] ch']; simpl in *; (etrans; [|exact Hu]);
      eauto with sv2.
  - eauto with sv2.
Qed.

Lemma evolves_vardiff_extended d c v : evolves ext_keeps (run_vardiff_on_extended_channel d c v).
Proof.
  apply evolves_transact. intros ch. destruct (try_vardiff v _ _) as [[[h|]|] v']; simpl; try done.
  - pose proof (ext_update_keeps (ext_set_stable_hashrate ch false) h None) as Hu.
    destruct (ext_update_channel _ _ _) as [[[]|] ch']; simpl in *; (etrans; [|exact Hu]);
      eauto with sv2.
  - eauto with sv2.
Qed.

Lemma evolves_run_vardiff keys : evolves manager_sim (run_vardiff keys).
Proof.
  unfold run_vardiff. evolve; [|repeat evolve]. evolve. rename x into key.
  intros s. unfold vardiff_round. destruct key as [d c].
  wp_rule. wp_rule. wp_rule. wp_rule. wp_rule. wp_rule.
  destruct (downstreams s !! d) as [ds|] eqn:Ed; [destruct (vardiff s !! (d, c)) as [v|]|].
  - match goal with |- wp ?p _ _ => enough (evolves manager_sim p) as Hp by apply Hp end.
    repeat evolve; [apply evolves_vardiff_standard|apply evolves_vardiff_extended|].
    apply evolves_update. intros s'. apply sim_put_vardiff. intros k _ Hk.
    destruct (decide (k = (d, c))) as [->|]; [by rewrite lookup_insert_eq|].
    by rewrite lookup_insert_ne.
  - by wp_rule.
  - wp_rule. wp_rule. simpl. wp_rule. apply sim_put_vardiff. intros k Hd Hk.
    simpl. rewrite lookup_delete_ne; [done|]. intros <-. simpl in Hd. rewrite Ed in Hd. by destruct Hd.
Qed.
End evolving.

(** ** Extranonce slots *)
Section slots.
Context `{BitcoinApi} `{VE : JobValidationEngine} {AA : AddressApi} {SC : ServerChannels}
  {CL : ChannelLaws SC}.

(** The allocator counts exactly the prefixes of [l] as used, each once. *)
Definition slots_exact (a : ExtranonceAllocator) (l : list ExtranoncePrefix) : Prop :=
  NoDup l ∧ ∀ p, live a p ↔ p ∈ l.

Lemma slots_perm a l l' : l ≡ₚ l' → slots_exact a l → slots_exact a l'.
Proof. intros Hl [Hnd Hlive]. split; [by rewrite <-Hl|]. intros p. by rewrite <-Hl. Qed.

Lemma slots_allocate a a' p l :
  ¬ live a p → (∀ q, live a' q ↔ q = p ∨ live a q) → slots_exact a l → slots_exact a' (p :: l).
Proof.
  intros Hp Ha' [Hnd Hlive]. split.
  - constructor; [by rewrite <-Hlive|done].
  - intros q. rewrite Ha', Hlive, elem_of_cons. done.
Qed.

Lemma slots_same a a' l : (∀ q, live a' q ↔ live a q) → slots_exact a l → slots_exact a' l.
Proof. intros Ha' [Hnd Hlive]. split; [done|]. intros q. by rewrite Ha'. Qed.

Lemma slots_release a p l : slots_exact a (p :: l) → slots_exact (release_prefix a p) l.
Proof.
  intros [[Hp Hnd]%NoDup_cons Hlive]. split; [done|]. intros q.
  rewrite release_spec, Hlive, elem_of_cons. naive_solver.
Qed.

Lemma slots_release_all a ps l :
  slots_exact a (ps ++ l) → slots_exact (foldl release_prefix a ps) l.
Proof.
  revert a. induction ps as [|p ps IH]; intros a Hs; simpl; [done|].
  apply IH. by apply slots_release.
Qed.

Definition held (m : gmap N Downstream) : list ExtranoncePrefix :=
  concat (downstream_prefixes <$> values m).

Lemma concat_perm {A} (l l' : list (list A)) : l ≡ₚ l' → concat l ≡ₚ concat l'.
Proof.
  induction 1; simpl; [done|by f_equiv| |by etrans].
  rewrite !app_assoc. f_equiv. apply Permutation_app_comm.
Qed.

Lemma held_insert m d ds : held (<[d := ds]> m) ≡ₚ downstream_prefixes ds ++ held (delete d m).
Proof. unfold held. by rewrite (concat_perm _ _ (fmap_Permutation _ _ _ (values_insert m d ds))). Qed.

Lemma held_lookup m d ds :
  m !! d = Some ds → held m ≡ₚ downstream_prefixes ds ++ held (delete d m).
Proof. intros Hd. rewrite <-(insert_id m d ds Hd) at 1. apply held_insert. Qed.

Lemma held_update m d ds ds' ps :
  m !! d = Some ds → downstream_prefixes ds' ≡ₚ ps ++ downstream_prefixes ds →
  held (<[d := ds']> m) ≡ₚ ps ++ held m.
Proof. intros Hd Hp. by rewrite held_insert, (held_lookup m d ds), Hp, app_assoc by done. Qed.

Lemma prefixes_std ds c ch :
  standard_channels ds !! c = Some ch →
  downstream_prefixes ds ≡ₚ
    std_prefix ch :: downstream_prefixes (put_std (delete c (standard_channels ds)) ds).
Proof. intros Hc. unfold downstream_prefixes. simpl. by rewrite (values_lookup _ _ _ Hc). Qed.

Lemma prefixes_std_insert ds c ch :
  downstream_prefixes (put_std (<[c := ch]> (standard_channels ds)) ds) ≡ₚ
    std_prefix ch :: downstream_prefixes (put_std (delete c (standard_channels ds)) ds).
Proof. unfold downstream_prefixes. simpl. by rewrite values_insert. Qed.

Lemma prefixes_ext ds c ch :
  extended_channels ds !! c = Some ch →
  downstream_prefixes ds ≡ₚ
    ext_prefix ch :: downstream_prefixes (put_ext (delete c (extended_channels ds)) ds).
Proof.
  intros Hc. unfold downstream_prefixes. simpl. rewrite (values_lookup _ _ _ Hc). simpl.
  by rewrite Permutation_middle.
Qed.

Lemma prefixes_ext_insert ds c ch :
  downstream_prefixes (put_ext (<[c := ch]> (extended_channels ds)) ds) ≡ₚ
    ext_prefix ch :: downstream_prefixes (put_ext (delete c (extended_channels ds)) ds).
Proof. unfold downstream_prefixes. simpl. rewrite values_insert. simpl. by rewrite Permutation_middle. Qed.

Lemma prefixes_sim ds ds' :
  downstream_sim ds ds' → downstream_prefixes ds' ≡ₚ downstream_prefixes ds.
Proof.
  intros Hs. unfold downstream_prefixes. rewrite !values_fmap. f_equiv.
  - f_equiv. f_equiv. apply reflexive_eq, map_eq. intros c. rewrite !lookup_fmap.
    destruct (sim_std _ _ Hs c) as [x y [E _]|]; simpl; congruence.
  - f_equiv. f_equiv. apply reflexive_eq, map_eq. intros c. rewrite !lookup_fmap.
    destruct (sim_ext _ _ Hs c) as [x y [E _]|]; simpl; congruence.
Qed.

Lemma held_sim m m' : map_Forall2 (λ _, downstream_sim) m m' → held m' ≡ₚ held m.
Proof.
  revert m'. induction m as [|d ds m Hd IH] using map_ind; intros m' Hm.
  { apply map_Forall2_empty_inv_l in Hm as ->. done. }
  apply map_Forall2_insert_inv_l in Hm as (ds' & m'' & -> & Hd' & Hsim & Hm); [|done].
  rewrite !held_insert, !delete_id by done. rewrite (IH _ Hm). f_equiv. by apply prefixes_sim.
Qed.
End slots.

(** ** The invariant *)
Section invariant.
Context `{BitcoinApi} `{VE : JobValidationEngine} {AA : AddressApi} {SC : ServerChannels}
  {CL : ChannelLaws SC}.
Context (coinbase_reward_script : list byte).

(** The channel's identity asks for the payout its connection's blocks make. *)
Definition paid (ds : Downstream) (user_identity : string) : Prop :=
  ∃ mode own, payout_mode ds = Some mode ∧ identity_payout user_identity = Some own ∧
    ∀ total, coinbase_outputs own total coinbase_reward_script =
             coinbase_outputs mode total coinbase_reward_script.

(** Who gets the jobs of the group: the channels that take no jobs of their own. *)
Definition grouped (ds : Downstream) (c : N) : Prop :=
  (is_Some (standard_channels ds !! c) ∧ requires_standard_jobs ds = false) ∨
  (is_Some (extended_channels ds !! c) ∧ requires_custom_work ds = false).

(** No 2^32 channels were opened on the connection yet. *)
Definition ids_left (ds : Downstream) : Prop := channel_id_factory ds ≤ u32_modulus.

(** Of a connection; [tracked] as long as the pool is not shutting down. *)
Record downstream_ok (tracked : bool) (ds : Downstream) : Prop := {
  ok_std_paid c ch : standard_channels ds !! c = Some ch → paid ds (std_user_identity ch);
  ok_ext_paid c ch : extended_channels ds !! c = Some ch → paid ds (ext_user_identity ch);
  ok_mode mode : payout_mode ds = Some mode → mode_wf mode ∧
    ∃ c, is_Some (standard_channels ds !! c) ∨ is_Some (extended_channels ds !! c);
  ok_custom : requires_custom_work ds = true → standard_channels ds = ∅;
  ok_std_jobs : requires_standard_jobs ds = true → extended_channels ds = ∅;
  ok_fresh : set_up ds = false → standard_channels ds = ∅ ∧ extended_channels ds = ∅;
  ok_ids c : ids_left ds →
    is_Some (standard_channels ds !! c) ∨ is_Some (extended_channels ds !! c) →
    1 < c < channel_id_factory ds;
  ok_disjoint c : ids_left ds →
    standard_channels ds !! c = None ∨ extended_channels ds !! c = None;
  ok_factory : 2 ≤ channel_id_factory ds;
  ok_group_id : grp_id (group_channel ds) = 1;
  ok_group c : tracked = true → ids_left ds →
    grp_has_channel_id (group_channel ds) c = true ↔ grouped ds c;
}.

(** Of the manager; [extra] are the prefixes held elsewhere. *)
Record manager_ok (tracked : bool) (extra : list ExtranoncePrefix) (s : ChannelManager) : Prop := {
  ok_slots : slots_exact (extranonce_allocator s) (extra ++ held (downstreams s));
  ok_downstreams d ds : downstreams s !! d = Some ds → downstream_ok tracked ds;
  ok_vardiff d ds c : tracked = true → downstreams s !! d = Some ds →
    is_Some (standard_channels ds !! c) ∨ is_Some (extended_channels ds !! c) →
    is_Some (vardiff s !! (d, c));
}.

Definition detached_prefixes (s : PoolSystem) : list ExtranoncePrefix :=
  concat (downstream_prefixes <$> detached s).

Definition pool_ok (s : PoolSystem) : Prop :=
  manager_ok (negb (cancelled s)) (detached_prefixes s) (cm s).

Lemma downstream_ok_weaken t t' ds :
  (t' = true → t = true) → downstream_ok t ds → downstream_ok t' ds.
Proof. intros Ht [????? ? ? ? ? ? Hg]. split; try done. intros c Ht'. by apply Hg, Ht. Qed.

Lemma manager_ok_weaken t t' extra s :
  (t' = true → t = true) → manager_ok t extra s → manager_ok t' extra s.
Proof.
  intros Ht [Hs Hd Hv]. split; [done| |].
  - intros d ds Hds. by eapply downstream_ok_weaken, Hd.
  - intros d ds c Ht'. by apply Hv, Ht.
Qed.

Lemma paid_same ds ds' user : payout_mode ds' = payout_mode ds → paid ds user → paid ds' user.
Proof. unfold paid. by intros ->. Qed.

Lemma sim_channels ds ds' c :
  downstream_sim ds ds' →
  (is_Some (standard_channels ds' !! c) ↔ is_Some (standard_channels ds !! c)) ∧
  (is_Some (extended_channels ds' !! c) ↔ is_Some (extended_channels ds !! c)).
Proof.
  intros Hs. split; symmetry; [apply map_Forall2_is_Some with (1 := sim_std _ _ Hs)|].
  apply map_Forall2_is_Some with (1 := sim_ext _ _ Hs).
Qed.

Lemma sim_std_empty ds ds' :
  downstream_sim ds ds' → standard_channels ds = ∅ → standard_channels ds' = ∅.
Proof.
  intros Hs E. eapply (map_Forall2_empty_inv_l (λ _ : N, std_keeps)). rewrite <-E. apply Hs.
Qed.
Lemma sim_ext_empty ds ds' :
  downstream_sim ds ds' → extended_channels ds = ∅ → extended_channels ds' = ∅.
Proof.
  intros Hs E. eapply (map_Forall2_empty_inv_l (λ _ : N, ext_keeps)). rewrite <-E. apply Hs.
Qed.

Lemma downstream_ok_sim t ds ds' :
  downstream_sim ds ds' → downstream_ok t ds → downstream_ok t ds'.
Proof.
  intros Hs Hok. pose proof (λ c, sim_channels _ _ c Hs) as Hc.
  pose proof Hs as [[Hgid Hg] Hstd Hext Ef Ep Es Ecu Eu].
  unfold ids_left in *. split; unfold ids_left, grouped; rewrite ?Ef, ?Ep, ?Es, ?Ecu, ?Eu, ?Hgid.
  - intros c ch Hch. pose proof (Hstd c) as Hr. rewrite Hch in Hr. inversion Hr as [x y [_ Eu'] Ex|].
    subst. rewrite Eu'. eapply paid_same; [done|]. by eapply ok_std_paid.
  - intros c ch Hch. pose proof (Hext c) as Hr. rewrite Hch in Hr. inversion Hr as [x y [_ Eu'] Ex|].
    subst. rewrite Eu'. eapply paid_same; [done|]. by eapply ok_ext_paid.
  - intros mode Hm. apply (ok_mode _ _ Hok) in Hm as [Hwf [c Hex]]. split; [done|].
    exists c. destruct (Hc c). naive_solver.
  - intros E. by eapply sim_std_empty, ok_custom.
  - intros E. by eapply sim_ext_empty, ok_std_jobs.
  - intros E. apply (ok_fresh _ _ Hok) in E as [? ?].
    split; [by eapply sim_std_empty|by eapply sim_ext_empty].
  - intros c Hle. destruct (Hc c) as [-> ->]. by apply (ok_ids _ _ Hok).
  - intros c Hle. rewrite !eq_None_not_Some. destruct (Hc c) as [-> ->].
    rewrite <-!eq_None_not_Some. by apply (ok_disjoint _ _ Hok).
  - apply (ok_factory _ _ Hok).
  - apply (ok_group_id _ _ Hok).
  - intros c Ht Hle. rewrite Hg. destruct (Hc c) as [-> ->]. by apply (ok_group _ _ Hok).
Qed.

Lemma manager_ok_sim t extra s s' :
  manager_sim s s' → manager_ok t extra s → manager_ok t extra s'.
Proof.
  intros [Hds Ha Hv] [Hslots Hok Hvd]. split.
  - rewrite Ha. eapply slots_perm; [|exact Hslots]. f_equiv. symmetry. by apply held_sim.
  - intros d ds' Hd'. pose proof (Hds d) as Hr. rewrite Hd' in Hr.
    inversion Hr as [ds ds'' Hsim Ed|]. subst. eapply downstream_ok_sim; [done|]. by eapply Hok.
  - intros d ds' c Ht Hd' Hc. pose proof (Hds d) as Hr. rewrite Hd' in Hr.
    inversion Hr as [ds ds'' Hsim Ed|]. subst. apply Hv; [by eexists|].
    eapply Hvd; [done|done|]. destruct (sim_channels _ _ c Hsim) as [<- <-]. done.
Qed.

(** What a handler has to establish: its invariant, unless it shuts down. *)
Definition is_shutdown {A} (r : result A PoolError) : bool :=
  match r with Err e => match action e with Shutdown => true | _ => false end | Ok _ => false end.

Definition kept {A} (extra : list ExtranoncePrefix) (r : result A PoolError) (s : ChannelManager)
    : Prop := manager_ok (negb (is_shutdown r)) extra s.

Lemma kept_intro {A} extra (r : result A PoolError) s : manager_ok true extra s → kept extra r s.
Proof. by apply manager_ok_weaken. Qed.

Lemma kept_evolves {A} extra (p : Pool.handler A) s :
  evolves manager_sim p → manager_ok true extra s → wp p (kept extra) s.
Proof.
  intros Hp Hok. eapply wp_mono; [|apply Hp]. intros r s' Hsim.
  apply kept_intro. exact (manager_ok_sim _ _ _ _ Hsim Hok).
Qed.
End invariant.
