(* ===== verification/PoolChannels.v ===== *)
(** * Pool: opening and closing channels

    The handlers that change which channels exist keep the invariant of
    [PoolInv]: a new channel gets a fresh slot and id, pays like the others of
    its connection and joins the tables; a failed attempt gives its slot back. *)
From S2P Require Import Prelude Handler SharedMap Bitcoin JobValidation ValidationEngine JobDeclarator Payout Setup ShareCache ServerChannels Pool PoolInv.

Section channels.
Context `{BitcoinApi} `{VE : JobValidationEngine} {AA : AddressApi} {SC : ServerChannels}
  {CL : ChannelLaws SC}.
Context (script : list byte).
Notation ok := (manager_ok script).
Notation kept := (kept script).

(** ** Steps on the manager *)
Lemma put_downstreams_id s : put_downstreams (downstreams s) s = s.
Proof. by destruct s. Qed.

Lemma wp_registered {A} d ds (f : guarded A) Q s :
  downstreams s !! d = Some ds →
  wp f (λ r ds', Q r (put_downstreams (<[d := ds']> (downstreams s)) s)) ds →
  wp (with_registered_downstream d f) Q s.
Proof.
  intros Hd Hf. apply wp_focus; [by rewrite Hd|]. intros ds' Hd'. by simplify_eq.
Qed.

Lemma wp_read d (Q : result Downstream PoolError → ChannelManager → Prop) s :
  (∀ ds, downstreams s !! d = Some ds → Q (Ok ds) s) →
  (downstreams s !! d = None → Q (Err (disconnect (DownstreamNotFound d) d)) s) →
  wp (registered d) Q s.
Proof.
  intros Hs Hn. apply wp_focus; [intros Hd; by apply Hn|]. intros ds Hd. apply wp_ask.
  rewrite insert_id, put_downstreams_id by done. by apply Hs.
Qed.

Lemma manager_ok_update t t' extra extra' s s' d ds ds' :
  (t' = true → t = true) →
  ok t extra s → downstreams s !! d = Some ds →
  downstreams s' = <[d := ds']> (downstreams s) →
  (∀ l, slots_exact (extranonce_allocator s) (extra ++ downstream_prefixes ds ++ l) →
        slots_exact (extranonce_allocator s') (extra' ++ downstream_prefixes ds' ++ l)) →
  downstream_ok script t' ds' →
  (t' = true → ∀ d' c, d' ≠ d → is_Some (vardiff s !! (d', c)) → is_Some (vardiff s' !! (d', c))) →
  (t' = true → ∀ c, is_Some (standard_channels ds' !! c) ∨ is_Some (extended_channels ds' !! c) →
     is_Some (vardiff s' !! (d, c))) →
  ok t' extra' s'.
Proof.
  intros Ht [Hslots Hds Hvd] Hd Hd' Hsl Hok Hv Hv'. split.
  - rewrite Hd'. eapply slots_perm; [by rewrite held_insert|]. apply Hsl.
    eapply slots_perm; [|exact Hslots]. by rewrite held_lookup.
  - intros d0 ds0. rewrite Hd'. destruct (decide (d0 = d)) as [->|].
    + rewrite lookup_insert_eq. by intros [= <-].
    + rewrite lookup_insert_ne by done. intros H0. by eapply downstream_ok_weaken, Hds.
  - intros d0 ds0 c Ht'. rewrite Hd'. destruct (decide (d0 = d)) as [->|].
    + rewrite lookup_insert_eq. intros [= <-]. by apply Hv'.
    + rewrite lookup_insert_ne by done. intros H0 Hc. apply Hv; [done..|].
      eapply Hvd; [by apply Ht|done|done].
Qed.

Lemma manager_ok_allocate t extra s p a :
  ¬ live (extranonce_allocator s) p →
  (∀ q, live a q ↔ q = p ∨ live (extranonce_allocator s) q) →
  ok t extra s → ok t (p :: extra) (put_allocator a s).
Proof. intros Hp Ha [Hs Hd Hv]. split; [|done|done]. by eapply slots_allocate. Qed.

Lemma manager_ok_allocator_same t extra s a :
  (∀ q, live a q ↔ live (extranonce_allocator s) q) →
  ok t extra s → ok t extra (put_allocator a s).
Proof. intros Ha [Hs Hd Hv]. split; [|done|done]. by eapply slots_same. Qed.

Lemma manager_ok_release t extra ps s : ok t (ps ++ extra) s → ok t extra (release_all ps s).
Proof.
  intros [Hs Hd Hv]. split; [|done|done]. apply slots_release_all. by rewrite <-app_assoc in Hs.
Qed.

(** ** Closing *)
Lemma is_Some_delete {V} (m : gmap N V) c x :
  is_Some (delete c m !! x) ↔ x ≠ c ∧ is_Some (m !! x).
Proof. rewrite lookup_delete_is_Some. naive_solver. Qed.

Lemma empty_of_none {V} (m : gmap N V) : (∀ x, ¬ is_Some (m !! x)) → m = ∅.
Proof. intros Hm. apply map_eq. intros x. rewrite lookup_empty. by apply eq_None_not_Some. Qed.

(** The connection after a close, with the group left in [g]. *)
Definition close_result (g : GroupChannel) (c : N) (ds : Downstream) : Downstream :=
  let ds' := put_ext (delete c (extended_channels ds))
               (put_std (delete c (standard_channels ds)) (put_group g ds)) in
  if SharedMap.is_empty (standard_channels ds') && SharedMap.is_empty (extended_channels ds')
  then put_payout None ds' else ds'.

Lemma downstream_ok_close ds g c :
  downstream_ok script true ds → grp_id g = 1 →
  (∀ x, grp_has_channel_id g x =
          negb (bool_decide (x = c)) && grp_has_channel_id (group_channel ds) x) →
  downstream_ok script true (close_result g c ds).
Proof.
  intros Hok Hid Hg.
  assert (∀ p', (∀ mode, p' = Some mode → p' = payout_mode ds ∧
                   ∃ x, x ≠ c ∧ (is_Some (standard_channels ds !! x) ∨
                                 is_Some (extended_channels ds !! x))) →
     ((∃ x, x ≠ c ∧ (is_Some (standard_channels ds !! x) ∨
                      is_Some (extended_channels ds !! x))) → p' = payout_mode ds) →
     downstream_ok script true
       (put_payout p' (put_ext (delete c (extended_channels ds))
          (put_std (delete c (standard_channels ds)) (put_group g ds))))) as Hall.
  { intros p' Hp' Hsame. split; unfold ids_left, grouped; simpl.
    - intros x ch [Hx Hch]%lookup_delete_Some. eapply paid_same, ok_std_paid; [|done..].
      simpl. apply Hsame. exists x. split; [done|]. left. by eexists.
    - intros x ch [Hx Hch]%lookup_delete_Some. eapply paid_same, ok_ext_paid; [|done..].
      simpl. apply Hsame. exists x. split; [done|]. right. by eexists.
    - intros mode Hm. destruct (Hp' _ Hm) as [Hp (x & Hx & Hex)].
      rewrite Hp in Hm. apply (ok_mode _ _ _ Hok) in Hm as [Hwf _]. split; [done|].
      exists x. rewrite !is_Some_delete. naive_solver.
    - intros E. apply (ok_custom _ _ _ Hok) in E as ->. by rewrite delete_empty.
    - intros E. apply (ok_std_jobs _ _ _ Hok) in E as ->. by rewrite delete_empty.
    - intros E. apply (ok_fresh _ _ _ Hok) in E as [-> ->]. by rewrite !delete_empty.
    - intros x Hle. rewrite !is_Some_delete. intros Hx. apply (ok_ids _ _ _ Hok); naive_solver.
    - intros x Hle. destruct (ok_disjoint _ _ _ Hok x Hle) as [E|E]; [left|right];
        rewrite lookup_delete_None; by right.
    - apply (ok_factory _ _ _ Hok).
    - done.
    - intros x _ Hle. rewrite Hg, andb_true_iff, negb_true_iff, bool_decide_eq_false.
      rewrite (ok_group _ _ _ Hok) by done. unfold grouped. rewrite !is_Some_delete. naive_solver. }
  unfold close_result. simpl. destruct (_ && _) eqn:Eb.
  - apply Hall; [done|]. intros (x & Hx & Hex).
    apply andb_true_iff in Eb as [E1%bool_decide_eq_true E2%bool_decide_eq_true].
    assert (is_Some (delete c (standard_channels ds) !! x) ∨
            is_Some (delete c (extended_channels ds) !! x)) as Hin
      by (rewrite !is_Some_delete; naive_solver).
    rewrite E1, E2, lookup_empty in Hin. by destruct Hin as [[]|[]].
  - replace (put_ext _ _) with (put_payout (payout_mode ds)
      (put_ext (delete c (extended_channels ds))
         (put_std (delete c (standard_channels ds)) (put_group g ds)))) by done.
    apply Hall; [|done]. intros mode Hm. split; [done|].
    apply andb_false_iff in Eb as [E|E]; apply bool_decide_eq_false, map_choose in E as (x & ch & Hx);
      exists x; apply lookup_delete_Some in Hx as [? ?]; (split; [done|]); [left|right]; by eexists.
Qed.

Lemma close_spec d c s ds :
  downstreams s !! d = Some ds →
  ∃ g, handle_close_channel d c s = Done (Ok tt,
    put_vardiff (delete (d, c) (vardiff s))
      (release_all (option_list (std_prefix <$> standard_channels ds !! c) ++
                    option_list (ext_prefix <$> extended_channels ds !! c))
         (put_downstreams (<[d := close_result g c ds]> (downstreams s)) s))) ∧
  g = (if grp_has_channel_id (group_channel ds) c
       then grp_remove_channel_id (group_channel ds) c else group_channel ds).
Proof.
  intros Hd. eexists. split; [|reflexivity].
  unfold handle_close_channel, with_registered_downstream, mbind, prog_bind, focus. rewrite Hd.
  unfold close_in_downstream, mbind, prog_bind, update, transact, mret, prog_ret, close_result.
  cbv beta iota zeta. destruct (grp_has_channel_id (group_channel ds) c); simpl;
    destruct (standard_channels ds !! c), (extended_channels ds !! c); simpl;
    destruct (_ && _); destruct ds; done.
Qed.

Lemma close_prefixes ds g c :
  downstream_prefixes ds ≡ₚ
    (option_list (std_prefix <$> standard_channels ds !! c) ++
     option_list (ext_prefix <$> extended_channels ds !! c)) ++
    downstream_prefixes (close_result g c ds).
Proof.
  trans ((option_list (std_prefix <$> standard_channels ds !! c) ++
          option_list (ext_prefix <$> extended_channels ds !! c)) ++
         downstream_prefixes (put_ext (delete c (extended_channels ds))
            (put_std (delete c (standard_channels ds)) ds))).
  2: { unfold close_result. by destruct (_ && _). }
  destruct (standard_channels ds !! c) as [ch|] eqn:Es.
  - rewrite (prefixes_std _ _ _ Es). simpl. f_equiv.
    destruct (extended_channels ds !! c) as [ch'|] eqn:Ee; simpl.
    + by rewrite (prefixes_ext (put_std (delete c (standard_channels ds)) ds) c ch').
    + rewrite (delete_id _ _ Ee). by destruct ds.
  - rewrite (delete_id _ _ Es). simpl.
    destruct (extended_channels ds !! c) as [ch'|] eqn:Ee; simpl.
    + rewrite (prefixes_ext ds c ch') by done. by destruct ds.
    + rewrite (delete_id _ _ Ee). by destruct ds.
Qed.

Lemma close_wp d c extra s :
  ok true extra s → wp (handle_close_channel d c) (kept extra) s.
Proof.
  intros Hok. destruct (downstreams s !! d) as [ds|] eqn:Hd.
  2: { unfold handle_close_channel. wp_rule. apply wp_focus; [|by rewrite Hd].
       intros _. by apply kept_intro. }
  destruct (close_spec d c s ds Hd) as (g & E & Hg). unfold wp. rewrite E. apply kept_intro.
  pose proof (ok_downstreams _ _ _ _ Hok _ _ Hd) as Hds.
  eapply manager_ok_update with (d := d) (ds := ds); [|exact Hok|exact Hd|reflexivity|..]; [done|..].
  - intros l Hl. simpl. apply slots_release_all. eapply slots_perm; [|exact Hl].
    rewrite (close_prefixes ds g c). solve_Permutation.
  - apply downstream_ok_close; [done|..].
    + subst g. destruct (grp_has_channel_id _ _); [rewrite (proj1 (grp_remove_spec _ _))|];
        apply (ok_group_id _ _ _ Hds).
    + intros x. subst g. destruct (grp_has_channel_id _ c) eqn:Eh; [apply grp_remove_spec|].
      case_bool_decide as Ex; [by rewrite Ex|done].
  - intros _ d' c' Hne Hv. simpl. rewrite lookup_delete_ne; [done|congruence].
  - intros _ x Hx. simpl.
    assert (x ≠ c ∧ (is_Some (standard_channels ds !! x) ∨ is_Some (extended_channels ds !! x)))
      as [Hxc Hin].
    { unfold close_result in Hx.
      destruct (_ && _); simpl in Hx; rewrite !is_Some_delete in Hx; naive_solver. }
    rewrite lookup_delete_ne by congruence. by eapply ok_vardiff.
Qed.

(** ** Opening *)
Lemma identity_payout_wf id mode : identity_payout id = Some mode → mode_wf mode.
Proof.
  unfold identity_payout. destruct (Payout.try_from id) as [m|e] eqn:Em.
  - intros [= <-]. by eapply try_from_wf.
  - destruct e; try done. by intros [= <-].
Qed.

Definition unused (ds : Downstream) (c : N) : Prop :=
  ids_left ds → standard_channels ds !! c = None ∧ extended_channels ds !! c = None ∧
                1 < c < channel_id_factory ds.

Lemma is_Some_insert_iff {V} (m : gmap N V) c v x :
  is_Some (<[c := v]> m !! x) ↔ x = c ∨ is_Some (m !! x).
Proof. rewrite lookup_insert_is_Some. destruct (decide (x = c)); naive_solver. Qed.

(** A compatible mode pays every channel of the connection the same. *)
Lemma paid_compatible t ds user mode m ds' :
  downstream_ok script t ds → mode_wf m →
  payout_is_compatible (payout_mode ds) m script = true →
  payout_mode ds' = Some m → paid script ds user → mode = m → paid script ds' user.
Proof.
  intros Hok Hwf Hcomp Hm (m0 & own & E0 & Eown & Hpay) ->. exists m, own.
  split_and!; [done..|]. intros total. rewrite Hpay. rewrite E0 in Hcomp.
  apply (ok_mode _ _ _ Hok) in E0 as [Hwf0 _].
  by apply (proj1 (same_outputs_iff m0 m script Hwf0 Hwf)).
Qed.

Lemma downstream_ok_insert_std t ds c ch mode g :
  downstream_ok script true ds → unused ds c → set_up ds = true →
  requires_custom_work ds = false →
  identity_payout (std_user_identity ch) = Some mode →
  payout_is_compatible (payout_mode ds) mode script = true →
  grp_id g = 1 →
  (t = true → ∀ x, grp_has_channel_id g x =
     (bool_decide (x = c) && negb (requires_standard_jobs ds)) ||
     grp_has_channel_id (group_channel ds) x) →
  downstream_ok script t
    (put_group g (put_payout (Some mode) (put_std (<[c := ch]> (standard_channels ds)) ds))).
Proof.
  intros Hok Hun Hup Hcw Hid Hcomp Hgid Hg.
  pose proof (identity_payout_wf _ _ Hid) as Hwf.
  set (ds' := put_group _ _).
  assert (∀ user, paid script ds user → paid script ds' user) as Hpaid.
  { intros user Hu. by eapply paid_compatible. }
  split; unfold ids_left, grouped; simpl.
  - intros x y. destruct (decide (x = c)) as [->|].
    + rewrite lookup_insert_eq. intros [= <-]. by exists mode, mode.
    + rewrite lookup_insert_ne by done. intros Hx. by eapply Hpaid, ok_std_paid.
  - intros x y Hx. by eapply Hpaid, ok_ext_paid.
  - intros m [= <-]. split; [done|]. exists c. left. by rewrite lookup_insert_eq.
  - by rewrite Hcw.
  - apply (ok_std_jobs _ _ _ Hok).
  - by rewrite Hup.
  - intros x Hle. rewrite is_Some_insert_iff. intros [[->|Hx]|Hx]; [by apply Hun|..];
      apply (ok_ids _ _ _ Hok); auto.
  - intros x Hle. destruct (decide (x = c)) as [->|].
    + right. by apply Hun.
    + rewrite lookup_insert_ne by done. by apply (ok_disjoint _ _ _ Hok).
  - apply (ok_factory _ _ _ Hok).
  - done.
  - intros x Ht Hle. rewrite (Hg Ht), orb_true_iff, andb_true_iff, bool_decide_eq_true,
      negb_true_iff, (ok_group _ _ _ Hok), is_Some_insert_iff by done.
    unfold grouped. rewrite Hcw. naive_solver.
Qed.

Lemma downstream_ok_insert_ext t ds c ch mode g :
  downstream_ok script true ds → unused ds c → set_up ds = true →
  requires_standard_jobs ds = false →
  identity_payout (ext_user_identity ch) = Some mode →
  payout_is_compatible (payout_mode ds) mode script = true →
  grp_id g = 1 →
  (t = true → ∀ x, grp_has_channel_id g x =
     (bool_decide (x = c) && negb (requires_custom_work ds)) ||
     grp_has_channel_id (group_channel ds) x) →
  downstream_ok script t
    (put_group g (put_payout (Some mode) (put_ext (<[c := ch]> (extended_channels ds)) ds))).
Proof.
  intros Hok Hun Hup Hsj Hid Hcomp Hgid Hg.
  pose proof (identity_payout_wf _ _ Hid) as Hwf.
  set (ds' := put_group _ _).
  assert (∀ user, paid script ds user → paid script ds' user) as Hpaid.
  { intros user Hu. by eapply paid_compatible. }
  split; unfold ids_left, grouped; simpl.
  - intros x y Hx. by eapply Hpaid, ok_std_paid.
  - intros x y. destruct (decide (x = c)) as [->|].
    + rewrite lookup_insert_eq. intros [= <-]. by exists mode, mode.
    + rewrite lookup_insert_ne by done. intros Hx. by eapply Hpaid, ok_ext_paid.
  - intros m [= <-]. split; [done|]. exists c. right. by rewrite lookup_insert_eq.
  - apply (ok_custom _ _ _ Hok).
  - by rewrite Hsj.
  - by rewrite Hup.
  - intros x Hle. rewrite is_Some_insert_iff. intros [Hx|[->|Hx]]; [|by apply Hun|];
      apply (ok_ids _ _ _ Hok); auto.
  - intros x Hle. destruct (decide (x = c)) as [->|].
    + left. by apply Hun.
    + rewrite lookup_insert_ne by done. by apply (ok_disjoint _ _ _ Hok).
  - apply (ok_factory _ _ _ Hok).
  - done.
  - intros x Ht Hle. rewrite (Hg Ht), orb_true_iff, andb_true_iff, bool_decide_eq_true,
      negb_true_iff, (ok_group _ _ _ Hok), is_Some_insert_iff by done.
    unfold grouped. rewrite Hsj. naive_solver.
Qed.

(** Taking an id. *)
Lemma next_id_ok t extra s d ds :
  ok t extra s → downstreams s !! d = Some ds →
  let ds' := put_factory (channel_id_factory ds + 1) ds in
  ok t extra (put_downstreams (<[d := ds']> (downstreams s)) s) ∧
  (downstream_ok script t ds') ∧
  unused ds' (u32_wrap (channel_id_factory ds)).
Proof.
  intros Hok Hd ds'. pose proof (ok_downstreams _ _ _ _ Hok _ _ Hd) as Hds.
  assert (downstream_ok script t ds') as Hds'.
  { destruct Hds as [H1 H2 H3 H4 H5 H6 H7 H8 H9 H10 H11].
    split; unfold ids_left, grouped in *; simpl in *; try done.
    - intros c Hle Hc. assert (1 < c < channel_id_factory ds); [apply H7|]; [lia|done|lia].
    - intros c Hle. apply H8. lia.
    - lia.
    - intros c Ht Hle. apply H11; [done|lia]. }
  split_and!; [|done|].
  - eapply manager_ok_update with (d := d) (ds := ds); [|exact Hok|exact Hd|reflexivity|..];
      [done|by intros l|done|by intros _ ? ? _ Hv|]. intros Ht c Hc.
    exact (ok_vardiff _ _ _ _ Hok _ _ _ Ht Hd Hc).
  - intros Hle. unfold ids_left in Hle. simpl in *.
    pose proof (ok_factory _ _ _ Hds) as Hf.
    assert (u32_wrap (channel_id_factory ds) = channel_id_factory ds) as ->.
    { unfold u32_wrap. apply N.mod_small. lia. }
    assert (∀ c, is_Some (standard_channels ds !! c) ∨ is_Some (extended_channels ds !! c) →
              c < channel_id_factory ds) as Hlt.
    { intros c Hc. apply (ok_ids _ _ _ Hds); [unfold ids_left; lia|done]. }
    split_and!; [| |lia..]; apply eq_None_not_Some; intros Hs;
      apply (N.lt_irrefl (channel_id_factory ds)), Hlt; auto.
Qed.

Lemma kept_drop {A} extra p (r : result A PoolError) s :
  kept (p :: extra) r s → kept extra r (release_all [p] s).
Proof. apply (manager_ok_release _ _ [p]). Qed.

(** A failed attempt gives its slot back. *)
Lemma drop_raise_wp {A} extra p e s :
  ok true (p :: extra) s → wp (drop_prefix p;; raise (A := A) e) (kept extra) s.
Proof.
  intros Hok. unfold drop_prefix. repeat wp_rule. apply kept_intro.
  by apply (manager_ok_release _ _ [p]).
Qed.
Lemma drop_ret_wp {A} extra p (a : A) s :
  ok true (p :: extra) s → wp (drop_prefix p;; mret a) (kept extra) s.
Proof.
  intros Hok. unfold drop_prefix. repeat wp_rule. apply kept_intro.
  by apply (manager_ok_release _ _ [p]).
Qed.

(** The connection with the channel stored and the group left in [g]. *)
Definition with_std (g : GroupChannel) (c : N) (ch : StdChannel) (mode : PayoutMode)
    (ds : Downstream) : Downstream :=
  put_group g (put_payout (Some mode) (put_std (<[c := ch]> (standard_channels ds)) ds)).
Definition with_ext (g : GroupChannel) (c : N) (ch : ExtChannel) (mode : PayoutMode)
    (ds : Downstream) : Downstream :=
  put_group g (put_payout (Some mode) (put_ext (<[c := ch]> (extended_channels ds)) ds)).

Lemma with_std_prefixes g c ch mode ds :
  std_prefix ch :: downstream_prefixes ds ≡ₚ
    option_list (std_prefix <$> standard_channels ds !! c) ++
    downstream_prefixes (with_std g c ch mode ds).
Proof.
  trans (option_list (std_prefix <$> standard_channels ds !! c) ++
         downstream_prefixes (put_std (<[c := ch]> (standard_channels ds)) ds)); [|done].
  rewrite prefixes_std_insert. destruct (standard_channels ds !! c) as [ch'|] eqn:Ec; simpl.
  - rewrite (prefixes_std _ _ _ Ec). apply perm_swap.
  - rewrite (delete_id _ _ Ec). by destruct ds.
Qed.

Lemma with_ext_prefixes g c ch mode ds :
  ext_prefix ch :: downstream_prefixes ds ≡ₚ
    option_list (ext_prefix <$> extended_channels ds !! c) ++
    downstream_prefixes (with_ext g c ch mode ds).
Proof.
  trans (option_list (ext_prefix <$> extended_channels ds !! c) ++
         downstream_prefixes (put_ext (<[c := ch]> (extended_channels ds)) ds)); [|done].
  rewrite prefixes_ext_insert. destruct (extended_channels ds !! c) as [ch'|] eqn:Ec; simpl.
  - rewrite (prefixes_ext _ _ _ Ec). apply perm_swap.
  - rewrite (delete_id _ _ Ec). by destruct ds.
Qed.

Lemma insert_standard_wp c ch mode (Q : result (option StdChannel) PoolError → Downstream → Prop) ds :
  Q (Ok (standard_channels ds !! c)) (with_std (group_channel ds) c ch mode ds) →
  wp (insert_standard c ch mode) Q ds.
Proof. by destruct ds. Qed.
Lemma insert_extended_wp c ch mode (Q : result (option ExtChannel) PoolError → Downstream → Prop) ds :
  Q (Ok (extended_channels ds !! c)) (with_ext (group_channel ds) c ch mode ds) →
  wp (insert_extended c ch mode) Q ds.
Proof. by destruct ds. Qed.

(** The last steps: the group, then the vardiff controller. *)
Lemma start_vardiff_wp extra s s1 d ds ds' p old c c' :
  ok true (p :: extra) s → downstreams s !! d = Some ds →
  downstreams s1 = <[d := ds']> (downstreams s) →
  extranonce_allocator s1 = foldl release_prefix (extranonce_allocator s) old →
  vardiff s1 = vardiff s →
  p :: downstream_prefixes ds ≡ₚ old ++ downstream_prefixes ds' →
  downstream_ok script true ds' → c' = c →
  (∀ x, is_Some (standard_channels ds' !! x) ∨ is_Some (extended_channels ds' !! x) →
     x = c ∨ is_Some (standard_channels ds !! x) ∨ is_Some (extended_channels ds !! x)) →
  wp (start_vardiff d c') (kept extra) s1.
Proof.
  intros Hok Hd Ed Ea Ev Hp Hok' -> Hch.
  assert (∀ s2 t', downstreams s2 = downstreams s1 →
    extranonce_allocator s2 = extranonce_allocator s1 →
    (t' = true → vardiff s2 !! (d, c) ≠ None ∧
       ∀ k, is_Some (vardiff s !! k) → is_Some (vardiff s2 !! k)) →
    ok t' extra s2) as Hfin.
  { intros s2 t' E1 E2 Hv. eapply manager_ok_update with (d := d) (ds := ds) (ds' := ds');
      [|exact Hok|exact Hd|by rewrite E1|..]; [done| | |..].
    - intros l Hl. rewrite E2, Ea. apply slots_release_all. eapply slots_perm; [|exact Hl].
      trans (extra ++ (p :: downstream_prefixes ds) ++ l); [solve_Permutation|].
      rewrite Hp. solve_Permutation.
    - by eapply downstream_ok_weaken.
    - intros Ht d' x _. by apply Hv.
    - intros Ht x [->|Hx]%Hch; [by apply not_eq_None_Some, Hv|].
      apply Hv; [done|]. by eapply ok_vardiff. }
  unfold start_vardiff. wp_rule. wp_rule; simpl.
  - wp_rule. apply Hfin; [done..|]. intros _. simpl. rewrite Ev. split.
    + by rewrite lookup_insert_eq.
    + intros k Hk. apply lookup_insert_is_Some'. by right.
  - by apply Hfin.
Qed.

(** When the group cannot take the channel the pool shuts down. *)
Lemma failed_open_ok extra s s1 d ds ds' p old :
  ok true (p :: extra) s → downstreams s !! d = Some ds →
  downstreams s1 = <[d := ds']> (downstreams s) →
  extranonce_allocator s1 = foldl release_prefix (extranonce_allocator s) old →
  p :: downstream_prefixes ds ≡ₚ old ++ downstream_prefixes ds' →
  downstream_ok script false ds' → ok false extra s1.
Proof.
  intros Hok Hd Ed Ea Hp Hok'.
  eapply manager_ok_update with (d := d) (ds := ds) (ds' := ds');
    [|exact Hok|exact Hd|exact Ed|..]; [done| |done|done|done].
  intros l Hl. rewrite Ea. apply slots_release_all. eapply slots_perm; [|exact Hl].
  trans (extra ++ (p :: downstream_prefixes ds) ++ l); [solve_Permutation|].
  rewrite Hp. solve_Permutation.
Qed.

Lemma finish_open_standard_wp d rid c ch mode template ph extra s ds :
  downstreams s !! d = Some ds → ok true (std_prefix ch :: extra) s →
  set_up ds = true → unused ds c → requires_custom_work ds = false →
  identity_payout (std_user_identity ch) = Some mode →
  payout_is_compatible (payout_mode ds) mode script = true →
  wp (finish_open_standard script d rid c ch mode template ph) (kept extra) s.
Proof.
  intros Hd Hok Hup Hun Hcw Hid Hcomp.
  pose proof (ok_downstreams _ _ _ _ Hok _ _ Hd) as Hds.
  unfold finish_open_standard. wp_rule. apply wp_read; [|by rewrite Hd].
  intros ds0 Hd0. rewrite Hd in Hd0. injection Hd0 as <-. simpl. wp_rule. wp_rule. simpl.
  destruct (std_on_new_template ch template _) as [r c1] eqn:E1.
  pose proof (std_template_keeps ch template (coinbase_outputs mode
    (coinbase_tx_value_remaining template) script)) as [Hp1 Hu1].
  rewrite E1 in Hp1, Hu1. simpl in Hp1, Hu1.
  destruct r as [u|e]; [|rewrite <-Hp1 in Hok; by apply drop_raise_wp].
  wp_rule. wp_rule. simpl. wp_rule. wp_rule. simpl.
  destruct (std_on_set_new_prev_hash c1 ph) as [r c2] eqn:E2.
  pose proof (std_prev_hash_keeps c1 ph) as [Hp2 Hu2].
  rewrite E2 in Hp2, Hu2. simpl in Hp2, Hu2. rewrite Hp1 in Hp2. rewrite Hu1 in Hu2.
  destruct r as [u'|e]; [|rewrite <-Hp2 in Hok; by apply drop_raise_wp].
  rewrite <-Hp2 in Hok. rewrite <-Hu2 in Hid. clear E1 E2 Hp1 Hu1 Hp2 Hu2.
  wp_rule. eapply wp_registered; [exact Hd|]. apply insert_standard_wp. simpl.
  wp_rule. wp_rule. simpl. wp_rule.
  set (s1 := release_all _ _).
  assert (downstreams s1 !! d = Some (with_std (group_channel ds) c c2 mode ds)) as Hd1
    by (simpl; by rewrite lookup_insert_eq).
  set (old := std_prefix <$> option_list (standard_channels ds !! c)) in *.
  assert (old = option_list (std_prefix <$> standard_channels ds !! c)) as Eold
    by (unfold old; by destruct (standard_channels ds !! c)).
  assert (∀ g x, is_Some (standard_channels (with_std g c c2 mode ds) !! x) ∨
                 is_Some (extended_channels (with_std g c c2 mode ds) !! x) →
    x = c ∨ is_Some (standard_channels ds !! x) ∨ is_Some (extended_channels ds !! x)) as Hch.
  { intros g x. simpl. rewrite is_Some_insert_iff. naive_solver. }
  destruct (requires_standard_jobs ds) eqn:Esj.
  - wp_rule. simpl. wp_rule. eapply wp_mono; [|eapply (start_vardiff_wp extra s s1 d ds
      (with_std (group_channel ds) c c2 mode ds)); [exact Hok|exact Hd|..|exact (Hch _)]].
    + intros [[]|e] s2 Hs2; [|exact Hs2]. cbn [andthen]. wp_rule. exact Hs2.
    + simpl. by destruct ds.
    + done.
    + done.
    + rewrite Eold. apply with_std_prefixes.
    + apply downstream_ok_insert_std; try done; [apply (ok_group_id _ _ _ Hds)|].
      intros _ x. by rewrite Esj, andb_false_r.
    + done.
  - wp_rule. eapply wp_registered; [exact Hd1|]. apply wp_transact. intros r ds2 Eg.
    destruct (grp_add_channel_id _ c _) as [r0 g] eqn:Eadd. injection Eg as -> <-. simpl.
    assert (put_group g (with_std (group_channel ds) c c2 mode ds) = with_std g c c2 mode ds) as ->
      by done.
    destruct r as [[]|e]; simpl.
    + wp_rule. simpl. wp_rule. apply grp_add_spec in Eadd as [Hgid Hg].
      eapply wp_mono; [|eapply (start_vardiff_wp extra s _ d ds (with_std g c c2 mode ds));
        [exact Hok|exact Hd|..|exact (Hch _)]].
      * intros [[]|e] s2 Hs2; [|exact Hs2]. cbn [andthen]. wp_rule. exact Hs2.
      * simpl. by rewrite insert_insert_eq.
      * done.
      * done.
      * rewrite Eold. apply with_std_prefixes.
      * apply downstream_ok_insert_std; try done.
        { rewrite Hgid. apply (ok_group_id _ _ _ Hds). }
        intros _ x. rewrite Hg, Esj, andb_true_r. done.
      * done.
    + wp_rule. eapply failed_open_ok with (ds' := with_std g c c2 mode ds);
        [exact Hok|exact Hd|simpl; by rewrite insert_insert_eq|done|..].
      * rewrite Eold. apply with_std_prefixes.
      * apply grp_add_failed in Eadd as [Hgid _]. apply downstream_ok_insert_std; try done.
        rewrite Hgid. apply (ok_group_id _ _ _ Hds).
Qed.

Lemma forward_all_wp extra (p : Pool.handler (list RouteMessageTo)) s :
  wp p (kept extra) s → wp (p ≫= forward_all) (kept extra) s.
Proof.
  intros Hp. wp_rule. eapply wp_mono; [|exact Hp]. intros [ms|e] s' Hs'; [|exact Hs'].
  cbn [andthen]. apply kept_evolves; [apply evolves_forward_all|exact Hs'].
Qed.

Lemma open_standard_wp d msg extra s :
  (∀ ds, downstreams s !! d = Some ds → set_up ds = true) →
  ok true extra s → wp (open_standard script d msg) (kept extra) s.
Proof.
  intros Hup Hok. unfold open_standard. wp_rule.
  apply wp_read; [|intros _; by apply kept_intro]. intros ds Hd. simpl.
  destruct (requires_custom_work ds) eqn:Hcw; [wp_rule; by apply kept_intro|].
  do 2 wp_rule. simpl. wp_rule. wp_rule; [|by apply kept_intro]. simpl.
  do 2 wp_rule. simpl. wp_rule. wp_rule; [|by apply kept_intro]. simpl.
  destruct (identity_payout (osc_user_identity msg)) as [mode|] eqn:Hid;
    [|wp_rule; by apply kept_intro].
  destruct (payout_is_compatible (payout_mode ds) mode script) eqn:Hcomp; simpl;
    [|wp_rule; by apply kept_intro].
  wp_rule. apply wp_transact. intros r s1.
  destruct (allocate_standard (extranonce_allocator s)) as [r0 a'] eqn:Ea. intros [= -> <-].
  destruct r as [p|e]; simpl.
  2: { pose proof (allocate_standard_err _ _ _ Ea) as Hlive.
       assert (ok true extra (put_allocator a' s)) as Hok' by by apply manager_ok_allocator_same.
       wp_rule. wp_rule; [wp_rule|]; by apply kept_intro. }
  apply allocate_standard_ok in Ea as [Hp Hlive].
  assert (ok true (p :: extra) (put_allocator a' s)) as Hok1 by by apply manager_ok_allocate.
  destruct (next_id_ok true _ (put_allocator a' s) d ds Hok1 Hd) as (Hok2 & Hds2 & Hun).
  wp_rule. eapply wp_registered; [exact Hd|]. apply wp_transact. intros c ds2 [= <- <-]. simpl.
  destruct (std_new_for_pool _ _ _ _ _) as [ch|e] eqn:En.
  - apply std_new_keeps in En as [Hcp Hcu]. rewrite <-Hcp in Hok2.
    eapply finish_open_standard_wp;
      [simpl; by rewrite lookup_insert_eq|exact Hok2|simpl; by apply Hup|exact Hun|done|by rewrite Hcu|done].
  - destruct e; first [by apply drop_ret_wp|by apply drop_raise_wp].
Qed.

(** ** Extended channels *)
Lemma put_downstreams_twice m m' s : put_downstreams m (put_downstreams m' s) = put_downstreams m s.
Proof. done. Qed.

Lemma drop_raise_err {A} extra p e (Q : result A PoolError → ChannelManager → Prop) s :
  ok true (p :: extra) s →
  (∀ s', kept extra (Err (A := list RouteMessageTo) e) s' → Q (Err e) s') →
  wp (drop_prefix p;; raise e) Q s.
Proof. intros Hok HQ. apply HQ, kept_intro. by apply (manager_ok_release _ _ [p]). Qed.

(** The job of a new channel: the group took the channel, or it was refused. *)
Lemma first_extended_job_wp d c ch mode template ph extra s ds :
  downstreams s !! d = Some ds → ok true (ext_prefix ch :: extra) s →
  requires_custom_work ds = false → unused ds c →
  wp (first_extended_job script d c ch mode template ph)
    (λ r s', match r with
             | Ok (_, ch') => ext_keeps ch ch' ∧ ∃ g, s' =
                 put_downstreams (<[d := put_group g ds]> (downstreams s)) s ∧
                 grp_id g = grp_id (group_channel ds) ∧
                 ∀ x, grp_has_channel_id g x =
                        bool_decide (x = c) || grp_has_channel_id (group_channel ds) x
             | Err e => kept extra (Err (A := list RouteMessageTo) e) s'
             end) s.
Proof.
  intros Hd Hok Hcw Hun. unfold first_extended_job.
  destruct (ext_on_new_template ch template _) as [r c1] eqn:E1.
  pose proof (ext_template_keeps ch template (coinbase_outputs mode
    (coinbase_tx_value_remaining template) script)) as Hk1.
  rewrite E1 in Hk1. simpl in Hk1. destruct Hk1 as [Hp1 Hu1].
  destruct r as [u|e].
  2: { rewrite <-Hp1 in Hok. by eapply drop_raise_err. }
  wp_rule. wp_rule. simpl. wp_rule. wp_rule. simpl.
  destruct (ext_on_set_new_prev_hash c1 ph) as [r c2] eqn:E2.
  pose proof (ext_prev_hash_keeps c1 ph) as Hk2.
  rewrite E2 in Hk2. simpl in Hk2. destruct Hk2 as [Hp2 Hu2].
  rewrite Hp1 in Hp2. rewrite Hu1 in Hu2. rewrite <-Hp2 in Hok.
  destruct r as [u'|e].
  2: by eapply drop_raise_err.
  wp_rule. eapply wp_registered; [exact Hd|]. apply wp_transact. intros r ds2 Eg.
  destruct (grp_add_channel_id _ c _) as [r0 g] eqn:Eadd. injection Eg as -> <-.
  destruct r as [[]|e]; cbn [andthen].
  - wp_rule. apply grp_add_spec in Eadd as [Hgid Hg]. split; [by split|]. by exists g.
  - assert (ok true (ext_prefix c2 :: extra)
      (put_downstreams (<[d := put_group g ds]> (downstreams s)) s)) as Hok'.
    { eapply manager_ok_sim; [|exact Hok]. split; [|done|done].
      eapply map_Forall2_insert_one; [apply _|exact Hd|].
      split; try done; [by eapply grp_add_failed|apply map_Forall2_refl, _..]. }
    by eapply drop_raise_err.
Qed.

(** Storing the opened channel. *)
Lemma store_extended_wp {B} d c ch mode extra s s0 ds g (messages : B) :
  ok true (ext_prefix ch :: extra) s → downstreams s !! d = Some ds →
  s0 = put_downstreams (<[d := put_group g ds]> (downstreams s)) s →
  set_up ds = true → unused ds c → requires_standard_jobs ds = false →
  identity_payout (ext_user_identity ch) = Some mode →
  payout_is_compatible (payout_mode ds) mode script = true →
  grp_id g = grp_id (group_channel ds) →
  (∀ x, grp_has_channel_id g x =
     (bool_decide (x = c) && negb (requires_custom_work ds)) ||
     grp_has_channel_id (group_channel ds) x) →
  wp (old ← with_registered_downstream d (insert_extended c ch mode);
      update (release_all (ext_prefix <$> option_list old));;
      start_vardiff d c;;
      mret messages) (kept extra) s0.
Proof.
  intros Hok Hd -> Hup Hun Hsj Hid Hcomp Hgid Hg.
  pose proof (ok_downstreams _ _ _ _ Hok _ _ Hd) as Hds.
  wp_rule. eapply wp_registered; [simpl; apply lookup_insert_eq|]. apply insert_extended_wp. simpl.
  wp_rule. wp_rule. simpl. wp_rule.
  eapply wp_mono; [|eapply (start_vardiff_wp extra s _ d ds (with_ext g c ch mode ds));
    [exact Hok|exact Hd|..]].
  - intros [[]|e] s2 Hs2; [|exact Hs2]. cbn [andthen]. wp_rule. exact Hs2.
  - simpl. by rewrite insert_insert_eq.
  - reflexivity.
  - done.
  - rewrite (with_ext_prefixes g c ch mode ds). by destruct (extended_channels ds !! c).
  - apply downstream_ok_insert_ext; try done. rewrite Hgid. apply (ok_group_id _ _ _ Hds).
  - done.
  - intros x. simpl. rewrite is_Some_insert_iff. naive_solver.
Qed.

Lemma finish_open_extended_wp d rid c ch mode extra s ds :
  downstreams s !! d = Some ds → ok true (ext_prefix ch :: extra) s →
  set_up ds = true → unused ds c → requires_standard_jobs ds = false →
  identity_payout (ext_user_identity ch) = Some mode →
  payout_is_compatible (payout_mode ds) mode script = true →
  wp (finish_open_extended script d rid c ch mode) (kept extra) s.
Proof.
  intros Hd Hok Hup Hun Hsj Hid Hcomp.
  unfold finish_open_extended. wp_rule. apply wp_read; [|by rewrite Hd].
  intros ds0 Hd0. rewrite Hd in Hd0. injection Hd0 as <-. simpl.
  destruct (fits_b032 (ext_extranonce_prefix ch)); simpl; [|by apply drop_raise_wp].
  do 2 wp_rule. simpl. do 2 wp_rule. simpl.
  destruct (last_new_prev_hash s) as [nph|]; [|by apply drop_raise_wp].
  destruct (last_future_template s) as [template|]; [|by apply drop_raise_wp].
  wp_rule. destruct (requires_custom_work ds) eqn:Hcw.
  - destruct (ext_on_set_new_prev_hash ch nph) as [r c1] eqn:E1.
    pose proof (ext_prev_hash_keeps ch nph) as Hk.
    rewrite E1 in Hk. simpl in Hk. destruct Hk as [Hp Hu]. rewrite <-Hp in Hok.
    destruct r as [u|e]; [|by eapply drop_raise_err].
    wp_rule. simpl. eapply store_extended_wp with (g := group_channel ds);
      [exact Hok|exact Hd| |done|done|done|by rewrite Hu|done|done|].
    + rewrite <-(put_downstreams_id s) at 1. f_equal. rewrite insert_id; [done|].
      rewrite Hd. by destruct ds.
    + intros x. by rewrite Hcw, andb_false_r.
  - eapply wp_mono; [|by eapply first_extended_job_wp].
    intros [[messages ch']|e] s1 Hs1; [|exact Hs1].
    destruct Hs1 as ([Hp Hu] & g & -> & Hgid & Hg). cbn [andthen].
    rewrite <-Hp in Hok. eapply store_extended_wp;
      [exact Hok|exact Hd|reflexivity|done|done|done|by rewrite Hu|done|done|].
    intros x. by rewrite Hg, Hcw, andb_true_r.
Qed.

Lemma open_extended_wp d msg extra s :
  (∀ ds, downstreams s !! d = Some ds → set_up ds = true) →
  ok true extra s → wp (open_extended script d msg) (kept extra) s.
Proof.
  intros Hup Hok. unfold open_extended. wp_rule.
  apply wp_read; [|intros _; by apply kept_intro]. intros ds Hd. simpl.
  destruct (requires_standard_jobs ds) eqn:Hsj; [wp_rule; by apply kept_intro|].
  destruct (identity_payout (oec_user_identity msg)) as [mode|] eqn:Hid;
    [|wp_rule; by apply kept_intro].
  destruct (payout_is_compatible (payout_mode ds) mode script) eqn:Hcomp; simpl;
    [|wp_rule; by apply kept_intro].
  wp_rule. apply wp_transact. intros r s1.
  destruct (allocate_extended (extranonce_allocator s) _) as [r0 a'] eqn:Ea. intros [= -> <-].
  destruct r as [p|e]; simpl.
  2: { pose proof (allocate_extended_err _ _ _ _ Ea) as Hlive.
       assert (ok true extra (put_allocator a' s)) as Hok' by by apply manager_ok_allocator_same.
       wp_rule. wp_rule; [wp_rule|]; by apply kept_intro. }
  apply allocate_extended_ok in Ea as [Hp Hlive].
  assert (ok true (p :: extra) (put_allocator a' s)) as Hok1 by by apply manager_ok_allocate.
  destruct (next_id_ok true _ (put_allocator a' s) d ds Hok1 Hd) as (Hok2 & Hds2 & Hun).
  wp_rule. eapply wp_registered; [exact Hd|]. apply wp_transact. intros c ds2 [= <- <-]. simpl.
  destruct (ext_new_for_pool _ _ _ _ _ _) as [ch|e] eqn:En.
  - apply ext_new_keeps in En as [Hcp Hcu]. rewrite <-Hcp in Hok2.
    eapply finish_open_extended_wp;
      [simpl; by rewrite lookup_insert_eq|exact Hok2|simpl; by apply Hup|exact Hun|done|by rewrite Hcu|done].
  - destruct e; first [by apply drop_ret_wp|by apply drop_raise_wp].
Qed.

(** Every handler of a mining message. *)
Lemma mining_message_wp d m extra s :
  (∀ ds, downstreams s !! d = Some ds → set_up ds = true) →
  ok true extra s → wp (handle_mining_message script d m) (kept extra) s.
Proof.
  intros Hup Hok. destruct m as [c|msg|msg|msg|msg|msg]; simpl.
  - by apply close_wp.
  - apply forward_all_wp. by apply open_standard_wp.
  - apply forward_all_wp. by apply open_extended_wp.
  - apply kept_evolves; [|done]. apply evolves_submit_share, evolves_judge_standard.
  - apply kept_evolves; [|done]. apply evolves_submit_share, evolves_judge_extended.
  - apply kept_evolves; [|done]. apply evolves_update_channel.
Qed.
End channels.
