(* ===== verification/PoolSafety.v ===== *)
(** * Pool: what every reachable state guarantees

    The invariant of [PoolInv] holds along every run of the pool's channel
    manager, whatever its miners, the template provider, the job declarator and
    the tasks of the connections do. *)
From S2P Require Import Prelude Handler SharedMap Bitcoin JobValidation ValidationEngine JobDeclarator Payout Setup ShareCache ServerChannels Pool PoolInv PoolChannels.

Section runs.
Context `{BitcoinApi} `{VE : JobValidationEngine} {AA : AddressApi} {SC : ServerChannels}
  {CL : ChannelLaws SC}.
Context (configured_outputs script jds_script : list byte)
  (error_string : CustomErrorCode → string)
  (has_work_selection has_requires_std_job : N → bool).
Notation env_step := (env_step script jds_script has_work_selection has_requires_std_job).
Notation pool_step := (pool_step configured_outputs script jds_script error_string
                         has_work_selection has_requires_std_job).
Notation ok := (manager_ok script).
Notation pool_ok := (pool_ok script).

(** ** Disconnection *)
Lemma remove_downstream_ok t extra d s :
  ok t extra s →
  ok t (concat (downstream_prefixes <$> option_list (remove_downstream d s).1) ++ extra)
    (remove_downstream d s).2.
Proof.
  intros [Hs Hd Hv]. split; simpl.
  - destruct (downstreams s !! d) as [ds|] eqn:Ed; simpl.
    + rewrite app_nil_r. eapply slots_perm; [|exact Hs].
      rewrite (held_lookup _ _ _ Ed). solve_Permutation.
    + by rewrite delete_id.
  - intros d' ds [_ Hd']%lookup_delete_Some. by apply (Hd d').
  - intros d' ds c Ht [Hne Hd']%lookup_delete_Some Hc. simpl in *.
    destruct (Hv d' ds c Ht Hd' Hc) as [v Ev]. exists v. apply SharedMap.retain_lookup.
    split; [done|]. simpl. apply negb_true_iff, N.eqb_neq. congruence.
Qed.

(** ** Turns of the loop *)
Lemma turn_ok r m s :
  ok (negb (cancelled s) && negb (is_shutdown r)) (detached_prefixes s) m → pool_ok (turn r m s).
Proof.
  intros Hok. unfold turn, PoolInv.pool_ok, handle_error_action. destruct r as [[]|e]; simpl.
  { by rewrite andb_true_r in Hok. }
  destruct (cancelled s) eqn:Ec; simpl in *; [exact Hok|].
  unfold is_shutdown in Hok. destruct (action e) as [|d|]; simpl in *.
  - exact Hok.
  - pose proof (remove_downstream_ok _ _ d _ Hok) as Hr.
    unfold detached_prefixes in *. simpl in *. by rewrite fmap_app, concat_app.
  - done.
Qed.

Lemma turn_kept_ok (p : Pool.handler unit) s r m :
  cancelled s = false → pool_ok s →
  (ok true (detached_prefixes s) (cm s) → wp p (kept script (detached_prefixes s)) (cm s)) →
  p (cm s) = Done (r, m) → pool_ok (turn r m s).
Proof.
  intros Ec Hok Hp E. unfold PoolInv.pool_ok in Hok. rewrite Ec in Hok.
  specialize (Hp Hok). apply (wp_sound _ _ _ _ _ Hp) in E. apply turn_ok. by rewrite Ec.
Qed.

(** ** The other tasks *)
Lemma new_downstream_ok t g :
  grp_id g = 1 → (∀ c, grp_has_channel_id g c = false) → downstream_ok script t (new_downstream g).
Proof.
  intros Hid Hg.
  assert (∀ c, (∅ : gmap N StdChannel) !! c = None) as Es by (intros; apply lookup_empty).
  assert (∀ c, (∅ : gmap N ExtChannel) !! c = None) as Ee by (intros; apply lookup_empty).
  unfold new_downstream, SharedMap.new. split; unfold ids_left, grouped; simpl; try done.
  - intros c _. rewrite Es, Ee. by intros [[]|[]].
  - intros c _. left. apply Es.
  - intros c _ _. rewrite Hg, Es, Ee. split; [done|]. by intros [[[] ?]|[[] ?]].
Qed.

Lemma accept_downstream_ok t extra s r m :
  ok t extra s → accept_downstream script s = Done (r, m) →
  match r with
  | Ok (Some (_, old)) => ok t (concat (downstream_prefixes <$> option_list old) ++ extra) m
  | _ => ok t extra m
  end.
Proof.
  intros Hok. apply wp_sound with (Q := λ r m, match r with
    | Ok (Some (_, old)) => ok t (concat (downstream_prefixes <$> option_list old) ++ extra) m
    | _ => ok t extra m end).
  unfold accept_downstream. wp_rule. apply wp_transact. intros d s1 [= <- <-]. cbn [andthen].
  wp_rule. unfold bootstrap_group_channel. do 2 wp_rule. cbn [andthen]. do 2 wp_rule.
  cbn [andthen]. do 2 wp_rule. cbn [andthen]. do 2 wp_rule. cbn [andthen]. wp_rule.
  cbn [andthen].
  assert (∀ io f, ok t extra {| downstreams := downstreams s;
      extranonce_allocator := extranonce_allocator s; downstream_id_factory := f;
      vardiff := vardiff s; last_new_prev_hash := last_new_prev_hash s;
      last_future_template := last_future_template s; channel_manager_io := io;
      job_declarator := job_declarator s |}) as Hsame by (intros; by destruct Hok; split).
  destruct (grp_new 1) as [g|] eqn:Eg; [|wp_rule; apply Hsame].
  apply grp_new_empty in Eg as [Hid Hg].
  destruct (grp_on_new_template g _ _) as [[[]|] g1] eqn:E1; [|wp_rule; apply Hsame].
  destruct (grp_on_set_new_prev_hash g1 _) as [[[]|] g2] eqn:E2; [|wp_rule; apply Hsame].
  match type of E1 with grp_on_new_template _ ?m ?o = _ =>
    pose proof (grp_template_keeps g m o) as [Hid1 Hg1] end.
  match type of E2 with grp_on_set_new_prev_hash _ ?m = _ =>
    pose proof (grp_prev_hash_keeps g1 m) as [Hid2 Hg2] end.
  rewrite E1 in Hid1, Hg1. rewrite E2 in Hid2, Hg2. simpl in Hid1, Hg1, Hid2, Hg2.
  do 2 wp_rule. cbn [andthen]. wp_rule. apply wp_transact. intros old s2 [= <- <-].
  cbn [andthen]. wp_rule.
  set (d := downstream_id_factory s).
  assert (downstream_ok script t (new_downstream g2)) as Hnew.
  { apply new_downstream_ok; [congruence|]. intros c. by rewrite Hg2, Hg1. }
  destruct Hok as [Hs Hd Hv]. split; simpl.
  - eapply slots_perm; [|exact Hs]. rewrite held_insert. simpl.
    destruct (downstreams s !! d) as [ds|] eqn:Ed; simpl.
    + rewrite app_nil_r, (held_lookup _ _ _ Ed). solve_Permutation.
    + by rewrite delete_id.
  - intros d' ds. destruct (decide (d' = d)) as [->|].
    + rewrite lookup_insert_eq. by intros [= <-].
    + rewrite lookup_insert_ne by done. apply Hd.
  - intros d' ds c Ht. destruct (decide (d' = d)) as [->|].
    + rewrite lookup_insert_eq. intros [= <-]. simpl. unfold SharedMap.new.
      rewrite !lookup_empty. by intros [[]|[]].
    + rewrite lookup_insert_ne by done. by apply Hv.
Qed.

Lemma set_flags_ok t ds custom std :
  set_up ds = false → downstream_ok script t ds → downstream_ok script t (put_flags custom std ds).
Proof.
  intros Hup Hok. destruct (ok_fresh _ _ _ Hok Hup) as [Es Ee].
  destruct Hok as [H1 H2 H3 H4 H5 H6 H7 H8 H9 H10 H11].
  split; unfold ids_left, grouped in *; simpl; try done.
  intros c Ht Hle. rewrite H11 by done. rewrite Es, Ee, !lookup_empty.
  split; by intros [[[] ?]|[[] ?]].
Qed.

Lemma env_step_ok s s' : env_step s s' → pool_ok s → pool_ok s'.
Proof.
  unfold PoolInv.pool_ok, detached_prefixes. destruct 1 as
    [s d old m E|s m E|s d ds msg replies custom std Hd Hup E|s d ds l Hd|s d|s l1 ds l2 El
    |s tp gone|s j j' Ej Hj|s]; simpl; intros Hok.
  - apply (accept_downstream_ok _ _ _ _ _ Hok) in E. by rewrite fmap_app, concat_app.
  - apply (accept_downstream_ok _ _ _ _ _ Hok) in E. by eapply manager_ok_weaken; [|exact E].
  - eapply manager_ok_update with (d := d) (ds := ds); [|exact Hok|exact Hd|reflexivity|..];
      [done|by intros l Hl| |by intros _ d' c _ Hv|].
    + apply set_flags_ok; [done|]. by eapply ok_downstreams.
    + intros Ht c Hc. exact (ok_vardiff _ _ _ _ Hok _ _ _ Ht Hd Hc).
  - eapply manager_ok_sim; [|exact Hok]. split; [|done|done].
    eapply map_Forall2_insert_one; [apply _|exact Hd|]. split; try done; apply map_Forall2_refl, _.
  - rewrite fmap_app, concat_app. by apply remove_downstream_ok.
  - apply manager_ok_release. rewrite El, fmap_app, concat_app in Hok. simpl in Hok.
    rewrite fmap_app, concat_app. destruct Hok as [Hs Hd Hv]. split; [|done|done].
    eapply slots_perm; [|exact Hs]. solve_Permutation.
  - eapply manager_ok_sim; [apply sim_put_io|exact Hok].
  - eapply manager_ok_sim; [apply sim_put_jd|exact Hok].
  - by eapply manager_ok_weaken; [|exact Hok].
Qed.

Lemma pool_step_ok s s' : pool_step s s' → pool_ok s → pool_ok s'.
Proof.
  destruct 1 as [s s' Henv|s d m r m' Ec Hup E|s order channels msg r m' Ec E
    |s order channels ph r m' Ec E|s keys r m' Ec E|s d msg r m' Ec E Hr
    |s d msg m1 s2 r m' Ec E Henv E2]; intros Hok.
  - by eapply env_step_ok.
  - eapply turn_kept_ok; [done|done| |exact E]. by apply mining_message_wp.
  - eapply turn_kept_ok; [done|done| |exact E]. apply kept_evolves, evolves_new_template.
  - eapply turn_kept_ok; [done|done| |exact E]. apply kept_evolves, evolves_prev_hash.
  - eapply turn_kept_ok; [done|done| |exact E]. apply kept_evolves, evolves_run_vardiff.
  - unfold PoolInv.pool_ok in Hok. rewrite Ec in Hok.
    pose proof (kept_evolves script (detached_prefixes s) _ _
      (evolves_validate_custom error_string d msg) Hok) as Hw.
    apply (wp_sound _ _ _ _ _ Hw) in E. apply turn_ok. rewrite Ec. simpl.
    by destruct r as [b|e].
  - assert (pool_ok (with_cm m1 s)) as Hok1.
    { pose proof (evolves_validate_custom error_string d msg (cm s)) as Hw.
      apply (wp_sound _ _ _ _ _ Hw) in E. eapply manager_ok_sim; [exact E|exact Hok]. }
    assert (pool_ok s2) as Hok2.
    { clear E2. induction Henv as [|s1 s3 s4 H1 _ IH]; [done|]. by eapply IH, env_step_ok. }
    pose proof (evolves_commit_custom d msg (cm s2)) as Hw.
    apply (wp_sound _ _ _ _ _ Hw) in E2. apply turn_ok.
    eapply manager_ok_weaken; [|eapply manager_ok_sim; [exact E2|exact Hok2]].
    by intros [? _]%andb_true_iff.
Qed.

(** Every state of a run. *)
Lemma pool_reach_ok a jds s :
  (∀ p, ¬ live a p) → rtc pool_step (pool_init a jds) s → pool_ok s.
Proof.
  intros Ha Hs. assert (pool_ok (pool_init a jds)) as Hinit.
  { split; simpl; unfold SharedMap.new.
    - unfold held. rewrite values_empty. split; [constructor|]. intros p.
      split; [by intros ?%Ha|by intros ?%not_elem_of_nil].
    - intros d ds. by rewrite lookup_empty.
    - intros d ds c _. by rewrite lookup_empty. }
  induction Hs as [|s1 s2 s3 H1 _ IH]; [done|]. by eapply IH, pool_step_ok.
Qed.

(** ** Guarantees *)
Section guarantees.
Context (a : ExtranonceAllocator) (jds : option JdSystem).

(** C14: in every reachable state of the pool no two channels, open or of a
    connection still being torn down, share an extranonce prefix, and the slots
    the allocator counts as used are exactly those of these channels: none is
    handed out twice and none leaks. *)
Theorem extranonces_distinct s :
  (∀ p, ¬ live a p) → rtc pool_step (pool_init a jds) s →
  let prefixes := detached_prefixes s ++ held (downstreams (cm s)) in
  NoDup (prefix_bytes <$> prefixes) ∧ ∀ p, live (extranonce_allocator (cm s)) p ↔ p ∈ prefixes.
Proof.
  intros Ha Hs. destruct (pool_reach_ok _ _ _ Ha Hs) as [[Hnd Hlive] _ _]. split; [|done].
  apply NoDup_fmap_2_strong; [|done]. intros p q Hp Hq.
  by apply (live_inj (extranonce_allocator (cm s))); apply Hlive.
Qed.

(** C6: in every reachable state the outputs a connection's blocks pay are, for
    every block value, those the identity of each of its channels asks for: no
    miner works for another one's payout. *)
Theorem channels_paid_alike s d ds total default :
  (∀ p, ¬ live a p) → rtc pool_step (pool_init a jds) s → downstreams (cm s) !! d = Some ds →
  (∀ c ch, standard_channels ds !! c = Some ch →
     ∃ own, identity_payout (std_user_identity ch) = Some own ∧
       downstream_coinbase_outputs script total default ds = coinbase_outputs own total script) ∧
  (∀ c ch, extended_channels ds !! c = Some ch →
     ∃ own, identity_payout (ext_user_identity ch) = Some own ∧
       downstream_coinbase_outputs script total default ds = coinbase_outputs own total script).
Proof.
  intros Ha Hs Hd. pose proof (ok_downstreams _ _ _ _ (pool_reach_ok _ _ _ Ha Hs) _ _ Hd) as Hok.
  unfold downstream_coinbase_outputs. split; intros c ch Hc;
    [destruct (ok_std_paid _ _ _ Hok _ _ Hc) as (mode & own & -> & Hown & Hpay)
    |destruct (ok_ext_paid _ _ _ Hok _ _ Hc) as (mode & own & -> & Hown & Hpay)];
    exists own; (split; [done|]); by rewrite Hpay.
Qed.

(** C19: in every reachable state of a pool that is not shutting down the tables
    agree: a connection has a payout mode exactly while it has channels, every
    channel has its vardiff controller, a connection that brings its own work
    has no standard channel, one that wants standard jobs no extended channel;
    and until 2^32 channels were opened on a connection, no id names two
    channels or the group, and the group's jobs go to exactly the channels
    that get none of their own. *)
Theorem pool_tables_agree s d ds :
  (∀ p, ¬ live a p) → rtc pool_step (pool_init a jds) s → cancelled s = false →
  downstreams (cm s) !! d = Some ds →
  (payout_mode ds = None ↔ standard_channels ds = ∅ ∧ extended_channels ds = ∅) ∧
  (∀ c, is_Some (standard_channels ds !! c) ∨ is_Some (extended_channels ds !! c) →
     is_Some (vardiff (cm s) !! (d, c))) ∧
  (requires_custom_work ds = true → standard_channels ds = ∅) ∧
  (requires_standard_jobs ds = true → extended_channels ds = ∅) ∧
  (channel_id_factory ds ≤ u32_modulus → ∀ c,
     (standard_channels ds !! c = None ∨ extended_channels ds !! c = None) ∧
     (is_Some (standard_channels ds !! c) ∨ is_Some (extended_channels ds !! c) →
        c ≠ grp_id (group_channel ds)) ∧
     (grp_has_channel_id (group_channel ds) c = true ↔ grouped ds c)).
Proof.
  intros Ha Hs Ec Hd. pose proof (pool_reach_ok _ _ _ Ha Hs) as Hpool.
  unfold PoolInv.pool_ok in Hpool. rewrite Ec in Hpool.
  pose proof (ok_downstreams _ _ _ _ Hpool _ _ Hd) as Hok. split_and!.
  - split.
    + intros E. split; apply empty_of_none; intros x [ch Hch].
      * destruct (ok_std_paid _ _ _ Hok _ _ Hch) as (? & ? & ? & _). congruence.
      * destruct (ok_ext_paid _ _ _ Hok _ _ Hch) as (? & ? & ? & _). congruence.
    + intros [E1 E2]. destruct (payout_mode ds) as [mode|] eqn:Em; [|done].
      destruct (ok_mode _ _ _ Hok _ Em) as [_ [c Hc]]. rewrite E1, E2, !lookup_empty in Hc.
      by destruct Hc as [[]|[]].
  - intros c Hc. by eapply (ok_vardiff _ _ _ _ Hpool).
  - apply (ok_custom _ _ _ Hok).
  - apply (ok_std_jobs _ _ _ Hok).
  - intros Hle c. split_and!.
    + by apply (ok_disjoint _ _ _ Hok).
    + intros Hc. rewrite (ok_group_id _ _ _ Hok). pose proof (ok_ids _ _ _ Hok c Hle Hc). lia.
    + by apply (ok_group _ _ _ Hok).
Qed.
End guarantees.
End runs.
