(* ===== verification/PoolBroadcast.v ===== *)
(** * Pool: templates and previous hashes

    What a successful broadcast of a template or of a previous hash does to
    every connection and every channel, and what it announces to whom. *)
From S2P Require Import Prelude Handler SharedMap Bitcoin JobValidation ValidationEngine JobDeclarator Payout Setup ShareCache ServerChannels Pool PoolInv.

Section broadcast.
Context `{BitcoinApi} `{VE : JobValidationEngine} {AA : AddressApi} {SC : ServerChannels}.
Context (configured_outputs script : list byte).

(** ** Sending *)

(** Which messages reach somebody. *)
Definition deliverable (io : ChannelManagerIo) (m : RouteMessageTo) : bool :=
  match m with
  | ToDownstream d _ => bool_decide (d ∈ downstream_sender io) && bool_decide (d ∉ closed io)
  | TemplateProvider _ => tp_open io
  end.

Definition delivered (io : ChannelManagerIo) (messages : list RouteMessageTo) : ChannelManagerIo :=
  {| tp_open := tp_open io; downstream_sender := downstream_sender io; closed := closed io;
     sent := sent io ++ filter (λ m, deliverable io m = true) messages |}.

Lemma forward_delivered io m : (forward m io).2 = delivered io [m].
Proof.
  unfold forward, delivered, deliverable. rewrite filter_cons, filter_nil.
  destruct io as [tp senders gone out]; simpl. destruct m as [m|d m]; simpl.
  - destruct tp; [done|]. by rewrite app_nil_r.
  - case_decide as Hs; [rewrite (bool_decide_eq_true_2 _ Hs)|rewrite (bool_decide_eq_false_2 _ Hs)];
      simpl; [|by rewrite app_nil_r].
    case_decide as Hc; [rewrite bool_decide_eq_false_2 by auto|rewrite bool_decide_eq_true_2 by done];
      simpl; [by rewrite app_nil_r|done].
Qed.

Lemma delivered_app io l1 l2 : delivered (delivered io l1) l2 = delivered io (l1 ++ l2).
Proof. unfold delivered. simpl. by rewrite filter_app, app_assoc. Qed.

Lemma forward_all_sends messages s :
  forward_all messages s = Done (Ok tt, put_io (delivered (channel_manager_io s) messages) s).
Proof.
  revert s. unfold forward_all. induction messages as [|m ms IH]; intros s; simpl.
  - unfold delivered. rewrite filter_nil, app_nil_r. destruct s as [??????[] ?]; done.
  - unfold mbind, prog_bind, update. rewrite IH, forward_delivered. simpl. by rewrite delivered_app.
Qed.

(** ** A new template *)
Definition grp_template_job (msg : NewTemplate) (g : GroupChannel) : option ExtJob :=
  if future_template msg
  then grp_get_future_job_id_from_template_id g (template_id msg) ≫= grp_get_future_job g
  else grp_get_active_job g.
Definition std_template_job (msg : NewTemplate) (c : StdChannel) : option StdJob :=
  if future_template msg
  then std_get_future_job_id_from_template_id c (template_id msg) ≫= std_get_future_job c
  else std_get_active_job c.

(** The connection took the template, announcing [out]. *)
Record template_applied (msg : NewTemplate) (outputs : list TxOut) (d : N) (channels : list N)
    (ds ds' : Downstream) (out : list RouteMessageTo) : Prop := {
  ta_frame : ds' = put_ext (extended_channels ds') (put_std (standard_channels ds')
                     (put_group (group_channel ds') ds));
  ta_group : grp_on_new_template (group_channel ds) msg outputs = (Ok tt, group_channel ds');
  ta_job : ∃ job, grp_template_job msg (group_channel ds') = Some job ∧
    (∀ c ch, extended_channels ds !! c = Some ch → ∃ ch',
       extended_channels ds' !! c = Some ch' ∧ ext_on_group_channel_job ch job = (Ok tt, ch')) ∧
    (∀ c ch, standard_channels ds !! c = Some ch → ∃ ch',
       standard_channels ds' !! c = Some ch' ∧
       if requires_standard_jobs ds then std_on_new_template ch msg outputs = (Ok tt, ch')
       else std_on_group_channel_job ch job = (Ok tt, ch')) ∧
    out = if requires_standard_jobs ds
          then concat (map (λ c, match standard_channels ds' !! c ≫= std_template_job msg with
                                 | Some j => [ToDownstream d (MsgNewMiningJob (std_job_message j))]
                                 | None => []
                                 end) channels)
          else if grp_is_empty (group_channel ds') then []
          else [ToDownstream d (MsgNewExtendedMiningJob (ext_job_message job))];
}.

Lemma group_job_inv d msg outputs ds job m ds' :
  group_job d msg outputs ds = Done (Ok (job, m), ds') →
  ∃ g, grp_on_new_template (group_channel ds) msg outputs = (Ok tt, g) ∧ ds' = put_group g ds ∧
    grp_template_job msg g = Some job ∧
    m = if negb (requires_standard_jobs ds) && negb (grp_is_empty g)
        then [ToDownstream d (MsgNewExtendedMiningJob (ext_job_message job))] else [].
Proof.
  unfold group_job, grp_template_job. intros Hrun.
  apply bind_inv in Hrun as (r & s1 & Er & Hrun). unfold transact in Er.
  destruct (grp_on_new_template _ _ _) as [r' g]. injection Er as -> <-.
  apply bind_inv in Hrun as ([] & s2 & Er & Hrun). apply ok_or_raise_inv in Er as [-> ->].
  apply bind_inv in Hrun as (ds1 & s2 & Er & Hrun). injection Er as <- <-.
  apply bind_inv in Hrun as (job' & s2 & Er & Hrun). injection Hrun as -> <- <-.
  exists g. split; [done|]. simpl in Er. destruct (future_template msg).
  - apply bind_inv in Er as (i & s3 & Ei & Er).
    apply some_or_inv in Ei as [-> ->]. simpl. by apply some_or_inv in Er as [-> ->].
  - by apply some_or_inv in Er as [-> ->].
Qed.

Lemma standard_job_inv d msg outputs own group ch out ch' :
  standard_job d msg outputs own group ch = Done (Ok out, ch') →
  if own then std_on_new_template ch msg outputs = (Ok tt, ch') ∧
              ∃ j, std_template_job msg ch' = Some j ∧
                   out = [ToDownstream d (MsgNewMiningJob (std_job_message j))]
  else std_on_group_channel_job ch group = (Ok tt, ch') ∧ out = [].
Proof.
  unfold standard_job, std_template_job. destruct own; simpl; intros Hrun;
    apply bind_inv in Hrun as (r & s1 & Er & Hrun); unfold transact in Er.
  - destruct (std_on_new_template _ _ _) as [r' c1]. injection Er as -> <-.
    apply bind_inv in Hrun as ([] & s2 & Er & Hrun). apply ok_or_raise_inv in Er as [-> ->].
    apply bind_inv in Hrun as (c2 & s2 & Er & Hrun). injection Er as <- <-.
    apply bind_inv in Hrun as (job & s2 & Er & Hrun). injection Hrun as <- <-.
    destruct (future_template msg).
    + apply bind_inv in Er as (i & s3 & Ei & Er).
      apply some_or_crash_inv in Ei as [Ei ->]. apply some_or_crash_inv in Er as [Ej ->].
      split; [done|]. exists job. by rewrite Ei.
    + apply some_or_crash_inv in Er as [Ej ->]. split; [done|]. by exists job.
  - destruct (std_on_group_channel_job _ _) as [r' c1]. injection Er as -> <-.
    apply bind_inv in Hrun as ([] & s2 & Er & Hrun). apply ok_or_raise_inv in Er as [-> ->].
    by injection Hrun as <- <-.
Qed.

Lemma extended_job_inv group ch out ch' :
  extended_job group ch = Done (Ok out, ch') →
  ext_on_group_channel_job ch group = (Ok tt, ch') ∧ out = [].
Proof.
  unfold extended_job. intros Hrun.
  apply bind_inv in Hrun as (r & s1 & Er & Hrun). unfold transact in Er.
  destruct (ext_on_group_channel_job _ _) as [r' c1]. injection Er as -> <-.
  apply bind_inv in Hrun as ([] & s2 & Er & Hrun). apply ok_or_raise_inv in Er as [-> ->].
  by injection Hrun as <- <-.
Qed.

Lemma put_std_laws :
  (∀ m s, standard_channels (put_std m s) = m) ∧
  (∀ m m' s, put_std m (put_std m' s) = put_std m s) ∧
  (∀ s, put_std (standard_channels s) s = s).
Proof. split_and!; [done..|]. by intros []. Qed.
Lemma put_ext_laws :
  (∀ m s, extended_channels (put_ext m s) = m) ∧
  (∀ m m' s, put_ext m (put_ext m' s) = put_ext m s) ∧
  (∀ s, put_ext (extended_channels s) s = s).
Proof. split_and!; [done..|]. by intros []. Qed.
Lemma put_downstreams_laws :
  (∀ m s, downstreams (put_downstreams m s) = m) ∧
  (∀ m m' s, put_downstreams m (put_downstreams m' s) = put_downstreams m s) ∧
  (∀ s, put_downstreams (downstreams s) s = s).
Proof. split_and!; [done..|]. by intros []. Qed.

(** The loops over the channels of a connection. *)
Lemma collect_std order (p : N → prog StdChannel PoolError (list RouteMessageTo)) ds out ds' :
  NoDup order → (∀ c, is_Some (standard_channels ds !! c) → c ∈ order) →
  collect order (λ c, focus standard_channels put_std c (mret []) (p c)) ds = Done (Ok out, ds') →
  ds' = put_std (standard_channels ds') ds ∧
  (∀ c, standard_channels ds !! c = None → standard_channels ds' !! c = None) ∧
  (∀ c ch, standard_channels ds !! c = Some ch → ∃ o ch', p c ch = Done (Ok o, ch') ∧
     standard_channels ds' !! c = Some ch') ∧
  out = concat (map (λ c, match standard_channels ds !! c with
                          | Some v => match p c v with Done (Ok o, _) => o | _ => [] end
                          | None => []
                          end) order).
Proof.
  intros Hnd Hcov Hrun. destruct put_std_laws as (L1 & L2 & L3).
  apply collect_focus in Hrun as (Hs & _ & Hnone & Hin & Hout); [|done..].
  split_and!; [done|done| |done]. intros c ch Hc. apply Hin; [|done]. apply Hcov. by eexists.
Qed.
Lemma collect_ext order (p : N → prog ExtChannel PoolError (list RouteMessageTo)) ds out ds' :
  NoDup order → (∀ c, is_Some (extended_channels ds !! c) → c ∈ order) →
  collect order (λ c, focus extended_channels put_ext c (mret []) (p c)) ds = Done (Ok out, ds') →
  ds' = put_ext (extended_channels ds') ds ∧
  (∀ c ch, extended_channels ds !! c = Some ch → ∃ o ch', p c ch = Done (Ok o, ch') ∧
     extended_channels ds' !! c = Some ch').
Proof.
  intros Hnd Hcov Hrun. destruct put_ext_laws as (L1 & L2 & L3).
  apply collect_focus in Hrun as (Hs & _ & _ & Hin & _); [|done..].
  split; [done|]. intros c ch Hc. apply Hin; [|done]. apply Hcov. by eexists.
Qed.

(** Every channel is on the list its connection is iterated by. *)
Definition covers (channels : list N) (ds : Downstream) : Prop :=
  NoDup channels ∧
  ∀ c, is_Some (standard_channels ds !! c) ∨ is_Some (extended_channels ds !! c) → c ∈ channels.

Lemma template_round_inv channels msg default d ds out ds' :
  covers (channels d) ds →
  template_round script channels msg default d ds = Done (Ok out, ds') →
  if requires_custom_work ds then ds' = ds ∧ out = []
  else template_applied msg (downstream_coinbase_outputs script (coinbase_tx_value_remaining msg)
         default ds) d (channels d) ds ds' out.
Proof.
  intros [Hnd Hcov] Hrun. unfold template_round in Hrun.
  apply bind_inv in Hrun as (ds0 & s1 & Er & Hrun). injection Er as <- <-.
  destruct (requires_custom_work ds); [by injection Hrun as <- <-|].
  set (outputs := downstream_coinbase_outputs _ _ _ _) in *.
  apply bind_inv in Hrun as ([job m] & s1 & Er & Hrun).
  apply group_job_inv in Er as (g & Eg & -> & Ejob & ->).
  apply bind_inv in Hrun as (more & s2 & Estd & Hrun).
  apply collect_std in Estd as (E2 & Hnone & Hstd & Emore); [|done|simpl; by auto].
  apply bind_inv in Hrun as (unused & s3 & Eext & Hrun). injection Hrun as <- <-.
  apply collect_ext in Eext as (E3 & Hext); [|done|rewrite E2; simpl; by auto].
  assert (standard_channels s3 = standard_channels s2) as Es by (by rewrite E3).
  assert (group_channel s3 = g) as Egrp by (by rewrite E3, E2).
  rewrite E2 in Hext. simpl in Hext, Hstd, Hnone, Emore.
  split; rewrite ?Egrp, ?Es.
  - rewrite E3 at 1. rewrite E2 at 1. by destruct ds.
  - done.
  - exists job. split_and!; [done|..].
    + intros c ch Hc. destruct (Hext c ch Hc) as (o & ch' & Ep & Hch').
      apply extended_job_inv in Ep as [Ep _]. by exists ch'.
    + intros c ch Hc. destruct (Hstd c ch Hc) as (o & ch' & Ep & Hch').
      apply standard_job_inv in Ep. exists ch'. split; [done|].
      by destruct (requires_standard_jobs ds); destruct Ep.
    + rewrite Emore. destruct (requires_standard_jobs ds) eqn:Esj; simpl.
      * f_equal. apply map_ext. intros c.
        destruct (standard_channels ds !! c) as [ch|] eqn:Ec; [|by rewrite (Hnone _ Ec)].
        destruct (Hstd c ch Ec) as (o & ch' & Ep & ->). rewrite Ep.
        apply standard_job_inv in Ep as (_ & j & Ej & ->). simpl. by rewrite Ej.
      * replace (concat _) with (@nil RouteMessageTo); [by destruct (grp_is_empty g)|].
        symmetry. apply concat_nil_Forall, Forall_map, Forall_forall. intros c _.
        destruct (standard_channels ds !! c) as [ch|] eqn:Ec; [|done].
        destruct (Hstd c ch Ec) as (o & ch' & Ep & _). rewrite Ep.
        by apply standard_job_inv in Ep as [_ ->].
Qed.

(** The loop over the connections. *)
Lemma collect_connections order (p : N → guarded (list RouteMessageTo)) s out s' :
  NoDup order → (∀ d, is_Some (downstreams s !! d) → d ∈ order) →
  collect order (λ d, focus downstreams put_downstreams d (mret []) (p d)) s = Done (Ok out, s') →
  s' = put_downstreams (downstreams s') s ∧
  (∀ d, downstreams s !! d = None → downstreams s' !! d = None) ∧
  (∀ d ds, downstreams s !! d = Some ds → ∃ o ds', p d ds = Done (Ok o, ds') ∧
     downstreams s' !! d = Some ds') ∧
  out = concat (map (λ d, match downstreams s !! d with
                          | Some v => match p d v with Done (Ok o, _) => o | _ => [] end
                          | None => []
                          end) order).
Proof.
  intros Hnd Hcov Hrun. destruct put_downstreams_laws as (L1 & L2 & L3).
  apply collect_focus in Hrun as (Hs & _ & Hnone & Hin & Hout); [|done..].
  split_and!; [done|done| |done]. intros c ch Hc. apply Hin; [|done]. apply Hcov. by eexists.
Qed.

(** What the connections announce, in the order of the iteration. *)
Definition announced (order : list N) (out : N → list RouteMessageTo) : list RouteMessageTo :=
  concat (map out order).

(** C25: a template that is accepted reaches every connection that does not
    bring its own work: the group and, through it or by themselves, all its
    channels take the job that pays the connection's outputs, and exactly the
    jobs taken are announced; the other connections see nothing. *)
Theorem new_template_broadcast order channels msg s s' :
  NoDup order → (∀ d, is_Some (downstreams s !! d) → d ∈ order) →
  (∀ d ds, downstreams s !! d = Some ds → covers (channels d) ds) →
  handle_new_template configured_outputs script order channels msg s = Done (Ok tt, s') →
  ∃ default out, default_outputs configured_outputs (coinbase_tx_value_remaining msg) = Some default ∧
    (future_template msg = true → last_future_template s' = Some msg) ∧
    channel_manager_io s' = delivered (channel_manager_io s) (announced order out) ∧
    ∀ d ds, downstreams s !! d = Some ds → ∃ ds', downstreams s' !! d = Some ds' ∧
      if requires_custom_work ds then ds' = ds ∧ out d = []
      else template_applied msg
             (downstream_coinbase_outputs script (coinbase_tx_value_remaining msg) default ds)
             d (channels d) ds ds' (out d).
Proof.
  intros Hnd Hcov Hch Hrun. unfold handle_new_template in Hrun.
  apply bind_inv in Hrun as ([] & s1 & Et & Hrun).
  apply bind_inv in Hrun as (default & s2 & Ed & Hrun). apply some_or_crash_inv in Ed as [Ed ->].
  apply bind_inv in Hrun as (messages & s3 & Ec & Hrun).
  rewrite forward_all_sends in Hrun. injection Hrun as <-.
  assert (downstreams s1 = downstreams s ∧ channel_manager_io s1 = channel_manager_io s ∧
          (future_template msg = true → last_future_template s1 = Some msg)) as (E1 & E2 & E3).
  { destruct (future_template msg); injection Et as <-; done. }
  rewrite <-E1 in Hcov, Hch.
  apply collect_connections in Ec as (E4 & _ & Hds & Em); [|done..].
  eexists default, _. split; [done|]. split_and!; [|..].
  - intros Hf. simpl. rewrite E4. simpl. by apply E3.
  - simpl. rewrite E4, <-E2, Em. simpl. reflexivity.
  - simpl. intros d ds Hd. rewrite <-E1 in Hd. destruct (Hds d ds Hd) as (o & ds' & Ep & Hd').
    exists ds'. split; [done|]. rewrite Hd, Ep.
    apply template_round_inv in Ep; [done|]. by apply Hch.
Qed.

(** ** A new previous hash *)
Record prev_hash_applied (ph : SetNewPrevHash) (d : N) (channels : list N)
    (ds ds' : Downstream) (out : list RouteMessageTo) : Prop := {
  pa_frame : ds' = put_ext (extended_channels ds') (put_std (standard_channels ds')
                     (put_group (group_channel ds') ds));
  pa_group : grp_on_set_new_prev_hash (group_channel ds) ph = (Ok tt, group_channel ds');
  pa_ext c ch : extended_channels ds !! c = Some ch → ∃ ch',
    extended_channels ds' !! c = Some ch' ∧ ext_on_set_new_prev_hash ch ph = (Ok tt, ch');
  pa_std c ch : standard_channels ds !! c = Some ch → ∃ ch',
    standard_channels ds' !! c = Some ch' ∧ std_on_set_new_prev_hash ch ph = (Ok tt, ch');
  pa_out : out =
    if requires_standard_jobs ds
    then concat (map (λ c, match standard_channels ds' !! c ≫= std_get_active_job with
                           | Some j => [ToDownstream d (prev_hash_message c (std_job_id j) ph)]
                           | None => []
                           end) channels)
    else if grp_is_empty (group_channel ds') then []
    else match grp_get_active_job (group_channel ds') with
         | Some j => [ToDownstream d (prev_hash_message (grp_id (group_channel ds'))
                                        (ext_job_id j) ph)]
         | None => []
         end;
}.

Lemma prev_hash_standard_inv d c ph own ch out ch' :
  prev_hash_standard d c ph own ch = Done (Ok out, ch') →
  std_on_set_new_prev_hash ch ph = (Ok tt, ch') ∧
  if own then ∃ j, std_get_active_job ch' = Some j ∧
                   out = [ToDownstream d (prev_hash_message c (std_job_id j) ph)]
  else out = [].
Proof.
  unfold prev_hash_standard. intros Hrun.
  apply bind_inv in Hrun as (r & s1 & Er & Hrun). unfold transact in Er.
  destruct (std_on_set_new_prev_hash _ _) as [r' c1]. injection Er as -> <-.
  apply bind_inv in Hrun as ([] & s2 & Er & Hrun). apply ok_or_raise_inv in Er as [-> ->].
  destruct own; [|by injection Hrun as <- <-].
  apply bind_inv in Hrun as (c2 & s2 & Er & Hrun). injection Er as <- <-.
  apply bind_inv in Hrun as (j & s2 & Ej & Hrun). injection Hrun as <- <-.
  apply some_or_inv in Ej as [Ej ->]. split; [done|]. by exists j.
Qed.

Lemma prev_hash_round_inv channels ph d ds out ds' :
  covers (channels d) ds → prev_hash_round channels ph d ds = Done (Ok out, ds') →
  if requires_custom_work ds then ds' = ds ∧ out = []
  else prev_hash_applied ph d (channels d) ds ds' out.
Proof.
  intros [Hnd Hcov] Hrun. unfold prev_hash_round in Hrun.
  apply bind_inv in Hrun as (ds0 & s1 & Er & Hrun). injection Er as <- <-.
  destruct (requires_custom_work ds); [by injection Hrun as <- <-|].
  apply bind_inv in Hrun as (r & s1 & Er & Hrun). unfold transact in Er.
  destruct (grp_on_set_new_prev_hash _ _) as [r' g] eqn:Eg. injection Er as -> <-.
  apply bind_inv in Hrun as ([] & s2 & Er & Hrun). apply ok_or_raise_inv in Er as [-> ->].
  apply bind_inv in Hrun as (g' & s2 & Er & Hrun). injection Er as <- <-.
  apply bind_inv in Hrun as (m & s2 & Em & Hrun).
  apply bind_inv in Hrun as (unused & s3 & Eext & Hrun).
  apply bind_inv in Hrun as (more & s4 & Estd & Hrun). injection Hrun as <- <-.
  assert (s2 = put_group g ds ∧
    (requires_standard_jobs ds = false → m = if grp_is_empty g then [] else
       match grp_get_active_job g with
       | Some j => [ToDownstream d (prev_hash_message (grp_id g) (ext_job_id j) ph)]
       | None => []
       end) ∧ (requires_standard_jobs ds = true → m = [])) as (-> & Hm1 & Hm2).
  { simpl in Em. destruct (requires_standard_jobs ds), (grp_is_empty g); simpl in Em;
      try by injection Em as <- <-.
    apply bind_inv in Em as (j & s5 & Ej & Em). injection Em as <- <-.
    apply some_or_crash_inv in Ej as [-> ->]. done. }
  apply collect_ext in Eext as (E3 & Hext); [|done|simpl; by auto].
  apply collect_std in Estd as (E4 & Hnone & Hstd & Emore); [|done|rewrite E3; simpl; by auto].
  assert (extended_channels s4 = extended_channels s3) as Ee by (by rewrite E4).
  assert (group_channel s4 = g) as Egrp by (by rewrite E4, E3).
  rewrite E3 in Hstd, Hnone, Emore. simpl in Hext, Hstd, Hnone, Emore.
  split; rewrite ?Egrp, ?Ee.
  - rewrite E4 at 1. rewrite E3 at 1. by destruct ds.
  - done.
  - intros c ch Hc. destruct (Hext c ch Hc) as (o & ch' & Ep & Hch'). exists ch'.
    split; [done|]. unfold prev_hash_extended in Ep.
    apply bind_inv in Ep as (r & t1 & Er & Ep). unfold transact in Er.
    destruct (ext_on_set_new_prev_hash _ _) as [r' c1]. injection Er as -> <-.
    apply bind_inv in Ep as ([] & t2 & Er & Ep). apply ok_or_raise_inv in Er as [-> ->].
    by injection Ep as _ <-.
  - intros c ch Hc. destruct (Hstd c ch Hc) as (o & ch' & Ep & Hch').
    apply prev_hash_standard_inv in Ep as [Ep _]. by exists ch'.
  - rewrite Emore. destruct (requires_standard_jobs ds) eqn:Esj.
    + rewrite Hm2 by done. simpl. f_equal. apply map_ext. intros c.
      destruct (standard_channels ds !! c) as [ch|] eqn:Ec; [|by rewrite (Hnone _ Ec)].
      destruct (Hstd c ch Ec) as (o & ch' & Ep & ->). rewrite Ep.
      apply prev_hash_standard_inv in Ep as (_ & j & Ej & ->). simpl. by rewrite Ej.
    + rewrite Hm1 by done. replace (concat _) with (@nil RouteMessageTo); [by rewrite app_nil_r|].
      symmetry. apply concat_nil_Forall, Forall_map, Forall_forall. intros c _.
      destruct (standard_channels ds !! c) as [ch|] eqn:Ec; [|done].
      destruct (Hstd c ch Ec) as (o & ch' & Ep & _). rewrite Ep.
      by apply prev_hash_standard_inv in Ep as [_ ->].
Qed.

(** A previous hash that is accepted reaches the group and every channel of
    each connection that does not bring its own work, and activates exactly
    the job each of them then works on. *)
Theorem prev_hash_broadcast order channels ph s s' :
  NoDup order → (∀ d, is_Some (downstreams s !! d) → d ∈ order) →
  (∀ d ds, downstreams s !! d = Some ds → covers (channels d) ds) →
  handle_set_new_prev_hash order channels ph s = Done (Ok tt, s') →
  last_new_prev_hash s' = Some ph ∧
  ∃ out, channel_manager_io s' = delivered (channel_manager_io s) (announced order out) ∧
    ∀ d ds, downstreams s !! d = Some ds → ∃ ds', downstreams s' !! d = Some ds' ∧
      if requires_custom_work ds then ds' = ds ∧ out d = []
      else prev_hash_applied ph d (channels d) ds ds' (out d).
Proof.
  intros Hnd Hcov Hch Hrun. unfold handle_set_new_prev_hash in Hrun.
  apply bind_inv in Hrun as ([] & s1 & Et & Hrun). injection Et as <-.
  apply bind_inv in Hrun as (messages & s3 & Ec & Hrun).
  rewrite forward_all_sends in Hrun. injection Hrun as <-.
  apply collect_connections in Ec as (E4 & _ & Hds & Em); [|done..].
  split; [by rewrite E4|]. eexists. split; [rewrite E4 at 1; simpl; rewrite Em; simpl; reflexivity|].
  simpl. intros d ds Hd. destruct (Hds d ds Hd) as (o & ds' & Ep & Hd').
  exists ds'. split; [done|]. rewrite Hd, Ep.
  apply prev_hash_round_inv in Ep; [done|]. by apply Hch.
Qed.
End broadcast.
