(* ===== verification/PoolAnswers.v ===== *)
(** * Pool: answers to the miners

    Shares, channel updates, custom jobs and opened channels: what the miner
    and the template provider are told, and why. *)
From S2P Require Import Prelude Handler SharedMap Bitcoin TokenManager JobValidation ValidationEngine JobDeclarator Payout Setup ShareCache ServerChannels Pool PoolInv PoolBroadcast.

Section answers.
Context `{BitcoinApi} `{VE : JobValidationEngine} {AA : AddressApi} {SC : ServerChannels}.

(** ** Shares *)
Definition unknown_channel (d c seq : N) : RouteMessageTo :=
  ToDownstream d (SubmitSharesError c seq ERROR_CODE_SUBMIT_SHARES_INVALID_CHANNEL_ID).

Definition send (messages : list RouteMessageTo) (s : ChannelManager) : ChannelManager :=
  put_io (delivered (channel_manager_io s) messages) s.

(** The manager after the share was judged on its channel. *)
Definition judged (d c : N) (ds' : Downstream) (s : ChannelManager) : ChannelManager :=
  put_vardiff (SharedMap.with_mut (vardiff s) (d, c)
                 (λ v, (tt, increment_shares_since_last_update v))).2
    (put_downstreams (<[d := ds']> (downstreams s)) s).

Lemma wp_read_id d s :
  registered d s = match downstreams s !! d with
                   | Some ds => Done (Ok ds, s)
                   | None => Done (Err (disconnect (DownstreamNotFound d) d), s)
                   end.
Proof.
  unfold registered, with_registered_downstream, focus. destruct (downstreams s !! d) as [ds|] eqn:Ed;
    [|done]. simpl. unfold ask. rewrite insert_id by done. by destruct s.
Qed.

Lemma forward_all_send messages s : forward_all messages s = Done (Ok tt, send messages s).
Proof. apply forward_all_sends. Qed.

(** The frame around a judgement. *)
Lemma submit_share_eq d c seq present judge s :
  submit_share d c seq present judge s =
  match downstreams s !! d with
  | None => Done (Err (disconnect (DownstreamNotFound d) d), s)
  | Some ds =>
      if negb (present ds) then Done (Ok tt, send [unknown_channel d c seq] s)
      else if negb (SharedMap.contains_key (vardiff s) (d, c)) then
        Done (Ok tt, send [ToDownstream d
          (CloseChannel c ERROR_CODE_SUBMIT_SHARES_INVALID_CHANNEL_ID)] s)
      else match judge ds with
           | Panic => Panic
           | Done (Err e, ds') => Done (Err e, put_downstreams (<[d := ds']> (downstreams s)) s)
           | Done (Ok None, ds') =>
               Done (Ok tt, send [unknown_channel d c seq]
                              (put_downstreams (<[d := ds']> (downstreams s)) s))
           | Done (Ok (Some (Err e)), ds') => Done (Err e, judged d c ds' s)
           | Done (Ok (Some (Ok ms)), ds') => Done (Ok tt, send ms (judged d c ds' s))
           end
  end.
Proof.
  unfold submit_share, mbind at 1, prog_bind at 1. rewrite wp_read_id.
  destruct (downstreams s !! d) as [ds|] eqn:Ed; [|done].
  destruct (present ds); simpl; [|apply forward_all_send].
  unfold mbind, prog_bind, ask. destruct (SharedMap.contains_key _ _); simpl;
    [|apply forward_all_send].
  unfold with_registered_downstream, focus. rewrite Ed.
  destruct (judge ds) as [[[[[ms|e]|]|e] ds']|]; simpl; try done; apply forward_all_send.
Qed.

Lemma standard_share_eq d msg s :
  handle_submit_shares_standard d msg s =
  let c := sss_channel_id msg in let seq := sss_sequence_number msg in
  match downstreams s !! d with
  | None => Done (Err (disconnect (DownstreamNotFound d) d), s)
  | Some ds =>
      match standard_channels ds !! c with
      | None => Done (Ok tt, send [unknown_channel d c seq] s)
      | Some ch =>
          if negb (SharedMap.contains_key (vardiff s) (d, c)) then
            Done (Ok tt, send [ToDownstream d
              (CloseChannel c ERROR_CODE_SUBMIT_SHARES_INVALID_CHANNEL_ID)] s)
          else
            let '(verdict, ch') := std_validate_share ch msg in
            let s' := judged d c (put_std (<[c := ch']> (standard_channels ds)) ds) s in
            match answer_share std_error_code d c seq (sss_version msg) (sss_ntime msg)
                    (sss_nonce msg) verdict (std_share_accounting ch') with
            | Ok ms => Done (Ok tt, send ms s')
            | Err e => Done (Err e, s')
            end
      end
  end.
Proof.
  unfold handle_submit_shares_standard. rewrite submit_share_eq. cbv zeta.
  destruct (downstreams s !! d) as [ds|]; [|done]. unfold SharedMap.contains_key at 1.
  destruct (standard_channels ds !! sss_channel_id msg) as [ch|] eqn:Ec.
  2: { rewrite bool_decide_eq_false_2; [done|]. by intros []. }
  rewrite bool_decide_eq_true_2 by by eexists. simpl.
  destruct (negb _); [done|]. unfold judge_standard, focus. rewrite Ec.
  unfold mbind, prog_bind, transact, ask. destruct (std_validate_share ch msg) as [verdict ch'].
  unfold mret, prog_ret. by destruct (answer_share _ _ _ _ _ _ _ _ _).
Qed.

Lemma extended_share_eq d msg s :
  handle_submit_shares_extended d msg s =
  let c := sse_channel_id msg in let seq := sequence_number msg in
  match downstreams s !! d with
  | None => Done (Err (disconnect (DownstreamNotFound d) d), s)
  | Some ds =>
      match extended_channels ds !! c with
      | None => Done (Ok tt, send [unknown_channel d c seq] s)
      | Some ch =>
          if negb (SharedMap.contains_key (vardiff s) (d, c)) then
            Done (Ok tt, send [ToDownstream d
              (CloseChannel c ERROR_CODE_SUBMIT_SHARES_INVALID_CHANNEL_ID)] s)
          else
            let '(verdict, ch') := ext_validate_share ch msg in
            let s' := judged d c (put_ext (<[c := ch']> (extended_channels ds)) ds) s in
            match answer_share ext_error_code d c seq (sse_version msg) (ntime msg)
                    (nonce msg) verdict (ext_share_accounting ch') with
            | Ok ms => Done (Ok tt, send ms s')
            | Err e => Done (Err e, s')
            end
      end
  end.
Proof.
  unfold handle_submit_shares_extended. rewrite submit_share_eq. cbv zeta.
  destruct (downstreams s !! d) as [ds|]; [|done]. unfold SharedMap.contains_key at 1.
  destruct (extended_channels ds !! sse_channel_id msg) as [ch|] eqn:Ec.
  2: { rewrite bool_decide_eq_false_2; [done|]. by intros []. }
  rewrite bool_decide_eq_true_2 by by eexists. simpl.
  destruct (negb _); [done|]. unfold judge_extended, focus. rewrite Ec.
  unfold mbind, prog_bind, transact, ask. destruct (ext_validate_share ch msg) as [verdict ch'].
  unfold mret, prog_ret. by destruct (answer_share _ _ _ _ _ _ _ _ _).
Qed.

(** The channel's judgement of a share, when it gets that far, and its
    accounting afterwards. *)
Definition std_judgement (d : N) (msg : SubmitSharesStandard) (s : ChannelManager)
    : option (DownVerdict * ShareAccounting) :=
  ds ← downstreams s !! d;
  ch ← standard_channels ds !! sss_channel_id msg;
  guard (is_Some (vardiff s !! (d, sss_channel_id msg)));;
  Some ((std_validate_share ch msg).1, std_share_accounting (std_validate_share ch msg).2).
Definition ext_judgement (d : N) (msg : SubmitSharesExtended) (s : ChannelManager)
    : option (DownVerdict * ShareAccounting) :=
  ds ← downstreams s !! d;
  ch ← extended_channels ds !! sse_channel_id msg;
  guard (is_Some (vardiff s !! (d, sse_channel_id msg)));;
  Some ((ext_validate_share ch msg).1, ext_share_accounting (ext_validate_share ch msg).2).

Lemma std_judgement_eq d msg s ds ch :
  downstreams s !! d = Some ds → standard_channels ds !! sss_channel_id msg = Some ch →
  is_Some (vardiff s !! (d, sss_channel_id msg)) →
  std_judgement d msg s =
    Some ((std_validate_share ch msg).1, std_share_accounting (std_validate_share ch msg).2).
Proof.
  intros Hd Hc Hv. unfold std_judgement. rewrite Hd. simpl. rewrite Hc. simpl.
  by rewrite option_guard_True by done.
Qed.

(** What the handler sends, in terms of the judgement. *)
Definition share_outcome (error_code : ShareValidationError → option string)
    (judgement : option (DownVerdict * ShareAccounting))
    (d channel_id seq version ntime nonce : N) (r : result unit PoolError)
    (ms : list RouteMessageTo) : Prop :=
  match judgement with
  | None => ms = [] ∨ ms = [unknown_channel d channel_id seq] ∨
            ms = [ToDownstream d (CloseChannel channel_id
                    ERROR_CODE_SUBMIT_SHARES_INVALID_CHANNEL_ID)]
  | Some (verdict, a) =>
      match answer_share error_code d channel_id seq version ntime nonce verdict a with
      | Ok answer => r = Ok tt ∧ ms = answer
      | Err e => r = Err e ∧ ms = []
      end
  end.

Lemma delivered_nil io : delivered io [] = io.
Proof. unfold delivered. rewrite filter_nil, app_nil_r. by destruct io. Qed.

Lemma standard_share_outcome d msg s r s' :
  handle_submit_shares_standard d msg s = Done (r, s') →
  ∃ ms, channel_manager_io s' = delivered (channel_manager_io s) ms ∧
    share_outcome std_error_code (std_judgement d msg s) d (sss_channel_id msg)
      (sss_sequence_number msg) (sss_version msg) (sss_ntime msg) (sss_nonce msg) r ms.
Proof.
  rewrite standard_share_eq. cbv zeta. unfold share_outcome, std_judgement.
  destruct (downstreams s !! d) as [ds|]; simpl.
  2: { intros [= <- <-]. exists []. rewrite delivered_nil. auto. }
  destruct (standard_channels ds !! _) as [ch|]; simpl.
  2: { intros [= <- <-]. eexists. split; [reflexivity|]. auto. }
  unfold SharedMap.contains_key. case_bool_decide as Hv; simpl.
  2: { intros [= <- <-]. rewrite option_guard_False by done. simpl. eexists.
       split; [reflexivity|]. auto. }
  rewrite option_guard_True by done. destruct (std_validate_share ch msg) as [v ch']. simpl.
  destruct (answer_share _ _ _ _ _ _ _ _ _) as [ms|e]; intros [= <- <-];
    eexists; (split; [|done]); [done|]. by rewrite delivered_nil.
Qed.

Lemma extended_share_outcome d msg s r s' :
  handle_submit_shares_extended d msg s = Done (r, s') →
  ∃ ms, channel_manager_io s' = delivered (channel_manager_io s) ms ∧
    share_outcome ext_error_code (ext_judgement d msg s) d (sse_channel_id msg)
      (sequence_number msg) (sse_version msg) (ntime msg) (nonce msg) r ms.
Proof.
  rewrite extended_share_eq. cbv zeta. unfold share_outcome, ext_judgement.
  destruct (downstreams s !! d) as [ds|]; simpl.
  2: { intros [= <- <-]. exists []. rewrite delivered_nil. auto. }
  destruct (extended_channels ds !! _) as [ch|]; simpl.
  2: { intros [= <- <-]. eexists. split; [reflexivity|]. auto. }
  unfold SharedMap.contains_key. case_bool_decide as Hv; simpl.
  2: { intros [= <- <-]. rewrite option_guard_False by done. simpl. eexists.
       split; [reflexivity|]. auto. }
  rewrite option_guard_True by done. destruct (ext_validate_share ch msg) as [v ch']. simpl.
  destruct (answer_share _ _ _ _ _ _ _ _ _) as [ms|e]; intros [= <- <-];
    eexists; (split; [|done]); [done|]. by rewrite delivered_nil.
Qed.

(** The solution a judgement calls for. *)
Definition found (judgement : option (DownVerdict * ShareAccounting)) (version ntime nonce : N)
    (sol : SubmitSolution) : Prop :=
  ∃ hash template coinbase a,
    judgement = Some (DownBlockFound hash (Some template) coinbase, a) ∧
    fits_b064k coinbase = true ∧
    sol = {| sol_template_id := template; sol_version := version; sol_ntime := ntime;
             sol_nonce := nonce; sol_coinbase_tx := coinbase |}.

Lemma outcome_solution ec judgement d c seq version ntime nonce r ms sol :
  share_outcome ec judgement d c seq version ntime nonce r ms →
  TemplateProvider (MsgSubmitSolution sol) ∈ ms ↔ found judgement version ntime nonce sol.
Proof.
  unfold share_outcome, found. destruct judgement as [[v a]|].
  2: { intros [-> | [-> | ->]]; (split; [|by intros (?&?&?&?&?&_)]); set_solver. }
  unfold answer_share. destruct v as [h|h [t|] cb|e].
  - intros [_ ->]. split; [|by intros (?&?&?&?&?&_)].
    unfold share_success. destruct (should_acknowledge a); set_solver.
  - destruct (fits_b064k cb) eqn:Ef; intros [_ ->].
    + rewrite elem_of_cons. split.
      * intros [E|Hin]; [injection E as ->; by exists h, t, cb, a|]. unfold share_success in Hin. set_solver.
      * intros (?&?&?&?&[= <- <- <- <-]&_&->). by left.
    + split; [by intros ?%not_elem_of_nil|]. intros (?&?&?&?&[= <- <- <- <-]&?&_). congruence.
  - intros [_ ->]. split; [|by intros (?&?&?&?&?&_)]. unfold share_success. set_solver.
  - destruct (ec e); intros [_ ->]; (split; [|by intros (?&?&?&?&?&_)]); set_solver.
Qed.

(** The template provider is handed exactly the blocks miners find: a share
    handler submits a solution if and only if the share's channel, open and
    tracked, judged it a block of a template, and the solution carries the
    share's own nonce, time and version and the channel's coinbase. *)
Theorem solutions_are_blocks d s r s' :
  (∀ msg, handle_submit_shares_standard d msg s = Done (r, s') →
   ∃ ms, channel_manager_io s' = delivered (channel_manager_io s) ms ∧
     ∀ sol, TemplateProvider (MsgSubmitSolution sol) ∈ ms ↔
       found (std_judgement d msg s) (sss_version msg) (sss_ntime msg) (sss_nonce msg) sol) ∧
  (∀ msg, handle_submit_shares_extended d msg s = Done (r, s') →
   ∃ ms, channel_manager_io s' = delivered (channel_manager_io s) ms ∧
     ∀ sol, TemplateProvider (MsgSubmitSolution sol) ∈ ms ↔
       found (ext_judgement d msg s) (sse_version msg) (ntime msg) (nonce msg) sol).
Proof.
  split; intros msg E.
  - apply standard_share_outcome in E as (ms & Eio & Ho). exists ms. split; [done|].
    intros sol. by eapply outcome_solution.
  - apply extended_share_outcome in E as (ms & Eio & Ho). exists ms. split; [done|].
    intros sol. by eapply outcome_solution.
Qed.

(** ** Channel updates *)

(** A miner that updates a channel hears the target the channel then has,
    after the error if the update was refused; it is told off only for a
    channel it does not have.  The handler panics exactly when the channel
    library fails in a way it does not document for updates. *)
Theorem update_channel_answer d msg s ds :
  downstreams s !! d = Some ds →
  let c := uc_channel_id msg in
  let target t := ToDownstream d (MsgSetTarget c t) in
  match standard_channels ds !! c, extended_channels ds !! c with
  | Some ch, _ =>
      let '(r, ch') := std_update_channel ch (uc_nominal_hash_rate msg)
                         (Some (uc_maximum_target msg)) in
      match update_error d c r with
      | None => handle_update_channel d msg s = Panic
      | Some errors => ∃ s', handle_update_channel d msg s = Done (Ok tt, s') ∧
          channel_manager_io s' =
            delivered (channel_manager_io s) (errors ++ [target (std_target ch')]) ∧
          downstreams s' = <[d := put_std (<[c := ch']> (standard_channels ds)) ds]> (downstreams s)
      end
  | None, Some ch =>
      let '(r, ch') := ext_update_channel ch (uc_nominal_hash_rate msg)
                         (Some (uc_maximum_target msg)) in
      match update_error d c r with
      | None => handle_update_channel d msg s = Panic
      | Some errors => ∃ s', handle_update_channel d msg s = Done (Ok tt, s') ∧
          channel_manager_io s' =
            delivered (channel_manager_io s) (errors ++ [target (ext_target ch')]) ∧
          downstreams s' = <[d := put_ext (<[c := ch']> (extended_channels ds)) ds]> (downstreams s)
      end
  | None, None => ∃ s', handle_update_channel d msg s = Done (Ok tt, s') ∧
      channel_manager_io s' = delivered (channel_manager_io s)
        [ToDownstream d (UpdateChannelError c ERROR_CODE_UPDATE_CHANNEL_INVALID_CHANNEL_ID)] ∧
      downstreams s' = downstreams s
  end.
Proof.
  intros Hd. cbv zeta. unfold handle_update_channel, with_registered_downstream,
    update_standard, update_extended, mbind, prog_bind, focus. rewrite Hd.
  destruct (standard_channels ds !! uc_channel_id msg) as [ch|] eqn:Es.
  - unfold transact. destruct (std_update_channel _ _ _) as [r ch'].
    destruct (update_error _ _ r) as [errors|]; [|done]. simpl.
    eexists. split; [apply forward_all_sends|done].
  - destruct (extended_channels ds !! uc_channel_id msg) as [ch|] eqn:Ee.
    + unfold transact. destruct (ext_update_channel _ _ _) as [r ch'].
      destruct (update_error _ _ r) as [errors|]; [|done]. simpl.
      eexists. split; [apply forward_all_sends|done].
    + eexists. split; [apply forward_all_sends|]. split; [done|]. simpl. by rewrite insert_id.
Qed.

(** ** Custom jobs *)
Lemma ask_job_declarator_inv msg identity s response s' :
  ask_job_declarator msg identity s = Done (Ok response, s') →
  ∃ j jd', job_declarator s = Some j ∧
    JobDeclarator.handle_set_custom_mining_job msg identity (jd j) = Done (Ok response, jd').
Proof.
  unfold ask_job_declarator. destruct (job_declarator s) as [j|]; [|done].
  destruct (JobDeclarator.handle_set_custom_mining_job _ _ _) as [[[r|e] jd']|] eqn:E; [|done..].
  intros [= <- <-]. by exists j, jd'.
Qed.

Lemma forward_or_disconnect_sends d m s :
  ∃ r, forward_or_disconnect d m s = Done (r, send [m] s).
Proof.
  unfold forward_or_disconnect, send, mbind, prog_bind, transact, ok_or_raise, raise, mret, prog_ret.
  rewrite <-forward_delivered. destruct (forward m (channel_manager_io s)) as [[[]|e] io]; by eexists.
Qed.

Lemma forward_or_disconnect_state d m s r s' :
  forward_or_disconnect d m s = Done (r, s') → s' = send [m] s.
Proof.
  unfold forward_or_disconnect, send, mbind, prog_bind, transact.
  rewrite <-forward_delivered. destruct (forward m (channel_manager_io s)) as [[u|e] io];
    simpl; by intros [= _ <-].
Qed.

Lemma validate_custom_true f d msg s s' :
  validate_custom_job f d msg s = Done (Ok true, s') ↔
  ∃ ds ch j a b c jd', downstreams s !! d = Some ds ∧
    extended_channels ds !! scmj_channel_id msg = Some ch ∧ job_declarator s = Some j ∧
    JobDeclarator.handle_set_custom_mining_job msg (ext_user_identity ch) (jd j) =
      Done (Ok (ScmjOk a b c), jd') ∧
    s' = put_jd (Some {| jd := jd'; loop := loop j |}) s.
Proof.
  unfold validate_custom_job, with_registered_downstream, mbind, prog_bind, focus, ask.
  destruct (downstreams s !! d) as [ds|] eqn:Ed; [|split; [done|naive_solver]].
  rewrite insert_id by done.
  replace (put_downstreams (downstreams s) s) with s by by destruct s.
  unfold SharedMap.with_.
  assert (∀ m b s0 s', match forward_or_disconnect d m s0 with
      | Done (Ok _, s') => mret (M := prog ChannelManager PoolError) false s'
      | Done (Err e, s') => Done (Err e, s')
      | Panic => Panic end = Done (Ok b, s') → b = false) as Hfalse.
  { intros m b s0 s1. destruct (forward_or_disconnect d m s0) as [[[[]|e] s2]|]; [|done..].
    by intros [= <- _]. }
  destruct (job_declarator s) as [j|] eqn:Ej.
  2: { split; [|naive_solver]. by intros ?%Hfalse. }
  destruct (extended_channels ds !! _) as [ch|] eqn:Ec; simpl.
  2: { split; [by intros ?%Hfalse|naive_solver]. }
  unfold ask_job_declarator. rewrite Ej.
  assert (∀ r, (∃ ds0 ch0 j0 a b c jd', Some ds = Some ds0 ∧
      extended_channels ds0 !! scmj_channel_id msg = Some ch0 ∧ Some j = Some j0 ∧
      JobDeclarator.handle_set_custom_mining_job msg (ext_user_identity ch0) (jd j0) =
        Done (Ok (ScmjOk a b c), jd') ∧ r = put_jd (Some {| jd := jd'; loop := loop j0 |}) s) ↔
    ∃ a b c jd', JobDeclarator.handle_set_custom_mining_job msg (ext_user_identity ch) (jd j) =
      Done (Ok (ScmjOk a b c), jd') ∧ r = put_jd (Some {| jd := jd'; loop := loop j |}) s) as Hiff.
  { intros r. split; [|by intros (a & b & c & jd' & E & ->); exists ds, ch, j, a, b, c, jd'].
    intros (ds0 & ch0 & j0 & a & b & c & jd' & Hds & Hch & Hj & E & ->). simplify_eq.
    by exists a, b, c, jd'. }
  rewrite Hiff. clear Hiff.
  destruct (JobDeclarator.handle_set_custom_mining_job _ _ _) as [[[r|e] jd']|] eqn:E;
    [|by split; [|intros (?&?&?&?&?&?)]..].
  destruct r as [a b c|a b code].
  - unfold mret, prog_ret. split.
    + intros [= <-]. by exists a, b, c, jd'.
    + intros (? & ? & ? & ? & [= -> -> -> ->] & ->). done.
  - split; [by intros ?%Hfalse|by intros (?&?&?&?&?&?)].
Qed.
End answers.

Section custom_jobs.
Context `{BitcoinApi} {AA : AddressApi} {SC : ServerChannels}.

(** What the job declarator wants of a message on a channel before the pool
    sets the job. *)
Definition authorised (d : N) (msg : SetCustomMiningJob) (t : N) (s : ChannelManager) : Prop :=
  ∃ ds ch j data job, downstreams s !! d = Some ds ∧
    extended_channels ds !! scmj_channel_id msg = Some ch ∧ job_declarator s = Some j ∧
    parse_token (scmj_token msg) = Some t ∧
    active_tokens (token_manager (jd j)) !! t = Some data ∧
    ac_user_identity data = ext_user_identity ch ∧
    job_of_token (downstream_states (job_validator (jd j))) (ac_owner data)
      (allocated_token data) = Some job ∧
    custom_matches job msg.

(** The token is active nowhere. *)
Definition token_spent (t : N) (s : ChannelManager) : Prop :=
  ∀ j, job_declarator s = Some j → active_tokens (token_manager (jd j)) !! t = None.

Lemma validated_iff f d msg s :
  (∃ s', validate_custom_job f d msg s = Done (Ok true, s')) ↔ ∃ t, authorised d msg t s.
Proof.
  split.
  - intros [s' (ds & ch & j & a & b & c & jd' & Hd & Hch & Hj & E & _)%validate_custom_true].
    assert (∃ jd', JobDeclarator.handle_set_custom_mining_job msg (ext_user_identity ch) (jd j) =
      Done (Ok (ScmjOk (scmj_channel_id msg) (scmj_request_id msg) 0), jd')) as Hok.
    { exists jd'. rewrite set_custom_eq in E |- *.
      destruct (_ ≫= _) as [[t data]|]; [|done]. case_decide; [|done].
      destruct (v_set_custom _ _ _ _) as [[[] ?]|]; [|done..]. by injection E as _ _ _ <-. }
    apply custom_job_accepted_iff in Hok as (t & data & job & ? & ? & Hid & ? & ?).
    by exists t, ds, ch, j, data, job.
  - intros (t & ds & ch & j & data & job & Hd & Hch & Hj & Ht & Hdata & Hid & Hjob & Hm).
    destruct (proj2 (custom_job_accepted_iff msg (ext_user_identity ch) (jd j))) as [jd' E].
    { by exists t, data, job. }
    eexists. apply validate_custom_true.
    exists ds, ch, j, (scmj_channel_id msg), (scmj_request_id msg), 0, jd'. done.
Qed.

Lemma answered_downstreams d m (b : bool) s r s' :
  (forward_or_disconnect d m;; mret b) s = Done (r, s') → downstreams s' = downstreams s.
Proof.
  unfold mbind, prog_bind. destruct (forward_or_disconnect d m s) as [[[[]|e] s1]|] eqn:E; [..|done].
  all: apply forward_or_disconnect_state in E as ->; by intros [= _ <-].
Qed.

(** Asking the job declarator touches no channel. *)
Lemma validate_downstreams f d msg s r s' :
  validate_custom_job f d msg s = Done (r, s') → downstreams s' = downstreams s.
Proof.
  unfold validate_custom_job, with_registered_downstream. unfold mbind at 1, prog_bind at 1, focus, ask at 1.
  destruct (downstreams s !! d) as [ds|] eqn:Ed; [|by intros [= _ <-]].
  rewrite insert_id by done.
  replace (put_downstreams (downstreams s) s) with s by by destruct s.
  unfold mbind at 1, prog_bind at 1, ask.
  destruct (job_declarator s) as [j|] eqn:Ej; [|apply answered_downstreams].
  destruct (SharedMap.with_ _ _ _) as [identity|]; [|apply answered_downstreams].
  unfold mbind at 1, prog_bind at 1, ask_job_declarator. rewrite Ej.
  destruct (JobDeclarator.handle_set_custom_mining_job _ _ _) as [[[[]|e] jd']|]; [..|done].
  - by intros [= _ <-].
  - intros E%answered_downstreams. exact E.
  - by intros [= _ <-].
Qed.

Lemma validated_spends f d msg t s s' :
  authorised d msg t s → validate_custom_job f d msg s = Done (Ok true, s') → token_spent t s'.
Proof.
  intros (? & ? & ? & ? & ? & _ & _ & _ & Ht & _)
    (ds & ch & j & a & b & c & jd' & _ & _ & _ & E & ->)%validate_custom_true.
  intros j' [= <-]. simpl. rewrite set_custom_eq, Ht in E. simpl in E.
  destruct (active_tokens _ !! t) as [data|]; [|done]. simpl in E. case_decide; [|done].
  destruct (engine_set_custom _ _ _ _) as [[[] es]|]; [|done..]. injection E as _ _ _ <-.
  apply lookup_delete_eq.
Qed.

(** C1: the pool goes on to set a custom job exactly when the job declarator it
    embeds knows the token as active, the token was allocated to the identity
    that opened this very channel, and the token's owner declared a job under
    it that Bitcoin Core validated and that the message agrees with in every
    field that describes the job (nobody compares [ntime_start]). The token is
    then spent, and asking the job declarator touches no channel. Whatever the
    other tasks do meanwhile, the job is then set on the channel of that id as
    it is by then, and the miner told the job's id, exactly when the channel
    takes the job; a channel that is gone is answered with an error, a channel
    that refuses it or a connection that is gone disconnects the miner. *)
Theorem custom_job_set_iff f d msg s :
  ((∃ s1, validate_custom_job f d msg s = Done (Ok true, s1)) ↔ ∃ t, authorised d msg t s) ∧
  (∀ r s1, validate_custom_job f d msg s = Done (r, s1) →
     downstreams s1 = downstreams s ∧ (r = Ok true → ∀ t, authorised d msg t s → token_spent t s1)) ∧
  (∀ s2, let c := scmj_channel_id msg in
     match downstreams s2 !! d with
     | None => commit_custom_job d msg s2 = Done (Err (disconnect (DownstreamNotFound d) d), s2)
     | Some ds =>
         match extended_channels ds !! c with
         | None => ∃ r, commit_custom_job d msg s2 =
             Done (r, send [custom_error d msg ERROR_CODE_SET_CUSTOM_MINING_JOB_INVALID_CHANNEL_ID] s2)
         | Some ch =>
             let '(taken, ch') := ext_on_set_custom_mining_job ch msg in
             let s' := put_downstreams (<[d := put_ext (<[c := ch']> (extended_channels ds)) ds]>
                                          (downstreams s2)) s2 in
             match taken with
             | Err e => commit_custom_job d msg s2 =
                 Done (Err (disconnect (ChannelSv2 (ExtendedChannelServerSide e)) d), s')
             | Ok id => ∃ r, commit_custom_job d msg s2 =
                 Done (r, send [ToDownstream d (SetCustomMiningJobSuccess c (scmj_request_id msg) id)] s')
             end
         end
     end).
Proof.
  split; [apply validated_iff|]. split.
  - intros r s1 E. split; [by eapply validate_downstreams|]. intros -> t Ht.
    by eapply validated_spends.
  - intros s2. cbv zeta. unfold commit_custom_job, with_registered_downstream, mbind, prog_bind,
      focus, transact, ok_or_raise, raise, mret, prog_ret.
    destruct (downstreams s2 !! d) as [ds|] eqn:Ed; [|done].
    destruct (extended_channels ds !! _) as [ch|] eqn:Ec.
    + destruct (ext_on_set_custom_mining_job ch msg) as [[id|e] ch']; [|done].
      apply forward_or_disconnect_sends.
    + rewrite insert_id by done.
      replace (put_downstreams (downstreams s2) s2) with s2 by by destruct s2.
      apply forward_or_disconnect_sends.
Qed.
End custom_jobs.

Section opening.
Context `{BitcoinApi} `{VE : JobValidationEngine} {AA : AddressApi} {SC : ServerChannels}
  {CL : ChannelLaws SC}.
Context (script : list byte).

Lemma registered_inv d s ds s' :
  registered d s = Done (Ok ds, s') → downstreams s !! d = Some ds ∧ s' = s.
Proof. rewrite wp_read_id. destruct (downstreams s !! d); [|done]. by intros [= -> ->]. Qed.

Lemma with_registered_inv {A} d (p : guarded A) s a s' :
  with_registered_downstream d p s = Done (Ok a, s') →
  ∃ ds ds', downstreams s !! d = Some ds ∧ p ds = Done (Ok a, ds') ∧
    s' = put_downstreams (<[d := ds']> (downstreams s)) s.
Proof.
  unfold with_registered_downstream, focus. destruct (downstreams s !! d) as [ds|]; [|done].
  destruct (p ds) as [[r ds']|] eqn:Ep; [|done]. intros [= -> <-]. by exists ds, ds'.
Qed.

Lemma start_vardiff_inv d c s s' :
  start_vardiff d c s = Done (Ok tt, s') →
  ∃ v, vardiff_new = Some v ∧ s' = put_vardiff (<[(d, c) := v]> (vardiff s)) s.
Proof.
  unfold start_vardiff. intros Hrun. apply bind_inv in Hrun as (v & s1 & Ev & Hrun).
  apply some_or_inv in Ev as [Ev ->]. injection Hrun as <-. by exists v.
Qed.

(** What a successful opening leaves and announces. *)
Lemma finish_open_standard_inv d rid c ch0 mode template ph s ms s' :
  finish_open_standard script d rid c ch0 mode template ph s = Done (Ok ms, s') →
  ∃ ds ds' ch job job_id, downstreams s !! d = Some ds ∧ downstreams s' = <[d := ds']> (downstreams s) ∧
    standard_channels ds' = <[c := ch]> (standard_channels ds) ∧
    extended_channels ds' = extended_channels ds ∧
    payout_mode ds' = Some mode ∧ std_keeps ch0 ch ∧ is_Some (vardiff s' !! (d, c)) ∧
    ms = [ToDownstream d (OpenStandardMiningChannelSuccess rid c (std_target ch0)
            (std_extranonce_prefix ch0) (grp_id (group_channel ds)));
          ToDownstream d (MsgNewMiningJob (std_job_message job));
          ToDownstream d (prev_hash_message c job_id ph)].
Proof.
  unfold finish_open_standard. intros Hrun.
  apply bind_inv in Hrun as (ds & s1 & Er & Hrun). apply registered_inv in Er as [Hd ->].
  apply bind_inv in Hrun as (u & s1 & Er & Hrun). apply some_or_crash_inv in Er as [_ ->].
  pose proof (std_template_keeps ch0 template (coinbase_outputs mode
    (coinbase_tx_value_remaining template) script)) as Hk1.
  destruct (std_on_new_template ch0 template _) as [[[]|] c1]; simpl in Hk1.
  2: { by apply bind_inv in Hrun as (? & ? & ? & ?). }
  apply bind_inv in Hrun as (job_id & s1 & Er & Hrun). apply some_or_crash_inv in Er as [_ ->].
  apply bind_inv in Hrun as (job & s1 & Er & Hrun). apply some_or_crash_inv in Er as [_ ->].
  pose proof (std_prev_hash_keeps c1 ph) as Hk2.
  destruct (std_on_set_new_prev_hash c1 ph) as [[[]|] c2]; simpl in Hk2.
  2: { by apply bind_inv in Hrun as (? & ? & ? & ?). }
  apply bind_inv in Hrun as (old & s1 & Er & Hrun).
  apply with_registered_inv in Er as (ds1 & ds2 & Hd1 & Ei & ->). simplify_eq.
  unfold insert_standard in Ei. apply bind_inv in Ei as (o & t1 & Et & Ei). injection Et as <- <-.
  apply bind_inv in Ei as ([] & t1 & Et & Ei). injection Et as <-. injection Ei as <- <-.
  apply bind_inv in Hrun as ([] & s1 & Er & Hrun). injection Er as <-.
  apply bind_inv in Hrun as ([] & s1 & Er & Hrun).
  apply bind_inv in Hrun as ([] & s2 & Ev & Hrun). injection Hrun as <- <-.
  apply start_vardiff_inv in Ev as (v & _ & ->).
  assert (∃ g, downstreams s1 = <[d := put_group g (put_payout (Some mode)
    (put_std (<[c := c2]> (standard_channels ds)) ds))]> (downstreams s)) as [g Eg].
  { destruct (requires_standard_jobs ds).
    - injection Er as <-. exists (group_channel ds). by destruct ds.
    - apply bind_inv in Er as (r & s2 & Er & Hok). apply ok_or_raise_inv in Hok as [-> ->].
      apply with_registered_inv in Er as (ds3 & ds4 & Hd3 & Eadd & ->). simpl in Hd3.
      rewrite lookup_insert_eq in Hd3. injection Hd3 as <-.
      unfold add_to_group, transact in Eadd. destruct (grp_add_channel_id _ _ _) as [r g].
      injection Eadd as -> <-. exists g. simpl. by rewrite insert_insert_eq. }
  eexists ds, _, c2, job, job_id. split; [done|]. split; [exact Eg|]. split_and!; try done.
  - by etrans.
  - simpl. by rewrite lookup_insert_eq.
Qed.

(** The channels of every connection. *)
Definition same_channels (s s' : ChannelManager) : Prop :=
  ∀ d, (standard_channels <$> downstreams s' !! d) = (standard_channels <$> downstreams s !! d) ∧
       (extended_channels <$> downstreams s' !! d) = (extended_channels <$> downstreams s !! d).

(** A request for a standard channel is answered either by one error,
    leaving every channel as it was, or by the success, the first job and the
    previous hash of a channel that is now stored under the next free id, with
    the announced prefix, the requested identity and its payout mode. *)
Theorem open_standard_answer d msg s ms s' :
  open_standard script d msg s = Done (Ok ms, s') →
  (∃ code, ms = open_error d (osc_request_id msg) code ∧ same_channels s s') ∨
  ∃ ds ds' c ch0 ch job job_id ph mode, downstreams s !! d = Some ds ∧
    c = u32_wrap (channel_id_factory ds) ∧
    std_new_for_pool c (osc_user_identity msg) (std_prefix ch) (osc_max_target msg)
      (osc_nominal_hash_rate msg) = Ok ch0 ∧
    downstreams s' !! d = Some ds' ∧ standard_channels ds' = <[c := ch]> (standard_channels ds) ∧
    std_user_identity ch = osc_user_identity msg ∧
    identity_payout (osc_user_identity msg) = Some mode ∧ payout_mode ds' = Some mode ∧
    is_Some (vardiff s' !! (d, c)) ∧ last_new_prev_hash s = Some ph ∧
    ms = [ToDownstream d (OpenStandardMiningChannelSuccess (osc_request_id msg) c (std_target ch0)
            (std_extranonce_prefix ch) (grp_id (group_channel ds)));
          ToDownstream d (MsgNewMiningJob (std_job_message job));
          ToDownstream d (prev_hash_message c job_id ph)].
Proof.
  unfold open_standard. intros Hrun.
  apply bind_inv in Hrun as (ds & s1 & Er & Hrun). apply registered_inv in Er as [Hd ->].
  destruct (requires_custom_work ds); [injection Hrun as <- <-; left; by eexists|].
  apply bind_inv in Hrun as (t0 & s1 & Er & Hrun). injection Er as <- <-.
  apply bind_inv in Hrun as (template & s1 & Er & Hrun). apply some_or_inv in Er as [_ ->].
  apply bind_inv in Hrun as (p0 & s1 & Er & Hrun). injection Er as <- <-.
  apply bind_inv in Hrun as (ph & s1 & Er & Hrun). apply some_or_inv in Er as [Hph ->].
  destruct (identity_payout (osc_user_identity msg)) as [mode|] eqn:Em;
    [|injection Hrun as <- <-; left; by eexists].
  destruct (negb _); [injection Hrun as <- <-; left; by eexists|].
  apply bind_inv in Hrun as (r & s1 & Er & Hrun). unfold transact in Er.
  destruct (allocate_standard _) as [r0 a]. injection Er as -> <-.
  destruct r as [prefix|e].
  2: { apply bind_inv in Hrun as (code & s2 & Ec & Hrun). apply ok_or_raise_inv in Ec as [_ ->].
       injection Hrun as <- <-. left. by exists code. }
  apply bind_inv in Hrun as (c & s1 & Er & Hrun).
  apply with_registered_inv in Er as (ds1 & ds2 & Hd1 & Ei & ->). simpl in Hd1. simplify_eq.
  injection Ei as <- <-.
  assert (∀ p, same_channels s (release_all [p] (put_downstreams
    (<[d := put_factory (channel_id_factory ds + 1) ds]> (downstreams (put_allocator a s)))
    (put_allocator a s)))) as Hsame.
  { intros p d'. simpl. destruct (decide (d' = d)) as [->|];
      [by rewrite lookup_insert_eq, Hd|by rewrite lookup_insert_ne]. }
  destruct (std_new_for_pool _ _ _ _ _) as [ch0|e] eqn:En.
  - apply finish_open_standard_inv in Hrun as (ds3 & ds' & ch & job & job_id & Hd3 & Ed' & Estd &
      _ & Epay & [Hp Hu] & Hv & ->). simpl in Hd3. rewrite lookup_insert_eq in Hd3.
    injection Hd3 as <-. pose proof (std_new_keeps _ _ _ _ _ _ En) as [Hp0 Hu0].
    right. exists ds, ds', (u32_wrap (channel_id_factory ds)), ch0, ch, job, job_id, ph, mode.
    unfold std_extranonce_prefix. rewrite Hp, Hp0.
    split_and!; try done; [by rewrite Ed', lookup_insert_eq|congruence].
  - left. destruct e; try (by apply bind_inv in Hrun as (? & ? & ? & ?));
      apply bind_inv in Hrun as ([] & s2 & Er & Hrun); injection Er as <-; injection Hrun as <- <-;
      by eexists.
Qed.
End opening.
