(* ===== verification/PoolExamples.v ===== *)
(** * Pool: a run

    A small channel library that satisfies [ChannelLaws], a run of the pool on
    it, and the theorems of [PoolSafety], [PoolBroadcast] and [PoolAnswers] at
    the states of this run. *)
From S2P Require Import Prelude Handler SharedMap Bitcoin JobValidation ValidationEngine JobDeclarator Payout Setup ShareCache ServerChannels Pool PoolInv PoolChannels PoolSafety PoolBroadcast PoolAnswers.

Module PoolExamples.
#[local] Existing Instance bytes_api.
#[local] Existing Instance PayoutExamples.demo_addresses.

(** A channel remembers its future and its active template; jobs are named by
    their template; a share with nonce 99 is a block. *)
Record Chan : Type := {
  chan_user : string; chan_prefix : N; chan_target : N; chan_future : option N;
  chan_active : option N;
}.
Definition take_job (t : NewTemplate) (c : Chan) : Chan :=
  if future_template t
  then {| chan_user := chan_user c; chan_prefix := chan_prefix c; chan_target := chan_target c;
          chan_future := Some (template_id t); chan_active := chan_active c |}
  else {| chan_user := chan_user c; chan_prefix := chan_prefix c; chan_target := chan_target c;
          chan_future := chan_future c; chan_active := Some (template_id t) |}.
Definition activate (c : Chan) : Chan :=
  {| chan_user := chan_user c; chan_prefix := chan_prefix c; chan_target := chan_target c;
     chan_future := None;
     chan_active := match chan_future c with Some j => Some j | None => chan_active c end |}.
Definition new_chan (user : string) (p target : N) : Chan :=
  {| chan_user := user; chan_prefix := p; chan_target := target; chan_future := None;
     chan_active := None |}.
Definition future_job (c : Chan) (j : N) : option N :=
  if decide (chan_future c = Some j) then Some j else None.
Definition verdict (c : Chan) (nonce : N) : DownVerdict :=
  match chan_active c with
  | None => DownErr (InvalidJobId "invalid-job-id")
  | Some j => if (nonce =? 99)%N then DownBlockFound [x01] (Some j) [x02] else DownValid [x01]
  end.

Record Grp : Type := {
  g_id : N; g_members : gset N; g_future : option N; g_active : option N;
}.
Definition set_members (m : gset N) (g : Grp) : Grp :=
  {| g_id := g_id g; g_members := m; g_future := g_future g; g_active := g_active g |}.
Definition grp_take (t : NewTemplate) (g : Grp) : Grp :=
  if future_template t
  then {| g_id := g_id g; g_members := g_members g; g_future := Some (template_id t);
          g_active := g_active g |}
  else {| g_id := g_id g; g_members := g_members g; g_future := g_future g;
          g_active := Some (template_id t) |}.
Definition grp_activate (g : Grp) : Grp :=
  {| g_id := g_id g; g_members := g_members g; g_future := None;
     g_active := match g_future g with Some j => Some j | None => g_active g end |}.

Definition fresh (a : list N) : N := foldr N.max 0 a + 1.
Definition accounting : ShareAccounting :=
  {| should_acknowledge := true; last_share_sequence_number := 1; last_batch_accepted := 1;
     last_batch_work_sum := 1 |}.

#[local] Instance server : ServerChannels := {|
  Hashrate := N; hashrate_zero := 0; hashrate_add := N.add;
  NewMiningJob := N; StdJob := N; std_job_id j := j; std_job_message j := j;
  NewExtendedMiningJob := N; ExtJob := N; ext_job_id j := j; ext_job_message j := j;
  ExtranoncePrefix := N; prefix_bytes p := replicate (N.to_nat p) x00;
  ExtranonceAllocator := list N;
  allocate_standard a := (Ok (fresh a), fresh a :: a);
  allocate_extended a n :=
    if (16 <? n)%N then (Err InvalidRollableSize, a) else (Ok (fresh a), fresh a :: a);
  release_prefix a p := filter (λ q, q ≠ p) a;
  StdChannel := Chan; std_new_for_pool _ u p t _ := Ok (new_chan u p t);
  std_new_for_job_declaration_client _ u p t _ _ := Ok (new_chan u p t);
  std_user_identity := chan_user; std_prefix := chan_prefix; std_target := chan_target;
  std_nominal_hashrate _ := 0; std_share_accounting _ := accounting;
  std_get_active_job := chan_active; std_get_future_job := future_job;
  std_get_future_job_id_from_template_id := future_job;
  std_validate_share c m := (verdict c (sss_nonce m), c);
  std_on_new_template c t _ := (Ok tt, take_job t c);
  std_on_set_new_prev_hash c _ := (Ok tt, activate c);
  std_on_group_channel_job c _ := (Ok tt, c); std_update_channel c _ _ := (Ok tt, c);
  std_set_stable_hashrate c _ := c; std_set_extranonce_prefix c _ := (Ok tt, c);
  ExtChannel := Chan; ext_new_for_pool _ u p t _ _ := Ok (new_chan u p t);
  ext_new_for_job_declaration_client _ u p t _ _ _ := Ok (new_chan u p t);
  ext_user_identity := chan_user; ext_prefix := chan_prefix; ext_target := chan_target;
  ext_nominal_hashrate _ := 0; ext_rollable_extranonce_size _ := 16;
  ext_full_extranonce_size _ := 20; ext_share_accounting _ := accounting;
  ext_get_active_job := chan_active; ext_get_future_job := future_job;
  ext_get_future_job_id_from_template_id := future_job;
  ext_validate_share c m := (verdict c (nonce m), c);
  ext_on_new_template c t _ := (Ok tt, take_job t c);
  ext_on_set_new_prev_hash c _ := (Ok tt, activate c);
  ext_on_group_channel_job c _ := (Ok tt, c); ext_on_set_custom_mining_job c _ := (Ok 77, c);
  ext_update_channel c _ _ := (Ok tt, c); ext_set_stable_hashrate c _ := c;
  ext_set_extranonce_prefix c _ := (Ok tt, c);
  GroupChannel := Grp;
  grp_new i := Some {| g_id := i; g_members := ∅; g_future := None; g_active := None |};
  grp_id := g_id; grp_is_empty g := bool_decide (g_members g = ∅);
  grp_has_channel_id g i := bool_decide (i ∈ g_members g);
  grp_add_channel_id g i _ := (Ok tt, set_members ({[ i ]} ∪ g_members g) g);
  grp_remove_channel_id g i := set_members (g_members g ∖ {[ i ]}) g;
  grp_get_active_job := g_active;
  grp_get_future_job g j := if decide (g_future g = Some j) then Some j else None;
  grp_get_future_job_id_from_template_id g j :=
    if decide (g_future g = Some j) then Some j else None;
  grp_on_new_template g t _ := (Ok tt, grp_take t g);
  grp_on_set_new_prev_hash g _ := (Ok tt, grp_activate g);
  grp_set_full_extranonce_size g _ := (Ok tt, g);
  Vardiff := N; vardiff_new := Some 0; increment_shares_since_last_update := N.succ;
  try_vardiff v _ _ := (Ok None, v);
  deserialize_outputs _ := Some [{| value := 0; script_pubkey := [x00; x09] |}];
  ERROR_CODE_SUBMIT_SHARES_INVALID_CHANNEL_ID := "invalid-channel-id";
  ERROR_CODE_UPDATE_CHANNEL_INVALID_CHANNEL_ID := "invalid-channel-id";
  ERROR_CODE_OPEN_MINING_CHANNEL_STANDARD_CHANNELS_NOT_SUPPORTED_FOR_CUSTOM_WORK :=
    "standard-channels-not-supported-for-custom-work";
  ERROR_CODE_OPEN_MINING_CHANNEL_EXTENDED_CHANNELS_NOT_SUPPORTED_FOR_STANDARD_JOBS :=
    "extended-channels-not-supported-for-standard-jobs";
  ERROR_CODE_OPEN_MINING_CHANNEL_INVALID_USER_IDENTITY := "invalid-user-identity";
  ERROR_CODE_OPEN_MINING_CHANNEL_CHANNEL_CAPACITY_EXHAUSTED := "channel-capacity-exhausted";
  ERROR_CODE_OPEN_MINING_CHANNEL_MIN_EXTRANONCE_SIZE_TOO_LARGE := "min-extranonce-size-too-large";
  ERROR_CODE_SET_CUSTOM_MINING_JOB_JD_NOT_SUPPORTED := "jd-not-supported";
  ERROR_CODE_SET_CUSTOM_MINING_JOB_INVALID_CHANNEL_ID := "invalid-channel-id";
|}.

Lemma fresh_not_in (a : list N) : fresh a ∉ a.
Proof.
  assert (∀ p, p ∈ a → p ≤ foldr N.max 0 a) as Hle.
  { induction a as [|q a IH]; [by intros p ?%not_elem_of_nil|].
    intros p [->|Hp]%elem_of_cons; simpl; [lia|]. specialize (IH p Hp). lia. }
  unfold fresh. intros Hin%Hle. lia.
Qed.

#[local] Instance server_laws : ChannelLaws server.
Proof.
  unshelve refine {| live := λ a p, (p : N) ∈ (a : list N) |}; simpl.
  all: try (by intros; simplify_eq/=).
  all: try (intros; unfold std_keeps, ext_keeps, grp_keeps, take_job, grp_take; simpl;
            case_match; done).
  - intros g c n g' [= <-]. split; [done|]. intros c'. simpl.
    destruct (decide (c' = c)) as [->|Hne].
    + rewrite (bool_decide_eq_true_2 (c = c)) by done. apply bool_decide_eq_true_2. set_solver.
    + rewrite (bool_decide_eq_false_2 (c' = c)) by done. apply bool_decide_ext. set_solver.
  - intros g c. split; [done|]. intros c'.
    destruct (decide (c' = c)) as [->|Hne].
    + rewrite (bool_decide_eq_true_2 (c = c)) by done. apply bool_decide_eq_false_2. set_solver.
    + rewrite (bool_decide_eq_false_2 (c' = c)) by done. apply bool_decide_ext. set_solver.
  - intros _ p q _ _ E. apply (f_equal length) in E. rewrite !length_replicate in E. lia.
  - intros a p a' [= <- <-]. split; [apply fresh_not_in|]. intros q. apply elem_of_cons.
  - intros a n p a'. case_match; [done|]. intros [= <- <-].
    split; [apply fresh_not_in|]. intros q. apply elem_of_cons.
  - intros a n e a'. case_match; [|done]. by intros [= _ <-].
  - intros a p q. rewrite list_elem_of_filter. naive_solver.
Defined.

(** ** The run *)
Definition script : list byte := [x00; x02].
Definition template (id total : N) (future : bool) : NewTemplate :=
  {| template_id := id; future_template := future; nt_version := 0; nt_coinbase_tx_version := 2;
     nt_coinbase_prefix := []; nt_coinbase_tx_input_sequence := 0;
     coinbase_tx_value_remaining := total; nt_coinbase_tx_outputs_count := 0;
     nt_coinbase_tx_outputs := []; nt_coinbase_tx_locktime := 0; nt_merkle_path := [] |}.
Definition tip : SetNewPrevHash :=
  {| ph_template_id := 7; ph_prev_hash := 5; ph_ntime_start := 0; ph_n_bits := 0;
     ph_target := 0 |}.
Definition no_error (_ : CustomErrorCode) : string := "".
Definition no_flag (_ : N) : bool := false.

Notation step := (pool_step [] script script no_error no_flag no_flag).

Definition outcome (h : Pool.handler unit) (s : PoolSystem)
    : result unit PoolError * ChannelManager := done_or (Ok tt, cm s) (h (cm s)).
Definition after (h : Pool.handler unit) (s : PoolSystem) : PoolSystem :=
  turn (outcome h s).1 (outcome h s).2 s.
Lemma outcome_eq h s : done_b (h (cm s)) = true → h (cm s) = Done ((outcome h s).1, (outcome h s).2).
Proof. unfold outcome. by destruct (h (cm s)) as [[]|]. Qed.

(** Whether a handler succeeded. *)
Definition ok_b {A E} (r : result A E) : bool := match r with Ok _ => true | Err _ => false end.
Lemma ok_of_b {E} (r : result unit E) : ok_b r = true → r = Ok tt.
Proof. by destruct r as [[]|]. Qed.

Lemma outcome_ok h s :
  done_b (h (cm s)) = true → ok_b (outcome h s).1 = true → h (cm s) = Done (Ok tt, (outcome h s).2).
Proof. intros Hd Hok. rewrite (outcome_eq _ _ Hd). by rewrite (ok_of_b _ Hok). Qed.

Definition open_std (id : N) (user : string) : MiningRequest :=
  ReqOpenStandard {| osc_request_id := id; osc_user_identity := user; osc_nominal_hash_rate := 1 : N;
                     osc_max_target := 1000 |}.
Definition open_ext (id : N) (user : string) : MiningRequest :=
  ReqOpenExtended {| oec_request_id := id; oec_user_identity := user; oec_nominal_hash_rate := 1 : N;
                     oec_max_target := 1000; oec_min_extranonce_size := 4 |}.

Definition channel_ids (_ : N) : list N := [2; 3].

(** The template and the tip arrive, a miner connects, opens a standard and an
    extended channel. *)
Definition p0 : PoolSystem := pool_init [] None.
Definition p1 : PoolSystem := after (handle_new_template [] script [] channel_ids (template 7 100 true)) p0.
Definition p2 : PoolSystem := after (handle_set_new_prev_hash [] channel_ids tip) p1.
Definition accepted : result (option (N * option Downstream)) PoolError * ChannelManager :=
  done_or (Ok None, cm p2) (accept_downstream script (cm p2)).
Definition p3 : PoolSystem :=
  {| cm := accepted.2; detached := option_list None ++ detached p2; cancelled := cancelled p2 |}.
Definition miner : Downstream :=
  default (new_downstream {| g_id := 0; g_members := ∅; g_future := None; g_active := None |})
    (downstreams (cm p3) !! 1).
Definition p4 : PoolSystem :=
  with_cm (put_downstreams (<[1 := put_flags false false miner]> (downstreams (cm p3))) (cm p3)) p3.
Definition p5 : PoolSystem := after (handle_mining_message script 1 (open_std 1 "")) p4.
Definition p6 : PoolSystem := after (handle_mining_message script 1 (open_ext 2 "sri/donate")) p5.

Lemma set_up_4 : may_send p4 1.
Proof. intros ds E. assert (set_up <$> downstreams (cm p4) !! 1 = Some true) as E' by vm_eq.
  rewrite E in E'. by injection E'. Qed.
Lemma set_up_5 : may_send p5 1.
Proof. intros ds E. assert (set_up <$> downstreams (cm p5) !! 1 = Some true) as E' by vm_eq.
  rewrite E in E'. by injection E'. Qed.

Lemma after_template msg order s :
  cancelled s = false → done_b (handle_new_template [] script order channel_ids msg (cm s)) = true →
  step s (after (handle_new_template [] script order channel_ids msg) s).
Proof. intros Hc Hd. eapply step_template; [done|]. by apply outcome_eq. Qed.
Lemma after_prev_hash ph order s :
  cancelled s = false → done_b (handle_set_new_prev_hash order channel_ids ph (cm s)) = true →
  step s (after (handle_set_new_prev_hash order channel_ids ph) s).
Proof. intros Hc Hd. eapply step_prev_hash; [done|]. by apply outcome_eq. Qed.
Lemma after_message d m s :
  cancelled s = false → may_send s d → done_b (handle_mining_message script d m (cm s)) = true →
  step s (after (handle_mining_message script d m) s).
Proof. intros Hc Hs Hd. eapply step_message; [done|done|]. by apply outcome_eq. Qed.

Lemma step_1 : step p0 p1.
Proof. apply after_template; vm_eq. Qed.
Lemma step_2 : step p1 p2.
Proof. apply after_prev_hash; vm_eq. Qed.

(** The id of a connection that replaces none. *)
Definition fresh_id (r : result (option (N * option Downstream)) PoolError) : option N :=
  match r with Ok (Some (d, None)) => Some d | _ => None end.
Lemma fresh_id_Some r d : fresh_id r = Some d → r = Ok (Some (d, None)).
Proof. destruct r as [[[d' [ds|]]|]|e]; simpl; [done| |done..]. by intros [= ->]. Qed.

Lemma step_3 : step p2 p3.
Proof.
  apply step_env, (env_connect _ _ _ _ p2 1 None accepted.2).
  assert (fresh_id accepted.1 = Some 1) as Hid by vm_eq. apply fresh_id_Some in Hid.
  rewrite <-Hid. assert (done_b (accept_downstream script (cm p2)) = true) as Hd by vm_eq.
  rewrite (done_or_eq (Ok None, cm p2) _ Hd). fold accepted. by destruct accepted.
Qed.
Lemma step_4 : step p3 p4.
Proof.
  apply step_env, (env_set_up _ _ _ _ p3 1 miner
    {| protocol := MiningProtocol; min_version := 2; max_version := 2; flags := 0 |}
    [SetupConnectionSuccess SUPPORTED_PROTOCOL_VERSION 0]); [|vm_eq..].
  assert (bool_decide (is_Some (downstreams (cm p3) !! 1)) = true) as Hd%bool_decide_eq_true by vm_eq.
  unfold miner. by destruct Hd as [ds ->].
Qed.
Lemma step_5 : step p4 p5.
Proof. apply after_message; [vm_eq|apply set_up_4|vm_eq]. Qed.
Lemma step_6 : step p5 p6.
Proof. apply after_message; [vm_eq|apply set_up_5|vm_eq]. Qed.

Lemma run_6 : rtc step p0 p6.
Proof.
  eapply rtc_l; [exact step_1|]. eapply rtc_l; [exact step_2|]. eapply rtc_l; [exact step_3|].
  eapply rtc_l; [exact step_4|]. eapply rtc_l; [exact step_5|]. eapply rtc_l; [exact step_6|].
  apply rtc_refl.
Qed.

Lemma none_live : ∀ p, ¬ live (ChannelLaws := server_laws) ([] : list N) p.
Proof. intros p. apply not_elem_of_nil. Qed.

Definition conn : Downstream := default miner (downstreams (cm p6) !! 1).
Lemma conn_eq : downstreams (cm p6) !! 1 = Some conn.
Proof.
  apply default_of_b. vm_eq.
Qed.

Definition chan2 : StdChannel := default (new_chan "" 0 0) (standard_channels conn !! 2).
Lemma chan2_eq : standard_channels conn !! 2 = Some chan2.
Proof.
  apply default_of_b. vm_eq.
Qed.

Lemma extranonces_distinct_witness :
  NoDup (prefix_bytes <$> (detached_prefixes p6 ++ held (downstreams (cm p6)))) ∧
  length (held (downstreams (cm p6))) = 2%nat.
Proof.
  split; [|vm_eq].
  apply (extranonces_distinct (SC := server) [] script script no_error no_flag no_flag (@nil N) None p6 none_live run_6).
Defined.

Lemma channels_paid_alike_witness :
  downstream_coinbase_outputs script 1000 [] conn = coinbase_outputs FullDonation 1000 script.
Proof.
  destruct (channels_paid_alike (SC := server) [] script script no_error no_flag no_flag (@nil N) None p6 1 conn 1000 []
    none_live run_6 conn_eq) as [Hs _].
  destruct (Hs 2 chan2 chan2_eq) as (own & Hown & ->).
  assert (identity_payout (std_user_identity chan2) = Some FullDonation) as E by vm_eq.
  rewrite E in Hown. by injection Hown as <-.
Defined.

Lemma pool_tables_agree_witness :
  is_Some (vardiff (cm p6) !! (1, 2)) ∧ 2 ≠ g_id (group_channel conn).
Proof.
  destruct (pool_tables_agree (SC := server) [] script script no_error no_flag no_flag (@nil N) None p6 1 conn
    none_live run_6) as (_ & Hv & _ & _ & Hids); [vm_eq|apply conn_eq|].
  assert (is_Some (standard_channels conn !! 2)) as Hc by exact (mk_is_Some _ _ chan2_eq).
  split; [apply Hv; by left|]. apply Hids; [|by left].
  assert ((channel_id_factory conn <=? u32_modulus)%N = true) as Hle by vm_eq.
  by apply N.leb_le in Hle.
Defined.

Lemma order_6 d : is_Some (downstreams (cm p6) !! d) → d ∈ [1].
Proof.
  intros Hd. apply elem_of_dom in Hd.
  assert (bool_decide (dom (downstreams (cm p6)) = {[1]}) = true) as E%bool_decide_eq_true by vm_eq.
  rewrite E in Hd. apply elem_of_singleton in Hd as ->. by left.
Qed.
Lemma covers_6 d ds : downstreams (cm p6) !! d = Some ds → covers (channel_ids d) ds.
Proof.
  intros Hd. assert (d = 1) as ->.
  { apply list_elem_of_singleton, order_6. by eexists. }
  rewrite conn_eq in Hd. injection Hd as <-. split.
  { apply (bool_decide_eq_true_1 (NoDup [2; 3])). vm_eq. }
  assert (bool_decide (dom (standard_channels conn) ∪ dom (extended_channels conn) ⊆ {[2; 3]}) = true)
    as E%bool_decide_eq_true by vm_eq.
  intros c Hc. rewrite <-!elem_of_dom, <-elem_of_union in Hc. apply E in Hc. clear E. set_solver.
Qed.

Definition p7 : PoolSystem :=
  after (handle_new_template [] script [1] channel_ids (template 8 200 false)) p6.
Lemma new_template_broadcast_witness :
  ∃ default out, default_outputs [] 200 = Some default ∧
    channel_manager_io (outcome (handle_new_template [] script [1] channel_ids
      (template 8 200 false)) p6).2 = delivered (channel_manager_io (cm p6)) (announced [1] out).
Proof.
  destruct (new_template_broadcast [] script [1] channel_ids (template 8 200 false) (cm p6)
    (outcome (handle_new_template [] script [1] channel_ids (template 8 200 false)) p6).2)
    as (default & out & Hd & _ & Hio & _).
  - apply NoDup_singleton.
  - apply order_6.
  - apply covers_6.
  - apply outcome_ok; vm_eq.
  - exists default, out. split; [exact Hd|exact Hio].
Defined.

Lemma prev_hash_broadcast_witness :
  last_new_prev_hash (outcome (handle_set_new_prev_hash [1] channel_ids tip) p6).2 = Some tip.
Proof.
  apply (prev_hash_broadcast [1] channel_ids tip (cm p6)).
  - apply NoDup_singleton.
  - apply order_6.
  - apply covers_6.
  - apply outcome_ok; vm_eq.
Defined.

(** A share that finds a block. *)
Definition winning : SubmitSharesStandard :=
  {| sss_channel_id := 2; sss_sequence_number := 1; sss_job_id := 7; sss_nonce := 99;
     sss_ntime := 4; sss_version := 5 |}.
Lemma solutions_are_blocks_witness :
  ∃ ms, channel_manager_io (outcome (handle_submit_shares_standard 1 winning) p6).2 =
      delivered (channel_manager_io (cm p6)) ms ∧
    TemplateProvider (MsgSubmitSolution {| sol_template_id := 7; sol_version := 5; sol_ntime := 4;
      sol_nonce := 99; sol_coinbase_tx := [x02] |}) ∈ ms.
Proof.
  destruct (solutions_are_blocks 1 (cm p6) (outcome (handle_submit_shares_standard 1 winning) p6).1
    (outcome (handle_submit_shares_standard 1 winning) p6).2) as [Hs _].
  destruct (Hs winning) as (ms & Hio & Hsol); [apply outcome_eq; vm_eq|].
  exists ms. split; [done|]. apply Hsol. exists [x01], 7, [x02], accounting.
  split; [|split; [vm_eq|reflexivity]].
  assert (bool_decide (is_Some (vardiff (cm p6) !! (1, 2))) = true) as Hv%bool_decide_eq_true
    by vm_eq.
  etrans; [exact (std_judgement_eq 1 winning (cm p6) conn chan2 conn_eq chan2_eq Hv)|].
  assert (chan_active chan2 = Some 7) as E by vm_eq.
  change (Some (verdict chan2 99, accounting) =
          Some (DownBlockFound [x01] (Some 7) [x02], accounting)).
  unfold verdict. rewrite E. reflexivity.
Defined.

Definition update2 : UpdateChannel :=
  {| uc_channel_id := 2; uc_nominal_hash_rate := 5 : N; uc_maximum_target := 9 |}.
Lemma update_channel_answer_witness :
  ∃ s', handle_update_channel 1 update2 (cm p6) = Done (Ok tt, s') ∧
    channel_manager_io s' = delivered (channel_manager_io (cm p6))
      [ToDownstream 1 (MsgSetTarget 2 (std_target chan2))].
Proof.
  pose proof (update_channel_answer 1 update2 (cm p6) conn conn_eq) as Hu.
  cbv zeta in Hu. change (uc_channel_id update2) with 2 in Hu. rewrite chan2_eq in Hu.
  destruct Hu as (s' & E & Hio & _). by exists s'.
Defined.

Definition request9 : OpenStandardMiningChannel :=
  {| osc_request_id := 9; osc_user_identity := ""; osc_nominal_hash_rate := 1 : N;
     osc_max_target := 1000 |}.
Definition opened : result (list RouteMessageTo) PoolError * ChannelManager :=
  done_or (Ok [], cm p6) (open_standard script 1 request9 (cm p6)).
Definition answers : list RouteMessageTo := match opened.1 with Ok ms => ms | Err _ => [] end.
Lemma open_standard_answer_witness :
  ∃ ch0 ch job job_id ph,
    answers = [ToDownstream 1 (OpenStandardMiningChannelSuccess 9 4 (std_target ch0)
                 (std_extranonce_prefix ch) (g_id (group_channel conn)));
               ToDownstream 1 (MsgNewMiningJob (job : N));
               ToDownstream 1 (prev_hash_message 4 job_id ph)].
Proof.
  destruct (open_standard_answer script 1 request9 (cm p6) answers opened.2)
    as [(code & E & _)|(ds & ds' & c & ch0 & ch & job & job_id & ph & mode & Hd & Hc & _ & _ & _ & _ &
         _ & _ & _ & _ & E)].
  - assert (done_b (open_standard script 1 request9 (cm p6)) = true) as Hb by vm_eq.
    rewrite (done_or_eq (Ok [], cm p6) _ Hb). fold opened. unfold answers.
    assert (ok_b opened.1 = true) as Hok by vm_eq.
    destruct opened as [[ms|e] s']; [done|]. by vm_compute in Hok.
  - exfalso. assert (length answers = 3%nat) as Hl by vm_eq. by rewrite E in Hl.
  - rewrite conn_eq in Hd. injection Hd as <-.
    assert (u32_wrap (channel_id_factory conn) = 4) as Hf by vm_eq. rewrite Hf in Hc. subst c.
    exists ch0, ch, job, job_id, ph. exact E.
Defined.
End PoolExamples.
