(* ===== verification/TdpTemplates.v ===== *)
(** * Block templates of the template distribution backend
    ([bitcoin-core-sv2/src/unix_capnp/v31x/template_distribution_protocol/template_data.rs],
    its counterpart for v30x, [coinbase_tx_from_ipc] of [mod.rs], the constants
    of [unix_capnp/mod.rs])

    A template Bitcoin Core offered over IPC, the messages made from it, its
    retirement, and the archive of solved blocks.  The two versions of the
    backend are copies of each other but for the coinbase: v31x reads its
    fields and the reward, v30x decodes a transaction and sums its outputs.  Transactions are records
    with the fields of [bitcoin::Transaction]; encoding and hashing are the
    class [TemplateApi].  An [Instant] is a number of nanoseconds, a Bitcoin
    Core capability the number of its object. *)
From S2P Require Import Prelude Handler Bitcoin Merkle ServerChannels.

(** ** Constants *)
Definition FIXED_BLOCK_RESERVED_WEIGHT : N := 1168.
Definition MIN_BLOCK_RESERVED_WEIGHT : N := 2000.
Definition WEIGHT_FACTOR : N := 4.
Definition from_secs (n : N) : N := n * 1000000000.
Definition STALE_TEMPLATE_GRACE_PERIOD : N := from_secs 10.
Definition DEFAULT_MAX_SAME_TIP_TEMPLATES : nat := 17.
Definition MAX_MONEY : Z := 21000000 * 100000000.
Definition WAIT_NEXT_TIMEOUT_MS : N := 10000.

(** ** Transactions, headers, blocks *)
Record FullTxIn : Type := {
  previous_output : N * N; in_script_sig : list byte; in_sequence : N; witness : list (list byte);
}.
Record FullTx : Type := {
  full_version : Z; full_lock_time : N; full_input : list FullTxIn; full_output : list TxOut;
}.
Record Header : Type := {
  h_version : Z; prev_blockhash : N; merkle_root : N; time : N; bits : N; nonce : N;
}.
Record FullBlock : Type := { block_header : Header; txdata : list FullTx }.

#[export] Instance FullTxIn_eq_dec : EqDecision FullTxIn.
Proof. solve_decision. Defined.
#[export] Instance FullTx_eq_dec : EqDecision FullTx.
Proof. solve_decision. Defined.
#[export] Instance Header_eq_dec : EqDecision Header.
Proof. solve_decision. Defined.

(** What the code takes from the [bitcoin] crate here: consensus encodings,
    [compute_txid], [sha256d], [checked_sum] of amounts, [Target::from],
    [block_hash]. *)
Class TemplateApi : Type := {
  deserialize_header : list byte → option Header;
  deserialize_block : list byte → option FullBlock;
  deserialize_tx : list byte → option FullTx;
  serialize_tx : FullTx → list byte;
  serialize_txout : TxOut → list byte;
  decode_txout : list byte → option TxOut;
  tx_id : FullTx → N;
  sha256d : list byte → N;
  checked_sum : list N → option N;
  target_of_bits : N → N;
  header_hash : Header → N;
  (** Of [template_distribution_sv2]. *)
  ERROR_CODE_TEMPLATE_ID_NOT_FOUND : string;
  ERROR_CODE_STALE_TEMPLATE_ID : string;
}.

(** A merkle node is the double hash of its children's bytes. *)
Class TemplateLaws (B : BitcoinApi) (T : TemplateApi) : Prop := {
  law_combine : ∀ a b, merkle_combine a b = sha256d (to_le_bytes 32 a ++ to_le_bytes 32 b);
}.

(** The errors of the two error types that the code tells apart. *)
Inductive TemplateDataError : Type :=
| InvalidBlockVersion
| InvalidCoinbaseTxVersion
| InvalidCoinbaseScriptSig
| FailedToSerializeCoinbaseOutputs
| FailedToSumCoinbaseOutputs
| FailedToConvertMerklePathHashToU256
| FailedToCreateMerklePathSeq
| InvalidSolution
| InvalidSolutionPoW
| InvalidTemplateBlock
| InvalidCoinbaseTx
| FailedIpcSubmitSolution
| FailedIpcRequest.

(** [td_block_reward_remaining] is a field of v31x only. *)
Record TemplateData : Type := {
  td_template_id : N; td_header : Header; td_coinbase_tx : FullTx;
  td_block_reward_remaining : option N; td_merkle_path : list (list byte);
  template_ipc_client : N; retire_at : option N;
}.

Section templates.
Context `{TemplateApi}.

(** [TemplateData::new]. *)
Definition new_template_data (id : N) (header : Header) (coinbase : FullTx) (reward : option N)
    (path : list (list byte)) (client : N) : TemplateData :=
  {| td_template_id := id; td_header := header; td_coinbase_tx := coinbase;
     td_block_reward_remaining := reward; td_merkle_path := path;
     template_ipc_client := client; retire_at := None |}.

(** [retire]: the first deadline counts. *)
Definition retire (deadline : N) (td : TemplateData) : TemplateData :=
  match retire_at td with
  | Some _ => td
  | None =>
      {| td_template_id := td_template_id td; td_header := td_header td;
         td_coinbase_tx := td_coinbase_tx td;
         td_block_reward_remaining := td_block_reward_remaining td;
         td_merkle_path := td_merkle_path td; template_ipc_client := template_ipc_client td;
         retire_at := Some deadline |}
  end.

(** ** Messages

    Programs that read the template; [B0255], [B064K], [Seq0255] and [u32]
    bound what fits. *)
Notation reader := (prog TemplateData TemplateDataError).

(** [i32::try_into::<u32>]. *)
Definition i32_to_u32 (z : Z) : option N := if (0 <=? z)%Z then Some (Z.to_N z) else None.

(** [coinbase_tx.input[0]]. *)
Definition first_input : reader FullTxIn :=
  td ← ask id;
  some_or_crash (head (full_input (td_coinbase_tx td))).

Definition get_version : reader N :=
  td ← ask id;
  some_or (i32_to_u32 (h_version (td_header td))) InvalidBlockVersion.

Definition get_coinbase_tx_version : reader N :=
  td ← ask id;
  some_or (i32_to_u32 (full_version (td_coinbase_tx td))) InvalidCoinbaseTxVersion.

Definition get_coinbase_script_sig : reader (list byte) :=
  input ← first_input;
  ensure (length (in_script_sig input) <=? 255)%nat InvalidCoinbaseScriptSig;;
  mret (in_script_sig input).

Definition get_coinbase_input_sequence : reader N :=
  input ← first_input;
  mret (in_sequence input).

(** [get_required_coinbase_outputs], [get_empty_coinbase_outputs]. *)
Definition get_required_coinbase_outputs (td : TemplateData) : list TxOut :=
  full_output (td_coinbase_tx td).
Definition get_empty_coinbase_outputs (td : TemplateData) : list TxOut :=
  filter (λ o, value o = 0) (full_output (td_coinbase_tx td)).
Definition sent_coinbase_outputs (td : TemplateData) : list TxOut :=
  match td_block_reward_remaining td with
  | Some _ => get_required_coinbase_outputs td
  | None => get_empty_coinbase_outputs td
  end.

(** [get_serialized_required_coinbase_outputs], or of the empty ones. *)
Definition get_serialized_coinbase_outputs : reader (list byte) :=
  td ← ask id;
  let bytes := concat (serialize_txout <$> sent_coinbase_outputs td) in
  ensure (length bytes <=? 65535)%nat FailedToSerializeCoinbaseOutputs;;
  mret bytes.

(** [get_coinbase_tx_value_remaining] of v30x, or the field. *)
Definition get_coinbase_tx_value_remaining : reader N :=
  td ← ask id;
  match td_block_reward_remaining td with
  | Some reward => mret reward
  | None => some_or (checked_sum (value <$> full_output (td_coinbase_tx td))) FailedToSumCoinbaseOutputs
  end.

(** A merkle hash is a [Vec<u8>]; only 32 bytes make a [U256]. *)
Definition u256_of_bytes (bs : list byte) : option N :=
  if decide (length bs = 32%nat) then Some (from_le_bytes bs) else None.

Definition get_merkle_path : reader (list N) :=
  td ← ask id;
  path ← some_or (mapM u256_of_bytes (td_merkle_path td)) FailedToConvertMerklePathHashToU256;
  ensure (length path <=? 255)%nat FailedToCreateMerklePathSeq;;
  mret path.

Definition get_new_template_message (future : bool) : reader NewTemplate :=
  td ← ask id;
  version ← get_version;
  coinbase_version ← get_coinbase_tx_version;
  prefix ← get_coinbase_script_sig;
  sequence ← get_coinbase_input_sequence;
  reward ← get_coinbase_tx_value_remaining;
  outputs ← get_serialized_coinbase_outputs;
  path ← get_merkle_path;
  mret {| template_id := td_template_id td; future_template := future; nt_version := version;
          nt_coinbase_tx_version := coinbase_version; nt_coinbase_prefix := prefix;
          nt_coinbase_tx_input_sequence := sequence;
          coinbase_tx_value_remaining := reward;
          nt_coinbase_tx_outputs_count :=
            u32_wrap (N.of_nat (length (sent_coinbase_outputs td)));
          nt_coinbase_tx_outputs := outputs;
          nt_coinbase_tx_locktime := full_lock_time (td_coinbase_tx td);
          nt_merkle_path := path |}.

(** A program of a template, run on it. *)
Definition of_template {A} (p : reader A) (td : TemplateData) : rust (result A TemplateDataError) :=
  match p td with Done (r, _) => Done r | Panic => Panic end.

Definition get_prev_hash (td : TemplateData) : N := prev_blockhash (td_header td).

Definition get_set_new_prev_hash_message (td : TemplateData) : SetNewPrevHash :=
  {| ph_template_id := td_template_id td; ph_prev_hash := get_prev_hash td;
     ph_ntime_start := time (td_header td); ph_n_bits := bits (td_header td);
     ph_target := target_of_bits (bits (td_header td)) |}.

(** [get_tx_data], given the bytes [getBlock] returned: the transactions after
    the coinbase.  The conversions to [B016M] and [Seq064K] are [expect]ed. *)
Definition get_tx_data (block_bytes : list byte) : rust (result (list (list byte)) TemplateDataError) :=
  match deserialize_block block_bytes with
  | None => Done (Err InvalidTemplateBlock)
  | Some block =>
      let data := serialize_tx <$> drop 1 (txdata block) in
      if forallb (λ bs, (length bs <=? 16777215)%nat) data && (length data <=? 65535)%nat
      then Done (Ok data) else Panic
  end.

(** ** [coinbase_tx_from_ipc] *)
Record CoinbaseTxReader : Type := {
  ipc_version : N; ipc_sequence : N; ipc_script_sig_prefix : list byte; ipc_witness : list byte;
  ipc_block_reward_remaining : Z; ipc_required_outputs : list (list byte); ipc_lock_time : N;
}.

Inductive FetchError : Type :=
| CapnpError
| InvalidTemplateHeader
| InvalidBlockRewardRemaining (reward : Z).

Definition null_outpoint : N * N := (0, 4294967295).

Definition coinbase_tx_from_ipc (r : CoinbaseTxReader) : result (FullTx * N) FetchError :=
  if (ipc_block_reward_remaining r <? 0)%Z
  then Err (InvalidBlockRewardRemaining (ipc_block_reward_remaining r))
  else match mapM decode_txout (ipc_required_outputs r) with
  | None => Err InvalidTemplateHeader
  | Some outputs =>
      Ok ({| full_version := u32_as_i32 (ipc_version r); full_lock_time := ipc_lock_time r;
             full_input :=
               [{| previous_output := null_outpoint; in_script_sig := ipc_script_sig_prefix r;
                   in_sequence := ipc_sequence r;
                   witness := match ipc_witness r with [] => [] | w => [w] end |}];
             full_output := outputs |}, Z.to_N (ipc_block_reward_remaining r))
  end.

(** ** [archive_solution] *)

(** The checks before anything is asked of Bitcoin Core. *)
Definition solution_fits (td : TemplateData) (tx : FullTx) : rust bool :=
  if negb (bool_decide (full_version tx = full_version (td_coinbase_tx td))) ||
     negb (bool_decide (full_lock_time tx = full_lock_time (td_coinbase_tx td))) ||
     negb (bool_decide (length (full_input tx) = 1%nat))
  then Done false
  else
    i ← expect (head (full_input tx));
    j ← expect (head (full_input (td_coinbase_tx td)));
    Done (bool_decide (in_sequence i = in_sequence j) && bool_decide (witness i = witness j) &&
          bool_decide (previous_output i = previous_output j)).

(** The root over the siblings, whatever their length. *)
Definition solution_merkle_root (td : TemplateData) (tx : FullTx) : N :=
  foldl (λ current sibling, sha256d (to_le_bytes 32 current ++ sibling)) (tx_id tx)
    (td_merkle_path td).

Definition solution_header (td : TemplateData) (tx : FullTx) (version ntime nonce : N) : Header :=
  {| h_version := u32_as_i32 version; prev_blockhash := prev_blockhash (td_header td);
     merkle_root := solution_merkle_root td tx; time := ntime; bits := bits (td_header td);
     nonce := nonce |}.

(** [validate_pow] against the header's own target. *)
Definition validate_pow (h : Header) : bool := header_hash h <=? target_of_bits (bits h).

(** The block written to disk; [block_bytes] is what [getBlock] returned. *)
Definition archive_solution (td : TemplateData) (tx : FullTx) (version ntime nonce : N)
    (block_bytes : option (list byte)) : rust (result FullBlock TemplateDataError) :=
  fits ← solution_fits td tx;
  if negb fits then Done (Err InvalidSolution)
  else
    let header := solution_header td tx version ntime nonce in
    if negb (validate_pow header) then Done (Err InvalidSolutionPoW)
    else match block_bytes with
    | None => Done (Err FailedIpcRequest)
    | Some bytes =>
        match deserialize_block bytes with
        | None => Done (Err InvalidTemplateBlock)
        | Some block =>
            match txdata block with
            | [] => Panic
            | _ :: rest => Done (Ok {| block_header := header; txdata := tx :: rest |})
            end
        end
    end.

(** ** Properties *)

Lemma u256_some bs n : u256_of_bytes bs = Some n ↔ length bs = 32%nat ∧ n = from_le_bytes bs.
Proof. unfold u256_of_bytes. case_decide; naive_solver. Qed.

(** A path is sent exactly when every sibling is a hash. *)
Lemma u256_of_path path out :
  mapM u256_of_bytes path = Some out ↔
  Forall (λ bs, length bs = 32%nat) path ∧ out = from_le_bytes <$> path.
Proof.
  rewrite mapM_Some. split.
  - induction 1 as [|bs n path out [? ->]%u256_some _ [? ->]]; [done|]. auto.
  - intros [Hlen ->]. induction Hlen; constructor; [|done]. by apply u256_some.
Qed.

(** The root of a solution is the merkle root of the block, if the template's
    path is the branch of its coinbase. *)
Lemma solution_root_commits `{B : BitcoinApi} `{!TemplateLaws B _} td tx rest :
  from_le_bytes <$> td_merkle_path td = branch_spec (S (length rest)) (tx_id tx :: rest) →
  Forall (λ bs, length bs = 32%nat) (td_merkle_path td) →
  Merkle.merkle_root (tx_id tx :: rest) = Some (solution_merkle_root td tx).
Proof.
  intros Hpath Hlen. unfold Merkle.merkle_root, solution_merkle_root. cbn [length].
  rewrite branch_spec_root, <-Hpath by lia. f_equal. unfold root_from_branch.
  generalize (tx_id tx). clear Hpath. induction Hlen as [|bs path Hbs _ IH]; intros cur; [done|].
  cbn [fmap list_fmap foldl]. rewrite IH. f_equal. rewrite law_combine. do 2 f_equal.
  by rewrite <-Hbs, to_from_le_bytes.
Qed.
End templates.
