(* ===== verification/TdpSystem.v ===== *)
(** * The template distribution backend over Bitcoin Core IPC
    ([bitcoin-core-sv2/src/unix_capnp/v31x/template_distribution_protocol/mod.rs],
    [handlers.rs] and [monitors.rs])

    The runtime's tasks run on one thread and interleave at their awaits on
    Bitcoin Core.  What they share is [Shared], what they do between awaits is
    a program on [View] (the shared state and the task's own
    [last_sent_template_instant]: every task works on a clone of the runtime),
    and [tdp_step] the steps of the whole: an answer of Bitcoin Core, a message
    of the channel manager, the passing of time.  Every fact of the outside is
    part of the event.  A panic ends its task; the code panics before it
    changes anything. *)
From S2P Require Import Prelude Handler Bitcoin ServerChannels TdpTemplates.

Inductive TdpError : Type :=
| IpcError
| Fetch (e : FetchError)
| TemplateNotFound
| TemplateIpcClientNotFound
| FailedToSendNewTemplateMessage
| FailedToSendSetNewPrevHashMessage
| FailedToFetchTemplateTxData
| FailedToSendRequestTransactionDataResponseMessage
| FailedToSubmitSolution
| FailedToCreateSolutionDir
| FailedToWaitForMonitorIpcTemplatesTask.

(** What the backend sends. *)
Inductive TdpMessage : Type :=
| OutNewTemplate (m : NewTemplate)
| OutSetNewPrevHash (m : SetNewPrevHash)
| OutTransactionData (id : N) (transactions : list (list byte))
| OutTransactionDataError (id : N) (error_code : string).

(** [receiver_accepts]: how many more messages the other end takes, [None] as
    long as it is there. *)
Record Shared : Type := {
  current_template_ipc_client : option N; current_prev_hash : option N;
  retained_templates : gmap N TemplateData; tip_template : option TemplateData;
  template_id_factory : N; receiver_accepts : option nat;
  outgoing_messages : list (N * TdpMessage);
}.

Record View : Type := { shared : Shared; last_sent_template_instant : option N }.

Section backend.
Context `{TemplateApi} (fee_threshold min_interval : N) (requested_templates : option nat).

Notation tdp := (prog View TdpError).

(** [None] and zero mean the default. *)
Definition max_same_tip_templates : nat :=
  match requested_templates with None | Some O => DEFAULT_MAX_SAME_TIP_TEMPLATES | Some n => n end.

Definition put_retained (m : gmap N TemplateData) (s : Shared) : Shared :=
  {| current_template_ipc_client := current_template_ipc_client s;
     current_prev_hash := current_prev_hash s; retained_templates := m;
     tip_template := tip_template s; template_id_factory := template_id_factory s;
     receiver_accepts := receiver_accepts s; outgoing_messages := outgoing_messages s |}.
Definition put_tip (t : option TemplateData) (s : Shared) : Shared :=
  {| current_template_ipc_client := current_template_ipc_client s;
     current_prev_hash := current_prev_hash s; retained_templates := retained_templates s;
     tip_template := t; template_id_factory := template_id_factory s;
     receiver_accepts := receiver_accepts s; outgoing_messages := outgoing_messages s |}.
Definition put_prev_hash (h : N) (s : Shared) : Shared :=
  {| current_template_ipc_client := current_template_ipc_client s;
     current_prev_hash := Some h; retained_templates := retained_templates s;
     tip_template := tip_template s; template_id_factory := template_id_factory s;
     receiver_accepts := receiver_accepts s; outgoing_messages := outgoing_messages s |}.
(** [set_current_template_ipc_client]. *)
Definition set_current_template_ipc_client (c : N) (s : Shared) : Shared :=
  {| current_template_ipc_client := Some c;
     current_prev_hash := current_prev_hash s; retained_templates := retained_templates s;
     tip_template := tip_template s; template_id_factory := template_id_factory s;
     receiver_accepts := receiver_accepts s; outgoing_messages := outgoing_messages s |}.
(** [template_id_factory.fetch_add(1)], the start of [fetch_template_data]. *)
Definition next_template_id (s : Shared) : N * Shared :=
  (template_id_factory s,
   {| current_template_ipc_client := current_template_ipc_client s;
      current_prev_hash := current_prev_hash s; retained_templates := retained_templates s;
      tip_template := tip_template s;
      template_id_factory := u64_add (template_id_factory s) 1;
      receiver_accepts := receiver_accepts s; outgoing_messages := outgoing_messages s |}).
Definition put_outgoing (left : option nat) (log : list (N * TdpMessage)) (s : Shared) : Shared :=
  {| current_template_ipc_client := current_template_ipc_client s;
     current_prev_hash := current_prev_hash s; retained_templates := retained_templates s;
     tip_template := tip_template s; template_id_factory := template_id_factory s;
     receiver_accepts := left; outgoing_messages := log |}.

Definition in_shared (f : Shared → Shared) (v : View) : View :=
  {| shared := f (shared v); last_sent_template_instant := last_sent_template_instant v |}.
Definition put_last_sent (t : N) (v : View) : View :=
  {| shared := shared v; last_sent_template_instant := Some t |}.

(** [outgoing_messages.send(..)]. *)
Definition send (now : N) (m : TdpMessage) (e : TdpError) : tdp unit :=
  left ← ask (λ v, receiver_accepts (shared v));
  match left with
  | Some O => raise e
  | _ => update (in_shared (λ s,
           put_outgoing (pred <$> left) (outgoing_messages s ++ [(now, m)]) s))
  end.

(** ** Templates *)

(** [fetch_template_data] after the answers of Bitcoin Core: the header's
    bytes, the coinbase (a structure from v31x, bytes from v30x) and the merkle
    path. *)
Inductive CoinbaseAnswer : Type :=
| CoinbaseStruct (r : CoinbaseTxReader)
| CoinbaseBytes (bs : list byte).
Record Fetched : Type := {
  f_header : list byte; f_coinbase : CoinbaseAnswer; f_merkle_path : list (list byte);
}.
Definition coinbase_tx (answer : CoinbaseAnswer) : result (FullTx * option N) FetchError :=
  match answer with
  | CoinbaseStruct r =>
      match coinbase_tx_from_ipc r with
      | Ok (tx, reward) => Ok (tx, Some reward)
      | Err e => Err e
      end
  | CoinbaseBytes bs =>
      match deserialize_tx bs with Some tx => Ok (tx, None) | None => Err InvalidTemplateHeader end
  end.
Definition fetch_template_data (id client : N) (data : option Fetched)
    : result TemplateData TdpError :=
  match data with
  | None => Err IpcError
  | Some d =>
      match deserialize_header (f_header d) with
      | None => Err (Fetch InvalidTemplateHeader)
      | Some header =>
          match coinbase_tx (f_coinbase d) with
          | Err e => Err (Fetch e)
          | Ok (tx, reward) => Ok (new_template_data id header tx reward (f_merkle_path d) client)
          end
      end
  end.

(** [store_template_data]. *)
Definition store_template_data (td : TemplateData) (future : bool) (s : Shared) : Shared :=
  if future then put_tip (Some td) s
  else put_retained (<[td_template_id td := td]> (retained_templates s)) s.

(** [template_data_for]. *)
Definition template_data_for (id : N) (s : Shared) : option TemplateData :=
  match tip_template s with
  | Some td => if (td_template_id td =? id)%N then Some td else retained_templates s !! id
  | None => retained_templates s !! id
  end.

(** [retire_all_templates]. *)
Definition retire_all_templates (now : N) (s : Shared) : Shared :=
  let deadline := now + STALE_TEMPLATE_GRACE_PERIOD in
  let retained := retire deadline <$> retained_templates s in
  match tip_template s with
  | Some td => put_tip None (put_retained (<[td_template_id td := retire deadline td]> retained) s)
  | None => put_retained retained s
  end.

Definition live (td : TemplateData) : bool := bool_decide (retire_at td = None).

(** [sort_unstable] on distinct ids. *)
Definition sorted_ids (m : gmap N TemplateData) : list N :=
  merge_sort N.le (map_to_list m).*1.
Definition live_template_ids (s : Shared) : list N :=
  sorted_ids (filter (λ p, live p.2 = true) (retained_templates s)).

(** [retire_templates_beyond_cap]. *)
Definition retire_templates_beyond_cap (now : N) (s : Shared) : Shared :=
  let deadline := now + STALE_TEMPLATE_GRACE_PERIOD in
  let ids := live_template_ids s in
  if (length ids <=? max_same_tip_templates)%nat then s
  else match ids !! (length ids - max_same_tip_templates)%nat with
  | None => s
  | Some oldest_kept =>
      put_retained (map_imap (λ id td, Some (if (id <? oldest_kept)%N then retire deadline td else td))
                      (retained_templates s)) s
  end.

(** [publish_template]. *)
Definition publish_template (now : N) (td : TemplateData)
    (future send_set_new_prev_hash update_last_sent : bool) : tdp unit :=
  r ← run_rust (of_template (get_new_template_message future) td);
  new_template ← ok_or_raise r (λ _, FailedToSendNewTemplateMessage);
  update (in_shared (store_template_data td future));;
  update (in_shared (retire_templates_beyond_cap now));;
  (if send_set_new_prev_hash then update (in_shared (put_prev_hash (get_prev_hash td)))
   else mret tt);;
  send now (OutNewTemplate new_template) FailedToSendNewTemplateMessage;;
  (if send_set_new_prev_hash
   then send now (OutSetNewPrevHash (get_set_new_prev_hash_message td))
          FailedToSendSetNewPrevHashMessage
   else mret tt);;
  if update_last_sent then update (put_last_sent now) else mret tt.

(** ** Handlers *)

(** The weight the bootstrap asks Bitcoin Core to reserve. *)
Definition block_reserved_weight (max_additional_size : N) : N :=
  N.max (FIXED_BLOCK_RESERVED_WEIGHT + max_additional_size * WEIGHT_FACTOR)
    MIN_BLOCK_RESERVED_WEIGHT.

(** [bootstrap_template_ipc_client_from_coinbase_output_constraints] once the
    new client's template is fetched. *)
Definition bootstrap_template (now id client : N) (data : option Fetched) : tdp unit :=
  td ← ok_or_raise (fetch_template_data id client data) (λ e, e);
  publish_template now td true true true;;
  update (in_shared (set_current_template_ipc_client client)).

(** [handle_request_transaction_data]: up to the await, and after it. *)
Definition request_transaction_data (now id : N) : tdp (option TemplateData) :=
  found ← ask (λ v, template_data_for id (shared v));
  match found with
  | Some td =>
      if live td then mret (Some td)
      else send now (OutTransactionDataError id ERROR_CODE_STALE_TEMPLATE_ID)
             FailedToSendRequestTransactionDataResponseMessage;;
           mret None
  | None => send now (OutTransactionDataError id ERROR_CODE_TEMPLATE_ID_NOT_FOUND)
              FailedToSendRequestTransactionDataResponseMessage;;
            mret None
  end.
Definition transaction_data_answer (now : N) (td : TemplateData) (bytes : option (list byte))
    : tdp unit :=
  bytes ← some_or bytes FailedToFetchTemplateTxData;
  data ← run_rust (get_tx_data bytes);
  transactions ← ok_or_raise data (λ _, FailedToFetchTemplateTxData);
  send now (OutTransactionData (td_template_id td) transactions)
    FailedToSendRequestTransactionDataResponseMessage.

(** [handle_submit_solution] up to the request to Bitcoin Core; [dir_ok]:
    whether the directory for solutions is there. *)
Definition submit_solution (sol : SubmitSolution) (dir_ok : bool) : tdp (TemplateData * FullTx) :=
  found ← ask (λ v, template_data_for (sol_template_id sol) (shared v));
  td ← some_or found TemplateNotFound;
  ensure dir_ok FailedToCreateSolutionDir;;
  tx ← some_or (deserialize_tx (sol_coinbase_tx sol)) FailedToSubmitSolution;
  mret (td, tx).

(** ** The monitor of Bitcoin Core's templates *)

(** [x as i64] of a [u64]. *)
Definition u64_as_i64 (n : N) : Z :=
  if (n <? 9223372036854775808)%N then Z.of_N n else (Z.of_N n - 18446744073709551616)%Z.

Record WaitNext : Type := { wn_fee_threshold : Z; wn_timeout_ms : N }.

(** The request of one iteration of [monitor_ipc_templates]. *)
Definition wait_next_request (now : N) (last : option N) : WaitNext :=
  let plain := {| wn_fee_threshold := u64_as_i64 fee_threshold;
                  wn_timeout_ms := WAIT_NEXT_TIMEOUT_MS |} in
  match last with
  | Some last =>
      let elapsed_ms := (now - last) / 1000000 in
      let min_interval_ms := min_interval * 1000 in
      if (elapsed_ms <? min_interval_ms)%N
      then {| wn_fee_threshold := MAX_MONEY;
              wn_timeout_ms := N.min (min_interval_ms - elapsed_ms) WAIT_NEXT_TIMEOUT_MS |}
      else plain
  | None => plain
  end.

(** What the monitor does with a new template. *)
Definition monitor_template (now id client : N) (data : option Fetched) : tdp unit :=
  td ← ok_or_raise (fetch_template_data id client data) (λ e, e);
  current ← ask (λ v, current_prev_hash (shared v));
  current ← some_or current IpcError;
  (if decide (get_prev_hash td ≠ current) then
     update (in_shared (retire_all_templates now));;
     publish_template now td true true false
   else publish_template now td false false true);;
  update (in_shared (set_current_template_ipc_client client)).
End backend.
