(* ===== verification/TdpTasks.v ===== *)
(** * The tasks of the template distribution backend
    ([run] of [mod.rs], [handlers.rs], [monitors.rs])

    The task that handles messages (it starts as [run] itself), the monitor of
    Bitcoin Core's templates, the sweeper of retired ones and the detached
    tasks that archive solutions.  A task is the await it stands at, with its
    local variables; an event is what happens at an await.  [tdp_step] is
    [None] for an event no task is waiting for. *)
From S2P Require Import Prelude Handler Bitcoin ServerChannels TdpTemplates TdpSystem.

(** [run] waiting for constraints; [createNewBlock]; the template's data; the
    loop of [monitor_incoming_messages]; the end of the monitor; [getBlock];
    [submitSolution]. *)
Inductive MessagesTask : Type :=
| Starting
| Creating (first : bool)
| FetchingFirst (first : bool) (id client : N)
| Receiving
| JoiningMonitor (max_additional_size max_additional_sigops : N)
| AwaitingTransactions (td : TemplateData)
| AwaitingSolution (td : TemplateData) (tx : FullTx) (sol : SubmitSolution)
| MessagesStopped.

Inductive MonitorTask : Type :=
| NoMonitor
| MonitorStarting
| Waiting (request : WaitNext)
| FetchingNext (request : WaitNext) (id client : N)
| MonitorFinished
| MonitorPanicked.

Inductive SweeperTask : Type :=
| NoSweeper
| SweeperStarting
| Sleeping
| Destroying (due : gmap N TemplateData) (request : option N)
| SweeperStopped.

Inductive CoreRequest : Type :=
| CreateNewBlock (block_reserved_weight coinbase_output_max_additional_sigops : N)
| SubmitSolutionTo (client : N) (sol : SubmitSolution)
| DestroyClient (client : N).

Record Tdp : Type := {
  state : Shared; clock : N; cancelled : bool; template_token_cancelled : bool;
  messages : MessagesTask; messages_last_sent : option N;
  monitor : MonitorTask; monitor_last_sent : option N;
  sweeper : SweeperTask;
  archiving : list (TemplateData * FullTx * SubmitSolution); archived : list FullBlock;
  asked : list (N * CoreRequest);
}.

(** The answer to [waitNext]. *)
Inductive WaitNextAnswer : Type :=
| WaitFailed
| TimedOut
| NewClient (client : N).

Inductive TdpEvent : Type :=
| Tick (later : N)
| Cancel
| ReceiverCloses (after : nat)
| Incoming (m : TpMessage) (dir_ok : bool)
| BlockCreated (client : option N)
| MessagesFetched (data : option Fetched)
| MonitorJoined
| TransactionsAnswer (bytes : option (list byte))
| SolutionAnswer (accepted : option bool)
| MessagesCancelled
| MonitorReady (ok : bool)
| WaitNextReturns (answer : WaitNextAnswer)
| MonitorFetched (data : option Fetched)
| MonitorCancelled
| SweeperReady (ok : bool)
| Sweep
| DestroyNext (id : N)
| Destroyed (ok : bool)
| SweeperCancelled
| ArchiveAnswer (i : nat) (bytes : option (list byte)) (written : bool)
| ArchiveCancelled (i : nat).

Section tasks.
Context `{TemplateApi} (fee_threshold min_interval : N) (requested_templates : option nat).

(** ** Updates *)
Definition put_state (sh : Shared) (t : Tdp) : Tdp :=
  {| state := sh; clock := clock t; cancelled := cancelled t;
     template_token_cancelled := template_token_cancelled t; messages := messages t;
     messages_last_sent := messages_last_sent t; monitor := monitor t;
     monitor_last_sent := monitor_last_sent t; sweeper := sweeper t; archiving := archiving t;
     archived := archived t; asked := asked t |}.
Definition put_clock (now : N) (t : Tdp) : Tdp :=
  {| state := state t; clock := now; cancelled := cancelled t;
     template_token_cancelled := template_token_cancelled t; messages := messages t;
     messages_last_sent := messages_last_sent t; monitor := monitor t;
     monitor_last_sent := monitor_last_sent t; sweeper := sweeper t; archiving := archiving t;
     archived := archived t; asked := asked t |}.
Definition cancel (t : Tdp) : Tdp :=
  {| state := state t; clock := clock t; cancelled := true;
     template_token_cancelled := template_token_cancelled t; messages := messages t;
     messages_last_sent := messages_last_sent t; monitor := monitor t;
     monitor_last_sent := monitor_last_sent t; sweeper := sweeper t; archiving := archiving t;
     archived := archived t; asked := asked t |}.
Definition put_token (b : bool) (t : Tdp) : Tdp :=
  {| state := state t; clock := clock t; cancelled := cancelled t; template_token_cancelled := b;
     messages := messages t; messages_last_sent := messages_last_sent t; monitor := monitor t;
     monitor_last_sent := monitor_last_sent t; sweeper := sweeper t; archiving := archiving t;
     archived := archived t; asked := asked t |}.
Definition put_messages (m : MessagesTask) (t : Tdp) : Tdp :=
  {| state := state t; clock := clock t; cancelled := cancelled t;
     template_token_cancelled := template_token_cancelled t; messages := m;
     messages_last_sent := messages_last_sent t; monitor := monitor t;
     monitor_last_sent := monitor_last_sent t; sweeper := sweeper t; archiving := archiving t;
     archived := archived t; asked := asked t |}.
Definition put_messages_last (l : option N) (t : Tdp) : Tdp :=
  {| state := state t; clock := clock t; cancelled := cancelled t;
     template_token_cancelled := template_token_cancelled t; messages := messages t;
     messages_last_sent := l; monitor := monitor t;
     monitor_last_sent := monitor_last_sent t; sweeper := sweeper t; archiving := archiving t;
     archived := archived t; asked := asked t |}.
Definition put_monitor (m : MonitorTask) (t : Tdp) : Tdp :=
  {| state := state t; clock := clock t; cancelled := cancelled t;
     template_token_cancelled := template_token_cancelled t; messages := messages t;
     messages_last_sent := messages_last_sent t; monitor := m;
     monitor_last_sent := monitor_last_sent t; sweeper := sweeper t; archiving := archiving t;
     archived := archived t; asked := asked t |}.
Definition put_monitor_last (l : option N) (t : Tdp) : Tdp :=
  {| state := state t; clock := clock t; cancelled := cancelled t;
     template_token_cancelled := template_token_cancelled t; messages := messages t;
     messages_last_sent := messages_last_sent t; monitor := monitor t;
     monitor_last_sent := l; sweeper := sweeper t; archiving := archiving t;
     archived := archived t; asked := asked t |}.
Definition put_sweeper (w : SweeperTask) (t : Tdp) : Tdp :=
  {| state := state t; clock := clock t; cancelled := cancelled t;
     template_token_cancelled := template_token_cancelled t; messages := messages t;
     messages_last_sent := messages_last_sent t; monitor := monitor t;
     monitor_last_sent := monitor_last_sent t; sweeper := w; archiving := archiving t;
     archived := archived t; asked := asked t |}.
Definition put_archive (todo : list (TemplateData * FullTx * SubmitSolution))
    (done : list FullBlock) (t : Tdp) : Tdp :=
  {| state := state t; clock := clock t; cancelled := cancelled t;
     template_token_cancelled := template_token_cancelled t; messages := messages t;
     messages_last_sent := messages_last_sent t; monitor := monitor t;
     monitor_last_sent := monitor_last_sent t; sweeper := sweeper t; archiving := todo;
     archived := done; asked := asked t |}.
Definition ask_core (r : CoreRequest) (t : Tdp) : Tdp :=
  {| state := state t; clock := clock t; cancelled := cancelled t;
     template_token_cancelled := template_token_cancelled t; messages := messages t;
     messages_last_sent := messages_last_sent t; monitor := monitor t;
     monitor_last_sent := monitor_last_sent t; sweeper := sweeper t; archiving := archiving t;
     archived := archived t; asked := asked t ++ [(clock t, r)] |}.

(** A task's program on its view, [None] being a panic. *)
Definition exec {A} (p : prog View TdpError A) (v : View) : option (result A TdpError) * View :=
  match p v with Done (r, v') => (Some r, v') | Panic => (None, v) end.
Definition exec_messages {A} (p : prog View TdpError A) (t : Tdp)
    : option (result A TdpError) * Tdp :=
  let '(r, v) :=
    exec p {| shared := state t; last_sent_template_instant := messages_last_sent t |} in
  (r, put_messages_last (last_sent_template_instant v) (put_state (shared v) t)).
Definition exec_monitor {A} (p : prog View TdpError A) (t : Tdp)
    : option (result A TdpError) * Tdp :=
  let '(r, v) :=
    exec p {| shared := state t; last_sent_template_instant := monitor_last_sent t |} in
  (r, put_monitor_last (last_sent_template_instant v) (put_state (shared v) t)).

(** ** The messages *)

(** [createNewBlock] for some constraints. *)
Definition create_new_block (first : bool) (size sigops : N) (t : Tdp) : Tdp :=
  put_messages (Creating first) (ask_core (CreateNewBlock (block_reserved_weight size) sigops) t).

(** [monitor_ipc_templates()]: a clone of the caller's runtime. *)
Definition spawn_monitor (t : Tdp) : Tdp :=
  put_monitor MonitorStarting (put_monitor_last (messages_last_sent t) t).

(** How a task that must not fail goes on. *)
Definition stop_messages (r : option (result unit TdpError)) (ok : Tdp → Tdp) (t : Tdp) : Tdp :=
  match r with
  | Some (Ok _) => ok t
  | Some (Err _) => cancel (put_messages MessagesStopped t)
  | None => put_messages MessagesStopped t
  end.

(** [run] after the first template, or the end of a rotation. *)
Definition booted (first : bool) (t : Tdp) : Tdp :=
  let t := put_messages Receiving (spawn_monitor t) in
  if first then put_sweeper SweeperStarting t else t.

(** A message taken by [run] or by [monitor_incoming_messages]. *)
Definition receive (m : TpMessage) (dir_ok : bool) (t : Tdp) : option Tdp :=
  match messages t, m with
  | Starting, MsgCoinbaseOutputConstraints size sigops =>
      Some (create_new_block true size sigops t)
  | Starting, _ => Some t
  | Receiving, MsgCoinbaseOutputConstraints size sigops =>
      Some (put_messages (JoiningMonitor size sigops) (put_token true t))
  | Receiving, MsgRequestTransactionData id =>
      let '(r, t) := exec_messages (request_transaction_data (clock t) id) t in
      Some match r with
           | Some (Ok (Some td)) => put_messages (AwaitingTransactions td) t
           | Some (Ok None) => t
           | Some (Err _) => cancel (put_messages MessagesStopped t)
           | None => put_messages MessagesStopped t
           end
  | Receiving, MsgSubmitSolution sol =>
      let '(r, t) := exec_messages (submit_solution sol dir_ok) t in
      Some match r with
           | Some (Ok (td, tx)) =>
               put_messages (AwaitingSolution td tx sol)
                 (ask_core (SubmitSolutionTo (template_ipc_client td) sol) t)
           | Some (Err _) => t
           | None => put_messages MessagesStopped t
           end
  | _, _ => None
  end.

Definition block_created (client : option N) (t : Tdp) : option Tdp :=
  match messages t with
  | Creating first =>
      Some match client with
           | None => cancel (put_messages MessagesStopped t)
           | Some client =>
               let '(id, sh) := next_template_id (state t) in
               put_messages (FetchingFirst first id client) (put_state sh t)
           end
  | _ => None
  end.

Definition messages_fetched (data : option Fetched) (t : Tdp) : option Tdp :=
  match messages t with
  | FetchingFirst first id client =>
      let '(r, t) :=
        exec_messages (bootstrap_template requested_templates (clock t) id client data) t in
      Some (stop_messages r (booted first) t)
  | _ => None
  end.

(** [handle_coinbase_output_constraints] once the monitor has ended. *)
Definition monitor_joined (t : Tdp) : option Tdp :=
  match messages t, monitor t with
  | JoiningMonitor size sigops, MonitorFinished | JoiningMonitor size sigops, NoMonitor =>
      Some (create_new_block false size sigops (put_token false (put_monitor NoMonitor
              (put_state (retire_all_templates (clock t) (state t)) t))))
  | JoiningMonitor _ _, MonitorPanicked =>
      Some (cancel (put_messages MessagesStopped (put_monitor NoMonitor t)))
  | _, _ => None
  end.

Definition transactions_answer (bytes : option (list byte)) (t : Tdp) : option Tdp :=
  match messages t with
  | AwaitingTransactions td =>
      let '(r, t) := exec_messages (transaction_data_answer (clock t) td bytes) t in
      Some (stop_messages r (put_messages Receiving) t)
  | _ => None
  end.

(** The solution is archived once Bitcoin Core took it. *)
Definition solution_answer (accepted : option bool) (t : Tdp) : option Tdp :=
  match messages t with
  | AwaitingSolution td tx sol =>
      let t := put_messages Receiving t in
      Some match accepted with
           | Some true => put_archive (archiving t ++ [(td, tx, sol)]) (archived t) t
           | _ => t
           end
  | _ => None
  end.

(** The awaits that give way to the global token. *)
Definition messages_cancelled (t : Tdp) : option Tdp :=
  match messages t with
  | JoiningMonitor _ _ | MessagesStopped => None
  | _ => if cancelled t then Some (put_messages MessagesStopped t) else None
  end.

(** ** The monitor *)
Definition wait_next (t : Tdp) : Tdp :=
  put_monitor (Waiting (wait_next_request fee_threshold min_interval (clock t)
                          (monitor_last_sent t))) t.

Definition monitor_ready (ok : bool) (t : Tdp) : option Tdp :=
  match monitor t with
  | MonitorStarting =>
      Some (if ok && bool_decide (is_Some (current_template_ipc_client (state t)))
            then wait_next t else cancel (put_monitor MonitorFinished t))
  | _ => None
  end.

Definition wait_next_returns (answer : WaitNextAnswer) (t : Tdp) : option Tdp :=
  match monitor t with
  | Waiting request =>
      Some match answer with
           | WaitFailed => cancel (put_monitor MonitorFinished t)
           | TimedOut => wait_next t
           | NewClient client =>
               let '(id, sh) := next_template_id (state t) in
               put_monitor (FetchingNext request id client) (put_state sh t)
           end
  | _ => None
  end.

Definition monitor_fetched (data : option Fetched) (t : Tdp) : option Tdp :=
  match monitor t with
  | FetchingNext _ id client =>
      let '(r, t) :=
        exec_monitor (monitor_template requested_templates (clock t) id client data) t in
      Some match r with
           | Some (Ok _) => wait_next t
           | Some (Err _) => cancel (put_monitor MonitorFinished t)
           | None => put_monitor MonitorPanicked t
           end
  | _ => None
  end.

Definition monitor_cancelled (t : Tdp) : option Tdp :=
  match monitor t with
  | MonitorStarting | FetchingNext _ _ _ =>
      if cancelled t then Some (put_monitor MonitorFinished t) else None
  | Waiting _ =>
      if cancelled t || template_token_cancelled t then Some (put_monitor MonitorFinished t)
      else None
  | _ => None
  end.

(** ** The sweeper: [monitor_template_retirement] *)
Definition is_due (now : N) (td : TemplateData) : bool :=
  match retire_at td with Some deadline => (deadline <=? now)%N | None => false end.

Definition sweeper_ready (ok : bool) (t : Tdp) : option Tdp :=
  match sweeper t with
  | SweeperStarting => Some (if ok then put_sweeper Sleeping t
                             else cancel (put_sweeper SweeperStopped t))
  | _ => None
  end.

(** After a sleep: [extract_if]. *)
Definition sweep (t : Tdp) : option Tdp :=
  match sweeper t with
  | Sleeping =>
      let retained := retained_templates (state t) in
      Some (put_sweeper (Destroying (filter (λ p, is_due (clock t) p.2 = true) retained) None)
              (put_state (put_retained (filter (λ p, is_due (clock t) p.2 = false) retained)
                            (state t)) t))
  | _ => None
  end.

(** One round of the loop over the due templates, in any order: the request of
    [destroy_ipc_client], and its answer; the next sleep when none is left. *)
Definition destroy_next (id : N) (t : Tdp) : option Tdp :=
  match sweeper t with
  | Destroying due None =>
      if decide (due = ∅) then Some (put_sweeper Sleeping t)
      else match due !! id with
      | None => None
      | Some td =>
          Some (put_sweeper (Destroying (delete id due) (Some id))
                  (ask_core (DestroyClient (template_ipc_client td)) t))
      end
  | _ => None
  end.
Definition destroyed (ok : bool) (t : Tdp) : option Tdp :=
  match sweeper t with
  | Destroying due (Some _) =>
      Some (if ok then put_sweeper (Destroying due None) t
            else cancel (put_sweeper SweeperStopped t))
  | _ => None
  end.

Definition sweeper_cancelled (t : Tdp) : option Tdp :=
  match sweeper t with
  | NoSweeper | SweeperStopped => None
  | _ => if cancelled t then Some (put_sweeper SweeperStopped t) else None
  end.

(** ** The archive: [dump_solution_to_disk] *)
Definition remove_at {A} (i : nat) (l : list A) : list A := take i l ++ drop (S i) l.

Definition archive_answer (i : nat) (bytes : option (list byte)) (written : bool) (t : Tdp)
    : option Tdp :=
  match archiving t !! i with
  | None => None
  | Some (td, tx, sol) =>
      let todo := remove_at i (archiving t) in
      Some match archive_solution td tx (sol_version sol) (sol_ntime sol) (sol_nonce sol) bytes with
           | Done (Ok block) =>
               put_archive todo (if written then archived t ++ [block] else archived t) t
           | _ => put_archive todo (archived t) t
           end
  end.

Definition archive_cancelled (i : nat) (t : Tdp) : option Tdp :=
  match archiving t !! i with
  | None => None
  | Some _ => if cancelled t then Some (put_archive (remove_at i (archiving t)) (archived t) t)
              else None
  end.

(** ** Steps *)
Definition tdp_step (ev : TdpEvent) (t : Tdp) : option Tdp :=
  match ev with
  | Tick later => Some (put_clock (clock t + later) t)
  | Cancel => Some (cancel t)
  | ReceiverCloses n =>
      match receiver_accepts (state t) with
      | None => Some (put_state (put_outgoing (Some n) (outgoing_messages (state t)) (state t)) t)
      | Some _ => None
      end
  | Incoming m dir_ok => receive m dir_ok t
  | BlockCreated client => block_created client t
  | MessagesFetched data => messages_fetched data t
  | MonitorJoined => monitor_joined t
  | TransactionsAnswer bytes => transactions_answer bytes t
  | SolutionAnswer accepted => solution_answer accepted t
  | MessagesCancelled => messages_cancelled t
  | MonitorReady ok => monitor_ready ok t
  | WaitNextReturns answer => wait_next_returns answer t
  | MonitorFetched data => monitor_fetched data t
  | MonitorCancelled => monitor_cancelled t
  | SweeperReady ok => sweeper_ready ok t
  | Sweep => sweep t
  | DestroyNext id => destroy_next id t
  | Destroyed ok => destroyed ok t
  | SweeperCancelled => sweeper_cancelled t
  | ArchiveAnswer i bytes written => archive_answer i bytes written t
  | ArchiveCancelled i => archive_cancelled i t
  end.

(** [BitcoinCoreSv2TDP::new]. *)
Definition tdp_init (now : N) : Tdp :=
  {| state :=
       {| current_template_ipc_client := None; current_prev_hash := None; retained_templates := ∅;
          tip_template := None; template_id_factory := 0; receiver_accepts := None;
          outgoing_messages := [] |};
     clock := now; cancelled := false; template_token_cancelled := false; messages := Starting;
     messages_last_sent := None; monitor := NoMonitor; monitor_last_sent := None;
     sweeper := NoSweeper; archiving := []; archived := []; asked := [] |}.

(** Runs, from any state, in which the outside behaves as [fair] says. *)
Inductive tdp_run (fair : Tdp → TdpEvent → Prop) (t : Tdp) : list TdpEvent → Tdp → Prop :=
| tdp_run_nil : tdp_run fair t [] t
| tdp_run_step evs t' ev t'' :
    tdp_run fair t evs t' → fair t' ev → tdp_step ev t' = Some t'' →
    tdp_run fair t (evs ++ [ev]) t''.
Definition anyhow (t : Tdp) (ev : TdpEvent) : Prop := True.

(** The run of some events. *)
Fixpoint tdp_exec (evs : list TdpEvent) (t : Tdp) : option Tdp :=
  match evs with
  | [] => Some t
  | ev :: evs => t' ← tdp_step ev t; tdp_exec evs t'
  end.

Lemma tdp_run_trans fair t evs t' evs' t'' :
  tdp_run fair t evs t' → tdp_run fair t' evs' t'' → tdp_run fair t (evs ++ evs') t''.
Proof.
  intros H1. induction 1 as [|evs' u ev u' _ IH Hfair Hstep]; [by rewrite app_nil_r|].
  rewrite (assoc_L (++)). by econstructor.
Qed.

Lemma tdp_exec_run evs t t' : tdp_exec evs t = Some t' → tdp_run anyhow t evs t'.
Proof.
  revert t. induction evs as [|ev evs IH]; intros t; [intros [= ->]; constructor|].
  simpl. intros (t1 & Hstep & Hrest)%bind_Some.
  apply (tdp_run_trans _ t [ev] t1); [|by apply IH].
  apply (tdp_run_step _ _ [] t ev); [constructor|done|done].
Qed.

(** Induction over runs. *)
Lemma tdp_run_invariant fair (P : nat → Tdp → Prop) t evs t' :
  P 0%nat t →
  (∀ n u ev u', P n u → fair u ev → tdp_step ev u = Some u' → P (S n) u') →
  tdp_run fair t evs t' → P (length evs) t'.
Proof.
  intros H0 Hstep. induction 1 as [|evs u ev u' _ IH Hfair Hs]; [done|].
  rewrite length_app, Nat.add_1_r. by eapply Hstep.
Qed.
End tasks.
