(* ===== verification/TdpInv.v ===== *)
(** * What a template source promises, and the invariant of the backend's state

    [client_view] reads the backend's messages the way a client does: ids
    grow, a future template is made the tip by the message after it, other
    templates belong to that tip.  [shared_ok] is the invariant of the state
    the tasks share, and [linked] relates the state to the client's view: the
    templates that answer are the tip's and the newest of its refreshes. *)
From S2P Require Import Prelude Handler Bitcoin ServerChannels TdpTemplates TdpSystem TdpTasks.

(** ** The client's view *)
Record ClientView : Type := {
  tip : option (N * N);        (* the tip's template and its previous hash *)
  expected : option N;         (* a future template, before its previous hash *)
  newest : option N;           (* the last template *)
  refreshes : list N;          (* the tip's other templates *)
}.

Definition no_view : ClientView :=
  {| tip := None; expected := None; newest := None; refreshes := [] |}.

Definition newer (id : N) (last : option N) : bool :=
  match last with Some l => (l <? id)%N | None => true end.

(** [None]: not what a template source may send. *)
Definition view_step (v : ClientView) (m : TdpMessage) : option ClientView :=
  match m, expected v, tip v with
  | OutNewTemplate m, None, _ =>
      if newer (template_id m) (newest v) then
        if future_template m then
          Some {| tip := tip v; expected := Some (template_id m); newest := Some (template_id m);
                  refreshes := refreshes v |}
        else match tip v with
        | Some _ =>
            Some {| tip := tip v; expected := None; newest := Some (template_id m);
                    refreshes := refreshes v ++ [template_id m] |}
        | None => None
        end
      else None
  | OutSetNewPrevHash m, Some id, _ =>
      if (ph_template_id m =? id)%N
      then Some {| tip := Some (id, ph_prev_hash m); expected := None; newest := newest v;
                   refreshes := [] |}
      else None
  | OutTransactionData _ _, _, _ | OutTransactionDataError _ _, _, _ => Some v
  | _, _, _ => None
  end.

Definition client_view (log : list (N * TdpMessage)) : option ClientView :=
  foldl (λ v p, v ← v; view_step v p.2) (Some no_view) log.

Lemma client_view_snoc log p : client_view (log ++ [p]) = v ← client_view log; view_step v p.2.
Proof. unfold client_view. by rewrite foldl_app. Qed.

(** The last [n] elements. *)
Definition last_n {A} (n : nat) (l : list A) : list A := drop (length l - n) l.

Lemma last_n_small {A} n (l : list A) : (length l ≤ n)%nat → last_n n l = l.
Proof. intros. unfold last_n. by replace (length l - n)%nat with 0%nat by lia. Qed.
Lemma last_n_length {A} n (l : list A) : length (last_n n l) = Nat.min (length l) n.
Proof. unfold last_n. rewrite length_drop. lia. Qed.
Lemma last_n_snoc {A} n (l : list A) (x : A) :
  last_n n (last_n n l ++ [x]) = last_n n (l ++ [x]).
Proof.
  unfold last_n at 1 3. rewrite !length_app, last_n_length. simpl length. unfold last_n.
  destruct (decide (length l ≤ n)%nat) as [Hl|Hl].
  - rewrite Nat.min_l by lia. by replace (length l - n)%nat with 0%nat by lia.
  - rewrite Nat.min_r by lia. destruct n as [|n].
    { rewrite !Nat.sub_0_r, !drop_ge; [done|rewrite length_app; simpl; lia|].
      rewrite length_app, length_drop. simpl. lia. }
    replace (S n + 1 - S n)%nat with 1%nat by lia.
    replace (length l + 1 - S n)%nat with (S (length l - S n)) by lia.
    rewrite !drop_app_le by (rewrite ?length_drop; lia). by rewrite drop_drop, Nat.add_1_r.
Qed.

Section invariant.
Context `{TemplateApi} (fee_threshold min_interval : N) (requested : option nat).
Notation cap := (max_same_tip_templates requested).

Lemma cap_pos : (0 < cap)%nat.
Proof. unfold max_same_tip_templates. destruct requested as [[|n]|]; unfold DEFAULT_MAX_SAME_TIP_TEMPLATES; lia. Qed.

(** ** The live templates *)
Definition live_at (m : gmap N TemplateData) (id : N) : Prop :=
  ∃ td, m !! id = Some td ∧ live td = true.

#[local] Instance N_le_trans : Transitive N.le := N.le_trans.
#[local] Instance N_le_antisymm : AntiSymm (=) N.le := N.le_antisymm.
#[local] Instance N_le_total : Total N.le.
Proof. intros x y. lia. Qed.

Lemma live_ids_elem s id : id ∈ live_template_ids s ↔ live_at (retained_templates s) id.
Proof.
  unfold live_template_ids, sorted_ids, live_at. rewrite merge_sort_Permutation, list_elem_of_fmap.
  split.
  - intros ([i td] & -> & Hin%elem_of_map_to_list). apply map_lookup_filter_Some in Hin as [? ?].
    by exists td.
  - intros (td & Htd & Hlive). exists (id, td). split; [done|]. apply elem_of_map_to_list.
    by apply map_lookup_filter_Some.
Qed.

Lemma live_ids_nodup s : NoDup (live_template_ids s).
Proof.
  unfold live_template_ids, sorted_ids. rewrite merge_sort_Permutation.
  apply NoDup_fst_map_to_list.
Qed.

(** A sorted list without duplicates increases strictly, and the other way. *)
Lemma increasing l : StronglySorted N.lt l ↔ StronglySorted N.le l ∧ NoDup l.
Proof.
  split.
  - induction 1 as [|x l _ [Hs Hnd] Hall]; [by repeat constructor|]. rewrite Forall_forall in Hall.
    split; constructor; try done.
    + apply Forall_forall. intros y Hy. apply N.lt_le_incl. by apply Hall.
    + intros Hx. specialize (Hall x Hx). lia.
  - intros [Hs Hnd]. induction Hs as [|x l _ IH Hall]; [constructor|].
    apply NoDup_cons in Hnd as [Hx Hnd]. constructor; [by apply IH|].
    rewrite Forall_forall in *. intros y Hy. specialize (Hall y Hy).
    assert (x ≠ y) by congruence. lia.
Qed.

Lemma live_ids_sorted s : StronglySorted N.lt (live_template_ids s).
Proof.
  apply increasing. split; [|apply live_ids_nodup].
  apply Sorted_StronglySorted; [exact N_le_trans|]. apply Sorted_merge_sort. apply _.
Qed.

(** The ids are the increasing list of the live templates. *)
Lemma live_ids_unique s l :
  StronglySorted N.lt l → (∀ id, id ∈ l ↔ live_at (retained_templates s) id) →
  live_template_ids s = l.
Proof.
  intros [Hs Hnd]%increasing Hl. apply (StronglySorted_unique N.le); [|done|].
  - by apply increasing, live_ids_sorted.
  - apply NoDup_Permutation; [apply live_ids_nodup|done|].
    intros id. by rewrite live_ids_elem, Hl.
Qed.

(** The elements from a position on are those not below the one there. *)
Lemma sorted_drop l k x :
  StronglySorted N.lt l → l !! k = Some x → ∀ y, y ∈ drop k l ↔ y ∈ l ∧ x ≤ y.
Proof.
  intros Hs. revert k. induction Hs as [|z l Hs IH Hall]; intros k; [done|].
  rewrite Forall_forall in Hall. destruct k as [|k].
  - intros [= ->] y. rewrite drop_0. split; [|naive_solver]. intros Hy. split; [done|].
    apply elem_of_cons in Hy as [->|Hy]; [done|]. apply N.lt_le_incl. by apply Hall.
  - intros Hk y. cbn [lookup list_lookup] in Hk. cbn [drop]. rewrite (IH k Hk), elem_of_cons.
    split; [naive_solver|]. intros [[->|Hy] Hle]; [|done].
    specialize (Hall x (list_elem_of_lookup_2 _ _ _ Hk)). lia.
Qed.

(** ** Retirement *)
Definition retire_unless (keep : N → bool) (d : N) (m : gmap N TemplateData) : gmap N TemplateData :=
  map_imap (λ id td, Some (if keep id then td else retire d td)) m.

Lemma retire_unless_lookup keep d m id :
  retire_unless keep d m !! id = (λ td, if keep id then td else retire d td) <$> m !! id.
Proof. unfold retire_unless. rewrite map_lookup_imap. by destruct (m !! id). Qed.

Lemma retire_id d td : td_template_id (retire d td) = td_template_id td.
Proof. unfold retire. by destruct (retire_at td). Qed.
Lemma retire_prev d td : get_prev_hash (retire d td) = get_prev_hash td.
Proof. unfold retire, get_prev_hash. by destruct (retire_at td). Qed.
Lemma retire_live d td : live (retire d td) = false.
Proof. unfold retire, live. by destruct (retire_at td) eqn:E; rewrite ?E. Qed.

Lemma live_at_unless keep d m id :
  live_at (retire_unless keep d m) id ↔ live_at m id ∧ keep id = true.
Proof.
  unfold live_at. setoid_rewrite retire_unless_lookup. setoid_rewrite fmap_Some. split.
  - intros (td' & (td & Htd & ->) & Hlive). destruct (keep id); [naive_solver|].
    by rewrite retire_live in Hlive.
  - intros [(td & Htd & Hlive) Hk]. exists td. rewrite Hk. eauto.
Qed.

Lemma retire_unless_all d m : retire_unless (λ _, true) d m = m.
Proof. apply map_eq. intros id. rewrite retire_unless_lookup. by destruct (m !! id). Qed.

(** What the cap does: the newest live templates stay as they are. *)
Lemma beyond_cap_spec now s :
  ∃ keep,
    retire_templates_beyond_cap requested now s =
      put_retained (retire_unless keep (now + STALE_TEMPLATE_GRACE_PERIOD) (retained_templates s)) s ∧
    live_template_ids (retire_templates_beyond_cap requested now s) =
      last_n cap (live_template_ids s).
Proof.
  unfold retire_templates_beyond_cap. destruct (Nat.leb_spec (length (live_template_ids s)) cap).
  { exists (λ _, true). rewrite retire_unless_all, last_n_small by done. by destruct s. }
  destruct (live_template_ids s !! _) as [oldest|] eqn:Ho.
  2: { apply lookup_ge_None in Ho. pose proof cap_pos. lia. }
  exists (λ id, negb (id <? oldest)%N). split.
  - f_equal. apply map_eq. intros id. rewrite retire_unless_lookup, map_lookup_imap.
    destruct (retained_templates s !! id); [|done]. cbn. by destruct (id <? oldest)%N.
  - apply live_ids_unique.
    + unfold last_n. apply increasing. pose proof (live_ids_sorted s) as [Hs Hnd]%increasing.
      rewrite <-(take_drop (length (live_template_ids s) - cap) (live_template_ids s)) in Hs, Hnd.
      split; [by apply StronglySorted_app_1_r in Hs|by apply NoDup_app in Hnd as (_ & _ & ?)].
    + intros id. unfold last_n. rewrite (sorted_drop _ _ oldest), live_ids_elem by
        (done || apply live_ids_sorted).
      cbn [retained_templates put_retained].
      replace (map_imap _ _) with
        (retire_unless (λ id, negb (id <? oldest)%N) (now + STALE_TEMPLATE_GRACE_PERIOD)
           (retained_templates s)).
      * rewrite live_at_unless, negb_true_iff, N.ltb_ge. done.
      * apply map_eq. intros i. rewrite retire_unless_lookup, map_lookup_imap.
        destruct (retained_templates s !! i); [|done]. cbn. by destruct (i <? oldest)%N.
Qed.

(** ** The invariant *)

(** As long as the client takes messages, what it was told is how it is. *)
Record linked (s : Shared) (v : ClientView) : Prop := {
  link_expected : expected v = None;
  link_tip td : tip_template s = Some td →
    tip v = Some (td_template_id td, get_prev_hash td) ∧
    live_template_ids s = last_n cap (refreshes v);
}.

Record tables_ok (b : N) (s : Shared) : Prop := {
  ok_key id td : retained_templates s !! id = Some td → td_template_id td = id ∧ id < b;
  ok_tip td : tip_template s = Some td →
    live td = true ∧ td_template_id td < b ∧ retained_templates s !! td_template_id td = None ∧
    current_prev_hash s = Some (get_prev_hash td);
  ok_live id td : retained_templates s !! id = Some td → live td = true →
    ∃ tp, tip_template s = Some tp ∧ td_template_id tp < id ∧ get_prev_hash td = get_prev_hash tp;
  ok_cap : (length (live_template_ids s) ≤ cap)%nat;
}.

(** [b] bounds the ids of the templates published so far. *)
Record shared_ok (b : N) (s : Shared) : Prop := {
  ok_tables : tables_ok b s;
  ok_view : ∃ v, client_view (outgoing_messages s) = Some v ∧ newer b (newest v) = true ∧
              (receiver_accepts s ≠ Some 0%nat → linked s v);
}.

Lemma newer_le b b' o : newer b o = true → b ≤ b' → newer b' o = true.
Proof. destruct o as [l|]; simpl; [|done]. rewrite !N.ltb_lt. lia. Qed.

Lemma shared_ok_le b b' s : shared_ok b s → b ≤ b' → shared_ok b' s.
Proof.
  intros [[Hk Ht Hl Hc] (v & Hv & Hn & Hlink)] Hle. split; [split|].
  - intros id td Htd. destruct (Hk id td Htd). split; [done|lia].
  - intros td Htd. destruct (Ht td Htd) as (? & ? & ? & ?). repeat split; try done. lia.
  - exact Hl.
  - exact Hc.
  - exists v. eauto using newer_le.
Qed.

Lemma not_live_ids s :
  (∀ id, ¬ live_at (retained_templates s) id) → live_template_ids s = [].
Proof.
  intros Hnone. apply live_ids_unique; [constructor|]. intros id. rewrite elem_of_nil. naive_solver.
Qed.
Lemma no_live_ids b s : tables_ok b s → tip_template s = None → live_template_ids s = [].
Proof.
  intros Hok Htip. apply not_live_ids. intros id (td & Htd & Hlive).
  destruct (ok_live _ _ Hok id td Htd Hlive) as (tp & Htp & _). congruence.
Qed.

(** *** [retire_all_templates] *)

(** Every template is still held, retired. *)
Lemma retire_all_lookup b now s id :
  tables_ok b s →
  retained_templates (retire_all_templates now s) !! id =
    retire (now + STALE_TEMPLATE_GRACE_PERIOD) <$> template_data_for id s.
Proof.
  intros Hok. unfold retire_all_templates, template_data_for.
  destruct (tip_template s) as [tp|]; cbn; [|by rewrite lookup_fmap].
  destruct (N.eqb_spec (td_template_id tp) id) as [<-|Hne].
  - by rewrite lookup_insert_eq.
  - by rewrite lookup_insert_ne, lookup_fmap by done.
Qed.
Lemma retire_all_tip now s : tip_template (retire_all_templates now s) = None.
Proof. unfold retire_all_templates. by destruct (tip_template s) eqn:?. Qed.

Lemma template_data_id b s id td :
  tables_ok b s → template_data_for id s = Some td → td_template_id td = id ∧ id < b.
Proof.
  intros Hok. unfold template_data_for.
  pose proof (λ td, ok_key _ _ Hok id td) as Hkey.
  destruct (tip_template s) as [tp|] eqn:Htip; [|apply Hkey].
  destruct (N.eqb_spec (td_template_id tp) id) as [<-|Hne]; [|apply Hkey].
  intros [= <-]. destruct (ok_tip _ _ Hok tp Htip) as (? & ? & _). done.
Qed.

Lemma retire_all_ok b now s : shared_ok b s → shared_ok b (retire_all_templates now s).
Proof.
  intros [Hok (v & Hv & Hn & Hlink)].
  assert (∀ id td, retained_templates (retire_all_templates now s) !! id = Some td →
            td_template_id td = id ∧ id < b ∧ live td = false) as Hkey.
  { intros id td. rewrite (retire_all_lookup b) by done. intros (td' & Htd & ->)%fmap_Some.
    rewrite retire_id, retire_live. destruct (template_data_id b s id td'); auto. }
  assert (live_template_ids (retire_all_templates now s) = []) as Hids.
  { apply not_live_ids. intros id (td & Htd & Hlive). destruct (Hkey id td Htd) as (_ & _ & ?).
    congruence. }
  assert (outgoing_messages (retire_all_templates now s) = outgoing_messages s ∧
          receiver_accepts (retire_all_templates now s) = receiver_accepts s) as [Hout Hrec].
  { unfold retire_all_templates. by destruct (tip_template s). }
  split; [split|].
  - intros id td Htd. by destruct (Hkey id td Htd) as (? & ? & _).
  - intros td. by rewrite retire_all_tip.
  - intros id td Htd Hlive. destruct (Hkey id td Htd) as (_ & _ & ?). congruence.
  - rewrite Hids. simpl. lia.
  - rewrite Hout, Hrec. exists v. split; [done|]. split; [done|]. intros Hopen.
    split; [by apply Hlink|]. intros td. by rewrite retire_all_tip.
Qed.

(** *** [publish_template] *)
Lemma message_fields future td m :
  of_template (get_new_template_message future) td = Done (Ok m) →
  template_id m = td_template_id td ∧ future_template m = future.
Proof.
  unfold of_template. destruct (get_new_template_message future td) as [[r td']|] eqn:Hm; [|done].
  intros [= ->]. unfold get_new_template_message in Hm.
  apply bind_inv in Hm as (td1 & s1 & [= <- <-] & Hm).
  do 7 (apply bind_inv in Hm as (? & ? & _ & Hm)). by injection Hm as <- _.
Qed.

Lemma wp_send now m e (Q : result unit TdpError → View → Prop) v :
  (receiver_accepts (shared v) = Some 0%nat → Q (Err e) v) →
  (receiver_accepts (shared v) ≠ Some 0%nat →
   Q (Ok tt) (in_shared (λ s, put_outgoing (pred <$> receiver_accepts s)
                (outgoing_messages s ++ [(now, m)]) s) v)) →
  wp (send now m e) Q v.
Proof.
  intros Hshut Hopen. apply wp_bind, wp_ask. simpl.
  destruct (receiver_accepts (shared v)) as [[|n]|] eqn:Hr.
  - apply wp_raise. by apply Hshut.
  - apply wp_update. unfold in_shared in *. rewrite ?Hr in Hopen. by apply Hopen.
  - apply wp_update. unfold in_shared in *. rewrite ?Hr in Hopen. by apply Hopen.
Qed.

Lemma beyond_cap_tables now b s :
  (∀ id td, retained_templates s !! id = Some td → td_template_id td = id ∧ id < b) →
  (∀ td, tip_template s = Some td →
    live td = true ∧ td_template_id td < b ∧ retained_templates s !! td_template_id td = None ∧
    current_prev_hash s = Some (get_prev_hash td)) →
  (∀ id td, retained_templates s !! id = Some td → live td = true →
    ∃ tp, tip_template s = Some tp ∧ td_template_id tp < id ∧ get_prev_hash td = get_prev_hash tp) →
  tables_ok b (retire_templates_beyond_cap requested now s).
Proof.
  intros Hk Ht Hl. destruct (beyond_cap_spec now s) as (keep & Heq & Hids).
  split; rewrite ?Hids, ?last_n_length; [..|lia]; rewrite Heq; cbn.
  - intros id td. rewrite retire_unless_lookup. intros (td' & Htd & ->)%fmap_Some.
    specialize (Hk _ _ Htd). by destruct (keep id); rewrite ?retire_id.
  - intros td Htd. destruct (Ht td Htd) as (? & ? & Hnone & ?).
    by rewrite retire_unless_lookup, Hnone.
  - intros id td. rewrite retire_unless_lookup. intros (td' & Htd & ->)%fmap_Some Hlive.
    destruct (keep id); [by eapply Hl|]. by rewrite retire_live in Hlive.
Qed.

(** A refresh of the tip's template. *)
Lemma refresh_tables now b s td tp :
  tables_ok b s → td_template_id td = b → live td = true → tip_template s = Some tp →
  get_prev_hash td = get_prev_hash tp →
  tables_ok (b + 1) (retire_templates_beyond_cap requested now (store_template_data td false s)) ∧
  live_template_ids (retire_templates_beyond_cap requested now (store_template_data td false s)) =
    last_n cap (live_template_ids s ++ [b]).
Proof.
  intros Hok Hid Hlive Htip Hprev.
  assert (retained_templates s !! b = None) as Hfresh.
  { destruct (retained_templates s !! b) eqn:Hb; [|done]. apply (ok_key _ _ Hok) in Hb. lia. }
  split.
  - apply beyond_cap_tables; cbn [store_template_data put_retained retained_templates tip_template
      current_prev_hash]; rewrite ?Hid.
    + intros id td' [[<- <-]|[? Htd]]%lookup_insert_Some; [split; [done|lia]|].
      destruct (ok_key _ _ Hok _ _ Htd). split; [done|lia].
    + intros td' Htd. destruct (ok_tip _ _ Hok td' Htd) as (? & ? & ? & ?).
      rewrite lookup_insert_ne by lia. repeat split; try done. lia.
    + intros id td' [[<- <-]|[? Htd]]%lookup_insert_Some; [|by apply (ok_live _ _ Hok)].
      intros _. exists tp. destruct (ok_tip _ _ Hok tp Htip) as (? & ? & _). done.
  - destruct (beyond_cap_spec now (store_template_data td false s)) as (_ & _ & ->). f_equal.
    apply live_ids_unique.
    + apply increasing. pose proof (live_ids_sorted s) as [Hs Hnd]%increasing.
      assert (∀ i, i ∈ live_template_ids s → i < b) as Hlt.
      { intros i (td' & Htd & _)%live_ids_elem. by apply (ok_key _ _ Hok) in Htd as [_ ?]. }
      split.
      * apply StronglySorted_app_2; [|done|repeat constructor].
        intros x y Hx ->%list_elem_of_singleton. apply Hlt in Hx. lia.
      * apply NoDup_app. split; [done|]. split; [|apply NoDup_singleton].
        intros x Hx ->%list_elem_of_singleton. apply Hlt in Hx. lia.
    + intros id. rewrite elem_of_app, live_ids_elem, list_elem_of_singleton. unfold live_at.
      cbn [store_template_data put_retained retained_templates]. rewrite Hid. split.
      * intros [(td' & Htd & ?)| ->]; [|exists td; by rewrite lookup_insert_eq].
        exists td'. rewrite lookup_insert_ne by congruence. done.
      * intros (td' & [[-> _]|[_ Htd]]%lookup_insert_Some & ?); eauto.
Qed.

(** A new tip's template. *)
Lemma tip_tables now b s td :
  tables_ok b s → td_template_id td = b → live td = true → tip_template s = None →
  let s' := put_prev_hash (get_prev_hash td)
    (retire_templates_beyond_cap requested now (store_template_data td true s)) in
  tables_ok (b + 1) s' ∧ live_template_ids s' = [] ∧ tip_template s' = Some td ∧
  retained_templates s' = retained_templates s.
Proof.
  intros Hok Hid Hlive Htip.
  assert (live_template_ids (store_template_data td true s) = []) as Hnil.
  { apply (no_live_ids b s Hok Htip). }
  assert (retire_templates_beyond_cap requested now (store_template_data td true s) =
          store_template_data td true s) as Heq.
  { unfold retire_templates_beyond_cap. by rewrite Hnil. }
  cbn zeta. rewrite Heq. cbn. split; [|done].
  assert (∀ id td', retained_templates s !! id = Some td' → live td' = false) as Hdead.
  { intros id td' Htd. destruct (live td') eqn:Hl; [|done].
    destruct (ok_live _ _ Hok id td' Htd Hl) as (tp & Htp & _). congruence. }
  split; cbn.
  - intros id td' Htd. destruct (ok_key _ _ Hok _ _ Htd). split; [done|lia].
  - intros td' [= <-]. rewrite Hid. repeat split; [done|lia|].
    destruct (retained_templates s !! b) eqn:Hb; [|done]. apply (ok_key _ _ Hok) in Hb. lia.
  - intros id td' Htd Hl. specialize (Hdead _ _ Htd). congruence.
  - change (length (live_template_ids (store_template_data td true s)) ≤ cap)%nat.
    rewrite Hnil. simpl. lia.
Qed.

(** The times at which refreshes were sent. *)
Definition refresh_time (p : N * TdpMessage) : option N :=
  match p.2 with
  | OutNewTemplate m => if future_template m then None else Some p.1
  | _ => None
  end.
Definition refresh_times (log : list (N * TdpMessage)) : list N := omap refresh_time log.

(** Templates that were held still are, as they were or retired now. *)
Definition kept (now : N) (s s' : Shared) : Prop :=
  ∀ id td, template_data_for id s = Some td →
    ∃ td', template_data_for id s' = Some td' ∧
      (td' = td ∨ td' = retire (now + STALE_TEMPLATE_GRACE_PERIOD) td).

Record published (now : N) (future timed : bool) (td : TemplateData) (v : View)
    (r : result unit TdpError) (v' : View) : Prop := {
  pub_ok : shared_ok (td_template_id td + 1) (shared v');
  pub_kept : kept now (shared v) (shared v');
  pub_factory : template_id_factory (shared v') = template_id_factory (shared v);
  pub_tip : r = Ok tt →
    tip_template (shared v') = if future then Some td else tip_template (shared v);
  pub_times :
    refresh_times (outgoing_messages (shared v')) = refresh_times (outgoing_messages (shared v)) ∨
    future = false ∧ refresh_times (outgoing_messages (shared v')) =
                     refresh_times (outgoing_messages (shared v)) ++ [now];
  pub_last : r = Ok tt → last_sent_template_instant v' =
    if timed then Some now else last_sent_template_instant v;
}.

Lemma kept_refl now s : kept now s s.
Proof. intros id td ?. eauto. Qed.

Lemma beyond_cap_data now s id td :
  template_data_for id s = Some td →
  ∃ td', template_data_for id (retire_templates_beyond_cap requested now s) = Some td' ∧
    (td' = td ∨ td' = retire (now + STALE_TEMPLATE_GRACE_PERIOD) td).
Proof.
  destruct (beyond_cap_spec now s) as (keep & -> & _). unfold template_data_for. cbn.
  rewrite retire_unless_lookup. destruct (tip_template s) as [tp|].
  - case_match; [by eauto|]. intros ->. simpl. destruct (keep id); eauto.
  - intros ->. simpl. destruct (keep id); eauto.
Qed.

Lemma kept_refresh now b s td :
  tables_ok b s → td_template_id td = b →
  kept now s (retire_templates_beyond_cap requested now (store_template_data td false s)).
Proof.
  intros Hok Hid id td0 H0. apply beyond_cap_data.
  destruct (template_data_id _ _ _ _ Hok H0) as [_ Hlt].
  unfold template_data_for in *. cbn. rewrite Hid, !lookup_insert_ne by lia. exact H0.
Qed.

Lemma publish_refresh now b td tp timed v :
  shared_ok b (shared v) → td_template_id td = b → live td = true →
  tip_template (shared v) = Some tp → get_prev_hash td = get_prev_hash tp →
  wp (publish_template requested now td false false timed) (published now false timed td v) v.
Proof.
  intros [Hok (cv & Hcv & Hnew & Hlink)] Hid Hlive Htip Hprev.
  destruct (refresh_tables now b (shared v) td tp Hok Hid Hlive Htip Hprev) as [Hok' Hids].
  set (s1 := retire_templates_beyond_cap requested now (store_template_data td false (shared v)))
    in *.
  assert (kept now (shared v) s1) as Hkept by by eapply kept_refresh.
  assert (tip_template s1 = tip_template (shared v) ∧ outgoing_messages s1 = outgoing_messages (shared v)
    ∧ receiver_accepts s1 = receiver_accepts (shared v)
    ∧ template_id_factory s1 = template_id_factory (shared v)) as (Htip1 & Hout1 & Hrec1 & Hfac1).
  { unfold s1. by destruct (beyond_cap_spec now (store_template_data td false (shared v)))
      as (? & -> & _). }
  apply wp_bind, wp_run_rust. intros r Hmsg. apply wp_bind, wp_ok_or_raise.
  2: { intros e _. split; try done; [|apply kept_refl|by left]. rewrite Hid.
       apply (shared_ok_le b); [|lia]. split; [done|]. eauto. }
  intros m ->. apply message_fields in Hmsg as [Hmid Hmfut].
  apply wp_bind, wp_update, wp_bind, wp_update, wp_bind, wp_ret, wp_bind, wp_send; cbn [in_shared shared];
    fold s1; rewrite Hrec1.
  - intros Hshut. split; cbn [in_shared shared]; fold s1; rewrite ?Hid; try done.
    + split; [done|]. exists cv. rewrite Hout1, Hrec1. split; [done|]. split; [|done].
      eapply newer_le; [done|lia].
    + left. by rewrite Hout1.
  - intros Hopen. specialize (Hlink Hopen). destruct Hlink as [Hexp Htipv].
    destruct (Htipv tp Htip) as [Hvtip Hvids].
    assert (shared_ok (b + 1) (put_outgoing (pred <$> receiver_accepts s1)
              (outgoing_messages s1 ++ [(now, OutNewTemplate m)]) s1)) as Hfin.
    { split; [by destruct Hok'; split|].
      exists {| tip := tip cv; expected := None; newest := Some b; refreshes := refreshes cv ++ [b] |}.
      cbn [outgoing_messages put_outgoing receiver_accepts]. rewrite client_view_snoc, Hout1, Hcv. simpl.
      rewrite Hexp, Hmid, Hid, Hnew, Hmfut, Hvtip. split; [done|]. split; [by apply N.ltb_lt; lia|].
      intros _. split; [done|]. intros td' Htd'. cbn in Htd' |- *.
      assert (td' = tp) as -> by (rewrite Htip1, Htip in Htd'; by injection Htd'). split; [done|].
      change (live_template_ids s1 = last_n cap (refreshes cv ++ [b])).
      by rewrite Hids, Hvids, last_n_snoc. }
    assert (refresh_times (outgoing_messages s1 ++ [(now, OutNewTemplate m)]) =
            refresh_times (outgoing_messages (shared v)) ++ [now]) as Htimes.
    { unfold refresh_times. rewrite omap_app, Hout1. simpl. unfold refresh_time. simpl. by rewrite Hmfut. }
    apply wp_bind, wp_ret. simpl. destruct timed.
    + apply wp_update. split; cbn [in_shared shared put_last_sent]; fold s1; rewrite ?Hid; auto.
    + apply wp_ret. split; cbn [in_shared shared]; fold s1; rewrite ?Hid; auto.
Qed.

Lemma kept_tip now b s td h :
  tables_ok b s → td_template_id td = b → tip_template s = None → live td = true →
  kept now s (put_prev_hash h (retire_templates_beyond_cap requested now (store_template_data td true s))).
Proof.
  intros Hok Hid Htip Hlive id td0 H0.
  destruct (template_data_id _ _ _ _ Hok H0) as [_ Hlt].
  destruct (tip_tables now b s td Hok Hid Hlive Htip) as (_ & _ & Htip' & Hret). cbn in Htip', Hret.
  exists td0. split; [|by left]. unfold template_data_for in *. cbn. rewrite Htip', Hret, Hid.
  destruct (N.eqb_spec b id); [lia|]. by rewrite Htip in H0.
Qed.

(** The tip's template and its previous hash, told together. *)
Lemma view_tip cv b m ph :
  expected cv = None → newer b (newest cv) = true → template_id m = b → future_template m = true →
  ph_template_id ph = b →
  view_step cv (OutNewTemplate m) =
    Some {| tip := tip cv; expected := Some b; newest := Some b; refreshes := refreshes cv |} ∧
  view_step {| tip := tip cv; expected := Some b; newest := Some b; refreshes := refreshes cv |}
      (OutSetNewPrevHash ph) =
    Some {| tip := Some (b, ph_prev_hash ph); expected := None; newest := Some b; refreshes := [] |}.
Proof. intros He Hn Hm Hf Hp. simpl. rewrite He, Hm, Hn, Hf, Hp, N.eqb_refl. done. Qed.

Lemma refresh_times_snoc log p :
  refresh_times (log ++ [p]) =
    refresh_times log ++ match refresh_time p with Some t => [t] | None => [] end.
Proof. unfold refresh_times. rewrite omap_app. simpl. by destruct (refresh_time p). Qed.

Lemma publish_tip now b td timed v :
  shared_ok b (shared v) → td_template_id td = b → live td = true →
  tip_template (shared v) = None →
  wp (publish_template requested now td true true timed) (published now true timed td v) v.
Proof.
  intros [Hok (cv & Hcv & Hnew & Hlink)] Hid Hlive Htip.
  destruct (tip_tables now b (shared v) td Hok Hid Hlive Htip) as (Hok' & Hids & Htip' & _).
  pose proof (kept_tip now b (shared v) td (get_prev_hash td) Hok Hid Htip Hlive) as Hkept.
  set (s1 := put_prev_hash _ _) in *.
  assert (outgoing_messages s1 = outgoing_messages (shared v)
    ∧ receiver_accepts s1 = receiver_accepts (shared v)
    ∧ template_id_factory s1 = template_id_factory (shared v)) as (Hout1 & Hrec1 & Hfac1).
  { unfold s1. by destruct (beyond_cap_spec now (store_template_data td true (shared v)))
      as (? & -> & _). }
  assert (newer (b + 1) (Some b) = true) as Hnb by (apply N.ltb_lt; lia).
  apply wp_bind, wp_run_rust. intros r Hmsg. apply wp_bind, wp_ok_or_raise.
  2: { intros e _. split; try done; [|apply kept_refl|by left]. rewrite Hid.
       apply (shared_ok_le b); [|lia]. split; [done|]. eauto. }
  intros m ->. apply message_fields in Hmsg as [Hmid Hmfut]. rewrite Hid in Hmid.
  apply wp_bind, wp_update, wp_bind, wp_update, wp_bind, wp_update, wp_bind, wp_send;
    cbn [in_shared shared]; fold s1; rewrite Hrec1.
  { intros Hshut. split; cbn [in_shared shared]; fold s1; rewrite ?Hid; try done.
    + split; [done|]. exists cv. rewrite Hout1, Hrec1. split; [done|]. split; [|done].
      eapply newer_le; [done|lia].
    + left. by rewrite Hout1. }
  intros Hopen. destruct (Hlink Hopen) as [Hexp _].
  destruct (view_tip cv b m (get_set_new_prev_hash_message td) Hexp Hnew Hmid Hmfut Hid)
    as [Hstep1 Hstep2].
  apply wp_bind, wp_send; cbn [in_shared shared put_outgoing receiver_accepts outgoing_messages];
    fold s1; rewrite Hrec1.
  { intros Hshut. split; cbn [in_shared shared]; fold s1; rewrite ?Hid; try done.
    + split; [by destruct Hok'; split|]. eexists.
      cbn [put_outgoing outgoing_messages receiver_accepts].
      rewrite client_view_snoc, Hout1, Hcv, Hrec1. cbn [mbind option_bind snd]. rewrite Hstep1.
      done.
    + left. cbn [put_outgoing outgoing_messages]. rewrite refresh_times_snoc, Hout1.
      unfold refresh_time. simpl. by rewrite Hmfut, app_nil_r. }
  intros Hopen2.
  match goal with |- andthen _ _ _ ?v2 => set (s2 := shared v2) end.
  assert (shared_ok (b + 1) s2 ∧ kept now (shared v) s2 ∧ tip_template s2 = Some td ∧
          template_id_factory s2 = template_id_factory (shared v) ∧
          refresh_times (outgoing_messages s2) = refresh_times (outgoing_messages (shared v)))
    as (Hs2 & Hk2 & Ht2 & Hf2 & Hr2).
  { split; [|split; [done|split; [done|split; [done|]]]].
    - split; [by destruct Hok'; split|].
      eexists. subst s2. cbn [in_shared shared put_outgoing outgoing_messages receiver_accepts].
      fold s1. rewrite !client_view_snoc, Hout1, Hcv. cbn [mbind option_bind snd]. rewrite Hstep1.
      cbn [mbind option_bind snd]. fold s1. rewrite Hstep2. split; [done|]. split; [done|].
      intros _. split; [done|]. intros td' Htd'.
      assert (td' = td) as -> by (change (tip_template s1 = Some td') in Htd'; congruence).
      cbn. rewrite Hid. split; [done|]. exact Hids.
    - subst s2. cbn [in_shared shared put_outgoing outgoing_messages]. fold s1.
      rewrite !refresh_times_snoc, Hout1. unfold refresh_time. simpl. by rewrite Hmfut, !app_nil_r. }
  destruct timed.
  - apply wp_update. split; cbn [put_last_sent shared]; fold s2; rewrite ?Hid; auto.
  - apply wp_ret. split; fold s2; rewrite ?Hid; auto.
Qed.

(** ** The programs of the tasks *)
Lemma shared_ok_client b c s : shared_ok b s → shared_ok b (set_current_template_ipc_client c s).
Proof.
  intros [[] (v & ? & ? & Hlink)]. split; [by split|]. exists v. split; [done|]. split; [done|].
  intros Hopen. by destruct (Hlink Hopen); split.
Qed.

Lemma fetched_data id client data td :
  fetch_template_data id client data = Ok td → td_template_id td = id ∧ live td = true.
Proof.
  unfold fetch_template_data. destruct data as [d|]; [|done].
  destruct (deserialize_header _); [|done]. destruct (coinbase_tx _) as [[tx reward]|]; [|done].
  by intros [= <-].
Qed.

Lemma retire_all_kept now b s : tables_ok b s → kept now s (retire_all_templates now s).
Proof.
  intros Hok id td Htd. exists (retire (now + STALE_TEMPLATE_GRACE_PERIOD) td). split; [|by right].
  unfold template_data_for at 1. rewrite retire_all_tip, (retire_all_lookup b) by done. by rewrite Htd.
Qed.

Lemma retire_twice d d' td : retire d (retire d' td) = retire d' td.
Proof. unfold retire. by destruct (retire_at td) eqn:E; rewrite ?E. Qed.

Lemma kept_trans now s1 s2 s3 : kept now s1 s2 → kept now s2 s3 → kept now s1 s3.
Proof.
  intros H12 H23 id td Htd. destruct (H12 id td Htd) as (td2 & Htd2 & [->| ->]).
  - by apply H23.
  - destruct (H23 id _ Htd2) as (td3 & Htd3 & [->| ->]); exists (retire (now + STALE_TEMPLATE_GRACE_PERIOD) td);
      rewrite ?retire_twice in *; eauto.
Qed.
End invariant.
