(* ===== verification/TdpSafety.v ===== *)
(** * The invariant of the template distribution backend, in every run

    [core_ok] adds to the invariant of the shared state which of the tasks may
    publish: a template is fetched by the bootstrap, and then there is no
    monitor and no tip, or by the monitor.  Every step keeps it, and lets go of
    templates only when their deadline has passed ([step_keeps]). *)
From S2P Require Import Prelude Handler Bitcoin ServerChannels TdpTemplates TdpSystem TdpTasks TdpInv.

Section safety.
Context `{TemplateApi} (fee_threshold min_interval : N) (requested : option nat).
Notation step := (tdp_step fee_threshold min_interval requested).
Notation shared_ok := (shared_ok requested).

(** The bound of the ids published so far: an id being fetched is not. *)
Definition bound (s : Shared) (m : MessagesTask) (mo : MonitorTask) : N :=
  match m, mo with
  | FetchingFirst _ id _, _ => id
  | _, FetchingNext _ id _ => id
  | _, _ => template_id_factory s
  end.

Definition phases (s : Shared) (m : MessagesTask) (mo : MonitorTask) : Prop :=
  match m with
  | Starting | Creating _ => mo = NoMonitor ∧ tip_template s = None
  | FetchingFirst _ id _ => mo = NoMonitor ∧ tip_template s = None ∧ template_id_factory s = id + 1
  | _ => True
  end ∧
  match mo with
  | MonitorStarting | Waiting _ => is_Some (tip_template s)
  | FetchingNext _ id _ => is_Some (tip_template s) ∧ template_id_factory s = id + 1
  | _ => True
  end.

Record core_ok (n : nat) (s : Shared) (m : MessagesTask) (mo : MonitorTask) : Prop := {
  core_shared : shared_ok (bound s m mo) s;
  core_factory : template_id_factory s ≤ N.of_nat n;
  core_phases : phases s m mo;
}.
Definition tdp_ok (n : nat) (t : Tdp) : Prop := core_ok n (state t) (messages t) (monitor t).

(** The tasks that only handle messages. *)
Definition quiet (m : MessagesTask) : bool :=
  match m with Starting | Creating _ | FetchingFirst _ _ _ => false | _ => true end.
Definition resting (mo : MonitorTask) : bool :=
  match mo with NoMonitor | MonitorFinished | MonitorPanicked => true | _ => false end.

Lemma bound_le n s m mo : core_ok n s m mo → bound s m mo ≤ template_id_factory s.
Proof.
  intros [_ _ [Hm Hmo]]. unfold bound. destruct m, mo; simpl in *; try lia;
    destruct Hmo as [_ ->] || destruct Hm as (_ & _ & ->); lia.
Qed.

Lemma core_ok_le n s m mo : core_ok n s m mo → core_ok (S n) s m mo.
Proof. intros [? ? ?]. split; [done|lia|done]. Qed.
Lemma core_ok_full n s m mo : core_ok n s m mo → shared_ok (template_id_factory s) s.
Proof. intros Hok. eapply shared_ok_le; [apply Hok|]. by eapply bound_le. Qed.

(** Changes of the tasks alone. *)
Lemma core_ok_messages n s m m' mo : quiet m' = true → core_ok n s m mo → core_ok (S n) s m' mo.
Proof.
  intros Hq Hok. pose proof (core_ok_full _ _ _ _ Hok) as Hfull. pose proof (bound_le _ _ _ _ Hok) as Hle.
  destruct Hok as [Hs Hn [Hm Hmo]]. split; [|lia|].
  - eapply shared_ok_le; [exact Hs|]. destruct m', mo; try done; simpl in *; destruct m; simpl in *; try lia;
      destruct Hm as [? _]; done.
  - split; [by destruct m'|exact Hmo].
Qed.
Lemma core_ok_rest n s m mo mo' :
  resting mo' = true → (quiet m = false → mo' = mo) → core_ok n s m mo → core_ok (S n) s m mo'.
Proof.
  intros Hr Hq Hok. destruct (quiet m) eqn:Hm; [|rewrite Hq by done; by apply core_ok_le].
  pose proof (core_ok_full _ _ _ _ Hok) as Hfull. destruct Hok as [Hs Hn [Hm' Hmo]]. split; [|lia|].
  - destruct m, mo'; done.
  - split; [by destruct m|by destruct mo'].
Qed.
Lemma core_ok_waiting n s m mo req :
  quiet m = true → is_Some (tip_template s) → core_ok n s m mo → core_ok (S n) s m (Waiting req).
Proof.
  intros Hq Htip Hok. pose proof (core_ok_full _ _ _ _ Hok) as Hfull. destruct Hok as [Hs Hn _].
  split; [|lia|]; destruct m; done.
Qed.
Lemma core_ok_quiet n s m mo :
  core_ok n s m mo → resting mo = false → quiet m = true.
Proof. intros [_ _ [Hm _]] Hr. destruct m; try done; destruct Hm as [-> _]; done. Qed.

(** ** Answers *)
Definition is_answer (m : TdpMessage) : Prop :=
  match m with OutTransactionData _ _ | OutTransactionDataError _ _ => True | _ => False end.

(** The state after some answers were sent. *)
Definition answered (s s' : Shared) : Prop :=
  s' = s ∨ ∃ now m, is_answer m ∧
    s' = put_outgoing (pred <$> receiver_accepts s) (outgoing_messages s ++ [(now, m)]) s ∧
    receiver_accepts s ≠ Some 0%nat.

Lemma answered_ok b s s' : answered s s' → shared_ok b s → shared_ok b s'.
Proof.
  intros [->|(now & m & Hm & -> & Hopen)] [[] (v & Hv & Hn & Hlink)]; [split; eauto; by split|].
  split; [by split|]. exists v. cbn [put_outgoing outgoing_messages receiver_accepts].
  rewrite client_view_snoc, Hv. split; [by destruct m|]. split; [done|]. intros _.
  by destruct (Hlink Hopen); split.
Qed.
Lemma answered_core n s s' m mo : answered s s' → core_ok n s m mo → core_ok n s' m mo.
Proof.
  intros Ha [Hs Hn Hp]. assert (template_id_factory s' = template_id_factory s ∧
    tip_template s' = tip_template s) as [Hf Ht] by by destruct Ha as [->|(? & ? & _ & -> & _)].
  split; [|by rewrite Hf|].
  - unfold bound. rewrite Hf. by eapply answered_ok.
  - unfold phases. by rewrite Hf, Ht.
Qed.

Lemma exec_wp {A} (p : prog View TdpError A) (Q : result A TdpError → View → Prop) v r v' :
  wp p Q v → exec p v = (r, v') → match r with Some r => Q r v' | None => v' = v end.
Proof. unfold wp, exec. destruct (p v) as [[r0 v0]|]; by intros ? [= <- <-]. Qed.

Lemma wp_send_answer now m e (Q : result unit TdpError → View → Prop) v :
  is_answer m →
  (∀ r s', answered (shared v) s' → Q r {| shared := s'; last_sent_template_instant :=
                                            last_sent_template_instant v |}) →
  wp (send now m e) Q v.
Proof.
  intros Hm HQ. apply wp_send; intros Hr.
  - destruct v. apply HQ. by left.
  - apply HQ. right. eauto.
Qed.

(** What handling a request changes: the messages sent, nothing else. *)
Definition answers_only (v : View) (v' : View) : Prop :=
  answered (shared v) (shared v') ∧ last_sent_template_instant v' = last_sent_template_instant v.

Lemma request_answers now id v :
  wp (request_transaction_data now id)
     (λ r v', answers_only v v' ∧ ∀ td, r = Ok (Some td) →
        v' = v ∧ template_data_for id (shared v) = Some td ∧ live td = true) v.
Proof.
  apply wp_bind, wp_ask. simpl. destruct (template_data_for id (shared v)) as [td|] eqn:Hfound;
    [destruct (live td) eqn:Hlive|].
  - apply wp_ret. split; [by split; [left|]|]. by intros td' [= ->].
  - apply wp_bind, wp_send_answer; [done|]. intros [[]|e] s' Ha; simpl; [apply wp_ret|]; done.
  - apply wp_bind, wp_send_answer; [done|]. intros [[]|e] s' Ha; simpl; [apply wp_ret|]; done.
Qed.
Lemma transactions_answers now td bytes v :
  wp (transaction_data_answer now td bytes) (λ _ v', answers_only v v') v.
Proof.
  assert (answers_only v v) as Hrefl by by split; [left|].
  apply wp_bind, wp_some_or; intros; [|done]. apply wp_bind, wp_run_rust. intros.
  apply wp_bind, wp_ok_or_raise; intros; [|done]. by apply wp_send_answer.
Qed.
Lemma submit_answers sol dir_ok v :
  wp (submit_solution sol dir_ok) (λ r v', v' = v ∧ ∀ td tx, r = Ok (td, tx) →
        template_data_for (sol_template_id sol) (shared v) = Some td ∧
        deserialize_tx (sol_coinbase_tx sol) = Some tx) v.
Proof.
  apply wp_bind, wp_ask, wp_bind, wp_some_or; [intros td Htd|done].
  apply wp_bind, wp_ensure; [intros _|done].
  apply wp_bind, wp_some_or; [intros tx Htx|done]. apply wp_ret. split; [done|]. by intros ? ? [= <- <-].
Qed.

(** ** Publications *)
Notation times v := (refresh_times (outgoing_messages (shared v))).

Record boot_post (now id : N) (v : View) (r : result unit TdpError) (v' : View) : Prop := {
  boot_shared : shared_ok (id + 1) (shared v');
  boot_factory : template_id_factory (shared v') = template_id_factory (shared v);
  boot_kept : kept now (shared v) (shared v');
  boot_tip : r = Ok tt → is_Some (tip_template (shared v'));
  boot_times : times v' = times v;
  boot_last : r = Ok tt → last_sent_template_instant v' = Some now;
}.

Lemma bootstrap_wp now id client data v :
  shared_ok id (shared v) → tip_template (shared v) = None →
  wp (bootstrap_template requested now id client data) (boot_post now id v) v.
Proof.
  intros Hok Htip. apply wp_bind, wp_ok_or_raise; [intros td Hf|].
  2: { intros e _. split; try done; [|apply kept_refl]. eapply shared_ok_le; [done|lia]. }
  destruct (fetched_data _ _ _ _ Hf) as [Hid Hlive]. apply wp_bind.
  eapply wp_mono; [|by eapply publish_tip]. intros [[]|e] v' [Hs Hk Hfac Ht Htm Hl]; rewrite Hid in Hs; simpl.
  - apply wp_update. split; cbn [in_shared shared]; try done.
    + by apply shared_ok_client.
    + intros _. eexists. by apply Ht.
    + by destruct Htm as [Htm|[? _]].
  - split; try done. by destruct Htm as [Htm|[? _]].
Qed.

Record monitor_post (now id client : N) (data : option Fetched) (v : View)
    (r : result unit TdpError) (v' : View) : Prop := {
  mon_shared : shared_ok (id + 1) (shared v');
  mon_factory : template_id_factory (shared v') = template_id_factory (shared v);
  mon_kept : kept now (shared v) (shared v');
  mon_tip : r = Ok tt → is_Some (tip_template (shared v'));
  mon_times :
    times v' = times v ∧ (r = Ok tt → last_sent_template_instant v' = last_sent_template_instant v) ∨
    (times v' = times v ∨ times v' = times v ++ [now]) ∧
    (r = Ok tt → last_sent_template_instant v' = Some now) ∧
    ∃ td, fetch_template_data id client data = Ok td ∧
          current_prev_hash (shared v) = Some (get_prev_hash td);
}.

Lemma monitor_wp now id client data v :
  shared_ok id (shared v) → is_Some (tip_template (shared v)) →
  wp (monitor_template requested now id client data) (monitor_post now id client data v) v.
Proof.
  intros Hok [tp Htp].
  assert (∀ e, monitor_post now id client data v (Err e) v) as Hfail.
  { intros e. split; try done; [|apply kept_refl|by left]. eapply shared_ok_le; [done|lia]. }
  destruct (ok_tip _ _ _ (ok_tables _ _ _ Hok) tp Htp) as (_ & _ & _ & Hcur).
  apply wp_bind, wp_ok_or_raise; [intros td Hf|intros e _; apply Hfail].
  destruct (fetched_data _ _ _ _ Hf) as [Hid Hlive].
  apply wp_bind, wp_ask, wp_bind, wp_some_or; [intros cur Hcur'|intros _; apply Hfail].
  rewrite Hcur in Hcur'. injection Hcur' as <-. apply wp_bind. destruct (decide _) as [Hne|Heq].
  - apply wp_bind, wp_update. eapply wp_mono; [|eapply publish_tip; [|done|done|]].
    3: apply retire_all_tip. 2: by apply retire_all_ok.
    intros r v' [Hs Hk Hfac Ht Htm Hl]. rewrite Hid in Hs.
    assert (template_id_factory (retire_all_templates now (shared v)) = template_id_factory (shared v) ∧
            outgoing_messages (retire_all_templates now (shared v)) = outgoing_messages (shared v))
      as [Hf0 Ho0] by (unfold retire_all_templates; by destruct (tip_template (shared v))).
    cbn [in_shared shared] in Hfac, Htm. rewrite Hf0 in Hfac. rewrite Ho0 in Htm.
    destruct Htm as [Htm|[? _]]; [|done].
    assert (kept now (shared v) (shared v')) as Hk'.
    { eapply kept_trans; [|exact Hk]. eapply retire_all_kept, ok_tables. exact Hok. }
    destruct r as [[]|e]; simpl.
    + apply wp_update. split; cbn [in_shared shared]; try done; [by apply shared_ok_client| |].
      * intros _. eexists. by apply Ht.
      * left. split; [done|]. intros _. by apply Hl.
    + split; try done. by left.
  - apply dec_stable in Heq. eapply wp_mono; [|by eapply publish_refresh].
    intros r v' [Hs Hk Hfac Ht Htm Hl]. rewrite Hid in Hs.
    assert (times v' = times v ∨ times v' = times v ++ [now]) as Htm' by naive_solver.
    assert (∃ td, fetch_template_data id client data = Ok td ∧
          current_prev_hash (shared v) = Some (get_prev_hash td)) as Hsame.
    { exists td. rewrite Hcur, Heq. done. }
    destruct r as [[]|e]; simpl.
    + apply wp_update. split; cbn [in_shared shared]; try done; [by apply shared_ok_client| |].
      * intros Hr. exists tp. rewrite <-Htp. exact (Ht Hr).
      * right. split; [done|]. split; [|done]. intros _. by apply Hl.
    + split; try done. right. by split_and!.
Qed.

(** ** Steps *)

(** Templates stay held, or their deadline has passed. *)
Definition lets_go (t t' : Tdp) : Prop :=
  clock t ≤ clock t' ∧
  ∀ id td, template_data_for id (state t) = Some td →
    (∃ td', template_data_for id (state t') = Some td' ∧
       (td' = td ∨ td' = retire (clock t + STALE_TEMPLATE_GRACE_PERIOD) td)) ∨
    (∃ d, retire_at td = Some d ∧ d ≤ clock t).

Definition goes_on (n : nat) (t t' : Tdp) : Prop := tdp_ok (S n) t' ∧ lets_go t t'.

Lemma lets_go_kept t t' : clock t' = clock t → kept (clock t) (state t) (state t') → lets_go t t'.
Proof. intros Hc Hk. split; [by rewrite Hc|]. intros id td Htd. left. by apply Hk. Qed.
Lemma lets_go_same t t' : clock t ≤ clock t' → state t' = state t → lets_go t t'.
Proof. intros Hc Hs. split; [done|]. intros id td Htd. left. exists td. rewrite Hs. auto. Qed.

Lemma answered_kept now s s' : answered s s' → kept now s s'.
Proof.
  intros [->|(now' & m & _ & -> & _)]; [apply kept_refl|]. intros id td Htd. exists td. split; [exact Htd|by left].
Qed.

(** A step of one task that leaves the shared state alone. *)
Lemma goes_on_tasks n t t' :
  tdp_ok n t → state t' = state t → clock t ≤ clock t' →
  (core_ok n (state t) (messages t) (monitor t) → core_ok (S n) (state t) (messages t') (monitor t')) →
  goes_on n t t'.
Proof.
  intros Hok Hs Hc Hcore. split; [|by apply lets_go_same]. unfold tdp_ok. rewrite Hs. by apply Hcore.
Qed.

Lemma next_id_core n s m mo id sh :
  N.of_nat (S n) < u64_modulus → core_ok n s m mo → next_template_id s = (id, sh) →
  id = template_id_factory s ∧ template_id_factory sh = id + 1 ∧ tip_template sh = tip_template s ∧
  shared_ok id sh ∧ kept 0 s sh.
Proof.
  intros Hn Hok [= <- <-]. pose proof (core_ok_full _ _ _ _ Hok) as [[] (v & ? & ? & Hlink)].
  pose proof (core_factory _ _ _ _ Hok). cbn. rewrite u64_add_small by lia.
  split_and!; try done; [|intros id td ?; eauto].
  split; [by split|]. exists v. split; [done|]. split; [done|]. intros Hopen. by destruct (Hlink Hopen); split.
Qed.

Lemma kept_any now now' s s' :
  kept now s s' → (∀ id, template_data_for id s' = template_data_for id s) → kept now' s s'.
Proof. intros _ Hsame id td Htd. exists td. rewrite Hsame. auto. Qed.

Lemma messages_exec {A} (p : prog View TdpError A) (Q : result A TdpError → View → Prop) t r t' :
  wp p Q {| shared := state t; last_sent_template_instant := messages_last_sent t |} →
  exec_messages p t = (r, t') →
  ∃ v, t' = put_messages_last (last_sent_template_instant v) (put_state (shared v) t) ∧
    match r with
    | Some r => Q r v
    | None => v = {| shared := state t; last_sent_template_instant := messages_last_sent t |}
    end.
Proof.
  intros Hwp. unfold exec_messages. destruct (exec p _) as [r0 v] eqn:He. intros [= <- <-].
  exists v. split; [done|]. by apply (exec_wp _ _ _ _ _ Hwp) in He.
Qed.
Lemma monitor_exec {A} (p : prog View TdpError A) (Q : result A TdpError → View → Prop) t r t' :
  wp p Q {| shared := state t; last_sent_template_instant := monitor_last_sent t |} →
  exec_monitor p t = (r, t') →
  ∃ v, t' = put_monitor_last (last_sent_template_instant v) (put_state (shared v) t) ∧
    match r with
    | Some r => Q r v
    | None => v = {| shared := state t; last_sent_template_instant := monitor_last_sent t |}
    end.
Proof.
  intros Hwp. unfold exec_monitor. destruct (exec p _) as [r0 v] eqn:He. intros [= <- <-].
  exists v. split; [done|]. by apply (exec_wp _ _ _ _ _ Hwp) in He.
Qed.

(** *** The messages *)
Lemma answers_step n t t' v :
  tdp_ok n t → answered (state t) (shared v) → state t' = shared v → clock t' = clock t →
  quiet (messages t') = true → monitor t' = monitor t → goes_on n t t'.
Proof.
  intros Hok Ha Hs Hc Hq Hmo. split.
  - unfold tdp_ok. rewrite Hs, Hmo. eapply core_ok_messages; [done|]. by eapply answered_core.
  - apply lets_go_kept; [done|]. rewrite Hs. by apply answered_kept.
Qed.

Lemma receive_ok n m dir_ok t t' : tdp_ok n t → receive m dir_ok t = Some t' → goes_on n t t'.
Proof.
  intros Hok. unfold receive. destruct (messages t) eqn:Hm; try done; destruct m as [sol|size sigops|id]; try done.
  - intros [= <-]. apply goes_on_tasks; try done. intros Hc. by apply core_ok_le.
  - intros [= <-]. apply goes_on_tasks; try done. cbn. rewrite Hm. intros [Hs Hn [[Hmo Ht] Hmo']].
    rewrite Hmo in *. split; [exact Hs|lia|done].
  - intros [= <-]. apply goes_on_tasks; try done. intros Hc. by apply core_ok_le.
  - destruct (exec_messages _ t) as [r t1] eqn:He. intros [= <-].
    eapply messages_exec in He as (v & -> & Hr); [|apply submit_answers].
    assert (v = {| shared := state t; last_sent_template_instant := messages_last_sent t |}) as ->.
    { destruct r as [r|]; [by destruct Hr as [-> _]|done]. }
    apply (answers_step _ _ _ {| shared := state t; last_sent_template_instant := messages_last_sent t |});
      try done; [by left|..]; destruct r as [[[]|]|]; try done; cbn; by rewrite Hm.
  - intros [= <-]. apply goes_on_tasks; try done. by apply core_ok_messages.
  - destruct (exec_messages _ t) as [r t1] eqn:He. intros [= <-].
    eapply messages_exec in He as (v & -> & Hr); [|apply request_answers].
    assert (answered (state t) (shared v)) as Ha.
    { destruct r as [r|]; [by destruct Hr as [[? _] _]|]. left. by rewrite Hr. }
    apply (answers_step _ _ _ v); try done; destruct r as [[[]|]|]; try done; cbn; by rewrite Hm.
Qed.

Lemma next_id_step n t t' id sh :
  N.of_nat (S n) < u64_modulus → tdp_ok n t → next_template_id (state t) = (id, sh) →
  state t' = sh → clock t' = clock t → bound sh (messages t') (monitor t') = id →
  phases sh (messages t') (monitor t') → goes_on n t t'.
Proof.
  intros Hn Hok Hnext Hs Hc Hb Hp.
  destruct (next_id_core _ _ _ _ _ _ Hn Hok Hnext) as (Hid & Hfac & Htip & Hsh & _).
  split.
  - unfold tdp_ok. rewrite Hs. split; [by rewrite Hb|rewrite Hfac, Hid; pose proof (core_factory _ _ _ _ Hok); lia|done].
  - apply lets_go_kept; [done|]. rewrite Hs. injection Hnext as _ <-. intros i td Htd. exists td. auto.
Qed.

Lemma block_created_ok n client t t' :
  N.of_nat (S n) < u64_modulus → tdp_ok n t → block_created client t = Some t' → goes_on n t t'.
Proof.
  intros Hn Hok. unfold block_created. destruct (messages t) eqn:Hm; try done.
  destruct client as [client|].
  - destruct (next_template_id (state t)) as [id sh] eqn:Hnext. intros [= <-].
    destruct (next_id_core _ _ _ _ _ _ Hn Hok Hnext) as (_ & Hfac & Htip & _).
    destruct (core_phases _ _ _ _ Hok) as [Hp _]. rewrite Hm in Hp. destruct Hp as [Hmo Ht].
    eapply next_id_step; try done. cbn. rewrite Hmo. split; [|done]. split; [done|]. by rewrite Htip.
  - intros [= <-]. apply goes_on_tasks; try done. by apply core_ok_messages.
Qed.

Lemma messages_fetched_ok n data t t' :
  tdp_ok n t → messages_fetched requested data t = Some t' → goes_on n t t'.
Proof.
  intros Hok. unfold messages_fetched. destruct (messages t) as [| |first id client| | | | |] eqn:Hm; try done.
  destruct (core_phases _ _ _ _ Hok) as [Hp _]. rewrite Hm in Hp. destruct Hp as (Hmo & Htip & Hfac).
  pose proof (core_shared _ _ _ _ Hok) as Hsh. unfold bound in Hsh. rewrite Hm in Hsh.
  destruct (exec_messages _ t) as [r t1] eqn:He. intros [= <-].
  eapply messages_exec in He as (v & -> & Hr); [|by apply (bootstrap_wp (clock t) id client data)].
  assert (shared_ok (id + 1) (shared v) ∧ template_id_factory (shared v) = id + 1 ∧
          kept (clock t) (state t) (shared v) ∧ (r = Some (Ok tt) → is_Some (tip_template (shared v))))
    as (Hv & Hf & Hk & Ht).
  { destruct r as [r|]; [|subst v; cbn; rewrite Hfac; split_and!; [|done|apply kept_refl|done];
      by apply core_ok_full in Hok; rewrite Hfac in Hok].
    destruct Hr as [? Hf ? Ht _ _]. cbn in Hf. rewrite Hf. split_and!; try done. intros [= ->]. by apply Ht. }
  pose proof (core_factory _ _ _ _ Hok) as Hn.
  destruct r as [[[]|e]|]; unfold stop_messages.
  - split; [|apply lets_go_kept; by destruct first].
    assert (core_ok (S n) (shared v) Receiving MonitorStarting) as Hcore.
    { split; [by cbn; rewrite Hf|lia|]. split; [done|]. by apply Ht. }
    by destruct first.
  - split; [|by apply lets_go_kept]. cbn. unfold tdp_ok. cbn. rewrite Hmo. split; [by cbn; rewrite Hf|lia|done].
  - split; [|by apply lets_go_kept]. cbn. unfold tdp_ok. cbn. rewrite Hmo. split; [by cbn; rewrite Hf|lia|done].
Qed.

Lemma monitor_joined_ok n t t' : tdp_ok n t → monitor_joined t = Some t' → goes_on n t t'.
Proof.
  intros Hok. unfold monitor_joined. destruct (messages t) as [| | | |size sigops| | |] eqn:Hm; try done.
  pose proof (core_ok_full _ _ _ _ Hok) as Hfull. pose proof (core_factory _ _ _ _ Hok) as Hn.
  assert (template_id_factory (retire_all_templates (clock t) (state t)) = template_id_factory (state t)) as Hf
    by by unfold retire_all_templates; destruct (tip_template (state t)).
  assert (goes_on n t (create_new_block false size sigops (put_token false (put_monitor NoMonitor
              (put_state (retire_all_templates (clock t) (state t)) t))))) as Hgo.
  { split.
    - split; cbn; [rewrite Hf; by apply retire_all_ok|rewrite Hf; lia|]. split; [|done].
      split; [done|]. apply retire_all_tip.
    - apply lets_go_kept; [done|]. eapply retire_all_kept. apply Hfull. }
  destruct (monitor t) eqn:Hmo; try done; intros [= <-]; try exact Hgo.
  apply goes_on_tasks; try done. intros _. split; [exact Hfull|lia|done].
Qed.

Lemma transactions_answer_ok n bytes t t' :
  tdp_ok n t → transactions_answer bytes t = Some t' → goes_on n t t'.
Proof.
  intros Hok. unfold transactions_answer. destruct (messages t) eqn:Hm; try done.
  destruct (exec_messages _ t) as [r t1] eqn:He. intros [= <-].
  eapply messages_exec in He as (v & -> & Hr); [|apply transactions_answers].
  assert (answered (state t) (shared v)) as Ha.
  { destruct r as [r|]; [by destruct Hr|]. left. by rewrite Hr. }
  unfold stop_messages. by apply (answers_step _ _ _ v); try done; destruct r as [[[]|]|].
Qed.

Lemma solution_answer_ok n accepted t t' :
  tdp_ok n t → solution_answer accepted t = Some t' → goes_on n t t'.
Proof.
  intros Hok. unfold solution_answer. destruct (messages t) eqn:Hm; try done. intros [= <-].
  apply goes_on_tasks; try done; destruct accepted as [[]|]; try done; by apply core_ok_messages.
Qed.

Lemma messages_cancelled_ok n t t' : tdp_ok n t → messages_cancelled t = Some t' → goes_on n t t'.
Proof.
  intros Hok. unfold messages_cancelled.
  destruct (messages t); try done; destruct (cancelled t); try done; intros [= <-];
    (apply goes_on_tasks; try done; by apply core_ok_messages).
Qed.

(** *** The monitor *)
Lemma running_tip n t : tdp_ok n t → resting (monitor t) = false → is_Some (tip_template (state t)).
Proof. intros [_ _ [_ Hmo]]. destruct (monitor t); try done. by destruct Hmo. Qed.

Lemma monitor_ready_ok n ok t t' :
  tdp_ok n t → monitor_ready fee_threshold min_interval ok t = Some t' → goes_on n t t'.
Proof.
  intros Hok. unfold monitor_ready. destruct (monitor t) eqn:Hmo; try done.
  pose proof (core_ok_quiet _ _ _ _ Hok) as Hq. rewrite Hmo in Hq. specialize (Hq eq_refl).
  destruct (_ && _); intros [= <-]; apply goes_on_tasks; try done.
  - apply core_ok_waiting; [done|]. eapply running_tip; [done|]. by rewrite Hmo.
  - apply core_ok_rest; [done|]. cbn. by rewrite Hq.
Qed.

Lemma wait_next_returns_ok n answer t t' :
  N.of_nat (S n) < u64_modulus → tdp_ok n t →
  wait_next_returns fee_threshold min_interval answer t = Some t' → goes_on n t t'.
Proof.
  intros Hn Hok. unfold wait_next_returns. destruct (monitor t) as [| |req| | |] eqn:Hmo; try done.
  pose proof (core_ok_quiet _ _ _ _ Hok) as Hq. rewrite Hmo in Hq. specialize (Hq eq_refl).
  pose proof (running_tip _ _ Hok) as Ht. rewrite Hmo in Ht. specialize (Ht eq_refl).
  destruct answer as [| |client].
  - intros [= <-]. apply goes_on_tasks; try done. apply core_ok_rest; [done|]. cbn. by rewrite Hq.
  - intros [= <-]. apply goes_on_tasks; try done. by apply core_ok_waiting.
  - destruct (next_template_id (state t)) as [id sh] eqn:Hnext. intros [= <-].
    destruct (next_id_core _ _ _ _ _ _ Hn Hok Hnext) as (_ & Hfac & Htip & _).
    eapply next_id_step; try done; cbn; unfold phases; rewrite ?Htip; destruct (messages t); done.
Qed.

Lemma monitor_fetched_ok n data t t' :
  tdp_ok n t → monitor_fetched fee_threshold min_interval requested data t = Some t' → goes_on n t t'.
Proof.
  intros Hok. unfold monitor_fetched. destruct (monitor t) as [| | |req id client| |] eqn:Hmo; try done.
  pose proof (core_ok_quiet _ _ _ _ Hok) as Hq. rewrite Hmo in Hq. specialize (Hq eq_refl).
  pose proof (running_tip _ _ Hok) as Ht. rewrite Hmo in Ht. specialize (Ht eq_refl).
  assert (shared_ok id (state t)) as Hsh.
  { pose proof (core_shared _ _ _ _ Hok) as Hsh. unfold bound in Hsh. rewrite Hmo in Hsh.
    by destruct (messages t). }
  assert (template_id_factory (state t) = id + 1) as Hfac.
  { destruct (core_phases _ _ _ _ Hok) as [_ Hp]. rewrite Hmo in Hp. by destruct Hp. }
  pose proof (core_factory _ _ _ _ Hok) as Hn.
  destruct (exec_monitor _ t) as [r t1] eqn:He. intros [= <-].
  eapply monitor_exec in He as (v & -> & Hr); [|by apply (monitor_wp (clock t) id client data)].
  assert (shared_ok (id + 1) (shared v) ∧ template_id_factory (shared v) = id + 1 ∧
          kept (clock t) (state t) (shared v) ∧ is_Some (tip_template (state t)) ∧
          (r = Some (Ok tt) → is_Some (tip_template (shared v))))
    as (Hv & Hf & Hk & _ & Ht').
  { destruct r as [r|].
    - destruct Hr as [? Hf ? Ht' _]. cbn in Hf. rewrite Hf. split_and!; try done. intros [= ->]. by apply Ht'.
    - subst v. cbn. split_and!; try done; [|apply kept_refl]. eapply shared_ok_le; [exact Hsh|lia]. }
  assert (∀ mo', (resting mo' = true ∨ ∃ req, mo' = Waiting req ∧ r = Some (Ok tt)) →
            core_ok (S n) (shared v) (messages t) mo') as Hcore.
  { intros mo' Hmo'. split; [|lia|].
    - assert (bound (shared v) (messages t) mo' = id + 1) as ->; [|done].
      rewrite <-Hf. destruct Hmo' as [Hmo'|(? & -> & _)]; [|by destruct (messages t)].
      by destruct (messages t), mo'.
    - split; [by destruct (messages t)|]. destruct Hmo' as [Hmo'|(? & -> & Hr')]; [by destruct mo'|].
      by apply Ht'. }
  destruct r as [[[]|e]|]; split; try (by apply lets_go_kept); apply Hcore; [right; eauto|by left|by left].
Qed.

Lemma monitor_cancelled_ok n t t' : tdp_ok n t → monitor_cancelled t = Some t' → goes_on n t t'.
Proof.
  intros Hok Hstep. pose proof (core_ok_quiet _ _ _ _ Hok) as Hq.
  assert (t' = put_monitor MonitorFinished t ∧ resting (monitor t) = false) as [-> Hr].
  { unfold monitor_cancelled in Hstep. destruct (monitor t); try done;
      [destruct (cancelled t)|destruct (_ || _)|destruct (cancelled t)]; by simplify_eq. }
  apply goes_on_tasks; try done. apply core_ok_rest; [done|]. cbn. by rewrite Hq.
Qed.

(** *** The sweeper *)
Lemma live_not_due now td : live td = true → is_due now td = false.
Proof. unfold live, is_due. by intros ->%bool_decide_eq_true. Qed.

Lemma swept_lookup now (m : gmap N TemplateData) id td :
  filter (λ p, is_due now p.2 = false) m !! id = Some td ↔ m !! id = Some td ∧ is_due now td = false.
Proof. by rewrite map_lookup_filter_Some. Qed.

Lemma sweep_ok n t t' : tdp_ok n t → sweep t = Some t' → goes_on n t t'.
Proof.
  intros Hok. unfold sweep. destruct (sweeper t); try done. intros [= <-].
  set (m := filter (λ p, is_due (clock t) p.2 = false) (retained_templates (state t))).
  assert (live_template_ids (put_retained m (state t)) = live_template_ids (state t)) as Hids.
  { apply live_ids_unique; [apply live_ids_sorted|]. intros id. rewrite live_ids_elem. unfold live_at. cbn.
    split; intros (td & Htd & Hl).
    - exists td. split; [|done]. apply swept_lookup. split; [done|]. by apply live_not_due.
    - apply swept_lookup in Htd as [? _]. eauto. }
  split.
  - destruct Hok as [[[Hk Ht Hl Hc] (v & Hv & Hn & Hlink)] Hfac Hp]. split; [|cbn; lia|done].
    split; [split|].
    + intros id td [? _]%swept_lookup. by apply Hk.
    + intros td Htd. destruct (Ht td Htd) as (? & ? & Hnone & ?). split_and!; try done. cbn.
      destruct (m !! td_template_id td) eqn:E; [|done]. apply swept_lookup in E as [? _]. congruence.
    + intros id td [? _]%swept_lookup. by apply Hl.
    + change (length (live_template_ids (put_retained m (state t))) ≤ max_same_tip_templates requested)%nat.
      by rewrite Hids.
    + exists v. split; [done|]. split; [done|]. intros Hopen. destruct (Hlink Hopen) as [He Htip].
      split; [done|]. intros td Htd. destruct (Htip td Htd) as [? ?]. split; [done|].
      change (live_template_ids (put_retained m (state t)) =
                last_n (max_same_tip_templates requested) (refreshes v)). by rewrite Hids.
  - split; [done|]. intros id td Htd. cbn. unfold template_data_for in *. cbn.
    destruct (is_due (clock t) td) eqn:Hdue.
    + right. unfold is_due in Hdue. destruct (retire_at td) as [d|]; [|done]. exists d. split; [done|].
      by apply N.leb_le.
    + left. exists td. split; [|by left]. destruct (tip_template (state t)); [case_match; [done|]|]; by apply swept_lookup.
Qed.

(** Every step keeps the invariant, and lets go only of what is due. *)
Lemma step_goes_on n ev t t' :
  N.of_nat (S n) < u64_modulus → tdp_ok n t → step ev t = Some t' → goes_on n t t'.
Proof.
  intros Hn Hok. destruct ev; cbn [tdp_step]; intros Hstep.
  - injection Hstep as <-. apply goes_on_tasks; try done; [cbn; lia|apply core_ok_le].
  - injection Hstep as <-. apply goes_on_tasks; try done. apply core_ok_le.
  - destruct (receiver_accepts (state t)) eqn:Hr; [done|]. injection Hstep as <-. split.
    + destruct Hok as [[[] (v & ? & ? & Hlink)] ? ?]. split; [|cbn; lia|done].
      split; [by split|]. exists v. split; [done|]. split; [done|]. intros _.
      destruct (Hlink ltac:(by rewrite Hr)). by split.
    + apply lets_go_kept; [done|]. intros id td Htd. exists td. auto.
  - by eapply receive_ok.
  - by eapply block_created_ok.
  - by eapply messages_fetched_ok.
  - by eapply monitor_joined_ok.
  - by eapply transactions_answer_ok.
  - by eapply solution_answer_ok.
  - by eapply messages_cancelled_ok.
  - by eapply monitor_ready_ok.
  - by eapply wait_next_returns_ok.
  - by eapply monitor_fetched_ok.
  - by eapply monitor_cancelled_ok.
  - unfold sweeper_ready in Hstep. destruct (sweeper t); try done. injection Hstep as <-.
    apply goes_on_tasks; destruct ok; try done; apply core_ok_le.
  - by eapply sweep_ok.
  - unfold destroy_next in Hstep. destruct (sweeper t) as [| | |due [|]|]; try done.
    destruct (decide _); [|destruct (due !! id); [|done]]; injection Hstep as <-;
      apply goes_on_tasks; try done; apply core_ok_le.
  - unfold destroyed in Hstep. destruct (sweeper t) as [| | |due [|]|]; try done. injection Hstep as <-.
    apply goes_on_tasks; destruct ok; try done; apply core_ok_le.
  - unfold sweeper_cancelled in Hstep. destruct (sweeper t); try done; destruct (cancelled t); try done;
      injection Hstep as <-; apply goes_on_tasks; try done; apply core_ok_le.
  - unfold archive_answer in Hstep. destruct (archiving t !! i) as [[[td tx] sol]|]; [|done].
    injection Hstep as <-. set (outcome := archive_solution td _ _ _ _ _).
    apply goes_on_tasks; destruct outcome as [[|]|]; try done; apply core_ok_le.
  - unfold archive_cancelled in Hstep. destruct (archiving t !! i); [|done]. destruct (cancelled t); [|done].
    injection Hstep as <-. apply goes_on_tasks; try done. apply core_ok_le.
Qed.

Lemma init_ok now : tdp_ok 0 (tdp_init now).
Proof.
  split; [|done|done]. split; [split; try done|].
  - rewrite not_live_ids; [simpl; lia|]. intros id (td & Htd & _). done.
  - exists no_view. split; [done|]. split; [done|]. intros _. by split.
Qed.

Lemma tdp_run_ok fair now evs t :
  N.of_nat (length evs) < u64_modulus →
  tdp_run fee_threshold min_interval requested fair (tdp_init now) evs t → tdp_ok (length evs) t.
Proof.
  intros Hn Hrun. revert Hn. eapply (tdp_run_invariant _ _ _ fair
    (λ n t, N.of_nat n < u64_modulus → tdp_ok n t)); [intros _; apply init_ok| |exact Hrun].
  intros n u ev u' Hu _ Hstep Hn. eapply step_goes_on; [done| |done]. apply Hu. lia.
Qed.
End safety.
