(* ===== verification/TdpProperties.v ===== *)
(** * What holds of the template distribution backend

    The theorems about runs of the backend: what clients are told and get
    answered, how long templates stay, how often refreshes come, and what the
    archived blocks are. *)
From S2P Require Import Prelude Handler Bitcoin Merkle ServerChannels TdpTemplates TdpSystem TdpTasks TdpInv TdpSafety.

Section properties.
Context `{TemplateApi} (fee_threshold min_interval : N) (requested : option nat).
Notation step := (tdp_step fee_threshold min_interval requested).
Notation run := (tdp_run fee_threshold min_interval requested).
Notation cap := (max_same_tip_templates requested).
Notation tdp_ok := (tdp_ok requested).

(** The templates a client may ask for: the tip's, and the newest [cap] of its
    refreshes. *)
Definition offered (v : ClientView) (id : N) : Prop :=
  (∃ h, tip v = Some (id, h)) ∨ id ∈ last_n cap (refreshes v).

Lemma held_offered n t v id :
  tdp_ok n t → linked requested (state t) v → is_Some (tip_template (state t)) →
  offered v id ↔ ∃ td, template_data_for id (state t) = Some td ∧ live td = true.
Proof.
  intros Hok [_ Hlink] [tp Htip]. destruct (Hlink tp Htip) as [Hv Hids].
  pose proof (ok_tables _ _ _ (core_shared _ _ _ _ _ Hok)) as Hs.
  destruct (ok_tip _ _ _ Hs tp Htip) as (Hlive & _ & Hnone & _).
  unfold offered, template_data_for. rewrite Hv, <-Hids, live_ids_elem, Htip. unfold live_at.
  destruct (N.eqb_spec (td_template_id tp) id) as [<-|Hne]; [naive_solver|]. split; [|naive_solver].
  intros [[h Hh]|?]; [|done]. congruence.
Qed.

(** *** Pace *)
Definition gap : N := min_interval * 1000000000.

Record paced (ts : list N) (now : N) (mo : MonitorTask) (last : option N) : Prop := {
  paced_spaced : StronglySorted (λ a b, a + gap ≤ b) ts;
  paced_past : Forall (λ x, x ≤ now) ts;
  paced_last : resting mo = false → ∃ l, last = Some l ∧ l ≤ now ∧ Forall (λ x, x ≤ l) ts;
  paced_request req : mo = Waiting req ∨ (∃ id c, mo = FetchingNext req id c) →
    wn_fee_threshold req = MAX_MONEY ∨ ∀ l, last = Some l → l + gap ≤ now;
}.

Lemma paced_later ts now now' mo last : now ≤ now' → paced ts now mo last → paced ts now' mo last.
Proof.
  intros Hle [Hs Hp Hl Hr]. split; [done|..].
  - eapply Forall_impl; [exact Hp|]. simpl. lia.
  - intros Hmo. destruct (Hl Hmo) as (l & ? & ? & ?). exists l. split_and!; [done|lia|done].
  - intros req Hreq. destruct (Hr req Hreq) as [?|Hlast]; [by left|right].
    intros l Hl'. specialize (Hlast l Hl'). lia.
Qed.

Lemma paced_rest ts now mo mo' last last' :
  resting mo' = true → paced ts now mo last → paced ts now mo' last'.
Proof.
  intros Hr [Hs Hp _ _]. split; try done; [by rewrite Hr|]. intros req [->|(? & ? & ->)]; done.
Qed.

Lemma paced_starting ts now mo last : paced ts now mo last → paced ts now MonitorStarting (Some now).
Proof.
  intros [Hs Hp _ _]. split; try done; [|by intros req [?|(? & ? & ?)]]. intros _. by exists now.
Qed.

Lemma wait_request_paced now last l :
  last = Some l → l ≤ now →
  wn_fee_threshold (wait_next_request fee_threshold min_interval now last) = MAX_MONEY ∨ l + gap ≤ now.
Proof.
  intros -> Hle. unfold wait_next_request.
  destruct (N.ltb_spec ((now - l) / 1000000) (min_interval * 1000)); [by left|right].
  unfold gap. pose proof (N.Div0.mul_div_le (now - l) 1000000). nia.
Qed.

Lemma paced_waiting ts now mo last :
  resting mo = false → paced ts now mo last →
  paced ts now (Waiting (wait_next_request fee_threshold min_interval now last)) last.
Proof.
  intros Hmo [Hs Hp Hl _]. destruct (Hl Hmo) as (l & Hlast & Hle & Hall).
  split; try done; [intros _; eauto|]. intros req [[= <-]|(? & ? & ?)]; [|done].
  destruct (wait_request_paced now last l Hlast Hle) as [?|?]; [by left|right]. intros l'. congruence.
Qed.

Lemma paced_refresh ts now mo last l :
  last = Some l → l + gap ≤ now → Forall (λ x, x ≤ l) ts → paced ts now mo last →
  paced (ts ++ [now]) now MonitorStarting (Some now).
Proof.
  intros _ Hgap Hall [Hs Hp _ _].
  assert (Forall (λ x, x ≤ now) (ts ++ [now])) as Hall'.
  { apply Forall_app. split; [done|]. by apply Forall_singleton. }
  split; [|done|intros _; by exists now|by intros req [?|(? & ? & ?)]].
  apply StronglySorted_app_2; [|done|repeat constructor].
  intros a b Ha ->%list_elem_of_singleton. rewrite Forall_forall in Hall. specialize (Hall a Ha). lia.
Qed.

(** Bitcoin Core skips refreshes of the fees when the threshold is
    [MAX_MONEY]: what it returns then has another previous hash. *)
Definition core_respects (t : Tdp) (ev : TdpEvent) : Prop :=
  ∀ req id client data td,
    ev = MonitorFetched data → monitor t = FetchingNext req id client →
    wn_fee_threshold req = MAX_MONEY → fetch_template_data id client data = Ok td →
    current_prev_hash (state t) ≠ Some (get_prev_hash td).

Definition paced_sys (t : Tdp) : Prop :=
  paced (refresh_times (outgoing_messages (state t))) (clock t) (monitor t) (monitor_last_sent t).

Lemma answered_times s s' :
  answered s s' → refresh_times (outgoing_messages s') = refresh_times (outgoing_messages s).
Proof.
  intros [->|(now & m & Hm & -> & _)]; [done|]. cbn. rewrite refresh_times_snoc.
  destruct m; try done; by rewrite app_nil_r.
Qed.

(** A step that sends no refresh and leaves the monitor alone, or ends it. *)
Lemma paced_same t t' :
  refresh_times (outgoing_messages (state t')) = refresh_times (outgoing_messages (state t)) →
  clock t ≤ clock t' →
  resting (monitor t') = true ∨ monitor t' = monitor t ∧ monitor_last_sent t' = monitor_last_sent t →
  paced_sys t → paced_sys t'.
Proof.
  unfold paced_sys. intros -> Hc Hmo Hp. apply (paced_later _ (clock t)); [done|].
  destruct Hmo as [Hr|[-> ->]]; [|done]. by eapply paced_rest.
Qed.

Lemma booted_paced first data id client t t' n :
  messages t = FetchingFirst first id client → tdp_ok n t → paced_sys t →
  messages_fetched requested data t = Some t' → paced_sys t'.
Proof.
  intros Hm Hok Hp. unfold messages_fetched. rewrite Hm.
  destruct (core_phases _ _ _ _ _ Hok) as [Hph _]. rewrite Hm in Hph. destruct Hph as (Hmo & Htip & _).
  pose proof (core_shared _ _ _ _ _ Hok) as Hsh. unfold bound in Hsh. rewrite Hm in Hsh.
  destruct (exec_messages _ t) as [r t1] eqn:He. intros [= <-].
  eapply messages_exec in He as (v & -> & Hr); [|by apply (bootstrap_wp _ (clock t) id client data)].
  destruct r as [[[]|e]|].
  - destruct Hr as [_ _ _ _ Htimes Hlast]. specialize (Hlast eq_refl). cbn in Htimes.
    assert (paced_sys (put_messages Receiving (spawn_monitor
      (put_messages_last (last_sent_template_instant v) (put_state (shared v) t))))) as Hgo.
    { unfold paced_sys. cbn. rewrite Hlast, Htimes. eapply paced_starting. exact Hp. }
    by destruct first.
  - destruct Hr as [_ _ _ _ Htimes _]. apply (paced_same t); [exact Htimes|done| |exact Hp].
    left. cbn. by rewrite Hmo.
  - subst v. apply (paced_same t); [done|done| |exact Hp]. left. cbn. by rewrite Hmo.
Qed.

Lemma monitor_paced data t t' n :
  tdp_ok n t → core_respects t (MonitorFetched data) → paced_sys t →
  monitor_fetched fee_threshold min_interval requested data t = Some t' → paced_sys t'.
Proof.
  intros Hok Hcore Hp. unfold monitor_fetched.
  destruct (monitor t) as [| | |req id client| |] eqn:Hmo; try done.
  pose proof (core_ok_quiet _ _ _ _ _ Hok) as Hq. rewrite Hmo in Hq. specialize (Hq eq_refl).
  pose proof (running_tip _ _ _ Hok) as Ht. rewrite Hmo in Ht. specialize (Ht eq_refl).
  assert (shared_ok requested id (state t)) as Hsh.
  { pose proof (core_shared _ _ _ _ _ Hok) as Hsh. unfold bound in Hsh. rewrite Hmo in Hsh.
    by destruct (messages t). }
  destruct (exec_monitor _ t) as [r t1] eqn:He. intros [= <-].
  eapply monitor_exec in He as (v & -> & Hr); [|by apply (monitor_wp _ (clock t) id client data)].
  unfold paced_sys in *. rewrite Hmo in Hp.
  destruct r as [r|]; [|by subst v; eapply paced_rest].
  destruct Hr as [_ _ _ _ [[Htimes Hlast]|(Htimes & Hlast & td & Hf & Hcur)]]; cbn in Htimes, Hlast.
  - destruct r as [[]|e]; cbn; rewrite Htimes; [|by eapply paced_rest].
    rewrite Hlast by done. eapply paced_waiting; [|eassumption]; done.
  - destruct (paced_request _ _ _ _ Hp req) as [Hmax|Hgap]; [by eauto|by destruct (Hcore _ _ _ _ _ eq_refl Hmo Hmax Hf)|].
    destruct (paced_last _ _ _ _ Hp eq_refl) as (l & Hl & _ & Hall).
    assert (paced (refresh_times (outgoing_messages (shared v))) (clock t) MonitorStarting (Some (clock t))) as Hnew.
    { destruct Htimes as [->| ->]; [by eapply paced_starting|]. eapply paced_refresh; try done. by apply Hgap. }
    destruct r as [[]|e]; cbn; [|by eapply paced_rest]. rewrite Hlast by done. eapply paced_waiting; [|eassumption]; done.
Qed.

Lemma receive_paced m dir_ok t t' : paced_sys t → receive m dir_ok t = Some t' → paced_sys t'.
Proof.
  intros Hp. unfold receive. destruct (messages t); try done; destruct m as [sol|size sigops|id]; try done;
    [by intros [= <-]..| | |].
  - destruct (exec_messages _ t) as [r t1] eqn:He. intros [= <-].
    eapply messages_exec in He as (v & -> & Hr); [|apply submit_answers].
    assert (shared v = state t) as Hv by by destruct r as [r|]; [destruct Hr as [-> _]|rewrite Hr].
    apply (paced_same t); [| | |exact Hp]; destruct r as [[[]|]|]; cbn; rewrite ?Hv; auto.
  - by intros [= <-].
  - destruct (exec_messages _ t) as [r t1] eqn:He. intros [= <-].
    eapply messages_exec in He as (v & -> & Hr); [|apply request_answers].
    assert (answered (state t) (shared v)) as Ha%answered_times.
    { destruct r as [r|]; [by destruct Hr as [[? _] _]|]. left. by rewrite Hr. }
    apply (paced_same t); [| | |exact Hp]; destruct r as [[[]|]|]; cbn; auto.
Qed.

Lemma step_paced n ev t t' :
  tdp_ok n t → core_respects t ev → paced_sys t → step ev t = Some t' → paced_sys t'.
Proof.
  intros Hok Hcore Hp. destruct ev; cbn [tdp_step]; intros Hstep.
  - injection Hstep as <-. apply (paced_same t); [done|cbn; lia|by right|exact Hp].
  - by injection Hstep as <-.
  - destruct (receiver_accepts (state t)); [done|]. by injection Hstep as <-.
  - by eapply receive_paced.
  - unfold block_created in Hstep. destruct (messages t); try done. by destruct client; injection Hstep as <-.
  - destruct (messages t) as [| |first id client| | | | |] eqn:Hm;
      try (unfold messages_fetched in Hstep; by rewrite Hm in Hstep). by eapply booted_paced.
  - assert (refresh_times (outgoing_messages (retire_all_templates (clock t) (state t))) =
            refresh_times (outgoing_messages (state t))) as Hret
      by by unfold retire_all_templates; destruct (tip_template (state t)).
    unfold monitor_joined in Hstep. destruct (messages t); try done. destruct (monitor t); try done;
      injection Hstep as <-; (apply (paced_same t); [done|done|by left|exact Hp]).
  - unfold transactions_answer in Hstep. destruct (messages t); try done.
    destruct (exec_messages _ t) as [r t1] eqn:He. injection Hstep as <-.
    eapply messages_exec in He as (v & -> & Hr); [|apply transactions_answers].
    assert (answered (state t) (shared v)) as Ha%answered_times.
    { destruct r as [r|]; [by destruct Hr|]. left. by rewrite Hr. }
    apply (paced_same t); [| | |exact Hp]; destruct r as [[[]|]|]; cbn; auto.
  - unfold solution_answer in Hstep. destruct (messages t); try done. injection Hstep as <-.
    by destruct accepted as [[]|].
  - unfold messages_cancelled in Hstep. destruct (messages t); try done; destruct (cancelled t); by simplify_eq.
  - unfold monitor_ready in Hstep. destruct (monitor t) eqn:Hmo; try done.
    unfold paced_sys in *. destruct (_ && _); injection Hstep as <-; cbn; rewrite Hmo in Hp.
    + eapply paced_waiting; [|eassumption]; done.
    + by eapply paced_rest.
  - unfold wait_next_returns in Hstep. destruct (monitor t) eqn:Hmo; try done.
    unfold paced_sys in *. rewrite Hmo in Hp. destruct answer; injection Hstep as <-; cbn.
    + by eapply paced_rest.
    + eapply paced_waiting; [|eassumption]; done.
    + destruct Hp as [Hs Hpast Hl Hr]. split; try done.
      intros req [?|(? & ? & [= <- _ _])]; [done|]. apply Hr. by left.
  - by eapply monitor_paced.
  - unfold monitor_cancelled in Hstep. destruct (monitor t) eqn:Hmo; try done;
      [destruct (cancelled t)|destruct (_ || _)|destruct (cancelled t)]; simplify_eq;
      (apply (paced_same t); [done|done|by left|exact Hp]).
  - unfold sweeper_ready in Hstep. destruct (sweeper t); try done. injection Hstep as <-. by destruct ok.
  - unfold sweep in Hstep. destruct (sweeper t); try done. by injection Hstep as <-.
  - unfold destroy_next in Hstep. destruct (sweeper t) as [| | |due [|]|]; try done.
    destruct (decide _); [|destruct (due !! id); [|done]]; by injection Hstep as <-.
  - unfold destroyed in Hstep. destruct (sweeper t) as [| | |due [|]|]; try done. injection Hstep as <-.
    by destruct ok.
  - unfold sweeper_cancelled in Hstep. destruct (sweeper t); try done; destruct (cancelled t); by simplify_eq.
  - unfold archive_answer in Hstep. destruct (archiving t !! i) as [[[td tx] sol]|]; [|done].
    injection Hstep as <-. by destruct (archive_solution td _ _ _ _ _) as [[|]|].
  - unfold archive_cancelled in Hstep. destruct (archiving t !! i); [|done]. destruct (cancelled t); by simplify_eq.
Qed.

(** *** Staying held *)

(** [id] is held with its client, at least until [deadline]. *)
Definition held_until (id client deadline : N) (t : Tdp) : Prop :=
  deadline ≤ clock t ∨
  ∃ td, template_data_for id (state t) = Some td ∧ template_ipc_client td = client ∧
    ∀ d, retire_at td = Some d → deadline ≤ d.

Lemma retire_client d td : template_ipc_client (retire d td) = template_ipc_client td.
Proof. unfold retire. by destruct (retire_at td). Qed.
Lemma retire_deadline d d' td :
  retire_at (retire d td) = Some d' → retire_at td = Some d' ∨ retire_at td = None ∧ d' = d.
Proof. unfold retire. destruct (retire_at td) eqn:E; simpl; [rewrite E; auto|]. intros [= <-]. auto. Qed.

Lemma held_step id client start t t' :
  start ≤ clock t → lets_go t t' →
  held_until id client (start + STALE_TEMPLATE_GRACE_PERIOD) t →
  held_until id client (start + STALE_TEMPLATE_GRACE_PERIOD) t'.
Proof.
  intros Hs [Hc Hgo] [Hpast|(td & Htd & Hclient & Hd)]; [left; lia|].
  destruct (Hgo id td Htd) as [(td' & Htd' & Heq)|(d & Hdd & Hle)].
  - right. exists td'. split; [done|]. destruct Heq as [->| ->]; [done|].
    rewrite retire_client. split; [done|]. intros d [?|[_ ->]]%retire_deadline; [by apply Hd|lia].
  - left. specialize (Hd d Hdd). lia.
Qed.

Lemma held_run fair n t evs t' id td :
  tdp_ok n t → N.of_nat (n + length evs) < u64_modulus →
  template_data_for id (state t) = Some td → live td = true → run fair t evs t' →
  clock t ≤ clock t' ∧
  held_until id (template_ipc_client td) (clock t + STALE_TEMPLATE_GRACE_PERIOD) t'.
Proof.
  intros Hok Hn Htd Hlive Hrun.
  assert (tdp_ok (n + length evs) t' ∧ clock t ≤ clock t' ∧
          held_until id (template_ipc_client td) (clock t + STALE_TEMPLATE_GRACE_PERIOD) t') as (_ & ? & ?);
    [|done].
  induction Hrun as [|evs u ev u' Hrun IH _ Hstep].
  - rewrite Nat.add_0_r. split; [done|]. split; [lia|]. right. exists td. split; [done|]. split; [done|].
    intros d Hd. apply bool_decide_eq_true in Hlive. congruence.
  - rewrite length_app in *. simpl in *. destruct IH as (Hu & Hc & Hheld); [lia|].
    destruct (step_goes_on _ _ _ (n + length evs) ev u u' ltac:(lia) Hu Hstep) as [Hok' Hgo].
    split; [by replace (n + (length evs + 1))%nat with (S (n + length evs)) by lia|].
    split; [destruct Hgo; lia|]. by eapply held_step.
Qed.

(** ** Theorems *)

(** C3: What the backend sends is what a template source may send: ids grow,
    every future template is made the tip by the very next template message,
    and every other template belongs to that tip.  As long as its client
    listens, the backend keeps the tip's template and exactly the newest of the
    tip's refreshes usable, as many as configured, on the tip's hash. *)
Theorem backend_offers_templates fair now evs t :
  N.of_nat (length evs) < u64_modulus → run fair (tdp_init now) evs t →
  ∃ v, client_view (outgoing_messages (state t)) = Some v ∧
    ∀ td, receiver_accepts (state t) ≠ Some 0%nat → tip_template (state t) = Some td →
      tip v = Some (td_template_id td, get_prev_hash td) ∧ live td = true ∧
      current_prev_hash (state t) = Some (get_prev_hash td) ∧
      live_template_ids (state t) = last_n cap (refreshes v) ∧
      ∀ id td', retained_templates (state t) !! id = Some td' → live td' = true →
        get_prev_hash td' = get_prev_hash td.
Proof.
  intros Hn Hrun. pose proof (tdp_run_ok _ _ _ _ _ _ _ Hn Hrun) as Hok.
  destruct (core_shared _ _ _ _ _ Hok) as [[_ Ht Hl _] (v & Hv & _ & Hlink)]. exists v. split; [done|].
  intros td Hopen Htd. destruct (Hlink Hopen) as [_ Htip]. destruct (Htip td Htd), (Ht td Htd) as (? & _ & _ & ?).
  split_and!; try done. intros id td' Htd' Hlive. destruct (Hl id td' Htd' Hlive) as (tp & ? & _ & ?). congruence.
Qed.

(** C16: A request for a template's transactions is served exactly when the
    template is one the client was offered and that was not superseded: the
    tip's, or one of its newest refreshes.  Otherwise the client is told at
    once, [stale-template-id] as long as the template is held and
    [template-id-not-found] after. *)
Theorem offered_templates_answer fair now evs t v id t' :
  N.of_nat (length evs) < u64_modulus → run fair (tdp_init now) evs t →
  client_view (outgoing_messages (state t)) = Some v → messages t = Receiving →
  receiver_accepts (state t) = None → is_Some (tip_template (state t)) →
  receive (MsgRequestTransactionData id) true t = Some t' →
  (offered v id ∧ (∃ td, messages t' = AwaitingTransactions td ∧ td_template_id td = id) ∧
     outgoing_messages (state t') = outgoing_messages (state t)) ∨
  (¬ offered v id ∧ messages t' = Receiving ∧
   outgoing_messages (state t') = outgoing_messages (state t) ++
     [(clock t, OutTransactionDataError id
         (if template_data_for id (state t) then ERROR_CODE_STALE_TEMPLATE_ID
          else ERROR_CODE_TEMPLATE_ID_NOT_FOUND))]).
Proof.
  intros Hn Hrun Hv Hm Hopen Htip. pose proof (tdp_run_ok _ _ _ _ _ _ _ Hn Hrun) as Hok.
  destruct (core_shared _ _ _ _ _ Hok) as [Hs (v' & Hv' & _ & Hlink)].
  assert (v' = v) as -> by congruence.
  rewrite (held_offered _ t v id Hok (Hlink ltac:(by rewrite Hopen)) Htip).
  unfold receive. rewrite Hm.
  unfold exec_messages, exec, request_transaction_data, ask, mbind, prog_bind. cbn [shared].
  destruct (template_data_for id (state t)) as [td|] eqn:Htd; [destruct (live td) eqn:Hlive|];
    unfold send, ask, update, mbind, prog_bind; cbn [shared]; rewrite ?Hopen; intros [= <-]; cbn.
  - left. split; [eauto|]. split; [|done]. exists td. split; [done|]. by eapply template_data_id.
  - right. split; [|done]. intros (? & [= <-] & ?). congruence.
  - right. split; [|done]. by intros (? & ? & _).
Qed.

(** C9: A template that is superseded is not lost at once: for ten seconds
    from any moment at which it was usable, a solution for it is handed to its
    Bitcoin Core client, whatever happens meanwhile. *)
Theorem superseded_templates_take_solutions fair fair' now evs t id td evs' t' sol tx t'' :
  N.of_nat (length evs + length evs') < u64_modulus →
  run fair (tdp_init now) evs t → run fair' t evs' t' →
  template_data_for id (state t) = Some td → live td = true →
  clock t' < clock t + STALE_TEMPLATE_GRACE_PERIOD → messages t' = Receiving →
  sol_template_id sol = id → deserialize_tx (sol_coinbase_tx sol) = Some tx →
  receive (MsgSubmitSolution sol) true t' = Some t'' →
  asked t'' = asked t' ++ [(clock t', SubmitSolutionTo (template_ipc_client td) sol)] ∧
  ∃ td', messages t'' = AwaitingSolution td' tx sol ∧ template_ipc_client td' = template_ipc_client td.
Proof.
  intros Hn Hrun Hrun' Htd Hlive Hc Hm Hid Htx.
  assert (N.of_nat (length evs) < u64_modulus) as Hn1 by lia.
  pose proof (tdp_run_ok _ _ _ _ _ _ _ Hn1 Hrun) as Hok.
  destruct (held_run _ _ _ _ _ _ _ Hok Hn Htd Hlive Hrun') as [_ [?|(td' & Htd' & Hclient & _)]]; [lia|].
  unfold receive. rewrite Hm.
  unfold exec_messages, exec, submit_solution, ask, some_or, ensure, mbind, prog_bind. cbn [shared].
  rewrite Hid, Htd'. cbn. rewrite Htx. cbn. intros [= <-]. cbn. rewrite Hclient. split; [done|]. eauto.
Qed.

(** C22: As long as Bitcoin Core skips refreshes when asked with the threshold
    [MAX_MONEY], two refreshes of the fees are never sent less than the
    configured interval apart. *)
Theorem refreshes_are_paced now evs t :
  N.of_nat (length evs) < u64_modulus → run core_respects (tdp_init now) evs t →
  StronglySorted (λ a b, a + min_interval * 1000000000 ≤ b)
    (refresh_times (outgoing_messages (state t))).
Proof.
  intros Hn Hrun.
  assert (N.of_nat (length evs) < u64_modulus → tdp_ok (length evs) t ∧ paced_sys t) as Hall.
  { eapply (tdp_run_invariant _ _ _ core_respects
      (λ n t, N.of_nat n < u64_modulus → tdp_ok n t ∧ paced_sys t)); [| |exact Hrun].
    - intros _. split; [apply init_ok|]. apply (paced_rest _ _ NoMonitor _ None); [done|].
      split; [constructor|constructor|done|]. by intros req [?|(? & ? & ?)].
    - intros n u ev u' Hu Hfair Hstep Hn'. destruct (Hu ltac:(lia)) as [Hok Hp]. split.
      + by eapply step_goes_on.
      + by eapply step_paced. }
  by destruct (Hall Hn) as [_ [? _ _ _]].
Qed.

(** C26: What is archived is a block: its header commits to its transactions,
    which are the template's with the miner's coinbase, it extends the
    template's tip at the template's difficulty, and it has the work, if the
    template's merkle path is the branch of its coinbase, as Bitcoin Core's
    is. *)
Theorem archived_block_commits `{B : BitcoinApi} `{!TemplateLaws B _} td tx version ntime nonce bytes tb block :
  archive_solution td tx version ntime nonce (Some bytes) = Done (Ok block) →
  deserialize_block bytes = Some tb →
  from_le_bytes <$> td_merkle_path td =
    branch_spec (length (txdata tb)) (tx_id <$> txdata tb) →
  Forall (λ bs, length bs = 32%nat) (td_merkle_path td) →
  txdata block = tx :: tail (txdata tb) ∧
  Merkle.merkle_root (tx_id <$> txdata block) = Some (merkle_root (block_header block)) ∧
  prev_blockhash (block_header block) = get_prev_hash td ∧
  bits (block_header block) = bits (td_header td) ∧
  header_hash (block_header block) ≤ target_of_bits (bits (block_header block)).
Proof.
  intros Harch Htb Hpath Hlen. unfold archive_solution in Harch.
  apply rust_bind_done in Harch as (fits & _ & Harch). destruct fits; [|done]. simpl in Harch.
  destruct (validate_pow _) eqn:Hpow; [|done]. simpl in Harch. rewrite Htb in Harch.
  destruct (txdata tb) as [|cb rest] eqn:Htx; [done|]. injection Harch as <-. cbn.
  split; [done|]. split; [|split; [done|split; [done|by apply N.leb_le]]].
  apply (solution_root_commits td tx (tx_id <$> rest)); [|done].
  rewrite Hpath. cbn [fmap list_fmap length]. rewrite length_fmap. apply branch_spec_leaf.
Qed.

(** The backends for the two versions of Bitcoin Core make the same
    [NewTemplate] of the same template: when v30x decodes a coinbase whose
    amounts add up to the reward v31x reports, and whose empty outputs are the
    outputs v31x reports, the messages (or the errors) are equal. *)
Theorem core_versions_agree td30 td31 reward future :
  td_block_reward_remaining td30 = None → td_block_reward_remaining td31 = Some reward →
  td_template_id td30 = td_template_id td31 → td_header td30 = td_header td31 →
  td_merkle_path td30 = td_merkle_path td31 →
  full_version (td_coinbase_tx td30) = full_version (td_coinbase_tx td31) →
  full_lock_time (td_coinbase_tx td30) = full_lock_time (td_coinbase_tx td31) →
  full_input (td_coinbase_tx td30) = full_input (td_coinbase_tx td31) →
  filter (λ o, value o = 0) (full_output (td_coinbase_tx td30)) = full_output (td_coinbase_tx td31) →
  checked_sum (value <$> full_output (td_coinbase_tx td30)) = Some reward →
  of_template (get_new_template_message future) td30 = of_template (get_new_template_message future) td31.
Proof.
  intros H30 H31 Hid Hh Hp Hv Hl Hi Ho Hsum.
  assert (sent_coinbase_outputs td30 = sent_coinbase_outputs td31) as Hsent.
  { unfold sent_coinbase_outputs. by rewrite H30, H31. }
  unfold of_template, get_new_template_message, get_version, get_coinbase_tx_version,
    get_coinbase_script_sig, get_coinbase_input_sequence, first_input, get_coinbase_tx_value_remaining,
    get_serialized_coinbase_outputs, get_merkle_path, some_or, some_or_crash, ensure, raise, crash,
    ask, id, mbind, prog_bind, mret, prog_ret.
  cbv beta iota zeta. rewrite Hh. destruct (i32_to_u32 (h_version _)); [|done]. cbv beta iota zeta. rewrite Hv.
  destruct (i32_to_u32 (full_version _)); [|done]. cbv beta iota zeta. rewrite Hi.
  destruct (head _) as [input|]; [|done]. cbv beta iota zeta.
  destruct (_ <=? 255)%nat; [|done]. cbv beta iota zeta. rewrite Hi. destruct (head _) as [input'|]; [|done]. cbv beta iota zeta.
  rewrite H30, H31, Hsum. cbv beta iota zeta. rewrite Hsent. destruct (_ <=? 65535)%nat; [|done]. cbv beta iota zeta. rewrite Hp.
  destruct (mapM _ _) as [path|]; [|done]. cbv beta iota zeta. destruct (_ <=? 255)%nat; [|done]. cbv beta iota zeta.
  by rewrite Hid, Hl.
Qed.
End properties.
