(* ===== verification/TdpExamples.v ===== *)
(** * Concrete runs of the template distribution backend

    A header is its first byte, the tip's; a block the list of its
    transactions' bytes, a transaction its lock time.  In the run, the client
    asks for templates, the monitor refreshes the tip's template twice, and
    the first refresh is superseded. *)
From S2P Require Import Prelude Handler Bitcoin Merkle ServerChannels TdpTemplates TdpSystem TdpTasks TdpInv TdpSafety TdpProperties.

Module TdpExamples.
Definition tx_of (b : byte) : FullTx :=
  {| full_version := 2; full_lock_time := Byte.to_N b;
     full_input := [{| previous_output := null_outpoint; in_script_sig := []; in_sequence := 7;
                       witness := [] |}];
     full_output := [] |}.
Definition header_of (b : byte) : Header :=
  {| h_version := 2; prev_blockhash := Byte.to_N b; merkle_root := 0; time := 1; bits := 3; nonce := 0 |}.

#[local] Instance byte_templates : TemplateApi := {|
  deserialize_header bs := header_of <$> head bs;
  deserialize_block bs :=
    match bs with b :: txs => Some {| block_header := header_of b; txdata := tx_of <$> txs |}
                | [] => None end;
  deserialize_tx bs := tx_of <$> head bs;
  serialize_tx tx := to_le_bytes 4 (full_lock_time tx);
  serialize_txout _ := []; decode_txout _ := None;
  tx_id := full_lock_time; sha256d bs := from_le_bytes bs; checked_sum l := Some (foldr N.add 0 l); target_of_bits b := b;
  header_hash _ := 2;
  ERROR_CODE_TEMPLATE_ID_NOT_FOUND := "template-id-not-found";
  ERROR_CODE_STALE_TEMPLATE_ID := "stale-template-id" |}.

#[local] Instance byte_bitcoin : BitcoinApi := {|
  Transaction := N; tx_version _ := 2%Z; tx_lock_time _ := 0; tx_input _ := []; tx_output _ := [];
  compute_txid t := t; compute_wtxid t := t; tx_weight _ := 4; is_coinbase _ := false;
  consensus_decode _ := None; deserialize _ := None; serialize_outputs _ := [];
  varint_decode _ := None; varint_size _ := 1;
  merkle_combine a b := sha256d (to_le_bytes 32 a ++ to_le_bytes 32 b);
  weight_max_block := 4000000; weight_min_transaction := 240 |}.
#[local] Instance byte_laws : TemplateLaws byte_bitcoin byte_templates.
Proof. by split. Qed.

Definition fetched (tip : byte) : Fetched :=
  {| f_header := [tip];
     f_coinbase := CoinbaseStruct {| ipc_version := 2; ipc_sequence := 7; ipc_script_sig_prefix := [x01];
                      ipc_witness := []; ipc_block_reward_remaining := 50;
                      ipc_required_outputs := []; ipc_lock_time := 0 |};
     f_merkle_path := [to_le_bytes 32 9] |}.

(** A fee threshold of 1000, five seconds, one refresh at a time. *)
Notation exec := (tdp_exec 1000 5 (Some 1%nat)).
Notation run := (tdp_run 1000 5 (Some 1%nat)).
Notation init := (tdp_init 0).

Definition refresh (client : N) : list TdpEvent :=
  [Tick (from_secs 6); WaitNextReturns TimedOut; WaitNextReturns (NewClient client);
   MonitorFetched (Some (fetched x05))].
Definition boot : list TdpEvent :=
  [Incoming (MsgCoinbaseOutputConstraints 100 4) true; BlockCreated (Some 1);
   MessagesFetched (Some (fetched x05)); MonitorReady true; SweeperReady true].
Definition refreshed : list TdpEvent := boot ++ refresh 2.
Definition superseded : list TdpEvent := refresh 3 ++ [Tick (from_secs 3); Sweep].

(** Bitcoin Core's behaviour, decided. *)
Definition respects_b (t : Tdp) (ev : TdpEvent) : bool :=
  match ev, monitor t with
  | MonitorFetched data, FetchingNext req id client =>
      negb (bool_decide (wn_fee_threshold req = MAX_MONEY)) ||
      match fetch_template_data id client data with
      | Ok td => negb (bool_decide (current_prev_hash (state t) = Some (get_prev_hash td)))
      | Err _ => true
      end
  | _, _ => true
  end.
Lemma respects_of_b t ev : respects_b t ev = true → core_respects t ev.
Proof.
  intros Hb req id client data td -> Hmo Hmax Hf. unfold respects_b in Hb. rewrite Hmo, Hf in Hb.
  rewrite bool_decide_true in Hb by done. by apply negb_true_iff, bool_decide_eq_false in Hb.
Qed.

Fixpoint exec_fair (evs : list TdpEvent) (t : Tdp) : option Tdp :=
  match evs with
  | [] => Some t
  | ev :: evs => if respects_b t ev then t' ← tdp_step 1000 5 (Some 1%nat) ev t; exec_fair evs t' else None
  end.
Lemma exec_fair_run evs t t' : exec_fair evs t = Some t' → run core_respects t evs t'.
Proof.
  revert t. induction evs as [|ev evs IH]; intros t; [intros [= ->]; constructor|].
  simpl. destruct (respects_b t ev) eqn:Hb; [|done]. intros (t1 & Hstep & Hrest)%bind_Some.
  apply (tdp_run_trans _ _ _ _ t [ev] t1); [|by apply IH].
  apply (tdp_run_step _ _ _ _ _ [] t ev); [constructor|by apply respects_of_b|done].
Qed.

Definition t1 : Tdp := default init (exec refreshed init).
Definition t2 : Tdp := default init (exec superseded t1).
Definition t3 : Tdp := default init (exec_fair (refreshed ++ superseded) init).

Lemma run_t1 : run anyhow init refreshed t1.
Proof. apply tdp_exec_run. vm_compute. reflexivity. Qed.
Lemma run_t2 : run anyhow t1 superseded t2.
Proof. apply tdp_exec_run. vm_compute. reflexivity. Qed.
Lemma run_t3 : run core_respects init (refreshed ++ superseded) t3.
Proof. apply exec_fair_run. vm_compute. reflexivity. Qed.

(** The tip's template and the refresh are usable; the second refresh takes the
    place of the first. *)
Example offers_1 : live_template_ids (state t1) = [1] ∧ td_template_id <$> tip_template (state t1) = Some 0.
Proof. by vm_compute. Qed.
Example offers_2 : live_template_ids (state t2) = [2] ∧
  refresh_times (outgoing_messages (state t3)) = [from_secs 6; from_secs 12].
Proof. by vm_compute. Qed.

Lemma backend_offers_templates_witness :
  ∃ v, client_view (outgoing_messages (state t1)) = Some v ∧ refreshes v = [1] ∧ tip v = Some (0, 5).
Proof.
  destruct (backend_offers_templates 1000 5 (Some 1%nat) anyhow 0 refreshed t1 eq_refl run_t1)
    as (v & Hv & Htip).
  exists v. split; [exact Hv|]. vm_compute in Hv. injection Hv as <-. done.
Defined.

(** The refresh is served; a template that never was is not found. *)
Definition view_1 : ClientView := default no_view (client_view (outgoing_messages (state t1))).
Definition served : Tdp := default t1 (receive (MsgRequestTransactionData 1) true t1).
Definition unserved : Tdp := default t1 (receive (MsgRequestTransactionData 9) true t1).

Lemma offered_templates_answer_witness :
  (∃ td, messages served = AwaitingTransactions td ∧ td_template_id td = 1) ∧
  ∃ log, outgoing_messages (state unserved) =
    log ++ [(from_secs 6, OutTransactionDataError 9 "template-id-not-found")].
Proof.
  assert (client_view (outgoing_messages (state t1)) = Some view_1) as Hview by (vm_compute; reflexivity).
  assert (messages t1 = Receiving) as Hm by (vm_compute; reflexivity).
  assert (receiver_accepts (state t1) = None) as Hopen by (vm_compute; reflexivity).
  assert (is_Some (tip_template (state t1))) as Htip by (vm_compute; eexists; reflexivity).
  pose proof (λ id t', offered_templates_answer 1000 5 (Some 1%nat) anyhow 0 refreshed t1 view_1 id t'
    eq_refl run_t1 Hview Hm Hopen Htip) as Hanswer.
  split.
  - destruct (Hanswer 1 served ltac:(vm_compute; reflexivity)) as [(_ & ? & _)|(Hno & _)]; [done|].
    destruct Hno. right. vm_compute. by left.
  - destruct (Hanswer 9 unserved ltac:(vm_compute; reflexivity)) as [([[h Hh]|Hin] & _)|(_ & _ & Hlog)].
    + vm_compute in Hh. discriminate.
    + vm_compute in Hin. by apply list_elem_of_singleton in Hin.
    + eexists. exact Hlog.
Defined.

(** The first refresh, three seconds after the second one superseded it. *)
Definition late_solution : SubmitSolution :=
  {| sol_template_id := 1; sol_version := 2; sol_ntime := 1; sol_nonce := 0; sol_coinbase_tx := [x08] |}.
Definition refresh_1 : TemplateData :=
  default (new_template_data 0 (header_of x00) (tx_of x00) None [] 0) (template_data_for 1 (state t1)).
Definition submitted : Tdp := default t2 (receive (MsgSubmitSolution late_solution) true t2).

Lemma superseded_templates_take_solutions_witness :
  asked submitted = asked t2 ++ [(from_secs 15, SubmitSolutionTo 2 late_solution)].
Proof.
  destruct (superseded_templates_take_solutions 1000 5 (Some 1%nat) anyhow anyhow 0 refreshed t1 1
    refresh_1 superseded t2 late_solution (tx_of x08) submitted eq_refl run_t1 run_t2) as [Hasked _];
    [vm_compute; reflexivity..|exact Hasked].
Defined.

Lemma refreshes_are_paced_witness :
  refresh_times (outgoing_messages (state t3)) = [from_secs 6; from_secs 12] ∧
  StronglySorted (λ a b, a + 5 * 1000000000 ≤ b) (refresh_times (outgoing_messages (state t3))).
Proof.
  split; [vm_compute; reflexivity|].
  exact (refreshes_are_paced 1000 5 (Some 1%nat) 0 (refreshed ++ superseded) t3 eq_refl run_t3).
Defined.

(** A solved block of the miner's coinbase and the template's transaction. *)
Definition template_9 : TemplateData :=
  new_template_data 4 (header_of x05) (tx_of x08) (Some 50) [to_le_bytes 32 9] 1.
Definition solved : FullBlock :=
  {| block_header := solution_header template_9 (tx_of x08) 2 1 0; txdata := [tx_of x08; tx_of x09] |}.

Lemma archived_block_commits_witness :
  archive_solution template_9 (tx_of x08) 2 1 0 (Some [x05; x01; x09]) = Done (Ok solved) ∧
  Merkle.merkle_root (tx_id <$> txdata solved) = Some (merkle_root (block_header solved)).
Proof.
  assert (archive_solution template_9 (tx_of x08) 2 1 0 (Some [x05; x01; x09]) = Done (Ok solved)) as Harch
    by (vm_compute; reflexivity).
  split; [exact Harch|].
  assert (from_le_bytes <$> td_merkle_path template_9 = branch_spec 2 [1; 9]) as Hpath
    by (vm_compute; reflexivity).
  assert (Forall (λ bs, length bs = 32%nat) (td_merkle_path template_9)) as Hlen by repeat constructor.
  destruct (archived_block_commits template_9 (tx_of x08) 2 1 0 [x05; x01; x09]
    {| block_header := header_of x05; txdata := [tx_of x01; tx_of x09] |} solved
    Harch eq_refl Hpath Hlen) as (_ & Hroot & _).
  exact Hroot.
Defined.

(** A reward of 50 and an empty output, as the two versions of Bitcoin Core
    report it. *)
Definition coinbase_30 : FullTx :=
  {| full_version := 2; full_lock_time := 0; full_input := full_input (tx_of x01);
     full_output := [{| value := 50; script_pubkey := [] |}; {| value := 0; script_pubkey := [x6a] |}] |}.
Definition coinbase_31 : FullTx :=
  {| full_version := 2; full_lock_time := 0; full_input := full_input (tx_of x01);
     full_output := [{| value := 0; script_pubkey := [x6a] |}] |}.
Definition template_30 : TemplateData := new_template_data 4 (header_of x05) coinbase_30 None [] 1.
Definition template_31 : TemplateData := new_template_data 4 (header_of x05) coinbase_31 (Some 50) [] 1.

Lemma core_versions_agree_witness :
  of_template (get_new_template_message true) template_30 =
    of_template (get_new_template_message true) template_31 ∧
  done_b (of_template (get_new_template_message true) template_30) = true.
Proof.
  split; [|vm_compute; reflexivity].
  exact (core_versions_agree template_30 template_31 50 true eq_refl eq_refl eq_refl eq_refl eq_refl eq_refl
    eq_refl eq_refl eq_refl eq_refl).
Defined.
End TdpExamples.
