(* ===== verification/JdcExamples.v ===== *)
(** * JD client: a run

    A client in coinbase-only mode with one miner, on the small channel library
    of [PoolExamples], and the theorems about the channel manager at the states
    of this run. *)
From S2P Require Import Prelude Handler SharedMap Bitcoin Payout Setup ShareCache ServerChannels ShareForward JdClient JdcManager JdcTemplates JdcSystem JdcFrame JdcRefines JdcPending JdcTokens JdcJobs PoolExamples.

Module JdcExamples.
#[local] Existing Instance bytes_api.
#[local] Existing Instance PoolExamples.server.

(** The upstream channel remembers nonces; every job can be built. *)
#[local] Instance channels : ChannelsSv2 := {|
  server_channels := PoolExamples.server;
  UpChannel := list N;
  up_validate_share seen m :=
    if bool_decide (nonce m ∈ seen) then (UpErr (DuplicateShare "duplicate-share"), seen)
    else (UpValid, nonce m :: seen);
  up_extranonce_prefix _ := [x00];
  up_channel_id _ := 7;
  up_full_extranonce_size _ := 20;
  up_set_custom_mining_job_success seen _ _ := (None, seen);
  JobFactory := unit;
  new_custom_job _ channel_id request_id token _ _ _ _ :=
    (Some (ShareExamples.custom_job channel_id request_id token), tt);
  ERROR_CODE_SET_CUSTOM_MINING_JOB_STALE_CHAIN_TIP := "stale-chain-tip";
  ERROR_CODE_DECLARE_MINING_JOB_STALE_CHAIN_TIP := "stale-chain-tip";
|}.

#[local] Instance jdc_channels : JdcChannels := {|
  MAX_EXTRANONCE_LEN := 32;
  from_upstream_prefix _ _ _ _ := Ok ([] : list N);
  from_wire p := Ok (N.of_nat (length p));
  up_new _ _ _ _ _ _ := Some ([] : list N);
  up_rollable_extranonce_size _ := 16;
  up_set_extranonce_prefix up _ := (Ok tt, up);
  up_set_target up _ := (Ok tt, up);
  up_set_nominal_hashrate up _ := up;
  up_on_chain_tip_update up _ := up;
  up_on_share_acknowledgement up _ _ := up;
  up_on_share_rejection up _ := up;
  grp_new_for_job_declaration_client i _ :=
    Some {| PoolExamples.g_id := i; PoolExamples.g_members := ∅; PoolExamples.g_future := None;
            PoolExamples.g_active := None |};
  job_factory_new := tt;
  new_coinbase_tx_prefix_and_suffix _ _ _ _ := (Some ([x01], [x02]), tt);
  ERROR_CODE_REQUEST_TRANSACTION_DATA_TEMPLATE_ID_NOT_FOUND := "template-id-not-found";
  ERROR_CODE_REQUEST_TRANSACTION_DATA_STALE_TEMPLATE_ID := "stale-template-id";
|}.

Definition mode : JDMode := activate_mode (new_mode CoinbaseOnly).
Definition identity : option string := Some "miner"%string.
Definition fits (_ : SetCustomMiningJob) : bool := true.
Definition txout_size (_ : TxOut) : N := 34.
Definition sigops (_ : list TxOut) : N := 4.
Definition txouts (_ : list byte) : option (list TxOut) := Some [].
Definition no_flag (_ : N) : bool := false.
Definition orders : Orders :=
  {| downstream_order := [0]; channel_order := λ _, [2; 3]; job_order := [] |}.

Notation handle := (handle_event mode identity 8 fits [] [] txout_size sigops txouts).
Notation step := (jdc_step mode identity 8 fits [] [] txout_size sigops txouts no_flag no_flag).
Notation history := (jdc_history mode identity 8 fits [] [] txout_size sigops txouts no_flag no_flag).
Notation run := (jdc_run mode identity 8 fits [] [] txout_size sigops txouts no_flag no_flag).

(** ** Playing events *)
Definition outcome (ev : JdcEvent) (s : JdcSystem) : result unit JDCError * ChannelManager :=
  done_or (Ok tt, cm s) (handle orders ev (cm s)).
Definition after (ev : JdcEvent) (s : JdcSystem) : JdcSystem :=
  turn (outcome ev s).1 (outcome ev s).2 s.

(** Whether the step may be taken. *)
Definition can_handle (ev : JdcEvent) (s : JdcSystem) : bool :=
  negb (cancelled s) && negb (fell_back s) && done_b (handle orders ev (cm s)) &&
  match ev with
  | EvMiner d _ => match downstreams (cm s) !! d with Some ds => set_up ds | None => true end
  | EvPool (PoolSetCustomMiningJobSuccess _ _ _ _) => false
  | _ => true
  end.

Lemma after_step ev s : can_handle ev s = true → step s (Some ev) (after ev s).
Proof.
  unfold can_handle. rewrite !andb_true_iff, !negb_true_iff. intros [[[Hc Hf] Hd] Hev].
  apply (step_event _ _ _ _ _ _ _ _ _ _ _ s orders); [done| |].
  - destruct ev as [d m| |[]| |]; try done. intros ds E. by rewrite E in Hev.
  - unfold outcome. by destruct (handle orders ev (cm s)) as [[]|].
Qed.

Lemma history_after s h s1 ev :
  history s h s1 → can_handle ev s1 = true → history s (h ++ [(ev, client (cm s1))]) (after ev s1).
Proof.
  intros Hrun Hev. apply (history_event _ _ _ _ _ _ _ _ _ _ _ s h s1 ev); [done|].
  by apply after_step.
Qed.

Lemma run_after s evs s1 ev :
  run s evs s1 → can_handle ev s1 = true → run s (evs ++ [ev]) (after ev s1).
Proof.
  intros Hrun Hev. apply (jdc_run_step _ _ _ _ _ _ _ _ _ _ _ s evs s1 (Some ev)); [done|].
  by apply after_step.
Qed.

(** ** The run *)
Definition tip : SetNewPrevHash := PoolExamples.tip.
Definition grant : JdcEvent :=
  EvPool (PoolOpenExtendedSuccess
    {| gr_channel_id := 7; gr_target := 100; gr_extranonce_size := 16;
       gr_extranonce_prefix := [x00] |}).
Definition token_grant : JdcEvent :=
  EvJds (JdsTokenGrant {| tg_request_id := 1; tg_mining_job_token := [x07];
                          tg_coinbase_outputs := [] |}).
Definition open_ext : JdcEvent :=
  EvMiner 0 (ReqOpenExtended {| oec_request_id := 1; oec_user_identity := "a";
    oec_nominal_hash_rate := 1 : N; oec_max_target := 1000; oec_min_extranonce_size := 4 |}).
Definition open_std : JdcEvent :=
  EvMiner 0 (ReqOpenStandard {| osc_request_id := 2; osc_user_identity := "b";
    osc_nominal_hash_rate := 1 : N; osc_max_target := 1000 |}).
Definition share (job n : N) : JdcEvent :=
  EvMiner 0 (ReqSubmitExtended {| sse_channel_id := 2; sequence_number := 40; sse_job_id := job;
    nonce := n; ntime := 0; sse_version := 0; extranonce := [x09] |}).
Definition new_template (id : N) (future : bool) : JdcEvent :=
  EvTemplate (TpNewTemplate (PoolExamples.template id 100 future)).
Definition new_tip : JdcEvent := EvTemplate (TpSetNewPrevHash tip).

(** Template and tip arrive; a miner connects and is set up; it asks for two
    channels and the pool grants the upstream channel. *)
Definition j0 : JdcSystem := jdc_init [] ([] : list N) NoChannel.
Definition j1 : JdcSystem := after (new_template 7 true) j0.
Definition j2 : JdcSystem := after new_tip j1.
Definition accepted : result (option (N * option Downstream)) JDCError * ChannelManager :=
  done_or (Ok None, cm j2) (accept_downstream (cm j2)).
Definition j3 : JdcSystem :=
  {| cm := accepted.2; detached := option_list None ++ detached j2; cancelled := cancelled j2;
     fell_back := fell_back j2 |}.
Definition new_miner : Downstream :=
  default (new_downstream {| PoolExamples.g_id := 0; PoolExamples.g_members := ∅;
    PoolExamples.g_future := None; PoolExamples.g_active := None |}) (downstreams (cm j3) !! 0).
Definition j4 : JdcSystem :=
  with_cm (put_downstreams (<[0 := put_set_up false new_miner]> (downstreams (cm j3))) (cm j3)) j3.
Definition j5 : JdcSystem := after open_ext j4.
Definition j6 : JdcSystem := after open_std j5.
Definition j7 : JdcSystem := after grant j6.
Definition j8 : JdcSystem := after token_grant j7.
Definition j9 : JdcSystem := after (new_template 8 false) j8.

(** The id of a connection that replaces none. *)
Definition fresh_id (r : result (option (N * option Downstream)) JDCError) : option N :=
  match r with Ok (Some (d, None)) => Some d | _ => None end.
Lemma fresh_id_found r d : fresh_id r = Some d → r = Ok (Some (d, None)).
Proof. destruct r as [[[d' [ds|]]|]|e]; simpl; [done| |done..]. by intros [= ->]. Qed.

Lemma connect_3 : step j2 None j3.
Proof.
  apply step_env, (env_connect _ _ j2 0 None accepted.2).
  assert (fresh_id accepted.1 = Some 0) as Hid by vm_eq. apply fresh_id_found in Hid.
  rewrite <-Hid. assert (done_b (accept_downstream (cm j2)) = true) as Hd by vm_eq.
  rewrite (done_or_eq (Ok None, cm j2) _ Hd). fold accepted. by destruct accepted.
Qed.
Lemma miner_4 : step j3 None j4.
Proof.
  apply step_env, (env_set_up _ _ j3 0 new_miner
    {| protocol := MiningProtocol; min_version := 2; max_version := 2; flags := 0 |}
    [SetupConnectionSuccess SUPPORTED_PROTOCOL_VERSION 0]); [|vm_eq..].
  assert (bool_decide (is_Some (downstreams (cm j3) !! 0)) = true) as Hd%bool_decide_eq_true by vm_eq.
  unfold new_miner. by destruct Hd as [ds ->].
Qed.

(** The history up to the two requests, up to the declared job and to the
    end. *)
Definition h6 : list (JdcEvent * Client) :=
  [(new_template 7 true, client (cm j0)); (new_tip, client (cm j1)); (open_ext, client (cm j4));
   (open_std, client (cm j5))].
Definition h9 : list (JdcEvent * Client) :=
  ((h6 ++ [(grant, client (cm j6))]) ++ [(token_grant, client (cm j7))]) ++
  [(new_template 8 false, client (cm j8))].

Lemma history_6 : history j0 h6 j6.
Proof.
  apply (history_after j0 [(new_template 7 true, client (cm j0)); (new_tip, client (cm j1));
    (open_ext, client (cm j4))] j5 open_std); [|vm_eq].
  apply (history_after j0 [(new_template 7 true, client (cm j0)); (new_tip, client (cm j1))] j4
    open_ext); [|vm_eq].
  eapply history_env; [|exact miner_4]. eapply history_env; [|exact connect_3].
  apply (history_after j0 [(new_template 7 true, client (cm j0))] j1 new_tip); [|vm_eq].
  apply (history_after j0 [] j0); [constructor|vm_eq].
Qed.
Lemma history_9 : history j0 h9 j9.
Proof.
  apply (history_after j0 _ j8 (new_template 8 false)); [|vm_eq].
  apply (history_after j0 _ j7 token_grant); [|vm_eq].
  apply (history_after j0 _ j6 grant); [exact history_6|vm_eq].
Qed.
Definition asked : list JdcEvent := [new_template 7 true; new_tip; open_ext; open_std].
Lemma jdc_run_6 : run j0 asked j6.
Proof. exact (history_run _ _ _ _ _ _ _ _ _ _ _ _ _ _ history_6). Qed.
Lemma jdc_run_9 : run j0 (asked ++ [grant] ++ [token_grant] ++ [new_template 8 false]) j9.
Proof. exact (history_run _ _ _ _ _ _ _ _ _ _ _ _ _ _ history_9). Qed.



Lemma one_upstream_request_witness :
  requests_sent (cm j6) = 1%nat ∧ length (pending_downstream_requests (cm j6)) = 2%nat ∧
  ∃ st, upstream_get (upstream_state (cm j6)) = Done st ∧ (st = NoChannel ∨ st = Pending).
Proof.
  split; [vm_eq|]. split; [vm_eq|].
  destruct (one_upstream_request _ _ _ _ _ _ _ _ _ _ _ _ _ _ _ _
    (or_introl eq_refl) jdc_run_6) as (st & Hst & _ & Hwait).
  exists st. split; [exact Hst|]. apply Hwait; [split; vm_eq|].
  assert (length (pending_downstream_requests (cm j6)) = 2%nat) as E by vm_eq.
  intros E'. by rewrite E' in E.
Defined.

(** A handler that succeeds. *)
Definition ok_b {A E} (r : result A E) : bool := match r with Ok _ => true | Err _ => false end.
Definition result_of (h : handler unit) (s : ChannelManager) : result unit JDCError * ChannelManager :=
  done_or (Ok tt, s) (h s).
Lemma result_eq (h : handler unit) s :
  done_b (h s) = true → h s = Done ((result_of h s).1, (result_of h s).2).
Proof. unfold result_of. by destruct (h s) as [[]|]. Qed.
Lemma succeeds (h : handler unit) s :
  done_b (h s) = true → ok_b (result_of h s).1 = true → h s = Done (Ok tt, (result_of h s).2).
Proof. unfold result_of. by destruct (h s) as [[[[]|e] s']|]. Qed.

Notation grant_handler := (handle_open_extended_mining_channel_success mode identity 8 fits [0]
  (λ _, [2; 3]) {| gr_channel_id := 7; gr_target := 100; gr_extranonce_size := 16;
                   gr_extranonce_prefix := [x00] |}).
Definition g7 : ChannelManager := (result_of grant_handler (cm j6)).2.

Lemma heard_0 : heard (cm j6) 0.
Proof.
  split; [apply (bool_decide_eq_true_1 (0 ∈ downstream_sender (channel_manager_io (cm j6))))|
          apply (bool_decide_eq_true_1 (0 ∉ closed (channel_manager_io (cm j6))))]; vm_eq.
Qed.

Lemma grant_serves_waiting_witness :
  length (pending_downstream_requests (cm j6)) = 2%nat ∧
  pending_downstream_requests g7 = [] ∧
  Forall (answered (cm j6) g7) (pending_downstream_requests (cm j6)).
Proof.
  split; [vm_eq|].
  destruct (grant_serves_waiting _ _ _ _ _ _ _ (cm j6) g7
    (succeeds grant_handler (cm j6) ltac:(vm_eq) ltac:(vm_eq)) ltac:(vm_eq)) as [Hp Ha].
  split; [exact Hp|]. apply Forall_forall. intros p Hin. apply Forall_forall with (x := p) in Ha; [|done].
  apply Ha. assert (forallb (λ p, pending_downstream_id p =? 0)%N
    (pending_downstream_requests (cm j6)) = true) as Hall by vm_eq.
  rewrite forallb_forall in Hall. apply list_elem_of_In, Hall, N.eqb_eq in Hin. rewrite Hin.
  exact heard_0.
Defined.

(** The miner leaves before the grant. *)
Definition left : ChannelManager := (remove_downstream 0 (cm j6)).2.
Notation serve := (serve_pending fits [0] (λ _, [2; 3])).
Definition forgot : ChannelManager := (result_of serve left).2.

Lemma left_miner_drops_waiting_witness :
  length (pending_downstream_requests left) = 2%nat ∧
  pending_downstream_requests forgot = [] ∧
  sent (channel_manager_io forgot) = sent (channel_manager_io left).
Proof.
  split; [vm_eq|].
  assert (pending_downstream_requests left =
    [ExtendedChannelRequest 0 {| oec_request_id := 1; oec_user_identity := "a";
       oec_nominal_hash_rate := 1 : N; oec_max_target := 1000; oec_min_extranonce_size := 4 |};
     StandardChannelRequest 0 {| osc_request_id := 2; osc_user_identity := "b";
       osc_nominal_hash_rate := 1 : N; osc_max_target := 1000 |}]) as Hp by vm_eq.
  pose proof (result_eq serve left ltac:(vm_eq)) as E.
  assert (downstreams left !! 0 = None) as Hd by vm_eq.
  destruct (left_miner_drops_waiting fits _ _ [0] (λ _, [2; 3]) left _ _ Hp Hd E) as [_ H1].
  exact H1.
Defined.

(** No token is left when the channel opens. *)
Lemma run_starved :
  run j7 (([] ++ [new_template 8 false]) ++ [share 7 31]) (after (share 7 31) (after (new_template 8 false) j7)).
Proof.
  apply run_after; [|vm_eq]. apply run_after; [|vm_eq]. constructor.
Qed.
Lemma coinbase_only_starves_witness :
  hungry (cm (after (share 7 31) (after (new_template 8 false) j7))) = hungry (cm j7).
Proof.
  apply (coinbase_only_starves mode _ _ _ _ _ _ _ _ _ _ eq_refl _ _ _ run_starved); [|vm_eq].
  by repeat constructor.
Defined.

(** A token that comes before the chain tip. *)
Definition early : ChannelManager := cm (after token_grant j1).
Notation tip_handler :=
  (handle_set_new_prev_hash mode identity fits [] (λ _, [2; 3]) [] tip).
Lemma early_tip_wastes_token_witness :
  length (allocate_tokens (client early)) = 1%nat ∧
  allocate_tokens (client (result_of tip_handler early).2) = [].
Proof.
  split; [vm_eq|].
  destruct (early_tip_wastes_token mode identity fits eq_refl [] (λ _, [2; 3]) [] tip
    {| tg_request_id := 1; tg_mining_job_token := [x07]; tg_coinbase_outputs := [] |} []
    (PoolExamples.template 7 100 true) early (result_of tip_handler early).2) as [E _];
    [vm_eq..| |exact E].
  apply succeeds; vm_eq.
Defined.

(** Every channel of the state is in the orders. *)
Definition in_orders (s : ChannelManager) : bool :=
  bool_decide (map_Forall (λ d ds, d = 0 ∧
    dom (standard_channels ds) ∪ dom (extended_channels ds) ⊆ ({[2; 3]} : gset N)) (downstreams s)).
Lemma in_orders_ok s : in_orders s = true → ∀ d ds, downstreams s !! d = Some ds →
  d ∈ [0] ∧ ∀ c, is_Some (standard_channels ds !! c) ∨ is_Some (extended_channels ds !! c) →
                 c ∈ [2; 3].
Proof.
  intros Hs%bool_decide_eq_true d ds Hd. destruct (Hs d ds Hd) as [-> Hsub].
  split; [by left|]. intros c Hc. rewrite <-!elem_of_dom, <-elem_of_union in Hc.
  apply Hsub in Hc. clear -Hc. set_solver.
Qed.

Notation template_handler :=
  (handle_new_template mode identity fits [0] (λ _, [2; 3]) (PoolExamples.template 8 100 false)).
Definition told : ChannelManager := (result_of template_handler (cm j7)).2.
Definition miner_7 : Downstream := default new_miner (downstreams (cm j7) !! 0).
Definition channel_2 : option ExtChannel := extended_channels miner_7 !! 2.

Lemma template_reaches_every_channel_witness :
  is_Some channel_2 ∧ ∃ ds group, downstreams told !! 0 = Some ds ∧
    group_made (PoolExamples.template 8 100 false) (group_channel ds) = Some group ∧
    ∀ ch0, channel_2 = Some ch0 → ∃ ch, extended_channels ds !! 2 = Some ch ∧
      downstream_channel_id_and_job_id_to_template_id (client told) !! (0, 2, ext_job_id group)
        = Some 8 ∧
      ext_on_group_channel_job ch0 group = (Ok tt, ch).
Proof.
  split; [apply (bool_decide_eq_true_1 (is_Some channel_2)); vm_eq|].
  assert (in_orders (cm j7) = true) as Ho by vm_eq. pose proof (in_orders_ok _ Ho) as Hin.
  assert (template_handler (cm j7) = Done (Ok tt, told)) as E by (apply succeeds; vm_eq).
  assert (downstreams (cm j7) !! 0 = Some miner_7) as Hd by (apply default_of_b; vm_eq).
  assert (NoDup [0] ∧ NoDup [2; 3]) as [N1 N2] by (split; apply (bool_decide_eq_true_1 _); vm_eq).
  destruct (template_reaches_every_channel mode identity fits [0] (λ _, [2; 3])
    (PoolExamples.template 8 100 false) (cm j7) told N1 (λ _, N2)
    (λ d ds c Hds, proj2 (Hin d ds Hds) c) (λ d ds Hds, proj1 (Hin d ds Hds)) E)
    as (_ & outputs & _ & Hall).
  destruct (Hall 0 miner_7 Hd) as (ds & group & Hds & _ & _ & _ & Hg & _ & He).
  exists ds, group. split; [exact Hds|]. split; [exact Hg|]. exact (He 2).
Defined.
End JdcExamples.
