(* ===== verification/Connection.v ===== *)
(** * Upstream connections

    What the translator ([translator/src/lib/sv2/upstream/mod.rs] and
    [common_message_handler.rs]) and the JD client
    ([jd-client/src/lib/upstream/], [jd-client/src/lib/job_declarator/]) do to
    reach a server: dialling it, the [SetupConnection] exchange, the frames
    routed afterwards and the reaction to errors.

    What the network does is an argument: a [Dial] says how resolving,
    connecting and the Noise handshake of one attempt go, an [Exchange] how the
    set-up that follows goes, and a [FrameEvent] what one turn of a
    connection's loop finds.  Framing a set-up message and writing down the
    peer's address do not fail.  A [bool] named [.._shutdown] says whether a
    shutdown was requested by the time the code looks at the token. *)
From S2P Require Import Prelude Handler JobDeclarator Setup JdClient.

(** ** Total correctness

    [wp] of [Handler] says nothing of a panic; [twp] excludes it. *)
Definition twp {S E A} (m : prog S E A) (Q : result A E → S → Prop) (s : S) : Prop :=
  match m s with Done (r, s') => Q r s' | Panic => False end.

Section twp.
Context {S E : Type}.

Lemma twp_mono {A} (m : prog S E A) (Q Q' : result A E → S → Prop) s :
  (∀ r s', Q r s' → Q' r s') → twp m Q s → twp m Q' s.
Proof. unfold twp. destruct (m s) as [[r s']|]; auto. Qed.
Lemma twp_bind {A B} (m : prog S E A) (k : A → prog S E B) Q s :
  twp m (λ r s', match r with Ok a => twp (k a) Q s' | Err e => Q (Err e) s' end) s →
  twp (m ≫= k) Q s.
Proof. unfold twp at 1 3, mbind, prog_bind. by destruct (m s) as [[[a|e] s']|]. Qed.
Lemma twp_ret {A} (a : A) (Q : result A E → S → Prop) s : Q (Ok a) s → twp (mret a) Q s.
Proof. done. Qed.
Lemma twp_raise {A} e (Q : result A E → S → Prop) s : Q (Err e) s → twp (raise e) Q s.
Proof. done. Qed.
Lemma twp_ask {A} (f : S → A) (Q : result A E → S → Prop) s : Q (Ok (f s)) s → twp (ask f) Q s.
Proof. done. Qed.
Lemma twp_update (f : S → S) (Q : result unit E → S → Prop) s :
  Q (Ok tt) (f s) → twp (update f) Q s.
Proof. done. Qed.
Lemma twp_ensure ok e (Q : result unit E → S → Prop) s :
  (ok = true → Q (Ok tt) s) → (ok = false → Q (Err e) s) → twp (ensure ok e) Q s.
Proof. destruct ok; [intros H _; by apply H|intros _ H; by apply H]. Qed.
Lemma twp_some_or {A} (o : option A) e (Q : result A E → S → Prop) s :
  (∀ a, o = Some a → Q (Ok a) s) → (o = None → Q (Err e) s) → twp (some_or o e) Q s.
Proof. destruct o; [intros H _; by apply H|intros _ H; by apply H]. Qed.
Lemma twp_some_or_crash {A} (o : option A) a (Q : result A E → S → Prop) s :
  o = Some a → Q (Ok a) s → twp (some_or_crash o) Q s.
Proof. by intros ->. Qed.
Lemma twp_ok_or_raise {A F} (r : result A F) f (Q : result A E → S → Prop) s :
  (∀ a, r = Ok a → Q (Ok a) s) → (∀ e, r = Err e → Q (Err (f e)) s) → twp (ok_or_raise r f) Q s.
Proof. destruct r; [intros H _; by apply H|intros _ H; by apply H]. Qed.
Lemma twp_attempt {A} (p : prog S E A) (Q : result (result A E) E → S → Prop) s :
  twp p (λ r, Q (Ok r)) s → twp (attempt p) Q s.
Proof. unfold twp, attempt. by destruct (p s) as [[r s']|]. Qed.
Lemma twp_map_err {A} (f : E → E) (p : prog S E A) (Q : result A E → S → Prop) s :
  twp p (λ r s', Q match r with Ok a => Ok a | Err e => Err (f e) end s') s → twp (map_err f p) Q s.
Proof. unfold twp, map_err. by destruct (p s) as [[[a|e] s']|]. Qed.
Lemma twp_done {A} (m : prog S E A) (Q : result A E → S → Prop) s :
  twp m Q s → ∃ r s', m s = Done (r, s') ∧ Q r s'.
Proof. unfold twp. destruct (m s) as [[r s']|]; [eauto|done]. Qed.
Lemma twp_wp {A} (m : prog S E A) (Q : result A E → S → Prop) s : twp m Q s → wp m Q s.
Proof. unfold twp, wp. by destruct (m s) as [[r s']|]. Qed.
Lemma twp_both {A} (m : prog S E A) (Q Q' : result A E → S → Prop) s :
  twp m Q s → wp m Q' s → twp m (λ r s', Q r s' ∧ Q' r s') s.
Proof. unfold twp, wp. by destruct (m s) as [[r s']|]. Qed.
End twp.

(** One step of a proof about a program that does not panic. *)
Ltac twp_step :=
  lazymatch goal with
  | |- twp (_ ≫= _) _ _ => apply twp_bind
  | |- twp (mret _) _ _ => apply twp_ret
  | |- twp (raise _) _ _ => apply twp_raise
  | |- twp (ask _) _ _ => apply twp_ask
  | |- twp (update _) _ _ => apply twp_update
  | |- twp (ensure _ _) _ _ => apply twp_ensure; intros
  | |- twp (some_or _ _) _ _ => apply twp_some_or; intros
  | |- twp (ok_or_raise _ _) _ _ => apply twp_ok_or_raise; intros
  | |- twp (if ?b then _ else _) _ _ => destruct b eqn:?
  | |- twp (match ?x with _ => _ end) _ _ => destruct x eqn:?
  end.

(** The outcome of a program whose errors have another type. *)
Definition outcome {S E F A} (p : prog S E A) : prog S F (result A E) := λ s,
  match p s with Done (r, s') => Done (Ok r, s') | Panic => Panic end.

Lemma twp_outcome {S E F A} (p : prog S E A) (Q : result (result A E) F → S → Prop) s :
  twp p (λ r, Q (Ok r)) s → twp (outcome p) Q s.
Proof. unfold twp, outcome. by destruct (p s) as [[r s']|]. Qed.

(** ** Ordered logs

    The searches of both runtimes log their attempts: [key] says which attempt
    a line stands for, (upstream, number), if any; [fine] what holds of a
    line. *)
Definition key_lt (x y : nat * nat) : Prop :=
  (x.1 < y.1 ∨ x.1 = y.1 ∧ x.2 < y.2)%nat.

Lemma key_lt_trans x y z : key_lt x y → key_lt y z → key_lt x z.
Proof. unfold key_lt. lia. Qed.

Lemma sorted_snoc {A} (R : A → A → Prop) l x :
  StronglySorted R l → Forall (λ y, R y x) l → StronglySorted R (l ++ [x]).
Proof.
  induction 1 as [|y l Hl IH Hy]; intros HF; simpl; [by repeat constructor|].
  inversion_clear HF. constructor; [by apply IH|]. apply Forall_app. by repeat constructor.
Qed.

Section ordered_log.
Context {L : Type} (key : L → option (nat * nat)) (fine : L → Prop).

Definition keys (ls : list L) : list (nat * nat) := omap key ls.

(** The log is in order and before attempt [k] at upstream [i]. *)
Record history (i k : nat) (ls : list L) : Prop := {
  h_sorted : StronglySorted key_lt (keys ls);
  h_before : Forall (λ x, key_lt x (i, k)) (keys ls);
  h_fine : Forall fine ls;
}.

Lemma keys_app ls ls' : keys (ls ++ ls') = keys ls ++ keys ls'.
Proof. apply omap_app. Qed.

Lemma keys_unkeyed ls : Forall (λ l, key l = None) ls → keys ls = [].
Proof. induction 1 as [|l ls Hl _ IH]; [done|]. unfold keys in *. simpl. by rewrite Hl. Qed.

Lemma history_nil i k : history i k [].
Proof. by split; constructor. Qed.

Lemma history_weaken i k j m ls :
  history i k ls → (key_lt (i, k) (j, m) ∨ (i, k) = (j, m)) → history j m ls.
Proof.
  intros [Hs Hb Hv] [Hlt|[= -> ->]]; [|done]. split; [done| |done].
  eapply Forall_impl; [exact Hb|]. intros x Hx. by apply (key_lt_trans _ (i, k)).
Qed.

Lemma history_snoc i k ls l j m :
  history i k ls → key l = Some (j, m) → key_lt (i, k) (j, S m) → fine l →
  history j (S m) (ls ++ [l]).
Proof.
  intros [Hs Hb Hv] Hk Hlt Hl.
  assert (keys (ls ++ [l]) = keys ls ++ [(j, m)]) as Hkeys.
  { rewrite keys_app. unfold keys at 2. simpl. by rewrite Hk. }
  assert (Forall (λ x, key_lt x (j, m)) (keys ls)) as Hbefore.
  { eapply Forall_impl; [exact Hb|]. intros x Hx. unfold key_lt in *. simpl in *. lia. }
  split.
  - rewrite Hkeys. by apply sorted_snoc.
  - rewrite Hkeys. apply Forall_app. split.
    + eapply Forall_impl; [exact Hbefore|]. unfold key_lt. simpl. lia.
    + constructor; [unfold key_lt; simpl; lia|done].
  - apply Forall_app. by repeat constructor.
Qed.

Lemma history_unkeyed i k ls ls' :
  history i k ls → Forall (λ l, key l = None) ls' → Forall fine ls' → history i k (ls ++ ls').
Proof.
  intros [Hs Hb Hv] Hn Hf.
  assert (keys (ls ++ ls') = keys ls) as Hk by (by rewrite keys_app, (keys_unkeyed ls'), app_nil_r).
  split; [by rewrite Hk..|]. by apply Forall_app.
Qed.
End ordered_log.

(** ** Errors *)
Inductive Action : Type := Log | Disconnect (downstream_id : N) | Fallback | Shutdown.

#[export] Instance Action_eq_dec : EqDecision Action.
Proof. solve_decision. Defined.

Definition is_shutdown (a : Action) : bool := match a with Shutdown => true | _ => false end.

(** The kinds of [TproxyErrorKind] and [JDCErrorKind] that end an attempt, a
    connection or a start. *)
Inductive ErrorKind : Type :=
| CouldNotInitiateSystem | NetworkHelpersError | Timeout | Io | InvalidKey
| FramingSv2 | BinarySv2 | ParserError | UnexpectedMessage (ext_type msg_type : N)
| ChannelErrorSender | ChannelErrorReceiver | SetupConnectionError
| InvalidUserIdentity (identity : string) | General
| InvalidCoinbaseOutput | InvalidBitcoinDataDir | ChannelSv2 | MonitoringServerError
| NoUpstreamConfig (mode : ConfigJDCMode).

Record Error : Type := { kind : ErrorKind; action : Action }.
Definition log k : Error := {| kind := k; action := Log |}.
Definition fallback k : Error := {| kind := k; action := Fallback |}.
Definition shutdown k : Error := {| kind := k; action := Shutdown |}.

Inductive LoopControl : Type := Continue | Break.

(** The two tokens a connection's task looks at. *)
Record Tokens : Type := { cancellation : bool; fallback_token : bool }.

(** [handle_error_action] of [Upstream] (both applications) and of
    [JobDeclarator]. *)
Definition handle_error_action (e : Error) (t : Tokens) : LoopControl * Tokens :=
  if cancellation t then (Continue, t)
  else if fallback_token t then (Continue, t)
  else match action e with
  | Log => (Continue, t)
  | Fallback => (Break, {| cancellation := cancellation t; fallback_token := true |})
  | Shutdown => (Break, {| cancellation := true; fallback_token := fallback_token t |})
  | Disconnect _ => (Continue, t)
  end.

(** How the tasks of a session end it: they cancel the tokens, or one of them
    panics while it holds its [FallbackHandler], whose [drop] then panics again
    ([Fallback.drop_handler]), which aborts the process. *)
Inductive SessionEnd : Type :=
| Cancels (shutdown_requested fallback_requested : bool)
| Aborts.

#[export] Instance SessionEnd_eq_dec : EqDecision SessionEnd.
Proof. solve_decision. Defined.

(** ** Dialling *)
Inductive Tcp : Type := TcpTimeout | TcpRefused | TcpWithoutPeer | TcpConnected.
Inductive Noise : Type := NoiseInvalidKey | NoiseFailed | NoiseReady.

Record Dial : Type := {
  entry_shutdown : bool;
  resolved : bool;
  tcp : Tcp;
  noise_shutdown : bool;
  noise : Noise;
}.

(** A look at the cancellation token, which nobody takes back: [now] says
    whether a shutdown was requested since the last look. *)
Definition look {E} (now : bool) : prog bool E bool := λ c, Done (Ok (c || now), c || now).

(** From name resolution to the Noise handshake: the body of the client's
    [Upstream::new] and [JobDeclarator::new], and the translator's after its
    first look at the token. *)
Definition connect (invalid_key : ErrorKind) (d : Dial) : prog bool Error unit :=
  ensure (resolved d) (fallback NetworkHelpersError);;
  match tcp d with
  | TcpTimeout => raise (fallback Timeout)
  | TcpRefused | TcpWithoutPeer => raise (fallback Io)
  | TcpConnected =>
      cancelled ← look (noise_shutdown d);
      if cancelled : bool then raise (shutdown CouldNotInitiateSystem)
      else match noise d with
      | NoiseInvalidKey => raise (fallback invalid_key)
      | NoiseFailed => raise (fallback NetworkHelpersError)
      | NoiseReady => mret tt
      end
  end.

(** The translator's [Upstream::new]. *)
Definition proxy_upstream_new (d : Dial) : prog bool Error unit :=
  cancelled ← look (entry_shutdown d);
  if cancelled : bool then raise (shutdown CouldNotInitiateSystem) else connect InvalidKey d.

(** The client's [Upstream::new] and [JobDeclarator::new]. *)
Definition client_upstream_new (d : Dial) : prog bool Error unit := connect NetworkHelpersError d.
Definition job_declarator_new (d : Dial) : prog bool Error unit := connect NetworkHelpersError d.

(** ** Frames from a server *)
Inductive CommonMessage : Type :=
| SetupConnectionSuccess | SetupConnectionErrorMessage | ChannelEndpointChanged | Reconnect.

(** [handlers_sv2]: which common message a frame is.  A payload that does not
    parse and a message a server does not send are the errors
    [HandlerErrorType] names, which both applications only log. *)
Inductive DispatchError : Type := NotParsed | NotExpected.
Class CommonMessages : Type := {
  Payload : Type;
  dispatch_common : N → N → Payload → result CommonMessage DispatchError;
}.

Section connection.
Context `{MT : MessageTypes} `{CM : CommonMessages}.

Definition common_message_type (m : CommonMessage) : N :=
  match m with
  | SetupConnectionSuccess => MESSAGE_TYPE_SETUP_CONNECTION_SUCCESS
  | SetupConnectionErrorMessage => MESSAGE_TYPE_SETUP_CONNECTION_ERROR
  | ChannelEndpointChanged => MESSAGE_TYPE_CHANNEL_ENDPOINT_CHANGED
  | Reconnect => MESSAGE_TYPE_RECONNECT
  end.

(** A message has the type of its frame. *)
Class CommonMessagesLaws : Prop := {
  dispatch_typed : ∀ ext ty p m, dispatch_common ext ty p = Ok m → ty = common_message_type m;
  common_types_distinct : NoDup (common_message_type <$>
    [SetupConnectionSuccess; SetupConnectionErrorMessage; ChannelEndpointChanged; Reconnect]);
}.

Record Frame : Type := { ext_type : N; msg_type : N; payload : Payload }.

Definition unexpected (f : Frame) : ErrorKind := UnexpectedMessage (ext_type f) (msg_type f).

(** [HandlerErrorType] of [TproxyError] and [JDCError]. *)
Definition dispatch_error (f : Frame) (e : DispatchError) : Error :=
  match e with NotParsed => log ParserError | NotExpected => log (unexpected f) end.

(** [handle_common_message_frame_from_server], with the handler of a message. *)
Definition handle_common_frame {S} (handler : CommonMessage → prog S Error unit) (f : Frame)
    : prog S Error unit :=
  m ← ok_or_raise (dispatch_common (ext_type f) (msg_type f) (payload f)) (dispatch_error f);
  handler m.

(** The translator's handlers: two are [todo!()]. *)
Definition proxy_common {S} (m : CommonMessage) : prog S Error unit :=
  match m with
  | SetupConnectionSuccess => mret tt
  | SetupConnectionErrorMessage => raise (fallback SetupConnectionError)
  | ChannelEndpointChanged => crash
  | Reconnect => crash
  end.

(** The handlers of the client's pool connection. *)
Definition client_common {S} (m : CommonMessage) : prog S Error unit :=
  match m with
  | SetupConnectionErrorMessage => raise (fallback SetupConnectionError)
  | SetupConnectionSuccess | ChannelEndpointChanged | Reconnect => mret tt
  end.

(** The handlers of its JD server connection, which hold the client's mode. *)
Definition declarator_common (m : CommonMessage) : prog JDMode Error unit :=
  match m with
  | SetupConnectionSuccess => update activate_mode
  | SetupConnectionErrorMessage => raise (fallback SetupConnectionError)
  | ChannelEndpointChanged | Reconnect => mret tt
  end.

(** ** Set-up *)

(** Whether the outgoing queue takes the first and the second message, and the
    frame that answers, if the connection lives. *)
Record Exchange : Type := {
  takes_setup : bool;
  answer : option Frame;
  takes_extensions : bool;
}.

Inductive SetupSent : Type :=
| SentSetupConnection (m : SetupConnection)
| SentRequestExtensions (request_id : N) (requested_extensions : list N).

Definition is_setup_answer (f : Frame) : bool :=
  (ext_type f =? 0)%N &&
  ((msg_type f =? MESSAGE_TYPE_SETUP_CONNECTION_SUCCESS)%N ||
   (msg_type f =? MESSAGE_TYPE_SETUP_CONNECTION_ERROR)%N).

(** [get_setup_connection_message] of the translator. *)
Definition get_proxy_setup_connection_message (min_version max_version : N)
    (is_work_selection_enabled : bool) : SetupConnection :=
  {| protocol := MiningProtocol; min_version := min_version; max_version := max_version;
     flags := if is_work_selection_enabled then 6 else 4 |}.

Section setup.
Context {S : Type} (record : SetupSent → S → S).

(** Offer a message, wait for the answer, hand it to the handler. *)
Definition exchange_setup (message : SetupConnection) (closed : ErrorKind)
    (handler : CommonMessage → prog S Error unit) (x : Exchange) : prog S Error unit :=
  ensure (takes_setup x) (fallback ChannelErrorSender);;
  update (record (SentSetupConnection message));;
  incoming ← some_or (answer x) (fallback closed);
  ensure (is_setup_answer incoming) (fallback (unexpected incoming));;
  handle_common_frame handler incoming.

(** [send_request_extensions]; the translator has it inlined. *)
Definition send_request_extensions (request_id : N) (required_extensions : list N) (x : Exchange)
    : prog S Error unit :=
  if decide (required_extensions = []) then mret tt
  else
    ensure (fits_64k required_extensions) (shutdown BinarySv2);;
    ensure (takes_extensions x) (fallback ChannelErrorSender);;
    update (record (SentRequestExtensions request_id required_extensions)).

(** [setup_connection] of the translator. *)
Definition proxy_setup_connection (required_extensions : list N) (x : Exchange)
    : prog S Error unit :=
  exchange_setup (get_proxy_setup_connection_message 2 2 false) ChannelErrorReceiver
    proxy_common x;;
  send_request_extensions 1 required_extensions x.

(** [setup_connection] of the client's pool connection. *)
Definition client_setup_connection (min_version max_version : N) (required_extensions : list N)
    (x : Exchange) : prog S Error unit :=
  exchange_setup (get_setup_connection_message min_version max_version) ChannelErrorReceiver
    client_common x;;
  send_request_extensions 0 required_extensions x.
End setup.

(** [setup_connection] with the JD server. *)
Definition declarator_setup_connection (allow_full_template_mode : N → N) (x : Exchange)
    : prog JDMode Error unit := λ mode,
  exchange_setup (λ _, id) (get_setup_connection_message_jds allow_full_template_mode mode)
    ChannelErrorSender declarator_common x mode.

(** ** The loop of a connection *)

(** What one turn of the loop finds: a token cancelled by somebody else, a
    frame or the end of the connection, or a message of the channel manager
    ([None]: it is gone), with whether the outgoing queue takes it. *)
Inductive FrameEvent : Type :=
| TokensSeen (cancelled fell_back : bool)
| FromServer (f : option Frame)
| FromManager (message : option Frame) (takes : bool).

(** The connection's task: the tokens, whether the channel manager still
    listens, and what went either way. *)
Record Task : Type := {
  tokens : Tokens;
  manager_listens : bool;
  to_manager : list Frame;
  to_server : list Frame;
}.

Definition put_tokens (v : Tokens) (t : Task) : Task :=
  {| tokens := v; manager_listens := manager_listens t; to_manager := to_manager t;
     to_server := to_server t |}.
Definition forward_in (f : Frame) (t : Task) : Task :=
  {| tokens := tokens t; manager_listens := manager_listens t;
     to_manager := to_manager t ++ [f]; to_server := to_server t |}.
Definition forward_out (f : Frame) (t : Task) : Task :=
  {| tokens := tokens t; manager_listens := manager_listens t; to_manager := to_manager t;
     to_server := to_server t ++ [f] |}.

(** [channel_manager_sender.send]. *)
Definition send_to_manager (f : Frame) : prog Task Error unit :=
  listens ← ask manager_listens;
  ensure listens (shutdown ChannelErrorSender);;
  update (forward_in f).

(** The translator's [handle_upstream_message]. *)
Definition proxy_handle_upstream_message (o : option Frame) : prog Task Error unit :=
  f ← some_or o (fallback ChannelErrorReceiver);
  match protocol_message_type (ext_type f) (msg_type f) with
  | Common => handle_common_frame proxy_common f
  | Mining | Extensions => send_to_manager f
  | _ => raise (fallback (unexpected f))
  end.

(** The translator's [handle_channel_manager_message]. *)
Definition proxy_handle_manager_message (o : option Frame) (takes : bool) : prog Task Error unit :=
  f ← some_or o (shutdown ChannelErrorReceiver);
  ensure takes (fallback ChannelErrorSender);;
  update (forward_out f).

(** The client's [handle_pool_message_frame] and
    [handle_channel_manager_message_frame]. *)
Definition client_handle_pool_message (o : option Frame) : prog Task Error unit :=
  f ← some_or o (fallback ChannelErrorReceiver);
  match protocol_message_type (ext_type f) (msg_type f) with
  | Common => handle_common_frame client_common f
  | Mining | Extensions => send_to_manager f
  | _ => mret tt
  end.

Definition client_handle_manager_message (o : option Frame) (takes : bool)
    : prog Task Error unit :=
  match o with
  | Some f => ensure takes (fallback ChannelErrorSender);; update (forward_out f)
  | None => mret tt
  end.

Section task.
Context {S : Type} (get : S → Tokens) (put : Tokens → S → S)
  (from_server : option Frame → prog S Error unit)
  (from_manager : option Frame → bool → prog S Error unit).

(** One turn of the [select!] of [run_upstream_task] and [Upstream::start]. *)
Definition turn (e : FrameEvent) (t : S) : rust (LoopControl * S) :=
  let react p :=
    '(r, t') ← p t;
    match r with
    | Ok tt => Done (Continue, t')
    | Err e => let '(c, v) := handle_error_action e (get t') in Done (c, put v t')
    end in
  if cancellation (get t) then Done (Break, t)
  else if fallback_token (get t) then Done (Break, t)
  else match e with
  | TokensSeen c f => Done (Continue, put {| cancellation := c; fallback_token := f |} t)
  | FromServer o => react (from_server o)
  | FromManager o takes => react (from_manager o takes)
  end.

(** The loop; what follows [Break] is the task's clean-up. *)
Fixpoint run_task (es : list FrameEvent) (t : S) : rust (LoopControl * S) :=
  match es with
  | [] => Done (Continue, t)
  | e :: rest =>
      '(c, t') ← turn e t;
      match c with Break => Done (Break, t') | Continue => run_task rest t' end
  end.
End task.

(** [run_upstream_task] of the translator, and the loop the client's
    [Upstream::start] spawns. *)
Definition proxy_run_upstream_task : list FrameEvent → Task → rust (LoopControl * Task) :=
  run_task tokens put_tokens proxy_handle_upstream_message proxy_handle_manager_message.
Definition client_run_upstream_task : list FrameEvent → Task → rust (LoopControl * Task) :=
  run_task tokens put_tokens client_handle_pool_message client_handle_manager_message.

(** The JD server's connection also holds the mode of the client; whether the
    payload of a job declaration message parses is up to [parsers_sv2]. *)
Record DeclaratorTask : Type := { task : Task; task_mode : JDMode }.

Definition in_task (p : prog Task Error unit) : prog DeclaratorTask Error unit := λ t,
  '(r, t') ← p (task t); Done (r, {| task := t'; task_mode := task_mode t |}).
Definition in_mode (p : prog JDMode Error unit) : prog DeclaratorTask Error unit := λ t,
  '(r, m) ← p (task_mode t); Done (r, {| task := task t; task_mode := m |}).

Section declarator.
Context (parses_declaration : Frame → bool).

(** [handle_job_declarator_message]. *)
Definition declarator_handle_message (o : option Frame) : prog DeclaratorTask Error unit :=
  f ← some_or o (fallback ChannelErrorReceiver);
  match protocol_message_type (ext_type f) (msg_type f) with
  | Common => in_mode (handle_common_frame declarator_common f)
  | JobDeclaration =>
      ensure (parses_declaration f) (fallback ParserError);;
      in_task (send_to_manager f)
  | _ => mret tt
  end.

(** [handle_channel_manager_message]. *)
Definition declarator_handle_manager_message (o : option Frame) (takes : bool)
    : prog DeclaratorTask Error unit :=
  in_task (client_handle_manager_message o takes).

(** The loop [JobDeclarator::start] spawns. *)
Definition declarator_run_task
    : list FrameEvent → DeclaratorTask → rust (LoopControl * DeclaratorTask) :=
  run_task (λ t, tokens (task t)) (λ v t, {| task := put_tokens v (task t); task_mode := task_mode t |})
    declarator_handle_message declarator_handle_manager_message.
End declarator.

(** ** Properties *)

Lemma activate_idempotent m : activate_mode (activate_mode m) = activate_mode m.
Proof. unfold activate_mode, set_solo_mining, set_mode. destruct m as [n []]; done. Qed.

(** A running connection leaves an active mode alone. *)
Lemma declarator_keeps_mode parses es t c t' :
  activate_mode (task_mode t) = task_mode t →
  declarator_run_task parses es t = Done (c, t') → task_mode t' = task_mode t.
Proof.
  unfold declarator_run_task. revert t. induction es as [|e es IH]; intros t Ht Hrun; simpl in Hrun.
  { by simplify_eq. }
  destruct (turn _ _ _ _ e t) as [[c1 t1]|] eqn:Hturn; [|done]. simpl in Hrun.
  assert (task_mode t1 = task_mode t) as Hm.
  { unfold turn, declarator_handle_message, declarator_handle_manager_message, in_task, in_mode,
      handle_common_frame, send_to_manager, client_handle_manager_message, declarator_common,
      mbind, prog_bind, some_or, ensure, ok_or_raise, mret, prog_ret, raise, ask, update in Hturn.
    repeat (case_match; simpl in *; simplify_eq; try done). }
  destruct c1; simplify_eq; [|done]. rewrite <-Hm in Ht |- *. by apply IH.
Qed.

(** An answer to the set-up is one of the two answers. *)
Lemma setup_answer_kind `{!CommonMessagesLaws} f m :
  is_setup_answer f = true → dispatch_common (ext_type f) (msg_type f) (payload f) = Ok m →
  m = SetupConnectionSuccess ∨ m = SetupConnectionErrorMessage.
Proof.
  intros Hf Hm. pose proof (dispatch_typed _ _ _ _ Hm) as Ht.
  pose proof common_types_distinct as Hd. simpl in Hd.
  apply andb_true_iff in Hf as [_ Hf]. rewrite orb_true_iff, !N.eqb_eq in Hf. rewrite Ht in Hf.
  rewrite !NoDup_cons in Hd. destruct m; simpl in *; set_solver.
Qed.

(** Frames the translator hands on, those it accepts, and those it panics on. *)
Definition handed_on (f : Frame) : bool :=
  match protocol_message_type (ext_type f) (msg_type f) with
  | Mining | Extensions => true | _ => false
  end.
Definition common_of (f : Frame) : option (result CommonMessage DispatchError) :=
  match protocol_message_type (ext_type f) (msg_type f) with
  | Common => Some (dispatch_common (ext_type f) (msg_type f) (payload f)) | _ => None
  end.
Definition accepted (f : Frame) : bool :=
  handed_on f ||
  match common_of f with Some (Ok SetupConnectionSuccess | Err _) => true | _ => false end.
Definition unimplemented (f : Frame) : bool :=
  match common_of f with Some (Ok (ChannelEndpointChanged | Reconnect)) => true | _ => false end.

Definition running (t : Task) : Prop :=
  tokens t = {| cancellation := false; fallback_token := false |} ∧ manager_listens t = true.

(** The task after handing on [fs]. *)
Definition delivered (fs : list Frame) (t : Task) : Task :=
  {| tokens := tokens t; manager_listens := manager_listens t;
     to_manager := to_manager t ++ filter (λ f, handed_on f = true) fs;
     to_server := to_server t |}.

Lemma proxy_handle_frame f t :
  running t →
  proxy_handle_upstream_message (Some f) t =
    if accepted f then
      Done (match common_of f with Some (Err e) => Err (dispatch_error f e) | _ => Ok tt end,
            delivered [f] t)
    else if unimplemented f then Panic
    else match common_of f with
         | Some _ => Done (Err (fallback SetupConnectionError), t)
         | None => Done (Err (fallback (unexpected f)), t)
         end.
Proof.
  intros [Ht Hm]. destruct t as [tk ml tm ts]. simpl in *. subst.
  unfold accepted, unimplemented, handed_on, common_of, delivered. rewrite filter_cons, filter_nil.
  unfold handed_on, proxy_handle_upstream_message, handle_common_frame, send_to_manager,
    some_or, mbind, prog_bind, mret, prog_ret. simpl.
  destruct (protocol_message_type _ _) eqn:Hty; simpl; rewrite ?app_nil_r; try done.
  by destruct (dispatch_common _ _ _) as [[]|[]].
Qed.

Lemma proxy_turn_frame f t :
  running t →
  turn tokens put_tokens proxy_handle_upstream_message proxy_handle_manager_message (FromServer (Some f)) t =
    if accepted f then Done (Continue, delivered [f] t)
    else if unimplemented f then Panic
    else Done (Break, put_tokens {| cancellation := false; fallback_token := true |} t).
Proof.
  intros Hr. pose proof Hr as [Ht _]. unfold turn. rewrite Ht. simpl.
  rewrite proxy_handle_frame by done.
  destruct (accepted f), (unimplemented f), (common_of f) as [[?|[]]|]; simpl; try done;
    rewrite Ht; simpl; try done; by destruct t; simpl in *; subst.
Qed.

Lemma delivered_running fs t : running t → running (delivered fs t).
Proof. done. Qed.

Lemma proxy_run_accepted fs es t :
  running t → Forall (λ f, accepted f = true) fs →
  proxy_run_upstream_task ((λ f, FromServer (Some f)) <$> fs ++ es) t =
  proxy_run_upstream_task ((λ f, FromServer (Some f)) <$> es) (delivered fs t).
Proof.
  intros Ht Hfs. revert t Ht. induction Hfs as [|f fs Hf Hfs IH]; intros t Ht.
  { unfold delivered. rewrite filter_nil, app_nil_r. by destruct t. }
  unfold proxy_run_upstream_task in *. simpl. rewrite proxy_turn_frame, Hf by done. simpl.
  rewrite IH by done. f_equal. unfold delivered. simpl.
  rewrite <-app_assoc, <-filter_app. done.
Qed.

(** C24: As long as no token is cancelled and the channel manager listens, the
    translator hands it every mining and extension frame of its upstream, in
    order, up to the first frame it does not accept: at that frame it falls
    back, or panics, which it does exactly for the two messages it has no
    handler for, [Reconnect] and [ChannelEndpointChanged]. *)
Theorem frames_delivered fs t :
  running t → Forall (λ f, accepted f = true) fs →
  proxy_run_upstream_task ((λ f, FromServer (Some f)) <$> fs) t = Done (Continue, delivered fs t) ∧
  ∀ f rest, accepted f = false →
    proxy_run_upstream_task ((λ f, FromServer (Some f)) <$> fs ++ f :: rest) t =
    if unimplemented f then Panic
    else Done (Break, put_tokens {| cancellation := false; fallback_token := true |} (delivered fs t)).
Proof.
  intros Ht Hfs. split.
  - rewrite <-(app_nil_r fs) at 1. by rewrite proxy_run_accepted.
  - intros f rest Hf. rewrite proxy_run_accepted by done.
    unfold proxy_run_upstream_task. simpl. rewrite proxy_turn_frame, Hf by done.
    by destruct (unimplemented f).
Qed.
End connection.
