(* ===== verification/TproxyRuntime.v ===== *)
(** * The translator's runtime
    ([miner-apps/translator/src/lib/translator_runtime.rs], [lib/mod.rs])

    From start-up to exit: which upstream the translator serves, what its
    services are told of it, and what happens when a connection is lost.  The
    network and the tasks of a session are arguments (see [Connection]); a
    [Session] holds what happens between two fallbacks. *)
From S2P Require Import Prelude Handler Bitcoin Payout Fallback Setup JdClient ClientChannels TproxyManager Connection.

Definition MAX_RETRIES : nat := 3.

Section runtime.
Context `{B : BitcoinApi} `{AA : AddressApi} `{CC : ClientChannels} `{MT : MessageTypes} `{CM : CommonMessages}.

(** ** What a session meets *)

(** One attempt at an upstream: dialling it, whether a shutdown is requested
    before its set-up is over, the set-up. *)
Record Attempt : Type := { dial : Dial; setup_shutdown : bool; exchange : Exchange }.

(** The attempts by upstream and number; whether the SV1 server binds its
    address and the monitoring server (if configured) starts; how the session's
    tasks end it ([None]: it goes on for ever), such as the panic of a frame
    handler that is [todo!()]. *)
Record Session : Type := {
  attempts : nat → nat → Attempt;
  sv1_server_starts : bool;
  monitoring_starts : bool;
  ending : option SessionEnd;
}.

(** ** State *)

(** [utils::UpstreamEntry], and an upstream of the configuration. *)
Record UpstreamEntry : Type := {
  host : string; port : N; authority_pubkey : list byte;
  tried_or_flagged : bool; entry_identity : string;
}.

Record ConfigUpstream : Type := {
  address : string; config_port : N; config_pubkey : list byte; config_identity : string;
}.

(** The parts of [TranslatorConfig] the runtime reads; [downstream_address]
    parses or not. *)
Record TranslatorConfig : Type := {
  config_upstreams : list ConfigUpstream;
  address_parses : bool;
  verify_payout : bool;
  required_extensions : list N;
  monitoring_address : bool;
}.

(** [TranslatorSv2]: the cancellation token and [is_alive]. *)
Record Translator : Type := { cancelled : bool; is_alive : bool }.

(** The channel manager, and the identity in the SV1 server's [OnceLock]. *)
Record Services : Type := { channel_manager : ChannelManager; sv1_identity : option string }.

Inductive LogLine : Type :=
| Attempting (upstream attempt : nat)
| Sent (message : SetupSent)
| Connected (upstream : nat) (services : Services).

(** [TranslatorRuntime]; the log is what the code writes to the socket and
    with [info!]. *)
Record Runtime : Type := {
  translator : Translator;
  fallback_coordinator : FallbackCoordinator;
  upstream_addresses : list UpstreamEntry;
  services : Services;
  logged : list LogLine;
}.

Definition eta_runtime (s : Runtime) : Runtime :=
  {| translator := translator s; fallback_coordinator := fallback_coordinator s;
     upstream_addresses := upstream_addresses s; services := services s; logged := logged s |}.
Implicit Types (s : Runtime).
Definition put_translator v s : Runtime := ltac:(update_field eta_runtime translator v s).
Definition put_coordinator v s : Runtime :=
  ltac:(update_field eta_runtime fallback_coordinator v s).
Definition put_upstreams v s : Runtime := ltac:(update_field eta_runtime upstream_addresses v s).
Definition put_services v s : Runtime := ltac:(update_field eta_runtime services v s).
Definition put_log v s : Runtime := ltac:(update_field eta_runtime logged v s).

Definition write (l : LogLine) s : Runtime := put_log (logged s ++ [l]) s.
Definition request_shutdown (c : bool) s : Runtime :=
  put_translator {| cancelled := c; is_alive := is_alive (translator s) |} s.

Definition step (A : Type) : Type := prog Runtime Error A.

(** Code that looks at the cancellation token only. *)
Definition with_token {A} (p : prog bool Error A) : step A := λ s,
  match p (cancelled (translator s)) with
  | Done (r, c) => Done (r, request_shutdown c s)
  | Panic => Panic
  end.

(** ** [TranslatorRuntime::new] and the bootstrap *)
Definition upstream_entry (u : ConfigUpstream) : UpstreamEntry :=
  {| host := address u; port := config_port u; authority_pubkey := config_pubkey u;
     tried_or_flagged := false; entry_identity := config_identity u |}.

(** [bootstrap_io], [bootstrap_channel_manager] and [bootstrap_sv1_server]:
    fresh channels, manager and server. *)
Definition new_services : Services := {| channel_manager := new_manager; sv1_identity := None |}.

Definition runtime_new (cfg : TranslatorConfig) (t : Translator) : result Runtime ErrorKind :=
  if address_parses cfg then
    Ok {| translator := t; fallback_coordinator := new_coordinator;
          upstream_addresses := upstream_entry <$> config_upstreams cfg;
          services := new_services; logged := [] |}
  else Err General.

Context (cfg : TranslatorConfig).

(** [payout_mode]. *)
Definition payout_mode (user_identity : string) : result (option PayoutMode) ErrorKind :=
  match Payout.expected_payout_distribution (verify_payout cfg) user_identity with
  | Ok distribution => Ok distribution
  | Err _ => Err (InvalidUserIdentity user_identity)
  end.

(** [Sv1Server::set_user_identity]: a second identity panics. *)
Definition set_user_identity (identity : string) : prog Services Error unit :=
  old ← ask sv1_identity;
  match old with
  | Some _ => crash
  | None => update (λ v, {| channel_manager := channel_manager v; sv1_identity := Some identity |})
  end.

(** [ChannelManager::set_expected_payout_distribution]. *)
Definition set_expected_payout (p : option PayoutMode) : prog Services Error unit := λ v,
  match set_expected_payout_distribution p (channel_manager v) with
  | Done (_, m) => Done (Ok tt, {| channel_manager := m; sv1_identity := sv1_identity v |})
  | Panic => Panic
  end.

Definition in_services (p : prog Services Error unit) : step unit := λ s,
  match p (services s) with
  | Done (r, v) => Done (r, put_services v s)
  | Panic => Panic
  end.

(** ** Finding an upstream *)

(** [Upstream::start]: its [select!] prefers the tokens to the set-up. *)
Definition upstream_start (a : Attempt) : step unit :=
  stopping ← with_token (look (setup_shutdown a));
  if stopping : bool then mret tt
  else
    fell_back ← ask (λ s, signal (fallback_coordinator s));
    if fell_back : bool then mret tt
    else proxy_setup_connection (λ m, write (Sent m)) (required_extensions cfg) (exchange a).

(** [try_initialize_upstream_single]. *)
Definition try_initialize_upstream_single (a : Attempt) : step unit :=
  with_token (proxy_upstream_new (dial a));;
  upstream_start a.

Definition flag_upstream (i : nat) s : Runtime :=
  put_upstreams
    (alter (λ e, {| host := host e; port := port e; authority_pubkey := authority_pubkey e;
                    tried_or_flagged := true; entry_identity := entry_identity e |})
       i (upstream_addresses s)) s.

(** A connected upstream: the services learn its identity and payout, and it
    is flagged. *)
Definition use_upstream (i : nat) : step unit :=
  o ← ask (λ s, upstream_addresses s !! i);
  entry ← some_or_crash o;
  let user_identity := entry_identity entry in
  payout ← ok_or_raise (payout_mode user_identity) shutdown;
  in_services (set_expected_payout payout);;
  in_services (set_user_identity user_identity);;
  update (flag_upstream i);;
  v ← ask services;
  update (write (Connected i v)).

(** The attempts at one upstream; the result says whether one succeeded. *)
Fixpoint try_attempts (net : nat → Attempt) (i : nat) (numbers : list nat) : step bool :=
  match numbers with
  | [] => mret false
  | k :: rest =>
      update (write (Attempting i k));;
      r ← attempt (try_initialize_upstream_single (net k));
      match r with
      | Ok tt => use_upstream i;; mret true
      | Err e => if is_shutdown (action e) then raise e else try_attempts net i rest
      end
  end.

Fixpoint try_upstreams (net : nat → nat → Attempt) (indices : list nat) : step unit :=
  match indices with
  | [] => raise (shutdown CouldNotInitiateSystem)
  | i :: rest =>
      o ← ask (λ s, upstream_addresses s !! i);
      entry ← some_or_crash o;
      if tried_or_flagged entry then try_upstreams net rest
      else
        connected ← try_attempts (net i) i (seq 1 MAX_RETRIES);
        if connected : bool then mret tt
        else update (flag_upstream i);; try_upstreams net rest
  end.

(** [initialize_upstream], which is [try_upstream]. *)
Definition initialize_upstream (net : nat → nat → Attempt) : step unit :=
  upstream_len ← ask (λ s, length (upstream_addresses s));
  try_upstreams net (seq 0 upstream_len).

(** [start_services]. *)
Definition start_services (x : Session) : step unit :=
  ensure (sv1_server_starts x) (shutdown Io);;
  ensure (negb (monitoring_address cfg) || monitoring_starts x) (shutdown General).

(** ** The main loop *)
Inductive RuntimeEvent : Type := ShutdownEvent | FallbackEvent.

(** [wait]: the tokens the session's tasks have cancelled, shutdown first. *)
Definition wait (x : Session) s : option RuntimeEvent * Runtime :=
  match ending x with
  | None | Some Aborts => (None, s)
  | Some (Cancels c f) =>
      let s' := request_shutdown (cancelled (translator s) || c)
        (if f : bool then put_coordinator (trigger_cancel (fallback_coordinator s)) s else s) in
      (if cancelled (translator s') then Some ShutdownEvent
       else if signal (fallback_coordinator s') then Some FallbackEvent else None, s')
  end.

(** [shutdown]: the token, the tasks, [mark_stopped]. *)
Definition shutdown_runtime s : Runtime :=
  put_translator {| cancelled := true; is_alive := false |} s.

(** [cleanup_for_fallback]: [trigger_fallback_and_wait] returns when the
    registered tasks have cleaned up ([Fallback]); coordinator, manager and
    server are replaced. *)
Definition cleanup_for_fallback s : Runtime :=
  put_services new_services (put_coordinator new_coordinator s).

Inductive Ended : Type := Stopped (r : result unit ErrorKind) | StillRunning | Aborted.

Definition failed (e : Error) s : option Ended * Runtime :=
  (Some (Stopped (Err (kind e))), shutdown_runtime s).

(** [try_upstream] and [start_services]. *)
Definition open_session (x : Session) : step unit :=
  initialize_upstream (attempts x);; start_services x.

(** The loop of [TranslatorSv2::start]; session [n] is running. *)
Fixpoint start_loop (fuel : nat) (sessions : nat → Session) (n : nat) (s : Runtime)
    : rust (option Ended * Runtime) :=
  match fuel with
  | O => Done (None, s)
  | S fuel =>
      if decide (ending (sessions n) = Some Aborts) then Done (Some Aborted, s) else
      let '(event, s) := wait (sessions n) s in
      match event with
      | None => Done (Some StillRunning, s)
      | Some ShutdownEvent => Done (Some (Stopped (Ok tt)), shutdown_runtime s)
      | Some FallbackEvent =>
          '(r, s) ← open_session (sessions (S n)) (cleanup_for_fallback s);
          match r with
          | Ok tt => start_loop fuel sessions (S n) s
          | Err e => Done (failed e s)
          end
      end
  end.

(** [TranslatorSv2::start]: how it ends, the translator and the log. *)
Definition start (fuel : nat) (sessions : nat → Session)
    : rust (option Ended * Translator * list LogLine) :=
  match runtime_new cfg {| cancelled := false; is_alive := true |} with
  | Err e => Done (Some (Stopped (Err e)), {| cancelled := true; is_alive := false |}, [])
  | Ok s =>
      '(r, s) ← open_session (sessions 0%nat) s;
      '(e, s) ← match r with
                | Ok tt => start_loop fuel sessions 0 s
                | Err e => Done (failed e s)
                end;
      Done (e, translator s, logged s)
  end.
End runtime.
