(* ===== verification/TproxyFailover.v ===== *)
(** * The translator's failover: proofs

    What a run of [TproxyRuntime.start] does with the list of upstreams.  The
    flags of the upstreams are a cursor: those before it are spent, the others
    untouched ([cursor]); the log only ever grows in the order of upstreams
    and attempts ([history]). *)
From S2P Require Import Prelude Handler Bitcoin Payout Fallback Setup JdClient ClientChannels TproxyManager Connection TproxyRuntime.

Section failover.
Context `{B : BitcoinApi} `{AA : AddressApi} `{CC : ClientChannels} `{MT : MessageTypes}
  `{CM : CommonMessages} `{CL : !CommonMessagesLaws}.
Context (cfg : TranslatorConfig).
Implicit Types (s : Runtime) (l : LogLine).

(** Attempt [k] at upstream [i] is [(i, k)], and its use [(i, 4)]. *)
Definition key (l : LogLine) : option (nat * nat) :=
  match l with
  | Attempting i k => Some (i, k)
  | Sent _ => None
  | Connected i _ => Some (i, 4)%nat
  end.

(** What the services of a connected upstream are told. *)
Definition serves (i : nat) (v : Services) : Prop :=
  ∃ u p, config_upstreams cfg !! i = Some u ∧ payout_mode cfg (config_identity u) = Ok p ∧
    v = {| channel_manager := put_payout (Some p) new_manager;
           sv1_identity := Some (config_identity u) |}.

Definition serves_line (l : LogLine) : Prop :=
  match l with
  | Attempting i k => (i < length (config_upstreams cfg) ∧ 1 ≤ k ≤ MAX_RETRIES)%nat
  | Sent _ => True
  | Connected i v => serves i v
  end.

#[local] Notation keys := (keys key).
#[local] Notation history := (history key serves_line).

(** The upstreams before [c] are spent, and all are those of the configuration. *)
Record cursor (c : nat) (us : list UpstreamEntry) : Prop := {
  cu_flags : ∀ j e, us !! j = Some e → tried_or_flagged e = bool_decide (j < c)%nat;
  cu_config : entry_identity <$> us = config_identity <$> config_upstreams cfg;
}.

Lemma sent_unkeyed ms : Forall (λ l, key l = None) (Sent <$> ms).
Proof. by apply Forall_fmap, Forall_forall. Qed.

Lemma history_sent i k ls ms : history i k ls → history i k (ls ++ (Sent <$> ms)).
Proof. intros Hh. apply history_unkeyed; [done|apply sent_unkeyed|by apply Forall_fmap, Forall_forall]. Qed.

(** ** One attempt *)

(** An attempt only writes to the server and looks at the token. *)
Definition told s s' : Prop :=
  ∃ c ms, (cancelled (translator s) = true → c = true) ∧
    s' = put_log (logged s ++ (Sent <$> ms)) (request_shutdown c s).

#[local] Instance told_preorder : PreOrder told.
Proof.
  split.
  - intros [[c al] fc us v ls]. exists c, []. split; [done|]. simpl. by rewrite app_nil_r.
  - intros s _ _ (c & ms & Hc & ->) (c' & ms' & Hc' & ->). exists c', (ms ++ ms').
    split; [by auto|]. simpl. by rewrite fmap_app, assoc by apply _.
Qed.

(** Part of it only writes. *)
Definition wrote s s' : Prop := ∃ ms, s' = put_log (logged s ++ (Sent <$> ms)) s.

#[local] Instance wrote_preorder : PreOrder wrote.
Proof.
  split.
  - intros [t fc us v ls]. exists []. by rewrite app_nil_r.
  - intros s _ _ (ms & ->) (ms' & ->). exists (ms ++ ms').
    simpl. by rewrite fmap_app, assoc by apply _.
Qed.

Lemma wrote_message m s : wrote s (write (Sent m) s).
Proof. by exists [m]. Qed.

Lemma wrote_told s s' : wrote s s' → told s s'.
Proof. intros (ms & ->). exists (cancelled (translator s)), ms. split; [done|]. by destruct s as [[]]. Qed.

Lemma told_shutdown c s :
  (cancelled (translator s) = true → c = true) → told s (request_shutdown c s).
Proof.
  intros Hc. exists c, []. split; [done|]. destruct s. unfold put_log. simpl. by rewrite app_nil_r.
Qed.

(** The server answers the set-up with success, and the extensions go out. *)
Definition greets (x : Exchange) : Prop :=
  takes_setup x = true ∧
  ∃ f, answer x = Some f ∧ is_setup_answer f = true ∧
       dispatch_common (ext_type f) (msg_type f) (payload f) = Ok SetupConnectionSuccess.
Definition extensions_fit : Prop := JobDeclarator.fits_64k (required_extensions cfg) = true.
Definition extends (x : Exchange) : Prop :=
  required_extensions cfg = [] ∨ extensions_fit ∧ takes_extensions x = true.

Lemma exchange_spec msg x s :
  twp (exchange_setup (λ m, write (Sent m)) msg ChannelErrorReceiver proxy_common x)
    (λ r s', wrote s s' ∧
       match r with Ok _ => greets x | Err e => ¬ greets x ∧ is_shutdown (action e) = false end) s.
Proof.
  unfold exchange_setup, handle_common_frame. repeat twp_step.
  1: pose proof (setup_answer_kind _ _ ltac:(eassumption) ltac:(eassumption)) as [-> | ->].
  all: repeat twp_step; split; [first [reflexivity|apply wrote_message]|].
  all: unfold greets; try (match goal with e : DispatchError |- _ => destruct e end).
  all: first [by eauto 10|split; [|done]; intros (? & f & ? & ? & ?); congruence].
Qed.

Lemma extensions_spec id x s :
  twp (send_request_extensions (λ m, write (Sent m)) id (required_extensions cfg) x)
    (λ r s', wrote s s' ∧
       match r with
       | Ok _ => extends x
       | Err e => ¬ extends x ∧ (extensions_fit → is_shutdown (action e) = false)
       end) s.
Proof.
  unfold send_request_extensions, extends, extensions_fit. repeat twp_step.
  all: split; [first [reflexivity|apply wrote_message]|].
  all: first [by eauto|split; [|by eauto]; intros [?|[??]]; congruence].
Qed.

Definition answers (x : Exchange) : Prop := greets x ∧ extends x.

Lemma setup_spec x s :
  twp (proxy_setup_connection (λ m, write (Sent m)) (required_extensions cfg) x)
    (λ r s', wrote s s' ∧
       match r with
       | Ok _ => answers x
       | Err e => ¬ answers x ∧ (extensions_fit → is_shutdown (action e) = false)
       end) s.
Proof.
  unfold proxy_setup_connection, answers. twp_step.
  eapply twp_mono; [|apply exchange_spec]. intros [[]|e] s1 [H1 Hr]; [|naive_solver].
  eapply twp_mono; [|apply extensions_spec]. intros [[]|e] s2 [H2 Hr2].
  all: split; [by etrans|naive_solver].
Qed.

(** The server is there. *)
Definition reachable (d : Dial) : Prop :=
  resolved d = true ∧ tcp d = TcpConnected ∧ noise d = NoiseReady.
Definition succeeds (a : Attempt) : Prop := reachable (dial a) ∧ answers (exchange a).

(** Nobody asks for a shutdown during the attempt, or did before. *)
Definition quiet (a : Attempt) : Prop :=
  entry_shutdown (dial a) = false ∧ noise_shutdown (dial a) = false ∧ setup_shutdown a = false.
Definition calm s : Prop :=
  cancelled (translator s) = false ∧ signal (fallback_coordinator s) = false.

Lemma new_spec d (c : bool) :
  twp (proxy_upstream_new d) (λ r c', (c = true → c' = true) ∧
    (c = false → entry_shutdown d = false → noise_shutdown d = false →
     c' = false ∧
     match r with Ok _ => reachable d | Err e => ¬ reachable d ∧ is_shutdown (action e) = false end)) c.
Proof.
  unfold proxy_upstream_new, connect, reachable. destruct d as [e r t n o]; simpl.
  destruct c, e, r, t, n, o; vm_compute; split; try done; intros ???; split; try done;
    first [by split|split; [|done]; by intros (?&?&?)].
Qed.

Lemma twp_with_token {A} (p : prog bool Error A) (Q : result A Error → Runtime → Prop) s :
  twp p (λ r c, Q r (request_shutdown c s)) (cancelled (translator s)) → twp (with_token p) Q s.
Proof. unfold twp, with_token. by destruct (p _) as [[r c]|]. Qed.

Lemma single_spec a s :
  twp (try_initialize_upstream_single cfg a)
    (λ r s', told s s' ∧
       (quiet a → calm s → calm s' ∧
        match r with
        | Ok _ => succeeds a
        | Err e => ¬ succeeds a ∧ (extensions_fit → is_shutdown (action e) = false)
        end)) s.
Proof.
  unfold try_initialize_upstream_single, upstream_start, succeeds, quiet, calm.
  twp_step. apply twp_with_token.
  eapply twp_mono; [|apply new_spec]. intros [[]|e] c [Hc Hq]; cbn beta iota.
  2: { split; [by apply told_shutdown|]. intros (?&?&?) [??]. destruct Hq as [-> [??]]; [done..|]. naive_solver. }
  twp_step. apply twp_with_token.
  change (cancelled (translator (request_shutdown c s))) with c.
  unfold look, twp at 1. simpl.
  assert (told s (request_shutdown (c || setup_shutdown a) (request_shutdown c s))) as Ht.
  { transitivity (request_shutdown c s); apply told_shutdown; [done|]. simpl. by intros ->. }
  destruct (c || setup_shutdown a) eqn:Hcs.
  { split; [done|]. intros (?&?&Hs) [??].
    destruct Hq as [-> _]; [done..|]. by rewrite Hs in Hcs. }
  apply orb_false_iff in Hcs as [-> Hs].
  repeat twp_step.
  { split; [done|]. simpl in *. by intros _ [? [=]%(eq_trans (eq_sym Heqb))]. }
  eapply twp_mono; [|apply setup_spec]. intros r s' [Hw Hr].
  split; [etrans; [exact Ht|by apply wrote_told]|].
  intros (?&?&?) [??]. destruct Hw as [ms ->]. split; [done|].
  destruct Hq as [_ Hd]; [done..|]. destruct r; naive_solver.
Qed.

(** ** The attempts at one upstream *)

(** About to make attempt [k] at upstream [i]. *)
Record search (i k : nat) s : Prop := {
  se_cursor : cursor i (upstream_addresses s);
  se_fresh : services s = new_services;
  se_history : history i k (logged s);
}.

(** Upstream [i] is in use. *)
Record found (i : nat) s : Prop := {
  fd_cursor : cursor (S i) (upstream_addresses s);
  fd_history : history (S i) 0 (logged s);
}.

(** The log of a run that failed is still in order. *)
Definition logged_well s : Prop := ∃ i k, history i k (logged s).

Lemma told_keys s s' : told s s' → keys (logged s') = keys (logged s).
Proof. intros (c & ms & _ & ->). simpl. by rewrite keys_app, (keys_unkeyed _ _ (sent_unkeyed ms)), app_nil_r. Qed.

Lemma told_search i k s s' : told s s' → search i k s → search i k s'.
Proof. intros (c & ms & _ & ->) [??]. split; [done..|]. by apply history_sent. Qed.

Lemma told_upstreams s s' : told s s' → upstream_addresses s' = upstream_addresses s.
Proof. by intros (c & ms & _ & ->). Qed.

Lemma search_attempt i k s :
  (i < length (upstream_addresses s))%nat → (1 ≤ k ≤ MAX_RETRIES)%nat → search i k s →
  search i (S k) (write (Attempting i k) s) ∧
  keys (logged (write (Attempting i k) s)) = keys (logged s) ++ [(i, k)].
Proof.
  intros Hi Hk [Hc Hf Hh]. split; [|by apply keys_app].
  split; [done..|]. eapply history_snoc; [exact Hh|done| |].
  - unfold key_lt. simpl. lia.
  - split; [|done]. pose proof (f_equal length (cu_config _ _ Hc)) as Hl.
    rewrite !length_fmap in Hl. lia.
Qed.

Lemma cursor_flag i us :
  cursor i us → cursor (S i) (alter (λ e, {| host := host e; port := port e;
    authority_pubkey := authority_pubkey e; tried_or_flagged := true;
    entry_identity := entry_identity e |}) i us).
Proof.
  intros [Hf Hc]. split.
  - intros j e. destruct (decide (i = j)) as [->|Hne].
    + rewrite list_lookup_alter_eq. destruct (us !! j); [|done]. intros [= <-]. simpl.
      symmetry. apply bool_decide_true. lia.
    + rewrite list_lookup_alter_ne by done. intros ->%Hf.
      apply bool_decide_ext. lia.
  - rewrite <-Hc. apply list_eq. intros j. rewrite !list_lookup_fmap.
    destruct (decide (i = j)) as [->|]; [|by rewrite list_lookup_alter_ne].
    rewrite list_lookup_alter_eq. by destruct (us !! j).
Qed.

(** The identity the configuration gives upstream [i] has a payout. *)
Definition payable (i : nat) : Prop :=
  ∀ u, config_upstreams cfg !! i = Some u → ∃ p, payout_mode cfg (config_identity u) = Ok p.

Lemma use_spec i k s :
  search i k s → (i < length (upstream_addresses s))%nat → (k ≤ 4)%nat →
  twp (use_upstream cfg i) (λ r s',
    length (upstream_addresses s') = length (upstream_addresses s) ∧
    match r with
    | Ok _ => found i s' ∧ keys (logged s') = keys (logged s) ++ [(i, 4)%nat] ∧
        translator s' = translator s ∧ fallback_coordinator s' = fallback_coordinator s
    | Err _ => s' = s ∧ ¬ payable i
    end) s.
Proof.
  intros [Hc Hf Hh] Hi Hk. unfold use_upstream.
  destruct (upstream_addresses s !! i) as [e|] eqn:He; [|by apply lookup_ge_None in He; lia].
  assert (∃ u, config_upstreams cfg !! i = Some u ∧ config_identity u = entry_identity e)
    as (u & Hu & Hid).
  { pose proof (f_equal (.!! i) (cu_config _ _ Hc)) as Hm. simpl in Hm.
    rewrite !list_lookup_fmap, He in Hm. destruct (config_upstreams cfg !! i) as [u|]; [|done].
    exists u. simpl in Hm. by simplify_eq. }
  repeat twp_step. apply (twp_some_or_crash _ e _ _ He). repeat twp_step.
  2: { split; [done|]. split; [done|]. intros Hp. destruct (Hp _ Hu) as [p Hp']. congruence. }
  rename a into p. unfold in_services, set_expected_payout, set_user_identity, twp. simpl.
  rewrite Hf. simpl. split; [by rewrite length_alter|].
  split; [|split_and!; [by rewrite keys_app|done..]].
  split; simpl; [by apply cursor_flag|].
  eapply (history_weaken _ _ i 5); [|left; unfold key_lt; simpl; lia].
  eapply history_snoc; [exact Hh|done|unfold key_lt; simpl; lia|].
  exists u, p. rewrite Hid. done.
Qed.

(** What is logged of attempts [ks] at upstream [i]. *)
Definition tries (i : nat) (ks : list nat) : list (nat * nat) := (λ k, (i, k)) <$> ks.

Lemma attempts_spec net i n k s :
  (k + n = 4)%nat → (1 ≤ k)%nat → (i < length (upstream_addresses s))%nat → search i k s →
  twp (try_attempts cfg net i (seq k n)) (λ r s',
    length (upstream_addresses s') = length (upstream_addresses s) ∧
    match r with
    | Ok true => found i s' | Ok false => search i 4 s' | Err _ => logged_well s'
    end ∧
    (calm s → (∀ m, quiet (net m)) → extensions_fit →
     match r with
     | Ok true => calm s' ∧ ∃ m, (k ≤ m < 4)%nat ∧ succeeds (net m) ∧
         (∀ m', (k ≤ m' < m)%nat → ¬ succeeds (net m')) ∧
         keys (logged s') = keys (logged s) ++ tries i (seq k (S (m - k))) ++ [(i, 4)%nat]
     | Ok false => calm s' ∧ (∀ m, (k ≤ m < 4)%nat → ¬ succeeds (net m)) ∧
         keys (logged s') = keys (logged s) ++ tries i (seq k n)
     | Err _ => ¬ payable i
     end)) s.
Proof.
  revert k s. induction n as [|n IH]; intros k s Hn Hk Hi Hs.
  { simpl. split; [done|]. assert (k = 4)%nat as -> by lia. split; [done|].
    intros Hc _ _. split; [done|]. split; [lia|]. by rewrite app_nil_r. }
  simpl. twp_step. apply twp_update. twp_step.
  destruct (search_attempt i k s) as [Hs1 Hkeys1]; [done|unfold MAX_RETRIES; lia|done|].
  apply twp_attempt. eapply twp_mono; [|apply single_spec].
  intros r s2 [Ht Hq]. cbn beta iota.
  pose proof (told_search _ _ _ _ Ht Hs1) as Hs2. pose proof (told_upstreams _ _ Ht) as Hu2.
  pose proof (told_keys _ _ Ht) as Hk2. rewrite Hkeys1 in Hk2.
  assert (length (upstream_addresses s2) = length (upstream_addresses s)) as Hl2 by by rewrite Hu2.
  destruct r as [[]|e].
  - twp_step. eapply twp_mono; [|apply (use_spec i (S k)); [done|lia|lia]].
    intros [[]|e] s3 [Hl3 H3]; (split; [congruence|]).
    + destruct H3 as (Hf & Hk3 & Ht3 & Hc3). split; [done|]. intros Hc Hnet Hext.
      destruct (Hq (Hnet k) Hc) as [[??] Hok]. split; [unfold calm; rewrite Ht3, Hc3; done|].
      exists k. split; [lia|]. split; [done|]. split; [lia|].
      rewrite Hk3, Hk2, Nat.sub_diag. simpl. by rewrite <-app_assoc.
    + destruct H3 as [-> Hp]. split; [by eexists _, _; apply se_history|done].
  - destruct (is_shutdown (action e)) eqn:He.
    + twp_step. split; [done|]. split; [by eexists _, _; apply se_history|].
      intros Hc Hnet Hext. destruct (Hq (Hnet k) Hc) as [_ [_ Hno]]. pose proof (Hno Hext); congruence.
    + eapply twp_mono; [|apply (IH (S k)); [lia|lia|lia|done]].
      intros r s3 (Hl3 & Hr & Hcase). split; [congruence|]. split; [done|].
      intros Hc Hnet Hext. destruct (Hq (Hnet k) Hc) as [Hc2 [Hno _]].
      specialize (Hcase Hc2 Hnet Hext). rewrite Hk2 in Hcase.
      destruct r as [[]|]; [| |done].
      * destruct Hcase as (Hc3 & m & Hm & Hok & Hbefore & Hk3). split; [done|]. exists m.
        split; [lia|]. split; [done|]. split.
        { intros m' Hm'. destruct (decide (m' = k)) as [->|]; [done|]. apply Hbefore. lia. }
        rewrite Hk3, <-app_assoc. f_equal.
        replace (m - k)%nat with (S (m - S k))%nat by lia. reflexivity.
      * destruct Hcase as (Hc3 & Hnone & Hk3). split; [done|]. split.
        { intros m Hm. destruct (decide (m = k)) as [->|]; [done|]. apply Hnone. lia. }
        rewrite Hk3, <-app_assoc. done.
Qed.

(** ** The search for an upstream *)

(** Three attempts at each upstream from [c] up to [j]. *)
Definition rounds (c j : nat) : list (nat * nat) :=
  concat ((λ i, tries i (seq 1 MAX_RETRIES)) <$> seq c (j - c)).

Lemma rounds_self c : rounds c c = [].
Proof. unfold rounds. by rewrite Nat.sub_diag. Qed.

Lemma rounds_step c j :
  (c < j)%nat → rounds c j = tries c (seq 1 MAX_RETRIES) ++ rounds (S c) j.
Proof. intros Hc. unfold rounds. by replace (j - c)%nat with (S (j - S c)) by lia. Qed.

Definition in_turn (c len : nat) (x : nat * nat) : Prop :=
  (c ≤ x.1 < len ∧ 1 ≤ x.2 ≤ MAX_RETRIES)%nat.

(** Attempt [(j, m)] is the first to succeed from upstream [c] on. *)
Definition first_success (net : nat → nat → Attempt) (c len j m : nat) : Prop :=
  in_turn c len (j, m) ∧ succeeds (net j m) ∧
  ∀ x, in_turn c len x → key_lt x (j, m) → ¬ succeeds (net x.1 x.2).

(** What a search from upstream [c] on ends with if nobody asks for a shutdown. *)
Definition search_outcome (net : nat → nat → Attempt) (c len : nat) (s : Runtime)
    (r : result unit Error) s' : Prop :=
  match r with
  | Ok _ => calm s' ∧ ∃ j m, first_success net c len j m ∧ cursor (S j) (upstream_addresses s') ∧
      keys (logged s') = keys (logged s) ++ rounds c j ++ tries j (seq 1 m) ++ [(j, 4)%nat]
  | Err e =>
      kind e = CouldNotInitiateSystem ∧ (∀ x, in_turn c len x → ¬ succeeds (net x.1 x.2)) ∧
        keys (logged s') = keys (logged s) ++ rounds c len
      ∨ ∃ j, (c ≤ j < len)%nat ∧ ¬ payable j
  end.

Lemma outcome_next net c len s s1 r s' :
  (c < len)%nat → (∀ m, (1 ≤ m < 4)%nat → ¬ succeeds (net c m)) →
  keys (logged s1) = keys (logged s) ++ tries c (seq 1 MAX_RETRIES) →
  search_outcome net (S c) len s1 r s' → search_outcome net c len s r s'.
Proof.
  intros Hc Hno Hk.
  assert (∀ x, in_turn c len x → in_turn (S c) len x ∨ ¬ succeeds (net x.1 x.2)) as Hsplit.
  { intros [i k] [??]. simpl in *. destruct (decide (i = c)) as [->|].
    - right. apply Hno. unfold MAX_RETRIES in *. lia.
    - left. split; simpl; lia. }
  destruct r as [[]|e]; simpl.
  - intros (Hcalm & j & m & (Hj & Hok & Hfirst) & Hcur & Hk'). split; [done|]. exists j, m.
    assert (c < j)%nat by (destruct Hj; simpl in *; lia).
    split; [|split; [done|]].
    + split; [destruct Hj; split; simpl in *; lia|]. split; [done|].
      intros x Hx Hlt. destruct (Hsplit x Hx); [by apply Hfirst|done].
    + rewrite Hk', Hk, (rounds_step c) by done. by rewrite <-!app_assoc.
  - intros [(He & Hnone & Hk')|(j & Hj & Hp)]; [left|right; exists j; split; [lia|done]].
    split; [done|]. split.
    + intros x Hx. destruct (Hsplit x Hx); [by apply Hnone|done].
    + rewrite Hk', Hk, (rounds_step c) by done. by rewrite <-app_assoc.
Qed.

Lemma search_flagged i s : search i 4 s → search (S i) 0 (flag_upstream i s).
Proof.
  intros [Hc Hf Hh]. split; [by apply cursor_flag|done|].
  eapply history_weaken; [exact Hh|]. left. unfold key_lt. simpl. lia.
Qed.

Lemma upstreams_spec net n i c s :
  (i + n = length (upstream_addresses s))%nat → (i ≤ c ≤ length (upstream_addresses s))%nat →
  search c 0 s →
  twp (try_upstreams cfg net (seq i n)) (λ r s',
    length (upstream_addresses s') = length (upstream_addresses s) ∧
    match r with
    | Ok _ => ∃ j, (c ≤ j < length (upstream_addresses s))%nat ∧ found j s'
    | Err _ => logged_well s'
    end ∧
    (calm s → (∀ j m, quiet (net j m)) → extensions_fit →
     search_outcome net c (length (upstream_addresses s)) s r s')) s.
Proof.
  revert i c s. induction n as [|n IH]; intros i c s Hn Hi Hs.
  { simpl. twp_step. split; [done|]. split; [by eexists _, _; apply se_history|].
    intros _ _ _. left. assert (c = length (upstream_addresses s)) as <- by lia.
    rewrite rounds_self, app_nil_r. split; [done|]. split; [|done].
    intros x [? _]. lia. }
  change (seq i (S n)) with (i :: seq (S i) n). cbn [try_upstreams]. do 2 twp_step. twp_step.
  destruct (upstream_addresses s !! i) as [e|] eqn:He; [|by apply lookup_ge_None in He; lia].
  apply (twp_some_or_crash _ e _ _ eq_refl).
  rewrite (cu_flags _ _ (se_cursor _ _ _ Hs) _ _ He). case_bool_decide as Hc.
  { apply IH; [lia|lia|done]. }
  assert (i = c)%nat as -> by lia.
  twp_step. eapply twp_mono; [|apply (attempts_spec (net c) c 3 1); [lia|lia|lia|]].
  2: { destruct Hs as [??]. split; [done..|]. eapply history_weaken; [done|].
       left. unfold key_lt. simpl. lia. }
  intros [[]|e0] s1 (Hl1 & Hr & Hcase).
  - twp_step. split; [done|]. split; [by exists c; split; [lia|]|]. intros Hcalm Hnet Hext.
    destruct (Hcase Hcalm (Hnet c) Hext) as (Hc1 & m & Hm & Hok & Hfirst & Hk).
    split; [done|]. exists c, m. split; [|split; [apply fd_cursor, Hr|]].
    + split; [split; simpl; unfold MAX_RETRIES; lia|]. split; [done|].
      intros [j k] [??] Hlt. unfold key_lt in Hlt. simpl in *.
      assert (j = c) as -> by lia. apply Hfirst. lia.
    + rewrite Hk, rounds_self. replace (S (m - 1)) with m by lia. done.
  - twp_step. apply twp_update.
    eapply twp_mono; [|apply (IH (S c) (S c) (flag_upstream c s1))].
    + unfold flag_upstream at 1 3 4. simpl. rewrite length_alter, Hl1.
      intros r s' (Hl & Hr' & Hcase'). split; [done|]. split.
      { destruct r as [[]|]; [|done]. destruct Hr' as (j & Hj & Hf). exists j. split; [lia|done]. }
      intros Hcalm Hnet Hext. destruct (Hcase Hcalm (Hnet c) Hext) as (Hc1 & Hnone & Hk).
      apply (outcome_next net c _ s (flag_upstream c s1)); [lia|done|done|].
      by apply Hcase'.
    + simpl. rewrite length_alter. lia.
    + simpl. rewrite length_alter. lia.
    + by apply search_flagged.
  - split; [done|]. split; [done|]. intros Hcalm Hnet Hext. right. exists c. split; [lia|].
    by apply Hcase.
Qed.

(** ** Sessions *)

Lemma initialize_spec net c s :
  (c ≤ length (upstream_addresses s))%nat → search c 0 s →
  twp (initialize_upstream cfg net) (λ r s',
    length (upstream_addresses s') = length (upstream_addresses s) ∧
    match r with
    | Ok _ => ∃ j, (c ≤ j < length (upstream_addresses s))%nat ∧ found j s'
    | Err _ => logged_well s'
    end ∧
    (calm s → (∀ j m, quiet (net j m)) → extensions_fit →
     search_outcome net c (length (upstream_addresses s)) s r s')) s.
Proof.
  intros Hc Hs. unfold initialize_upstream. do 2 twp_step.
  apply upstreams_spec; [lia|lia|done].
Qed.

Lemma found_logged j s : found j s → logged_well s.
Proof. intros [_ Hh]. by eexists _, _. Qed.

Lemma session_spec x c s :
  (c ≤ length (upstream_addresses s))%nat → search c 0 s →
  twp (open_session cfg x) (λ r s',
    length (upstream_addresses s') = length (upstream_addresses s) ∧ logged_well s' ∧
    ∀ u, r = Ok u → ∃ j, (c ≤ j < length (upstream_addresses s))%nat ∧ found j s') s.
Proof.
  intros Hc Hs. unfold open_session, start_services. twp_step.
  eapply twp_mono; [|by apply initialize_spec]. intros [[]|e] s1 (Hl & Hr & _); [|by split_and!].
  destruct Hr as (j & Hj & Hf). pose proof (found_logged _ _ Hf).
  repeat twp_step; (split; [done|]; split; [done|]); [|done..]. intros _ _. by exists j.
Qed.

(** The end of a run: the log is in order, a stopped translator is stopped, and
    only a session aborts the process. *)
Definition ended_well (sessions : nat → Session) (e : option Ended) s : Prop :=
  logged_well s ∧
  (∀ r, e = Some (Stopped r) → translator s = {| cancelled := true; is_alive := false |}) ∧
  (e = Some Aborted → ∃ n, ending (sessions n) = Some Aborts).

Lemma failed_ended sessions e s :
  logged_well s → ended_well sessions (failed e s).1 (failed e s).2.
Proof. by split. Qed.

Lemma wait_found x j s : found j s → found j (wait x s).2.
Proof. unfold wait. destruct (ending x) as [[? []|]|]; intros [??]; by split. Qed.

Lemma wait_length x s :
  length (upstream_addresses (wait x s).2) = length (upstream_addresses s).
Proof. unfold wait. by destruct (ending x) as [[? []|]|]. Qed.

Lemma loop_spec fuel sessions n j s :
  found j s → (j < length (upstream_addresses s))%nat →
  ∃ e s', start_loop cfg fuel sessions n s = Done (e, s') ∧ ended_well sessions e s' ∧
    ((length (upstream_addresses s) - j ≤ fuel)%nat → e ≠ None).
Proof.
  revert n j s. induction fuel as [|fuel IH]; intros n j s Hf Hj; simpl.
  { exists None, s. split; [done|]. split; [split; [by apply found_logged in Hf|]; by split|lia]. }
  destruct (decide (ending (sessions n) = Some Aborts)) as [Hab|_].
  { eexists _, _. split; [done|]. split; [|done]. split; [by apply found_logged in Hf|].
    split; [done|]. intros _. by exists n. }
  pose proof (wait_found (sessions n) j s Hf) as Hf1.
  pose proof (wait_length (sessions n) s) as Hl1.
  destruct (wait (sessions n) s) as [event s1]. simpl in *.
  destruct event as [[|]|].
  - eexists _, _. split; [done|]. split; [|done]. by apply found_logged in Hf1.
  - assert (search (S j) 0 (cleanup_for_fallback s1)) as Hs by (by destruct Hf1; split).
    assert (S j ≤ length (upstream_addresses (cleanup_for_fallback s1)))%nat as Hle
      by (simpl; lia).
    destruct (twp_done _ _ _ (session_spec (sessions (S n)) _ _ Hle Hs)) as (r & s2 & -> & Hl & Hw & Hok).
    simpl. destruct r as [[]|e].
    + destruct (Hok tt eq_refl) as (j' & Hj' & Hf2). simpl in *.
      destruct (IH (S n) j' s2) as (e & s' & -> & He & Hfuel); [done|lia|].
      exists e, s'. split; [done|]. split; [done|]. intros. apply Hfuel. lia.
    + eexists _, _. split; [done|]. split; [by apply failed_ended|done].
  - eexists _, _. split; [done|]. split; [|done]. by split; [apply found_logged in Hf1|].
Qed.

Lemma start_search s :
  runtime_new cfg {| cancelled := false; is_alive := true |} = Ok s →
  search 0 0 s ∧ calm s ∧ logged s = [] ∧
  length (upstream_addresses s) = length (config_upstreams cfg).
Proof.
  unfold runtime_new. destruct (address_parses cfg); [|done]. intros [= <-]. simpl.
  split; [|rewrite length_fmap; by split_and!].
  split; simpl; [|done|apply history_nil]. split.
  - intros j e. rewrite list_lookup_fmap. destruct (config_upstreams cfg !! j); [|done].
    by intros [= <-].
  - by rewrite <-list_fmap_compose.
Qed.

Lemma start_spec fuel sessions :
  ∃ e t ls, start cfg fuel sessions = Done (e, t, ls) ∧ (∃ i k, history i k ls) ∧
    (∀ r, e = Some (Stopped r) → t = {| cancelled := true; is_alive := false |}) ∧
    (e = Some Aborted → ∃ n, ending (sessions n) = Some Aborts) ∧
    ((length (config_upstreams cfg) ≤ fuel)%nat → e ≠ None).
Proof.
  unfold start. destruct (runtime_new cfg _) as [s|e] eqn:Hnew.
  2: { eexists _, _, _. split; [done|]. split; [|by split_and!]. exists 0%nat, 0%nat. apply history_nil. }
  apply start_search in Hnew as (Hs & _ & _ & Hl).
  pose proof (session_spec (sessions 0%nat) 0 s ltac:(lia) Hs) as H0.
  apply twp_done in H0 as (r & s1 & -> & Hl1 & Hw & Hok). simpl.
  destruct r as [[]|e].
  - destruct (Hok tt eq_refl) as (j & Hj & Hf).
    destruct (loop_spec fuel sessions 0 j s1 Hf ltac:(lia)) as (e & s2 & -> & (Hw2 & Ht & Hab) & Hfuel).
    eexists _, _, _. split; [done|]. split; [done|]. split; [done|]. split; [done|]. intros. apply Hfuel. lia.
  - eexists _, _, _. split; [done|]. split; [done|]. by split.
Qed.

(** ** Properties *)

(** C17: However the network and the sessions behave, the translator tries its
    upstreams in the order of the configuration and never goes back: attempt
    [k] of upstream [i] is made at most once, there are at most three, all
    before upstream [i] is used, and nothing is tried at an earlier upstream or
    at one already in use afterwards. *)
Theorem upstreams_tried_in_order fuel sessions e t ls :
  start cfg fuel sessions = Done (e, t, ls) →
  StronglySorted key_lt (keys ls) ∧
  ∀ i k, Attempting i k ∈ ls → (i < length (config_upstreams cfg) ∧ 1 ≤ k ≤ 3)%nat.
Proof.
  intros Hst. destruct (start_spec fuel sessions) as (?&?&?& Hst' & (i & k & [Hs _ Hv]) & _).
  rewrite Hst in Hst'. simplify_eq. split; [done|]. intros i' k' Hin.
  by apply (proj1 (Forall_forall _ _) Hv _ Hin).
Qed.

(** C21: A translator always finds its end: with as many sessions as there are
    upstreams its main loop has ended, without a panic, in a session that goes
    on or in a stop, after which the token is cancelled and the translator
    marked as stopped, unless a task of a session aborts the process. *)
Theorem failover_ends sessions :
  ∃ e t ls, start cfg (length (config_upstreams cfg)) sessions = Done (Some e, t, ls) ∧
    (e = StillRunning ∨ (∃ r, e = Stopped r ∧ t = {| cancelled := true; is_alive := false |}) ∨
     e = Aborted ∧ ∃ n, ending (sessions n) = Some Aborts).
Proof.
  destruct (start_spec (length (config_upstreams cfg)) sessions) as ([e|] & t & ls & Hst & _ & Ht & Hab & He).
  - exists e, t, ls. split; [done|]. destruct e as [r| |]; [right; left|by left|by right; right; auto].
    exists r. by split; [|apply (Ht r)].
  - by destruct He.
Qed.

(** Whenever the translator uses an upstream, its channel manager checks
    the payout that upstream's own identity asks for, and its SV1 server opens
    channels under that identity. *)
Theorem services_match_upstream fuel sessions e t ls i v :
  start cfg fuel sessions = Done (e, t, ls) → Connected i v ∈ ls →
  ∃ u p, config_upstreams cfg !! i = Some u ∧
    sv1_identity v = Some (config_identity u) ∧
    expected_payout_distribution (channel_manager v) = Some p ∧
    Payout.expected_payout_distribution (verify_payout cfg) (config_identity u) = Ok p.
Proof.
  intros Hst Hin. destruct (start_spec fuel sessions) as (?&?&?& Hst' & (i' & k & [_ _ Hv]) & _).
  rewrite Hst in Hst'. simplify_eq. apply (proj1 (Forall_forall _ _) Hv) in Hin as (u & p & Hu & Hp & ->).
  exists u, p. split_and!; [done..|]. unfold payout_mode in Hp.
  by destruct (Payout.expected_payout_distribution _ _); simplify_eq.
Qed.

Lemma first_success_unique net c len j m j' m' :
  first_success net c len j m → first_success net c len j' m' → (j, m) = (j', m').
Proof.
  intros (Ht & Hok & Hf) (Ht' & Hok' & Hf').
  destruct (decide (key_lt (j, m) (j', m'))) as [Hlt|Hge]; [by destruct (Hf' _ Ht Hlt)|].
  destruct (decide (key_lt (j', m') (j, m))) as [Hlt|Hge']; [by destruct (Hf _ Ht' Hlt)|].
  unfold key_lt in *. simpl in *. f_equal; lia.
Qed.

(** C8: While nobody asks for a shutdown, a search from upstream [c] on
    connects to the first attempt that succeeds, after three failed attempts at
    every upstream before it and none at any other; if no attempt succeeds it
    fails after exactly three attempts at each. *)
Theorem first_answering_upstream net c s :
  search c 0 s → (c ≤ length (upstream_addresses s))%nat → calm s →
  (∀ j m, quiet (net j m)) → extensions_fit → (∀ j, payable j) →
  (∀ j m, first_success net c (length (upstream_addresses s)) j m →
     ∃ s', initialize_upstream cfg net s = Done (Ok tt, s') ∧ calm s' ∧
       cursor (S j) (upstream_addresses s') ∧
       keys (logged s') = keys (logged s) ++ rounds c j ++ tries j (seq 1 m) ++ [(j, 4)%nat]) ∧
  ((∀ x, in_turn c (length (upstream_addresses s)) x → ¬ succeeds (net x.1 x.2)) →
     ∃ e s', initialize_upstream cfg net s = Done (Err e, s') ∧ kind e = CouldNotInitiateSystem ∧
       keys (logged s') = keys (logged s) ++ rounds c (length (upstream_addresses s))).
Proof.
  intros Hs Hc Hcalm Hnet Hext Hpay.
  destruct (twp_done _ _ _ (initialize_spec net c s Hc Hs)) as (r & s' & -> & _ & _ & Hout).
  specialize (Hout Hcalm Hnet Hext). destruct r as [[]|e]; simpl in Hout.
  - destruct Hout as (Hcalm' & j & m & Hfirst & Hcur & Hk). split.
    + intros j' m' Hfirst'. pose proof (first_success_unique _ _ _ _ _ _ _ Hfirst Hfirst') as [= <- <-].
      by exists s'.
    + intros Hnone. destruct Hfirst as (Ht & Hok & _). by destruct (Hnone _ Ht).
  - destruct Hout as [(He & Hnone & Hk)|(j & _ & Hp)]; [|by destruct (Hp (Hpay j))]. split.
    + intros j m (Ht & Hok & _). by destruct (Hnone _ Ht).
    + intros _. by exists e, s'.
Qed.
End failover.
