(* ===== verification/TproxyRuntimeExamples.v ===== *)
(** * The translator's failover: a run

    Two upstreams; the first answers the third attempt, the second the first,
    and both connections are lost.  The theorems of [TproxyFailover] and
    [Connection] at this run. *)
From S2P Require Import Prelude Handler Bitcoin Payout Fallback Setup JdClient ClientChannels TproxyManager TproxyExamples Connection TproxyRuntime TproxyFailover.

Module TproxyRuntimeExamples.
#[local] Existing Instance PayoutExamples.outputs_api.
#[local] Existing Instance PayoutExamples.demo_addresses.
#[local] Existing Instance TproxyExamples.toy.
#[local] Existing Instance SetupExamples.spec_types.

(** A payload parses or not. *)
#[export] Instance common : CommonMessages := {|
  Payload := bool;
  dispatch_common _ ty parses :=
    if parses : bool then
      match ty with
      | 1 => Ok SetupConnectionSuccess
      | 2 => Ok SetupConnectionErrorMessage
      | 3 => Ok ChannelEndpointChanged
      | 4 => Ok Reconnect
      | _ => Err NotExpected
      end
    else Err NotParsed;
|}.

#[export] Instance common_laws : CommonMessagesLaws.
Proof.
  split.
  - intros ext ty p m Hm. simpl in Hm. destruct p; [|done].
    destruct ty as [|[[[]|[]|]|[[]|[]|]|]]; simplify_eq; done.
  - apply (bool_decide_unpack _). vm_compute. exact I.
Qed.

Definition upstream (identity : string) : ConfigUpstream :=
  {| address := "pool"; config_port := 34254; config_pubkey := []; config_identity := identity |}.

Definition config : TranslatorConfig :=
  {| config_upstreams := [upstream "sri/donate/5/bc1miner/rig"; upstream "sri/donate/5/bc1miner/spare"];
     address_parses := true; verify_payout := true; required_extensions := [2];
     monitoring_address := false |}.

Definition answering : Attempt :=
  {| dial := {| entry_shutdown := false; resolved := true; tcp := TcpConnected;
                noise_shutdown := false; noise := NoiseReady |};
     setup_shutdown := false;
     exchange := {| takes_setup := true;
                    answer := Some {| ext_type := 0; msg_type := 1; payload := true |};
                    takes_extensions := true |} |}.

Definition refusing : Attempt :=
  {| dial := {| entry_shutdown := false; resolved := true; tcp := TcpRefused;
                noise_shutdown := false; noise := NoiseReady |};
     setup_shutdown := false; exchange := exchange answering |}.

Definition net (i k : nat) : Attempt :=
  if decide ((i, k) = (0, 1) ∨ (i, k) = (0, 2))%nat then refusing else answering.

(** Every session ends with a lost connection. *)
Definition session : Session :=
  {| attempts := net; sv1_server_starts := true; monitoring_starts := true;
     ending := Some (Cancels false true) |}.

Definition run (fuel : nat) := start config fuel (λ _, session).

Definition log_of (r : rust (option Ended * Translator * list LogLine)) : list LogLine :=
  match r with Done (_, _, ls) => ls | Panic => [] end.

Example run_keys :
  keys key (log_of (run 2)) = [(0, 1); (0, 2); (0, 3); (0, 4); (1, 1); (1, 4)]%nat.
Proof. vm_compute. reflexivity. Qed.

(** Pools that are gone are not tried again: the translator stops. *)
Example run_stops :
  match run 2 with
  | Done (e, t, _) => (e, t)
  | Panic => (None, {| cancelled := false; is_alive := true |})
  end = (Some (Stopped (Err CouldNotInitiateSystem)), {| cancelled := true; is_alive := false |}).
Proof. vm_compute. reflexivity. Qed.

(** The log of [run 2]. *)
Definition run_log : list LogLine := Eval vm_compute in log_of (run 2).

Lemma run_done :
  start config 2 (λ _, session) =
  Done (Some (Stopped (Err CouldNotInitiateSystem)), {| cancelled := true; is_alive := false |}, run_log).
Proof. vm_cast_no_check (eq_refl (start config 2 (λ _, session))). Qed.

Lemma upstreams_tried_in_order_witness :
  StronglySorted key_lt (keys key run_log) ∧
  (∀ i k, Attempting i k ∈ run_log → (i < 2 ∧ 1 ≤ k ≤ 3)%nat).
Proof. exact (upstreams_tried_in_order config 2 (λ _, session) _ _ run_log run_done). Defined.

Lemma failover_ends_witness :
  ∃ e t ls, start config 2 (λ _, session) = Done (Some e, t, ls) ∧
    (e = StillRunning ∨ (∃ r, e = Stopped r ∧ t = {| cancelled := true; is_alive := false |}) ∨
     e = Aborted ∧ ∃ _ : nat, ending session = Some Aborts).
Proof. exact (failover_ends config (λ _, session)). Defined.

(** What the second upstream's services were told. *)
Definition run_services : Services := Eval vm_compute in
  match run_log !! 9%nat with Some (Connected _ v) => v | _ => new_services end.

Lemma services_match_upstream_witness :
  ∃ u p, config_upstreams config !! 1%nat = Some u ∧
    sv1_identity run_services = Some (config_identity u) ∧
    expected_payout_distribution (channel_manager run_services) = Some p ∧
    Payout.expected_payout_distribution (verify_payout config) (config_identity u) = Ok p.
Proof.
  apply (services_match_upstream config 2 (λ _, session) _ _ run_log 1 run_services run_done).
  apply (list_elem_of_lookup_2 _ 9). reflexivity.
Defined.

(** The start of the run. *)
Definition begun : Runtime :=
  {| translator := {| cancelled := false; is_alive := true |};
     fallback_coordinator := new_coordinator;
     upstream_addresses := upstream_entry <$> config_upstreams config;
     services := new_services; logged := [] |}.

Lemma net_quiet j m : quiet (net j m).
Proof. unfold net. by case_decide. Qed.

Lemma refusing_fails : ¬ succeeds config refusing.
Proof. by intros [(_ & ? & _) _]. Qed.

Lemma answering_succeeds : succeeds config answering.
Proof.
  split; [done|]. split; [split; [done|]; eexists; by split_and!|]. right. by split.
Qed.

Lemma third_is_first : first_success config net 0 2 0 3.
Proof.
  split; [unfold in_turn, TproxyRuntime.MAX_RETRIES; simpl; lia|]. split; [exact answering_succeeds|].
  intros [i k] [??] Hlt. unfold key_lt in Hlt. simpl in *.
  assert (net i k = refusing) as ->; [|exact refusing_fails].
  unfold net. rewrite decide_True; [done|]. destruct k as [|[|[|]]]; [lia|left|right|lia]; f_equal; lia.
Qed.

Lemma first_answering_upstream_witness :
  ∃ s', initialize_upstream config net begun = Done (Ok tt, s') ∧ calm s' ∧
    cursor config 1 (upstream_addresses s') ∧
    keys key (logged s') = [(0, 1); (0, 2); (0, 3); (0, 4)]%nat.
Proof.
  destruct (first_answering_upstream config net 0 begun) as [Hfirst _];
    [apply start_search; reflexivity|simpl; lia|by split|exact net_quiet|reflexivity| |].
  - intros [|[|j]] u Hu; [injection Hu as <-..|done]; exists (Some PayoutExamples.demo_mode); reflexivity.
  - exact (Hfirst 0%nat 3%nat third_is_first).
Defined.

(** Frames: a job, an unreadable message, a request to reconnect. *)
Definition frame (ty : N) (parses : bool) : Frame :=
  {| ext_type := 0; msg_type := ty; payload := parses |}.
Definition connected : Task :=
  {| tokens := {| cancellation := false; fallback_token := false |}; manager_listens := true;
     to_manager := []; to_server := [] |}.

Lemma frames_delivered_witness :
  proxy_run_upstream_task ((λ f, FromServer (Some f)) <$> [frame 0x1f true; frame 0x01 false]) connected =
    Done (Continue, delivered [frame 0x1f true; frame 0x01 false] connected) ∧
  proxy_run_upstream_task
    ((λ f, FromServer (Some f)) <$> [frame 0x1f true; frame 0x01 false; frame 0x04 true]) connected = Panic.
Proof.
  destruct (frames_delivered [frame 0x1f true; frame 0x01 false] connected) as [Hrun Hnext];
    [by split|by repeat constructor|].
  split; [exact Hrun|]. exact (Hnext (frame 0x04 true) [] eq_refl).
Defined.
End TproxyRuntimeExamples.
