(* ===== verification/JdcRuntime.v ===== *)
(** * The JD client's runtime
    ([miner-apps/jd-client/src/lib/jdc_runtime.rs], [lib/mod.rs];
    [channel_manager/mod.rs]: [ChannelManager::new], [start])

    From start-up to exit: the template provider, the pair of pool and JD
    server the client works for, mining alone when there is none, and what
    happens when a connection is lost.  The network and the tasks of a session
    are arguments (see [Connection]); the tasks' own work is in [JdcSystem]. *)
From S2P Require Import Prelude Handler SharedMap Bitcoin Fallback JobDeclarator Setup ShareCache ServerChannels ShareForward JdClient JdcManager Connection.

Definition MAX_RETRIES : nat := 3.

Section runtime.
Context `{B : BitcoinApi} `{CS : ChannelsSv2} `{!JdcChannels} `{MT : MessageTypes} `{CM : CommonMessages}.
Context (txout_size : TxOut → N) (coinbase_sigop_cost : list TxOut → N)
  (allow_full_template_mode : N → N) (frame_fits : SetCustomMiningJob → bool)
  (extranonce_allocator_new : list byte → N → N →
     result ExtranonceAllocator ExtranonceAllocatorError).

(** ** What a session meets *)

(** One attempt at a pair of servers: whether a shutdown is requested before
    it, how dialling each goes, and whether one is requested in the second
    after a failure. *)
Record Attempt : Type := {
  attempt_shutdown : bool; pool_dial : Dial; jds_dial : Dial; retry_shutdown : bool;
}.

(** The second before each upstream, the attempts, the set-up with each
    server of the connected pair; whether the template provider's channel, the
    monitoring server and the miners' listener work; how the session's tasks
    end it ([None]: it goes on for ever), such as a panic of the channel
    manager. *)
Record Session : Type := {
  waiting_shutdown : nat → bool;
  attempts : nat → nat → Attempt;
  pool_exchange : nat → Exchange;
  jds_exchange : nat → Exchange;
  tp_listens : bool;
  monitoring_starts : bool;
  listener_binds : bool;
  ending : option SessionEnd;
}.

(** How the template provider starts: a failure of the SV2 connection, or of
    finding Bitcoin Core's socket. *)
Inductive TemplateProviderType : Type :=
| Sv2Tp (failure : option ErrorKind)
| BitcoinCoreIpc (socket_path : bool).

(** ** State *)
Record UpstreamEntry : Type := {
  pool_host : string; pool_port : N; jds_host : string; jds_port : N;
  authority_pubkey : list byte; tried_or_flagged : bool; entry_identity : string;
}.

Record ConfigUpstream : Type := {
  config_pool_address : string; config_pool_port : N;
  config_jds_address : string; config_jds_port : N;
  config_pubkey : list byte; config_identity : string;
}.

(** The parts of [JobDeclaratorClientConfig] the runtime reads. *)
Record JobDeclaratorClientConfig : Type := {
  jdc_mode : ConfigJDCMode;
  config_upstreams : list ConfigUpstream;
  get_txout : TxOut;
  config_min_supported_version : N;
  config_max_supported_version : N;
  required_extensions : list N;
  monitoring_address : bool;
  template_provider : TemplateProviderType;
  max_past_jobs : option N;
}.

(** [JobDeclaratorClient]: the cancellation token and [is_alive]. *)
Record JobDeclaratorClient : Type := { cancelled : bool; is_alive : bool }.

(** The channel manager with the identity in its [OnceLock]. *)
Record Manager : Type := { channel_manager : ChannelManager; manager_identity : option string }.

Inductive LogLine : Type :=
| Attempting (upstream attempt : nat)
| Sent (message : SetupSent)
| MiningFor (upstream : nat)
| MiningSolo.

(** [JdcRuntime]; [bitcoin_core_sv2] says whether the thread runs. *)
Record Runtime : Type := {
  mode : JDMode;
  fallback_coordinator : FallbackCoordinator;
  bitcoin_core_sv2 : bool;
  jd_client : JobDeclaratorClient;
  upstream_addresses : list UpstreamEntry;
  manager : option Manager;
  logged : list LogLine;
}.

Definition eta_runtime (s : Runtime) : Runtime :=
  {| mode := mode s; fallback_coordinator := fallback_coordinator s;
     bitcoin_core_sv2 := bitcoin_core_sv2 s; jd_client := jd_client s;
     upstream_addresses := upstream_addresses s; manager := manager s; logged := logged s |}.
Implicit Types (s : Runtime).
Definition put_mode v s : Runtime := ltac:(update_field eta_runtime mode v s).
Definition put_coordinator v s : Runtime :=
  ltac:(update_field eta_runtime fallback_coordinator v s).
Definition put_bitcoin_core v s : Runtime := ltac:(update_field eta_runtime bitcoin_core_sv2 v s).
Definition put_client v s : Runtime := ltac:(update_field eta_runtime jd_client v s).
Definition put_upstreams v s : Runtime := ltac:(update_field eta_runtime upstream_addresses v s).
Definition put_manager v s : Runtime := ltac:(update_field eta_runtime manager v s).
Definition put_log v s : Runtime := ltac:(update_field eta_runtime logged v s).

Definition write (l : LogLine) s : Runtime := put_log (logged s ++ [l]) s.
Definition request_shutdown (c : bool) s : Runtime :=
  put_client {| cancelled := c; is_alive := is_alive (jd_client s) |} s.

Definition step (A : Type) : Type := prog Runtime Error A.

(** Code that looks at the cancellation token only, or at the mode only. *)
Definition with_token {A} (p : prog bool Error A) : step A := λ s,
  match p (cancelled (jd_client s)) with
  | Done (r, c) => Done (r, request_shutdown c s)
  | Panic => Panic
  end.
Definition with_mode {A} (p : prog JDMode Error A) : step A := λ s,
  match p (mode s) with
  | Done (r, m) => Done (r, put_mode m s)
  | Panic => Panic
  end.

(** Code that uses the channel manager. *)
Definition with_manager {A} (p : prog Manager Error A) : step A := λ s,
  match manager s with
  | None => Panic
  | Some v => match p v with
              | Done (r, v') => Done (r, put_manager (Some v') s)
              | Panic => Panic
              end
  end.

(** The two tokens, and [handle_error_action] on them. *)
Definition tokens_of s : Tokens :=
  {| cancellation := cancelled (jd_client s); fallback_token := signal (fallback_coordinator s) |}.
Definition put_tokens_of (t : Tokens) s : Runtime :=
  request_shutdown (cancellation t)
    (put_coordinator {| signal := fallback_token t;
                        pending_tasks := pending_tasks (fallback_coordinator s);
                        permit := permit (fallback_coordinator s) |} s).
Definition react (e : Error) : step unit :=
  update (λ s, put_tokens_of (handle_error_action e (tokens_of s)).2 s).

(** ** Start-up *)
Context (cfg : JobDeclaratorClientConfig).

Definition upstream_entry (u : ConfigUpstream) : UpstreamEntry :=
  {| pool_host := config_pool_address u; pool_port := config_pool_port u;
     jds_host := config_jds_address u; jds_port := config_jds_port u;
     authority_pubkey := config_pubkey u; tried_or_flagged := false;
     entry_identity := config_identity u |}.

(** [JdcRuntime::new]; encoding the outputs into a vector does not fail. *)
Definition runtime_new : Runtime :=
  {| mode := new_mode (jdc_mode cfg); fallback_coordinator := new_coordinator;
     bitcoin_core_sv2 := false; jd_client := {| cancelled := false; is_alive := true |};
     upstream_addresses := upstream_entry <$> config_upstreams cfg; manager := None;
     logged := [] |}.

(** The templates the Bitcoin Core backend is told to keep. *)
Definition max_same_tip_templates : option N :=
  match max_past_jobs cfg with
  | Some jobs => if (0 <? jobs)%N then Some (N.min (jobs + 1) u64_max) else None
  | None => None
  end.

(** [bootstrap_template_provider]. *)
Definition bootstrap_template_provider : step unit :=
  match template_provider cfg with
  | Sv2Tp (Some failure) => raise (shutdown failure)
  | Sv2Tp None => update (put_bitcoin_core false)
  | BitcoinCoreIpc false => raise (shutdown InvalidBitcoinDataDir)
  | BitcoinCoreIpc true => update (put_bitcoin_core true)
  end.

(** [ChannelManager::new]. *)
Definition channel_manager_new (outputs : list byte) (tp_open : bool)
    : result ChannelManager Error :=
  match extranonce_allocator_new [] SOLO_FULL_EXTRANONCE_SIZE JDC_MAX_CHANNELS with
  | Err _ => Err (shutdown Connection.ChannelSv2)
  | Ok allocator =>
      Ok {| client := {| downstream := ∅; vardiff := ∅; sequence_number_factory := 1;
                         last_new_prev_hash := None; allocate_tokens := [];
                         last_declare_job_store := ∅; template_id_to_upstream_job_id := ∅;
                         downstream_channel_id_and_job_id_to_template_id := ∅;
                         coinbase_outputs := outputs; upstream_channel := None;
                         job_factory := None; cached_shares := ∅ |};
            extranonce_allocator := allocator; request_id_factory := 0;
            downstream_id_factory := 0; last_future_template := None; template_store := ∅;
            pending_downstream_requests := []; server_extensions := [];
            upstream_state := upstream_new SoloMiningState;
            channel_manager_io :=
              {| io := {| upstream_open := true; jd_open := true; tp_open := tp_open |};
                 downstream_sender := ∅; closed := ∅; sent := [] |} |}
  end.

(** [bootstrap_channel_manager]. *)
Definition bootstrap_channel_manager (x : Session) : step unit :=
  m ← ok_or_raise (channel_manager_new (serialize_outputs [get_txout cfg]) (tp_listens x)) id;
  update (put_manager (Some {| channel_manager := m; manager_identity := None |})).

(** ** Finding a pool and a JD server *)

(** [try_initialize_single]; other actions than a shutdown become a fallback. *)
Definition as_client_error (e : Error) : Error :=
  match action e with Connection.Shutdown => shutdown (kind e) | _ => fallback (kind e) end.

Definition try_initialize_single (a : Attempt) : step unit :=
  map_err as_client_error (with_token (client_upstream_new (pool_dial a)));;
  map_err as_client_error (with_token (job_declarator_new (jds_dial a))).

Definition flag_upstream (i : nat) s : Runtime :=
  put_upstreams
    (alter (λ e, {| pool_host := pool_host e; pool_port := pool_port e; jds_host := jds_host e;
                    jds_port := jds_port e; authority_pubkey := authority_pubkey e;
                    tried_or_flagged := true; entry_identity := entry_identity e |})
       i (upstream_addresses s)) s.

(** [return Err(CouldNotInitiateSystem)] once a shutdown is requested. *)
Definition unless_shutdown (now : bool) : step unit :=
  stopping ← with_token (look now);
  if stopping : bool then raise (shutdown CouldNotInitiateSystem) else mret tt.

(** The attempts at one pair; the result says whether one succeeded. *)
Fixpoint try_attempts (net : nat → Attempt) (i : nat) (numbers : list nat) : step bool :=
  match numbers with
  | [] => mret false
  | k :: rest =>
      unless_shutdown (attempt_shutdown (net k));;
      update (write (Attempting i k));;
      r ← attempt (try_initialize_single (net k));
      match r with
      | Ok tt => update (flag_upstream i);; mret true
      | Err e =>
          unless_shutdown (retry_shutdown (net k));;
          if is_shutdown (action e) then raise e else try_attempts net i rest
      end
  end.

(** [initialize_jd]: the index of the connected pair. *)
Fixpoint try_upstreams (x : Session) (indices : list nat) : step nat :=
  match indices with
  | [] => raise (shutdown CouldNotInitiateSystem)
  | i :: rest =>
      o ← ask (λ s, upstream_addresses s !! i);
      entry ← some_or_crash o;
      unless_shutdown (waiting_shutdown x i);;
      if tried_or_flagged entry then try_upstreams x rest
      else
        connected ← try_attempts (attempts x i) i (seq 1 MAX_RETRIES);
        if connected : bool then mret i
        else update (flag_upstream i);; try_upstreams x rest
  end.

Definition initialize_jd (x : Session) : step nat :=
  upstream_len ← ask (λ s, length (upstream_addresses s));
  try_upstreams x (seq 0 upstream_len).

(** ** Setting up a connected pair *)

(** [close] of a connection: the manager's messages to it have no receiver. *)
Definition close_with (f : JdClient.Io → JdClient.Io) : step unit :=
  with_manager (update (λ v,
    let m := channel_manager v in let cio := channel_manager_io m in
    {| channel_manager :=
         put_io {| io := f (io cio); downstream_sender := downstream_sender cio;
                   closed := closed cio; sent := sent cio |} m;
       manager_identity := manager_identity v |})).
Definition close_upstream : step unit :=
  close_with (λ o, {| upstream_open := false; jd_open := jd_open o; tp_open := tp_open o |}).
Definition close_declarator : step unit :=
  close_with (λ o, {| upstream_open := upstream_open o; jd_open := false; tp_open := tp_open o |}).

(** [Upstream::start]: an error of the set-up only shows in the tokens. *)
Definition upstream_start (x : Exchange) : step unit :=
  r ← attempt (client_setup_connection (λ m, write (Sent m)) (config_min_supported_version cfg)
                 (config_max_supported_version cfg) (required_extensions cfg) x);
  match r with
  | Ok tt => mret tt
  | Err e => react e;; close_upstream
  end.

(** [JobDeclarator::start]. *)
Definition job_declarator_start (x : Exchange) : step unit :=
  r ← attempt (with_mode (declarator_setup_connection allow_full_template_mode x));
  match r with
  | Ok tt => mret tt
  | Err e => react e;; close_declarator
  end.

(** [ChannelManager::set_user_identity]: a second identity panics. *)
Definition set_user_identity (identity : string) : prog Manager Error unit :=
  old ← ask manager_identity;
  match old with
  | Some _ => crash
  | None => update (λ v, {| channel_manager := channel_manager v;
                            manager_identity := Some identity |})
  end.

Definition set_upstream_state (st : UpstreamState) : prog Manager Error unit :=
  update (λ v, {| channel_manager :=
                    put_upstream_state (upstream_set (upstream_state (channel_manager v)) st)
                      (channel_manager v);
                  manager_identity := manager_identity v |}).

(** [_ = allocate_tokens(2).await]. *)
Definition allocate_two_tokens : prog Manager Error unit := λ v,
  match request_tokens (manager_identity v) frame_fits 2 (channel_manager v) with
  | Done (_, m) => Done (Ok tt, {| channel_manager := m; manager_identity := manager_identity v |})
  | Panic => Panic
  end.

(** [try_upstream]. *)
Definition try_upstream (x : Session) : step unit :=
  us ← ask upstream_addresses;
  match us with
  | [] => raise (shutdown (NoUpstreamConfig (jdc_mode cfg)))
  | _ =>
      i ← initialize_jd x;
      o ← ask (λ s, upstream_addresses s !! i);
      entry ← some_or_crash o;
      upstream_start (pool_exchange x i);;
      job_declarator_start (jds_exchange x i);;
      with_manager (set_user_identity (entry_identity entry));;
      with_manager (set_upstream_state NoChannel);;
      with_manager allocate_two_tokens;;
      update (write (MiningFor i))
  end.

(** [into_solo_mining]. *)
Definition into_solo_mining : step unit :=
  update (write MiningSolo);;
  update (λ s, put_mode (set_solo_mining (mode s)) s).

(** [coinbase_output_constraints], the first thing [ChannelManager::start] does. *)
Definition coinbase_output_constraints : prog Manager Error unit := λ v,
  let '(size, sigops) :=
    coinbase_output_constraints_message txout_size coinbase_sigop_cost [get_txout cfg] in
  match forward frame_fits (TemplateProvider (MsgCoinbaseOutputConstraints size sigops))
          (channel_manager_io (channel_manager v)) with
  | (Ok _, cio) => Done (Ok tt, {| channel_manager := put_io cio (channel_manager v);
                                   manager_identity := manager_identity v |})
  | (Err _, _) => Done (Err (shutdown Connection.ChannelErrorSender), v)
  end.

(** [start_services] of both states. *)
Definition start_services (x : Session) : step unit :=
  ensure (negb (monitoring_address cfg) || monitoring_starts x) (shutdown MonitoringServerError);;
  with_manager coinbase_output_constraints;;
  ensure (listener_binds x) (shutdown Connection.Io).

(** [bootstrap_mining]. *)
Definition bootstrap_mining (x : Session) : step unit :=
  bootstrap_channel_manager x;;
  if decide (jdc_mode cfg = SoloMining) then into_solo_mining;; start_services x
  else
    r ← attempt (try_upstream x);
    match r with
    | Ok tt => start_services x
    | Err e =>
        match kind e with
        | NoUpstreamConfig _ => raise e
        | _ => into_solo_mining;; start_services x
        end
    end.

(** ** The main loop *)
Inductive RuntimeEvent : Type := ShutdownEvent | FallbackEvent.

(** [wait]: the tokens the session's tasks have cancelled, shutdown first. *)
Definition wait (x : Session) s : option RuntimeEvent * Runtime :=
  match ending x with
  | None | Some Aborts => (None, s)
  | Some (Cancels c f) =>
      let s' := request_shutdown (cancelled (jd_client s) || c)
        (if f : bool then put_coordinator (trigger_cancel (fallback_coordinator s)) s else s) in
      (if cancelled (jd_client s') then Some ShutdownEvent
       else if signal (fallback_coordinator s') then Some FallbackEvent else None, s')
  end.

(** [shutdown]: the tokens, the thread of Bitcoin Core, the tasks, [mark_stopped]. *)
Definition shutdown_runtime s : Runtime :=
  put_bitcoin_core false (put_client {| cancelled := true; is_alive := false |} s).

(** [cleanup_for_fallback]: [trigger_fallback_and_wait] returns when the
    registered tasks have cleaned up ([Fallback]). *)
Definition cleanup_for_fallback s : Runtime :=
  put_coordinator new_coordinator (put_mode (set_solo_mining (mode s)) s).

Inductive Ended : Type := Stopped (r : result unit ErrorKind) | StillRunning | Aborted.

Definition failed (e : Error) s : option Ended * Runtime :=
  (Some (Stopped (Err (kind e))), shutdown_runtime s).

(** The loop of [JobDeclaratorClient::start]; session [n] is running. *)
Fixpoint start_loop (fuel : nat) (sessions : nat → Session) (n : nat) (s : Runtime)
    : rust (option Ended * Runtime) :=
  match fuel with
  | O => Done (None, s)
  | S fuel =>
      if decide (ending (sessions n) = Some Aborts) then Done (Some Aborted, s) else
      let '(event, s) := wait (sessions n) s in
      match event with
      | None => Done (Some StillRunning, s)
      | Some ShutdownEvent => Done (Some (Stopped (Ok tt)), shutdown_runtime s)
      | Some FallbackEvent =>
          '(r, s) ← bootstrap_mining (sessions (S n)) (cleanup_for_fallback s);
          match r with
          | Ok tt => start_loop fuel sessions (S n) s
          | Err e => Done (failed e s)
          end
      end
  end.

(** [JobDeclaratorClient::start]. *)
Definition start (fuel : nat) (sessions : nat → Session) : rust (option Ended * Runtime) :=
  '(r, s) ← (bootstrap_template_provider;; bootstrap_mining (sessions 0%nat)) runtime_new;
  match r with
  | Ok tt => start_loop fuel sessions 0 s
  | Err e => Done (failed e s)
  end.
End runtime.
