(* ===== verification/JdcFailover.v ===== *)
(** * The JD client's failover: proofs

    What a run of [JdcRuntime.start] does with the list of pools and JD
    servers: [cursor] and [history] as in [TproxyFailover], what a session
    that has begun knows of its servers, and that the client goes on mining
    whatever becomes of them. *)
From S2P Require Import Prelude Handler SharedMap Bitcoin Fallback JobDeclarator Setup ShareCache ServerChannels ShareForward JdClient JdcManager Connection JdcRuntime.

Section failover.
Context `{B : BitcoinApi} `{CS : ChannelsSv2} `{!JdcChannels} `{MT : MessageTypes}
  `{CM : CommonMessages} `{CL : !CommonMessagesLaws}.
Context (txout_size : TxOut → N) (coinbase_sigop_cost : list TxOut → N)
  (allow_full_template_mode : N → N) (frame_fits : SetCustomMiningJob → bool)
  (extranonce_allocator_new : list byte → N → N →
     result ExtranonceAllocator ExtranonceAllocatorError).
Context (cfg : JobDeclaratorClientConfig).
Implicit Types (s : Runtime) (l : LogLine).

(** Attempt [k] at pair [i] is [(i, k)], and mining for it [(i, 4)]. *)
Definition key (l : LogLine) : option (nat * nat) :=
  match l with
  | Attempting i k => Some (i, k)
  | MiningFor i => Some (i, 4)%nat
  | Sent _ | MiningSolo => None
  end.

Definition fine (l : LogLine) : Prop :=
  match l with
  | Attempting i k => (i < length (config_upstreams cfg) ∧ 1 ≤ k ≤ MAX_RETRIES)%nat
  | MiningFor i => (i < length (config_upstreams cfg))%nat
  | Sent _ | MiningSolo => True
  end.

#[local] Notation keys := (keys key).
#[local] Notation history := (history key fine).

(** The pairs before [c] are spent, and all are those of the configuration. *)
Record cursor (c : nat) (us : list UpstreamEntry) : Prop := {
  cu_flags : ∀ j e, us !! j = Some e → tried_or_flagged e = bool_decide (j < c)%nat;
  cu_config : entry_identity <$> us = config_identity <$> config_upstreams cfg;
}.

Lemma cursor_length c us : cursor c us → length us = length (config_upstreams cfg).
Proof. intros [_ Hc]. apply (f_equal length) in Hc. by rewrite !length_fmap in Hc. Qed.

Lemma cursor_entry c us i :
  cursor c us → (i < length (config_upstreams cfg))%nat →
  ∃ u e, config_upstreams cfg !! i = Some u ∧ us !! i = Some e ∧ config_identity u = entry_identity e.
Proof.
  intros [_ Hc] Hi. pose proof (f_equal (.!! i) Hc) as Hm. simpl in Hm.
  destruct (lookup_lt_is_Some_2 (config_upstreams cfg) i Hi) as [u Hu].
  rewrite !list_lookup_fmap, Hu in Hm. destruct (us !! i) as [e|]; [|done].
  exists u, e. split_and!; [done..|]. simpl in Hm. congruence.
Qed.

Lemma pair_cursor_flag i s :
  cursor i (upstream_addresses s) → cursor (S i) (upstream_addresses (flag_upstream i s)).
Proof.
  intros [Hf Hc]. unfold flag_upstream. cbn [upstream_addresses put_upstreams]. split.
  - intros j e. destruct (decide (i = j)) as [->|Hne].
    + rewrite list_lookup_alter_eq. destruct (_ !! j); [|done]. intros [= <-]. simpl.
      symmetry. apply bool_decide_true. lia.
    + rewrite list_lookup_alter_ne by done. intros ->%Hf. apply bool_decide_ext. lia.
  - rewrite <-Hc. apply list_eq. intros j. rewrite !list_lookup_fmap.
    destruct (decide (i = j)) as [->|]; [|by rewrite list_lookup_alter_ne].
    rewrite list_lookup_alter_eq. by destruct (_ !! j).
Qed.

(** The log of a run is in order. *)
Definition logged_well s : Prop := ∃ i k, history i k (logged s).

(** A search is over, with the pairs before [c] spent; or it was given up
    because a shutdown was requested. *)
Definition rested s : Prop :=
  (∃ c, (c ≤ length (config_upstreams cfg))%nat ∧ cursor c (upstream_addresses s) ∧
        history c 0 (logged s)) ∨
  (cancelled (jd_client s) = true ∧ logged_well s).

(** ** The search *)

(** What a search leaves alone. *)
Record searched s s' : Prop := {
  sd_manager : manager s' = manager s;
  sd_mode : mode s' = mode s;
  sd_coordinator : fallback_coordinator s' = fallback_coordinator s;
  sd_core : bitcoin_core_sv2 s' = bitcoin_core_sv2 s;
  sd_cancelled : cancelled (jd_client s) = true → cancelled (jd_client s') = true;
}.

#[local] Instance searched_preorder : PreOrder searched.
Proof.
  split; [done|]. intros s1 s2 s3 [] []. split; try congruence. by auto.
Qed.

(** A server that can be dialled; an attempt at a pair both of whose servers
    can; a pair that one of the three attempts reaches. *)
Definition dials (d : Dial) : Prop :=
  resolved d = true ∧ tcp d = TcpConnected ∧ noise d = NoiseReady.
Definition connects (a : Attempt) : Prop := dials (pool_dial a) ∧ dials (jds_dial a).
Definition pair_answers (x : Session) (i : nat) : Prop :=
  ∃ k, (1 ≤ k ≤ MAX_RETRIES)%nat ∧ connects (attempts x i k).

(** The result of dialling, unless a shutdown is requested. *)
Definition dialled (P : Prop) (r : result unit Error) (c' : bool) : Prop :=
  match r with
  | Ok _ => P
  | Err e => if is_shutdown (action e) then c' = true else ¬ P
  end.

Lemma connect_shutdown k d c :
  twp (connect k d) (λ r c', (c = true → c' = true) ∧ dialled (dials d) r c') c.
Proof.
  unfold connect, dials. destruct d as [e r t n o]; simpl.
  destruct c, r, t, n, o; vm_compute; split; try done; by intros (? & ? & ?).
Qed.

Lemma twp_client_token {A} (p : prog bool Error A) (Q : result A Error → Runtime → Prop) s :
  twp p (λ r c, Q r (request_shutdown c s)) (cancelled (jd_client s)) → twp (with_token p) Q s.
Proof. unfold twp, with_token. by destruct (p _) as [[r c]|]. Qed.

Lemma client_error_shutdown e :
  is_shutdown (action (as_client_error e)) = is_shutdown (action e).
Proof. unfold as_client_error. by destruct (action e). Qed.

(** Dialling only looks at the token; it asks for a shutdown only if one was
    requested. *)
Lemma single_pair_spec a s :
  twp (try_initialize_single a) (λ r s',
    searched s s' ∧ upstream_addresses s' = upstream_addresses s ∧ logged s' = logged s ∧
    dialled (connects a) r (cancelled (jd_client s'))) s.
Proof.
  unfold try_initialize_single, client_upstream_new, job_declarator_new, connects. twp_step.
  apply twp_map_err, twp_client_token. eapply twp_mono; [|apply connect_shutdown].
  intros [[]|e] c [Hc He].
  - apply twp_map_err, twp_client_token. eapply twp_mono; [|apply connect_shutdown].
    intros [[]|e] c' [Hc' He']; simpl in *; (split; [by split; simpl; auto|]);
      split_and!; try done.
    rewrite client_error_shutdown. destruct (is_shutdown _); [done|]. by intros [_ ?].
  - simpl in *. split; [by split|]. split_and!; try done.
    rewrite client_error_shutdown. destruct (is_shutdown _); [done|]. by intros [? _].
Qed.

Lemma unless_spec now s :
  twp (unless_shutdown now) (λ r s',
    searched s s' ∧ upstream_addresses s' = upstream_addresses s ∧ logged s' = logged s ∧
    match r with
    | Ok _ => cancelled (jd_client s') = false
    | Err e => e = shutdown CouldNotInitiateSystem ∧ cancelled (jd_client s') = true
    end) s.
Proof.
  unfold unless_shutdown. twp_step. apply twp_client_token. unfold look, twp at 1. simpl.
  assert (searched s (request_shutdown (cancelled (jd_client s) || now) s)) as Hs
    by (split; simpl; try done; by intros ->).
  by destruct (cancelled (jd_client s) || now).
Qed.

(** About to make attempt [k] at pair [i]. *)
Record search (i k : nat) s : Prop := {
  se_cursor : cursor i (upstream_addresses s);
  se_history : history i k (logged s);
}.

Lemma search_same i k s s' :
  upstream_addresses s' = upstream_addresses s → logged s' = logged s →
  search i k s → search i k s'.
Proof. intros Hu Hl [Hc Hh]. split; [by rewrite Hu|by rewrite Hl]. Qed.

Lemma search_pair_attempt i k s :
  (i < length (config_upstreams cfg))%nat → (1 ≤ k ≤ MAX_RETRIES)%nat → search i k s →
  search i (S k) (write (Attempting i k) s).
Proof.
  intros Hi Hk [Hc Hh]. split; [done|].
  eapply history_snoc; [exact Hh|done|unfold key_lt; simpl; lia|done].
Qed.

Lemma search_logged i k s : search i k s → logged_well s.
Proof. intros [_ Hh]. by eexists _, _. Qed.

Lemma given_up i k s s' :
  cancelled (jd_client s') = true → logged s' = logged s → search i k s → rested s'.
Proof. intros Hc Hl Hs. right. split; [done|]. destruct Hs as [_ Hh]. exists i, k. by rewrite Hl. Qed.

(** How a search fails. *)
Definition search_failed (e : Error) s : Prop :=
  kind e = CouldNotInitiateSystem ∧ cancelled (jd_client s) = true ∧ rested s.

Lemma pair_attempts_spec net i n k s :
  (k + n = 4)%nat → (1 ≤ k)%nat → (i < length (config_upstreams cfg))%nat → search i k s →
  twp (try_attempts net i (seq k n)) (λ r s', searched s s' ∧
    match r with
    | Ok true => cursor (S i) (upstream_addresses s') ∧ history i 4 (logged s') ∧
        ∃ m, (k ≤ m < 4)%nat ∧ connects (net m)
    | Ok false => search i 4 s' ∧ ∀ m, (k ≤ m < 4)%nat → ¬ connects (net m)
    | Err e => search_failed e s'
    end) s.
Proof.
  revert k s. induction n as [|n IH]; intros k s Hn Hk Hi Hs.
  { simpl. assert (k = 4)%nat as -> by lia. split; [done|]. split; [done|]. lia. }
  change (seq k (S n)) with (k :: seq (S k) n). cbn [try_attempts].
  twp_step. eapply twp_mono; [|apply unless_spec].
  intros [[]|e] s1 (Hk1 & Hu1 & Hl1 & H1).
  2: { destruct H1 as [-> Hc]. split; [done|]. split_and!; [done..|by eapply given_up]. }
  pose proof (search_same _ _ _ _ Hu1 Hl1 Hs) as Hs1.
  apply (search_pair_attempt i k) in Hs1; [|done|unfold MAX_RETRIES; lia].
  twp_step. apply twp_update. twp_step. apply twp_attempt.
  eapply twp_mono; [|apply single_pair_spec]. intros r s2 (Hk2 & Hu2 & Hl2 & He2). cbn beta iota.
  pose proof (search_same _ _ _ _ Hu2 Hl2 Hs1) as Hs2.
  assert (searched s s2) as Hk12 by (transitivity s1; [done|by destruct Hk2; split]).
  destruct r as [[]|e].
  - twp_step. apply twp_update. twp_step. destruct Hs2 as [Hc2 Hh2].
    split; [by destruct Hk12; split|]. split; [by apply pair_cursor_flag|].
    split; [|exists k; by split; [lia|]].
    eapply history_weaken; [exact Hh2|]. unfold key_lt. simpl. destruct n; [right; f_equal; lia|left; lia].
  - twp_step. eapply twp_mono; [|apply unless_spec].
    intros [[]|e'] s3 (Hk3 & Hu3 & Hl3 & H3).
    2: { destruct H3 as [-> Hc]. split; [by etrans|]. split_and!; [done..|by eapply given_up]. }
    simpl in He2. destruct (is_shutdown (action e)) eqn:He.
    { pose proof (sd_cancelled _ _ Hk3 He2). congruence. }
    eapply twp_mono; [|apply (IH (S k)); [lia|lia|done|by eapply search_same]].
    intros r s4 [Hk4 Hr]. split; [by transitivity s3; [transitivity s2|]|].
    destruct r as [[]|]; [| |done].
    + destruct Hr as (? & ? & m & ? & ?). split_and!; [done..|]. exists m. by split; [lia|].
    + destruct Hr as [? Hno]. split; [done|]. intros m Hm.
      destruct (decide (m = k)) as [->|]; [done|]. apply Hno. lia.
Qed.

(** Pair [j] is the first one from [c] on that answers; none does, or a shutdown
    was requested. *)
Definition first_pair (x : Session) (c j : nat) : Prop :=
  pair_answers x j ∧ ∀ i, (c ≤ i < j)%nat → ¬ pair_answers x i.
Definition no_pair (x : Session) (c : nat) s : Prop :=
  cancelled (jd_client s) = true ∨
  ∀ i, (c ≤ i < length (config_upstreams cfg))%nat → ¬ pair_answers x i.

Lemma pairs_spec x n i c s :
  (i + n = length (config_upstreams cfg))%nat → (i ≤ c ≤ length (config_upstreams cfg))%nat →
  search c 0 s →
  twp (try_upstreams x (seq i n)) (λ r s', searched s s' ∧
    match r with
    | Ok j => (c ≤ j < length (config_upstreams cfg))%nat ∧
        cursor (S j) (upstream_addresses s') ∧ history j 4 (logged s') ∧ first_pair x c j
    | Err e => kind e = CouldNotInitiateSystem ∧ rested s' ∧ no_pair x c s'
    end) s.
Proof.
  revert i c s. induction n as [|n IH]; intros i c s Hn Hi Hs.
  { simpl. twp_step. split; [done|]. split; [done|]. split; [|right; lia].
    left. exists c. destruct Hs. by split_and!; [lia|..]. }
  change (seq i (S n)) with (i :: seq (S i) n). cbn [try_upstreams]. do 2 twp_step. twp_step.
  pose proof (cursor_length _ _ (se_cursor _ _ _ Hs)) as Hlen.
  destruct (upstream_addresses s !! i) as [e|] eqn:He; [|by apply lookup_ge_None in He; lia].
  apply (twp_some_or_crash _ e _ _ eq_refl).
  twp_step. eapply twp_mono; [|apply unless_spec].
  intros [[]|e1] s1 (Hk1 & Hu1 & Hl1 & H1).
  2: { destruct H1 as [-> Hc]. split; [done|]. split; [done|]. split; [by eapply given_up|by left]. }
  pose proof (search_same _ _ _ _ Hu1 Hl1 Hs) as Hs1.
  rewrite (cu_flags _ _ (se_cursor _ _ _ Hs) _ _ He). case_bool_decide as Hc.
  { eapply twp_mono; [|apply (IH (S i) c); [lia|lia|done]]. intros r s2 [Hk2 Hr].
    split; [by etrans|done]. }
  assert (i = c)%nat as -> by lia.
  twp_step. eapply twp_mono; [|apply (pair_attempts_spec (attempts x c) c 3 1); [lia|lia|lia|]].
  2: { destruct Hs1. split; [done|]. eapply history_weaken; [done|]. left. unfold key_lt. simpl. lia. }
  intros [[]|e0] s2 [Hk2 H2].
  - destruct H2 as (? & ? & m & Hm & Hok). twp_step. split; [by etrans|]. split; [lia|].
    split_and!; [done..|]. split; [|lia]. exists m. split; [|done]. unfold MAX_RETRIES. lia.
  - twp_step. apply twp_update. destruct H2 as [[Hc2 Hh2] Hno].
    assert (¬ pair_answers x c) as Hnot.
    { intros (m & Hm & Hok). apply (Hno m); [|done]. unfold MAX_RETRIES in Hm. lia. }
    eapply twp_mono; [|apply (IH (S c) (S c) (flag_upstream c s2)); [lia|lia|]].
    + intros r s3 [Hk3 Hr]. split.
      { transitivity s2; [by etrans|]. by destruct Hk3; split. }
      destruct r as [j|].
      * destruct Hr as (? & ? & ? & ? & Hfirst). split; [lia|]. split_and!; [done..|].
        split; [done|]. intros i Hi'. destruct (decide (i = c)) as [->|]; [done|]. apply Hfirst. lia.
      * destruct Hr as (? & ? & Hnone). split_and!; [done..|].
        destruct Hnone as [|Hnone]; [by left|right]. intros i Hi'.
        destruct (decide (i = c)) as [->|]; [done|]. apply Hnone. lia.
    + split; [by apply pair_cursor_flag|]. eapply history_weaken; [exact Hh2|].
      left. unfold key_lt. simpl. lia.
  - split; [by etrans|]. destruct H2 as (? & ? & ?). split_and!; [done..|by left].
Qed.

(** ** Setting up a connected pair *)

(** What a set-up asks for when it fails; [None]: the server accepted. *)
Definition setup_failure (extensions : list N) (x : Exchange) : option Connection.Action :=
  if takes_setup x then
    match answer x with
    | None => Some Connection.Fallback
    | Some f =>
        if is_setup_answer f then
          match dispatch_common (ext_type f) (msg_type f) (payload f) with
          | Err _ => Some Connection.Log
          | Ok SetupConnectionSuccess =>
              if decide (extensions = []) then None
              else if fits_64k extensions
              then if takes_extensions x then None else Some Connection.Fallback
              else Some Connection.Shutdown
          | Ok _ => Some Connection.Fallback
          end
        else Some Connection.Fallback
    end
  else Some Connection.Fallback.

(** The result of a program that fails as [o] says. *)
Definition fails_as (o : option Connection.Action) (r : result unit Error) : Prop :=
  match o with None => r = Ok tt | Some a => ∃ e, r = Err e ∧ action e = a end.

Definition wrote s s' : Prop := ∃ ms, s' = put_log (logged s ++ (Sent <$> ms)) s.

Lemma wrote_refl s : wrote s s.
Proof. exists []. simpl. rewrite app_nil_r. by destruct s. Qed.
Lemma client_wrote_message m s s' : wrote s s' → wrote s (write (Sent m) s').
Proof.
  intros (ms & ->). exists (ms ++ [m]). unfold write. simpl. by rewrite fmap_app, assoc by apply _.
Qed.

Lemma client_setup_spec v1 v2 extensions x s :
  twp (client_setup_connection (λ m, write (Sent m)) v1 v2 extensions x)
    (λ r s', wrote s s' ∧ fails_as (setup_failure extensions x) r) s.
Proof.
  unfold client_setup_connection, exchange_setup, handle_common_frame, send_request_extensions,
    setup_failure, client_common, fails_as.
  pose proof (wrote_refl s) as Hw.
  destruct (takes_setup x); simpl; [|by split; [|eauto]].
  destruct (answer x) as [f|]; simpl; [|by split; [apply client_wrote_message|eauto]].
  unfold twp, mbind, prog_bind. simpl.
  destruct (is_setup_answer f) eqn:Hf; simpl; [|by split; [apply client_wrote_message|eauto]].
  destruct (dispatch_common _ _ _) as [m|[]] eqn:Hd; simpl;
    [|by split; [apply client_wrote_message|eauto]..].
  destruct (setup_answer_kind _ _ Hf Hd) as [-> | ->]; simpl;
    [|by split; [apply client_wrote_message|eauto]].
  destruct (decide (extensions = [])); simpl; [by split; [apply client_wrote_message|]|].
  destruct (fits_64k extensions); simpl; [|by split; [apply client_wrote_message|eauto]].
  destruct (takes_extensions x); simpl; [by split; [do 2 apply client_wrote_message|]|].
  by split; [apply client_wrote_message|eauto].
Qed.

Lemma declarator_setup_spec x m :
  twp (declarator_setup_connection allow_full_template_mode x)
    (λ r m', m' = (if setup_failure [] x then m else activate_mode m) ∧
             fails_as (setup_failure [] x) r) m.
Proof.
  unfold declarator_setup_connection, exchange_setup, handle_common_frame, setup_failure,
    declarator_common, fails_as, twp, mbind, prog_bind.
  destruct (takes_setup x); simpl; [|by eauto].
  destruct (answer x) as [f|]; simpl; [|by eauto].
  destruct (is_setup_answer f) eqn:Hf; simpl; [|by eauto].
  destruct (dispatch_common _ _ _) as [c|[]] eqn:Hd; simpl; [|by eauto..].
  by destruct (setup_answer_kind _ _ Hf Hd) as [-> | ->]; simpl; [|by eauto].
Qed.

(** The manager after the set-ups: which of its messages have a receiver. *)
Definition with_open (u j : bool) (v : Manager) : Manager :=
  let m := channel_manager v in let cio := channel_manager_io m in
  {| channel_manager :=
       put_io {| io := {| upstream_open := upstream_open (io cio) && u;
                          jd_open := jd_open (io cio) && j; tp_open := tp_open (io cio) |};
                 downstream_sender := downstream_sender cio; closed := closed cio;
                 sent := sent cio |} m;
     manager_identity := manager_identity v |}.

Lemma with_open_self v : with_open true true v = v.
Proof. destruct v as [[? ? ? ? ? ? ? ? ? [[] ? ? ?]] ?]. unfold with_open. simpl. by rewrite !andb_true_r. Qed.

(** A set-up: what it leaves alone, and what it asks for. *)
Record set_up_as (o : option Connection.Action) s s' : Prop := {
  su_upstreams : upstream_addresses s' = upstream_addresses s;
  su_log : ∃ ms, logged s' = logged s ++ (Sent <$> ms);
  su_cancelled : cancelled (jd_client s) = true → cancelled (jd_client s') = true;
  su_calm : cancelled (jd_client s) = false → o ≠ Some Connection.Shutdown →
    cancelled (jd_client s') = false ∧
    signal (fallback_coordinator s') =
      signal (fallback_coordinator s) || bool_decide (o = Some Connection.Fallback);
}.

Lemma react_spec e s s0 :
  upstream_addresses s0 = upstream_addresses s → (∃ ms, logged s0 = logged s ++ (Sent <$> ms)) →
  jd_client s0 = jd_client s → fallback_coordinator s0 = fallback_coordinator s →
  set_up_as (Some (action e)) s (put_tokens_of (handle_error_action e (tokens_of s0)).2 s0).
Proof.
  intros Hu Hl Hj Hf. unfold handle_error_action, tokens_of. rewrite Hj, Hf.
  split; simpl; [done|done| |].
  - intros Hc. simpl. rewrite Hc. done.
  - intros Hc Ha. simpl. rewrite Hc.
    destruct (signal (fallback_coordinator s)) eqn:Hs; [by simpl; rewrite ?Hc, ?Hs|].
    destruct (action e) eqn:Hae; simpl; rewrite ?Hc, ?Hs; done.
Qed.

Lemma set_up_none s s' : wrote s s' → set_up_as None s s'.
Proof. intros (ms & ->). split; simpl; [done|by eexists|done|]. intros -> _. by rewrite orb_false_r. Qed.

(** The server accepted. *)
Definition accepts (extensions : list N) (x : Exchange) : bool :=
  bool_decide (setup_failure extensions x = None).

Lemma upstream_start_spec x s v :
  manager s = Some v →
  twp (upstream_start cfg x) (λ r s', r = Ok tt ∧
    set_up_as (setup_failure (required_extensions cfg) x) s s' ∧ mode s' = mode s ∧
    manager s' = Some (with_open (accepts (required_extensions cfg) x) true v)) s.
Proof.
  intros Hv. unfold upstream_start, accepts. twp_step. apply twp_attempt.
  eapply twp_mono; [|apply client_setup_spec]. intros r s1 [Hw Hr]. cbn beta iota.
  destruct (setup_failure _ x) as [a|]; simpl in Hr.
  - destruct Hr as (e & -> & <-). destruct Hw as (ms & ->). unfold react. twp_step. apply twp_update.
    unfold close_upstream, close_with, with_manager, twp. simpl. rewrite Hv. simpl.
    split; [done|]. split.
    + pose proof (react_spec e s (put_log (logged s ++ (Sent <$> ms)) s) eq_refl
                    (ex_intro _ ms eq_refl) eq_refl eq_refl) as []. by split.
    + split; [done|]. unfold with_open. by rewrite andb_false_r, andb_true_r.
  - subst r. twp_step. split; [done|]. split; [by apply set_up_none|].
    destruct Hw as (ms & ->). split; [done|]. simpl. by rewrite Hv, with_open_self.
Qed.

Lemma declarator_start_spec x s v :
  manager s = Some v →
  twp (job_declarator_start allow_full_template_mode x) (λ r s', r = Ok tt ∧
    set_up_as (setup_failure [] x) s s' ∧
    mode s' = (if accepts [] x then activate_mode (mode s) else mode s) ∧
    manager s' = Some (with_open true (accepts [] x) v)) s.
Proof.
  intros Hv. unfold job_declarator_start, accepts. twp_step. apply twp_attempt.
  unfold with_mode, twp at 1.
  pose proof (declarator_setup_spec x (mode s)) as Hd. unfold twp in Hd.
  destruct (declarator_setup_connection _ _ _) as [[r m]|]; [|done]. destruct Hd as [-> Hr].
  destruct (setup_failure [] x) as [a|]; simpl in Hr.
  - destruct Hr as (e & -> & <-). unfold react. twp_step. apply twp_update.
    unfold close_declarator, close_with, with_manager, twp. simpl. rewrite Hv. simpl.
    split; [done|]. split.
    + pose proof (react_spec e s (put_mode (mode s) s) eq_refl
                    (ex_intro _ [] (eq_sym (app_nil_r _))) eq_refl eq_refl) as []. by split.
    + split; [done|]. unfold with_open. by rewrite andb_false_r, andb_true_r.
  - subst r. twp_step. split; [done|]. split.
    + split; simpl; [done|exists []; by rewrite app_nil_r|done|]. intros -> _. by rewrite orb_false_r.
    + split; [done|]. simpl. by rewrite Hv, with_open_self.
Qed.

(** ** Asking for tokens *)

(** The manager after [allocate_tokens(2)] under [identity]. *)
Definition tokens_requested (identity : string) (m : ChannelManager) : ChannelManager :=
  let r := request_id_factory m in
  if jd_open (io (channel_manager_io m)) then
    put_io {| io := io (channel_manager_io m);
              downstream_sender := downstream_sender (channel_manager_io m);
              closed := closed (channel_manager_io m);
              sent := sent (channel_manager_io m) ++
                [JobDeclaratorTo (MsgAllocateMiningJobToken r identity);
                 JobDeclaratorTo (MsgAllocateMiningJobToken (fetch_add r) identity)] |}
      (put_request_id (fetch_add (fetch_add r)) m)
  else put_request_id (fetch_add r) m.

Lemma allocate_spec identity m :
  fits_str0255 identity = true →
  allocate_two_tokens frame_fits {| channel_manager := m; manager_identity := Some identity |} =
  Done (Ok tt, {| channel_manager := tokens_requested identity m;
                  manager_identity := Some identity |}).
Proof.
  intros Hfit. destruct m as [c al r d ft ts pd se us [[uo jo to] ds cl st]].
  unfold allocate_two_tokens, tokens_requested, request_tokens. simpl.
  unfold request_token, next_request_id, send_jd, forward_or_raise, transact, mbind, prog_bind. simpl.
  rewrite Hfit. simpl. destruct jo; simpl; [|done]. by rewrite <-app_assoc.
Qed.

(** ** A session with a pool *)
#[local] Notation try_upstream := (try_upstream allow_full_template_mode frame_fits cfg).

Definition identities_fit : Prop :=
  Forall (λ u, fits_str0255 (config_identity u) = true) (config_upstreams cfg).
Definition extensions_fit : Prop := fits_64k (required_extensions cfg) = true.

Definition pool_failure (x : Session) (i : nat) : option Connection.Action :=
  setup_failure (required_extensions cfg) (pool_exchange x i).
Definition jds_failure (x : Session) (i : nat) : option Connection.Action :=
  setup_failure [] (jds_exchange x i).

(** The session for pair [i]: what mode, manager and tokens are, given the
    set-ups with its two servers, the manager [v] and the mode before. *)
Record works_for (x : Session) (i : nat) (v : Manager) s s' : Prop := {
  wf_identity : ∃ u, config_upstreams cfg !! i = Some u ∧
    manager s' = Some
      {| channel_manager := tokens_requested (config_identity u)
           (put_upstream_state (upstream_new NoChannel) (channel_manager
              (with_open (bool_decide (pool_failure x i = None))
                         (bool_decide (jds_failure x i = None)) v)));
         manager_identity := Some (config_identity u) |};
  wf_mode : mode s' = (if decide (jds_failure x i = None) then activate_mode (mode s) else mode s);
  wf_signal : cancelled (jd_client s') = false → extensions_fit →
    signal (fallback_coordinator s') =
      signal (fallback_coordinator s) || bool_decide (pool_failure x i = Some Connection.Fallback)
        || bool_decide (jds_failure x i = Some Connection.Fallback);
}.

Lemma jds_no_shutdown x : setup_failure [] x ≠ Some Connection.Shutdown.
Proof.
  unfold setup_failure. destruct (takes_setup x), (answer x) as [f|]; try done.
  destruct (is_setup_answer f); [|done]. by destruct (dispatch_common _ _ _) as [[]|].
Qed.

Lemma pool_no_shutdown x :
  extensions_fit → setup_failure (required_extensions cfg) x ≠ Some Connection.Shutdown.
Proof.
  unfold setup_failure, extensions_fit. intros ->.
  destruct (takes_setup x), (answer x) as [f|]; try done.
  destruct (is_setup_answer f); [|done]. destruct (dispatch_common _ _ _) as [[]|]; try done.
  destruct (decide _); [done|]. by destruct (takes_extensions x).
Qed.

Lemma with_open_app u j v : with_open true j (with_open u true v) = with_open u j v.
Proof.
  unfold with_open. simpl. by rewrite !andb_true_r.
Qed.

Lemma pair_history_sent i k ls ms : history i k ls → history i k (ls ++ (Sent <$> ms)).
Proof. intros Hh. by apply history_unkeyed; [|apply Forall_fmap, Forall_forall..]. Qed.

Lemma set_up_search i k o s s' : set_up_as o s s' → search i k s → search i k s'.
Proof.
  intros [Hu (ms & Hl) _ _] [Hc Hh]. split; [by rewrite Hu|]. rewrite Hl. by apply pair_history_sent.
Qed.

Lemma uncancelled o s s' :
  set_up_as o s s' → cancelled (jd_client s') = false → cancelled (jd_client s) = false.
Proof.
  intros [_ _ Hc _] Hs. destruct (cancelled (jd_client s)) eqn:E0; [|done].
  by rewrite (Hc eq_refl) in Hs.
Qed.

Lemma try_upstream_spec x c s v :
  identities_fit → config_upstreams cfg ≠ [] → (c ≤ length (config_upstreams cfg))%nat →
  search c 0 s → manager s = Some v → manager_identity v = None →
  twp (try_upstream x) (λ r s',
    match r with
    | Ok _ => ∃ i, (c ≤ i < length (config_upstreams cfg))%nat ∧ search (S i) 0 s' ∧
        works_for x i v s s' ∧ last (logged s') = Some (MiningFor i) ∧ first_pair x c i
    | Err e => kind e = CouldNotInitiateSystem ∧ rested s' ∧ searched s s' ∧ no_pair x c s'
    end) s.
Proof.
  intros Hfit Hne Hc Hs Hv Hid. unfold JdcRuntime.try_upstream.
  pose proof (cursor_length _ _ (se_cursor _ _ _ Hs)) as Hlen.
  do 2 twp_step. destruct (upstream_addresses s) as [|e0 us] eqn:Hus.
  { by destruct (config_upstreams cfg). }
  rewrite <-Hus in Hlen. clear e0 us Hus. unfold initialize_jd. do 3 twp_step.
  eapply twp_mono; [|apply (pairs_spec x _ 0 c); [lia|lia|done]].
  intros [i|e] s1 [Hk1 H1]; [|by destruct H1 as (? & ? & ?)].
  destruct H1 as (Hi & Hc1 & Hh1 & Hfirst).
  assert (search (S i) 0 s1 ∧ history i 4 (logged s1)) as [Hs1 _].
  { split; [|done]. split; [done|]. eapply history_weaken; [exact Hh1|].
    left. unfold key_lt. simpl. lia. }
  destruct (cursor_entry _ _ i Hc1) as (u & e & Hu & He & Hue); [lia|].
  do 3 twp_step. apply (twp_some_or_crash _ e _ _ He).
  assert (manager s1 = Some v) as Hv1 by (by rewrite (sd_manager _ _ Hk1)).
  twp_step. eapply twp_mono; [|by apply upstream_start_spec].
  intros ? s2 (-> & Hsu2 & Hm2 & Hv2).
  twp_step. eapply twp_mono; [|by apply declarator_start_spec].
  intros ? s3 (-> & Hsu3 & Hm3 & Hv3). rewrite with_open_app in Hv3.
  assert (fits_str0255 (entry_identity e) = true) as Hfits.
  { rewrite <-Hue. unfold identities_fit in Hfit. rewrite Forall_forall in Hfit.
    apply Hfit. by apply list_elem_of_lookup_2 with i. }
  set (w := with_open _ _ v) in Hv3.
  assert (manager_identity w = None) as Hidw by done.
  unfold twp, mbind, prog_bind, with_manager at 1. rewrite Hv3.
  unfold set_user_identity, mbind, prog_bind, ask. rewrite Hidw. cbn -[tokens_requested request_tokens].
  rewrite allocate_spec by done. cbn -[tokens_requested].
  assert (searched s s1) as Hk by done.
  exists i. split; [done|]. split; [|split; [|split; [|done]]].
  - assert (cursor (S i) (upstream_addresses s3) ∧ history i 4 (logged s3)) as [Hc3 Hh3].
    { rewrite (su_upstreams _ _ _ Hsu3), (su_upstreams _ _ _ Hsu2).
      destruct (su_log _ _ _ Hsu2) as [ms2 Hl2], (su_log _ _ _ Hsu3) as [ms3 Hl3].
      split; [done|]. rewrite Hl3, Hl2. by do 2 apply pair_history_sent. }
    split; [done|]. simpl. eapply (history_weaken _ _ i 5); [|left; unfold key_lt; simpl; lia].
    eapply history_snoc; [exact Hh3|done|unfold key_lt; simpl; lia|simpl; lia].
  - split; simpl.
    + exists u. rewrite Hue. done.
    + rewrite Hm3, Hm2, (sd_mode _ _ Hk1). unfold jds_failure, accepts. by case_bool_decide; case_decide.
    + intros Hcan Hext. pose proof (uncancelled _ _ _ Hsu3 Hcan) as Hcan2.
      pose proof (uncancelled _ _ _ Hsu2 Hcan2) as Hcan1.
      destruct (su_calm _ _ _ Hsu3 Hcan2 (jds_no_shutdown _)) as [_ ->].
      destruct (su_calm _ _ _ Hsu2 Hcan1 (pool_no_shutdown _ Hext)) as [_ ->].
      by rewrite (sd_coordinator _ _ Hk1).
  - simpl. by rewrite last_snoc.
Qed.

(** ** Services *)
#[local] Notation start_services := (start_services txout_size coinbase_sigop_cost frame_fits cfg).
#[local] Notation bootstrap_mining :=
  (bootstrap_mining txout_size coinbase_sigop_cost allow_full_template_mode frame_fits
     extranonce_allocator_new cfg).

(** The template provider's channel, the monitoring server and the listener
    of the session work. *)
Definition services_work (x : Session) : Prop :=
  tp_listens x = true ∧ negb (monitoring_address cfg) || monitoring_starts x = true ∧
  listener_binds x = true.

(** The constraints of the miner's output go out first. *)
Definition constraints_sent (v : Manager) : Manager :=
  let '(size, sigops) :=
    coinbase_output_constraints_message txout_size coinbase_sigop_cost [get_txout cfg] in
  let m := channel_manager v in let cio := channel_manager_io m in
  {| channel_manager :=
       put_io {| io := io cio; downstream_sender := downstream_sender cio; closed := closed cio;
                 sent := sent cio ++ [TemplateProvider (MsgCoinbaseOutputConstraints size sigops)] |} m;
     manager_identity := manager_identity v |}.

Definition tp_is_open (v : Manager) : bool := tp_open (io (channel_manager_io (channel_manager v))).

Lemma services_spec x s v :
  manager s = Some v →
  twp (start_services x) (λ r s',
    upstream_addresses s' = upstream_addresses s ∧ logged s' = logged s ∧
    jd_client s' = jd_client s ∧ mode s' = mode s ∧
    fallback_coordinator s' = fallback_coordinator s ∧
    (services_work x → tp_is_open v = true → r = Ok tt ∧ manager s' = Some (constraints_sent v))) s.
Proof.
  intros Hv. unfold JdcRuntime.start_services, services_work, constraints_sent, tp_is_open,
    coinbase_output_constraints.
  destruct (coinbase_output_constraints_message _ _ _) as [size sigops].
  destruct (negb (monitoring_address cfg) || monitoring_starts x); simpl.
  2: { do 2 twp_step. split_and!; [done..|]. by intros (?&?&?). }
  do 3 twp_step.
  unfold with_manager, twp at 1. rewrite Hv. unfold forward.
  destruct (tp_open _); simpl; [|by split_and!]. twp_step.
  - split_and!; [done..|]. by intros _ _.
  - split_and!; [done..|]. intros (?&?&?). congruence.
Qed.

(** A fresh manager, if the allocator can be made. *)
Definition fresh_manager (x : Session) (m : ChannelManager) : Prop :=
  channel_manager_new extranonce_allocator_new (serialize_outputs [get_txout cfg]) (tp_listens x) =
  Ok m.

Lemma fresh_fields x m :
  fresh_manager x m →
  channel_manager_io m =
    {| io := {| upstream_open := true; jd_open := true; tp_open := tp_listens x |};
       downstream_sender := ∅; closed := ∅; sent := [] |} ∧
  request_id_factory m = 0%N ∧ upstream_state m = upstream_new SoloMiningState.
Proof.
  unfold fresh_manager, channel_manager_new.
  destruct (extranonce_allocator_new _ _ _); [|done]. by intros [= <-].
Qed.

Lemma tokens_tp_open id m :
  tp_open (io (channel_manager_io (tokens_requested id m))) = tp_open (io (channel_manager_io m)).
Proof. unfold tokens_requested. by destruct (jd_open _). Qed.

(** A session in which the client mines alone. *)
Record works_alone (m : ChannelManager) s s' : Prop := {
  wa_manager : manager s' = Some (constraints_sent {| channel_manager := m; manager_identity := None |});
  wa_mode : mode s' = set_solo_mining (mode s);
  wa_coordinator : fallback_coordinator s' = fallback_coordinator s;
  wa_log : last (logged s') = Some MiningSolo;
}.

(** A session for pair [i], after its services have started. *)
Definition works_served (x : Session) (i : nat) (m : ChannelManager) s s' : Prop :=
  ∃ s1 v, works_for x i {| channel_manager := m; manager_identity := None |} s s1 ∧
    manager s1 = Some v ∧ manager s' = Some (constraints_sent v) ∧ mode s' = mode s1 ∧
    fallback_coordinator s' = fallback_coordinator s1 ∧ jd_client s' = jd_client s1 ∧
    last (logged s') = Some (MiningFor i).

Lemma solo_spec x s v :
  manager s = Some v →
  twp (into_solo_mining;; start_services x) (λ r s',
    upstream_addresses s' = upstream_addresses s ∧ logged s' = logged s ++ [MiningSolo] ∧
    jd_client s' = jd_client s ∧ mode s' = set_solo_mining (mode s) ∧
    fallback_coordinator s' = fallback_coordinator s ∧
    (services_work x → tp_is_open v = true → r = Ok tt ∧ manager s' = Some (constraints_sent v))) s.
Proof.
  intros Hv. unfold into_solo_mining. twp_step. twp_step. apply twp_update. apply twp_update.
  eapply twp_mono; [|by apply services_spec]. intros r s' (Hu & Hl & Hj & Hm & Hf & Hok).
  by split_and!.
Qed.

Lemma rested_solo s s' :
  upstream_addresses s' = upstream_addresses s → logged s' = logged s ++ [MiningSolo] →
  jd_client s' = jd_client s → rested s → rested s'.
Proof.
  intros Hu Hl Hj [(c & Hc & Hcu & Hh)|[Hcan (i & k & Hh)]].
  - left. exists c. rewrite Hu, Hl. split_and!; [done..|]. by apply history_unkeyed; [|repeat constructor..].
  - right. rewrite Hj. split; [done|]. exists i, k. rewrite Hl.
    by apply history_unkeyed; [|repeat constructor..].
Qed.

(** There is somebody to mine for, or nobody is wanted. *)
Definition configured : Prop := jdc_mode cfg = SoloMining ∨ config_upstreams cfg ≠ [].

Lemma mining_spec x c s m :
  identities_fit → configured → (c ≤ length (config_upstreams cfg))%nat → search c 0 s →
  fresh_manager x m →
  twp (bootstrap_mining x) (λ r s', rested s' ∧
    (services_work x → r = Ok tt ∧
       (works_alone m s s' ∧ (jdc_mode cfg = SoloMining ∨ no_pair x c s') ∨
        jdc_mode cfg ≠ SoloMining ∧
        ∃ i, (c ≤ i < length (config_upstreams cfg))%nat ∧ first_pair x c i ∧
          works_served x i m s s'))) s.
Proof.
  intros Hfit Hconf Hc Hs Hm. pose proof (fresh_fields _ _ Hm) as (Hio & _ & _).
  assert (rested s) as Hrest by (left; exists c; by destruct Hs).
  unfold JdcRuntime.bootstrap_mining, bootstrap_channel_manager. do 2 twp_step.
  twp_step; [|by rewrite Hm in *].
  rewrite Hm in H0. injection H0 as <-. apply twp_update.
  set (v := {| channel_manager := m; manager_identity := None |}).
  set (s1 := put_manager (Some v) s).
  assert (search c 0 s1) as Hs1 by (by destruct Hs).
  assert (tp_is_open v = tp_listens x) as Htp by (unfold tp_is_open, v; simpl; by rewrite Hio).
  destruct (decide (jdc_mode cfg = SoloMining)) as [Hsolo|Hsolo].
  - eapply twp_mono; [|by apply (solo_spec x s1 v)].
    intros r s2 (Hu & Hl & Hj & Hmd & Hf & Hok). split; [by eapply rested_solo|].
    intros Hw. destruct (Hok Hw) as [-> Hv2]; [by rewrite Htp; destruct Hw|].
    split; [done|]. left. split; [|by left]. split; [done..|]. by rewrite Hl, last_snoc.
  - twp_step. apply twp_attempt.
    eapply twp_mono; [|by apply (try_upstream_spec x c s1 v); [|destruct Hconf| | | |]].
    intros [[]|e] s2 H2; cbn beta iota.
    + destruct H2 as (i & Hi & Hs2 & Hwf & Hlast & Hfirst). pose proof Hwf as [(u & Hu & Hv2) _ _].
      eapply twp_mono; [|by apply (services_spec x s2)].
      intros r s3 (Hu3 & Hl3 & Hj3 & Hmd3 & Hf3 & Hok). split.
      { left. exists (S i). destruct Hs2. rewrite Hu3, Hl3. by split_and!; [lia|..]. }
      intros Hw. destruct (Hok Hw) as [-> Hv3].
      { unfold tp_is_open. simpl. rewrite tokens_tp_open. simpl. rewrite Hio. simpl. by destruct Hw. }
      split; [done|]. right. split; [done|]. exists i. split; [done|]. split; [done|]. exists s2. eexists.
      split; [by destruct Hwf; split|]. rewrite Hl3. by split_and!.
    + destruct H2 as (Hk & Hr & Hse & Hnone). rewrite Hk.
      assert (manager s2 = Some v) as Hv2 by (by rewrite (sd_manager _ _ Hse)).
      eapply twp_mono; [|by apply (solo_spec x s2 v)].
      intros r s3 (Hu & Hl & Hj & Hmd & Hf & Hok). split; [by eapply rested_solo|].
      intros Hw. destruct (Hok Hw) as [-> Hv3]; [by rewrite Htp; destruct Hw|].
      split; [done|]. left. split; [|right; by destruct Hnone; [left; rewrite Hj|right]].
      split; [done| | |by rewrite Hl, last_snoc].
      * by rewrite Hmd, (sd_mode _ _ Hse).
      * by rewrite Hf, (sd_coordinator _ _ Hse).
Qed.

(** ** Runs *)
#[local] Notation start_loop :=
  (start_loop txout_size coinbase_sigop_cost allow_full_template_mode frame_fits
     extranonce_allocator_new cfg).
#[local] Notation start :=
  (start txout_size coinbase_sigop_cost allow_full_template_mode frame_fits
     extranonce_allocator_new cfg).

(** The channel library makes the allocator of a client without a pool. *)
Definition allocator_ready : Prop :=
  ∃ a, extranonce_allocator_new [] SOLO_FULL_EXTRANONCE_SIZE JDC_MAX_CHANNELS = Ok a.

Lemma allocator_fresh x : allocator_ready → ∃ m, fresh_manager x m.
Proof. intros [a Ha]. unfold fresh_manager, channel_manager_new. rewrite Ha. eauto. Qed.

Lemma rested_logged s : rested s → logged_well s.
Proof. intros [(c & _ & _ & Hh)|[_ Hw]]; [by exists c, 0%nat|done]. Qed.

Lemma rested_wait x s : rested s → rested (wait x s).2.
Proof.
  unfold wait. destruct (ending x) as [[c [|]|]|]; [| |done..].
  all: intros [(k & ?)|[Hcan Hw]]; [by left; exists k|right; simpl; by rewrite Hcan].
Qed.

(** A run ends without an error, and only because a session aborts the process
    with an abort; the client has last begun to mine for a pair or alone. *)
Definition goes_on (sessions : nat → Session) (e : option Ended) : Prop :=
  (∀ k, e ≠ Some (Stopped (Err k))) ∧ (e = Some Aborted → ∃ n, ending (sessions n) = Some Aborts).
Definition mining s : Prop :=
  last (logged s) = Some MiningSolo ∨
  ∃ i, (i < length (config_upstreams cfg))%nat ∧ last (logged s) = Some (MiningFor i).

Lemma mining_wait x s : mining s → mining (wait x s).2.
Proof. unfold wait, mining. by destruct (ending x) as [[? []|]|]. Qed.

(** A session that has begun mines. *)
Definition has_begun (x : Session) (c : nat) (m : ChannelManager) s s' : Prop :=
  works_alone m s s' ∧ (jdc_mode cfg = SoloMining ∨ no_pair x c s') ∨
  jdc_mode cfg ≠ SoloMining ∧
  ∃ i, (c ≤ i < length (config_upstreams cfg))%nat ∧ first_pair x c i ∧ works_served x i m s s'.

Lemma begun_mining x c m s s' : has_begun x c m s s' → mining s'.
Proof.
  intros [[[_ _ _ Hl] _]|(_ & i & [_ Hi] & _ & s1 & v & _ & _ & _ & _ & _ & _ & Hl)]; [by left|].
  right. by exists i.
Qed.

Lemma client_loop_spec fuel sessions n s :
  identities_fit → allocator_ready → configured → rested s →
  ∃ e s', start_loop fuel sessions n s = Done (e, s') ∧ logged_well s' ∧
    ((∀ n, services_work (sessions n)) → mining s → goes_on sessions e ∧ mining s').
Proof.
  intros Hfit Hal Hconf. revert n s. induction fuel as [|fuel IH]; intros n s Hs; simpl.
  { exists None, s. split; [done|]. split; [by apply rested_logged|]. by intros _ ?. }
  destruct (decide (ending (sessions n) = Some Aborts)) as [Hab|Hab].
  { eexists _, _. split; [done|]. split; [by apply rested_logged|]. intros _ ?.
    split; [|done]. split; [done|]. by exists n. }
  pose proof (rested_wait (sessions n) s Hs) as Hs1.
  pose proof (rested_logged _ Hs1) as Hl1. pose proof (mining_wait (sessions n) s) as Hm1.
  destruct (wait (sessions n) s) as [event s1] eqn:Hw. simpl in *.
  destruct event as [[|]|].
  1, 3: eexists _, _; split; [done|]; split; [done|]; intros _ ?; split; [by split|by apply Hm1].
  destruct Hs1 as [(c & Hc & Hcu & Hh)|[Hcan _]].
  2: { unfold wait in Hw. destruct (ending (sessions n)) as [[? ?|]|]; [|done..].
       injection Hw as Hw Heq. rewrite <-Heq in Hcan. simpl in Hcan, Hw. by rewrite Hcan in Hw. }
  destruct (allocator_fresh (sessions (S n)) Hal) as [m Hm].
  assert (search c 0 (cleanup_for_fallback s1)) as Hs2 by (by split).
  destruct (twp_done _ _ _ (mining_spec _ _ _ _ Hfit Hconf Hc Hs2 Hm)) as (r & s2 & -> & Hr2 & Hok).
  simpl. destruct r as [[]|e].
  - destruct (IH (S n) s2 Hr2) as (e & s' & -> & Hl & He). exists e, s'.
    split; [done|]. split; [done|]. intros Hserv _. apply He; [done|].
    by eapply begun_mining, Hok, Hserv.
  - eexists _, _. split; [done|]. split; [by apply rested_logged in Hr2|].
    intros Hserv. by destruct (Hok (Hserv (S n))).
Qed.

Definition provider_starts : Prop :=
  template_provider cfg = Sv2Tp None ∨ template_provider cfg = BitcoinCoreIpc true.

(** The first session of a run has begun. *)
Lemma started fuel sessions s m :
  identities_fit → allocator_ready → configured →
  twp (bootstrap_mining (sessions 0%nat)) (λ r s', rested s' ∧
    (services_work (sessions 0%nat) → r = Ok tt ∧ has_begun (sessions 0%nat) 0 m s s')) s →
  ∃ e s',
    ('(r, s') ← bootstrap_mining (sessions 0%nat) s;
     match r with Ok tt => start_loop fuel sessions 0 s' | Err e => Done (failed e s') end) =
      Done (e, s') ∧ logged_well s' ∧
    ((∀ n, services_work (sessions n)) → goes_on sessions e ∧ mining s').
Proof.
  intros Hfit Hal Hconf H0. destruct (twp_done _ _ _ H0) as (r & s1 & -> & Hr & Hok); simpl.
  destruct r as [[]|e].
  - destruct (client_loop_spec fuel sessions 0 s1 Hfit Hal Hconf Hr) as (e & s' & -> & Hl & He).
    exists e, s'. split; [done|]. split; [done|]. intros Hserv. apply He; [done|].
    by eapply begun_mining, Hok, Hserv.
  - eexists _, _. split; [done|]. split; [by apply rested_logged in Hr|].
    intros Hserv. by destruct (Hok (Hserv 0%nat)).
Qed.

Lemma client_start_spec fuel sessions :
  identities_fit → allocator_ready → configured →
  ∃ e s', start fuel sessions = Done (e, s') ∧ logged_well s' ∧
    (provider_starts → (∀ n, services_work (sessions n)) → goes_on sessions e ∧ mining s').
Proof.
  intros Hfit Hal Hconf. unfold JdcRuntime.start, provider_starts.
  assert (∀ v, search 0 0 (put_bitcoin_core v (runtime_new cfg))) as Hs.
  { intros v. split; [|apply history_nil]. split; simpl.
    - intros j e. rewrite list_lookup_fmap. destruct (config_upstreams cfg !! j); [|done].
      by intros [= <-].
    - by rewrite <-list_fmap_compose. }
  destruct (allocator_fresh (sessions 0%nat) Hal) as [m Hm].
  unfold mbind, prog_bind, bootstrap_template_provider.
  destruct (template_provider cfg) as [[k|]|[|]]; simpl.
  1, 4: eexists _, _; (split; [done|]); (split; [by exists 0%nat, 0%nat; apply history_nil|]);
    by intros [?|?].
  - pose proof (mining_spec (sessions 0%nat) 0 _ m Hfit Hconf ltac:(lia) (Hs false) Hm) as H0.
    destruct (started fuel sessions _ m Hfit Hal Hconf H0) as (e & s' & Hst & Hl & He).
    exists e, s'. split; [exact Hst|]. split; [done|]. by intros _.
  - pose proof (mining_spec (sessions 0%nat) 0 _ m Hfit Hconf ltac:(lia) (Hs true) Hm) as H0.
    destruct (started fuel sessions _ m Hfit Hal Hconf H0) as (e & s' & Hst & Hl & He).
    exists e, s'. split; [exact Hst|]. split; [done|]. by intros _.
Qed.

(** ** Properties *)

(** However the network and the sessions behave, the client tries its pairs
    of pool and JD server in the order of the configuration and never goes
    back: attempt [k] at pair [i] is made at most once, there are at most three,
    all before the client mines for the pair, which it does at most once, and
    nothing is tried at an earlier pair or at one it mined for afterwards. *)
Theorem pairs_tried_in_order fuel sessions e s :
  identities_fit → allocator_ready → configured →
  start fuel sessions = Done (e, s) →
  StronglySorted key_lt (keys (logged s)) ∧
  ∀ i k, Attempting i k ∈ logged s → (i < length (config_upstreams cfg) ∧ 1 ≤ k ≤ 3)%nat.
Proof.
  intros Hfit Hal Hconf Hst.
  destruct (client_start_spec fuel sessions Hfit Hal Hconf) as (e' & s' & Hst' & (i & k & [Hs _ Hf]) & _).
  rewrite Hst in Hst'. simplify_eq. split; [done|]. intros i' k' Hin.
  by apply (proj1 (Forall_forall _ _) Hf _ Hin).
Qed.

(** C13: The failover itself never stops the client: as long as its own services
    start, whatever becomes of the dialling and the set-up of its servers and
    however often a session ends in a fallback, a run neither panics nor ends
    with an error; the last thing it has begun is to mine, for a pair of the
    configuration or alone, and it goes on, or ends because a shutdown was
    requested or because a task of a session aborted the process. *)
Theorem client_keeps_mining fuel sessions :
  identities_fit → allocator_ready → configured → provider_starts →
  (∀ n, services_work (sessions n)) →
  ∃ e s, start fuel sessions = Done (e, s) ∧
    (last (logged s) = Some MiningSolo ∨
     ∃ i, (i < length (config_upstreams cfg))%nat ∧ last (logged s) = Some (MiningFor i)) ∧
    (e = None ∨ e = Some StillRunning ∨ e = Some (Stopped (Ok tt)) ∨
     e = Some Aborted ∧ ∃ n, ending (sessions n) = Some Aborts).
Proof.
  intros Hfit Hal Hconf Hp Hserv.
  destruct (client_start_spec fuel sessions Hfit Hal Hconf) as (e & s & Hst & _ & Hno).
  destruct (Hno Hp Hserv) as [[Herr Hab] Hm]. exists e, s. split; [done|]. split; [exact Hm|].
  destruct e as [[[[]|k]| |]|]; [by auto| |by auto| |by auto].
  - by destruct (Herr k).
  - do 3 right. split; [done|by apply Hab].
Qed.

(** What a miner's connection finds in the manager. *)
Definition requested_tokens (v : Manager) : list string :=
  omap (λ m, match m with
             | JobDeclaratorTo (MsgAllocateMiningJobToken _ identity) => Some identity
             | _ => None end) (sent (channel_manager_io (channel_manager v))).

Lemma constraints_fields v :
  manager_identity (constraints_sent v) = manager_identity v ∧
  upstream_state (channel_manager (constraints_sent v)) = upstream_state (channel_manager v) ∧
  requested_tokens (constraints_sent v) = requested_tokens v.
Proof.
  unfold constraints_sent, requested_tokens. destruct (coinbase_output_constraints_message _ _ _).
  simpl. rewrite omap_app. simpl. by rewrite app_nil_r.
Qed.

Lemma tokens_fields identity m :
  sent (channel_manager_io m) = [] →
  upstream_state (tokens_requested identity m) = upstream_state m ∧
  requested_tokens {| channel_manager := tokens_requested identity m;
                      manager_identity := Some identity |} =
    (if jd_open (io (channel_manager_io m)) then [identity; identity] else []).
Proof.
  intros Hm. unfold tokens_requested, requested_tokens. simpl.
  destruct (jd_open _); simpl; by rewrite Hm.
Qed.

Lemma activated_mode m :
  config_mode m ≠ SoloMining → is_solo_mining (activate_mode m) = false.
Proof. unfold activate_mode. by destruct (config_mode m). Qed.

(** C5: A session that starts works for the first pair from its cursor on that
    answers one of three attempts; alone only if the configuration says so, no
    pair is left that answers, or a shutdown was requested.  Working for a pair it uses that pair's identity, has no upstream channel
    yet, is out of solo mode exactly if the JD server accepted the set-up, and
    then asked it for two tokens; a fallback is requested exactly if one of the
    set-ups failed with something else than an answer that does not parse, of
    which the session learns nothing.  Working alone it is in solo mode,
    without an identity. *)
Theorem session_follows_servers x c s m :
  identities_fit → extensions_fit → configured → (c ≤ length (config_upstreams cfg))%nat →
  search c 0 s → is_solo_mining (mode s) = true → config_mode (mode s) = jdc_mode cfg →
  signal (fallback_coordinator s) = false → fresh_manager x m → services_work x →
  ∃ s' v, bootstrap_mining x s = Done (Ok tt, s') ∧ manager s' = Some v ∧
    ((∃ i u, jdc_mode cfg ≠ SoloMining ∧ (c ≤ i)%nat ∧ pair_answers x i ∧
        (∀ j, (c ≤ j < i)%nat → ¬ pair_answers x j) ∧
        config_upstreams cfg !! i = Some u ∧ last (logged s') = Some (MiningFor i) ∧
        manager_identity v = Some (config_identity u) ∧
        upstream_state (channel_manager v) = upstream_new NoChannel ∧
        is_solo_mining (mode s') = negb (bool_decide (jds_failure x i = None)) ∧
        requested_tokens v =
          (if decide (jds_failure x i = None) then [config_identity u; config_identity u] else []) ∧
        (cancelled (jd_client s') = false →
         signal (fallback_coordinator s') = true ↔
           pool_failure x i = Some Connection.Fallback ∨ jds_failure x i = Some Connection.Fallback))
     ∨ (jdc_mode cfg = SoloMining ∨ cancelled (jd_client s') = true ∨
        ∀ j, (c ≤ j < length (config_upstreams cfg))%nat → ¬ pair_answers x j) ∧
       last (logged s') = Some MiningSolo ∧ manager_identity v = None ∧
       upstream_state (channel_manager v) = upstream_new SoloMiningState ∧
       is_solo_mining (mode s') = true ∧ signal (fallback_coordinator s') = false).
Proof.
  intros Hfit Hext Hconf Hc Hs Hsolo Hmode Hsig Hm Hw.
  destruct (twp_done _ _ _ (mining_spec x c s m Hfit Hconf Hc Hs Hm)) as (r & s' & -> & _ & Hok).
  destruct (Hok Hw) as [-> Hcase]. pose proof (fresh_fields _ _ Hm) as (Hio & Hrid & Hus).
  destruct Hcase as [[[Hv Hmd Hf Hl] Hwhy]|(Hns & i & Hi & [Hans Hfirst] & s1 & v & Hwf & Hv1 & Hv & Hmd & Hf & Hj & Hl)].
  { destruct (constraints_fields {| channel_manager := m; manager_identity := None |}) as (Hi & Hu & _).
    exists s'. eexists. split; [done|]. split; [exact Hv|]. right. rewrite Hi, Hu, Hmd, Hf.
    split; [exact Hwhy|by split_and!]. }
  destruct Hwf as [(u & Hu & Hv2) Hmd1 Hsig1].
  rewrite Hv1 in Hv2. injection Hv2 as ->.
  exists s'. eexists. split; [done|]. split; [exact Hv|]. left. exists i, u.
  set (w := put_upstream_state _ _) in *.
  assert (sent (channel_manager_io w) = [] ∧ upstream_state w = upstream_new NoChannel ∧
    jd_open (io (channel_manager_io w)) = bool_decide (jds_failure x i = None)) as (Hw1 & Hw2 & Hw3)
    by (subst w; simpl; by rewrite Hio).
  clearbody w. destruct (tokens_fields (config_identity u) w Hw1) as [Hu2 Ht2].
  pose proof (constraints_fields {| channel_manager := tokens_requested (config_identity u) w;
    manager_identity := Some (config_identity u) |}) as (Hi1 & Hu1 & Ht1).
  split_and!; [done|lia|done|done|done|done|by rewrite Hi1|by rewrite Hu1, <-Hw2|rewrite Hmd, Hmd1| |].
  - case_decide; case_bool_decide; try done. by rewrite activated_mode by congruence.
  - rewrite Ht1, Ht2, Hw3. by case_decide; case_bool_decide.
  - intros Hcan. rewrite Hj in Hcan. rewrite Hf, (Hsig1 Hcan Hext), Hsig. simpl.
    rewrite orb_true_iff, !bool_decide_eq_true. done.
Qed.
End failover.
