(* ===== verification/JdcRuntimeExamples.v ===== *)
(** * The JD client's failover: a run

    Two pairs of pool and JD server: the first is refused twice, then works and
    is lost; the second JD server's answer to the set-up does not parse; then
    nobody is left and the client mines alone.  The theorems of [JdcFailover]
    at this run. *)
From S2P Require Import Prelude Handler SharedMap Bitcoin Fallback JobDeclarator Setup ShareCache ServerChannels ShareForward JdClient JdcManager JdcExamples PoolExamples Connection JdcRuntime JdcFailover TproxyRuntimeExamples.

Module JdcRuntimeExamples.
#[local] Existing Instance bytes_api.
#[local] Existing Instance PoolExamples.server.
#[local] Existing Instance JdcExamples.channels.
#[local] Existing Instance JdcExamples.jdc_channels.
#[local] Existing Instance SetupExamples.spec_types.
#[local] Existing Instance TproxyRuntimeExamples.common.
#[local] Existing Instance TproxyRuntimeExamples.common_laws.

Definition txout_size (_ : TxOut) : N := 34.
Definition sigops (_ : list TxOut) : N := 4.
Definition full_template (_ : N) : N := 1.
Definition fits (_ : SetCustomMiningJob) : bool := true.
Definition allocator (_ : list byte) (_ _ : N)
    : result (@ExtranonceAllocator (@server_channels JdcExamples.channels)) ExtranonceAllocatorError :=
  Ok ([] : list N).

Definition pair_of (identity : string) : ConfigUpstream :=
  {| config_pool_address := "pool"; config_pool_port := 34254; config_jds_address := "jds";
     config_jds_port := 34264; config_pubkey := []; config_identity := identity |}.

Definition config : JobDeclaratorClientConfig :=
  {| jdc_mode := FullTemplate; config_upstreams := [pair_of "miner"; pair_of "spare"];
     get_txout := {| value := 0; script_pubkey := [x00] |};
     config_min_supported_version := 2; config_max_supported_version := 2;
     required_extensions := []; monitoring_address := false;
     template_provider := Sv2Tp None; max_past_jobs := None |}.

Definition dial (t : Tcp) : Dial :=
  {| entry_shutdown := false; resolved := true; tcp := t; noise_shutdown := false;
     noise := NoiseReady |}.

Definition net (i k : nat) : Attempt :=
  {| attempt_shutdown := false; pool_dial := dial TcpConnected;
     jds_dial := dial (if decide (i = 0 ∧ k < 3)%nat then TcpRefused else TcpConnected);
     retry_shutdown := false |}.

Definition answer_with (parses : bool) : Exchange :=
  {| takes_setup := true;
     answer := Some {| ext_type := 0; msg_type := 1; payload := parses |};
     takes_extensions := true |}.

(** The first two sessions lose their connection, the third goes on. *)
Definition session (n : nat) : Session :=
  {| waiting_shutdown := λ _, false; attempts := net; pool_exchange := λ _, answer_with true;
     jds_exchange := λ i, answer_with (bool_decide (i = 0%nat));
     tp_listens := true; monitoring_starts := true; listener_binds := true;
     ending := if decide (n < 2)%nat then Some (Cancels false true) else None |}.

#[local] Notation run fuel :=
  (start txout_size sigops full_template fits allocator config fuel session).

Definition log_of (r : rust (option Ended * Runtime)) : list LogLine :=
  match r with Done (_, s) => logged s | Panic => [] end.

Example client_run_keys :
  keys key (log_of (run 3)) = [(0, 1); (0, 2); (0, 3); (0, 4); (1, 1); (1, 4)]%nat.
Proof. vm_compute. reflexivity. Qed.

Example run_ends_solo :
  last (log_of (run 3)) = Some MiningSolo ∧
  match run 3 with Done (e, s) => (e, is_solo_mining (mode s)) | Panic => (None, false) end =
    (Some StillRunning, true).
Proof. split; vm_compute; reflexivity. Qed.

Lemma identities : identities_fit config.
Proof. by repeat constructor. Qed.
Lemma allocates : allocator_ready allocator.
Proof. by exists ([] : list N). Qed.
Lemma has_servers : configured config.
Proof. by right. Qed.

(** The state the run ends in. *)
Definition run_end : Runtime :=
  match run 3 with Done (_, s) => s | Panic => runtime_new config end.

Lemma client_run_done :
  start txout_size sigops full_template fits allocator config 3 session =
  Done (Some StillRunning, run_end).
Proof.
  destruct run_ends_solo as [_ H]. unfold run_end.
  destruct (run 3) as [[e s]|]; [|done]. by injection H as -> _.
Qed.

Lemma pairs_tried_in_order_witness :
  StronglySorted key_lt (keys key (logged run_end)) ∧
  ∀ i k, Attempting i k ∈ logged run_end → (i < 2 ∧ 1 ≤ k ≤ 3)%nat.
Proof.
  exact (pairs_tried_in_order txout_size sigops full_template fits allocator config 3 session _
           run_end identities allocates has_servers client_run_done).
Defined.

Lemma session_works n : services_work config (session n).
Proof. by split_and!. Qed.

Lemma client_keeps_mining_witness :
  ∃ e s, start txout_size sigops full_template fits allocator config 3 session = Done (e, s) ∧
    (last (logged s) = Some MiningSolo ∨ ∃ i, (i < 2)%nat ∧ last (logged s) = Some (MiningFor i)) ∧
    (e = None ∨ e = Some StillRunning ∨ e = Some (Stopped (Ok tt)) ∨
     e = Some Aborted ∧ ∃ n, ending (session n) = Some Aborts).
Proof.
  apply (client_keeps_mining txout_size sigops full_template fits allocator config 3 session
           identities allocates has_servers); [by left|exact session_works].
Defined.

(** The second session: the second pair, whose JD server answers unreadably. *)
Definition lost_first : Runtime :=
  {| mode := new_mode FullTemplate; fallback_coordinator := new_coordinator;
     bitcoin_core_sv2 := false; jd_client := {| cancelled := false; is_alive := true |};
     upstream_addresses :=
       upstream_addresses (flag_upstream 0 (runtime_new config));
     manager := None; logged := [] |}.

Lemma lost_first_search : search config 1 0 lost_first.
Proof.
  split; [|apply history_nil]. split; [|done].
  intros [|[|j]] e He; [injection He as <-; done..|done].
Qed.

(** Of an unreadable answer the session learns nothing: it does not fall back,
    and in solo mode nobody listens to the pool it is connected to. *)
Example unreadable_answer_strands :
  match bootstrap_mining txout_size sigops full_template fits allocator config (session 1) lost_first with
  | Done (r, s) => (last (logged s), is_solo_mining (mode s), signal (fallback_coordinator s),
                    (λ v, (manager_identity v, upstream_state (channel_manager v))) <$> manager s)
  | Panic => (None, false, true, None)
  end = (Some (MiningFor 1), true, false, Some (Some "spare"%string, upstream_new NoChannel)).
Proof. vm_compute. reflexivity. Qed.

Lemma session_follows_servers_witness :
  ∃ s' v, bootstrap_mining txout_size sigops full_template fits allocator config (session 1) lost_first =
      Done (Ok tt, s') ∧ manager s' = Some v ∧
    ((∃ i u, jdc_mode config ≠ SoloMining ∧ (1 ≤ i)%nat ∧ pair_answers (session 1) i ∧
        (∀ j, (1 ≤ j < i)%nat → ¬ pair_answers (session 1) j) ∧
        config_upstreams config !! i = Some u ∧ last (logged s') = Some (MiningFor i) ∧
        manager_identity v = Some (config_identity u) ∧
        upstream_state (channel_manager v) = upstream_new NoChannel ∧
        is_solo_mining (mode s') = negb (bool_decide (jds_failure (session 1) i = None)) ∧
        requested_tokens v =
          (if decide (jds_failure (session 1) i = None)
           then [config_identity u; config_identity u] else []) ∧
        (cancelled (jd_client s') = false →
         signal (fallback_coordinator s') = true ↔
           pool_failure config (session 1) i = Some Connection.Fallback ∨
           jds_failure (session 1) i = Some Connection.Fallback))
     ∨ (jdc_mode config = SoloMining ∨ cancelled (jd_client s') = true ∨
        ∀ j, (1 ≤ j < 2)%nat → ¬ pair_answers (session 1) j) ∧
       last (logged s') = Some MiningSolo ∧ manager_identity v = None ∧
       upstream_state (channel_manager v) = upstream_new SoloMiningState ∧
       is_solo_mining (mode s') = true ∧ signal (fallback_coordinator s') = false).
Proof.
  destruct (allocator_fresh allocator config (session 1) allocates) as [m Hm].
  apply (session_follows_servers txout_size sigops full_template fits allocator config (session 1)
           1 lost_first m identities);
    [reflexivity|exact has_servers|simpl; lia|exact lost_first_search|reflexivity|reflexivity
    |reflexivity|exact Hm|exact (session_works 1)].
Defined.
End JdcRuntimeExamples.
